(* ===== verification/_CoqProject ===== *)
-Q . S2P
Prelude.v
Heap.v
Deq.v
Prioq.v
PrioqFacts.v
Queueing.v
QueueingFacts.v
QueueOrder.v
QueueSpec.v
Msgmgr.v
Cblist.v
Double.v
CcdHeap.v
Conds.v
CondsFacts.v
SpanTree.v
Quiescence.v
QuiescenceFacts.v
CkQ.v
Handlers.v
Sched.v
SchedFacts.v
SchedLoops.v
SchedExample.v
Pool.v
Args.v
ArgsFacts.v
Reduce.v
ReduceFacts.v
ReduceMachine.v
ReduceLists.v
Groups.v
GroupsFacts.v
Mempool.v
MempoolFacts.v
MempoolOps.v
MempoolSplit.v
MempoolFill.v
MempoolFree.v
MempoolChain.v
MempoolBlocks.v
MempoolSpec.v
TaskQueue.v
TaskQueueFacts.v
PCQueue.v
PCQueueFacts.v
Broadcast.v
BroadcastFacts.v
BroadcastSpec.v
Crc32.v
Crc32Facts.v
DoubleFacts.v
PrimeList.v
Random.v
RandomFacts.v
RandomSpec.v
Cldb.v
CldbFacts.v
CldbSpec.v
MsgMem.v
MsgMemFacts.v
MsgChunks.v
MsgMemSpec.v
MsgBundle.v
Cpthreads.v
CpthreadsSync.v
CpthreadsJoin.v
CpthreadsSpec.v
CpthreadsSafe.v
CpKeys.v
CpAttr.v
