(* ===== verification/Prelude.v ===== *)
(** * A verification library for the Converse core of Charm++

    Charm++ runs on Converse, a runtime written in C (src/src/conv-core,
    src/src/arch/util, src/src/util).  Every processor runs a scheduler that
    takes messages from queues and from the network and calls the handler whose
    number the message carries; around it are callbacks, message tables,
    allocators, collective operations and quiescence detection.  This library
    models these parts and proves what their users rely on.

    ** The parts, their files and their sources

    - Message queue: [Heap], [Deq], [Prioq], [PrioqFacts], [Queueing],
      [QueueingFacts], [QueueOrder], [QueueSpec] for conv-core/queueing.C and
      queueing.h (circular buffers, a heap of buckets with a hash table, the
      [Cqs...] operations; the build without [CMK_USE_STL_MSGQ] and [FASTQ]).
    - Tagged message tables: [Msgmgr] for conv-core/msgmgr.c ([Cmm...]).
    - Callbacks: [Cblist], [Double], [CcdHeap], [Conds], [CondsFacts] for
      conv-core/conv-conds.c ([Ccd...]).
    - Quiescence detection: [SpanTree] (the macros of converse.h),
      [Quiescence], [QuiescenceFacts] for conv-core/quiescence.c.
    - Scheduler: [CkQ] (util/cklists.h, conv-lists.C), [Handlers], [Sched],
      [SchedFacts], [SchedLoops], [SchedExample] for conv-core/convcore.c
      ([CsdNextMessage], the [Csd...] loops, handler registration).
    - Allocators: [Pool] for conv-core/cmipool.c, [Mempool] and the
      [Mempool...] files for arch/util/mempool.c.
    - Message memory: [MsgMem], [MsgMemFacts], [MsgChunks], [MsgMemSpec],
      [MsgBundle] for the reference-counted blocks and the bundles of
      convcore.c ([CmiAlloc], [CmiFree], [CmiMultipleSend]).
    - Arguments: [Args], [ArgsFacts] for the [CmiGetArg...] routines.
    - Collective operations: [Reduce], [ReduceFacts], [ReduceMachine],
      [ReduceLists] ([CmiReduce...]), [Groups], [GroupsFacts] (groups and
      multicast), all of convcore.c; [Broadcast], [BroadcastFacts],
      [BroadcastSpec] for arch/util/machine-broadcast.c.
    - Queues between threads: [TaskQueue], [TaskQueueFacts] for
      conv-core/taskqueue.h; [PCQueue], [PCQueueFacts] for arch/util/pcqueue.h.
    - Checksums: [Crc32], [Crc32Facts] for util/crc32.c.
    - Random numbers: [DoubleFacts], [PrimeList], [Random], [RandomFacts],
      [RandomSpec] for conv-core/random.c.
    - Load balancing: [Cldb], [CldbFacts], [CldbSpec] for the tokens of
      conv-ldb/cldb.c.
    - Threads: [Cpthreads], [CpthreadsSync], [CpthreadsJoin], [CpthreadsSpec],
      [CpthreadsSafe], [CpKeys], [CpAttr] for conv-core/cpthreads.c and
      futures.c, with suspending and awakening as in threads.c.

    How they interact: the scheduler reaches its queues through the classes
    [FifoOps] and [CqsOps] of [Sched], which [CkQ] and [Queueing] implement;
    quiescence detection and reductions see the spanning tree through the class
    of [SpanTree], which the macros implement; the heaps of [Prioq] and
    [CcdHeap] share the order interface of [Heap]; reductions, broadcasts and
    quiescence detection are machines whose processors exchange messages;
    threads are a machine whose scheduler resumes any thread that was awakened.

    ** How code becomes definitions

    A C integer is a [Z] in the range of its type, with [u32], [i32] and the
    like where the code wraps; pointers are numbers, and memory that is shared
    or aliased is a finite map or a list indexed by them.  [CmiAbort], a failed
    [CmiAssert], a read of freed memory and an operation that C leaves
    undefined are the outcome [Aborted]; values read before they are written
    are arbitrary ([Uninit]).  A handler is a function of the state of its
    processor that returns the new state and the messages it sends; machines
    are step relations or functions on event lists that allow every order of
    delivery, and the thread queues take one shared access per step (the
    accesses of a thread in program order).  Doubles are the executable IEEE
    numbers of the Standard Library.  [malloc] and the block allocators, the
    network, handler bodies and client functions are parameters or classes with
    laws, and each theorem that assumes such a law has a witness.

    Loops that are not structural take fuel: bounded by the size of what they
    traverse (queue lengths, numbers of blocks, the widths of words), and the
    theorems about them show that the result is reached, not only that it is
    right when it is.  [CsdScheduler] may run for ever; its theorems state how
    many rounds suffice, or that none do.

    ** What the theorems show

    - The queue refines lists indexed by priority; messages leave sorted by
      priority, first-in first-out within one; none is lost (C1 to C3).
    - Message tables refine a sequence of tagged messages and survive packing
      (C6, C8).
    - Callback lists hold the live registrations, raising a condition calls
      each once, timers fire once and in order (C10 to C12); the intervals
      between polls stay in range (C15).
    - Quiescence is announced only when no message is in transit, by handlers
      that never abort, on every tree that the macros give (C16, C17, C19).
    - The FIFO refines a list, handlers are dispatched by number, the scheduler
      loses no message, polls the network in time and drains its queues
      (C20, C22 to C25).
    - Both allocators hand out disjoint memory for ever (C30, C40); messages
      keep their contents until their last holder frees them, also in bundles,
      which deliver what was put in (C29, C35).
    - Options are taken out of [argv] in place, and printed numbers are read
      back (C32, C33).
    - Reductions deliver the merge of all contributions once; groups agree and
      multicasts and broadcasts reach everyone once (C26, C34, C38, C39).
    - Under every interleaving each task of the work-stealing queue is taken
      once, and the producer-consumer queue is first-in first-out (C4, C18).
    - Threads exclude each other by mutexes, no wake-up is lost, and joins and
      futures hand over what was given (C7, C28, C36).
    - The checksum is division of polynomials and detects bursts (C27, C31).
    - The random streams are exact linear congruential generators of period
      2^64 with results in range (C14, C21, C37).
    - A message that a load balancer may move is taken or handed over once, and
      parcels are bounded (C9, C13).
    - Where the code does not do what it means to: C5 and
      the findings of the manifest, several of them with ordinary theorems
      (for example [ckq_unpack_never_succeeds], [list_reduce_overflows]).

    ** Not modelled

    Code that only calls the operating system or the network (machine layers,
    affinity, CCS, tracing), third-party code (ptmalloc, lz4, metis, hwloc),
    context switches and the stacks of threads (a suspended thread is what it
    does next), isomalloc (mmap at fixed addresses over all processors), the standard-library variant of the message queue, and
    the C++ layer (chares, AMPI, the translator).  [CmiGetArgDouble] needs
    [sscanf].  Weak memory orders are not modelled: the accesses to the thread
    queues are sequentially consistent, which is what their fences are for. *)

From stdpp Require Export base list list_numbers numbers option gmap fin_maps sorting.
From Stdlib Require Export ZArith Lia.

(** ** Machine integers

    C integers are values of [Z] kept in the range of their type; the
    conversions below are the ones C performs on assignment and in
    unsigned arithmetic. *)

Declare Scope c_scope.
Delimit Scope c_scope with C.

Definition u8 (z : Z) : Z := (z mod 2 ^ 8)%Z.
Definition u16 (z : Z) : Z := (z mod 2 ^ 16)%Z.
Definition u32 (z : Z) : Z := (z mod 2 ^ 32)%Z.
Definition u64 (z : Z) : Z := (z mod 2 ^ 64)%Z.
Definition i32 (z : Z) : Z := ((z + 2 ^ 31) mod 2 ^ 32 - 2 ^ 31)%Z.
Definition i64 (z : Z) : Z := ((z + 2 ^ 63) mod 2 ^ 64 - 2 ^ 63)%Z.

(** Pointers to opaque client data ([void *]). *)
Definition ptr := Z.
Bind Scope Z_scope with ptr.
Definition NULL : ptr := 0%Z.

(** The contents of memory that was allocated and not yet written.  Every
    definition that allocates takes such a value, and every theorem holds
    for all of them: no result depends on uninitialised memory. *)
Class Uninit := uninit_word : ptr.

(** Code that may call [CmiAbort] or fail a [CmiAssert]. *)
Inductive outcome (A : Type) := Normal (a : A) | Aborted.
Arguments Normal {A} a.
Arguments Aborted {A}.

#[global] Instance outcome_ret : MRet outcome := @Normal.
#[global] Instance outcome_bind : MBind outcome := fun A B f m =>
  match m with Normal a => f a | Aborted => Aborted end.

(** [CmiAssert(b)]. *)
Definition CmiAssert (b : bool) : outcome unit := if b then Normal tt else Aborted.

#[global] Arguments Nat.eqb : simpl never.
#[global] Arguments replicate : simpl never.
#[global] Arguments Nat.leb : simpl never.
#[global] Arguments Nat.ltb : simpl never.
#[global] Arguments Nat.div : simpl never.
#[global] Arguments Nat.mul : simpl never.
#[global] Arguments Z.add : simpl never.
#[global] Arguments Z.sub : simpl never.
#[global] Arguments Z.mul : simpl never.
#[global] Arguments Z.pow : simpl never.

(** ** Tactics *)

(** Case analysis on the boolean comparisons of [nat] and [Z]. *)
Ltac bool_cases :=
  repeat match goal with
  | |- context [Nat.eqb ?a ?b] => destruct (Nat.eqb_spec a b)
  | |- context [Nat.ltb ?a ?b] => destruct (Nat.ltb_spec a b)
  | |- context [Nat.leb ?a ?b] => destruct (Nat.leb_spec a b)
  | |- context [Z.eqb ?a ?b] => destruct (Z.eqb_spec a b)
  | |- context [Z.ltb ?a ?b] => destruct (Z.ltb_spec a b)
  | |- context [Z.leb ?a ?b] => destruct (Z.leb_spec a b)
  end.

(** The same on a hypothesis. *)
Ltac bool_cases_in H :=
  repeat match type of H with
  | context [Nat.eqb ?a ?b] => destruct (Nat.eqb_spec a b)
  | context [Nat.ltb ?a ?b] => destruct (Nat.ltb_spec a b)
  | context [Nat.leb ?a ?b] => destruct (Nat.leb_spec a b)
  | context [Z.eqb ?a ?b] => destruct (Z.eqb_spec a b)
  | context [Z.ltb ?a ?b] => destruct (Z.ltb_spec a b)
  | context [Z.leb ?a ?b] => destruct (Z.leb_spec a b)
  end.

Create HintDb charm.
Create Rewrite HintDb charm_len.
#[export] Hint Rewrite @length_app @length_take @length_drop @length_insert
  @length_replicate @length_nil @length_cons @length_seq @length_fmap : charm_len.

(** Arithmetic on list lengths. *)
Ltac len := autorewrite with charm_len in *; lia.

(** ** Machine-integer lemmas *)

Lemma u32_range z : (0 <= u32 z < 2 ^ 32)%Z.
Proof. apply Z.mod_pos_bound. lia. Qed.

Lemma u32_small z : (0 <= z < 2 ^ 32)%Z -> u32 z = z.
Proof. apply Z.mod_small. Qed.

Lemma i32_range z : (- 2 ^ 31 <= i32 z < 2 ^ 31)%Z.
Proof. unfold i32. pose proof (Z.mod_pos_bound (z + 2 ^ 31) (2 ^ 32)). lia. Qed.

Lemma i32_small z : (- 2 ^ 31 <= z < 2 ^ 31)%Z -> i32 z = z.
Proof. intros. unfold i32. rewrite Z.mod_small; lia. Qed.

Lemma i64_small z : (- 2 ^ 63 <= z < 2 ^ 63)%Z -> i64 z = z.
Proof. intros. unfold i64. rewrite Z.mod_small; lia. Qed.

Lemma i64_range z : (- 2 ^ 63 <= i64 z < 2 ^ 63)%Z.
Proof. unfold i64. pose proof (Z.mod_pos_bound (z + 2 ^ 63) (2 ^ 64)). lia. Qed.

(** Conversions between the signed and the unsigned type keep the residue. *)
Lemma i32_cong z : exists k, i32 z = (z + k * 2 ^ 32)%Z.
Proof.
  exists (- ((z + 2 ^ 31) / 2 ^ 32))%Z. unfold i32.
  pose proof (Z.div_mod (z + 2 ^ 31) (2 ^ 32)). lia.
Qed.

Lemma i64_cong z : exists k, i64 z = (z + k * 2 ^ 64)%Z.
Proof.
  exists (- ((z + 2 ^ 63) / 2 ^ 64))%Z. unfold i64.
  pose proof (Z.div_mod (z + 2 ^ 63) (2 ^ 64)). lia.
Qed.

Lemma u32_cong z k : u32 (z + k * 2 ^ 32) = u32 z.
Proof. apply Z.mod_add. lia. Qed.

Lemma u32_i32 z : u32 (i32 z) = u32 z.
Proof. destruct (i32_cong z) as [k ->]. apply u32_cong. Qed.

Lemma i32_cong_add z k : i32 (z + k * 2 ^ 32) = i32 z.
Proof.
  unfold i32. replace (z + k * 2 ^ 32 + 2 ^ 31)%Z with (z + 2 ^ 31 + k * 2 ^ 32)%Z by lia.
  by rewrite Z.mod_add by lia.
Qed.

Lemma i32_u32 z : i32 (u32 z) = i32 z.
Proof.
  unfold u32. rewrite (Z.mod_eq z (2 ^ 32)) by lia.
  replace (z - 2 ^ 32 * (z / 2 ^ 32))%Z with (z + - (z / 2 ^ 32) * 2 ^ 32)%Z by lia.
  apply i32_cong_add.
Qed.

(** ** Numbers as bit strings *)

Section bits.
Open Scope Z_scope.

(** A number below [2^n] has no bits from [n] on, and conversely. *)
Lemma below_bits n x : 0 <= n -> 0 <= x -> x < 2 ^ n <-> forall i, n <= i -> Z.testbit x i = false.
Proof.
  intros Hn Hx. split.
  - intros H i Hi. rewrite <- (Z.mod_small x (2 ^ n)) by lia. apply Z.mod_pow2_bits_high. lia.
  - intros H. assert (x mod 2 ^ n = x) as <-; [|apply Z.mod_pos_bound; lia]. apply Z.bits_inj'. intros i Hi.
    destruct (decide (i < n)); [by apply Z.mod_pow2_bits_low; lia|]. rewrite Z.mod_pow2_bits_high by lia. symmetry. apply H. lia.
Qed.

Lemma lxor_below n a b : 0 <= n -> 0 <= a < 2 ^ n -> 0 <= b < 2 ^ n -> 0 <= Z.lxor a b < 2 ^ n.
Proof.
  intros Hn Ha Hb. assert (0 <= Z.lxor a b) as H by (apply Z.lxor_nonneg; lia). split; [done|]. apply below_bits; [done|done|].
  intros i Hi. rewrite Z.lxor_spec, (proj1 (below_bits n a Hn ltac:(lia)) ltac:(lia)), (proj1 (below_bits n b Hn ltac:(lia)) ltac:(lia)) by done. done.
Qed.

Lemma lor_disjoint h l n : 0 <= n -> 0 <= l < 2 ^ n -> Z.lor (h * 2 ^ n) l = h * 2 ^ n + l.
Proof.
  intros Hn Hl. assert (Z.land (h * 2 ^ n) l = 0) as H0.
  { apply Z.bits_inj'. intros i Hi. rewrite Z.land_spec, Z.bits_0. destruct (decide (i < n)).
    - by rewrite Z.mul_pow2_bits_low by lia.
    - rewrite (proj1 (below_bits n l Hn ltac:(lia)) ltac:(lia)) by lia. apply andb_false_r. }
  rewrite <- Z.lxor_lor by done. symmetry. by apply Z.add_nocarry_lxor.
Qed.

End bits.

#[export] Hint Resolve u32_range i32_range : charm.

(** ** List lemmas *)

Lemma take_insert_app {A} (l : list A) n x :
  n < length l -> take (S n) (<[n:=x]> l) = take n l ++ [x].
Proof.
  intros. rewrite (take_S_r _ _ x) by (by apply list_lookup_insert_eq).
  by rewrite take_insert_ge by lia.
Qed.

Lemma drop_insert_cons {A} (l : list A) n x :
  n < length l -> drop n (<[n:=x]> l) = x :: drop (S n) l.
Proof.
  intros. rewrite (drop_S _ x) by (by apply list_lookup_insert_eq).
  f_equal. by rewrite drop_insert_lt by lia.
Qed.
