(* ===== verification/Heap.v ===== *)
(** * Heap: order theory of the implicit binary heaps

    Two components of Converse keep a binary heap in an array with the root
    at index 1: the priority buckets of queueing.C and the timer callbacks of
    conv-conds.c.  This file holds the order interface they share and the
    invariants of an upward and a downward pass, stated on the keys at each
    index. *)

From S2P Require Import Prelude.

(** A strict comparison "[a] comes after [b]" of a total preorder. *)
Class GtOrder {K : Type} (gt : K -> K -> bool) : Prop := {
  gt_asym a b : gt a b = true -> gt b a = false;
  gt_cotrans a b c : gt a b = false -> gt b c = false -> gt a c = false
}.

Section heap.
Context {K : Type} (gt : K -> K -> bool) {GO : GtOrder gt}.

Definition kle (a b : K) : Prop := gt a b = false.

Lemma kle_refl a : kle a a.
Proof. unfold kle. destruct (gt a a) eqn:E; [|done]. by rewrite (gt_asym _ _ E) in E. Qed.

Lemma kle_trans a b c : kle a b -> kle b c -> kle a c.
Proof. apply gt_cotrans. Qed.

Lemma kle_of_gt a b : gt a b = true -> kle b a.
Proof. apply gt_asym. Qed.

Lemma kle_total a b : kle a b \/ kle b a.
Proof. unfold kle. destruct (gt a b) eqn:E; [right; by apply gt_asym|by left]. Qed.

(** Every node up to [n] is not before its parent. *)
Definition heap_ok (k : nat -> K) (n : nat) : Prop :=
  forall i, 2 <= i <= n -> kle (k (i / 2)) (k i).

(** The heap order may fail only between [p] and its parent. *)
Record up_inv (k : nat -> K) (n p : nat) : Prop := {
  up_edges i : 2 <= i <= n -> i <> p -> kle (k (i / 2)) (k i);
  up_bridge i : 2 <= p -> 2 <= i <= n -> i / 2 = p -> kle (k (p / 2)) (k i)
}.

(** The heap order may fail only between [p] and its children. *)
Record down_inv (k : nat -> K) (n p : nat) : Prop := {
  down_edges i : 2 <= i <= n -> i / 2 <> p -> kle (k (i / 2)) (k i);
  down_bridge i : 2 <= p -> 2 <= i <= n -> i / 2 = p -> kle (k (p / 2)) (k i)
}.

Definition swap_at (k : nat -> K) (i j x : nat) : K :=
  if x =? i then k j else if x =? j then k i else k x.

Lemma heap_ok_ext k k' n :
  (forall i, 1 <= i <= n -> k i = k' i) -> heap_ok k n -> heap_ok k' n.
Proof.
  intros He Hok i Hi. assert (1 <= i / 2 <= n).
  { pose proof (Nat.div_mod_eq i 2). pose proof (Nat.mod_upper_bound i 2). lia. }
  rewrite <- !He by lia. by apply Hok.
Qed.

Lemma half_bounds i : 2 <= i -> 1 <= i / 2 /\ i / 2 < i /\ (i = 2 * (i / 2) \/ i = 2 * (i / 2) + 1).
Proof. pose proof (Nat.div_mod_eq i 2). pose proof (Nat.mod_upper_bound i 2). lia. Qed.

Lemma up_inv_ext k k' n p :
  p <= n -> (forall i, 1 <= i <= n -> k i = k' i) -> up_inv k n p -> up_inv k' n p.
Proof.
  intros Hp He [He1 Hb]. split; intros i Hi; pose proof (half_bounds i).
  - intros. rewrite <- !He by lia. apply He1; lia.
  - intros. pose proof (half_bounds p). rewrite <- !He by lia. apply Hb; lia.
Qed.

Lemma down_inv_ext k k' n p :
  p <= n -> (forall i, 1 <= i <= n -> k i = k' i) -> down_inv k n p -> down_inv k' n p.
Proof.
  intros Hp He [He1 Hb]. split; intros i Hi; pose proof (half_bounds i).
  - intros. rewrite <- !He by lia. apply He1; lia.
  - intros. pose proof (half_bounds p). rewrite <- !He by lia. apply Hb; lia.
Qed.

(** A new last element breaks at most the edge to its parent. *)
Lemma up_inv_last k n : heap_ok k n -> up_inv k (S n) (S n).
Proof.
  intros Hok. split; intros i; pose proof (half_bounds i).
  - intros. apply Hok. lia.
  - lia.
Qed.

(** A new root breaks at most the edges to its children. *)
Lemma down_inv_root k k' n :
  heap_ok k n -> (forall i, 2 <= i <= n -> k' i = k i) -> down_inv k' n 1.
Proof.
  intros Hok He. split; [|lia]. intros i Hi Hne. pose proof (half_bounds i).
  rewrite !He by lia. by apply Hok.
Qed.

Lemma up_inv_done k n p :
  (p <= 1 \/ kle (k (p / 2)) (k p)) -> up_inv k n p -> heap_ok k n.
Proof.
  intros Hd [He Hb] i Hi. destruct (decide (i = p)) as [->|]; [|by apply He].
  destruct Hd; [lia|done].
Qed.

Lemma down_inv_done k n p :
  (forall i, 2 <= i <= n -> i / 2 = p -> kle (k p) (k i)) -> down_inv k n p -> heap_ok k n.
Proof.
  intros Hd [He Hb] i Hi. destruct (decide (i / 2 = p)) as [E|]; [|by apply He].
  rewrite E. by apply Hd.
Qed.

Lemma up_inv_step k n p :
  2 <= p <= n -> kle (k p) (k (p / 2)) -> up_inv k n p ->
  up_inv (swap_at k p (p / 2)) n (p / 2).
Proof.
  intros Hp Hle [He Hb]. pose proof (half_bounds p) as Hhp.
  split; intros i; unfold swap_at; pose proof (half_bounds i).
  - intros Hi Hne. destruct (decide (i = p)) as [->|Hip].
    + bool_cases; try lia. done.
    + destruct (decide (i / 2 = p)) as [E|E].
      * rewrite E. bool_cases; try lia. apply Hb; lia.
      * destruct (decide (i / 2 = p / 2)) as [E'|E'].
        -- rewrite E'. bool_cases; try lia.
           apply (kle_trans _ (k (p / 2))); [done|]. rewrite <- E'. apply He; lia.
        -- bool_cases; try lia. apply He; lia.
  - intros Hp2 Hi E. pose proof (half_bounds (p / 2)).
    bool_cases; try lia.
    + subst i. apply He; lia.
    + apply (kle_trans _ (k (p / 2))).
      * apply He; lia.
      * rewrite <- E. apply He; lia.
Qed.

Lemma down_inv_step k n p c :
  1 <= p -> 2 <= c <= n -> c / 2 = p -> kle (k c) (k p) ->
  (forall i, 2 <= i <= n -> i / 2 = p -> kle (k c) (k i)) ->
  down_inv k n p -> down_inv (swap_at k p c) n c.
Proof.
  intros Hp Hc Hcp Hle Hmin [He Hb]. pose proof (half_bounds c).
  split; intros i; unfold swap_at; pose proof (half_bounds i).
  - intros Hi Hne. destruct (decide (i / 2 = p)) as [E|E].
    + rewrite E. bool_cases; try lia; [done|]. by apply Hmin.
    + destruct (decide (i = p)) as [->|].
      * bool_cases; try lia. apply Hb; lia.
      * bool_cases; try lia. apply He; lia.
  - intros _ Hi E. rewrite Hcp. bool_cases; try lia.
    rewrite <- E. apply He; lia.
Qed.

Lemma heap_root_min k n i : heap_ok k n -> 1 <= i <= n -> kle (k 1) (k i).
Proof.
  intros Hok. induction i as [i IH] using lt_wf_ind. intros Hi.
  destruct (decide (i = 1)) as [->|]; [apply kle_refl|].
  pose proof (half_bounds i). apply (kle_trans _ (k (i / 2))).
  - apply IH; lia.
  - apply Hok. lia.
Qed.

Lemma heap_ok_shrink k n m : m <= n -> heap_ok k n -> heap_ok k m.
Proof. intros ? Hok i ?. apply Hok. lia. Qed.
End heap.

(** ** Exchanging two cells of an array *)

Section exchange.
Context {A : Type} `{Inhabited A}.

Definition list_swap (l : list A) (i j : nat) : list A :=
  <[j := l !!! i]> (<[i := l !!! j]> l).

Lemma length_list_swap l i j : length (list_swap l i j) = length l.
Proof. unfold list_swap. len. Qed.

Lemma list_swap_lookup l i j x :
  i < length l -> j < length l ->
  list_swap l i j !!! x = if x =? i then l !!! j else if x =? j then l !!! i else l !!! x.
Proof.
  intros Hi Hj. unfold list_swap. bool_cases; subst.
  - destruct (decide (i = j)) as [->|].
    + by rewrite list_lookup_total_insert_eq by len.
    + by rewrite list_lookup_total_insert_ne, list_lookup_total_insert_eq by (done || len).
  - by rewrite list_lookup_total_insert_eq by len.
  - by rewrite !list_lookup_total_insert_ne by done.
Qed.

Lemma list_swap_perm l i j : i < length l -> j < length l -> list_swap l i j ≡ₚ l.
Proof.
  intros Hi Hj. apply Permutation_inj. split; [apply length_list_swap|].
  exists (fun x => if x =? i then j else if x =? j then i else x). split.
  - intros x y. bool_cases; lia.
  - intros x. destruct (decide (x < length l)) as [Hx|Hx].
    + rewrite list_lookup_lookup_total_lt by (by rewrite length_list_swap).
      rewrite list_swap_lookup by done.
      rewrite list_lookup_lookup_total_lt by (bool_cases; lia). by bool_cases.
    + rewrite !lookup_ge_None_2; [done| |by rewrite length_list_swap; lia].
      bool_cases; lia.
Qed.
End exchange.
#[export] Hint Rewrite @length_list_swap : charm_len.

(** ** Rearranging the cells [1..n] of an array *)

Section rearrange.
Context {A : Type} `{Inhabited A}.

(** The live cells of an array whose heap has [n] elements. *)
Definition cells (n : nat) (h : list A) : list A := take n (drop 1 h).

Record rearranged (n : nat) (h h' : list A) : Prop := {
  rearranged_perm : h' ≡ₚ h;
  rearranged_frame i : i = 0 \/ n < i -> h' !!! i = h !!! i
}.

Lemma rearranged_refl n h : rearranged n h h.
Proof. by split. Qed.

Lemma rearranged_trans n h1 h2 h3 :
  rearranged n h1 h2 -> rearranged n h2 h3 -> rearranged n h1 h3.
Proof.
  intros [P1 F1] [P2 F2]. split.
  - by rewrite P2.
  - intros i Hi. by rewrite F2, F1.
Qed.

Lemma rearranged_length n h h' : rearranged n h h' -> length h' = length h.
Proof. intros [P _]. by apply Permutation_length. Qed.

Lemma list_swap_rearranged n h i j :
  1 <= i <= n -> 1 <= j <= n -> n < length h -> rearranged n h (list_swap h i j).
Proof.
  intros. split.
  - apply list_swap_perm; lia.
  - intros x Hx. rewrite list_swap_lookup by lia. by bool_cases; try lia.
Qed.

Lemma array_split n (h : list A) :
  n < length h -> h = (h !!! 0) :: cells n h ++ drop (S n) h.
Proof.
  intros Hn. destruct h as [|x h]; [simpl in Hn; lia|]. simpl. f_equal.
  unfold cells. simpl. rewrite drop_0. by rewrite take_drop.
Qed.

Lemma rearranged_cells n h h' :
  n < length h -> rearranged n h h' -> cells n h' ≡ₚ cells n h.
Proof.
  intros Hn HR. pose proof (rearranged_length _ _ _ HR) as Hl. destruct HR as [P F].
  rewrite (array_split n h), (array_split n h') in P by lia.
  rewrite (F 0) in P by lia. apply Permutation_cons_inv in P.
  assert (drop (S n) h' = drop (S n) h) as Hd.
  { apply list_eq. intros i. rewrite !lookup_drop.
    destruct (decide (S n + i < length h)) as [Hi|Hi].
    - rewrite !list_lookup_lookup_total_lt by lia. f_equal. apply F. lia.
    - rewrite !lookup_ge_None_2 by lia. done. }
  rewrite Hd in P. by apply Permutation_app_inv_r in P.
Qed.

Lemma cells_lookup n (h : list A) i : 1 <= i <= n -> n < length h -> (h !!! i) ∈ cells n h.
Proof.
  intros Hi Hn. apply list_elem_of_lookup. exists (i - 1). unfold cells.
  rewrite lookup_take_lt, lookup_drop by lia.
  replace (1 + (i - 1)) with i by lia. apply list_lookup_lookup_total_lt. lia.
Qed.

Lemma elem_of_cells n (h : list A) x :
  n < length h -> x ∈ cells n h <-> exists i, 1 <= i <= n /\ h !!! i = x.
Proof.
  intros Hn. split.
  - intros [i Hi]%list_elem_of_lookup. unfold cells in Hi.
    assert (i < n) by (apply lookup_lt_Some in Hi; len).
    rewrite lookup_take_lt, lookup_drop in Hi by lia.
    exists (1 + i). split; [lia|]. by apply list_lookup_total_correct.
  - intros (i & Hi & <-). by apply cells_lookup.
Qed.

Lemma cells_snoc n (h : list A) x :
  S n < length h -> cells (S n) (<[S n := x]> h) = cells n h ++ [x].
Proof.
  intros Hn. unfold cells. rewrite drop_insert_ge by lia. rewrite Nat.sub_1_r. simpl.
  rewrite take_insert_app by len. done.
Qed.

Lemma cells_insert_ge n (h : list A) i x : n < i -> cells n (<[i := x]> h) = cells n h.
Proof. intros. unfold cells. rewrite drop_insert_ge, take_insert_ge by lia. done. Qed.

Lemma cells_length n (h : list A) : n < length h -> length (cells n h) = n.
Proof. intros. unfold cells. len. Qed.

(** One step of a pass that moves a hole: the hole at [i] takes the element
    at [j], and [x], which the hole stands for, moves to [j]. *)
Lemma hole_move (h : list A) i j x :
  i <> j -> i < length h -> j < length h ->
  <[j := x]> (<[i := h !!! j]> h) = list_swap (<[i := x]> h) i j.
Proof.
  intros. unfold list_swap.
  rewrite list_lookup_total_insert_eq, list_lookup_total_insert_ne by done.
  by rewrite list_insert_insert_eq.
Qed.
End rearrange.
