(* ===== verification/Deq.v ===== *)
(** * Deq: the circular buffers of queueing.C

    [CqsDeqInit], [CqsDeqExpand], [CqsDeqEnqueueFifo], [CqsDeqEnqueueLifo],
    [CqsDeqDequeue], [CqsEnumerateDeq] and [CqsRemoveSpecificDeq] of
    src/conv-core/queueing.C, and their refinement to a list. *)

From S2P Require Import Prelude.

(** The pointers [bgn], [end], [head] and [tail] of [struct deq_struct] are
    indices into the buffer [d_vec] that runs from [bgn] to [end];
    [d_in_space] tells whether that buffer is the inline [space] array. *)
Record deq := mk_deq {
  d_vec : list ptr;
  d_head : nat;
  d_tail : nat;
  d_in_space : bool
}.

Definition d_end (d : deq) : nat := length (d_vec d).

Section ops.
Context {U : Uninit}.

Definition CqsDeqInit : deq := mk_deq (replicate 4 uninit_word) 0 0 true.

Definition CqsDeqExpand (d : deq) : deq :=
  let rsize := d_end d - d_head d in
  let lsize := d_head d in
  let oldsize := d_end d in
  let newsize := oldsize * 2 in
  let nvec := take rsize (drop (d_head d) (d_vec d))
              ++ take lsize (d_vec d)
              ++ replicate (newsize - (rsize + lsize)) uninit_word in
  mk_deq nvec 0 oldsize false.

Definition CqsDeqEnqueueFifo (d : deq) (data : ptr) : deq :=
  let vec := <[d_tail d := data]> (d_vec d) in
  let tail := S (d_tail d) in
  let tail := if tail =? d_end d then 0 else tail in
  let d' := mk_deq vec (d_head d) tail (d_in_space d) in
  if tail =? d_head d then CqsDeqExpand d' else d'.

Definition CqsDeqEnqueueLifo (d : deq) (data : ptr) : deq :=
  let head := if d_head d =? 0 then d_end d else d_head d in
  let head := head - 1 in
  let vec := <[head := data]> (d_vec d) in
  let d' := mk_deq vec head (d_tail d) (d_in_space d) in
  if head =? d_tail d then CqsDeqExpand d' else d'.

Definition CqsDeqDequeue (d : deq) : deq * ptr :=
  if d_head d =? d_tail d then (d, NULL)
  else
    let data := d_vec d !!! d_head d in
    let head := S (d_head d) in
    let head := if head =? d_end d then 0 else head in
    (mk_deq (d_vec d) head (d_tail d) (d_in_space d), data).

(** The loops that walk from [head] to [tail]; [fuel] is the buffer's size,
    which no walk exceeds. *)
Fixpoint deq_walk (fuel : nat) (d : deq) (head : nat) : list ptr :=
  match fuel with
  | 0 => []
  | S fuel =>
      if head =? d_tail d then []
      else
        let next := S head in
        let next := if next =? d_end d then 0 else next in
        (d_vec d !!! head) :: deq_walk fuel d next
  end.

Definition CqsEnumerateDeq (d : deq) : list ptr := deq_walk (d_end d) d (d_head d).

(** The assignment [*head = NULL] is commented out in the source: the deq
    is only searched, and is returned as it was. *)
Definition CqsRemoveSpecificDeq (d : deq) (msgPtr : ptr) : deq * Z :=
  (d, if existsb (Z.eqb msgPtr) (deq_walk (d_end d) d (d_head d)) then 1%Z else 0%Z).

Definition deq_is_empty (d : deq) : bool := d_head d =? d_tail d.

End ops.

(** ** Abstraction and invariant *)

(** The entries from [head] to [tail], wrapping at [end]. *)
Definition deq_list (d : deq) : list ptr :=
  if d_head d <=? d_tail d then drop (d_head d) (take (d_tail d) (d_vec d))
  else drop (d_head d) (d_vec d) ++ take (d_tail d) (d_vec d).

Record deq_wf (d : deq) : Prop := {
  deq_wf_head : d_head d < length (d_vec d);
  deq_wf_tail : d_tail d < length (d_vec d);
  deq_wf_size : 4 <= length (d_vec d)
}.

Section facts.
Context {U : Uninit}.
Implicit Types d : deq.

Lemma deq_list_init : deq_list CqsDeqInit = [].
Proof. done. Qed.

Lemma deq_init_wf : deq_wf CqsDeqInit.
Proof. split; simpl; lia. Qed.

Lemma deq_list_length d :
  deq_wf d ->
  length (deq_list d) =
    if d_head d <=? d_tail d then d_tail d - d_head d
    else length (d_vec d) - d_head d + d_tail d.
Proof. intros [? ? ?]. unfold deq_list. bool_cases; len. Qed.

(** A buffer whose tail has caught up with its head is full. *)
Lemma deq_expand_full d :
  deq_wf d ->
  deq_list (CqsDeqExpand d) = drop (d_head d) (d_vec d) ++ take (d_head d) (d_vec d).
Proof.
  intros [? ? ?]. unfold CqsDeqExpand, deq_list, d_end; simpl.
  rewrite drop_0, app_assoc, take_app_le by len.
  rewrite (take_ge (drop _ _)) by len. by rewrite take_ge by len.
Qed.

Lemma deq_expand_wf d : deq_wf d -> deq_wf (CqsDeqExpand d).
Proof. intros [? ? ?]. split; unfold CqsDeqExpand, d_end; simpl; len. Qed.

Lemma deq_list_fifo d x :
  deq_wf d -> deq_list (CqsDeqEnqueueFifo d x) = deq_list d ++ [x].
Proof.
  intros Hwf. pose proof Hwf as [Hh Ht Hs]. unfold CqsDeqEnqueueFifo, d_end.
  destruct (Nat.eqb_spec (S (d_tail d)) (length (d_vec d))) as [E|E].
  - assert (<[d_tail d:=x]> (d_vec d) = take (d_tail d) (d_vec d) ++ [x]) as ->.
    { rewrite <- take_insert_app by lia. by rewrite take_ge by len. }
    destruct (Nat.eqb_spec 0 (d_head d)) as [E'|E'].
    + rewrite deq_expand_full by (split; simpl; len). unfold deq_list; simpl.
      rewrite <- E'; simpl. by rewrite app_nil_r.
    + unfold deq_list; simpl. bool_cases; try lia.
      by rewrite app_nil_r, drop_app_le by len.
  - destruct (Nat.eqb_spec (S (d_tail d)) (d_head d)) as [E'|E'].
    + rewrite deq_expand_full by (split; simpl; len); unfold deq_list; simpl.
      bool_cases; [lia|].
      by rewrite <- E', take_insert_app, drop_insert_lt, app_assoc by lia.
    + unfold deq_list; cbn [d_head d_tail d_vec]. rewrite take_insert_app by lia.
      bool_cases; try lia.
      * by rewrite drop_app_le by len.
      * by rewrite drop_insert_lt, app_assoc by lia.
Qed.

Lemma deq_fifo_wf d x : deq_wf d -> deq_wf (CqsDeqEnqueueFifo d x).
Proof.
  intros [? ? ?]. unfold CqsDeqEnqueueFifo, d_end.
  bool_cases; try apply deq_expand_wf; split; simpl; len.
Qed.

Lemma deq_list_lifo d x :
  deq_wf d -> deq_list (CqsDeqEnqueueLifo d x) = x :: deq_list d.
Proof.
  intros [Hh Ht Hs]. unfold CqsDeqEnqueueLifo, d_end.
  destruct (Nat.eqb_spec (d_head d) 0) as [E|E].
  - set (h := length (d_vec d) - 1).
    assert (drop (S h) (d_vec d) = []) as Hd by (apply drop_ge; lia).
    destruct (Nat.eqb_spec h (d_tail d)) as [E'|E'].
    + rewrite deq_expand_full by (split; simpl; len). unfold deq_list; simpl.
      rewrite drop_insert_cons, take_insert_ge, Hd, E, E' by lia. done.
    + unfold deq_list; cbn [d_head d_tail d_vec]. bool_cases; try lia.
      rewrite drop_insert_cons, take_insert_ge, Hd, E by lia. done.
  - destruct (d_head d) as [|h] eqn:Eh; [done|]. replace (S h - 1) with h by lia.
    destruct (Nat.eqb_spec h (d_tail d)) as [E'|E'].
    + rewrite deq_expand_full by (split; simpl; len). unfold deq_list; simpl.
      rewrite Eh, drop_insert_cons, take_insert_ge by lia. bool_cases; [lia|].
      by rewrite E'.
    + unfold deq_list; cbn [d_head d_tail d_vec]. rewrite Eh. bool_cases; try lia.
      * rewrite take_insert_lt, drop_insert_cons by len. done.
      * rewrite drop_insert_cons, take_insert_ge by lia. done.
Qed.

Lemma deq_lifo_wf d x : deq_wf d -> deq_wf (CqsDeqEnqueueLifo d x).
Proof.
  intros [? ? ?]. unfold CqsDeqEnqueueLifo, d_end.
  bool_cases; try apply deq_expand_wf; split; simpl; len.
Qed.

Lemma deq_dequeue_spec d :
  deq_wf d ->
  CqsDeqDequeue d = (d, NULL) /\ deq_list d = [] \/
  exists d' x, CqsDeqDequeue d = (d', x) /\ deq_list d = x :: deq_list d' /\ deq_wf d'.
Proof.
  intros [Hh Ht Hs]. unfold CqsDeqDequeue, d_end.
  destruct (Nat.eqb_spec (d_head d) (d_tail d)) as [E|E].
  { left. split; [done|]. unfold deq_list. rewrite E, Nat.leb_refl.
    apply drop_ge. len. }
  right. do 2 eexists. split; [done|].
  assert (d_vec d !! d_head d = Some (d_vec d !!! d_head d)) as Hx
    by (by apply list_lookup_lookup_total_lt).
  split.
  - unfold deq_list; cbn [d_head d_tail d_vec].
    destruct (Nat.leb_spec (d_head d) (d_tail d)).
    + rewrite (drop_S _ (d_vec d !!! d_head d))
        by (rewrite lookup_take_lt by lia; done).
      f_equal. bool_cases; try lia. done.
    + rewrite (drop_S _ _ _ Hx). simpl. f_equal.
      destruct (Nat.eqb_spec (S (d_head d)) (length (d_vec d))).
      * by rewrite (drop_ge _ (S _)) by lia.
      * by bool_cases; [lia|].
  - split; simpl; bool_cases; len.
Qed.

Lemma deq_empty_iff d : deq_wf d -> deq_is_empty d = true <-> deq_list d = [].
Proof.
  intros Hwf. pose proof (deq_list_length d Hwf) as Hl. pose proof Hwf as [? ? ?].
  unfold deq_is_empty. rewrite Nat.eqb_eq, <- length_zero_iff_nil, Hl.
  bool_cases; lia.
Qed.

Lemma deq_walk_spec d fuel :
  deq_wf d -> length (deq_list d) <= fuel -> deq_walk fuel d (d_head d) = deq_list d.
Proof.
  assert (forall d', d_vec d' = d_vec d -> d_tail d' = d_tail d -> deq_wf d' ->
            length (deq_list d') <= fuel -> deq_walk fuel d (d_head d') = deq_list d')
    as Hgen; [|by eauto].
  induction fuel as [|fuel IH]; intros d' Hv Ht Hwf Hf; simpl.
  { by apply Nat.le_0_r, length_zero_iff_nil in Hf. }
  pose proof (deq_empty_iff d' Hwf) as He. unfold deq_is_empty in He.
  rewrite <- Ht. destruct (d_head d' =? d_tail d') eqn:E.
  { by rewrite (proj1 He). }
  destruct (deq_dequeue_spec d' Hwf) as [[_ Hl]|(d2 & x & Hq & Hl & Hw)].
  { apply He in Hl. done. }
  unfold CqsDeqDequeue in Hq. rewrite E in Hq. simplify_eq.
  rewrite Hl in Hf |- *. rewrite <- Hv. f_equal. unfold d_end in *. rewrite <- Hv.
  apply (IH (mk_deq _ _ _ (d_in_space d'))); simpl in *; auto; lia.
Qed.

Lemma deq_enumerate d : deq_wf d -> CqsEnumerateDeq d = deq_list d.
Proof.
  intros Hwf. apply deq_walk_spec; [done|]. rewrite deq_list_length by done.
  destruct Hwf. unfold d_end. bool_cases; lia.
Qed.
End facts.
