(* ===== verification/Prioq.v ===== *)
(** * Prioq: the bucketed priority queue of queueing.C

    [struct prio_struct], [struct prioqelt_struct] and [struct prioq_struct]
    of src/conv-core/queueing.h and their operations in queueing.C (the
    default build, without [FASTQ]): a binary heap of buckets, one bucket per
    priority, with an intrusive chained hash table that finds the bucket of a
    priority.  Buckets are shared between the heap and the hash chains, so
    they live in a store indexed by address. *)

From S2P Require Import Prelude Heap Deq.

(** ** Priorities *)

(** [data] is the array of [ints] unsigned words. *)
Record prio := mk_prio { p_bits : Z; p_ints : Z; p_data : list Z }.

Fixpoint CqsPrioGT_ (ints1 : nat) (data1 : list Z) (ints2 : nat) (data2 : list Z) : bool :=
  match ints1 with
  | 0 => false
  | S ints1' =>
      match ints2 with
      | 0 => true
      | S ints2' =>
          let val1 := hd 0%Z data1 in
          let val2 := hd 0%Z data2 in
          if (val1 <? val2)%Z then false
          else if (val2 <? val1)%Z then true
          else CqsPrioGT_ ints1' (tl data1) ints2' (tl data2)
      end
  end.

Definition CqsPrioGT (prio1 prio2 : prio) : bool :=
  CqsPrioGT_ (Z.to_nat (p_ints prio1)) (p_data prio1) (Z.to_nat (p_ints prio2)) (p_data prio2).

(** ** Buckets, hash table and heap *)

(** [ht_handle] points to the cell that points to the bucket: a slot of the
    hash table or the [ht_next] field of another bucket. *)
Inductive handle := HTab (i : nat) | HNext (e : nat).

Record prioqelt := mk_elt {
  e_data : deq;
  ht_next : option nat;
  ht_handle : handle;
  e_pri : prio
}.

Definition set_data (d : deq) (e : prioqelt) : prioqelt :=
  mk_elt d (ht_next e) (ht_handle e) (e_pri e).
Definition set_ht_next (n : option nat) (e : prioqelt) : prioqelt :=
  mk_elt (e_data e) n (ht_handle e) (e_pri e).
Definition set_ht_handle (h : handle) (e : prioqelt) : prioqelt :=
  mk_elt (e_data e) (ht_next e) h (e_pri e).

#[global] Instance prio_inhabited : Inhabited prio := populate (mk_prio 0 0 []).
#[global] Instance deq_inhabited : Inhabited deq := populate (mk_deq [] 0 0 true).
#[global] Instance prioqelt_inhabited : Inhabited prioqelt :=
  populate (mk_elt inhabitant None (HTab 0) inhabitant).

(** [pq_store] holds the allocated buckets by address and [pq_brk] is the
    next address the allocator returns. *)
Record prioq := mk_prioq {
  heapsize : nat;
  heapnext : nat;
  heap : list nat;
  hashtab : list (option nat);
  hash_key_size : nat;
  hash_entry_size : Z;
  pq_store : gmap nat prioqelt;
  pq_brk : nat
}.

Definition PRIOQ_TABSIZE : nat := 1017.
Definition CINTBITS : Z := 32.
Definition CLONGBITS : Z := 64.

Section ops.
Context {U : Uninit}.

Definition CqsPrioqInit : prioq :=
  mk_prioq 100 1 (replicate 100 0) (replicate PRIOQ_TABSIZE None) PRIOQ_TABSIZE 0 ∅ 1.

Definition CqsPrioqExpand (pq : prioq) : prioq :=
  let oldsize := heapsize pq in
  let newsize := oldsize * 2 in
  let nheap := take oldsize (heap pq) ++ replicate (newsize - oldsize) 0 in
  mk_prioq newsize (heapnext pq) nheap (hashtab pq) (hash_key_size pq)
    (hash_entry_size pq) (pq_store pq) (pq_brk pq).

(** The word [hashval] before it is reduced modulo the table size. *)
Definition prio_hashval (bits : Z) (ints : nat) (data : list Z) : Z :=
  fold_left Z.lxor (take ints data) bits.

Definition hash_slot (bits : Z) (ints : nat) (data : list Z) (size : nat) : nat :=
  Z.to_nat (Z.land (prio_hashval bits ints data) 0x7FFFFFFF mod Z.of_nat size).

(** The body of the inner loop of [CqsPrioqRehash]: bucket [pe] is pushed on
    its chain of the new table. *)
Definition rehash_push (pe : nat) (newHsize : nat)
    (st : gmap nat prioqelt * list (option nat)) : gmap nat prioqelt * list (option nat) :=
  let '(store, ntab) := st in
  let e := store !!! pe in
  let hashval := hash_slot (p_bits (e_pri e)) (Z.to_nat (p_ints (e_pri e)))
                   (p_data (e_pri e)) newHsize in
  let pe1 := ntab !!! hashval in
  let store := alter (set_ht_next pe1) pe store in
  let store := alter (set_ht_handle (HTab hashval)) pe store in
  let store := match pe1 with
               | Some e1 => alter (set_ht_handle (HNext pe)) e1 store
               | None => store
               end in
  (store, <[hashval := Some pe]> ntab).

Fixpoint rehash_chain (fuel : nat) (pe : option nat) (newHsize : nat)
    (st : gmap nat prioqelt * list (option nat)) : gmap nat prioqelt * list (option nat) :=
  match fuel, pe with
  | S fuel, Some pe =>
      let pe2 := ht_next (fst st !!! pe) in
      rehash_chain fuel pe2 newHsize (rehash_push pe newHsize st)
  | _, _ => st
  end.

(** [fuel] bounds the length of a chain by the number of buckets. *)
Definition CqsPrioqRehash (pq : prioq) : prioq :=
  let newHsize := hash_key_size pq * 2 in
  let nhashtab := replicate newHsize None in
  let fuel := size (pq_store pq) in
  let '(store, tab) :=
    fold_left (fun st slot => rehash_chain fuel slot newHsize st)
      (hashtab pq) (pq_store pq, nhashtab) in
  mk_prioq (heapsize pq) (heapnext pq) (heap pq) tab newHsize
    (hash_entry_size pq) store (pq_brk pq).

(** The scan of a hash chain for a priority. *)
Fixpoint chain_find (fuel : nat) (store : gmap nat prioqelt) (pe : option nat)
    (priobits : Z) (prioints : nat) (priodata : list Z) : option nat :=
  match fuel, pe with
  | S fuel, Some id =>
      let e := store !!! id in
      if (priobits =? p_bits (e_pri e))%Z
         && bool_decide (take prioints priodata = take prioints (p_data (e_pri e)))
      then Some id
      else chain_find fuel store (ht_next e) priobits prioints priodata
  | _, _ => None
  end.

(** The loop that moves parents down until [pri] may stay. *)
Fixpoint sift_up (fuel : nat) (store : gmap nat prioqelt) (pri : prio)
    (hp : list nat) (heappos : nat) : list nat * nat :=
  match fuel with
  | 0 => (hp, heappos)
  | S fuel =>
      if 1 <? heappos then
        let parentpos := heappos / 2 in
        let parent := hp !!! parentpos in
        if CqsPrioGT pri (e_pri (store !!! parent)) then (hp, heappos)
        else sift_up fuel store pri (<[heappos := parent]> hp) parentpos
      else (hp, heappos)
  end.

(** Links a new bucket at the front of chain [hashval]. *)
Definition ht_push (pe : nat) (hashval : nat) (pq : prioq) : prioq :=
  let next := hashtab pq !!! hashval in
  let store := alter (set_ht_next next) pe (pq_store pq) in
  let store := alter (set_ht_handle (HTab hashval)) pe store in
  let store := match next with
               | Some n => alter (set_ht_handle (HNext pe)) n store
               | None => store
               end in
  mk_prioq (heapsize pq) (heapnext pq) (heap pq) (<[hashval := Some pe]> (hashtab pq))
    (hash_key_size pq) (hash_entry_size pq + 1) store (pq_brk pq).

(** Puts a new bucket into the heap. *)
Definition heap_push (pe : nat) (pq : prioq) : prioq :=
  let heappos := heapnext pq in
  let pq := mk_prioq (heapsize pq) (S (heapnext pq)) (heap pq) (hashtab pq)
              (hash_key_size pq) (hash_entry_size pq) (pq_store pq) (pq_brk pq) in
  let pq := if heappos =? heapsize pq then CqsPrioqExpand pq else pq in
  let pri := e_pri (pq_store pq !!! pe) in
  let '(hp, pos) := sift_up heappos (pq_store pq) pri (heap pq) heappos in
  mk_prioq (heapsize pq) (heapnext pq) (<[pos := pe]> hp) (hashtab pq)
    (hash_key_size pq) (hash_entry_size pq) (pq_store pq) (pq_brk pq).

(** Returns the address of the bucket; the caller enqueues into its [e_data].
    The slot is taken modulo [PRIOQ_TABSIZE], as in the source, whatever the
    size of the table. *)
Definition CqsPrioqGetDeq (pq : prioq) (priobits : Z) (priodata : list Z) : prioq * nat :=
  let prioints := Z.to_nat (u32 (priobits + CINTBITS - 1) / CINTBITS) in
  let hashval := hash_slot priobits prioints priodata PRIOQ_TABSIZE in
  match chain_find (size (pq_store pq)) (pq_store pq) (hashtab pq !!! hashval)
          priobits prioints priodata with
  | Some id => (pq, id)
  | None =>
      let pe := pq_brk pq in
      let elt := mk_elt CqsDeqInit None (HTab hashval)
                   (mk_prio (u16 priobits) (u16 (Z.of_nat prioints)) (take prioints priodata)) in
      let pq := mk_prioq (heapsize pq) (heapnext pq) (heap pq) (hashtab pq)
                  (hash_key_size pq) (hash_entry_size pq)
                  (<[pe := elt]> (pq_store pq)) (S pe) in
      let pq := ht_push pe hashval pq in
      let pq := if (2 * Z.of_nat (hash_key_size pq) <? hash_entry_size pq)%Z
                then CqsPrioqRehash pq else pq in
      (heap_push pe pq, pe)
  end.

(** [*handle = next] and [next->ht_handle = handle]. *)
Definition ht_unlink (pe : nat) (pq : prioq) : prioq :=
  let e := pq_store pq !!! pe in
  let next := ht_next e in
  let hnd := ht_handle e in
  let store := match next with
               | Some n => alter (set_ht_handle hnd) n (pq_store pq)
               | None => pq_store pq
               end in
  match hnd with
  | HTab i =>
      mk_prioq (heapsize pq) (heapnext pq) (heap pq) (<[i := next]> (hashtab pq))
        (hash_key_size pq) (hash_entry_size pq - 1) store (pq_brk pq)
  | HNext p =>
      mk_prioq (heapsize pq) (heapnext pq) (heap pq) (hashtab pq)
        (hash_key_size pq) (hash_entry_size pq - 1)
        (alter (set_ht_next next) p store) (pq_brk pq)
  end.

(** The loop that moves the smaller child up until [pri] may stay. *)
Fixpoint sift_down (fuel : nat) (store : gmap nat prioqelt) (pri : prio) (hnext : nat)
    (hp : list nat) (heappos : nat) : list nat * nat :=
  match fuel with
  | 0 => (hp, heappos)
  | S fuel =>
      let childpos1 := heappos * 2 in
      if hnext <=? childpos1 then (hp, heappos)
      else
        let childpos2 := childpos1 + 1 in
        let '(childpos, child) :=
          if hnext <=? childpos2 then (childpos1, hp !!! childpos1)
          else
            let ch1 := hp !!! childpos1 in
            let ch2 := hp !!! childpos2 in
            if CqsPrioGT (e_pri (store !!! ch1)) (e_pri (store !!! ch2))
            then (childpos2, ch2) else (childpos1, ch1) in
        if CqsPrioGT (e_pri (store !!! child)) pri then (hp, heappos)
        else sift_down fuel store pri hnext (<[heappos := child]> hp) childpos
  end.

(** Moves the last bucket to the root and restores the heap order. *)
Definition heap_pop (pq : prioq) : prioq :=
  let hnext := heapnext pq - 1 in
  let pe := heap pq !!! hnext in
  let pri := e_pri (pq_store pq !!! pe) in
  let '(hp, pos) := sift_down hnext (pq_store pq) pri hnext (heap pq) 1 in
  mk_prioq (heapsize pq) hnext (<[pos := pe]> hp) (hashtab pq)
    (hash_key_size pq) (hash_entry_size pq) (pq_store pq) (pq_brk pq).

Definition free_elt (pe : nat) (pq : prioq) : prioq :=
  mk_prioq (heapsize pq) (heapnext pq) (heap pq) (hashtab pq)
    (hash_key_size pq) (hash_entry_size pq) (delete pe (pq_store pq)) (pq_brk pq).

Definition upd_elt (pe : nat) (f : prioqelt -> prioqelt) (pq : prioq) : prioq :=
  mk_prioq (heapsize pq) (heapnext pq) (heap pq) (hashtab pq)
    (hash_key_size pq) (hash_entry_size pq) (alter f pe (pq_store pq)) (pq_brk pq).

Definition CqsPrioqDequeue (pq : prioq) : prioq * ptr :=
  if heapnext pq =? 1 then (pq, NULL)
  else
    let pe := heap pq !!! 1 in
    let '(d, data) := CqsDeqDequeue (e_data (pq_store pq !!! pe)) in
    let pq := upd_elt pe (set_data d) pq in
    if d_head d =? d_tail d
    then (free_elt pe (heap_pop (ht_unlink pe pq)), data)
    else (pq, data).

Definition CqsEnumeratePrioq (pq : prioq) : list ptr :=
  concat ((fun i => CqsEnumerateDeq (e_data (pq_store pq !!! (heap pq !!! i))))
            <$> seq 1 (heapnext pq - 1)).

(** Sets the first entry equal to [msgPtr] of a deq to [NULL]. *)
Fixpoint deq_null_first (fuel : nat) (d : deq) (head : nat) (msgPtr : ptr) : option deq :=
  match fuel with
  | 0 => None
  | S fuel =>
      if head =? d_tail d then None
      else if (d_vec d !!! head =? msgPtr)%Z
      then Some (mk_deq (<[head := NULL]> (d_vec d)) (d_head d) (d_tail d) (d_in_space d))
      else
        let next := S head in
        let next := if next =? d_end d then 0 else next in
        deq_null_first fuel d next msgPtr
  end.

Fixpoint remove_specific_from (ixs : list nat) (pq : prioq) (msgPtr : ptr) : prioq * Z :=
  match ixs with
  | [] => (pq, 0%Z)
  | i :: ixs =>
      let pe := heap pq !!! i in
      let d := e_data (pq_store pq !!! pe) in
      match deq_null_first (d_end d) d (d_head d) msgPtr with
      | Some d' => (upd_elt pe (set_data d') pq, 1%Z)
      | None => remove_specific_from ixs pq msgPtr
      end
  end.

Definition CqsRemoveSpecificPrioq (pq : prioq) (msgPtr : ptr) : prioq * Z :=
  remove_specific_from (seq 1 (heapnext pq - 1)) pq msgPtr.

End ops.
