(* ===== verification/PrioqFacts.v ===== *)
(** * PrioqFacts: correctness of the bucketed priority queue

    The heap order, the hash chains and the buckets of [prioq] are tied to an
    abstract map from priorities to lists of messages; [CqsPrioqGetDeq]
    followed by an enqueue adds a message to the list of its priority, and
    [CqsPrioqDequeue] takes the first message of a least priority. *)

From S2P Require Import Prelude Heap Deq Prioq.
Set Warnings "-clear-no-such-hyp".

(** ** The order of priorities *)

(** The words a comparison may read. *)
Fixpoint words (n : nat) (data : list Z) : list Z :=
  match n with
  | 0 => []
  | S n => hd 0%Z data :: words n (tl data)
  end.

Fixpoint lex_gt (l1 l2 : list Z) : bool :=
  match l1, l2 with
  | [], _ => false
  | _ :: _, [] => true
  | x :: l1, y :: l2 => if (x <? y)%Z then false else if (y <? x)%Z then true else lex_gt l1 l2
  end.

Definition prio_words (p : prio) : list Z := words (Z.to_nat (p_ints p)) (p_data p).

Lemma words_all l : words (length l) l = l.
Proof. induction l; simpl; congruence. Qed.

Lemma CqsPrioGT__lex n1 d1 n2 d2 : CqsPrioGT_ n1 d1 n2 d2 = lex_gt (words n1 d1) (words n2 d2).
Proof.
  revert d1 n2 d2. induction n1 as [|n1 IH]; intros d1 [|n2] d2; simpl; try done.
  by bool_cases.
Qed.

Lemma CqsPrioGT_lex p q : CqsPrioGT p q = lex_gt (prio_words p) (prio_words q).
Proof. apply CqsPrioGT__lex. Qed.

Lemma lex_gt_antisym l1 l2 : lex_gt l1 l2 = false -> lex_gt l2 l1 = false -> l1 = l2.
Proof.
  revert l2. induction l1 as [|x l1 IH]; intros [|y l2]; simpl; try done.
  bool_cases; try done; try lia. intros. f_equal; [lia|]. by apply IH.
Qed.

#[global] Instance lex_gt_order : GtOrder lex_gt.
Proof.
  split.
  - intros l1. induction l1 as [|x l1 IH]; intros [|y l2]; simpl; try done.
    bool_cases; try done; try lia. apply IH.
  - intros l1. induction l1 as [|x l1 IH]; intros [|y l2] [|z l3]; simpl; try done.
    bool_cases; try done; try lia. apply IH.
Qed.

#[global] Instance CqsPrioGT_order : GtOrder CqsPrioGT.
Proof.
  split; intros *; rewrite !CqsPrioGT_lex; [apply gt_asym|apply gt_cotrans].
Qed.

(** ** The passes over the heap *)

Section passes.
Context (store : gmap nat prioqelt).

Definition elt_key (hp : list nat) (i : nat) : prio := e_pri (store !!! (hp !!! i)).

Lemma elt_key_swap hp i j x :
  i < length hp -> j < length hp -> elt_key (list_swap hp i j) x = swap_at (elt_key hp) i j x.
Proof.
  intros. unfold elt_key, swap_at. rewrite list_swap_lookup by done. by bool_cases.
Qed.

Lemma sift_up_spec n pe hp fuel pos :
  pos <= fuel -> 1 <= pos <= n -> n < length hp ->
  up_inv CqsPrioGT (elt_key (<[pos := pe]> hp)) n pos ->
  let '(hp', pos') := sift_up fuel store (e_pri (store !!! pe)) hp pos in
  heap_ok CqsPrioGT (elt_key (<[pos' := pe]> hp')) n /\
  rearranged n (<[pos := pe]> hp) (<[pos' := pe]> hp').
Proof.
  revert hp pos. induction fuel as [|fuel IH]; intros hp pos Hf Hp Hn Hup; [lia|]. simpl.
  assert (elt_key (<[pos:=pe]> hp) pos = e_pri (store !!! pe)) as Hk.
  { unfold elt_key. by rewrite list_lookup_total_insert_eq by lia. }
  destruct (Nat.ltb_spec 1 pos) as [H1|H1].
  2:{ split; [|apply rearranged_refl]. eapply up_inv_done; [|done]. lia. }
  pose proof (half_bounds pos) as Hh.
  assert (elt_key (<[pos:=pe]> hp) (pos / 2) = e_pri (store !!! (hp !!! (pos / 2)))) as Hk2.
  { unfold elt_key. by rewrite list_lookup_total_insert_ne by lia. }
  destruct (CqsPrioGT _ _) eqn:G.
  - split; [|apply rearranged_refl]. eapply up_inv_done; [|done]. right.
    rewrite Hk, Hk2. by apply (kle_of_gt _).
  - specialize (IH (<[pos := hp !!! (pos / 2)]> hp) (pos / 2)).
    destruct (sift_up _ _ _ _ _) as [hp' pos'].
    rewrite hole_move in IH by len.
    assert (rearranged n (<[pos:=pe]> hp) (list_swap (<[pos:=pe]> hp) pos (pos / 2))) as HR
      by (apply list_swap_rearranged; len).
    destruct IH as [Hok HR']; [lia..|len| |].
    + eapply (up_inv_ext _ (swap_at (elt_key (<[pos:=pe]> hp)) pos (pos / 2))); [lia| |].
      * intros. rewrite elt_key_swap by len. done.
      * apply up_inv_step; [apply _|lia| |done]. unfold kle. by rewrite Hk, Hk2.
    + split; [done|]. by eapply rearranged_trans.
Qed.

Lemma sift_down_spec n pe hp fuel pos :
  n - pos < fuel -> 1 <= pos <= n -> n < length hp ->
  down_inv CqsPrioGT (elt_key (<[pos := pe]> hp)) n pos ->
  let '(hp', pos') := sift_down fuel store (e_pri (store !!! pe)) (S n) hp pos in
  heap_ok CqsPrioGT (elt_key (<[pos' := pe]> hp')) n /\
  rearranged n (<[pos := pe]> hp) (<[pos' := pe]> hp').
Proof.
  revert hp pos. induction fuel as [|fuel IH]; intros hp pos Hf Hp Hn Hdown; [lia|]. simpl.
  set (g := <[pos := pe]> hp) in *.
  assert (elt_key g pos = e_pri (store !!! pe)) as Hk.
  { unfold elt_key, g. by rewrite list_lookup_total_insert_eq by lia. }
  assert (forall i, i <> pos -> elt_key g i = e_pri (store !!! (hp !!! i))) as Hk2.
  { intros i Hi. unfold elt_key, g. by rewrite list_lookup_total_insert_ne by lia. }
  destruct (Nat.leb_spec (S n) (pos * 2)) as [H1|H1].
  { split; [|apply rearranged_refl]. eapply down_inv_done; [|done].
    intros i Hi E. pose proof (half_bounds i). lia. }
  set (sel := if S n <=? pos * 2 + 1 then _ else _).
  assert (exists c, sel = (c, hp !!! c) /\ 2 <= c <= n /\ c / 2 = pos /\
    forall i, 2 <= i <= n -> i / 2 = pos -> kle CqsPrioGT (elt_key g c) (elt_key g i))
    as (c & -> & Hc & Hcp & Hmin).
  { assert (pos * 2 / 2 = pos) by (by rewrite Nat.div_mul).
    assert ((pos * 2 + 1) / 2 = pos) by (rewrite Nat.div_add_l by lia; change (1 / 2) with 0; lia).
    assert (forall i, 2 <= i <= n -> i / 2 = pos -> i = pos * 2 \/ i = pos * 2 + 1) as Hch.
    { intros i Hi E. pose proof (half_bounds i). lia. }
    unfold sel. destruct (Nat.leb_spec (S n) (pos * 2 + 1)).
    - exists (pos * 2). split_and!; try done; try lia.
      intros i Hi E. destruct (Hch i Hi E) as [->| ->]; [apply (kle_refl _)|lia].
    - destruct (CqsPrioGT _ _) eqn:G.
      + exists (pos * 2 + 1). split_and!; try done; try lia.
        intros i Hi E. destruct (Hch i Hi E) as [->| ->]; [|apply (kle_refl _)].
        rewrite !Hk2 by lia. by apply (kle_of_gt _).
      + exists (pos * 2). split_and!; try done; try lia.
        intros i Hi E. destruct (Hch i Hi E) as [->| ->]; [apply (kle_refl _)|].
        by rewrite !Hk2 by lia. }
  pose proof (half_bounds c) as Hhc.
  destruct (CqsPrioGT _ _) eqn:G.
  - split; [|apply rearranged_refl]. eapply down_inv_done; [|done].
    intros i Hi E. apply (kle_trans _ _ (elt_key g c)); [|by apply Hmin].
    fold g. rewrite Hk, Hk2 by lia. by apply (kle_of_gt _).
  - specialize (IH (<[pos := hp !!! c]> hp) c).
    destruct (sift_down _ _ _ _ _ _) as [hp' pos'].
    rewrite hole_move in IH by len. fold g in IH.
    assert (rearranged n g (list_swap g pos c)) as HR
      by (apply list_swap_rearranged; unfold g; len).
    destruct IH as [Hok HR']; [lia..|len| |].
    + eapply (down_inv_ext _ (swap_at (elt_key g) pos c)); [lia| |].
      * intros. rewrite elt_key_swap by (unfold g; len). done.
      * apply (down_inv_step _); [lia|lia|done| |done|done].
        unfold kle. by rewrite Hk, Hk2 by lia.
    + split; [done|]. by eapply rearranged_trans.
Qed.
End passes.

(** ** The heap component *)

(** Stores that hold the same priorities at the same addresses. *)
Definition pri_equiv (st st' : gmap nat prioqelt) : Prop :=
  forall id, e_pri <$> st !! id = e_pri <$> st' !! id.
Infix "≡pri" := pri_equiv (at level 70).

#[global] Instance pri_equiv_equivalence : Equivalence pri_equiv.
Proof.
  split.
  - by intros st id.
  - intros st st' H id. by rewrite H.
  - intros s1 s2 s3 H1 H2 id. by rewrite H1, H2.
Qed.

Lemma pri_equiv_alter f id st : (forall e, e_pri (f e) = e_pri e) -> alter f id st ≡pri st.
Proof.
  intros Hf j. destruct (decide (id = j)) as [->|].
  - rewrite lookup_alter_eq. destruct (st !! j); simpl; [by rewrite Hf|done].
  - by rewrite lookup_alter_ne.
Qed.

Lemma pri_equiv_some st st' id : st ≡pri st' -> is_Some (st !! id) -> is_Some (st' !! id).
Proof. intros H [e He]. specialize (H id). rewrite He in H. destruct (st' !! id); [eauto|done]. Qed.

#[global] Instance delete_pri_equiv id : Proper (pri_equiv ==> pri_equiv) (delete id).
Proof.
  intros st st' H j. destruct (decide (id = j)) as [->|].
  - by rewrite !lookup_delete_eq.
  - rewrite !lookup_delete_ne by done. apply H.
Qed.

Record heap_inv (st : gmap nat prioqelt) (hp : list nat) (n : nat) : Prop := {
  hi_len : n < length hp;
  hi_ok : heap_ok CqsPrioGT (elt_key st hp) n;
  hi_nodup : NoDup (cells n hp);
  hi_dom id : id ∈ cells n hp <-> is_Some (st !! id)
}.

Lemma elt_key_equiv st st' hp i :
  st ≡pri st' -> is_Some (st !! (hp !!! i)) -> elt_key st hp i = elt_key st' hp i.
Proof.
  intros He [e Hs]. specialize (He (hp !!! i)). unfold elt_key.
  rewrite Hs in He. destruct (st' !! _) as [e'|] eqn:Hs'; [|done].
  rewrite (lookup_total_correct _ _ _ Hs), (lookup_total_correct _ _ _ Hs').
  simpl in He. congruence.
Qed.

#[global] Instance heap_inv_proper :
  Proper (pri_equiv ==> eq ==> eq ==> iff) heap_inv.
Proof.
  assert (forall st st' hp n, st ≡pri st' -> heap_inv st hp n -> heap_inv st' hp n) as H.
  { intros st st' hp n He [Hl Hok Hnd Hd]. split; try done.
    - eapply heap_ok_ext; [|done]. intros i Hi. apply elt_key_equiv; [done|].
      apply Hd. by apply cells_lookup.
    - intros id. rewrite Hd. split; apply pri_equiv_some; by rewrite He. }
  intros st st' He ? ? -> ? ? ->. split; apply H; by rewrite He.
Qed.

Lemma heap_push_inv pe pq :
  length (heap pq) = heapsize pq -> 1 <= heapnext pq <= heapsize pq ->
  is_Some (pq_store pq !! pe) ->
  heap_inv (delete pe (pq_store pq)) (heap pq) (heapnext pq - 1) ->
  let pq' := heap_push pe pq in
  heap_inv (pq_store pq) (heap pq') (heapnext pq' - 1) /\
  length (heap pq') = heapsize pq' /\ 1 <= heapnext pq' <= heapsize pq' /\
  pq_store pq' = pq_store pq /\ hashtab pq' = hashtab pq /\
  hash_key_size pq' = hash_key_size pq /\ hash_entry_size pq' = hash_entry_size pq /\
  pq_brk pq' = pq_brk pq.
Proof.
  intros Hlen Hnext Hpe [Hl Hok Hnd Hd]. unfold heap_push.
  set (pq1 := mk_prioq (heapsize pq) (S (heapnext pq)) _ _ _ _ _ _).
  set (pq2 := if heapnext pq =? heapsize pq1 then CqsPrioqExpand pq1 else pq1).
  assert (pq_store pq2 = pq_store pq /\ heapnext pq2 = S (heapnext pq) /\
          hashtab pq2 = hashtab pq /\ hash_key_size pq2 = hash_key_size pq /\
          hash_entry_size pq2 = hash_entry_size pq /\ pq_brk pq2 = pq_brk pq /\
          length (heap pq2) = heapsize pq2 /\ heapnext pq < heapsize pq2 /\
          exists junk, heap pq2 = heap pq ++ junk) as (-> & -> & -> & -> & -> & -> & Hl2 & Hn2 & junk & Hj).
  { unfold pq2, CqsPrioqExpand, pq1; simpl. destruct (Nat.eqb_spec (heapnext pq) (heapsize pq)); simpl.
    - split_and!; try done; [len|len|]. rewrite take_ge by lia. by eexists.
    - split_and!; try done; [lia|]. exists []. by rewrite app_nil_r. }
  set (n := heapnext pq - 1) in *. assert (heapnext pq = S n) as En by lia. rewrite En in *.
  set (g := <[S n := pe]> (heap pq2)).
  assert (cells (S n) g = cells n (heap pq) ++ [pe]) as Hcells.
  { unfold g. rewrite cells_snoc by lia. f_equal. rewrite Hj. unfold cells.
    destruct (heap pq) as [|y h]; simpl in *; [lia|]. rewrite !drop_0, take_app_le by lia. done. }
  assert (pe ∉ cells n (heap pq)) as Hnew.
  { rewrite Hd, lookup_delete_eq. by intros [? ?]. }
  pose proof (sift_up_spec (pq_store pq) (S n) pe (heap pq2) (S n) (S n)) as Hs.
  destruct (sift_up _ _ _ _ _) as [hp pos]. cbn [heap heapnext heapsize pq_store hashtab hash_key_size
    hash_entry_size pq_brk]. replace (S (S n) - 1) with (S n) by lia.
  destruct Hs as [Hok' HR]; [lia..| |].
  { apply up_inv_last. eapply heap_ok_ext; [|exact Hok]. intros i Hi.
    unfold elt_key. rewrite list_lookup_total_insert_ne, Hj by lia.
    rewrite lookup_total_app_l by lia.
    pose proof (cells_lookup n (heap pq) i). 
    rewrite lookup_total_delete_ne; [done|]. intros ->. auto with lia. }
  assert (cells (S n) (<[pos:=pe]> hp) ≡ₚ cells (S n) g) as HP
    by (apply rearranged_cells; [unfold g; len|done]).
  pose proof (rearranged_length _ _ _ HR) as HL. autorewrite with charm_len in HL.
  split_and!; try done; try len.
  split; [len|done| |].
  - rewrite HP, Hcells. apply NoDup_app. split_and!; [done| |apply NoDup_singleton].
    intros x Hx Hx'%list_elem_of_singleton. by subst.
  - intros id. rewrite HP, Hcells, elem_of_app, Hd, list_elem_of_singleton.
    destruct (decide (id = pe)) as [->|]; [split; [done|by right]|].
    rewrite lookup_delete_ne by done. split; [by intros [?|?]|by left].
Qed.

(** Removing the root: the last bucket takes its place. *)
Lemma cells_pop n (hp : list nat) :
  1 <= n < length hp ->
  cells n hp ≡ₚ (hp !!! 1) :: cells (n - 1) (<[1 := hp !!! n]> hp).
Proof.
  intros Hn. destruct hp as [|x0 [|x1 hp]]; simpl in Hn; try lia.
  destruct n as [|n]; [lia|]. simpl. unfold cells. simpl. rewrite ?drop_0.
  replace (S n - 1) with n by lia.
  destruct n as [|n]; [by simpl|].
  replace ((x0 :: x1 :: hp) !!! S (S n)) with (hp !!! n) by done.
  assert (hp !! n = Some (hp !!! n)) as Hx by (apply list_lookup_lookup_total_lt; lia).
  simpl. constructor. rewrite (take_S_r _ _ _ Hx), Permutation_app_comm. done.
Qed.

Lemma heap_pop_inv pq :
  heap_inv (pq_store pq) (heap pq) (heapnext pq - 1) -> 2 <= heapnext pq ->
  let pq' := heap_pop pq in
  heap_inv (delete (heap pq !!! 1) (pq_store pq)) (heap pq') (heapnext pq' - 1) /\
  length (heap pq') = length (heap pq) /\ heapnext pq' = heapnext pq - 1.
Proof.
  intros [Hl Hok Hnd Hd] Hn. unfold heap_pop.
  destruct (heapnext pq) as [|[|n]] eqn:En; try lia. cbn [Nat.sub] in *.
  rewrite ?Nat.sub_0_r in *. replace (S (S n) - 1) with (S n) in * by lia.
  set (last := heap pq !!! S n). set (g := <[1 := last]> (heap pq)).
  assert (cells (S n) (heap pq) ≡ₚ (heap pq !!! 1) :: cells n g) as HP0.
  { rewrite (cells_pop (S n)) by lia. unfold g, last.
    by replace (S n - 1) with n by lia. }
  assert (forall hp pos, rearranged n g (<[pos := last]> hp) ->
    heap_ok CqsPrioGT (elt_key (pq_store pq) (<[pos := last]> hp)) n ->
    heap_inv (delete (heap pq !!! 1) (pq_store pq)) (<[pos := last]> hp) n /\
    length (<[pos := last]> hp) = length (heap pq)) as Hgoal.
  { intros hp pos HR Hok'. pose proof (rearranged_length _ _ _ HR) as HL.
    unfold g in HL; rewrite (length_insert _ 1) in HL. split; [|done].
    assert (cells n (<[pos := last]> hp) ≡ₚ cells n g) as HP
      by (apply rearranged_cells; [unfold g; len|done]).
    rewrite HP0 in Hnd. apply NoDup_cons in Hnd as [Hnin Hnd].
    assert (forall id, id ∈ cells n (<[pos := last]> hp) <->
              is_Some (delete (heap pq !!! 1) (pq_store pq) !! id)) as Hd'.
    { intros id. rewrite HP. specialize (Hd id). rewrite HP0, elem_of_cons in Hd.
      destruct (decide (id = heap pq !!! 1)) as [->|].
      - rewrite lookup_delete_eq. split; [intros; by destruct Hnin|by intros [? ?]].
      - rewrite lookup_delete_ne, <- Hd by done. split; [by right|by intros [?|?]]. }
    split; [rewrite HL; lia| |by rewrite HP|done].
    eapply heap_ok_ext; [|done]. intros i Hi. unfold elt_key.
    rewrite lookup_total_delete_ne; [done|]. intros E.
    assert (heap pq !!! 1 ∈ cells n (<[pos := last]> hp)) as Hin%Hd'.
    { rewrite E. apply cells_lookup; lia. }
    rewrite lookup_delete_eq in Hin. by destruct Hin. }
  destruct (decide (n = 0)) as [->|].
  - change (sift_down _ _ _ _ _ _) with (heap pq, 1). cbn [heap heapnext].
    replace (1 - 1) with 0 by lia.
    destruct (Hgoal (heap pq) 1) as [H1 H2]; [apply rearranged_refl| |done].
    intros i Hi. lia.
  - pose proof (sift_down_spec (pq_store pq) n last (heap pq) (S n) 1) as Hs.
    destruct (sift_down _ _ _ _ _ _) as [hp pos]. cbn [heap heapnext].
    replace (S n - 1) with n by lia.
    destruct Hs as [Hok' HR]; [lia..| |].
    { eapply down_inv_root; [by eapply heap_ok_shrink; [|exact Hok]; lia|].
      intros i Hi. unfold elt_key. by rewrite list_lookup_total_insert_ne by lia. }
    destruct (Hgoal hp pos) as [H1 H2]; done.
Qed.

(** ** The hash chains *)

(** [l] lists the addresses of the chain that [start] heads; every bucket's
    handle names the cell that points to it. *)
Fixpoint is_chain (st : gmap nat prioqelt) (h : handle) (start : option nat) (l : list nat) : Prop :=
  match l with
  | [] => start = None
  | id :: l =>
      start = Some id /\
      exists e, st !! id = Some e /\ ht_handle e = h /\ is_chain st (HNext id) (ht_next e) l
  end.

Definition link_of (st : gmap nat prioqelt) (id : nat) : option (option nat * handle) :=
  (fun e => (ht_next e, ht_handle e)) <$> st !! id.

Lemma is_chain_frame st st' h s l :
  (forall id, id ∈ l -> link_of st id = link_of st' id) ->
  is_chain st h s l -> is_chain st' h s l.
Proof.
  revert h s. induction l as [|id l IH]; intros h s Hf; simpl; [done|].
  intros (-> & e & He & Hh & Hc). split; [done|].
  pose proof (Hf id ltac:(by left)) as Hl. unfold link_of in Hl. rewrite He in Hl.
  destruct (st' !! id) as [e'|] eqn:He'; simplify_eq/=. exists e'. split_and!; [done|congruence|].
  replace (ht_next e') with (ht_next e) by congruence.
  apply IH; [|done]. intros. apply Hf. by right.
Qed.

Lemma is_chain_dom st h s l id : is_chain st h s l -> id ∈ l -> is_Some (st !! id).
Proof.
  revert h s. induction l as [|x l IH]; intros h s; simpl; [by intros _ ?%elem_of_nil|].
  intros (-> & e & He & Hh & Hc) [->|]%elem_of_cons; eauto.
Qed.

Lemma link_of_insert_ne st id id' e : id <> id' -> link_of (<[id' := e]> st) id = link_of st id.
Proof. intros. unfold link_of. by rewrite lookup_insert_ne by done. Qed.

Lemma link_of_delete_ne st id id' : id <> id' -> link_of (delete id' st) id = link_of st id.
Proof. intros. unfold link_of. by rewrite lookup_delete_ne by done. Qed.

Lemma link_of_alter_ne f st id id' : id <> id' -> link_of (alter f id' st) id = link_of st id.
Proof. intros. unfold link_of. by rewrite lookup_alter_ne by done. Qed.

Lemma link_of_alter_data d st id id' : link_of (alter (set_data d) id' st) id = link_of st id.
Proof.
  unfold link_of. destruct (decide (id = id')) as [->|].
  - rewrite lookup_alter_eq. by destruct (st !! id').
  - by rewrite lookup_alter_ne by done.
Qed.

(** The bucket [id] matches a priority. *)
Definition elt_matches (st : gmap nat prioqelt) (bits : Z) (n : nat) (data : list Z) (id : nat) : Prop :=
  exists e, st !! id = Some e /\ bits = p_bits (e_pri e) /\ take n data = take n (p_data (e_pri e)).

Lemma chain_find_spec st h s l fuel bits n data :
  is_chain st h s l -> length l <= fuel ->
  match chain_find fuel st s bits n data with
  | Some id => id ∈ l /\ elt_matches st bits n data id
  | None => forall id, id ∈ l -> ~ elt_matches st bits n data id
  end.
Proof.
  revert h s l. induction fuel as [|fuel IH]; intros h s [|id l] Hc Hf; simpl in *; try lia;
    try (subst s; by intros ? ?%elem_of_nil).
  destruct Hc as (-> & e & He & Hh & Hc). rewrite (lookup_total_correct _ _ _ He).
  destruct ((bits =? _)%Z && _) eqn:Em.
  - apply andb_true_iff in Em as [Eb Ed%bool_decide_eq_true]. apply Z.eqb_eq in Eb.
    split; [by left|]. by exists e.
  - specialize (IH _ _ _ Hc ltac:(lia)). destruct (chain_find _ _ _ _ _ _) as [id'|].
    + destruct IH as [Hin Hm]. split; [by right|done].
    + intros x [->|Hin]%elem_of_cons; [|by apply IH].
      intros (e' & He' & Hb & Hd). simplify_eq.
      rewrite Z.eqb_refl, bool_decide_eq_true_2 in Em by done. done.
Qed.

(** Pushing a bucket on a chain. *)
Lemma is_chain_push st b s l id e :
  is_chain st (HTab b) s l -> id ∉ l -> NoDup l -> st !! id = Some e ->
  ht_next e = s -> ht_handle e = HTab b ->
  is_chain (match s with Some n => alter (set_ht_handle (HNext id)) n st | None => st end)
    (HTab b) (Some id) (id :: l).
Proof.
  intros Hc Hni Hnd He Hs Hb. simpl. split; [done|]. exists e. destruct l as [|n l]; simpl in Hc.
  - rewrite Hc in Hs |- *. done.
  - destruct Hc as (-> & e' & He' & Hh' & Hc).
    apply not_elem_of_cons in Hni as [Hne Hni]. apply NoDup_cons in Hnd as [Hnl Hnd].
    split_and!; [by rewrite lookup_alter_ne by done|done|].
    split; [done|]. exists (set_ht_handle (HNext id) e').
    split_and!; [by rewrite lookup_alter_eq, He'|done|].
    eapply is_chain_frame; [|done]. intros x Hx. rewrite link_of_alter_ne; [done|].
    by intros ->.
Qed.

(** What unlinking bucket [id] with fields [e] does to the store. *)
Definition unlink_store (e : prioqelt) (st : gmap nat prioqelt) : gmap nat prioqelt :=
  let st := match ht_next e with
            | Some n => alter (set_ht_handle (ht_handle e)) n st
            | None => st
            end in
  match ht_handle e with
  | HTab _ => st
  | HNext p => alter (set_ht_next (ht_next e)) p st
  end.

Lemma unlink_store_lookup e st x :
  Some x <> ht_next e -> ht_handle e <> HNext x -> unlink_store e st !! x = st !! x.
Proof.
  intros Hn Hh. unfold unlink_store.
  destruct (ht_handle e) as [i|q], (ht_next e) as [n|];
    rewrite ?lookup_alter_ne by congruence; done.
Qed.

Lemma unlink_store_frame e st x :
  Some x <> ht_next e -> ht_handle e <> HNext x -> link_of (unlink_store e st) x = link_of st x.
Proof. intros. unfold link_of. by rewrite unlink_store_lookup. Qed.

Lemma is_chain_next st h s l1 id l2 e n :
  is_chain st h s (l1 ++ id :: l2) -> st !! id = Some e -> ht_next e = Some n -> n ∈ l2.
Proof.
  revert h s. induction l1 as [|p l1 IH]; intros h s Hc He Hn; simpl in Hc.
  - destruct Hc as (_ & e' & He' & _ & Hc). simplify_eq. destruct l2; simpl in Hc; [congruence|].
    destruct Hc as [Hc _]. rewrite Hn in Hc. simplify_eq. by left.
  - destruct Hc as (_ & e' & He' & _ & Hc). eauto.
Qed.

Lemma unlink_store_pri e st : unlink_store e st ≡pri st.
Proof.
  unfold unlink_store. destruct (ht_handle e), (ht_next e);
    rewrite ?pri_equiv_alter by done; done.
Qed.

(** Removing the head of a chain. *)
Lemma is_chain_unlink_head st h s id l e :
  is_chain st h s (id :: l) -> NoDup (id :: l) -> st !! id = Some e ->
  (forall x, h = HNext x -> x ∉ id :: l) ->
  ht_handle e = h /\ s = Some id /\
  is_chain (delete id (unlink_store e st)) h (ht_next e) l.
Proof.
  intros (-> & e' & He' & <- & Hc) Hnd He Hx.
  assert (e' = e) as -> by congruence. split_and!; try done.
  destruct l as [|n l]; simpl in Hc |- *; [done|]. destruct Hc as (Hn & en & Hen & Hhn & Hc).
  apply NoDup_cons in Hnd as [Hni Hnd]. apply NoDup_cons in Hnd as [Hnn Hnd].
  apply not_elem_of_cons in Hni as [Hne Hni]. split; [done|].
  exists (set_ht_handle (ht_handle e) en).
  assert (ht_handle e <> HNext n) as Hhne.
  { intros E. apply (Hx n E). right. by left. }
  split_and!; [|done|].
  - rewrite lookup_delete_ne by done. unfold unlink_store. rewrite Hn.
    destruct (ht_handle e) as [i|p]; [|rewrite lookup_alter_ne by congruence];
      by rewrite lookup_alter_eq, Hen.
  - eapply is_chain_frame; [|done]. intros x Hxl. rewrite link_of_delete_ne by (by intros ->).
    symmetry. apply unlink_store_frame; [rewrite Hn; congruence|].
    intros E. apply (Hx x E). by do 2 right.
Qed.

(** Removing an inner bucket. *)
Lemma is_chain_unlink_inner st h s p l1 id l2 e :
  is_chain st h s (p :: l1 ++ id :: l2) -> NoDup (p :: l1 ++ id :: l2) -> st !! id = Some e ->
  (forall x, h = HNext x -> x ∉ p :: l1 ++ id :: l2) ->
  (exists q, ht_handle e = HNext q /\ q ∈ p :: l1) /\
  is_chain (delete id (unlink_store e st)) h s (p :: l1 ++ l2).
Proof.
  revert h s p. induction l1 as [|q l1 IH]; intros h s p Hc Hnd He Hx.
  - destruct Hc as (Hs & ep & Hep & Hh & Hc). apply NoDup_cons in Hnd as [Hni Hnd].
    pose proof Hni as [Hne Hni2]%not_elem_of_cons.
    destruct (is_chain_unlink_head _ _ _ _ _ e Hc Hnd He) as (Hhe & Hsp & Hc').
    { intros x [= <-]. done. }
    split; [exists p; split; [done|by left]|].
    split; [done|]. exists (set_ht_next (ht_next e) ep). split_and!; [|done|done].
    rewrite lookup_delete_ne by done. unfold unlink_store. rewrite Hhe, lookup_alter_eq.
    destruct (ht_next e) as [n|] eqn:En; [|by rewrite Hep].
    rewrite lookup_alter_ne; [by rewrite Hep|]. intros ->. apply Hni. right.
    by eapply (is_chain_next _ _ _ []).
  - destruct Hc as (Hs & ep & Hep & Hh & Hc). apply NoDup_cons in Hnd as [Hni Hnd].
    destruct (IH _ _ _ Hc Hnd He) as [(q' & Hq' & Hin) Hc'].
    { intros x [= <-]. done. }
    split; [exists q'; split; [done|by right]|].
    split; [done|]. exists ep. split_and!; [|done|done].
    assert (forall x, x ∈ (q :: l1) ++ id :: l2 -> p <> x) as Hp by (intros ? ? ->; done).
    rewrite lookup_delete_ne by (apply not_eq_sym, Hp, elem_of_app; right; by left).
    rewrite unlink_store_lookup; [done| |].
    + intros E. eapply (Hp p); [|done]. rewrite elem_of_app. do 2 right.
      by eapply (is_chain_next _ _ _ (q :: l1)).
    + rewrite Hq'. intros [= ->]. apply (Hp p); [|done]. rewrite elem_of_app. by left.
Qed.

(** ** The hash table *)

Definition elt_slot (e : prioqelt) : nat :=
  hash_slot (p_bits (e_pri e)) (Z.to_nat (p_ints (e_pri e))) (p_data (e_pri e)) PRIOQ_TABSIZE.

Lemma hash_slot_lt bits n data size : 0 < size -> hash_slot bits n data size < size.
Proof.
  intros. unfold hash_slot.
  pose proof (Z.mod_pos_bound (Z.land (prio_hashval bits n data) 0x7FFFFFFF) (Z.of_nat size)). lia.
Qed.

Lemma elt_slot_lt e : elt_slot e < PRIOQ_TABSIZE.
Proof. apply hash_slot_lt. unfold PRIOQ_TABSIZE. lia. Qed.

Record hash_inv (st : gmap nat prioqelt) (tab : list (option nat)) (chains : nat -> list nat) : Prop := {
  hsh_len : length tab = PRIOQ_TABSIZE;
  hsh_chain b : b < PRIOQ_TABSIZE -> is_chain st (HTab b) (tab !!! b) (chains b);
  hsh_nodup b : NoDup (chains b);
  hsh_mem b id : id ∈ chains b <-> exists e, st !! id = Some e /\ elt_slot e = b
}.

Lemma chain_length st l : NoDup l -> (forall id, id ∈ l -> is_Some (st !! id)) -> length l <= size (st : gmap nat prioqelt).
Proof.
  intros Hnd Hd. rewrite <- size_dom, <- (size_list_to_set (C := gset nat)) by done.
  apply subseteq_size. intros x Hx%elem_of_list_to_set. by apply elem_of_dom, Hd.
Qed.

Lemma hash_inv_data st tab chains id d :
  hash_inv st tab chains -> hash_inv (alter (set_data d) id st) tab chains.
Proof.
  intros [Hl Hc Hn Hm]. split; try done.
  - intros b Hb. eapply is_chain_frame; [|by apply Hc]. intros x _. by rewrite link_of_alter_data.
  - intros b x. rewrite Hm. destruct (decide (x = id)) as [->|].
    + rewrite lookup_alter_eq. destruct (st !! id) as [e|] eqn:E; simpl.
      * split; intros (e' & ? & ?); simplify_eq; eauto.
      * split; intros (e' & ? & ?); simplify_eq.
    + by rewrite lookup_alter_ne by done.
Qed.

(** The store after a new bucket [pe] with contents [elt] was pushed. *)
Definition push_store (pe b : nat) (next : option nat) (elt : prioqelt) (st : gmap nat prioqelt) :=
  let st := <[pe := mk_elt (e_data elt) next (HTab b) (e_pri elt)]> st in
  match next with Some n => alter (set_ht_handle (HNext pe)) n st | None => st end.

Lemma push_store_pri pe b next elt st : push_store pe b next elt st ≡pri <[pe := elt]> st.
Proof.
  unfold push_store. trans (<[pe := mk_elt (e_data elt) next (HTab b) (e_pri elt)]> st).
  - destruct next; [by apply pri_equiv_alter|done].
  - intros x. destruct (decide (pe = x)) as [->|].
    + by rewrite !lookup_insert_eq.
    + by rewrite !lookup_insert_ne by done.
Qed.

Lemma pri_equiv_slot st st' x b :
  st ≡pri st' ->
  (exists e, st !! x = Some e /\ elt_slot e = b) <-> (exists e, st' !! x = Some e /\ elt_slot e = b).
Proof.
  intros Heq. specialize (Heq x). unfold elt_slot.
  split; intros (e & He & Hs); rewrite He in Heq;
    [destruct (st' !! x) as [e'|]|destruct (st !! x) as [e'|]];
    simplify_eq/=; exists e'; (split; [done|congruence]).
Qed.

Lemma hash_inv_push st tab chains pe elt :
  hash_inv st tab chains -> st !! pe = None ->
  let b := elt_slot elt in
  hash_inv (push_store pe b (tab !!! b) elt st) (<[b := Some pe]> tab)
    (fun x => if x =? b then pe :: chains b else chains x).
Proof.
  intros [Hl Hc Hn Hm] Hpe b. pose proof (elt_slot_lt elt) as Hb. fold b in Hb.
  assert (forall x, pe ∉ chains x) as Hni.
  { intros x Hx. apply Hm in Hx as (e & He & _). congruence. }
  split; [len| | |].
  - intros x Hx. bool_cases.
    + subst x. rewrite list_lookup_total_insert_eq by lia.
      unfold push_store. eapply is_chain_push; [|done|done|by rewrite lookup_insert_eq|done|done].
      eapply is_chain_frame; [|by apply Hc].
      intros y Hy. rewrite link_of_insert_ne; [done|]. intros ->. by apply (Hni b).
    + rewrite list_lookup_total_insert_ne by done. eapply is_chain_frame; [|by apply Hc].
      intros y Hy. unfold push_store.
      assert (y <> pe) by (intros ->; by apply (Hni x)).
      destruct (tab !!! b) as [nx|] eqn:En; rewrite ?link_of_alter_ne, link_of_insert_ne; try done.
      intros ->. pose proof (Hc b Hb) as Hcb. rewrite En in Hcb.
      destruct (chains b) as [|z l] eqn:Ez; simpl in Hcb; [done|]. destruct Hcb as ([= ->] & _).
      assert (z ∈ chains b) as Hz by (rewrite Ez; by left).
      apply Hm in Hy as (e1 & He1 & Hs1). apply Hm in Hz as (e2 & He2 & Hs2).
      congruence.
  - intros x. bool_cases; [|done]. subst. constructor; [apply Hni|done].
  - intros x y. rewrite (pri_equiv_slot _ _ y x (push_store_pri _ _ _ _ _)).
    assert (y ∈ (if x =? b then pe :: chains b else chains x) <-> (x = b /\ y = pe) \/ y ∈ chains x) as ->.
    { bool_cases; [subst; rewrite elem_of_cons; naive_solver|naive_solver]. }
    destruct (decide (y = pe)) as [->|].
    + rewrite lookup_insert_eq. split.
      * intros [[-> _]|Hx]; [eauto|]. by destruct (Hni x).
      * intros (e & [= <-] & <-). by left.
    + rewrite lookup_insert_ne, Hm by done. naive_solver.
Qed.

Lemma hash_inv_unlink st tab chains pe e :
  hash_inv st tab chains -> st !! pe = Some e ->
  exists chains',
  hash_inv (delete pe (unlink_store e st))
    (match ht_handle e with HTab i => <[i := ht_next e]> tab | HNext _ => tab end) chains'.
Proof.
  intros [Hl Hc Hn Hm] Hpe. set (b := elt_slot e).
  assert (pe ∈ chains b) as Hin by (apply Hm; eauto).
  apply list_elem_of_split in Hin as (l1 & l2 & Hb).
  pose proof (elt_slot_lt e) as Hlt. fold b in Hlt.
  pose proof (Hc b Hlt) as Hcb. pose proof (Hn b) as Hnb. rewrite Hb in Hcb, Hnb.
  assert (forall x y, y ∈ chains x -> x <> b -> y ∉ l1 ++ pe :: l2) as Hdisj.
  { intros x y Hy Hx Hy2. rewrite <- Hb in Hy2.
    apply Hm in Hy as (e1 & ? & ?). apply Hm in Hy2 as (e2 & ? & ?). simplify_eq. }
  exists (fun x => if x =? b then l1 ++ l2 else chains x).
  assert (is_chain (delete pe (unlink_store e st)) (HTab b)
            (match ht_handle e with HTab i => <[i := ht_next e]> tab | HNext _ => tab end !!! b)
            (l1 ++ l2) /\
          (forall i, ht_handle e = HTab i -> i = b) /\
          (forall q, ht_handle e = HNext q -> q ∈ l1)) as (Hcb' & Hi & Hq).
  { destruct l1 as [|p l1].
    - destruct (is_chain_unlink_head _ _ _ _ _ e Hcb Hnb Hpe) as (Hh & _ & Hc'); [done|].
      rewrite Hh. split_and!; [|by intros ? [= ->]|done].
      by rewrite list_lookup_total_insert_eq by lia.
    - destruct (is_chain_unlink_inner _ _ _ _ _ _ _ e Hcb Hnb Hpe) as ((q & Hh & Hq) & Hc'); [done|].
      rewrite Hh. split_and!; [done|done|]. by intros ? [= <-]. }
  split.
  - destruct (ht_handle e); len.
  - intros x Hx. bool_cases; [by subst|].
    replace (match ht_handle e with HTab i => <[i := ht_next e]> tab | HNext _ => tab end !!! x)
      with (tab !!! x).
    2:{ destruct (ht_handle e) as [i|] eqn:Eh; [|done].
        rewrite list_lookup_total_insert_ne; [done|]. by rewrite (Hi i). }
    eapply is_chain_frame; [|by apply Hc]. intros y Hy. specialize (Hdisj x y Hy n).
    rewrite link_of_delete_ne by (intros ->; apply Hdisj, elem_of_app; right; by left).
    symmetry. apply unlink_store_frame.
    + intros E. apply Hdisj. rewrite elem_of_app, elem_of_cons. do 2 right.
      by eapply is_chain_next.
    + intros E%Hq. apply Hdisj. rewrite elem_of_app. by left.
  - intros x. bool_cases; [|done]. apply NoDup_app in Hnb as (? & ? & ?%NoDup_cons).
    apply NoDup_app. split_and!; [done| |naive_solver]. set_solver.
  - intros x y. assert (y ∈ (if x =? b then l1 ++ l2 else chains x) <-> y ∈ chains x /\ y <> pe) as ->.
    { bool_cases.
      - subst. rewrite Hb. rewrite !elem_of_app, elem_of_cons.
        apply NoDup_app in Hnb as (? & Hd & ?%NoDup_cons). set_solver.
      - split; [|naive_solver]. intros Hy. split; [done|]. intros ->.
        apply (Hdisj x pe Hy n). rewrite elem_of_app. right. by left. }
    rewrite Hm. destruct (decide (y = pe)) as [->|].
    + rewrite lookup_delete_eq. naive_solver.
    + rewrite lookup_delete_ne by done.
      rewrite (pri_equiv_slot _ _ y x (unlink_store_pri e st)). naive_solver.
Qed.

(** ** Invariant and abstraction *)

(** A priority as its users see it: the number of bits and the words. *)
Definition pkey : Type := Z * list Z.

Definition elt_id (e : prioqelt) : pkey := (p_bits (e_pri e), p_data (e_pri e)).

Definition prio_ints (bits : Z) : nat := Z.to_nat ((bits + CINTBITS - 1) / CINTBITS).

Record pri_wf (p : prio) : Prop := {
  pri_wf_bits : (0 <= p_bits p < 2 ^ 16)%Z;
  pri_wf_ints : p_ints p = Z.of_nat (prio_ints (p_bits p));
  pri_wf_data : length (p_data p) = prio_ints (p_bits p)
}.

Record prioq_wf (pq : prioq) : Prop := {
  wf_hash : exists chains, hash_inv (pq_store pq) (hashtab pq) chains;
  wf_key_size : hash_key_size pq = PRIOQ_TABSIZE;
  wf_entries : hash_entry_size pq = Z.of_nat (size (pq_store pq));
  wf_heap : heap_inv (pq_store pq) (heap pq) (heapnext pq - 1);
  wf_heapsize : length (heap pq) = heapsize pq;
  wf_next : 1 <= heapnext pq <= heapsize pq;
  wf_uniq id1 id2 e1 e2 : pq_store pq !! id1 = Some e1 -> pq_store pq !! id2 = Some e2 ->
    elt_id e1 = elt_id e2 -> id1 = id2;
  wf_pri id e : pq_store pq !! id = Some e -> pri_wf (e_pri e);
  wf_brk id : pq_brk pq <= id -> pq_store pq !! id = None;
  wf_deq id e : pq_store pq !! id = Some e -> deq_wf (e_data e)
}.

(** No bucket is empty: true between the operations of the queue. *)
Definition prioq_full (pq : prioq) : Prop :=
  forall id e, pq_store pq !! id = Some e -> deq_list (e_data e) <> [].

(** [pq] holds for each priority the messages [m] lists, in order. *)
Definition prioq_repr (pq : prioq) (m : gmap pkey (list ptr)) : Prop :=
  forall k l, m !! k = Some l <->
    exists id e, pq_store pq !! id = Some e /\ elt_id e = k /\ deq_list (e_data e) = l.

Lemma prio_words_data p : pri_wf p -> prio_words p = p_data p.
Proof.
  intros [_ Hi Hd]. unfold prio_words. rewrite Hi, Nat2Z.id, <- Hd. apply words_all.
Qed.

Lemma prio_ints_bound bits : (0 <= bits < 2 ^ 16)%Z -> prio_ints bits <= 2048.
Proof.
  intros. unfold prio_ints, CINTBITS.
  assert ((bits + 32 - 1) / 32 < 2049)%Z; [|lia].
  apply Z.div_lt_upper_bound; lia.
Qed.

Section theorems.
Context {U : Uninit}.
Implicit Types pq : prioq.

Lemma prioq_init_wf : prioq_wf CqsPrioqInit.
Proof.
  split; simpl; try done.
  - exists (fun _ => []). split.
    + apply length_replicate.
    + intros b Hb. simpl. by rewrite lookup_total_replicate_2.
    + intros. constructor.
    + intros b id. rewrite elem_of_nil. setoid_rewrite lookup_empty. naive_solver.
  - split; simpl.
    + vm_compute. lia.
    + intros i Hi. lia.
    + constructor.
    + intros id. rewrite elem_of_nil, lookup_empty. split; [done|by intros [? ?]].
  - lia.
Qed.

Lemma prioq_init_repr : prioq_repr CqsPrioqInit ∅.
Proof. intros k l. rewrite lookup_empty. simpl. setoid_rewrite lookup_empty. naive_solver. Qed.

Lemma prioq_init_full : prioq_full CqsPrioqInit.
Proof. intros id e He. simpl in He. by rewrite lookup_empty in He. Qed.

(** Replacing the messages of a bucket. *)
Lemma upd_data_wf pq id e d :
  prioq_wf pq -> pq_store pq !! id = Some e -> deq_wf d ->
  prioq_wf (upd_elt id (set_data d) pq).
Proof.
  intros [[ch Hh] Hk He Hp Hl Hn Hu Hpr Hb Hd] Hid Hdw.
  assert (forall x e', alter (set_data d) id (pq_store pq) !! x = Some e' ->
    exists e0, pq_store pq !! x = Some e0 /\ elt_id e' = elt_id e0 /\ e_pri e' = e_pri e0 /\
      deq_wf (e_data e')) as Hx.
  { intros x e' Hx. destruct (decide (x = id)) as [->|].
    - rewrite lookup_alter_eq, Hid in Hx. simplify_eq/=. eauto.
    - rewrite lookup_alter_ne in Hx by done. eauto 10. }
  split; simpl; try done.
  - exists ch. by apply hash_inv_data.
  - rewrite He. f_equal. rewrite <- !size_dom. by rewrite dom_alter_L.
  - by rewrite (pri_equiv_alter (set_data d) id (pq_store pq)).
  - intros i1 i2 e1 e2 (e1' & H1 & E1 & _)%Hx (e2' & H2 & E2 & _)%Hx E. eapply Hu; [done..|congruence].
  - intros i1 e1 (e1' & H1 & _ & E1 & _)%Hx. rewrite E1. eauto.
  - intros x ?%Hb. destruct (decide (x = id)) as [->|]; [congruence|]. by rewrite lookup_alter_ne by done.
  - intros i1 e1 (e1' & H1 & _ & _ & Hw)%Hx. done.
Qed.

Lemma upd_data_repr pq id e d m :
  prioq_wf pq -> pq_store pq !! id = Some e -> prioq_repr pq m ->
  prioq_repr (upd_elt id (set_data d) pq) (<[elt_id e := deq_list d]> m).
Proof.
  intros Hwf Hid Hr k l. simpl. destruct (decide (k = elt_id e)) as [->|Hk].
  - rewrite lookup_insert_eq. split.
    + intros [= <-]. exists id, (set_data d e). by rewrite lookup_alter_eq, Hid.
    + intros (id' & e' & He' & Hk & <-). destruct (decide (id' = id)) as [->|].
      * rewrite lookup_alter_eq, Hid in He'. by simplify_eq/=.
      * rewrite lookup_alter_ne in He' by done. by destruct (wf_uniq _ Hwf _ _ _ _ He' Hid Hk).
  - rewrite lookup_insert_ne by done. rewrite (Hr k l). split.
    + intros (id' & e' & He' & Hk' & Hl). exists id', e'. split; [|done].
      rewrite lookup_alter_ne; [done|]. intros ->. congruence.
    + intros (id' & e' & He' & Hk' & Hl). exists id', e'. split; [|done].
      destruct (decide (id' = id)) as [->|]; [|by rewrite lookup_alter_ne in He' by done].
      rewrite lookup_alter_eq, Hid in He'. by simplify_eq/=.
Qed.

(** The lookup finds the bucket of a priority exactly when there is one. *)
Lemma getdeq_lookup pq bits data :
  prioq_wf pq -> (0 <= bits < 2 ^ 16)%Z -> prio_ints bits <= length data ->
  match chain_find (size (pq_store pq)) (pq_store pq)
          (hashtab pq !!! hash_slot bits (prio_ints bits) data PRIOQ_TABSIZE)
          bits (prio_ints bits) data with
  | Some id => exists e, pq_store pq !! id = Some e /\ elt_id e = (bits, take (prio_ints bits) data)
  | None => forall id e, pq_store pq !! id = Some e -> elt_id e <> (bits, take (prio_ints bits) data)
  end.
Proof.
  intros Hwf Hbits Hdata. destruct (wf_hash _ Hwf) as [ch [Hl Hc Hn Hm]].
  set (n := prio_ints bits) in *. set (b := hash_slot bits n data PRIOQ_TABSIZE).
  assert (b < PRIOQ_TABSIZE) as Hb by (apply hash_slot_lt; unfold PRIOQ_TABSIZE; lia).
  pose proof (chain_find_spec _ _ _ _ (size (pq_store pq)) bits n data (Hc b Hb)) as Hf.
  destruct (chain_find _ _ _ _ _ _) as [id|].
  - destruct Hf as [_ (e & He & Hbe & Hd)].
    { apply chain_length; [done|]. intros x (e & -> & _)%Hm. eauto. }
    exists e. split; [done|]. unfold elt_id. rewrite <- Hbe, Hd. f_equal.
    rewrite take_ge; [done|]. rewrite (pri_wf_data _ (wf_pri _ Hwf _ _ He)), <- Hbe. unfold n. lia.
  - intros id e He [= Eb Ed]. refine (Hf _ id _ _).
    + apply chain_length; [done|]. intros x (e' & -> & _)%Hm. eauto.
    + apply Hm. exists e. split; [done|]. unfold elt_slot, b, hash_slot, prio_hashval.
      destruct (wf_pri _ Hwf _ _ He) as [_ Hi Hd].
      rewrite Hi, Nat2Z.id, Eb, Ed. fold n. rewrite take_take, Nat.min_id. done.
    + exists e. split_and!; [done|done|]. rewrite Ed, take_take, Nat.min_id. done.
Qed.

(** The effect of pushing a new bucket on the chain. *)
Lemma ht_push_store pe b pq elt st :
  pq_store pq = <[pe := elt]> st ->
  pq_store (ht_push pe b pq) = push_store pe b (hashtab pq !!! b) elt st.
Proof.
  intros E. unfold ht_push, push_store. simpl. rewrite E.
  assert (alter (set_ht_handle (HTab b)) pe
            (alter (set_ht_next (hashtab pq !!! b)) pe (<[pe := elt]> st)) =
          <[pe := mk_elt (e_data elt) (hashtab pq !!! b) (HTab b) (e_pri elt)]> st) as ->; [|done].
  apply map_eq. intros x. destruct (decide (x = pe)) as [->|].
  - by rewrite !lookup_alter_eq, !lookup_insert_eq.
  - by rewrite !lookup_alter_ne, !lookup_insert_ne by done.
Qed.

Lemma push_store_lookup pe b next elt st x e :
  push_store pe b next elt st !! x = Some e ->
  exists e0, <[pe := elt]> st !! x = Some e0 /\ elt_id e = elt_id e0 /\ e_pri e = e_pri e0 /\
    e_data e = e_data e0.
Proof.
  unfold push_store. intros Hx.
  assert (exists e1, <[pe := mk_elt (e_data elt) next (HTab b) (e_pri elt)]> st !! x = Some e1 /\
            e_pri e = e_pri e1 /\ e_data e = e_data e1) as (e1 & H1 & Hp & Hd).
  { destruct next as [n|]; [|eauto]. destruct (decide (x = n)) as [->|].
    - rewrite lookup_alter_eq in Hx. destruct (_ !! n); simplify_eq/=. eauto.
    - rewrite lookup_alter_ne in Hx by done. eauto. }
  destruct (decide (x = pe)) as [->|].
  - rewrite lookup_insert_eq in H1 |- *. simplify_eq/=. exists elt. unfold elt_id. by rewrite Hp.
  - rewrite lookup_insert_ne in H1 |- * by done. exists e1. unfold elt_id. by rewrite Hp.
Qed.

Lemma push_store_dom pe b next elt st :
  dom (push_store pe b next elt st) = {[pe]} ∪ dom st.
Proof.
  unfold push_store. destruct next as [n|]; [rewrite dom_alter_L|]; by rewrite dom_insert_L.
Qed.

(** The bucket that [CqsPrioqGetDeq] adds for a new priority. *)
Definition new_elt (bits : Z) (data : list Z) : prioqelt :=
  mk_elt CqsDeqInit None (HTab (hash_slot bits (prio_ints bits) data PRIOQ_TABSIZE))
    (mk_prio (u16 bits) (u16 (Z.of_nat (prio_ints bits))) (take (prio_ints bits) data)).

Lemma new_elt_wf bits data :
  (0 <= bits < 2 ^ 16)%Z -> prio_ints bits <= length data ->
  pri_wf (e_pri (new_elt bits data)) /\
  elt_id (new_elt bits data) = (bits, take (prio_ints bits) data) /\
  elt_slot (new_elt bits data) = hash_slot bits (prio_ints bits) data PRIOQ_TABSIZE.
Proof.
  intros Hb Hd. pose proof (prio_ints_bound bits Hb).
  assert (u16 bits = bits) as Eb by (apply Z.mod_small; lia).
  assert (u16 (Z.of_nat (prio_ints bits)) = Z.of_nat (prio_ints bits)) as Ei
    by (apply Z.mod_small; lia).
  unfold new_elt, elt_id, elt_slot; simpl. rewrite Eb, Ei. split_and!; [|done|].
  - split; simpl; [done|done|len].
  - rewrite Nat2Z.id. unfold hash_slot, prio_hashval. by rewrite take_take, Nat.min_id.
Qed.

(** A priority without a bucket gets a new, empty one. *)
Lemma getdeq_new pq bits data :
  prioq_wf pq -> (0 <= bits < 2 ^ 16)%Z -> prio_ints bits <= length data ->
  size (pq_store pq) < 2 * PRIOQ_TABSIZE ->
  (forall id e, pq_store pq !! id = Some e -> elt_id e <> (bits, take (prio_ints bits) data)) ->
  let b := hash_slot bits (prio_ints bits) data PRIOQ_TABSIZE in
  let pe := pq_brk pq in
  let pq1 := ht_push pe b
    (mk_prioq (heapsize pq) (heapnext pq) (heap pq) (hashtab pq) (hash_key_size pq)
       (hash_entry_size pq) (<[pe := new_elt bits data]> (pq_store pq)) (S pe)) in
  let pq' := heap_push pe pq1 in
  (2 * Z.of_nat (hash_key_size pq1) <? hash_entry_size pq1)%Z = false /\
  prioq_wf pq' /\
  pq_store pq' = push_store pe b (hashtab pq !!! b) (new_elt bits data) (pq_store pq).
Proof.
  intros Hwf Hbits Hdata Hsize Hnew b pe pq1 pq'.
  destruct (new_elt_wf bits data Hbits Hdata) as (Hpw & Hid & Hslot).
  pose proof Hwf as [[ch Hh] Hk He Hp Hl Hn Hu Hpr Hb Hd].
  assert (pq_store pq !! pe = None) as Hfresh by (by apply Hb).
  assert (pq_store pq1 = push_store pe b (hashtab pq !!! b) (new_elt bits data) (pq_store pq)) as Hst1
    by (by unfold pq1; erewrite ht_push_store).
  assert (is_Some (pq_store pq1 !! pe)) as Hpe.
  { apply elem_of_dom. rewrite Hst1, push_store_dom. set_solver. }
  destruct (heap_push_inv pe pq1) as (Hheap & Hlen & Hnext & Hst & Htab & Hks & Hes & Hbrk); try done.
  { rewrite Hst1. replace (heap pq1) with (heap pq) by done.
    replace (heapnext pq1) with (heapnext pq) by done.
    rewrite push_store_pri. by rewrite delete_insert_id. }
  fold pq' in Hheap, Hlen, Hnext, Hst, Htab, Hks, Hes, Hbrk.
  assert (hash_entry_size pq1 = hash_entry_size pq + 1)%Z as Hes1 by done.
  assert (forall x e, pq_store pq' !! x = Some e ->
    (x = pe /\ elt_id e = (bits, take (prio_ints bits) data) /\ pri_wf (e_pri e) /\ deq_wf (e_data e)) \/
    (x <> pe /\ exists e0, pq_store pq !! x = Some e0 /\ elt_id e = elt_id e0 /\
       pri_wf (e_pri e) /\ deq_wf (e_data e))) as Hx.
  { intros x e Hxe. rewrite Hst, Hst1 in Hxe. apply push_store_lookup in Hxe as (e0 & He0 & E1 & E2 & E3).
    rewrite E2, E3. destruct (decide (x = pe)) as [->|].
    - rewrite lookup_insert_eq in He0. injection He0 as <-. left.
      split_and!; [done|by rewrite E1|done|]. apply deq_init_wf.
    - rewrite lookup_insert_ne in He0 by done. right. split; [done|]. exists e0. eauto 10. }
  split_and!; [|split|by rewrite Hst].
  - replace (hash_key_size pq1) with (hash_key_size pq) by done. rewrite Hes1, He, Hk.
    apply Z.ltb_ge. lia.
  - eexists. rewrite Hst, Htab, Hst1.
    change (hashtab pq1) with (<[b := Some pe]> (hashtab pq)). unfold b. rewrite <- Hslot.
    by apply hash_inv_push.
  - by rewrite Hks.
  - rewrite Hes, Hes1, He, Hst, Hst1, <- !size_dom, push_store_dom.
    rewrite size_union, size_singleton; [lia|]. apply disjoint_singleton_l, not_elem_of_dom. done.
  - by rewrite Hst.
  - done.
  - done.
  - intros i1 i2 e1 e2 [(-> & E1 & _)|(N1 & e1' & H1 & E1 & _)]%Hx
      [(-> & E2 & _)|(N2 & e2' & H2 & E2 & _)]%Hx E; [done| | |eapply Hu; [done..|congruence]].
    + destruct (Hnew _ _ H2). congruence.
    + destruct (Hnew _ _ H1). congruence.
  - by intros i1 e1 [(_ & _ & ? & _)|(_ & ? & _ & _ & ? & _)]%Hx.
  - intros x Hxb. rewrite Hst, Hst1. apply not_elem_of_dom. rewrite push_store_dom.
    rewrite Hbrk in Hxb. replace (pq_brk pq1) with (S pe) in Hxb by done.
    rewrite elem_of_union, elem_of_singleton, elem_of_dom, Hb by (unfold pe in Hxb; lia).
    intros [->|[? ?]]; [lia|done].
  - by intros i1 e1 [(_ & _ & _ & ?)|(_ & ? & _ & _ & _ & ?)]%Hx.
Qed.

Lemma getdeq_ints bits :
  (0 <= bits < 2 ^ 16)%Z -> Z.to_nat (u32 (bits + CINTBITS - 1) / CINTBITS) = prio_ints bits.
Proof. intros. unfold prio_ints, CINTBITS. rewrite u32_small; [done|lia]. Qed.

Lemma getdeq_spec pq bits data m :
  prioq_wf pq -> prioq_full pq -> prioq_repr pq m ->
  (0 <= bits < 2 ^ 16)%Z -> prio_ints bits <= length data ->
  size (pq_store pq) < 2 * PRIOQ_TABSIZE ->
  let k : pkey := (bits, take (prio_ints bits) data) in
  let '(pq', id) := CqsPrioqGetDeq pq bits data in
  prioq_wf pq' /\
  prioq_repr pq' (<[k := default [] (m !! k)]> m) /\
  exists e, pq_store pq' !! id = Some e /\ elt_id e = k /\
    deq_list (e_data e) = default [] (m !! k) /\
    (forall id' e', id' <> id -> pq_store pq' !! id' = Some e' -> deq_list (e_data e') <> []).
Proof.
  intros Hwf Hfull Hr Hbits Hdata Hsize k. unfold CqsPrioqGetDeq.
  rewrite getdeq_ints by done. pose proof (getdeq_lookup pq bits data Hwf Hbits Hdata) as Hf.
  destruct (chain_find _ _ _ _ _ _) as [id|].
  - destruct Hf as (e & He & Hid). fold k in Hid.
    assert (m !! k = Some (deq_list (e_data e))) as Hm by (apply Hr; eauto).
    rewrite Hm. simpl. rewrite insert_id by done. split_and!; try done.
    exists e. split_and!; try done. intros id' e' _. apply Hfull.
  - fold k in Hf. assert (m !! k = None) as Hm.
    { destruct (m !! k) eqn:E; [|done]. apply Hr in E as (id & e & He & Hid & _).
      by destruct (Hf _ _ He). }
    destruct (getdeq_new pq bits data Hwf Hbits Hdata Hsize Hf) as (Hre & Hwf' & Hst).
    unfold new_elt in *. rewrite Hre.
    match goal with |- context [heap_push ?pe ?q] => set (pq' := heap_push pe q) in * end.
    fold (new_elt bits data) in Hst. rewrite Hm. simpl.
    destruct (new_elt_wf bits data Hbits Hdata) as (_ & Hnid & _). fold k in Hnid.
    assert (forall x, x <> pq_brk pq ->
      option_Forall2 (fun e' e => elt_id e' = elt_id e /\ e_data e' = e_data e)
        (pq_store pq' !! x) (pq_store pq !! x)) as Hother.
    { intros x Hx. rewrite Hst. unfold push_store.
      destruct (hashtab pq !!! _) as [n|]; [destruct (decide (x = n)) as [->|]|].
      - rewrite lookup_alter_eq, lookup_insert_ne by done.
        destruct (pq_store pq !! n); by repeat constructor.
      - rewrite lookup_alter_ne, lookup_insert_ne by done.
        destruct (pq_store pq !! x); by repeat constructor.
      - rewrite lookup_insert_ne by done. destruct (pq_store pq !! x); by repeat constructor. }
    assert (exists e, pq_store pq' !! pq_brk pq = Some e /\ elt_id e = k /\ e_data e = CqsDeqInit)
      as (e & He & Hid & Hd).
    { rewrite Hst. unfold push_store.
      destruct (hashtab pq !!! _) as [n|]; [destruct (decide (pq_brk pq = n)) as [<-|]|].
      - rewrite lookup_alter_eq, lookup_insert_eq. eauto.
      - rewrite lookup_alter_ne, lookup_insert_eq by done. eauto.
      - rewrite lookup_insert_eq. eauto. }
    split_and!; [done| |].
    + intros k' l. destruct (decide (k' = k)) as [->|Hk'].
      * rewrite lookup_insert_eq. split.
        -- intros [= <-]. exists (pq_brk pq), e. by rewrite Hd.
        -- intros (id' & e' & He' & Hk' & <-).
           rewrite (wf_uniq _ Hwf' _ _ _ _ He' He) in He' by congruence.
           assert (e' = e) as -> by congruence. by rewrite Hd.
      * rewrite lookup_insert_ne, (Hr k' l) by done. split; intros (id' & e' & He' & Hi & Hl).
        -- assert (id' <> pq_brk pq) as Hne.
           { intros ->. rewrite (wf_brk _ Hwf) in He' by lia. done. }
           pose proof (Hother id' Hne) as Ho. rewrite He' in Ho.
           inversion Ho as [e2 e1 [E1 E2] Hs Hs'|]; subst. exists id', e2. by rewrite E1, E2.
        -- assert (id' <> pq_brk pq) as Hne by (intros ->; congruence).
           pose proof (Hother id' Hne) as Ho. rewrite He' in Ho.
           inversion Ho as [e1 e2 [E1 E2] Hs Hs'|]; subst. exists id', e2. by rewrite <- E1, <- E2.
    + exists e. split_and!; [done|done|by rewrite Hd|]. intros id' e' Hne He'.
      pose proof (Hother id' Hne) as Ho. rewrite He' in Ho.
      inversion Ho as [e1 e2 [_ E2] Hs Hs'|]; subst. rewrite E2. by eapply Hfull.
Qed.

Lemma ht_unlink_fields pe pq e :
  pq_store pq !! pe = Some e ->
  let pq' := ht_unlink pe pq in
  pq_store pq' = unlink_store e (pq_store pq) /\
  hashtab pq' = (match ht_handle e with
                 | HTab i => <[i := ht_next e]> (hashtab pq)
                 | HNext _ => hashtab pq
                 end) /\
  heap pq' = heap pq /\ heapsize pq' = heapsize pq /\ heapnext pq' = heapnext pq /\
  hash_key_size pq' = hash_key_size pq /\ (hash_entry_size pq' = hash_entry_size pq - 1)%Z /\
  pq_brk pq' = pq_brk pq.
Proof.
  intros He. unfold ht_unlink, unlink_store. rewrite (lookup_total_correct _ _ _ He).
  by destruct (ht_handle e).
Qed.

Lemma heap_pop_fields pq :
  let pq' := heap_pop pq in
  pq_store pq' = pq_store pq /\ hashtab pq' = hashtab pq /\ heapsize pq' = heapsize pq /\
  hash_key_size pq' = hash_key_size pq /\ hash_entry_size pq' = hash_entry_size pq /\
  pq_brk pq' = pq_brk pq.
Proof. unfold heap_pop. by destruct (sift_down _ _ _ _ _ _). Qed.

Lemma unlink_store_elts e st x :
  option_Forall2 (fun e' e => elt_id e' = elt_id e /\ e_pri e' = e_pri e /\ e_data e' = e_data e)
    (unlink_store e st !! x) (st !! x).
Proof.
  assert (forall f id (st : gmap nat prioqelt) st0,
    (forall e, elt_id (f e) = elt_id e /\ e_pri (f e) = e_pri e /\ e_data (f e) = e_data e) ->
    option_Forall2 (fun e' e => elt_id e' = elt_id e /\ e_pri e' = e_pri e /\ e_data e' = e_data e)
      (st !! x) (st0 !! x) ->
    option_Forall2 (fun e' e => elt_id e' = elt_id e /\ e_pri e' = e_pri e /\ e_data e' = e_data e)
      (alter f id st !! x) ((st0 : gmap nat prioqelt) !! x)) as Halt.
  { intros f id s s0 Hf H. destruct (decide (id = x)) as [->|].
    - rewrite lookup_alter_eq. inversion H as [a b (H1 & H2 & H3) E1 E2|]; simpl; constructor.
      destruct (Hf a) as (F1 & F2 & F3). split_and!; congruence.
    - by rewrite lookup_alter_ne by done. }
  assert (option_Forall2 (fun e' e => elt_id e' = elt_id e /\ e_pri e' = e_pri e /\ e_data e' = e_data e)
            (st !! x) (st !! x)) by (destruct (st !! x); by repeat constructor).
  unfold unlink_store. destruct (ht_handle e), (ht_next e); auto.
Qed.

(** Taking the root bucket out of the heap and the hash table. *)
Lemma remove_root_wf pq :
  prioq_wf pq -> 2 <= heapnext pq ->
  let pe := heap pq !!! 1 in
  let pq' := free_elt pe (heap_pop (ht_unlink pe pq)) in
  prioq_wf pq' /\
  (forall x, option_Forall2 (fun e' e => elt_id e' = elt_id e /\ e_pri e' = e_pri e /\ e_data e' = e_data e)
     (pq_store pq' !! x) (delete pe (pq_store pq) !! x)).
Proof.
  intros Hwf Hn2 pe pq'. pose proof Hwf as [[ch Hh] Hk He Hp Hl Hn Hu Hpr Hb Hd].
  assert (is_Some (pq_store pq !! pe)) as [e Hpe].
  { destruct Hp as [Hp1 _ _ Hp2]. apply Hp2, cells_lookup; lia. }
  destruct (ht_unlink_fields pe pq e Hpe) as (Est & Etab & Ehp & Ehs & Ehn & Eks & Ees & Ebrk).
  set (q := ht_unlink pe pq) in *.
  destruct (heap_pop_fields q) as (Fst & Ftab & Fhs & Fks & Fes & Fbrk).
  destruct (heap_pop_inv q) as (Ghi & Ghl & Ghn); [|lia|].
  { rewrite Est, Ehp, Ehn. by rewrite unlink_store_pri. }
  set (q' := heap_pop q) in *.
  assert (forall x, option_Forall2 (fun e' e => elt_id e' = elt_id e /\ e_pri e' = e_pri e /\ e_data e' = e_data e)
     (pq_store pq' !! x) (delete pe (pq_store pq) !! x)) as Hx.
  { intros x. unfold pq'. simpl. rewrite Fst, Est. destruct (decide (pe = x)) as [->|].
    - rewrite !lookup_delete_eq. constructor.
    - rewrite !lookup_delete_ne by done. apply unlink_store_elts. }
  assert (forall x e', pq_store pq' !! x = Some e' ->
    exists e0, pq_store pq !! x = Some e0 /\ elt_id e' = elt_id e0 /\ e_pri e' = e_pri e0 /\
      e_data e' = e_data e0) as Hx'.
  { intros x e' He'. specialize (Hx x). rewrite He' in Hx.
    inversion Hx as [a b E E1 E2|]; subst. exists b. split; [|done].
    destruct (decide (pe = x)) as [->|]; [by rewrite lookup_delete_eq in E2|].
    by rewrite lookup_delete_ne in E2 by done. }
  split; [|done]. split.
  - destruct (hash_inv_unlink _ _ _ _ _ Hh Hpe) as [ch' Hch']. exists ch'.
    unfold pq'. simpl. by rewrite Fst, Est, Ftab, Etab.
  - unfold pq'. simpl. by rewrite Fks, Eks.
  - unfold pq'. simpl. rewrite Fes, Ees, He, Fst, Est, <- !size_dom, dom_delete_L.
    assert (dom (unlink_store e (pq_store pq)) = dom (pq_store pq)) as ->.
    { unfold unlink_store. destruct (ht_handle e), (ht_next e); by rewrite ?dom_alter_L. }
    assert (pe ∈ dom (pq_store pq)) by (apply elem_of_dom; eauto).
    rewrite size_difference, size_singleton by set_solver.
    assert (size (dom (pq_store pq)) <> 0) by (apply size_non_empty_iff; set_solver). lia.
  - unfold pq'. simpl. rewrite Fst. rewrite Ehp in Ghi. done.
  - unfold pq'. simpl. rewrite Ghl, Fhs, Ehp, Ehs. done.
  - unfold pq'. simpl. rewrite Fhs, Ehs, Ghn, Ehn. lia.
  - intros i1 i2 e1 e2 (e1' & H1 & E1 & _)%Hx' (e2' & H2 & E2 & _)%Hx' E.
    eapply Hu; [done..|congruence].
  - intros i1 e1 (e1' & H1 & _ & E1 & _)%Hx'. rewrite E1. eauto.
  - intros x Hxb. unfold pq' in *. simpl in *. rewrite Fbrk, Ebrk in Hxb.
    apply Hb in Hxb. specialize (Hx x). simpl in Hx.
    destruct (decide (pe = x)) as [->|]; [congruence|].
    assert (delete pe (pq_store pq) !! x = None) as E by (by rewrite lookup_delete_ne).
    rewrite E in Hx. by inversion Hx.
  - intros i1 e1 (e1' & H1 & _ & _ & E1)%Hx'. rewrite E1. eauto.
Qed.

(** [CqsPrioqDequeue] takes the first message of a least priority. *)
Lemma prioq_dequeue_spec pq m :
  prioq_wf pq -> prioq_full pq -> prioq_repr pq m ->
  (CqsPrioqDequeue pq = (pq, NULL) /\ heapnext pq = 1 /\ m = ∅) \/
  exists k x l pq',
    CqsPrioqDequeue pq = (pq', x) /\ 1 < heapnext pq /\ m !! k = Some (x :: l) /\
    (forall k' l', m !! k' = Some l' -> lex_gt (snd k) (snd k') = false) /\
    prioq_wf pq' /\ prioq_full pq' /\
    prioq_repr pq' (match l with [] => delete k m | _ => <[k := l]> m end).
Proof.
  intros Hwf Hfull Hr. pose proof (wf_heap _ Hwf) as [Hhl Hok Hnd Hdom].
  pose proof (wf_next _ Hwf) as Hnext. unfold CqsPrioqDequeue.
  destruct (Nat.eqb_spec (heapnext pq) 1) as [E1|E1].
  { left. split_and!; [done|done|]. apply map_empty. intros k. destruct (m !! k) eqn:Em; [|done].
    apply Hr in Em as (id & e & He & _). exfalso.
    assert (id ∈ cells (heapnext pq - 1) (heap pq)) as Hin by (apply Hdom; eauto).
    rewrite E1 in Hin. by apply elem_of_nil in Hin. }
  right. set (pe := heap pq !!! 1).
  assert (is_Some (pq_store pq !! pe)) as [e He] by (apply Hdom, cells_lookup; lia).
  rewrite (lookup_total_correct _ _ _ He).
  destruct (deq_dequeue_spec (e_data e) (wf_deq _ Hwf _ _ He)) as [[_ Hnil]|(d & x & Hq & Hdl & Hdw)].
  { by destruct (Hfull _ _ He). }
  rewrite Hq. set (pq1 := upd_elt pe (set_data d) pq).
  assert (m !! elt_id e = Some (x :: deq_list d)) as Hm by (apply Hr; exists pe, e; auto).
  assert (forall k' l', m !! k' = Some l' -> lex_gt (snd (elt_id e)) (snd k') = false) as Hmin.
  { intros k' l' (id' & e' & He' & <- & _)%Hr. simpl.
    assert (id' ∈ cells (heapnext pq - 1) (heap pq)) as (i & Hi & Ei)%elem_of_cells by (apply Hdom; eauto);
      [|lia].
    pose proof (heap_root_min _ _ _ i Hok Hi) as Hroot. unfold kle, elt_key in Hroot. fold pe in Hroot.
    rewrite Ei, (lookup_total_correct _ _ _ He), (lookup_total_correct _ _ _ He'), CqsPrioGT_lex in Hroot.
    rewrite !prio_words_data in Hroot by (by eapply wf_pri). done. }
  pose proof (upd_data_wf pq pe e d Hwf He Hdw) as Hwf1. fold pq1 in Hwf1.
  pose proof (upd_data_repr pq pe e d m Hwf He Hr) as Hr1. fold pq1 in Hr1.
  assert (forall id e', id <> pe -> pq_store pq1 !! id = Some e' -> deq_list (e_data e') <> []) as Hfull1.
  { intros id e' Hne He'. unfold pq1 in He'. simpl in He'. rewrite lookup_alter_ne in He' by done. eauto. }
  assert (pq_store pq1 !! pe = Some (set_data d e)) as Hpe1.
  { unfold pq1. simpl. by rewrite lookup_alter_eq, He. }
  pose proof (deq_empty_iff d Hdw) as Hemp. unfold deq_is_empty in Hemp.
  destruct (d_head d =? d_tail d) eqn:Ed.
  - destruct (remove_root_wf pq1 Hwf1) as [Hwf2 Hst2]; [unfold pq1; simpl; lia|].
    replace (heap pq1 !!! 1) with pe in * by done.
    exists (elt_id e), x, (deq_list d), (free_elt pe (heap_pop (ht_unlink pe pq1))).
    rewrite (proj1 Hemp eq_refl) in *. split_and!; try done; [lia| |].
    + intros id e' He'. specialize (Hst2 id). rewrite He' in Hst2.
      inversion Hst2 as [a b (_ & _ & Eb) E2 E3|]; subst. symmetry in E3.
      apply lookup_delete_Some in E3 as [Hne E3]. rewrite Eb. eauto.
    + intros k l. destruct (decide (k = elt_id e)) as [->|Hk].
      * rewrite lookup_delete_eq. split; [done|]. intros (id & e' & He' & Hk' & Hl').
        specialize (Hst2 id). rewrite He' in Hst2.
        inversion Hst2 as [a b (Ei & _ & Eb) E2 E3|]; subst. symmetry in E3.
        apply lookup_delete_Some in E3 as [Hne E3].
        destruct Hne. eapply (wf_uniq _ Hwf1); [done..|]. rewrite <- Ei, Hk'. done.
      * rewrite lookup_delete_ne by done. specialize (Hr1 k l). rewrite lookup_insert_ne in Hr1 by done.
        rewrite Hr1. split; intros (id & e' & He' & Hk' & Hl').
        -- specialize (Hst2 id). rewrite lookup_delete_ne, He' in Hst2.
           2:{ intros <-. rewrite Hpe1 in He'. injection He' as <-. by destruct Hk. }
           inversion Hst2 as [a b (Ei & _ & Eb) E2 E3|]; subst. exists id, a. by rewrite Ei, Eb.
        -- specialize (Hst2 id). rewrite He' in Hst2.
           inversion Hst2 as [a b (Ei & _ & Eb) E2 E3|]; subst. symmetry in E3.
           apply lookup_delete_Some in E3 as [Hne E3]. exists id, b. by rewrite Ei, Eb.
  - exists (elt_id e), x, (deq_list d), pq1. split_and!; try done; [lia| |].
    + intros id e' He'. destruct (decide (id = pe)) as [->|]; [|eauto].
      rewrite Hpe1 in He'. injection He' as <-. simpl. intros Hn%Hemp. done.
    + destruct (deq_list d) eqn:El; [|done]. assert (false = true) by (by apply Hemp). done.
Qed.
End theorems.
