(* ===== verification/Queueing.v ===== *)
(** * Queueing: the scheduler's message queue

    [struct Queue_struct] and the [Cqs...] operations of
    src/conv-core/queueing.C (the build without [CMK_USE_STL_MSGQ]): a queue
    of zero-priority messages between a priority queue of negative and one of
    positive priorities. *)

From S2P Require Import Prelude Heap Deq Prioq.

(** The queueing strategies of converse.h. *)
Definition CQS_QUEUEING_FIFO : Z := 2.
Definition CQS_QUEUEING_LIFO : Z := 3.
Definition CQS_QUEUEING_IFIFO : Z := 4.
Definition CQS_QUEUEING_ILIFO : Z := 5.
Definition CQS_QUEUEING_BFIFO : Z := 6.
Definition CQS_QUEUEING_BLIFO : Z := 7.
Definition CQS_QUEUEING_LFIFO : Z := 8.
Definition CQS_QUEUEING_LLIFO : Z := 9.

Record Queue := mk_queue {
  q_length : Z;
  q_maxlen : Z;
  zeroprio : deq;
  negprioq : prioq;
  posprioq : prioq
}.

(** Byte order: [CmiEndianness] returns 0 on a little-endian machine. *)
Inductive endian := LittleEndian | BigEndian.

(** A 64-bit integer in memory, read as two unsigned words, and back. *)
Definition int8_words (en : endian) (z : Z) : list Z :=
  match en with
  | LittleEndian => [u32 z; u32 (Z.shiftr z 32)]
  | BigEndian => [u32 (Z.shiftr z 32); u32 z]
  end.

Definition words_int8 (en : endian) (l : list Z) : Z :=
  match en with
  | LittleEndian => i64 (Z.shiftl (l !!! 1%nat) 32 + l !!! 0%nat)
  | BigEndian => i64 (Z.shiftl (l !!! 0%nat) 32 + l !!! 1%nat)
  end.

Section ops.
Context {U : Uninit}.

Definition CqsCreate : Queue := mk_queue 0 0 CqsDeqInit CqsPrioqInit CqsPrioqInit.

Definition CqsLength (q : Queue) : Z := q_length q.
Definition CqsMaxLength (q : Queue) : Z := q_maxlen q.
Definition CqsEmpty (q : Queue) : bool := (q_length q =? 0)%Z.

(** [q->length++; if (q->length>q->maxlen) q->maxlen=q->length;] *)
Definition cqs_count (q : Queue) : Queue :=
  let length := u32 (q_length q + 1) in
  mk_queue length (if (q_maxlen q <? length)%Z then length else q_maxlen q)
    (zeroprio q) (negprioq q) (posprioq q).

Definition set_zeroprio (d : deq) (q : Queue) : Queue :=
  mk_queue (q_length q) (q_maxlen q) d (negprioq q) (posprioq q).
Definition set_negprioq (pq : prioq) (q : Queue) : Queue :=
  mk_queue (q_length q) (q_maxlen q) (zeroprio q) pq (posprioq q).
Definition set_posprioq (pq : prioq) (q : Queue) : Queue :=
  mk_queue (q_length q) (q_maxlen q) (zeroprio q) (negprioq q) pq.
Definition set_length (n : Z) (q : Queue) : Queue :=
  mk_queue n (q_maxlen q) (zeroprio q) (negprioq q) (posprioq q).

(** [d=CqsPrioqGetDeq(pq,...); CqsDeqEnqueueFifo(d, data)] and its LIFO twin. *)
Definition prioq_enqueue (fifo : bool) (pq : prioq) (bits : Z) (words : list Z) (data : ptr) : prioq :=
  let '(pq, id) := CqsPrioqGetDeq pq (u32 bits) words in
  upd_elt id (fun e => set_data (if fifo then CqsDeqEnqueueFifo (e_data e) data
                                 else CqsDeqEnqueueLifo (e_data e) data) e) pq.

(** The bucket goes to [posprioq] when the top bit of the priority is set. *)
Definition queue_enqueue (fifo pos : bool) (bits : Z) (words : list Z) (data : ptr) (q : Queue) : Queue :=
  if pos then set_posprioq (prioq_enqueue fifo (posprioq q) bits words data) q
  else set_negprioq (prioq_enqueue fifo (negprioq q) bits words data) q.

(** The three ways to read a priority: [iprio], the bits as they are, and
    [lprio] with the words put in the order the comparison reads them. *)
Definition enqueue_int (fifo : bool) (prioptr : list Z) (data : ptr) (q : Queue) : Queue :=
  let iprio := i32 (u32 (prioptr !!! 0%nat + 2 ^ 31)) in
  queue_enqueue fifo (iprio <? 0)%Z CINTBITS [u32 iprio] data q.

Definition enqueue_bits (fifo : bool) (priobits : Z) (prioptr : list Z) (data : ptr) (q : Queue) : Queue :=
  let pos := negb (priobits =? 0)%Z && (i32 (prioptr !!! 0%nat) <? 0)%Z in
  queue_enqueue fifo pos priobits prioptr data q.

Definition enqueue_long (en : endian) (fifo : bool) (priobits : Z) (prioptr : list Z) (data : ptr)
    (q : Queue) : Queue :=
  let lprio0 := words_int8 en prioptr in
  let lprio0 := i64 (u64 lprio0 + 2 ^ 63) in
  let lprio := match en with
               | LittleEndian =>
                   let w := int8_words en lprio0 in
                   Z.lor (i64 (Z.shiftl (w !!! 0%nat) CINTBITS)) (w !!! 1%nat)
               | BigEndian => lprio0
               end in
  queue_enqueue fifo (lprio0 <? 0)%Z priobits (int8_words en lprio) data q.

Definition CqsEnqueueGeneral (en : endian) (q : Queue) (data : ptr) (strategy : Z)
    (priobits : Z) (prioptr : list Z) : outcome Queue :=
  q' ← (if (strategy =? CQS_QUEUEING_FIFO)%Z then
          Normal (set_zeroprio (CqsDeqEnqueueFifo (zeroprio q) data) q)
        else if (strategy =? CQS_QUEUEING_LIFO)%Z then
          Normal (set_zeroprio (CqsDeqEnqueueLifo (zeroprio q) data) q)
        else if (strategy =? CQS_QUEUEING_IFIFO)%Z then Normal (enqueue_int true prioptr data q)
        else if (strategy =? CQS_QUEUEING_ILIFO)%Z then Normal (enqueue_int false prioptr data q)
        else if (strategy =? CQS_QUEUEING_BFIFO)%Z then Normal (enqueue_bits true priobits prioptr data q)
        else if (strategy =? CQS_QUEUEING_BLIFO)%Z then Normal (enqueue_bits false priobits prioptr data q)
        else if (strategy =? CQS_QUEUEING_LFIFO)%Z then
          _ ← CmiAssert (priobits =? CLONGBITS)%Z;
          Normal (enqueue_long en true priobits prioptr data q)
        else if (strategy =? CQS_QUEUEING_LLIFO)%Z then
          Normal (enqueue_long en false priobits prioptr data q)
        else Aborted);
  Normal (cqs_count q').

Definition CqsEnqueueFifo (q : Queue) (data : ptr) : Queue :=
  cqs_count (set_zeroprio (CqsDeqEnqueueFifo (zeroprio q) data) q).

Definition CqsEnqueueLifo (q : Queue) (data : ptr) : Queue :=
  cqs_count (set_zeroprio (CqsDeqEnqueueLifo (zeroprio q) data) q).

Definition CqsEnqueue (q : Queue) (data : ptr) : Queue :=
  cqs_count (set_zeroprio (CqsDeqEnqueueFifo (zeroprio q) data) q).

Definition CqsDequeue (q : Queue) : Queue * ptr :=
  if (q_length q =? 0)%Z then (q, NULL)
  else if 1 <? heapnext (negprioq q) then
    let '(pq, resp) := CqsPrioqDequeue (negprioq q) in
    (set_length (u32 (q_length q - 1)) (set_negprioq pq q), resp)
  else if negb (d_head (zeroprio q) =? d_tail (zeroprio q)) then
    let '(d, resp) := CqsDeqDequeue (zeroprio q) in
    (set_length (u32 (q_length q - 1)) (set_zeroprio d q), resp)
  else if 1 <? heapnext (posprioq q) then
    let '(pq, resp) := CqsPrioqDequeue (posprioq q) in
    (set_length (u32 (q_length q - 1)) (set_posprioq pq q), resp)
  else (q, NULL).

Definition kprio_zero : prio := mk_prio 0 0 [0%Z].
Definition kprio_max : prio := mk_prio 32 1 [u32 (-1)].

Definition CqsGetPriority (q : Queue) : prio :=
  if 1 <? heapnext (negprioq q) then e_pri (pq_store (negprioq q) !!! (heap (negprioq q) !!! 1))
  else if negb (d_head (zeroprio q) =? d_tail (zeroprio q)) then kprio_zero
  else if 1 <? heapnext (posprioq q) then e_pri (pq_store (posprioq q) !!! (heap (posprioq q) !!! 1))
  else kprio_max.

Definition CqsEnumerateQueue (q : Queue) : list ptr :=
  CqsEnumeratePrioq (negprioq q) ++ CqsEnumerateDeq (zeroprio q) ++ CqsEnumeratePrioq (posprioq q).

Definition CqsRemoveSpecific (q : Queue) (msgPtr : ptr) : Queue :=
  let '(neg, r) := CqsRemoveSpecificPrioq (negprioq q) msgPtr in
  let q := set_negprioq neg q in
  if (r =? 0)%Z then
    let '(zero, r) := CqsRemoveSpecificDeq (zeroprio q) msgPtr in
    let q := set_zeroprio zero q in
    if (r =? 0)%Z then
      let '(pos, r) := CqsRemoveSpecificPrioq (posprioq q) msgPtr in
      set_posprioq pos q
    else q
  else q.

End ops.
