(* ===== verification/QueueingFacts.v ===== *)
(** * QueueingFacts: correctness of the scheduler's message queue

    The concrete [Queue] refines an abstract queue of two maps from
    priorities to message lists with a list of zero-priority messages in
    between.  On top of the refinement: no message is lost or duplicated, the
    length counter is exact, the order is by priority and first-in first-out
    within a priority, and integer priorities are ordered as signed numbers. *)

From S2P Require Import Prelude Heap Deq Prioq PrioqFacts Queueing.
Set Warnings "-clear-no-such-hyp".

(** ** The messages of a map from priorities to lists *)

Definition mcontents (m : gmap pkey (list ptr)) : list ptr := concat ((map_to_list m).*2).

Lemma mcontents_empty : mcontents ∅ = [].
Proof. unfold mcontents. by rewrite map_to_list_empty. Qed.

Lemma mcontents_new m k l : m !! k = None -> mcontents (<[k := l]> m) ≡ₚ l ++ mcontents m.
Proof.
  intros Hk. unfold mcontents. rewrite map_to_list_insert by done. by simpl.
Qed.

Lemma mcontents_split m k l : m !! k = Some l -> mcontents m ≡ₚ l ++ mcontents (delete k m).
Proof.
  intros Hk. rewrite <- (insert_delete_id _ _ _ Hk) at 1.
  apply mcontents_new. apply lookup_delete_eq.
Qed.

Lemma mcontents_update m k l :
  mcontents (<[k := l]> m) ≡ₚ l ++ mcontents (delete k m).
Proof. rewrite <- insert_delete_eq. apply mcontents_new, lookup_delete_eq. Qed.

(** Adding [x] to the list of [k] adds [x] to the messages. *)
Lemma mcontents_push m k l x :
  l ≡ₚ x :: default [] (m !! k) -> mcontents (<[k := l]> m) ≡ₚ x :: mcontents m.
Proof.
  intros Hl. rewrite mcontents_update, Hl. destruct (m !! k) as [l0|] eqn:E; simpl.
  - by rewrite (mcontents_split _ _ _ E).
  - by rewrite delete_id.
Qed.

(** Taking [x] from the front of the list of [k] removes it. *)
Lemma mcontents_pop m k x l :
  m !! k = Some (x :: l) ->
  mcontents m ≡ₚ x :: mcontents (match l with [] => delete k m | _ => <[k := l]> m end).
Proof.
  intros Hk. rewrite (mcontents_split _ _ _ Hk). simpl. constructor.
  destruct l; [done|]. by rewrite mcontents_update.
Qed.

(** ** Abstract queue *)

Record aqueue := mk_aqueue {
  a_neg : gmap pkey (list ptr);
  a_zero : list ptr;
  a_pos : gmap pkey (list ptr)
}.

Definition acontents (a : aqueue) : list ptr :=
  mcontents (a_neg a) ++ a_zero a ++ mcontents (a_pos a).

Record queue_wf (q : Queue) : Prop := {
  qwf_zero : deq_wf (zeroprio q);
  qwf_neg : prioq_wf (negprioq q);
  qwf_neg_full : prioq_full (negprioq q);
  qwf_pos : prioq_wf (posprioq q);
  qwf_pos_full : prioq_full (posprioq q)
}.

Record queue_repr (q : Queue) (a : aqueue) : Prop := {
  qr_wf : queue_wf q;
  qr_neg : prioq_repr (negprioq q) (a_neg a);
  qr_zero : deq_list (zeroprio q) = a_zero a;
  qr_pos : prioq_repr (posprioq q) (a_pos a);
  qr_length : q_length q = Z.of_nat (length (acontents a))
}.

(** The abstract operations: [pk_put] adds a message to the list of its
    priority, at the back or at the front. *)
Definition put (fifo : bool) (x : ptr) (l : list ptr) : list ptr :=
  if fifo then l ++ [x] else x :: l.

Definition pk_put (fifo : bool) (k : pkey) (x : ptr) (m : gmap pkey (list ptr)) : gmap pkey (list ptr) :=
  <[k := put fifo x (default [] (m !! k))]> m.

Definition pk_take (k : pkey) (l : list ptr) (m : gmap pkey (list ptr)) : gmap pkey (list ptr) :=
  match l with [] => delete k m | _ => <[k := l]> m end.

Definition pk_least (k : pkey) (m : gmap pkey (list ptr)) : Prop :=
  forall k' l', m !! k' = Some l' -> lex_gt (snd k) (snd k') = false.

(** [CqsDequeue] of the abstract queue, as a relation: a negative priority
    before a zero one before a positive one; a least priority of the map. *)
Inductive adequeue : aqueue -> ptr -> aqueue -> Prop :=
  | adeq_neg m z p k x l :
      m !! k = Some (x :: l) -> pk_least k m ->
      adequeue (mk_aqueue m z p) x (mk_aqueue (pk_take k l m) z p)
  | adeq_zero x z p :
      adequeue (mk_aqueue ∅ (x :: z) p) x (mk_aqueue ∅ z p)
  | adeq_pos p k x l :
      p !! k = Some (x :: l) -> pk_least k p ->
      adequeue (mk_aqueue ∅ [] p) x (mk_aqueue ∅ [] (pk_take k l p)).

Lemma put_perm fifo x l : put fifo x l ≡ₚ x :: l.
Proof. destruct fifo; simpl; [by rewrite Permutation_app_comm|done]. Qed.

Lemma pk_put_contents fifo k x m : mcontents (pk_put fifo k x m) ≡ₚ x :: mcontents m.
Proof. apply mcontents_push, put_perm. Qed.

Lemma adequeue_contents a x a' : adequeue a x a' -> acontents a ≡ₚ x :: acontents a'.
Proof.
  destruct 1 as [m z p k x l Hk _|x z p|p k x l Hk _]; unfold acontents; simpl.
  - by rewrite (mcontents_pop _ _ _ _ Hk).
  - by rewrite mcontents_empty.
  - rewrite mcontents_empty. simpl. by rewrite (mcontents_pop _ _ _ _ Hk).
Qed.

(** ** Integer priorities *)

(** The keys under which a 32-bit and a 64-bit signed priority are filed. *)
Definition int_key (p : Z) : pkey := (32, [p + 2 ^ 31])%Z.
Definition long_key (p : Z) : pkey :=
  (64, [(p + 2 ^ 63) / 2 ^ 32; (p + 2 ^ 63) mod 2 ^ 32])%Z.

Lemma int_key_order p r :
  lex_gt (snd (int_key p)) (snd (int_key r)) = (r <? p)%Z.
Proof. simpl. bool_cases; lia. Qed.

Lemma long_key_order p r :
  lex_gt (snd (long_key p)) (snd (long_key r)) = (r <? p)%Z.
Proof.
  simpl.
  pose proof (Z.div_mod (p + 2 ^ 63) (2 ^ 32)). pose proof (Z.mod_pos_bound (p + 2 ^ 63) (2 ^ 32)).
  pose proof (Z.div_mod (r + 2 ^ 63) (2 ^ 32)). pose proof (Z.mod_pos_bound (r + 2 ^ 63) (2 ^ 32)).
  bool_cases; nia.
Qed.

Lemma iprio_key w : (0 <= w < 2 ^ 32)%Z ->
  let iprio := i32 (u32 (w + 2 ^ 31)) in
  u32 iprio = (i32 w + 2 ^ 31)%Z /\ (iprio <? 0)%Z = (0 <=? i32 w)%Z.
Proof.
  intros Hw iprio. assert (u32 (w + 2 ^ 31) = i32 w + 2 ^ 31)%Z as E by (unfold i32, u32; lia).
  pose proof (i32_range w). unfold iprio. rewrite u32_i32, E. split.
  - apply u32_small. lia.
  - unfold i32. destruct (Z.leb_spec 0 ((w + 2 ^ 31) mod 2 ^ 32 - 2 ^ 31)) as [H1|H1];
      unfold i32 in *; [apply Z.ltb_lt|apply Z.ltb_ge].
    + rewrite (Z.mod_eq _ (2 ^ 32)) by lia.
      assert (((w + 2 ^ 31) mod 2 ^ 32 - 2 ^ 31 + 2 ^ 31 + 2 ^ 31) / 2 ^ 32 = 1)%Z as ->; [|lia].
      symmetry. apply (Z.div_unique _ _ _ ((w + 2 ^ 31) mod 2 ^ 32 - 2 ^ 31)); lia.
    + rewrite Z.mod_small; lia.
Qed.

(** The two words of a 64-bit value whose unsigned reading is [v]. *)
Lemma hi_lo_words z v k :
  (0 <= v < 2 ^ 64)%Z -> (z = v + k * 2 ^ 64)%Z ->
  u32 z = (v mod 2 ^ 32)%Z /\ u32 (Z.shiftr z 32) = (v / 2 ^ 32)%Z.
Proof.
  intros Hv ->. rewrite Z.shiftr_div_pow2 by lia.
  replace (v + k * 2 ^ 64)%Z with (v + (k * 2 ^ 32) * 2 ^ 32)%Z by lia. split.
  - apply u32_cong.
  - rewrite Z.div_add by lia. rewrite u32_cong. apply u32_small.
    split; [apply Z.div_pos; lia|]. apply Z.div_lt_upper_bound; lia.
Qed.

Lemma lprio_key en p : (- 2 ^ 63 <= p < 2 ^ 63)%Z ->
  let lprio0 := i64 (u64 p + 2 ^ 63) in
  let lprio := match en with
               | LittleEndian =>
                   let w := int8_words en lprio0 in
                   Z.lor (i64 (Z.shiftl (w !!! 0%nat) CINTBITS)) (w !!! 1%nat)
               | BigEndian => lprio0
               end in
  int8_words en lprio = snd (long_key p) /\ (lprio0 <? 0)%Z = (0 <=? p)%Z.
Proof.
  intros Hp lprio0 lprio. set (v := (p + 2 ^ 63)%Z).
  assert (exists k, lprio0 = v + k * 2 ^ 64)%Z as [k Hk].
  { unfold lprio0, u64. destruct (i64_cong (p mod 2 ^ 64 + 2 ^ 63)) as [k ->].
    exists (k - p / 2 ^ 64)%Z. pose proof (Z.div_mod p (2 ^ 64)). lia. }
  assert (0 <= v < 2 ^ 64)%Z as Hv by lia.
  assert ((lprio0 <? 0)%Z = (0 <=? p)%Z) as Hs.
  { pose proof (i64_range (u64 p + 2 ^ 63)) as Hr. fold lprio0 in Hr.
    destruct (Z.leb_spec 0 p); [apply Z.ltb_lt|apply Z.ltb_ge]; lia. }
  split; [|done]. destruct (hi_lo_words _ _ _ Hv Hk) as [Hlo Hhi].
  unfold long_key; simpl. fold v. destruct en; unfold int8_words in *; simpl in lprio.
  2:{ unfold lprio. by rewrite Hlo, Hhi. }
  unfold lprio, CINTBITS. rewrite Hlo, Hhi, Z.shiftl_mul_pow2 by lia.
  destruct (i64_cong (v mod 2 ^ 32 * 2 ^ 32)) as [j Hj].
  assert (0 <= v / 2 ^ 32 < 2 ^ 32)%Z as Hq.
  { split; [apply Z.div_pos; lia|]. apply Z.div_lt_upper_bound; lia. }
  pose proof (Z.mod_pos_bound v (2 ^ 32)).
  replace (i64 (v mod 2 ^ 32 * 2 ^ 32)) with ((v mod 2 ^ 32 + j * 2 ^ 32) * 2 ^ 32)%Z by lia.
  rewrite lor_disjoint by (done || lia). rewrite Z.shiftr_div_pow2 by lia.
  rewrite (Z.add_comm _ (v / 2 ^ 32)), u32_cong, Z.div_add, (Z.div_small (v / 2 ^ 32)) by lia.
  rewrite Z.add_0_l, u32_cong, !u32_small by lia. done.
Qed.

Section facts.
Context {U : Uninit}.
Implicit Types (q : Queue) (a : aqueue).

Lemma create_repr : queue_repr CqsCreate (mk_aqueue ∅ [] ∅).
Proof.
  split; simpl; try apply prioq_init_repr; try done.
  split; simpl; auto using deq_init_wf, prioq_init_wf, prioq_init_full.
Qed.

(** Enqueueing into a bucketed priority queue. *)
Lemma prioq_enqueue_spec fifo pq m bits words x :
  prioq_wf pq -> prioq_full pq -> prioq_repr pq m ->
  (0 <= bits < 2 ^ 16)%Z -> prio_ints bits <= length words ->
  size (pq_store pq) < 2 * PRIOQ_TABSIZE ->
  let pq' := prioq_enqueue fifo pq bits words x in
  prioq_wf pq' /\ prioq_full pq' /\
  prioq_repr pq' (pk_put fifo (bits, take (prio_ints bits) words) x m).
Proof.
  intros Hwf Hfull Hr Hb Hw Hs pq'. unfold pq', prioq_enqueue. rewrite u32_small by lia.
  pose proof (getdeq_spec pq bits words m Hwf Hfull Hr Hb Hw Hs) as Hg.
  destruct (CqsPrioqGetDeq pq bits words) as [pq1 id].
  destruct Hg as (Hwf1 & Hr1 & e & He & Hid & Hl & Hfull1).
  set (d := if fifo then CqsDeqEnqueueFifo (e_data e) x else CqsDeqEnqueueLifo (e_data e) x).
  assert (upd_elt id (fun e => set_data (if fifo then CqsDeqEnqueueFifo (e_data e) x
            else CqsDeqEnqueueLifo (e_data e) x) e) pq1 = upd_elt id (set_data d) pq1) as ->.
  { unfold upd_elt. f_equal. apply map_eq. intros j. destruct (decide (id = j)) as [<-|].
    - rewrite !lookup_alter_eq, He. by simpl.
    - by rewrite !lookup_alter_ne by done. }
  pose proof (wf_deq _ Hwf1 _ _ He) as Hdw.
  assert (deq_wf d /\ deq_list d = put fifo x (deq_list (e_data e))) as [Hdw' Hdl].
  { unfold d, put. destruct fifo; auto using deq_fifo_wf, deq_list_fifo, deq_lifo_wf, deq_list_lifo. }
  split_and!.
  - by eapply upd_data_wf.
  - intros j e' He'. simpl in He'. destruct (decide (id = j)) as [<-|].
    + rewrite lookup_alter_eq, He in He'. injection He' as <-. simpl. rewrite Hdl.
      destruct fifo; simpl; [|done]. by destruct (deq_list _).
    + rewrite lookup_alter_ne in He' by done. eauto.
  - pose proof (upd_data_repr _ _ _ d _ Hwf1 He Hr1) as Hr2.
    rewrite Hid, insert_insert_eq, Hdl, Hl in Hr2. exact Hr2.
Qed.

(** The total counter [q->length++] is exact while it fits its type. *)
Lemma cqs_count_length q : (0 <= q_length q)%Z -> (q_length q + 1 < 2 ^ 32)%Z ->
  q_length (cqs_count q) = (q_length q + 1)%Z.
Proof. intros. unfold cqs_count. simpl. apply u32_small. lia. Qed.

Lemma queue_wf_count q : queue_wf q -> queue_wf (cqs_count q).
Proof. by intros [? ? ? ? ?]. Qed.

(** Enqueueing at the zero priority. *)
Lemma enqueue_zero_repr (fifo : bool) q a x :
  queue_repr q a -> (q_length q + 1 < 2 ^ 32)%Z ->
  let d := if fifo then CqsDeqEnqueueFifo (zeroprio q) x else CqsDeqEnqueueLifo (zeroprio q) x in
  queue_repr (cqs_count (set_zeroprio d q)) (mk_aqueue (a_neg a) (put fifo x (a_zero a)) (a_pos a)).
Proof.
  intros [[Hz Hn Hnf Hp Hpf] Hrn Hrz Hrp Hl] Hlen d.
  assert (deq_wf d /\ deq_list d = put fifo x (a_zero a)) as [Hdw Hdl].
  { rewrite <- Hrz. unfold d, put.
    destruct fifo; auto using deq_fifo_wf, deq_list_fifo, deq_lifo_wf, deq_list_lifo. }
  split; simpl; try done. rewrite u32_small by lia. rewrite Hl. unfold acontents. simpl.
  rewrite put_perm. len.
Qed.

(** Enqueueing with a priority. *)
Lemma enqueue_prio_repr (fifo pos : bool) q a bits words x :
  queue_repr q a -> (q_length q + 1 < 2 ^ 32)%Z ->
  (0 <= bits < 2 ^ 16)%Z -> prio_ints bits <= length words ->
  size (pq_store (if pos then posprioq q else negprioq q)) < 2 * PRIOQ_TABSIZE ->
  queue_repr (cqs_count (queue_enqueue fifo pos bits words x q))
    (let k := (bits, take (prio_ints bits) words) in
     if pos then mk_aqueue (a_neg a) (a_zero a) (pk_put fifo k x (a_pos a))
     else mk_aqueue (pk_put fifo k x (a_neg a)) (a_zero a) (a_pos a)).
Proof.
  intros [[Hz Hn Hnf Hp Hpf] Hrn Hrz Hrp Hl] Hlen Hb Hw Hs. unfold queue_enqueue.
  destruct pos;
    [destruct (prioq_enqueue_spec fifo (posprioq q) (a_pos a) bits words x) as (? & ? & ?)
    |destruct (prioq_enqueue_spec fifo (negprioq q) (a_neg a) bits words x) as (? & ? & ?)];
    try done; (split; simpl; [done..|]); rewrite u32_small, Hl by lia; unfold acontents; simpl;
    rewrite pk_put_contents; len.
Qed.

(** The empty map is represented exactly by an empty heap. *)
Lemma repr_heapnext pq m :
  prioq_wf pq -> prioq_full pq -> prioq_repr pq m ->
  (1 <? heapnext pq) = negb (bool_decide (m = ∅)).
Proof.
  intros Hwf Hf Hr. pose proof (prioq_dequeue_spec pq m Hwf Hf Hr) as
    [(_ & E & ->)|(k & x & l & pq' & _ & E & Hk & _)].
  - by rewrite E.
  - rewrite bool_decide_eq_false_2; [by apply Nat.ltb_lt in E|].
    intros ->. by rewrite lookup_empty in Hk.
Qed.

(** [CqsDequeue] follows the abstract queue. *)
Lemma cqs_dequeue_spec q a :
  queue_repr q a -> (q_length q < 2 ^ 32)%Z ->
  (CqsDequeue q = (q, NULL) /\ acontents a = []) \/
  exists q' x a', CqsDequeue q = (q', x) /\ adequeue a x a' /\ queue_repr q' a'.
Proof.
  intros Hqr Hlen. pose proof Hqr as [[Hz Hn Hnf Hp Hpf] Hrn Hrz Hrp Hl]. unfold CqsDequeue.
  destruct (Z.eqb_spec (q_length q) 0) as [E|E].
  { left. split; [done|]. apply length_zero_iff_nil. lia. }
  assert (forall q' x a', adequeue a x a' -> q_length q' = u32 (q_length q - 1) ->
    queue_wf q' -> prioq_repr (negprioq q') (a_neg a') -> deq_list (zeroprio q') = a_zero a' ->
    prioq_repr (posprioq q') (a_pos a') -> queue_repr q' a') as Hmk.
  { intros q' x a' Ha E' ? ? ? ?. split; try done.
    rewrite E', u32_small, Hl, (adequeue_contents _ _ _ Ha) by lia. simpl. lia. }
  destruct a as [m z p]; simpl in *.
  rewrite (repr_heapnext _ _ Hn Hnf Hrn), (repr_heapnext _ _ Hp Hpf Hrp).
  pose proof (deq_empty_iff (zeroprio q) Hz) as Hemp. unfold deq_is_empty in Hemp. rewrite Hrz in Hemp.
  destruct (prioq_dequeue_spec _ _ Hn Hnf Hrn) as
    [(_ & _ & ->)|(k & x & l & pq' & Hq & _ & Hk & Hmin & Hw & Hf & Hr)].
  2:{ right. rewrite bool_decide_eq_false_2; [|by intros ->; rewrite lookup_empty in Hk]. simpl.
      rewrite Hq. do 3 eexists. split; [done|].
      assert (adequeue (mk_aqueue m z p) x (mk_aqueue (pk_take k l m) z p)) as Ha
        by (by constructor). split; [exact Ha|]. by eapply Hmk. }
  rewrite bool_decide_eq_true_2 by done. simpl.
  destruct (deq_dequeue_spec (zeroprio q) Hz) as [[_ Hnil]|(d & x & Hq & Hdl & Hdw)].
  2:{ right. rewrite Hrz in Hdl. destruct (d_head _ =? _) eqn:Ed.
      { assert (z = []) as -> by (by apply Hemp). done. }
      simpl. rewrite Hq. do 3 eexists. split; [done|]. rewrite Hdl in Hmk |- *.
      pose proof (adeq_zero x (deq_list d) p) as Ha. split; [exact Ha|]. by eapply Hmk. }
  rewrite Hrz in Hnil. rewrite (proj2 Hemp Hnil). simpl. destruct z; [|done].
  destruct (prioq_dequeue_spec _ _ Hp Hpf Hrp) as
    [(_ & _ & ->)|(k & x & l & pq' & Hq & _ & Hk & Hmin & Hw & Hf & Hr)].
  { left. rewrite bool_decide_eq_true_2 by done. split; [done|].
    unfold acontents. simpl. by rewrite mcontents_empty. }
  right. rewrite bool_decide_eq_false_2; [|by intros ->; rewrite lookup_empty in Hk]. simpl.
  rewrite Hq. do 3 eexists. split; [done|].
  assert (adequeue (mk_aqueue ∅ [] p) x (mk_aqueue ∅ [] (pk_take k l p))) as Ha by (by constructor).
  split; [exact Ha|]. by eapply Hmk.
Qed.

(** ** Every strategy *)

(** Where [CqsEnqueueGeneral] files a message: at the zero priority or under
    a key of one of the two priority queues, first-in or last-in first-out. *)
Inductive place := AtZero | AtKey (pos : bool) (k : pkey).

Definition enqueue_place (en : endian) (strategy priobits : Z) (prioptr : list Z) : option (bool * place) :=
  if (strategy =? CQS_QUEUEING_FIFO)%Z then Some (true, AtZero)
  else if (strategy =? CQS_QUEUEING_LIFO)%Z then Some (false, AtZero)
  else if (strategy =? CQS_QUEUEING_IFIFO)%Z || (strategy =? CQS_QUEUEING_ILIFO)%Z then
    let p := i32 (prioptr !!! 0%nat) in
    Some ((strategy =? CQS_QUEUEING_IFIFO)%Z, AtKey (0 <=? p)%Z (int_key p))
  else if (strategy =? CQS_QUEUEING_BFIFO)%Z || (strategy =? CQS_QUEUEING_BLIFO)%Z then
    Some ((strategy =? CQS_QUEUEING_BFIFO)%Z,
          AtKey (negb (priobits =? 0)%Z && (i32 (prioptr !!! 0%nat) <? 0)%Z)
            (priobits, take (prio_ints priobits) prioptr))
  else if (strategy =? CQS_QUEUEING_LFIFO)%Z || (strategy =? CQS_QUEUEING_LLIFO)%Z then
    let p := words_int8 en prioptr in
    Some ((strategy =? CQS_QUEUEING_LFIFO)%Z, AtKey (0 <=? p)%Z (long_key p))
  else None.

Definition aenqueue (a : aqueue) (x : ptr) (pl : bool * place) : aqueue :=
  match pl with
  | (fifo, AtZero) => mk_aqueue (a_neg a) (put fifo x (a_zero a)) (a_pos a)
  | (fifo, AtKey true k) => mk_aqueue (a_neg a) (a_zero a) (pk_put fifo k x (a_pos a))
  | (fifo, AtKey false k) => mk_aqueue (pk_put fifo k x (a_neg a)) (a_zero a) (a_pos a)
  end.

(** A priority is given as the strategy expects it: one word, [priobits]
    bits, or a 64-bit integer. *)
Record prio_ok (strategy priobits : Z) (prioptr : list Z) : Prop := {
  pok_words : Forall (fun w => 0 <= w < 2 ^ 32)%Z prioptr;
  pok_int : (4 <= strategy <= 5)%Z -> prioptr <> [];
  pok_bits : (6 <= strategy <= 7)%Z -> (0 <= priobits < 2 ^ 16)%Z /\ prio_ints priobits <= length prioptr;
  pok_long : (8 <= strategy <= 9)%Z -> priobits = 64%Z
}.

Lemma enqueue_int_place fifo prioptr x q :
  Forall (fun w => 0 <= w < 2 ^ 32)%Z prioptr -> prioptr <> [] ->
  enqueue_int fifo prioptr x q =
  (let p := i32 (prioptr !!! 0%nat) in
   queue_enqueue fifo (0 <=? p)%Z 32 [(p + 2 ^ 31)%Z] x q).
Proof.
  intros Hw Hne. unfold enqueue_int. destruct prioptr as [|w l]; [done|].
  apply Forall_cons in Hw as [Hw _]. simpl. destruct (iprio_key w Hw) as [-> ->]. done.
Qed.

Lemma words_int8_range en l : (- 2 ^ 63 <= words_int8 en l < 2 ^ 63)%Z.
Proof. destruct en; apply i64_range. Qed.

Lemma enqueue_long_place en fifo prioptr x q :
  enqueue_long en fifo 64 prioptr x q =
  (let p := words_int8 en prioptr in
   queue_enqueue fifo (0 <=? p)%Z 64 (snd (long_key p)) x q).
Proof.
  unfold enqueue_long. destruct (lprio_key en _ (words_int8_range en prioptr)) as [H1 H2].
  simpl in *. rewrite H2. f_equal. exact H1.
Qed.

Lemma enqueue_general_spec en q a x strategy priobits prioptr :
  queue_repr q a -> (q_length q + 1 < 2 ^ 32)%Z -> prio_ok strategy priobits prioptr ->
  size (pq_store (negprioq q)) < 2 * PRIOQ_TABSIZE ->
  size (pq_store (posprioq q)) < 2 * PRIOQ_TABSIZE ->
  match enqueue_place en strategy priobits prioptr with
  | Some pl => exists q', CqsEnqueueGeneral en q x strategy priobits prioptr = Normal q' /\
                 queue_repr q' (aenqueue a x pl)
  | None => CqsEnqueueGeneral en q x strategy priobits prioptr = Aborted
  end.
Proof.
  intros Hr Hlen [Hw Hi Hb Hl] Hsn Hsp. unfold enqueue_place, CqsEnqueueGeneral.
  assert (forall pos fifo bits words, (0 <= bits < 2 ^ 16)%Z -> prio_ints bits <= length words ->
    queue_repr (cqs_count (queue_enqueue fifo pos bits words x q))
      (aenqueue a x (fifo, AtKey pos (bits, take (prio_ints bits) words)))) as Hput.
  { intros pos fifo bits words Hb1 Hb2.
    pose proof (enqueue_prio_repr fifo pos q a bits words x Hr Hlen Hb1 Hb2) as H.
    destruct pos; apply H; done. }
  unfold CQS_QUEUEING_FIFO, CQS_QUEUEING_LIFO, CQS_QUEUEING_IFIFO, CQS_QUEUEING_ILIFO,
    CQS_QUEUEING_BFIFO, CQS_QUEUEING_BLIFO, CQS_QUEUEING_LFIFO, CQS_QUEUEING_LLIFO in *.
  destruct (Z.eqb_spec strategy 2) as [->|];
    [eexists; split; [done|]; by apply (enqueue_zero_repr true)|].
  destruct (Z.eqb_spec strategy 3) as [->|];
    [eexists; split; [done|]; by apply (enqueue_zero_repr false)|].
  destruct (Z.eqb_spec strategy 4) as [->|];
    [rewrite enqueue_int_place by auto with lia; eexists; split; [done|]; by apply Hput|].
  destruct (Z.eqb_spec strategy 5) as [->|];
    [rewrite enqueue_int_place by auto with lia; eexists; split; [done|]; by apply Hput|].
  destruct (Z.eqb_spec strategy 6) as [->|];
    [eexists; split; [done|]; apply Hput; apply Hb; lia|].
  destruct (Z.eqb_spec strategy 7) as [->|];
    [eexists; split; [done|]; apply Hput; apply Hb; lia|].
  destruct (Z.eqb_spec strategy 8) as [->|].
  { rewrite Hl by lia. rewrite enqueue_long_place. eexists; split; [done|].
    by apply (Hput _ _ 64%Z). }
  destruct (Z.eqb_spec strategy 9) as [->|]; [|done].
  rewrite Hl by lia. rewrite enqueue_long_place. eexists; split; [done|].
  by apply (Hput _ _ 64%Z).
Qed.
End facts.
