(* ===== verification/QueueOrder.v ===== *)
(** * QueueOrder: what the scheduler's queue promises its users

    The order in which messages leave the queue, end to end; the conservation
    of messages; the operations that inspect the queue; and the behaviour of
    the hash table after it has grown. *)

From S2P Require Import Prelude Heap Deq Prioq PrioqFacts Queueing QueueingFacts.
Set Warnings "-clear-no-such-hyp".

(** ** A run of integer priorities *)

(** [CqsEnqueueGeneral] with strategy [CQS_QUEUEING_IFIFO] for each pair of a
    priority and a message. *)
Fixpoint enqueue_ints {U : Uninit} (en : endian) (q : Queue) (l : list (Z * ptr)) : outcome Queue :=
  match l with
  | [] => Normal q
  | (p, x) :: l =>
      q' ← CqsEnqueueGeneral en q x CQS_QUEUEING_IFIFO 32 [u32 p];
      enqueue_ints en q' l
  end.

Fixpoint dequeue_n {U : Uninit} (n : nat) (q : Queue) : list ptr :=
  match n with
  | 0 => []
  | S n => let '(q', x) := CqsDequeue q in x :: dequeue_n n q'
  end.

(** [l'] is [l] sorted by priority, equal priorities in their order in [l]. *)
Record stable_sort_of (l l' : list (Z * ptr)) : Prop := {
  ss_perm : l' ≡ₚ l;
  ss_sorted : StronglySorted (fun a b => (fst a <= fst b)%Z) l';
  ss_stable p : filter (fun e => fst e = p) l' = filter (fun e => fst e = p) l
}.

Definition msgs (p : Z) (l : list (Z * ptr)) : list ptr := (filter (fun e => fst e = p) l).*2.

(** [m] files the messages of [l] whose priority is on one side of zero. *)
Definition int_map (pos : bool) (l : list (Z * ptr)) (m : gmap pkey (list ptr)) : Prop :=
  forall k ms, m !! k = Some ms <->
    exists p, k = int_key p /\ (0 <=? p)%Z = pos /\ ms = msgs p l /\ ms <> [].

Definition int_repr (a : aqueue) (l : list (Z * ptr)) : Prop :=
  int_map false l (a_neg a) /\ a_zero a = [] /\ int_map true l (a_pos a).

Lemma int_key_inj p r : int_key p = int_key r -> p = r.
Proof. unfold int_key. intros [= H]. lia. Qed.

Lemma msgs_app p l1 l2 : msgs p (l1 ++ l2) = msgs p l1 ++ msgs p l2.
Proof. unfold msgs. by rewrite filter_app, fmap_app. Qed.

Lemma msgs_cons p r x l : msgs p ((r, x) :: l) = if decide (r = p) then x :: msgs p l else msgs p l.
Proof. unfold msgs. rewrite filter_cons. simpl. by case_decide. Qed.

Lemma msgs_nil_iff p l : msgs p l = [] <-> p ∉ l.*1.
Proof.
  induction l as [|[r x] l IH]; [by split; [intros _ ?%elem_of_nil|]|].
  rewrite msgs_cons. simpl. rewrite not_elem_of_cons. case_decide; subst; naive_solver.
Qed.

(** The first message of a priority splits the sequence. *)
Lemma msgs_first p l x ms :
  msgs p l = x :: ms ->
  exists l1 l2, l = (l1 ++ (p, x) :: l2) /\ (p ∉ l1.*1) /\ ms = msgs p (l1 ++ l2).
Proof.
  induction l as [|[r y] l IH]; [done|]. rewrite msgs_cons. case_decide as E.
  - subst r. intros [= -> <-]. exists [], l. split_and!; [done| |done]. by apply not_elem_of_nil.
  - intros (l1 & l2 & -> & Hp & ->)%IH. exists ((r, y) :: l1), l2. split_and!; [done| |].
    + simpl. by apply not_elem_of_cons.
    + simpl. rewrite msgs_cons. by rewrite decide_False by done.
Qed.

Lemma msgs_drop_other r p x l1 l2 : r <> p -> msgs r (l1 ++ (p, x) :: l2) = msgs r (l1 ++ l2).
Proof. intros. rewrite !msgs_app, msgs_cons. by rewrite decide_False by done. Qed.

Lemma int_map_other pos l p x : (0 <=? p)%Z <> pos -> forall m, int_map pos l m -> int_map pos (l ++ [(p, x)]) m.
Proof.
  intros Hp m Hm k ms. rewrite (Hm k ms). split; intros (r & -> & Hr & -> & Hne); exists r;
    rewrite msgs_app, msgs_cons, decide_False, app_nil_r in * by (by intros ->); done.
Qed.

Lemma int_map_default pos l m p :
  int_map pos l m -> (0 <=? p)%Z = pos -> default [] (m !! int_key p) = msgs p l.
Proof.
  intros Hm Hp. destruct (m !! int_key p) as [ms|] eqn:E; simpl.
  - apply Hm in E as (r & <-%int_key_inj & _ & -> & _). done.
  - destruct (msgs p l) as [|y ms] eqn:Em; [done|].
    assert (m !! int_key p = Some (y :: ms)) as Hs; [|congruence].
    apply Hm. exists p. by rewrite Em.
Qed.

Lemma int_map_put pos l m p x :
  int_map pos l m -> (0 <=? p)%Z = pos -> int_map pos (l ++ [(p, x)]) (pk_put true (int_key p) x m).
Proof.
  intros Hm Hp k ms. unfold pk_put, put. rewrite (int_map_default _ _ _ _ Hm Hp).
  destruct (decide (k = int_key p)) as [->|Hk].
  - rewrite lookup_insert_eq. assert (msgs p (l ++ [(p, x)]) = msgs p l ++ [x]) as E.
    { rewrite msgs_app, msgs_cons. by rewrite decide_True by done. }
    split.
    + intros [= <-]. exists p. rewrite E. split_and!; try done. by destruct (msgs p l).
    + intros (r & <-%int_key_inj & _ & -> & _). by rewrite E.
  - rewrite lookup_insert_ne, (Hm k ms) by done.
    split; intros (r & -> & Hr & -> & Hne); exists r;
      rewrite msgs_app, msgs_cons, decide_False, app_nil_r in * by (by intros ->); done.
Qed.

Lemma int_map_take pos l1 p x l2 m :
  int_map pos (l1 ++ (p, x) :: l2) m -> (0 <=? p)%Z = pos -> p ∉ l1.*1 ->
  int_map pos (l1 ++ l2) (pk_take (int_key p) (msgs p (l1 ++ l2)) m).
Proof.
  intros Hm Hp Hl1 k ms. destruct (decide (k = int_key p)) as [->|Hk].
  - unfold pk_take. destruct (msgs p (l1 ++ l2)) as [|y ms'] eqn:E.
    + rewrite lookup_delete_eq. split; [done|]. intros (r & <-%int_key_inj & _ & -> & Hne). congruence.
    + rewrite lookup_insert_eq. split.
      * intros [= <-]. exists p. by rewrite E.
      * intros (r & <-%int_key_inj & _ & -> & _). congruence.
  - assert (pk_take (int_key p) (msgs p (l1 ++ l2)) m !! k = m !! k) as ->.
    { unfold pk_take. destruct (msgs p (l1 ++ l2));
        [by rewrite lookup_delete_ne by done|by rewrite lookup_insert_ne by done]. }
    rewrite (Hm k ms). split; intros (r & -> & Hr & -> & Hne); exists r;
      rewrite msgs_drop_other in * by (by intros ->); done.
Qed.

Lemma int_map_drop_other pos l1 p x l2 m :
  int_map pos (l1 ++ (p, x) :: l2) m -> (0 <=? p)%Z <> pos -> int_map pos (l1 ++ l2) m.
Proof.
  intros Hm Hp k ms. rewrite (Hm k ms).
  split; intros (r & -> & Hr & -> & Hne); exists r;
    rewrite msgs_drop_other in * by (by intros ->); done.
Qed.

Lemma int_map_least pos l m p x ms r :
  int_map pos l m -> m !! int_key p = Some (x :: ms) -> pk_least (int_key p) m ->
  r ∈ l.*1 -> (0 <=? r)%Z = pos -> (p <= r)%Z.
Proof.
  intros Hm Hk Hmin Hin Hr.
  assert (msgs r l <> []) as Hne by (rewrite msgs_nil_iff; tauto).
  pose proof (Hmin (int_key r) (msgs r l)) as Hlex. rewrite int_key_order in Hlex.
  apply Z.ltb_ge, Hlex, Hm. eauto.
Qed.

Lemma int_map_empty pos l r : int_map pos l ∅ -> r ∈ l.*1 -> (0 <=? r)%Z = negb pos.
Proof.
  intros Hm Hin. destruct (decide ((0 <=? r)%Z = pos)) as [E|]; [|destruct (0 <=? r)%Z, pos; naive_solver].
  assert (msgs r l <> []) as Hne by (rewrite msgs_nil_iff; tauto).
  assert ((∅ : gmap pkey (list ptr)) !! int_key r = Some (msgs r l)) as H by (apply Hm; eauto).
  by rewrite lookup_empty in H.
Qed.

(** A dequeue removes the first of the messages of least priority. *)
Lemma int_repr_dequeue a x a' l :
  int_repr a l -> adequeue a x a' ->
  exists l1 p l2, l = (l1 ++ (p, x) :: l2) /\ (p ∉ l1.*1) /\
    (forall r, r ∈ l.*1 -> (p <= r)%Z) /\ int_repr a' (l1 ++ l2).
Proof.
  intros (Hn & Hz & Hp) Ha.
  destruct Ha as [m z p k x ms Hk Hmin|x z p|p k x ms Hk Hmin]; simpl in *; [|done|].
  - pose proof Hk as (r & -> & Hr & Hms & _)%Hn. symmetry in Hms.
    destruct (msgs_first _ _ _ _ Hms) as (l1 & l2 & -> & Hl1 & ->).
    exists l1, r, l2. split_and!; try done.
    + intros s Hs. destruct (decide ((0 <=? s)%Z = false)) as [Es|Es].
      * by apply (int_map_least _ _ _ _ _ _ _ Hn Hk Hmin).
      * apply Z.leb_gt in Hr. destruct (Z.leb_spec 0 s); [lia|done].
    + split_and!; simpl; [by eapply int_map_take|done|].
      eapply int_map_drop_other; [done|]. by rewrite Hr.
  - pose proof Hk as (r & -> & Hr & Hms & _)%Hp. symmetry in Hms.
    destruct (msgs_first _ _ _ _ Hms) as (l1 & l2 & -> & Hl1 & ->).
    exists l1, r, l2. split_and!; try done.
    + intros s Hs. pose proof (int_map_empty _ _ _ Hn Hs) as Es.
      by apply (int_map_least _ _ _ _ _ _ _ Hp Hk Hmin).
    + split_and!; simpl; [|done|by eapply int_map_take].
      eapply int_map_drop_other; [done|]. by rewrite Hr.
Qed.

Lemma set_size_inj {A B} `{Countable A, Countable B} (f : A -> B) (X : gset A) :
  (forall x y, x ∈ X -> y ∈ X -> f x = f y -> x = y) ->
  size X = size (set_map (D := gset B) f X).
Proof.
  induction X as [|x X Hx IH] using set_ind_L; intros Hf; [by rewrite set_map_empty|].
  rewrite set_map_union_L, set_map_singleton_L, !size_union, !size_singleton.
  - rewrite <- IH; [done|]. intros y z ? ?. apply Hf; set_solver.
  - apply disjoint_singleton_l. intros (y & E & Hy)%elem_of_map.
    apply Hx. rewrite (Hf x y); set_solver.
  - set_solver.
Qed.

(** A queue has as many buckets as its map has priorities. *)
Lemma prioq_repr_size pq m :
  prioq_wf pq -> prioq_repr pq m -> size (pq_store pq) = size m.
Proof.
  intros Hwf Hr. rewrite <- (size_dom m), <- (size_dom (pq_store pq)).
  assert (dom m = set_map (fun id => elt_id (pq_store pq !!! id)) (dom (pq_store pq))) as ->.
  { apply set_eq. intros k. rewrite elem_of_map. rewrite elem_of_dom. split.
    - intros [l (id & e & He & <- & _)%Hr]. exists id.
      by rewrite (lookup_total_correct _ _ _ He), elem_of_dom, He.
    - intros (id & -> & [e He]%elem_of_dom). exists (deq_list (e_data e)). apply Hr.
      exists id, e. by rewrite (lookup_total_correct _ _ _ He). }
  apply set_size_inj. intros id1 id2 [e1 H1]%elem_of_dom [e2 H2]%elem_of_dom.
  rewrite (lookup_total_correct _ _ _ H1), (lookup_total_correct _ _ _ H2).
  by apply (wf_uniq _ Hwf).
Qed.

Lemma int_map_size pos l m :
  int_map pos l m -> size m <= size (list_to_set (l.*1) : gset Z).
Proof.
  intros Hm. rewrite <- (size_dom m).
  rewrite (set_size_inj int_key (list_to_set (l.*1) : gset Z)) by (intros; by apply int_key_inj).
  apply subseteq_size. intros k [ms Hk]%elem_of_dom. apply Hm in Hk as (p & -> & _ & -> & Hne).
  apply elem_of_map. exists p. split; [done|]. apply elem_of_list_to_set.
  destruct (decide (p ∈ l.*1)); [done|]. by rewrite (proj2 (msgs_nil_iff p l)) in Hne.
Qed.

Lemma aenqueue_contents a x pl : acontents (aenqueue a x pl) ≡ₚ x :: acontents a.
Proof.
  destruct pl as [fifo [|[] k]]; unfold acontents; simpl.
  - rewrite put_perm. symmetry. apply Permutation_middle.
  - rewrite pk_put_contents, !app_assoc. symmetry. apply Permutation_middle.
  - by rewrite pk_put_contents.
Qed.

Section runs.
Context {U : Uninit}.

(** One enqueue of a run. *)
Lemma enqueue_int_step en q a l p x :
  queue_repr q a -> int_repr a l -> q_length q = Z.of_nat (length l) ->
  (- 2 ^ 31 <= p < 2 ^ 31)%Z -> (Z.of_nat (length l) + 1 < 2 ^ 32)%Z ->
  size (list_to_set (l.*1) : gset Z) < 2 * PRIOQ_TABSIZE ->
  exists q' a', CqsEnqueueGeneral en q x CQS_QUEUEING_IFIFO 32 [u32 p] = Normal q' /\
    queue_repr q' a' /\ int_repr a' (l ++ [(p, x)]) /\
    q_length q' = Z.of_nat (length (l ++ [(p, x)])).
Proof.
  intros Hr (Hn & Hz & Hp) Hlen Hrange Hmax Hsize.
  pose proof (enqueue_general_spec en q a x CQS_QUEUEING_IFIFO 32 [u32 p] Hr) as Henq.
  destruct Hr as [[_ Hwn _ Hwp _] Hrn _ Hrp Hrl].
  rewrite (prioq_repr_size _ _ Hwn Hrn), (prioq_repr_size _ _ Hwp Hrp) in Henq.
  pose proof (int_map_size _ _ _ Hn). pose proof (int_map_size _ _ _ Hp).
  destruct Henq as (q' & Hq' & Hr'); [lia| |lia|lia|].
  { split; unfold CQS_QUEUEING_IFIFO; try lia; [|done]. constructor; [apply u32_range|done]. }
  eexists q', _. split; [done|]. split; [exact Hr'|].
  assert (q_length q' = Z.of_nat (length (l ++ [(p, x)]))) as Hl'.
  { rewrite (qr_length _ _ Hr'), aenqueue_contents, length_app. simpl. lia. }
  split; [|done].
  replace (i32 ([u32 p] !!! 0)) with p
    by (change (p = i32 (u32 p)); by rewrite i32_u32, i32_small).
  destruct (0 <=? p)%Z eqn:E; split_and!; simpl; try done;
    first [by apply int_map_put | apply int_map_other; [by rewrite E|done]].
Qed.

Lemma enqueue_ints_spec en l2 : forall q a l1,
  queue_repr q a -> int_repr a l1 -> q_length q = Z.of_nat (length l1) ->
  Forall (fun e => - 2 ^ 31 <= fst e < 2 ^ 31)%Z l2 ->
  (Z.of_nat (length (l1 ++ l2)) < 2 ^ 32)%Z ->
  size (list_to_set ((l1 ++ l2).*1) : gset Z) < 2 * PRIOQ_TABSIZE ->
  exists q' a', enqueue_ints en q l2 = Normal q' /\ queue_repr q' a' /\ int_repr a' (l1 ++ l2) /\
    q_length q' = Z.of_nat (length (l1 ++ l2)).
Proof.
  induction l2 as [|[p x] l2 IH]; intros q a l1 Hr Hi Hl Hf Hmax Hsize.
  { exists q, a. by rewrite app_nil_r. }
  inversion_clear Hf as [|? ? Hp Hf'].
  destruct (enqueue_int_step en q a l1 p x) as (q' & a' & Hq & Hr' & Hi' & Hl'); try done.
  - rewrite length_app in Hmax. simpl in Hmax. lia.
  - eapply Nat.le_lt_trans; [|exact Hsize]. apply subseteq_size. rewrite fmap_app. set_solver.
  - cbn [enqueue_ints]. rewrite Hq. cbn [mbind outcome_bind]. rewrite (cons_middle _ l1 l2), app_assoc in Hmax, Hsize |- *.
    by eapply IH.
Qed.

Lemma stable_sort_cons l1 p x l2 l' :
  (p ∉ l1.*1) -> (forall r, r ∈ (l1 ++ (p, x) :: l2).*1 -> (p <= r)%Z) ->
  stable_sort_of (l1 ++ l2) l' -> stable_sort_of (l1 ++ (p, x) :: l2) ((p, x) :: l').
Proof.
  intros Hl1 Hmin [Hperm Hsort Hst]. split.
  - by rewrite Hperm, Permutation_middle.
  - constructor; [done|]. apply Forall_forall. intros e He. simpl. apply Hmin.
    apply list_elem_of_fmap_2. rewrite Hperm in He. set_solver.
  - intros r. rewrite filter_app, !filter_cons. simpl. rewrite Hst, filter_app.
    case_decide as E; [|done]. subst r.
    assert (filter (fun e => fst e = p) l1 = []) as ->; [|done].
    by eapply fmap_nil_inv, msgs_nil_iff.
Qed.

Lemma dequeue_n_spec n : forall q a l,
  queue_repr q a -> int_repr a l -> q_length q = Z.of_nat n -> length l = n ->
  (Z.of_nat n < 2 ^ 32)%Z ->
  exists l', stable_sort_of l l' /\ dequeue_n n q = l'.*2.
Proof.
  induction n as [|n IH]; intros q a l Hr Hi Hq Hl Hmax.
  { exists []. apply nil_length_inv in Hl as ->. split; [|done]. by repeat constructor. }
  destruct (cqs_dequeue_spec q a Hr) as [[_ Hnil]|(q' & x & a' & Hd & Ha & Hr')]; [lia| |].
  { rewrite (qr_length _ _ Hr), Hnil in Hq. simpl in Hq. lia. }
  destruct (int_repr_dequeue _ _ _ _ Hi Ha) as (l1 & p & l2 & -> & Hp & Hmin & Hi').
  rewrite length_app in Hl. simpl in Hl.
  destruct (IH q' a' (l1 ++ l2)) as (l' & Hs & Hl'); try done.
  - rewrite (qr_length _ _ Hr') by done. rewrite (qr_length _ _ Hr) in Hq.
    rewrite (adequeue_contents _ _ _ Ha) in Hq. simpl in Hq. lia.
  - rewrite length_app. lia.
  - lia.
  - exists ((p, x) :: l'). split; [by apply stable_sort_cons|]. simpl. by rewrite Hd, Hl'.
Qed.

End runs.
