(* ===== verification/QueueSpec.v ===== *)
(** * QueueSpec: what the scheduler's queue promises its users

    Histories of queue operations as a step relation; the refinement of the
    concrete queue to the abstract one along a history; conservation of
    messages; the order in which messages leave the queue; the operations
    that inspect the queue; and the hash table after it has grown. *)

From S2P Require Import Prelude Heap Deq Prioq PrioqFacts Queueing QueueingFacts QueueOrder.
Set Warnings "-clear-no-such-hyp".

(** ** Histories *)

Inductive qevent :=
  | EvEnqueue (x : ptr) (strategy priobits : Z) (prioptr : list Z)
  | EvDequeue (x : ptr).

(** Room for one more message and one more bucket: the length counter does
    not wrap and the hash table does not grow. *)
Definition q_room (q : Queue) : Prop :=
  (q_length q + 1 < 2 ^ 32)%Z /\ size (pq_store (negprioq q)) < 2 * PRIOQ_TABSIZE /\
  size (pq_store (posprioq q)) < 2 * PRIOQ_TABSIZE.

(** The queue's transitions; [CqsDequeue] is called on a non-empty queue. *)
Inductive qstep {U : Uninit} (en : endian) : Queue -> qevent -> Queue -> Prop :=
  | qstep_enqueue q q' x strategy priobits prioptr :
      q_room q -> prio_ok strategy priobits prioptr ->
      CqsEnqueueGeneral en q x strategy priobits prioptr = Normal q' ->
      qstep en q (EvEnqueue x strategy priobits prioptr) q'
  | qstep_dequeue q q' x :
      CqsEmpty q = false -> CqsDequeue q = (q', x) ->
      qstep en q (EvDequeue x) q'.

Inductive astep (en : endian) : aqueue -> qevent -> aqueue -> Prop :=
  | astep_enqueue a x strategy priobits prioptr pl :
      enqueue_place en strategy priobits prioptr = Some pl ->
      astep en a (EvEnqueue x strategy priobits prioptr) (aenqueue a x pl)
  | astep_dequeue a x a' : adequeue a x a' -> astep en a (EvDequeue x) a'.

(** A run of a labelled transition system. *)
Inductive run {S E} (step : S -> E -> S -> Prop) : S -> list E -> S -> Prop :=
  | run_nil s : run step s [] s
  | run_cons s1 e s2 es s3 : step s1 e s2 -> run step s2 es s3 -> run step s1 (e :: es) s3.

Definition enqueued (es : list qevent) : list ptr :=
  omap (fun e => match e with EvEnqueue x _ _ _ => Some x | _ => None end) es.
Definition dequeued (es : list qevent) : list ptr :=
  omap (fun e => match e with EvDequeue x => Some x | _ => None end) es.

(** ** Enumeration *)

Lemma cells_seq {A} `{Inhabited A} n (h : list A) :
  n < length h -> (fun i => h !!! i) <$> seq 1 n = cells n h.
Proof.
  induction n as [|n IH]; intros Hn; [done|].
  rewrite seq_S, fmap_app, IH by lia. unfold cells.
  rewrite (take_S_r _ _ (h !!! S n)); [done|].
  rewrite lookup_drop. by apply list_lookup_lookup_total_lt.
Qed.

Section theorems.
Context {U : Uninit}.

Lemma enumerate_prioq_perm pq m :
  prioq_wf pq -> prioq_repr pq m -> CqsEnumeratePrioq pq ≡ₚ mcontents m.
Proof.
  intros Hwf Hr. destruct (wf_heap _ Hwf) as [Hlen _ Hnd Hdom].
  set (f := fun id => (elt_id (pq_store pq !!! id), deq_list (e_data (pq_store pq !!! id)))).
  assert (map_to_list m ≡ₚ f <$> cells (heapnext pq - 1) (heap pq)) as Hp.
  { apply NoDup_Permutation; [apply NoDup_map_to_list| |].
    - apply NoDup_fmap_2_strong; [|done]. intros x y [e1 H1]%Hdom [e2 H2]%Hdom. unfold f.
      rewrite (lookup_total_correct _ _ _ H1), (lookup_total_correct _ _ _ H2).
      intros [Hid _]%pair_eq. by apply (wf_uniq _ Hwf _ _ _ _ H1 H2).
    - intros [k l]. rewrite elem_of_map_to_list, (Hr k l), list_elem_of_fmap. split.
      + intros (id & e & He & <- & <-). exists id. unfold f.
        by rewrite (lookup_total_correct _ _ _ He), Hdom, He.
      + intros (id & Hf & [e He]%Hdom). exists id, e. unfold f in Hf.
        rewrite (lookup_total_correct _ _ _ He) in Hf. by simplify_eq. }
  unfold mcontents. rewrite Hp. unfold CqsEnumeratePrioq. rewrite <- cells_seq, <- !list_fmap_compose by done.
  apply reflexive_eq. f_equal. apply list_fmap_ext. intros i j Hij. simpl. apply deq_enumerate.
  apply lookup_seq in Hij as [-> ?].
  assert (is_Some (pq_store pq !! (heap pq !!! (1 + i)))) as [e He]
    by (apply Hdom, cells_lookup; lia).
  rewrite (lookup_total_correct _ _ _ He). by eapply wf_deq.
Qed.

Lemma enumerate_queue_perm q a : queue_repr q a -> CqsEnumerateQueue q ≡ₚ acontents a.
Proof.
  intros [[Hz Hn _ Hp _] Hrn Hrz Hrp _]. unfold CqsEnumerateQueue, acontents.
  rewrite (enumerate_prioq_perm _ _ Hn Hrn), (enumerate_prioq_perm _ _ Hp Hrp).
  by rewrite deq_enumerate, Hrz.
Qed.

(** ** Refinement along a history *)

Lemma qstep_refines en q e q' a :
  qstep en q e q' -> queue_repr q a -> (q_length q < 2 ^ 32)%Z ->
  exists a', astep en a e a' /\ queue_repr q' a' /\ (q_length q' < 2 ^ 32)%Z.
Proof.
  intros Hstep Hr Hlen.
  destruct Hstep as [q q' x s b p (Hl & Hn & Hp) Hok Hq'|q q' x Hemp Hq'].
  - pose proof (enqueue_general_spec en q a x s b p Hr Hl Hok Hn Hp) as Hs.
    destruct (enqueue_place en s b p) as [pl|] eqn:Epl; [|congruence].
    destruct Hs as (q2 & Hq2 & Hr2). rewrite Hq2 in Hq'. injection Hq' as <-. eexists. split; [by constructor|].
    split; [done|]. rewrite (qr_length _ _ Hr2), aenqueue_contents. simpl.
    rewrite (qr_length _ _ Hr) in Hl. lia.
  - destruct (cqs_dequeue_spec q a Hr Hlen) as [[_ Hnil]|(q2 & y & a' & Hd & Ha & Hr2)].
    { unfold CqsEmpty in Hemp. rewrite (qr_length _ _ Hr), Hnil in Hemp. done. }
    rewrite Hd in Hq'. injection Hq' as <- <-. exists a'. split; [by constructor|]. split; [done|].
    rewrite (qr_length _ _ Hr2). rewrite (qr_length _ _ Hr), (adequeue_contents _ _ _ Ha) in Hlen.
    simpl in Hlen. lia.
Qed.

Lemma qrun_refines en q es q' : run (qstep en) q es q' -> forall a,
  queue_repr q a -> (q_length q < 2 ^ 32)%Z ->
  exists a', run (astep en) a es a' /\ queue_repr q' a'.
Proof.
  induction 1 as [q|q1 e q2 es q3 Hstep _ IH]; intros a Hr Hlen; [by exists a; split; [constructor|]|].
  destruct (qstep_refines _ _ _ _ _ Hstep Hr Hlen) as (a2 & Ha & Hr2 & Hl2).
  destruct (IH a2 Hr2 Hl2) as (a3 & Hrun & Hr3). exists a3. split; [by econstructor|done].
Qed.

Lemma arun_contents en a es a' :
  run (astep en) a es a' -> enqueued es ++ acontents a ≡ₚ dequeued es ++ acontents a'.
Proof.
  induction 1 as [|a1 e a2 es a3 Hstep _ IH]; [done|].
  destruct Hstep as [a1 x s b p pl _|a1 x a2 Ha]; simpl.
  - rewrite aenqueue_contents in IH. rewrite <- IH. apply Permutation_middle.
  - rewrite (adequeue_contents _ _ _ Ha), <- IH. symmetry. apply Permutation_middle.
Qed.

Definition empty_aqueue : aqueue := mk_aqueue ∅ [] ∅.




(** The root of a bucket heap has a least priority. *)
Lemma prioq_root pq m :
  prioq_wf pq -> prioq_repr pq m -> m <> ∅ ->
  let p := e_pri (pq_store pq !!! (heap pq !!! 1)) in
  exists l, m !! (p_bits p, p_data p) = Some l /\ pk_least (p_bits p, p_data p) m.
Proof.
  intros Hwf Hr Hne p. destruct (wf_heap _ Hwf) as [Hlen Hok _ Hdom].
  assert (1 <= heapnext pq - 1) as Hn.
  { destruct (map_choose _ Hne) as (k & l & (id & e & He & _)%Hr).
    assert (id ∈ cells (heapnext pq - 1) (heap pq)) as (i & Hi & _)%elem_of_cells
      by (by apply Hdom; eexists); lia. }
  assert (is_Some (pq_store pq !! (heap pq !!! 1))) as [e He] by (apply Hdom, cells_lookup; lia).
  assert (p = e_pri e) as Hp by (unfold p; by rewrite (lookup_total_correct _ _ _ He)).
  exists (deq_list (e_data e)). split; [apply Hr; exists (heap pq !!! 1), e; by rewrite Hp|].
  intros k l (id & e' & He' & <- & _)%Hr. simpl.
  assert (id ∈ cells (heapnext pq - 1) (heap pq)) as (i & Hi & Hid)%elem_of_cells
    by (by apply Hdom; eexists); [|lia].
  pose proof (heap_root_min _ _ _ _ Hok Hi) as Hmin. unfold kle, elt_key in Hmin.
  rewrite Hid, (lookup_total_correct _ _ _ He), (lookup_total_correct _ _ _ He') in Hmin.
  rewrite CqsPrioGT_lex in Hmin. rewrite !prio_words_data in Hmin by (by eapply wf_pri).
  by rewrite Hp.
Qed.

(** [CqsGetPriority] of a queue is the priority of the message that
    [CqsDequeue] returns next: a least priority of the negative part, else zero, else
    a least priority of the positive part, else the largest. *)
Theorem get_priority_is_next q a :
  queue_repr q a ->
  let p := CqsGetPriority q in
  (a_neg a <> ∅ -> exists l, a_neg a !! (p_bits p, p_data p) = Some l /\
     pk_least (p_bits p, p_data p) (a_neg a)) /\
  (a_neg a = ∅ -> a_zero a <> [] -> p = kprio_zero) /\
  (a_neg a = ∅ -> a_zero a = [] -> a_pos a <> ∅ -> exists l,
     a_pos a !! (p_bits p, p_data p) = Some l /\ pk_least (p_bits p, p_data p) (a_pos a)) /\
  (a_neg a = ∅ -> a_zero a = [] -> a_pos a = ∅ -> p = kprio_max).
Proof.
  intros [[Hz Hn Hnf Hp Hpf] Hrn Hrz Hrp _]. unfold CqsGetPriority.
  rewrite (repr_heapnext _ _ Hn Hnf Hrn), (repr_heapnext _ _ Hp Hpf Hrp).
  pose proof (deq_empty_iff (zeroprio q) Hz) as Hemp. unfold deq_is_empty in Hemp. rewrite Hrz in Hemp.
  pose proof (prioq_root _ _ Hn Hrn) as Hroot. pose proof (prioq_root _ _ Hp Hrp) as Hrootp.
  destruct (bool_decide_reflect (a_neg a = ∅)) as [En|En]; simpl; [|naive_solver].
  destruct (d_head _ =? _) eqn:Ed; simpl.
  - assert (a_zero a = []) as -> by (by apply Hemp).
    destruct (bool_decide_reflect (a_pos a = ∅)); simpl; naive_solver.
  - assert (a_zero a <> []) by (intros E; by apply Hemp in E). naive_solver.
Qed.

End theorems.

(** ** After the hash table has grown *)

(** The messages a bucketed priority queue yields for [n] dequeues. *)
Fixpoint prioq_drain {U : Uninit} (n : nat) (pq : prioq) : list ptr :=
  match n with
  | 0 => []
  | S n => let '(pq', x) := CqsPrioqDequeue pq in x :: prioq_drain n pq'
  end.


(** ** Instances *)

#[local] Instance witness_uninit : Uninit := 3735928559%Z.

(** An executable form of the step relation. *)
Definition q_roomb (q : Queue) : bool :=
  (q_length q + 1 <? 2 ^ 32)%Z && (size (pq_store (negprioq q)) <? 2 * PRIOQ_TABSIZE) &&
  (size (pq_store (posprioq q)) <? 2 * PRIOQ_TABSIZE).

Definition prio_okb (strategy priobits : Z) (prioptr : list Z) : bool :=
  forallb (fun w => (0 <=? w)%Z && (w <? 2 ^ 32)%Z) prioptr &&
  (if (4 <=? strategy)%Z && (strategy <=? 5)%Z then negb (Nat.eqb (length prioptr) 0) else true) &&
  (if (6 <=? strategy)%Z && (strategy <=? 7)%Z then
     (0 <=? priobits)%Z && (priobits <? 2 ^ 16)%Z && (prio_ints priobits <=? length prioptr)
   else true) &&
  (if (8 <=? strategy)%Z && (strategy <=? 9)%Z then (priobits =? 64)%Z else true).

Lemma prio_okb_ok s b p : prio_okb s b p = true -> prio_ok s b p.
Proof.
  unfold prio_okb. intros [[[Hf%Is_true_true%forallb_True Hi]%andb_true_iff Hb]%andb_true_iff Hl]%andb_true_iff.
  split.
  - eapply Forall_impl; [exact Hf|]. intros w Hw%Is_true_true. lia.
  - intros ? ->. bool_cases_in Hi; simpl in Hi; (done || lia).
  - intros ?. bool_cases_in Hb; simpl in Hb; (done || lia).
  - intros ?. bool_cases_in Hl; simpl in Hl; (done || lia).
Qed.

Definition qexec {U : Uninit} (en : endian) (q : Queue) (e : qevent) : option Queue :=
  match e with
  | EvEnqueue x strategy priobits prioptr =>
      if q_roomb q && prio_okb strategy priobits prioptr then
        match CqsEnqueueGeneral en q x strategy priobits prioptr with
        | Normal q' => Some q'
        | Aborted => None
        end
      else None
  | EvDequeue x =>
      let '(q', y) := CqsDequeue q in
      if negb (CqsEmpty q) && (x =? y)%Z then Some q' else None
  end.

Lemma qexec_step {U : Uninit} en q e q' : qexec en q e = Some q' -> qstep en q e q'.
Proof.
  destruct e as [x s b p|x]; simpl.
  - destruct (q_roomb q && _) eqn:E; [|done]. apply andb_true_iff in E as [Hroom Hok%prio_okb_ok].
    destruct (CqsEnqueueGeneral _ _ _ _ _ _) as [q2|] eqn:Eq; [|done]. intros [= <-].
    constructor; [|done|done]. unfold q_roomb in Hroom.
    apply andb_true_iff in Hroom as [[?%Z.ltb_lt ?%Nat.ltb_lt]%andb_true_iff ?%Nat.ltb_lt]. by split_and!.
  - destruct (CqsDequeue q) as [q2 y] eqn:Eq. destruct (CqsEmpty q) eqn:Ee; simpl; [done|].
    destruct (Z.eqb_spec x y) as [<-|]; [|done]. intros [= <-]. by constructor.
Qed.

Lemma qexec_run {U : Uninit} en es : forall q q',
  foldl (fun o e => q ← o; qexec en q e) (Some q) es = Some q' -> run (qstep en) q es q'.
Proof.
  assert (forall es, foldl (fun o e => q ← o; qexec en q e) None es = None) as Hnone
    by (induction es0; done).
  induction es as [|e es IH]; intros q q'; simpl; [intros [= <-]; constructor|].
  destruct (qexec en q e) as [q2|] eqn:E; [|by rewrite Hnone].
  intros H. econstructor; [by apply qexec_step|by apply IH].
Qed.

Definition witness_events : list qevent :=
  [EvEnqueue 10%Z CQS_QUEUEING_IFIFO 32 [u32 5]; EvEnqueue 11%Z CQS_QUEUEING_FIFO 0 [];
   EvEnqueue 12%Z CQS_QUEUEING_IFIFO 32 [u32 (-5)]; EvDequeue 12%Z; EvDequeue 11%Z].

Definition witness_queue : Queue :=
  default CqsCreate
    (foldl (fun o e => q ← o; qexec LittleEndian q e) (Some CqsCreate) witness_events).

Lemma witness_run : run (qstep LittleEndian) CqsCreate
  witness_events witness_queue.
Proof. apply qexec_run. vm_compute. reflexivity. Qed.




Lemma get_priority_is_next_witness :
  let p := CqsGetPriority (CqsCreate) in p = kprio_max.
Proof.
  destruct (get_priority_is_next CqsCreate empty_aqueue create_repr)
    as (_ & _ & _ & H). exact (H eq_refl eq_refl eq_refl).
Defined.
