(* ===== verification/Msgmgr.v ===== *)
(** * Msgmgr: the tagged message tables of msgmgr.c

    [CmmTable] of src/conv-core/msgmgr.c: a singly linked list of entries, each
    a message with integer tags, kept with a pointer [lasth] to its last link.
    Entries are looked up by tags, where a tag may be a wild card on either
    side.  The list lives in a store of allocated entries, so that [lasth] and
    the in-place removal are the pointer operations of the source. *)

From S2P Require Import Prelude.
Set Warnings "-clear-no-such-hyp".

Record CmmEntry := mk_entry {
  ce_next : option nat;
  ce_msg : ptr;
  ce_ntags : nat;
  ce_tags : list Z
}.

(** A [CmmEntry *]: the [first] field of the table or the [next] field of an
    entry. *)
Inductive link := LFirst | LNext (e : nat).

Record CmmTable := mk_table {
  t_first : option nat;
  t_lasth : link;
  t_store : gmap nat CmmEntry;
  t_brk : nat
}.

Definition CmmWildCard : Z := -1.

#[global] Instance entry_inhabited : Inhabited CmmEntry := populate (mk_entry None NULL 0 []).

Definition set_next (n : option nat) (e : CmmEntry) : CmmEntry :=
  mk_entry n (ce_msg e) (ce_ntags e) (ce_tags e).

(** [*h = v]. *)
Definition store_link (h : link) (v : option nat) (t : CmmTable) : CmmTable :=
  match h with
  | LFirst => mk_table v (t_lasth t) (t_store t) (t_brk t)
  | LNext id => mk_table (t_first t) (t_lasth t) (alter (set_next v) id (t_store t)) (t_brk t)
  end.

Definition set_lasth (h : link) (t : CmmTable) : CmmTable :=
  mk_table (t_first t) h (t_store t) (t_brk t).

Definition free_entry (id : nat) (t : CmmTable) : CmmTable :=
  mk_table (t_first t) (t_lasth t) (delete id (t_store t)) (t_brk t).

Section ops.
Context {U : Uninit}.

Definition CmmNew : CmmTable := mk_table None LFirst ∅ 1.

(** Fails on a table that still has entries. *)
Definition CmmFree (t : option CmmTable) : outcome unit :=
  match t with
  | None => Normal tt
  | Some t => match t_first t with Some _ => Aborted | None => Normal tt end
  end.

(** Frees every entry; the table's own fields are left as they are. *)
Fixpoint free_from (fuel : nat) (cur : option nat) (t : CmmTable) : CmmTable :=
  match fuel, cur with
  | S fuel, Some id => free_from fuel (ce_next (t_store t !!! id)) (free_entry id t)
  | _, _ => t
  end.

Definition CmmFreeAll (t : option CmmTable) : option CmmTable :=
  match t with
  | None => None
  | Some t => Some (free_from (size (t_store t)) (t_first t) t)
  end.

Definition CmmPut (t : CmmTable) (ntags : nat) (tags : list Z) (msg : ptr) : CmmTable :=
  let e := t_brk t in
  let t := mk_table (t_first t) (t_lasth t)
             (<[e := mk_entry None msg ntags (take ntags tags)]> (t_store t)) (S e) in
  let t := store_link (t_lasth t) (Some e) t in
  set_lasth (LNext e) t.

(** A read past the end of a tag array yields an arbitrary word. *)
Fixpoint tags_match (ntags : nat) (tags1 tags2 : list Z) : bool :=
  match ntags with
  | 0 => true
  | S ntags =>
      let tag1 := hd uninit_word tags1 in
      let tag2 := hd uninit_word tags2 in
      if (tag1 =? tag2)%Z || (tag1 =? CmmWildCard)%Z || (tag2 =? CmmWildCard)%Z
      then tags_match ntags (tl tags1) (tl tags2)
      else false
  end.

Definition CmmTagsMatch (ntags1 : nat) (tags1 : list Z) (ntags2 : nat) (tags2 : list Z) : bool :=
  if negb (ntags1 =? ntags2) then false else tags_match ntags1 tags1 tags2.

(** The loop of [CmmFind]: the link to the first matching entry and its
    address. *)
Fixpoint find_from (fuel : nat) (st : gmap nat CmmEntry) (enth : link) (cur : option nat)
    (ntags : nat) (tags : list Z) : option (link * nat) :=
  match fuel, cur with
  | S fuel, Some id =>
      let ent := st !!! id in
      if CmmTagsMatch ntags tags (ce_ntags ent) (ce_tags ent) then Some (enth, id)
      else find_from fuel st (LNext id) (ce_next ent) ntags tags
  | _, _ => None
  end.

(** [rtags] is the caller's buffer, or [None] for a null pointer. *)
Definition CmmFind (t : option CmmTable) (ntags : nat) (tags : list Z) (rtags : option (list Z))
    (del : bool) : option CmmTable * option (list Z) * ptr :=
  match t with
  | None => (None, rtags, NULL)
  | Some t =>
      match find_from (size (t_store t)) (t_store t) LFirst (t_first t) ntags tags with
      | None => (Some t, rtags, NULL)
      | Some (enth, id) =>
          let ent := t_store t !!! id in
          let rtags := (fun r => take ntags (ce_tags ent) ++ drop ntags r) <$> rtags in
          let msg := ce_msg ent in
          let t := if del then
                     let next := ce_next ent in
                     let t := store_link enth next t in
                     let t := match next with None => set_lasth enth t | Some _ => t end in
                     free_entry id t
                   else t in
          (Some t, rtags, msg)
      end
  end.

Fixpoint last_tag_from (fuel : nat) (st : gmap nat CmmEntry) (cur : option nat)
    (ntags : nat) (tags : list Z) : Z :=
  match fuel, cur with
  | S fuel, Some id =>
      let ent := st !!! id in
      if CmmTagsMatch ntags tags ntags (ce_tags ent)
      then nth (ce_ntags ent - 1) (ce_tags ent) uninit_word
      else last_tag_from fuel st (ce_next ent) ntags tags
  | _, _ => (-1)%Z
  end.

Definition CmmGetLastTag (t : CmmTable) (ntags : nat) (tags : list Z) : Z :=
  last_tag_from (size (t_store t)) (t_store t) (t_first t) ntags tags.

Fixpoint entries_from (fuel : nat) (st : gmap nat CmmEntry) (cur : option nat) : nat :=
  match fuel, cur with
  | S fuel, Some id => S (entries_from fuel st (ce_next (st !!! id)))
  | _, _ => 0
  end.

Definition CmmEntries (t : CmmTable) : nat :=
  entries_from (size (t_store t)) (t_store t) (t_first t).

End ops.

(** ** Packing and unpacking *)

(** What [CmmPup] uses of a [pup_er] and of the caller's [msgpup]: integers and
    messages are written to and read from a stream. *)
Class Pup (S : Type) := {
  put_int : Z -> S -> S;
  get_int : S -> option (Z * S);
  put_msg : ptr -> S -> S;
  get_msg : S -> option (ptr * S)
}.

(** The stream is read in the order in which it was written. *)
Class PupLaws (S : Type) `{Pup S} := {
  pup_items : S -> list (Z + ptr);
  put_int_items z s : pup_items (put_int z s) = pup_items s ++ [inl z];
  put_msg_items m s : pup_items (put_msg m s) = pup_items s ++ [inr m];
  get_int_items z s r : pup_items s = inl z :: r ->
    exists s', get_int s = Some (z, s') /\ pup_items s' = r;
  get_msg_items m s r : pup_items s = inr m :: r ->
    exists s', get_msg s = Some (m, s') /\ pup_items s' = r
}.

Section pup.
Context {U : Uninit} {S : Type} `{Pup S}.

(** [pup_ints]. *)
Definition put_ints (l : list Z) (p : S) : S := fold_left (fun p z => put_int z p) l p.

Fixpoint get_ints (n : nat) (p : S) : option (list Z * S) :=
  match n with
  | 0 => Some ([], p)
  | Datatypes.S n =>
      '(z, p) ← get_int p;
      '(l, p) ← get_ints n p;
      Some (z :: l, p)
  end.

(** The loop over the entries when not unpacking. *)
Fixpoint pack_from (fuel : nat) (deleting : bool) (cur : option nat) (t : CmmTable) (p : S) : CmmTable * S :=
  match fuel, cur with
  | Datatypes.S fuel, Some id =>
      let e := t_store t !!! id in
      let p := put_int (Z.of_nat (ce_ntags e)) p in
      let p := put_ints (take (ce_ntags e) (ce_tags e)) p in
      let p := put_msg (ce_msg e) p in
      pack_from fuel deleting (ce_next e) (if deleting then free_entry id t else t) p
  | _, _ => (t, p)
  end.

Definition CmmPup_pack (deleting : bool) (p : S) (t : CmmTable) : outcome (option CmmTable * S) :=
  let nentries := CmmEntries t in
  let p := put_int (Z.of_nat nentries) p in
  let '(t, p) := pack_from (size (t_store t)) deleting (t_first t) t p in
  if deleting then
    let t := store_link LFirst None t in
    _ ← CmmFree (Some t);
    Normal (None, p)
  else Normal (Some t, p).

(** The loop that reads [n] entries back. *)
Fixpoint unpack_entries (n : nat) (t : CmmTable) (p : S) : option (CmmTable * S) :=
  match n with
  | 0 => Some (t, p)
  | Datatypes.S n =>
      '(ntags, p) ← get_int p;
      '(tags, p) ← get_ints (Z.to_nat ntags) p;
      '(msg, p) ← get_msg p;
      unpack_entries n (CmmPut t (Z.to_nat ntags) tags msg) p
  end.

Definition CmmPup_unpack (p : S) : option (CmmTable * S) :=
  let t := CmmNew in
  '(nentries, p) ← get_int p;
  unpack_entries (Z.to_nat nentries) t p.

End pup.

#[global] Instance list_pup : Pup (list (Z + ptr)) := {
  put_int z s := s ++ [inl z];
  get_int s := match s with inl z :: s => Some (z, s) | _ => None end;
  put_msg m s := s ++ [inr m];
  get_msg s := match s with inr m :: s => Some (m, s) | _ => None end
}.

#[global] Instance list_pup_laws : PupLaws (list (Z + ptr)).
Proof. refine {| pup_items s := s |}; simpl; naive_solver. Defined.

(** ** Representation *)

Abbreviation item := (list Z * ptr)%type.

(** The entries reachable from [s]: their addresses, tags and messages. *)
Fixpoint linked (st : gmap nat CmmEntry) (s : option nat) (l : list (nat * item)) : Prop :=
  match l with
  | [] => s = None
  | (id, (tags, msg)) :: l =>
      s = Some id /\ exists n, st !! id = Some (mk_entry n msg (length tags) tags) /\ linked st n l
  end.

Definition last_link (h : link) (l : list (nat * item)) : link :=
  match last l with Some (id, _) => LNext id | None => h end.

Record table_wf (t : CmmTable) (l : list (nat * item)) : Prop := {
  tw_linked : linked (t_store t) (t_first t) l;
  tw_nodup : NoDup l.*1;
  tw_dom id : is_Some (t_store t !! id) <-> id ∈ l.*1;
  tw_last : t_lasth t = last_link LFirst l;
  tw_brk id : t_brk t <= id -> t_store t !! id = None
}.

(** [t] holds the items of [l], oldest first. *)
Definition table_repr (t : CmmTable) (l : list item) : Prop :=
  exists ids, table_wf t ids /\ ids.*2 = l.

Lemma linked_frame st st' s l :
  (forall id, id ∈ l.*1 -> st' !! id = st !! id) -> linked st s l -> linked st' s l.
Proof.
  revert s. induction l as [|[id [tags msg]] l IH]; intros s Hst; simpl; [done|].
  intros (-> & n & Hid & Hl). split; [done|]. exists n. simpl in Hst. split.
  - rewrite Hst; [done|by left].
  - apply IH; [|done]. intros. apply Hst. by right.
Qed.

Lemma linked_tail st s l1 l2 : linked st s (l1 ++ l2) -> exists m, linked st m l2.
Proof.
  revert s. induction l1 as [|[id [tags msg]] l1 IH]; intros s; simpl; [by exists s|].
  intros (_ & n & _ & Hl). by eapply IH.
Qed.

Lemma linked_dom st s l id : linked st s l -> id ∈ l.*1 -> is_Some (st !! id).
Proof.
  revert s. induction l as [|[id' [tags msg]] l IH]; intros s; simpl; [by intros _ ?%not_elem_of_nil|].
  intros (_ & n & Hid & Hl) [->|Hin]%elem_of_cons; [by eexists|by eapply IH].
Qed.

(** The store in which link [h] points to [v]. *)
Definition relinked (h : link) (v : option nat) (st : gmap nat CmmEntry) : gmap nat CmmEntry :=
  match h with LFirst => st | LNext id => alter (set_next v) id st end.

Lemma store_link_store h v t : t_store (store_link h v t) = relinked h v (t_store t).
Proof. by destruct h. Qed.

Lemma last_link_cons h id it l : last_link h ((id, it) :: l) = last_link (LNext id) l.
Proof.
  unfold last_link. destruct l as [|y l]; [done|]. rewrite last_cons_cons.
  destruct (last (y :: l)) as [[]|] eqn:E; [done|]. by apply last_None in E.
Qed.

Lemma last_link_snoc h l id it : last_link h (l ++ [(id, it)]) = LNext id.
Proof. unfold last_link. by rewrite last_snoc. Qed.

Lemma last_link_drop h l1 x l2 : l2 <> [] -> last_link h (l1 ++ x :: l2) = last_link h (l1 ++ l2).
Proof.
  destruct l2 as [|[y iy] l2 _] using rev_ind; [done|]. intros _.
  by rewrite app_comm_cons, !app_assoc, !last_link_snoc.
Qed.

Lemma last_link_in l id : last_link LFirst l = LNext id -> id ∈ l.*1.
Proof.
  destruct l as [|[x it] l _] using rev_ind; [done|]. rewrite last_link_snoc. intros [= ->].
  rewrite fmap_app, elem_of_app. right. simpl. by left.
Qed.

(** Replacing everything after [l1] by the entries [l2'] that start at [v]. *)
Lemma linked_relink st st' s l1 l2 v l2' :
  linked st s (l1 ++ l2) -> NoDup (l1.*1) ->
  (forall id, id ∈ l1.*1 -> st' !! id = relinked (last_link LFirst l1) v st !! id) ->
  linked st' v l2' ->
  linked st' (match l1 with [] => v | _ => s end) (l1 ++ l2').
Proof.
  revert s. induction l1 as [|[id [tags msg]] l1 IH]; intros s; simpl; [done|].
  intros (-> & n & Hid & Hl) [Hni Hnd]%NoDup_cons Hst' Hv. split; [done|].
  rewrite last_link_cons in Hst'. destruct l1 as [|[id1 it1] l1].
  - exists v. split; [|done]. rewrite Hst' by (by left). simpl. by rewrite lookup_alter_eq, Hid.
  - exists n. rewrite last_link_cons in Hst'. split.
    + rewrite Hst' by (by left). destruct (last_link (LNext id1) l1) as [|y] eqn:E; [done|]. simpl.
      rewrite lookup_alter_ne; [done|]. intros ->. apply Hni, (last_link_in ((id1, it1) :: l1)).
      by rewrite last_link_cons.
    + apply IH; try done. intros x Hx. rewrite last_link_cons. apply Hst'. by right.
Qed.

Lemma last_link_first h l : l <> [] -> last_link h l = last_link LFirst l.
Proof. destruct l as [|[id it] l]; [done|]. by rewrite !last_link_cons. Qed.

Lemma store_link_first l1 v t :
  t_first (store_link (last_link LFirst l1) v t) =
  match l1 with [] => v | _ => t_first t end.
Proof.
  destruct l1 as [|[id it] l1]; [done|]. rewrite last_link_cons.
  destruct (last_link (LNext id) l1) eqn:E; [|done].
  unfold last_link in E. by destruct (last l1) as [[]|].
Qed.

Lemma relinked_lookup_other h v st id : h <> LNext id -> relinked h v st !! id = st !! id.
Proof. destruct h as [|x]; simpl; [done|]. intros. apply lookup_alter_ne. naive_solver. Qed.

Lemma relinked_is_some h v st id : is_Some (relinked h v st !! id) <-> is_Some (st !! id).
Proof. destruct h; simpl; [done|]. apply lookup_alter_is_Some. Qed.

Lemma table_size t l : table_wf t l -> size (t_store t) = length l.
Proof.
  intros [_ Hnd Hd _ _]. rewrite <- (length_fmap fst l), <- size_dom.
  rewrite <- (size_list_to_set (C := gset nat)) by done. f_equal. apply set_eq.
  intros x. by rewrite elem_of_dom, elem_of_list_to_set.
Qed.

(** ** Operations *)

Section facts.
Context {U : Uninit}.

Lemma new_wf : table_wf CmmNew [].
Proof. split; simpl; try done; [constructor|]. intros id. rewrite lookup_empty. split; [by intros []|by intros ?%not_elem_of_nil]. Qed.

Lemma put_wf t l tags msg :
  table_wf t l -> table_wf (CmmPut t (length tags) tags msg) (l ++ [(t_brk t, (tags, msg))]).
Proof.
  intros [Hl Hnd Hd Hlast Hb]. unfold CmmPut. rewrite firstn_all.
  set (e := t_brk t). set (t1 := mk_table _ _ (<[e := _]> _) _).
  assert (e ∉ l.*1) as He by (rewrite <- Hd, Hb by done; by intros []).
  split.
  - change (t_store (set_lasth _ ?x)) with (t_store x). change (t_first (set_lasth _ ?x)) with (t_first x).
    change (t_lasth t1) with (t_lasth t). rewrite Hlast, store_link_first, store_link_store.
    apply (linked_relink (<[e := mk_entry None msg (length tags) tags]> (t_store t)) _ _ _ []); try done.
    + rewrite app_nil_r. eapply linked_frame; [|done]. intros id Hid. apply lookup_insert_ne. by intros ->.
    + simpl. split; [done|]. exists None. split; [|done].
      rewrite relinked_lookup_other; [by apply lookup_insert_eq|]. by intros ?%last_link_in.
  - rewrite fmap_app. apply NoDup_app. split_and!; [done| |apply NoDup_singleton].
    intros x Hx ->%list_elem_of_singleton. done.
  - intros id. simpl. rewrite store_link_store, relinked_is_some. simpl.
    rewrite fmap_app, elem_of_app, <- Hd. simpl. rewrite list_elem_of_singleton.
    destruct (decide (id = e)) as [->|]; [rewrite lookup_insert_eq; naive_solver|].
    rewrite lookup_insert_ne by done. naive_solver.
  - simpl. by rewrite last_link_snoc.
  - simpl. intros id Hid. rewrite store_link_store. apply eq_None_not_Some.
    rewrite relinked_is_some. simpl. assert (S e <= id) by (by destruct (t_lasth t)).
    rewrite lookup_insert_ne by lia. rewrite Hb by lia. by intros [].
Qed.

(** Entry [it] matches the request [tags]. *)
Definition item_match (tags : list Z) (it : item) : bool :=
  CmmTagsMatch (length tags) tags (length (fst it)) (fst it).

Lemma take_replicate_cons (x : ptr) n m : m <= n -> take m (x :: replicate n x) = take m (replicate n x).
Proof.
  intros. change (x :: replicate n x) with (replicate (S n) x).
  rewrite !take_replicate. f_equal. lia.
Qed.

Lemma find_from_spec st tags l : forall fuel h s,
  linked st s l -> length l <= fuel ->
  (find_from fuel st h s (length tags) tags = None /\ Forall (fun x => item_match tags (snd x) = false) l) \/
  exists l1 id it l2, l = (l1 ++ (id, it) :: l2) /\
    find_from fuel st h s (length tags) tags = Some (last_link h l1, id) /\
    item_match tags it = true /\ Forall (fun x => item_match tags (snd x) = false) l1.
Proof.
  induction l as [|[id [tg msg]] l IH]; intros fuel h s Hl Hf; simpl in *.
  { left. subst s. destruct fuel; split; try done; constructor. }
  destruct Hl as (-> & n & Hid & Hl). destruct fuel as [|fuel]; [lia|]. simpl.
  rewrite (lookup_total_correct _ _ _ Hid). simpl.
  destruct (CmmTagsMatch _ _ _ _) eqn:E.
  - right. exists [], id, (tg, msg), l. by split_and!.
  - destruct (IH fuel (LNext id) n Hl) as [[-> Hn]|(l1 & id1 & it & l2 & -> & -> & Hm & Hn)]; [lia| |].
    + left. split; [done|]. by constructor.
    + right. exists ((id, (tg, msg)) :: l1), id1, it, l2. rewrite last_link_cons.
      split_and!; try done. by constructor.
Qed.

(** Unlinking the entry [id], the target of the link after [l1]. *)
Lemma unlink_wf t l1 id it l2 ent :
  table_wf t (l1 ++ (id, it) :: l2) -> t_store t !! id = Some ent ->
  let h := last_link LFirst l1 in
  let t1 := store_link h (ce_next ent) t in
  let t2 := match ce_next ent with None => set_lasth h t1 | Some _ => t1 end in
  table_wf (free_entry id t2) (l1 ++ l2).
Proof.
  intros [Hl Hnd Hd Hlast Hb] Hid h t1 t2.
  assert (t_store t2 = relinked h (ce_next ent) (t_store t)) as Hst
    by (unfold t2, t1; destruct (ce_next ent); simpl; by rewrite store_link_store).
  assert (t_first t2 = match l1 with [] => ce_next ent | _ => t_first t end) as Hfst
    by (unfold t2, t1, h; destruct (ce_next ent); simpl; by rewrite store_link_first).
  assert (t_brk t2 = t_brk t) as Hbrk by (unfold t2, t1; destruct (ce_next ent), h; done).
  rewrite fmap_app in Hnd. simpl in Hnd.
  apply NoDup_app in Hnd as (Hnd1 & Hdisj & [Hni Hnd2]%NoDup_cons).
  assert (id ∉ l1.*1) as Hid1 by (intros Hin; apply (Hdisj _ Hin); by left).
  assert (linked (t_store t) (ce_next ent) l2) as Hl2.
  { destruct (linked_tail _ _ _ _ Hl) as [m Hm]. destruct it. simpl in Hm.
    destruct Hm as (_ & n & Hn & ?). rewrite Hn in Hid. by injection Hid as <-. }
  assert (forall x, x ∈ l2.*1 -> h <> LNext x) as Hh.
  { intros x Hx Eh%last_link_in. apply (Hdisj _ Eh). by right. }
  split; simpl; rewrite ?Hst, ?Hfst, ?Hbrk.
  - apply (linked_relink _ _ _ _ _ _ _ Hl Hnd1).
    + intros x Hx. rewrite lookup_delete_ne by (by intros ->). done.
    + eapply linked_frame; [|exact Hl2]. intros x Hx. rewrite lookup_delete_ne by (by intros ->).
      by apply relinked_lookup_other, Hh.
  - rewrite fmap_app. apply NoDup_app. split_and!; try done. intros x Hx1 Hx2.
    apply (Hdisj _ Hx1). by right.
  - intros x. rewrite lookup_delete_is_Some, relinked_is_some, Hd, !fmap_app, !elem_of_app. simpl.
    rewrite elem_of_cons. naive_solver.
  - unfold t2, t1. destruct (ce_next ent) as [n|] eqn:En.
    + assert (t_lasth (store_link h (Some n) t) = t_lasth t) as -> by (by destruct h).
      rewrite Hlast. apply last_link_drop. intros ->. done.
    + simpl. destruct l2 as [|[y [ty my]] l2]; [by rewrite app_nil_r|by destruct Hl2].
  - intros x Hx. rewrite lookup_delete_None. right. apply eq_None_not_Some.
    rewrite relinked_is_some, Hb by done. by intros [].
Qed.

(** The first item that matches, and what is before and after it. *)
Fixpoint split_match (tags : list Z) (l : list item) : option (list item * item * list item) :=
  match l with
  | [] => None
  | it :: l =>
      if item_match tags it then Some ([], it, l)
      else '(l1, m, l2) ← split_match tags l; Some (it :: l1, m, l2)
  end.

Lemma split_match_none tags l :
  Forall (fun it => item_match tags it = false) l -> split_match tags l = None.
Proof. induction 1 as [|it l E _ IH]; simpl; [done|]. by rewrite E, IH. Qed.

Lemma split_match_some tags l1 it l2 :
  Forall (fun it => item_match tags it = false) l1 -> item_match tags it = true ->
  split_match tags (l1 ++ it :: l2) = Some (l1, it, l2).
Proof. induction 1 as [|x l E _ IH]; simpl; intros Hm; [by rewrite Hm|]. by rewrite E, IH. Qed.

Lemma split_match_first tags l l1 it l2 :
  split_match tags l = Some (l1, it, l2) ->
  l = (l1 ++ it :: l2) /\ item_match tags it = true /\
  filter (fun it => item_match tags it = true) l1 = [].
Proof.
  revert l1. induction l as [|x l IH]; intros l1; simpl; [done|].
  destruct (item_match tags x) eqn:E; [intros [= <- <- <-]; done|].
  destruct (split_match tags l) as [[[l1' m] l2']|]; simpl; [|done].
  intros [= <- <- <-]. destruct (IH l1' eq_refl) as (-> & ? & ?).
  split_and!; [done|done|]. rewrite filter_cons_False; [done|congruence].
Qed.

Lemma split_match_filter tags l :
  split_match tags l = None -> filter (fun it => item_match tags it = true) l = [].
Proof.
  induction l as [|x l IH]; simpl; [done|]. destruct (item_match tags x) eqn:E; [done|].
  destruct (split_match tags l) as [[[]]|]; [done|]. intros _.
  rewrite filter_cons_False; [by apply IH|congruence].
Qed.

(** What [CmmFind] does to a table of items. *)
Definition find_spec (l : list item) (tags : list Z) (rtags : option (list Z)) (del : bool) :
    list item * option (list Z) * ptr :=
  match split_match tags l with
  | None => (l, rtags, NULL)
  | Some (l1, (etags, msg), l2) =>
      (if del then l1 ++ l2 else l,
       (fun r => take (length tags) etags ++ drop (length tags) r) <$> rtags, msg)
  end.

Lemma find_repr t l tags rtags del :
  table_repr t l ->
  let '(l', r, msg) := find_spec l tags rtags del in
  exists t', CmmFind (Some t) (length tags) tags rtags del = (Some t', r, msg) /\ table_repr t' l'.
Proof.
  intros (ids & Hwf & <-). pose proof (tw_linked _ _ Hwf) as Hl. unfold CmmFind, find_spec.
  destruct (find_from_spec _ tags _ (size (t_store t)) LFirst _ Hl) as
    [[-> Hn]|(l1 & id & [etags msg] & l2 & -> & -> & Hm & Hn)].
  { rewrite (table_size _ _ Hwf). done. }
  - rewrite split_match_none by (by apply Forall_fmap). exists t. split; [done|]. by exists ids.
  - rewrite fmap_app. simpl. rewrite split_match_some by (done || by apply Forall_fmap).
    assert (exists n, t_store t !! id = Some (mk_entry n msg (length etags) etags)) as [n Hid].
    { destruct (linked_tail _ _ _ _ Hl) as [m (_ & n & Hn' & _)]. by exists n. }
    rewrite (lookup_total_correct _ _ _ Hid). destruct del.
    + pose proof (unlink_wf _ _ _ _ _ _ Hwf Hid) as Hun. eexists. split; [done|].
      exists (l1 ++ l2). rewrite fmap_app. split; [|done]. exact Hun.
    + exists t. split; [done|]. eexists. split; [exact Hwf|]. by rewrite fmap_app.
Qed.

Lemma put_repr t l tags msg :
  table_repr t l -> table_repr (CmmPut t (length tags) tags msg) (l ++ [(tags, msg)]).
Proof.
  intros (ids & Hwf & <-). eexists. split; [by apply put_wf|]. by rewrite fmap_app.
Qed.

Lemma new_repr : table_repr CmmNew [].
Proof. exists []. split; [apply new_wf|done]. Qed.

Lemma entries_repr t l : table_repr t l -> CmmEntries t = length l.
Proof.
  intros (ids & Hwf & <-). unfold CmmEntries. rewrite length_fmap, (table_size _ _ Hwf).
  destruct Hwf as [Hl _ _ _ _]. revert Hl. generalize (t_first t).
  induction ids as [|[id [tags msg]] ids IH]; intros s; simpl; [by intros ->|].
  intros (-> & n & Hid & Hl). rewrite (lookup_total_correct _ _ _ Hid). simpl. f_equal. by apply IH.
Qed.

Lemma free_from_repr l : forall fuel s t,
  linked (t_store t) s l -> NoDup l.*1 -> (forall id, is_Some (t_store t !! id) <-> id ∈ l.*1) ->
  length l <= fuel -> t_store (free_from fuel s t) = ∅.
Proof.
  induction l as [|[id [tags msg]] l IH]; intros fuel s t; simpl.
  - intros -> _ Hd _. assert (t_store t = ∅) as E.
    { apply map_empty. intros x. apply eq_None_not_Some. rewrite Hd. apply not_elem_of_nil. }
    by destruct fuel.
  - intros (-> & n & Hid & Hl) [Hni Hnd]%NoDup_cons Hd Hf. destruct fuel as [|fuel]; [lia|]. simpl.
    rewrite (lookup_total_correct _ _ _ Hid). simpl. apply IH; [|done| |lia]; simpl.
    + eapply linked_frame; [|done]. intros x Hx. apply lookup_delete_ne. by intros ->.
    + intros x. rewrite lookup_delete_is_Some, Hd, elem_of_cons. naive_solver.
Qed.

(** [CmmGetLastTag] on entries that have the tags it reads. *)
Definition last_tag_spec (l : list item) (ntags : nat) (tags : list Z) : Z :=
  match list_find (fun it => tags_match ntags tags (fst it) = true) l with
  | Some (_, it) => List.last (fst it) uninit_word
  | None => (-1)%Z
  end.

Lemma nth_last {A} (l : list A) d : nth (length l - 1) l d = List.last l d.
Proof.
  destruct l as [|x l _] using rev_ind; [done|].
  rewrite length_app. simpl. rewrite Nat.add_sub, app_nth2, Nat.sub_diag by lia. simpl.
  symmetry. apply List.last_last.
Qed.

Lemma last_tag_repr t l ntags tags :
  table_repr t l -> CmmGetLastTag t ntags tags = last_tag_spec l ntags tags.
Proof.
  intros (ids & Hwf & <-). unfold CmmGetLastTag, last_tag_spec. rewrite (table_size _ _ Hwf).
  destruct Hwf as [Hl _ _ _ _]. revert Hl. generalize (t_first t).
  induction ids as [|[id [tg msg]] ids IH]; intros s; simpl; [by intros ->|].
  intros (-> & n & Hid & Hl). rewrite (lookup_total_correct _ _ _ Hid). simpl.
  unfold CmmTagsMatch. rewrite Nat.eqb_refl. simpl. rewrite nth_last.
  destruct (tags_match ntags tags tg) eqn:E; [by rewrite decide_True by done|].
  rewrite decide_False by done. rewrite (IH _ Hl). simpl.
  change (list_fmap _ _ snd ids) with (ids.*2).
  by destruct (list_find (fun it : list Z * ptr => tags_match ntags tags it.1 = true) ids.*2) as [[]|].
Qed.

(** ** Histories *)

Inductive cmm_op :=
  | OpPut (tags : list Z) (msg : ptr)
  | OpFind (tags : list Z) (rtags : option (list Z)) (del : bool)
  | OpLastTag (ntags : nat) (tags : list Z)
  | OpEntries.

Inductive cmm_reply :=
  | RDone
  | RFound (rtags : option (list Z)) (msg : ptr)
  | RTag (tag : Z)
  | RCount (n : nat).

Definition cmm_exec (t : option CmmTable) (op : cmm_op) : option CmmTable * cmm_reply :=
  match t with
  | None => (None, RDone)
  | Some t =>
      match op with
      | OpPut tags msg => (Some (CmmPut t (length tags) tags msg), RDone)
      | OpFind tags rtags del =>
          let '(t, r, msg) := CmmFind (Some t) (length tags) tags rtags del in (t, RFound r msg)
      | OpLastTag ntags tags => (Some t, RTag (CmmGetLastTag t ntags tags))
      | OpEntries => (Some t, RCount (CmmEntries t))
      end
  end.

Definition spec_exec (l : list item) (op : cmm_op) : list item * cmm_reply :=
  match op with
  | OpPut tags msg => (l ++ [(tags, msg)], RDone)
  | OpFind tags rtags del => let '(l, r, msg) := find_spec l tags rtags del in (l, RFound r msg)
  | OpLastTag ntags tags => (l, RTag (last_tag_spec l ntags tags))
  | OpEntries => (l, RCount (length l))
  end.

Fixpoint exec_all {T} (f : T -> cmm_op -> T * cmm_reply) (t : T) (ops : list cmm_op) : T * list cmm_reply :=
  match ops with
  | [] => (t, [])
  | op :: ops => let '(t, r) := f t op in let '(t, rs) := exec_all f t ops in (t, r :: rs)
  end.

Lemma exec_repr t l op : table_repr t l ->
  exists t', cmm_exec (Some t) op = (Some t', snd (spec_exec l op)) /\
    table_repr t' (fst (spec_exec l op)).
Proof.
  intros Hr. destruct op as [tags msg|tags rtags del|ntags tags|]; cbn [cmm_exec spec_exec fst snd].
  - eexists. split; [done|]. by apply put_repr.
  - pose proof (find_repr t l tags rtags del Hr) as Hf.
    destruct (find_spec l tags rtags del) as [[l' r] msg]. destruct Hf as (t' & -> & ?). by exists t'.
  - exists t. by rewrite (last_tag_repr _ _ _ _ Hr).
  - exists t. by rewrite (entries_repr _ _ Hr).
Qed.

Lemma exec_all_repr ops : forall t l, table_repr t l ->
  exists t', exec_all cmm_exec (Some t) ops = (Some t', snd (exec_all spec_exec l ops)) /\
    table_repr t' (fst (exec_all spec_exec l ops)).
Proof.
  induction ops as [|op ops IH]; intros t l Hr; cbn [exec_all]; [by exists t|].
  destruct (exec_repr t l op Hr) as (t1 & -> & Hr1).
  destruct (spec_exec l op) as [l1 r]. cbn [fst snd] in *.
  destruct (IH t1 l1 Hr1) as (t2 & -> & Hr2).
  destruct (exec_all spec_exec l1 ops) as [l2 rs]. by exists t2.
Qed.


(** Puts every item, then finds [n] times with removal. *)
Definition put_all (t : CmmTable) (l : list item) : CmmTable :=
  fold_left (fun t '(tags, msg) => CmmPut t (length tags) tags msg) l t.

Fixpoint find_n (n : nat) (t : option CmmTable) (tags : list Z) : list ptr :=
  match n with
  | 0 => []
  | S n => let '(t, _, msg) := CmmFind t (length tags) tags None true in msg :: find_n n t tags
  end.

Lemma put_all_repr l2 : forall t l1, table_repr t l1 -> table_repr (put_all t l2) (l1 ++ l2).
Proof.
  induction l2 as [|[tags msg] l2 IH]; intros t l1 Hr; simpl; [by rewrite app_nil_r|].
  rewrite (cons_middle _ l1 l2), app_assoc. by apply IH, put_repr.
Qed.

Lemma find_n_repr tags n : forall t l, table_repr t l ->
  find_n n (Some t) tags =
  take n ((filter (fun it => item_match tags it = true) l).*2 ++ replicate n NULL).
Proof.
  induction n as [|n IH]; intros t l Hr; cbn [find_n]; [by rewrite take_0|].
  pose proof (find_repr t l tags None true Hr) as Hf. unfold find_spec in Hf.
  destruct (split_match tags l) as [[[l1 [etags msg]] l2]|] eqn:E.
  - destruct Hf as (t' & -> & Hr'). rewrite (IH _ _ Hr').
    destruct (split_match_first _ _ _ _ _ E) as (-> & Hm & Hn).
    rewrite !filter_app, filter_cons_True, Hn by done.
    rewrite !app_nil_l, fmap_cons, <- app_comm_cons, firstn_cons. cbn [snd]. f_equal.
    change (replicate (S n) NULL) with (NULL :: replicate n NULL).
    destruct (decide (n <= length (filter (fun it => item_match tags it = true) l2))) as [Hle|Hlt].
    + by rewrite !take_app_le by (rewrite length_fmap; lia).
    + rewrite !take_app_ge by (rewrite length_fmap; lia). f_equal.
      by rewrite take_replicate_cons by (rewrite length_fmap; lia).
  - destruct Hf as (t' & -> & Hr'). rewrite (IH _ _ Hr').
    rewrite (split_match_filter _ _ E). rewrite fmap_nil, !app_nil_l, !firstn_all2 by len. done.
Qed.

(** Draining a table with a pattern yields the messages that match it in the order
    in which they were put, and then null pointers; other messages are not touched. *)
Theorem cmm_drain_fifo l tags n :
  find_n n (Some (put_all CmmNew l)) tags =
  take n ((filter (fun it => item_match tags it = true) l).*2 ++ replicate n NULL).
Proof. apply find_n_repr, (put_all_repr l CmmNew []), new_repr. Qed.

End facts.

(** ** Packing *)

Section pup_facts.
Context {U : Uninit} {S : Type} `{PupLaws S}.
Implicit Types p : S.

(** The stream of one entry. *)
Definition entry_items (it : item) : list (Z + ptr) :=
  inl (Z.of_nat (length (fst it))) :: (inl <$> fst it) ++ [inr (snd it)].

Lemma put_ints_items l : forall p, pup_items (put_ints l p) = pup_items p ++ (inl <$> l).
Proof.
  induction l as [|z l IH]; intros p; cbn; [by rewrite app_nil_r|].
  fold (put_ints l (put_int z p)). by rewrite IH, put_int_items, <- app_assoc.
Qed.

Lemma get_ints_items l : forall p r, pup_items p = (inl <$> l) ++ r ->
  exists p', get_ints (length l) p = Some (l, p') /\ pup_items p' = r.
Proof.
  induction l as [|z l IH]; intros p r Hp; cbn; [by exists p|].
  destruct (get_int_items _ _ _ Hp) as (p1 & -> & Hp1). cbn.
  destruct (IH _ _ Hp1) as (p2 & -> & Hp2). cbn. by exists p2.
Qed.

#[local] Arguments put_ints : simpl never.
#[local] Arguments free_entry : simpl never.

Lemma pack_from_items del l : forall fuel s t p,
  linked (t_store t) s l -> NoDup l.*1 -> length l <= fuel ->
  pup_items (snd (pack_from fuel del s t p)) = pup_items p ++ concat (entry_items <$> l.*2) /\
  t_first (fst (pack_from fuel del s t p)) = t_first t /\
  (del = false -> fst (pack_from fuel del s t p) = t).
Proof.
  induction l as [|[id [tags msg]] l IH]; intros fuel s t p; cbn.
  { intros -> _ _. rewrite app_nil_r. by destruct fuel. }
  intros (-> & n & Hid & Hl) [Hni Hnd]%NoDup_cons Hf. destruct fuel as [|fuel]; [lia|]. cbn.
  rewrite (lookup_total_correct _ _ _ Hid). cbn. rewrite firstn_all.
  destruct (IH fuel n (if del then free_entry id t else t)
    (put_msg msg (put_ints tags (put_int (Z.of_nat (length tags)) p)))) as (-> & Hf1 & Hd);
    [|done|lia|].
  { destruct del; [|done]. eapply linked_frame; [|done]. intros x Hx. unfold free_entry. cbn.
    apply lookup_delete_ne. by intros ->. }
  rewrite put_msg_items, put_ints_items, put_int_items, Hf1. split_and!.
  - by rewrite <- !app_assoc.
  - by destruct del.
  - intros ->. by apply Hd.
Qed.

Lemma unpack_entries_repr l2 : forall t l1 p r,
  table_repr t l1 -> pup_items p = concat (entry_items <$> l2) ++ r ->
  exists t' p', unpack_entries (length l2) t p = Some (t', p') /\
    table_repr t' (l1 ++ l2) /\ pup_items p' = r.
Proof.
  induction l2 as [|[tags msg] l2 IH]; intros t l1 p r Hr Hp; cbn in *.
  { exists t, p. by rewrite app_nil_r. }
  destruct (get_int_items _ _ _ Hp) as (p1 & -> & Hp1). cbn. rewrite Nat2Z.id.
  rewrite <- !app_assoc in Hp1. destruct (get_ints_items _ _ _ Hp1) as (p2 & -> & Hp2). cbn.
  destruct (get_msg_items _ _ _ Hp2) as (p3 & -> & Hp3). cbn.
  rewrite (cons_middle _ l1 l2), app_assoc.
  by apply (IH _ _ _ r); [apply put_repr|].
Qed.

(** C8: packing a table, with or without deleting it, and unpacking the stream
    elsewhere gives a table with the same messages and tags in the same order, and leaves
    what followed in the stream; packing without deletion leaves the table as it was, and
    with deletion it does not trip over the check that a freed table is empty. *)
Theorem cmm_pup_roundtrip t l del p :
  table_repr t l -> pup_items p = [] ->
  exists ret p1, CmmPup_pack del p t = Normal (ret, p1) /\
    ret = (if del then None else Some t) /\
    exists t' p2, CmmPup_unpack p1 = Some (t', p2) /\ table_repr t' l /\ pup_items p2 = [].
Proof.
  intros Hr Hp. pose proof (entries_repr _ _ Hr) as Hn. destruct Hr as (ids & Hwf & <-).
  unfold CmmPup_pack, CmmPup_unpack.
  destruct (pack_from_items del ids (size (t_store t)) _ t (put_int (Z.of_nat (CmmEntries t)) p)
    (tw_linked _ _ Hwf) (tw_nodup _ _ Hwf)) as (Hi & Hf & Hd); [by rewrite (table_size _ _ Hwf)|].
  destruct (pack_from _ _ _ _ _) as [t1 p1]. cbn [fst snd] in *.
  rewrite put_int_items, Hp in Hi. cbn in Hi.
  exists (if del then None else Some t), p1. split_and!; [|done|].
  { destruct del; cbn; [done|]. by rewrite Hd. }
  destruct (get_int_items _ _ _ Hi) as (p2 & -> & Hp2). cbn.
  rewrite Nat2Z.id, Hn.
  destruct (unpack_entries_repr ids.*2 CmmNew [] p2 [] new_repr) as (t' & p3 & Hu & Ht & Hp3);
    [by rewrite app_nil_r|]. by exists t', p3.
Qed.

End pup_facts.

Lemma cmm_pup_roundtrip_witness :
  let U : Uninit := 7%Z in
  let l := [([1; 2]%Z, 100%Z); ([-1]%Z, 101%Z); ([]%Z, 102%Z)] in
  let t := put_all CmmNew l in
  exists ret p1, CmmPup_pack true [] t = Normal (ret, p1) /\ ret = None /\
    exists t' p2, CmmPup_unpack p1 = Some (t', p2) /\ table_repr t' l /\ p2 = [].
Proof.
  intros U l t.
  exact (cmm_pup_roundtrip (S := list (Z + ptr)) t l true [] (put_all_repr l CmmNew [] new_repr) eq_refl).
Defined.

(** [CmmFreeAll] leaves no entry of the table allocated, and [CmmFree] accepts a
    table exactly when it holds no message. *)
Theorem cmm_free_all {U : Uninit} t l :
  table_repr t l ->
  (exists t', CmmFreeAll (Some t) = Some t' /\ t_store t' = ∅) /\
  (CmmFree (Some t) = Normal tt <-> l = []).
Proof.
  intros (ids & Hwf & <-). split.
  - eexists. split; [done|]. eapply free_from_repr; try apply Hwf. by rewrite (table_size _ _ Hwf).
  - destruct Hwf as [Hl _ _ _ _]. simpl. destruct ids as [|[id [tags msg]] ids]; simpl in Hl.
    + by rewrite Hl.
    + destruct Hl as [-> _]. done.
Qed.

Lemma cmm_free_all_witness :
  let U : Uninit := 7%Z in
  let t := CmmPut CmmNew 1 [5%Z] 100%Z in
  exists t', CmmFreeAll (Some t) = Some t' /\ t_store t' = ∅.
Proof.
  intros U t. destruct (cmm_free_all t [([5%Z], 100%Z)]) as [H _]; [|exact H].
  exact (put_repr CmmNew [] [5%Z] 100%Z new_repr).
Defined.
