(* ===== verification/Cblist.v ===== *)
(** * Cblist: the callback lists of conv-conds.c

    [ccd_cblist] of src/conv-core/conv-conds.c: callbacks in an array whose
    cells are linked into a doubly linked list of registered callbacks, from
    [first] to [last], and a list of free cells from [first_free].  A cell's
    index is the handle by which a callback is cancelled. *)

From S2P Require Import Prelude.
Set Warnings "-clear-no-such-hyp".

(** [fn] is the address of the callback function. *)
Record ccd_callback := mk_cb { cb_fn : ptr; cb_arg : ptr; cb_pe : Z }.

Record ccd_cblist_elem := mk_celem { c_cb : ccd_callback; c_next : Z; c_prev : Z }.

Record ccd_cblist := mk_cblist {
  l_maxlen : nat;
  l_len : nat;
  l_first : Z;
  l_last : Z;
  l_first_free : Z;
  l_flag : bool;
  l_elems : list ccd_cblist_elem
}.

#[global] Instance ccd_callback_inhabited : Inhabited ccd_callback := populate (mk_cb 0 0 0)%Z.
#[global] Instance elem_inhabited : Inhabited ccd_cblist_elem :=
  populate (mk_celem inhabitant 0 0)%Z.
#[global] Instance ccd_callback_eq : EqDecision ccd_callback.
Proof. solve_decision. Defined.

Definition set_cnext (z : Z) (e : ccd_cblist_elem) := mk_celem (c_cb e) z (c_prev e).
Definition set_cprev (z : Z) (e : ccd_cblist_elem) := mk_celem (c_cb e) (c_next e) z.
Definition set_cb (c : ccd_callback) (e : ccd_cblist_elem) := mk_celem c (c_next e) (c_prev e).

(** [e[i].f = ...] for an index [i] that is not -1. *)
Definition upd (i : Z) (f : ccd_cblist_elem -> ccd_cblist_elem) (es : list ccd_cblist_elem) :=
  alter f (Z.to_nat i) es.
Definition at_ (es : list ccd_cblist_elem) (i : Z) : ccd_cblist_elem := es !!! Z.to_nat i.

Definition CBLIST_INIT_LEN : nat := 8.

Section ops.
Context {U : Uninit}.

Definition uninit_cb : ccd_callback := mk_cb uninit_word uninit_word uninit_word.

(** The cells [i..ml-1] as a chain of free cells; the last one ends it. *)
Definition free_cells (i ml : nat) : list ccd_cblist_elem :=
  (fun k => mk_celem uninit_cb (if S k =? ml then -1 else Z.of_nat k + 1) (Z.of_nat k - 1)) <$> seq i (ml - i).

Definition init_cblist (ml : nat) : ccd_cblist :=
  mk_cblist ml 0 (-1) (-1) 0 false (free_cells 0 ml).

Definition expand_cblist (l : ccd_cblist) (ml : nat) : ccd_cblist :=
  let elems := take (l_len l) (l_elems l) ++ free_cells (l_len l) ml in
  let elems := alter (set_cprev (-1)) (l_len l) elems in
  mk_cblist ml (l_len l) (l_first l) (l_last l) (Z.of_nat (l_len l)) (l_flag l) elems.

Definition remove_elem (l : ccd_cblist) (idx : Z) : ccd_cblist :=
  let e := l_elems l in
  let e := if negb (c_next (at_ e idx) =? -1)%Z
           then upd (c_next (at_ e idx)) (set_cprev (c_prev (at_ e idx))) e else e in
  let e := if negb (c_prev (at_ e idx) =? -1)%Z
           then upd (c_prev (at_ e idx)) (set_cnext (c_next (at_ e idx))) e else e in
  let first := if (idx =? l_first l)%Z then c_next (at_ e idx) else l_first l in
  let last := if (idx =? l_last l)%Z then c_prev (at_ e idx) else l_last l in
  let e := upd idx (set_cprev (-1)) e in
  let e := upd idx (set_cnext (l_first_free l)) e in
  let e := if negb (c_next (at_ e idx) =? -1)%Z
           then upd (c_next (at_ e idx)) (set_cprev idx) e else e in
  mk_cblist (l_maxlen l) (l_len l - 1) first last idx (l_flag l) e.

Definition remove_n_elems (l : ccd_cblist) (n : nat) : ccd_cblist :=
  if (n =? 0) || (l_len l <? n) then l
  else Nat.iter n (fun l => remove_elem l (l_first l)) l.

Definition append_elem (l : ccd_cblist) (cb : ccd_callback) : ccd_cblist * Z :=
  let l := if l_len l =? l_maxlen l then expand_cblist l (l_maxlen l * 2) else l in
  let idx := l_first_free l in
  let e := l_elems l in
  let first_free := c_next (at_ e idx) in
  let e := upd idx (set_cnext (-1)) e in
  let e := upd idx (set_cprev (l_last l)) e in
  let first := if (l_first l =? -1)%Z then idx else l_first l in
  let e := if negb (l_last l =? -1)%Z then upd (l_last l) (set_cnext idx) e else e in
  let e := upd idx (set_cb cb) e in
  (mk_cblist (l_maxlen l) (S (l_len l)) first idx first_free (l_flag l) e, idx).

End ops.

(** ** Doubly linked segments *)

Definition hd_or (l : list nat) (n : Z) : Z := match l with [] => n | i :: _ => Z.of_nat i end.
Definition last_or (p : Z) (l : list nat) : Z :=
  match last l with Some i => Z.of_nat i | None => p end.

(** The cells [l] are linked in both directions; the first one's [prev] is
    [p] and the last one's [next] is [n]. *)
Fixpoint dseg (es : list ccd_cblist_elem) (p : Z) (l : list nat) (n : Z) : Prop :=
  match l with
  | [] => True
  | i :: l =>
      (exists e, es !! i = Some e /\ c_prev e = p /\ c_next e = hd_or l n) /\
      dseg es (Z.of_nat i) l n
  end.

(** The cells [l] are linked forward. *)
Fixpoint sseg (es : list ccd_cblist_elem) (l : list nat) : Prop :=
  match l with
  | [] => True
  | i :: l => (exists e, es !! i = Some e /\ c_next e = hd_or l (-1)) /\ sseg es l
  end.

Lemma last_or_cons p i l : last_or p (i :: l) = last_or (Z.of_nat i) l.
Proof.
  unfold last_or. destruct l as [|y l]; [done|]. rewrite last_cons_cons.
  destruct (last (y :: l)) as [|] eqn:E; [done|]. by apply last_None in E.
Qed.

Lemma last_or_snoc p l i : last_or p (l ++ [i]) = Z.of_nat i.
Proof. unfold last_or. by rewrite last_snoc. Qed.

Lemma hd_or_app l1 l2 n : hd_or (l1 ++ l2) n = hd_or l1 (hd_or l2 n).
Proof. by destruct l1. Qed.

Lemma last_or_app p l1 l2 : last_or p (l1 ++ l2) = last_or (last_or p l1) l2.
Proof.
  revert p. induction l1 as [|i l1 IH]; intros p; simpl; [done|]. by rewrite !last_or_cons, IH.
Qed.

Lemma dseg_app es p l1 l2 n :
  dseg es p (l1 ++ l2) n <-> dseg es p l1 (hd_or l2 n) /\ dseg es (last_or p l1) l2 n.
Proof.
  revert p. induction l1 as [|i l1 IH]; intros p; simpl; [tauto|].
  rewrite IH, last_or_cons, hd_or_app. tauto.
Qed.

Lemma dseg_frame es es' p l n :
  (forall i, i ∈ l -> es' !! i = es !! i) -> dseg es p l n -> dseg es' p l n.
Proof.
  revert p. induction l as [|i l IH]; intros p Hes; simpl; [done|]. intros [He Hl]. split.
  - rewrite Hes; [done|by left].
  - apply IH; [|done]. intros. apply Hes. by right.
Qed.

Lemma sseg_frame es es' l :
  (forall i, i ∈ l -> c_next <$> es' !! i = c_next <$> es !! i) -> sseg es l -> sseg es' l.
Proof.
  induction l as [|i l IH]; intros Hes; simpl; [done|]. intros [(e & He & Hn) Hl]. split.
  - specialize (Hes i). rewrite He in Hes. destruct (es' !! i) as [e'|] eqn:E'.
    + exists e'. split; [done|]. specialize (Hes (list_elem_of_here _ _)). simpl in Hes. congruence.
    + specialize (Hes (list_elem_of_here _ _)). done.
  - apply IH; [|done]. intros. apply Hes. by right.
Qed.

(** Changing the [next] of the last cell, and the [prev] of the first. *)
Lemma dseg_set_next es p l i n n' :
  NoDup (l ++ [i]) -> dseg es p (l ++ [i]) n -> dseg (alter (set_cnext n') i es) p (l ++ [i]) n'.
Proof.
  intros (Hnd & Hi & _)%NoDup_app. rewrite !dseg_app. intros [Hl [(e & He & Hp & _) _]]. split.
  - eapply dseg_frame; [|exact Hl]. intros x Hx. apply list_lookup_alter_ne.
    intros ->. by apply (Hi x), list_elem_of_singleton.
  - split; [|done]. exists (set_cnext n' e). by rewrite list_lookup_alter_eq, He.
Qed.

Lemma dseg_set_prev es p i l n p' :
  NoDup (i :: l) -> dseg es p (i :: l) n -> dseg (alter (set_cprev p') i es) p' (i :: l) n.
Proof.
  intros [Hi Hnd]%NoDup_cons [(e & He & _ & Hn) Hl]. split.
  - exists (set_cprev p' e). by rewrite list_lookup_alter_eq, He.
  - eapply dseg_frame; [|exact Hl]. intros x Hx. apply list_lookup_alter_ne. by intros ->.
Qed.

(** ** Cells keep their callbacks when links change *)

Definition same_cb (es es' : list ccd_cblist_elem) : Prop := (c_cb <$> es) = (c_cb <$> es').

#[global] Instance same_cb_equiv : Equivalence same_cb.
Proof. split; unfold same_cb; [intros ?|intros ? ? ->|intros ? ? ? -> ->]; done. Qed.

Lemma same_cb_alter i f es :
  (forall e, c_cb (f e) = c_cb e) -> same_cb (alter f i es) es.
Proof.
  intros Hf. unfold same_cb. apply list_eq. intros k. rewrite !list_lookup_fmap.
  destruct (decide (k = i)) as [->|].
  - rewrite list_lookup_alter_eq. destruct (es !! i); simpl; [by rewrite Hf|done].
  - by rewrite list_lookup_alter_ne by done.
Qed.

Lemma same_cb_next i z es : same_cb (upd i (set_cnext z) es) es.
Proof. by apply same_cb_alter. Qed.

Lemma same_cb_prev i z es : same_cb (upd i (set_cprev z) es) es.
Proof. by apply same_cb_alter. Qed.

#[export] Hint Resolve same_cb_next same_cb_prev : charm.

Lemma same_cb_trans es1 es2 es3 : same_cb es1 es2 -> same_cb es2 es3 -> same_cb es1 es3.
Proof. apply transitivity. Qed.

Lemma same_cb_length es es' : same_cb es es' -> length es = length es'.
Proof. intros H. by rewrite <- (length_fmap c_cb es), <- (length_fmap c_cb es'), H. Qed.

Lemma same_cb_lookup es es' i e e' :
  same_cb es es' -> es !! i = Some e -> es' !! i = Some e' -> c_cb e = c_cb e'.
Proof.
  intros H He He'. assert ((c_cb <$> es) !! i = (c_cb <$> es') !! i) as Hi by (by rewrite H).
  rewrite !list_lookup_fmap, He, He' in Hi. by injection Hi.
Qed.

Lemma upd_lookup_ne i f es (x : nat) : i <> Z.of_nat x -> (0 <= i)%Z -> upd i f es !! x = es !! x.
Proof. intros. apply list_lookup_alter_ne. lia. Qed.

Lemma upd_of_nat i f es : upd (Z.of_nat i) f es = alter f i es.
Proof. unfold upd. by rewrite Nat2Z.id. Qed.

Lemma upd_prev_next i z es x : c_next <$> upd i (set_cprev z) es !! x = c_next <$> es !! x.
Proof.
  unfold upd. destruct (decide (x = Z.to_nat i)) as [->|].
  - rewrite list_lookup_alter_eq. by destruct (es !! Z.to_nat i).
  - by rewrite list_lookup_alter_ne by done.
Qed.

Lemma of_nat_neq i : (Z.of_nat i =? -1)%Z = false.
Proof. apply Z.eqb_neq. lia. Qed.

(** The two assignments that take cell [i] out of the busy list. *)
Lemma dseg_unlink es l1 i l2 e :
  NoDup (l1 ++ i :: l2) -> dseg es (-1) (l1 ++ i :: l2) (-1) -> es !! i = Some e ->
  let es1 := if negb (c_next e =? -1)%Z then upd (c_next e) (set_cprev (c_prev e)) es else es in
  let es2 := if negb (c_prev e =? -1)%Z then upd (c_prev e) (set_cnext (c_next e)) es1 else es1 in
  c_next e = hd_or l2 (-1) /\ c_prev e = last_or (-1) l1 /\
  es1 !! i = Some e /\ es2 !! i = Some e /\ dseg es2 (-1) (l1 ++ l2) (-1) /\
  (forall x, x ∉ l1 -> x ∉ l2 -> es2 !! x = es !! x) /\ same_cb es2 es.
Proof.
  intros Hnd Hd He. apply NoDup_app in Hnd as (Hnd1 & Hdisj & Hnd2).
  apply dseg_app in Hd as [Hd1 [(e' & He' & Hp & Hn) Hd2]]. rewrite He in He'. injection He' as <-.
  pose proof Hnd2 as [Hi Hnd2']%NoDup_cons.
  assert (i ∉ l1) as Hi1 by (intros ?; apply (Hdisj i); [done|by left]).
  intros es1 es2. split; [done|]. split; [done|].
  assert (es1 !! i = Some e /\ dseg es1 (c_prev e) l2 (-1) /\ dseg es1 (-1) l1 (Z.of_nat i) /\
    (forall x, x ∉ l2 -> es1 !! x = es !! x) /\ same_cb es1 es) as (H1 & H2 & H3 & H4 & H5).
  { unfold es1. rewrite Hn. destruct l2 as [|j l2]; simpl; [done|]. rewrite of_nat_neq. simpl.
    assert (forall x, x ∉ j :: l2 -> upd (Z.of_nat j) (set_cprev (c_prev e)) es !! x = es !! x) as Hfr
      by (intros x Hx; apply upd_lookup_ne; [intros ->%(inj Z.of_nat); apply Hx; by left|lia]).
    split; [by rewrite Hfr|]. split; [rewrite upd_of_nat; by apply (dseg_set_prev _ (Z.of_nat i))|].
    split; [|auto with charm].
    eapply dseg_frame; [|exact Hd1]. intros x Hx. apply Hfr. intros Hx2. apply (Hdisj x); [done|by right]. }
  unfold es2. rewrite Hp. destruct l1 as [|k l1 _] using rev_ind; simpl.
  { rewrite Hp in H2. split; [done|]. split; [done|]. split; [exact H2|]. by auto. }
  rewrite last_or_snoc in *. rewrite of_nat_neq. simpl. rewrite upd_of_nat.
  assert (forall x, x ∉ l1 ++ [k] -> alter (set_cnext (c_next e)) k es1 !! x = es1 !! x) as Hfr.
  { intros x Hx. apply list_lookup_alter_ne. intros ->. apply Hx, elem_of_app. right. by left. }
  split; [done|]. split; [by rewrite Hfr|]. split; [|split].
  - rewrite dseg_app. split.
    + rewrite <- Hn. by eapply dseg_set_next.
    + rewrite last_or_snoc, <- Hp. eapply dseg_frame; [|exact H2]. intros x Hx. apply Hfr.
      intros Hx1. apply (Hdisj x); [done|by right].
  - intros x Hx1 Hx2. rewrite Hfr, H4; done.
  - rewrite <- upd_of_nat. eapply same_cb_trans; [apply same_cb_next|done].
Qed.

(** ** The invariant *)

(** [B] are the cells of the registered callbacks, in order, [F] the free
    cells. *)
Record cblist_wf (l : ccd_cblist) (B F : list nat) : Prop := {
  bw_busy : dseg (l_elems l) (-1) B (-1);
  bw_free : sseg (l_elems l) F;
  bw_first : l_first l = hd_or B (-1);
  bw_last : l_last l = last_or (-1) B;
  bw_first_free : l_first_free l = hd_or F (-1);
  bw_len : l_len l = length B;
  bw_max : l_maxlen l = length (l_elems l);
  bw_pos : 0 < l_maxlen l;
  bw_perm : B ++ F ≡ₚ seq 0 (l_maxlen l)
}.

Definition cb_at (l : ccd_cblist) (i : nat) : ccd_callback := c_cb (l_elems l !!! i).

(** [l] holds the callbacks [cbs], each with its handle, in the order in which
    they were registered. *)
Definition cblist_repr (l : ccd_cblist) (cbs : list (nat * ccd_callback)) : Prop :=
  exists B F, cblist_wf l B F /\ cbs = (fun i => (i, cb_at l i)) <$> B.

Lemma wf_nodup l B F : cblist_wf l B F -> NoDup (B ++ F).
Proof. intros Hwf. rewrite (bw_perm _ _ _ Hwf). apply NoDup_seq. Qed.

Lemma wf_in_range l B F i : cblist_wf l B F -> i ∈ B ++ F -> i < length (l_elems l).
Proof. intros Hwf. rewrite (bw_perm _ _ _ Hwf), elem_of_seq, (bw_max _ _ _ Hwf). lia. Qed.

Lemma cb_at_same l l' i : same_cb (l_elems l) (l_elems l') -> i < length (l_elems l) -> cb_at l i = cb_at l' i.
Proof.
  intros Hs Hi. unfold cb_at. pose proof (same_cb_length _ _ Hs) as Hl.
  eapply same_cb_lookup; [exact Hs|by apply list_lookup_lookup_total_lt..|].
  apply list_lookup_lookup_total_lt. lia.
Qed.

Lemma at_correct es i e : es !! i = Some e -> at_ es (Z.of_nat i) = e.
Proof. intros. unfold at_. rewrite Nat2Z.id. by apply list_lookup_total_correct. Qed.

Section facts.
Context {U : Uninit}.

Lemma remove_elem_wf l B1 i B2 F :
  cblist_wf l (B1 ++ i :: B2) F ->
  cblist_wf (remove_elem l (Z.of_nat i)) (B1 ++ B2) (i :: F) /\
  same_cb (l_elems (remove_elem l (Z.of_nat i))) (l_elems l) /\
  l_flag (remove_elem l (Z.of_nat i)) = l_flag l.
Proof.
  intros Hwf. pose proof (wf_nodup _ _ _ Hwf) as Hnd. destruct Hwf as [Hb Hf Hfi Hla Hff Hlen Hmax Hpos Hperm].
  pose proof Hb as [_ [(e & He & _) _]]%dseg_app.
  apply NoDup_app in Hnd as (HndB & Hdisj & HndF).
  destruct (dseg_unlink _ _ _ _ _ HndB Hb He) as (Hn & Hp & H1 & H2 & H3 & H4 & H5).
  unfold remove_elem. rewrite (at_correct _ _ _ He). cbv zeta.
  rewrite (at_correct _ _ _ H1), (at_correct _ _ _ H2).
  set (es1 := if negb (c_next e =? -1)%Z then _ else _) in *.
  set (es2 := if negb (c_prev e =? -1)%Z then _ else _) in *. rewrite !upd_of_nat.
  set (es3 := alter (set_cnext _) i _).
  assert (es3 !! i = Some (mk_celem (c_cb e) (l_first_free l) (-1))) as H6
    by (unfold es3; by rewrite !list_lookup_alter_eq, H2).
  rewrite (at_correct _ _ _ H6). simpl. set (es4 := if negb _ then _ else _).
  assert (forall x, x <> i -> es3 !! x = es2 !! x) as Hes3
    by (intros x Hx; unfold es3; by rewrite !list_lookup_alter_ne by done).
  assert (forall x, x ∉ F -> es4 !! x = es3 !! x) as Hes4.
  { intros x Hx. unfold es4. rewrite Hff. destruct F as [|j F]; [done|]. simpl. rewrite of_nat_neq. simpl.
    rewrite upd_of_nat. apply list_lookup_alter_ne. intros ->. apply Hx. by left. }
  assert (forall x, c_next <$> es4 !! x = c_next <$> es3 !! x) as Hes4n.
  { intros x. unfold es4. destruct (negb (l_first_free l =? -1)%Z); [apply upd_prev_next|done]. }
  assert (same_cb es4 (l_elems l)) as Hs.
  { trans es3; [unfold es4; destruct (negb (l_first_free l =? -1)%Z); [apply same_cb_prev|done]|].
    unfold es3. rewrite <- !upd_of_nat. etrans; [apply same_cb_next|]. by etrans; [apply same_cb_prev|]. }
  pose proof HndB as (Hn1 & HnB & [Hi2 Hn2]%NoDup_cons)%NoDup_app.
  assert (i ∉ B1) as Hi1 by (intros ?; apply (HnB i); [done|by left]).
  split; [|done]. split; simpl.
  - eapply dseg_frame; [|exact H3]. intros x Hx. rewrite Hes4, Hes3; [done|..].
    + intros ->. apply elem_of_app in Hx as []; done.
    + apply Hdisj. rewrite elem_of_app in Hx |- *. rewrite elem_of_cons. tauto.
  - split.
    + specialize (Hes4n i). rewrite H6 in Hes4n. destruct (es4 !! i) as [e4|]; [|done].
      exists e4. split; [done|]. simpl in Hes4n. injection Hes4n as ->. done.
    + eapply sseg_frame; [|exact Hf]. intros x Hx. rewrite Hes4n.
      assert (x ∉ B1 ++ i :: B2) as HxB by (intros HxB; by apply (Hdisj x)).
      rewrite Hes3, H4; [done|..]; [set_solver..|]. set_solver.
  - rewrite Hfi, Hn. destruct B1 as [|k B1]; simpl; [by rewrite Z.eqb_refl|].
    destruct (Z.eqb_spec (Z.of_nat i) (Z.of_nat k)) as [E|]; [|done].
    apply (inj Z.of_nat) in E. exfalso. apply Hi1. rewrite E. by left.
  - rewrite Hla, Hp, !last_or_app, last_or_cons. destruct B2 as [|k B2 _] using rev_ind.
    + simpl. by rewrite Z.eqb_refl.
    + rewrite !last_or_snoc. destruct (Z.eqb_spec (Z.of_nat i) (Z.of_nat k)) as [E|]; [|done].
      apply (inj Z.of_nat) in E. exfalso. apply Hi2. rewrite E. set_solver.
  - done.
  - rewrite Hlen. len.
  - by rewrite (same_cb_length _ _ Hs).
  - done.
  - rewrite <- Hperm, <- !app_assoc. apply Permutation_app_head. simpl. symmetry. apply Permutation_middle.
Qed.

Lemma sseg_seq es n : forall i,
  (forall k, i <= k < i + n -> exists e, es !! k = Some e /\
     c_next e = if S k =? i + n then (-1)%Z else (Z.of_nat k + 1)%Z) ->
  sseg es (seq i n).
Proof.
  induction n as [|n IH]; intros i Hes; simpl; [done|]. split.
  - destruct (Hes i) as (e & He & Hn); [lia|]. exists e. split; [done|]. rewrite Hn.
    destruct n; simpl; bool_cases; lia.
  - apply IH. intros k Hk. destruct (Hes k) as (e & He & Hn); [lia|]. exists e. split; [done|].
    rewrite Hn. by replace (S i + n) with (i + S n) by lia.
Qed.

Lemma free_cells_lookup i ml k :
  i <= k < ml -> exists e, free_cells i ml !! (k - i) = Some e /\
    c_next e = if S k =? ml then (-1)%Z else (Z.of_nat k + 1)%Z.
Proof.
  intros Hk. unfold free_cells. rewrite list_lookup_fmap, lookup_seq_lt by lia. simpl.
  eexists. split; [done|]. simpl. by replace (i + (k - i)) with k by lia.
Qed.

Lemma free_cells_length i ml : length (free_cells i ml) = ml - i.
Proof. unfold free_cells. by rewrite length_fmap, length_seq. Qed.

Lemma init_cblist_wf ml : 0 < ml -> cblist_wf (init_cblist ml) [] (seq 0 ml).
Proof.
  intros Hml. split; simpl; try done.
  - apply sseg_seq. intros k Hk. destruct (free_cells_lookup 0 ml k) as (e & He & Hn); [lia|].
    rewrite Nat.sub_0_r in He. eauto.
  - by destruct ml; [lia|].
  - rewrite free_cells_length. lia.
Qed.

Lemma full_no_free l B F : cblist_wf l B F -> l_len l = l_maxlen l -> F = [].
Proof.
  intros [_ _ _ _ _ Hlen _ _ Hperm] E. apply nil_length_inv.
  pose proof (Permutation_length Hperm) as Hl. rewrite length_app, length_seq in Hl. lia.
Qed.

Lemma expand_wf l B F :
  cblist_wf l B F -> l_len l = l_maxlen l ->
  let l' := expand_cblist l (l_maxlen l * 2) in
  exists F', cblist_wf l' B F' /\ F' <> [] /\ (forall i, i ∈ B -> cb_at l' i = cb_at l i) /\ l_flag l' = l_flag l.
Proof.
  intros Hwf E. pose proof (full_no_free _ _ _ Hwf E) as ->.
  pose proof (fun i => wf_in_range l B [] i Hwf) as Hrange. rewrite app_nil_r in Hrange.
  destruct Hwf as [Hb _ Hfi Hla _ Hlen Hmax Hpos Hperm].
  unfold expand_cblist. set (n := l_len l) in *. set (ml := l_maxlen l * 2).
  rewrite take_ge by lia. set (es := alter _ n _).
  assert (length es = ml) as Hles.
  { unfold es. rewrite length_alter, length_app, free_cells_length. lia. }
  assert (forall i, i < n -> es !! i = l_elems l !! i) as Hold.
  { intros i Hi. unfold es. rewrite list_lookup_alter_ne by lia. apply lookup_app_l. lia. }
  assert (forall i, i ∈ B -> i < n) as HB by (intros i Hi%Hrange; lia).
  exists (seq n (ml - n)). split_and!; [split; simpl; try done| | |done].
  - eapply dseg_frame; [|exact Hb]. intros i Hi. apply Hold, HB, Hi.
  - apply sseg_seq. intros k Hk. replace (n + (ml - n)) with ml in * by lia.
    destruct (free_cells_lookup n ml k) as (e & He & Hn); [lia|].
    assert ((l_elems l ++ free_cells n ml) !! k = Some e) as Hk'.
    { rewrite lookup_app_r by lia. by rewrite <- Hmax, <- E. }
    unfold es. destruct (decide (k = n)) as [->|].
    + rewrite list_lookup_alter_eq, Hk'. simpl. eauto.
    + rewrite list_lookup_alter_ne, Hk' by done. eauto.
  - destruct (ml - n) eqn:Eml; [lia|done].
  - lia.
  - rewrite app_nil_r in Hperm. rewrite Hperm.
    replace ml with (l_maxlen l + (ml - l_maxlen l)) at 2 by lia. rewrite seq_app. by rewrite E.
  - destruct (ml - n) eqn:Eml; [lia|done].
  - intros i Hi. unfold cb_at. simpl. f_equal. apply list_lookup_total_correct.
    rewrite Hold by auto. apply list_lookup_lookup_total_lt. by apply Hrange.
Qed.

(** The part of [append_elem] after the list was made large enough. *)
Lemma append_link_wf l B i F cb :
  cblist_wf l B (i :: F) -> l_len l <> l_maxlen l ->
  let '(l', idx) := append_elem l cb in
  idx = Z.of_nat i /\ cblist_wf l' (B ++ [i]) F /\ cb_at l' i = cb /\
  (forall k, k ∈ B -> cb_at l' k = cb_at l k) /\ l_flag l' = l_flag l.
Proof.
  intros Hwf E. pose proof (wf_nodup _ _ _ Hwf) as Hnd.
  pose proof (fun i => wf_in_range l _ _ i Hwf) as Hrange.
  destruct Hwf as [Hb [(e & He & Hen) Hf] Hfi Hla Hff Hlen Hmax Hpos Hperm].
  apply NoDup_app in Hnd as (HndB & Hdisj & [Hi HndF]%NoDup_cons).
  assert (i ∉ B) as HiB by (intros ?; apply (Hdisj i); [done|by left]).
  unfold append_elem. apply Nat.eqb_neq in E. rewrite E, Hff. simpl hd_or.
  rewrite (at_correct _ _ _ He), Hen, !upd_of_nat. cbv zeta.
  set (es1 := alter (set_cprev _) i (alter _ i _)).
  set (es2 := if negb _ then _ else es1). set (es3 := alter (set_cb cb) i es2).
  assert (forall x, x <> i -> es1 !! x = l_elems l !! x) as H1
    by (intros x Hx; unfold es1; by rewrite !list_lookup_alter_ne by done).
  assert (es1 !! i = Some (mk_celem (c_cb e) (-1) (last_or (-1) B))) as H1i
    by (unfold es1; rewrite !list_lookup_alter_eq, He; simpl; by rewrite Hla).
  assert (dseg es2 (-1) B (Z.of_nat i) /\ es2 !! i = es1 !! i /\
    (forall x, x ∉ B -> es2 !! x = es1 !! x) /\ same_cb es2 es1) as (H2 & H2i & H2x & H2s).
  { unfold es2. rewrite Hla. assert (dseg es1 (-1) B (-1)) as Hb1.
    { eapply dseg_frame; [|exact Hb]. intros x Hx. apply H1. by intros ->. }
    destruct B as [|k B _] using rev_ind; [done|]. rewrite last_or_snoc, of_nat_neq. simpl.
    rewrite upd_of_nat. assert (forall x, x ∉ B ++ [k] ->
      alter (set_cnext (Z.of_nat i)) k es1 !! x = es1 !! x) as Hfr.
    { intros x Hx. apply list_lookup_alter_ne. intros ->. set_solver. }
    split; [by eapply dseg_set_next|]. split; [by apply Hfr|]. split; [done|].
    rewrite <- upd_of_nat. apply same_cb_next. }
  assert (forall x, x <> i -> es3 !! x = es2 !! x) as H3
    by (intros x Hx; unfold es3; by apply list_lookup_alter_ne).
  assert (es3 !! i = Some (mk_celem cb (-1) (last_or (-1) B))) as H3i
    by (unfold es3; by rewrite list_lookup_alter_eq, H2i, H1i).
  split; [done|]. split; [|split; [|split]].
  - split; simpl.
    + rewrite dseg_app. split.
      * eapply dseg_frame; [|exact H2]. intros x Hx. apply H3. by intros ->.
      * split; [|done]. eauto.
    + eapply sseg_frame; [|exact Hf]. intros x Hx.
      rewrite H3, H2x, H1; [done|by intros ->| |by intros ->]. intros HxB. apply (Hdisj x); [done|by right].
    + rewrite Hfi. destruct B as [|k B]; simpl; [done|]. by rewrite of_nat_neq.
    + by rewrite last_or_snoc.
    + done.
    + len.
    + rewrite Hmax. unfold es3. rewrite length_alter, (same_cb_length _ _ H2s).
      unfold es1. by rewrite !length_alter.
    + done.
    + rewrite <- Hperm. by rewrite <- app_assoc.
  - unfold cb_at. simpl. by rewrite (list_lookup_total_correct _ _ _ H3i).
  - intros k Hk. assert (k <> i) as Hki by (by intros ->). unfold cb_at. simpl.
    rewrite !list_lookup_total_alt, H3 by done.
    assert ((c_cb <$> es2) !! k = (c_cb <$> es1) !! k) as Hs by (by rewrite H2s).
    rewrite !list_lookup_fmap, (H1 k) in Hs by done.
    destruct (es2 !! k), (l_elems l !! k); by simplify_eq/=.
  - done.
Qed.

(** ** Operations on the represented list *)

Lemma repr_nil_init ml : 0 < ml -> cblist_repr (init_cblist ml) [].
Proof. intros. exists [], (seq 0 ml). split; [by apply init_cblist_wf|done]. Qed.

Lemma repr_handles l cbs B : cbs = (fun i => (i, cb_at l i)) <$> B -> cbs.*1 = B.
Proof. intros ->. rewrite <- list_fmap_compose. apply list_fmap_id. Qed.

Lemma append_repr l cbs cb :
  cblist_repr l cbs ->
  let '(l', idx) := append_elem l cb in
  exists i, idx = Z.of_nat i /\ (i ∉ cbs.*1) /\ cblist_repr l' (cbs ++ [(i, cb)]) /\ l_flag l' = l_flag l.
Proof.
  intros (B & F & Hwf & Hcbs). rewrite (repr_handles _ _ _ Hcbs).
  assert (exists l1 F1, append_elem l cb = append_elem l1 cb /\ cblist_wf l1 B F1 /\ F1 <> [] /\
    (forall i, i ∈ B -> cb_at l1 i = cb_at l i) /\ l_flag l1 = l_flag l /\ l_len l1 <> l_maxlen l1)
    as (l1 & F1 & -> & Hwf1 & HF1 & Hcb1 & Hfl1 & Hne1).
  { assert (forall l1 F1, cblist_wf l1 B F1 -> F1 <> [] -> l_len l1 <> l_maxlen l1) as Hroom.
    { intros l1 F1 Hw HF Hl. by apply HF, (full_no_free _ _ _ Hw). }
    destruct (decide (l_len l = l_maxlen l)) as [E|E].
    - destruct (expand_wf _ _ _ Hwf E) as (F1 & Hw & HF & Hcb & Hfl).
      exists (expand_cblist l (l_maxlen l * 2)), F1. split_and!; try done; [|by eapply Hroom].
      unfold append_elem. rewrite E, Nat.eqb_refl.
      pose proof (Hroom _ _ Hw HF) as Hne%Nat.eqb_neq. by rewrite Hne.
    - exists l, F. split_and!; try done. intros ->.
      pose proof (Permutation_length (bw_perm _ _ _ Hwf)) as Hl.
      rewrite length_app, length_seq, <- (bw_len _ _ _ Hwf) in Hl. simpl in Hl. lia. }
  destruct F1 as [|i F1]; [done|].
  pose proof (append_link_wf l1 B i F1 cb Hwf1 Hne1) as Ha.
  pose proof (wf_nodup _ _ _ Hwf1) as (_ & Hdisj & _)%NoDup_app.
  destruct (append_elem l1 cb) as [l' idx]. destruct Ha as (-> & Hwf' & Hi & Hold & Hfl).
  exists i. split_and!; [done| | |congruence].
  - intros HiB. apply (Hdisj i); [done|by left].
  - exists (B ++ [i]), F1. split; [done|]. rewrite fmap_app, Hcbs. simpl. rewrite Hi. f_equal.
    apply list_fmap_ext. intros k x Hx%list_elem_of_lookup_2. rewrite Hold, Hcb1; done.
Qed.

Lemma fmap_split {A B} (f : A -> B) l c1 c c2 :
  f <$> l = c1 ++ c :: c2 -> exists l1 x l2, l = (l1 ++ x :: l2) /\ c1 = f <$> l1 /\ c = f x /\ c2 = f <$> l2.
Proof.
  intros H. apply fmap_app_inv in H as (l1 & l2' & -> & H2 & ->).
  symmetry in H2. apply fmap_cons_inv in H2 as (x & l2 & -> & -> & ->). by exists l1, x, l2.
Qed.

Lemma remove_repr l c1 i cb c2 :
  cblist_repr l (c1 ++ (i, cb) :: c2) ->
  cblist_repr (remove_elem l (Z.of_nat i)) (c1 ++ c2) /\
  l_flag (remove_elem l (Z.of_nat i)) = l_flag l.
Proof.
  intros (B & F & Hwf & Hcbs). symmetry in Hcbs.
  apply fmap_split in Hcbs as (B1 & x & B2 & -> & -> & [= -> ->] & ->).
  destruct (remove_elem_wf _ _ _ _ _ Hwf) as (Hwf' & Hs & Hfl). split; [|done].
  exists (B1 ++ B2), (x :: F). split; [done|]. rewrite <- fmap_app.
  apply list_fmap_ext. intros k y Hy%list_elem_of_lookup_2. f_equal.
  symmetry. apply cb_at_same; [done|]. eapply wf_in_range; [exact Hwf'|]. set_solver.
Qed.

Lemma repr_first l cbs : cblist_repr l cbs -> l_first l = hd_or cbs.*1 (-1) /\ l_len l = length cbs.
Proof.
  intros (B & F & Hwf & Hcbs). rewrite (repr_handles _ _ _ Hcbs), (bw_first _ _ _ Hwf), (bw_len _ _ _ Hwf).
  by rewrite Hcbs, length_fmap.
Qed.

Lemma repr_cell l c1 i cb c2 :
  cblist_repr l (c1 ++ (i, cb) :: c2) ->
  c_cb (at_ (l_elems l) (Z.of_nat i)) = cb /\
  c_next (at_ (l_elems l) (Z.of_nat i)) = hd_or c2.*1 (-1).
Proof.
  intros (B & F & Hwf & Hcbs). symmetry in Hcbs.
  apply fmap_split in Hcbs as (B1 & x & B2 & -> & -> & [= -> ->] & ->).
  rewrite <- list_fmap_compose. change (fst ∘ _) with (fun i : nat => i). rewrite list_fmap_id.
  destruct Hwf as [[_ [(e & He & _ & Hn) _]]%dseg_app _ _ _ _ _ _ _ _].
  rewrite (at_correct _ _ _ He). unfold cb_at. by rewrite (list_lookup_total_correct _ _ _ He).
Qed.

Lemma remove_n_repr n : forall l cbs,
  cblist_repr l cbs -> n <= length cbs ->
  cblist_repr (Nat.iter n (fun l => remove_elem l (l_first l)) l) (drop n cbs) /\
  l_flag (Nat.iter n (fun l => remove_elem l (l_first l)) l) = l_flag l.
Proof.
  induction n as [|n IH]; intros l cbs Hr Hn; [by rewrite drop_0|].
  rewrite Nat.iter_succ_r. destruct cbs as [|[i cb] cbs]; [simpl in Hn; lia|]. simpl in Hn.
  destruct (repr_first _ _ Hr) as [-> _]. simpl hd_or.
  destruct (remove_repr _ [] _ _ _ Hr) as [Hr' Hfl].
  destruct (IH _ _ Hr') as [Hr2 Hfl2]; [simpl; lia|]. split; [exact Hr2|congruence].
Qed.

Lemma remove_n_elems_repr l cbs n :
  cblist_repr l cbs -> n <= length cbs ->
  cblist_repr (remove_n_elems l n) (drop n cbs) /\ l_flag (remove_n_elems l n) = l_flag l.
Proof.
  intros Hr Hn. unfold remove_n_elems. destruct (repr_first _ _ Hr) as [_ ->].
  destruct (Nat.eqb_spec n 0) as [->|]; [by rewrite drop_0|].
  destruct (Nat.ltb_spec (length cbs) n); [lia|]. simpl. by apply remove_n_repr.
Qed.

End facts.
