(* ===== verification/Double.v ===== *)
(** * Double: the C type [double]

    IEEE 754 binary64 numbers as the executable specification of the Standard
    Library ([spec_float] with 53 bits of precision), with the operations
    that the runtime uses on wall-clock times, and the order on numbers that
    are not NaN. *)

From S2P Require Import Prelude Heap.
From Corelib Require Import SpecFloat.

Definition double : Type := spec_float.

Definition dadd : double -> double -> double := SFadd 53 1024.
Definition dsub : double -> double -> double := SFsub 53 1024.
Definition dmul : double -> double -> double := SFmul 53 1024.
Definition ddiv : double -> double -> double := SFdiv 53 1024.
Definition dlt : double -> double -> bool := SFltb.
Definition dle : double -> double -> bool := SFleb.

(** Conversion from an integer, rounded to nearest. *)
Definition d_of_Z (z : Z) : double := binary_normalize 53 1024 z 0 false.

(** Conversion to an integer truncates; out of range the result is not
    defined by C and 0 stands for it. *)
Definition d_to_Z (d : double) : Z :=
  match d with
  | S754_finite s m e =>
      let a := if (0 <=? e)%Z then (Z.pos m * 2 ^ e)%Z else (Z.pos m / 2 ^ (- e))%Z in
      if s then (- a)%Z else a
  | _ => 0%Z
  end.

Definition is_nan (d : double) : bool := match d with S754_nan => true | _ => false end.

(** [fmin] and [fmax] of math.h: a NaN argument is ignored. *)
Definition fmin (a b : double) : double :=
  if is_nan a then b else if is_nan b then a else if dlt b a then b else a.
Definition fmax (a b : double) : double :=
  if is_nan a then b else if is_nan b then a else if dlt a b then b else a.

(** ** Order *)

(** A total preorder that agrees with [dlt] on numbers; NaN comes last. *)
Definition dkey (d : double) : Z * Z * Z :=
  match d with
  | S754_zero _ => (0, 0, 0)%Z
  | S754_infinity s => if s then (-2, 0, 0)%Z else (2, 0, 0)%Z
  | S754_nan => (3, 0, 0)%Z
  | S754_finite s m e => if s then (-1, - e, - Z.pos m)%Z else (1, e, Z.pos m)%Z
  end.

Definition key_lt (a b : Z * Z * Z) : bool :=
  let '(a1, a2, a3) := a in
  let '(b1, b2, b3) := b in
  (a1 <? b1)%Z || ((a1 =? b1)%Z && ((a2 <? b2)%Z || ((a2 =? b2)%Z && (a3 <? b3)%Z))).

Definition dgt (a b : double) : bool := key_lt (dkey b) (dkey a).

#[global] Instance dgt_order : GtOrder dgt.
Proof.
  split; unfold dgt.
  - intros a b. generalize (dkey a) (dkey b). intros [[a1 a2] a3] [[b1 b2] b3]. unfold key_lt. lia.
  - intros a b c. generalize (dkey a) (dkey b) (dkey c).
    intros [[a1 a2] a3] [[b1 b2] b3] [[c1 c2] c3]. unfold key_lt. lia.
Qed.

Lemma dlt_dgt a b : is_nan a = false -> is_nan b = false -> dlt a b = dgt b a.
Proof.
  unfold dlt, SFltb, dgt.
  destruct a as [sa|sa| |sa ma ea], b as [sb|sb| |sb mb eb]; try done; intros _ _;
    cbn [SFcompare]; try (by destruct sa); try (by destruct sb); try (by destruct sa, sb).
  destruct sa, sb; try done; unfold key_lt, dkey;
    change (Pos.compare_cont Eq ma mb) with (Pos.compare ma mb);
    destruct (Z.compare_spec ea eb), (Pos.compare_spec ma mb); cbn [CompOpp]; lia.
Qed.

Lemma dle_dgt a b : is_nan a = false -> is_nan b = false -> dle a b = negb (dgt a b).
Proof.
  intros Ha Hb. rewrite <- (dlt_dgt b a Hb Ha). revert Ha Hb. unfold dlt, dle, SFltb, SFleb.
  destruct a as [sa|sa| |sa ma ea], b as [sb|sb| |sb mb eb]; try done; intros _ _;
    simpl; try (by destruct sa); try (by destruct sb); try (by destruct sa, sb).
  change (Pos.compare_cont Eq ma mb) with (Pos.compare ma mb).
  change (Pos.compare_cont Eq mb ma) with (Pos.compare mb ma).
  rewrite (Z.compare_antisym ea eb), (Pos.compare_antisym ma mb).
  destruct sa, sb; try done; destruct (Z.compare_spec ea eb), (Pos.compare_spec ma mb); done.
Qed.
