(* ===== verification/CcdHeap.v ===== *)
(** * CcdHeap: the timer heap of conv-conds.c

    [ccd_heap_elem], [ccd_heap_swap], [expand_ccd_heap], [ccd_heap_insert],
    [ccd_heap_remove] and the first loop of [ccd_heap_update] of
    src/conv-core/conv-conds.c.  The heap occupies the cells 1 to
    [ccd_heaplen] of an array of [2*(ccd_heapmaxlen+1)] cells; the expired
    callbacks are moved to the cells from [ccd_heapmaxlen] on of the same
    array. *)

From S2P Require Import Prelude Heap Double Cblist.
Set Warnings "-clear-no-such-hyp".

Record ccd_heap_elem := mk_helem { h_time : double; h_cb : ccd_callback }.

#[global] Instance helem_inhabited : Inhabited ccd_heap_elem :=
  populate (mk_helem (d_of_Z 0) inhabitant).

(** [ch_heap] is the array, [ch_addr] tells apart the arrays allocated over
    time. *)
Record ccd_timers := mk_timers {
  ch_heap : list ccd_heap_elem;
  ccd_heaplen : nat;
  ccd_heapmaxlen : nat;
  ch_addr : nat
}.

Definition MAXTIMERHEAPENTRIES : nat := 128.

Section ops.
Context {U : Uninit}.

Definition uninit_helem : ccd_heap_elem := mk_helem (d_of_Z uninit_word) uninit_cb.

Definition timers_init : ccd_timers :=
  mk_timers (replicate (2 * (MAXTIMERHEAPENTRIES + 1)) uninit_helem) 0 MAXTIMERHEAPENTRIES 0.

Definition ccd_heap_swap (index1 index2 : nat) (h : list ccd_heap_elem) : list ccd_heap_elem :=
  let temp := h !!! index1 in
  let h := <[index1 := h !!! index2]> h in
  <[index2 := temp]> h.

Definition expand_ccd_heap (s : ccd_timers) : ccd_timers :=
  let oldlen := ccd_heapmaxlen s in
  let newlen := oldlen * 2 in
  let newheap :=
    take (oldlen + 1) (ch_heap s) ++ replicate (newlen - (oldlen + 1)) uninit_helem
    ++ take (oldlen + 1) (drop oldlen (ch_heap s))
    ++ replicate (2 * (newlen + 1) - (newlen + (oldlen + 1))) uninit_helem in
  mk_timers newheap (ccd_heaplen s) newlen (S (ch_addr s)).

(** The loop that moves the new element up. *)
Fixpoint insert_up (fuel : nat) (child : nat) (h : list ccd_heap_elem) : list ccd_heap_elem :=
  match fuel with
  | 0 => h
  | S fuel =>
      let parent := child / 2 in
      if (0 <? parent) && dlt (h_time (h !!! child)) (h_time (h !!! parent))
      then insert_up fuel parent (ccd_heap_swap child parent h)
      else h
  end.

Definition ccd_heap_insert (t : double) (cb : ccd_callback) (s : ccd_timers) : ccd_timers :=
  let s := if ccd_heapmaxlen s <=? ccd_heaplen s then expand_ccd_heap s else s in
  let len := S (ccd_heaplen s) in
  let h := <[len := mk_helem t cb]> (ch_heap s) in
  mk_timers (insert_up len len h) len (ccd_heapmaxlen s) (ch_addr s).

(** The loop that moves the element at the root down. *)
Fixpoint remove_down (fuel : nat) (len parent : nat) (h : list ccd_heap_elem) : list ccd_heap_elem :=
  match fuel with
  | 0 => h
  | S fuel =>
      let child := 2 * parent in
      if child <=? len then
        let child := if (child + 1 <=? len) && dlt (h_time (h !!! (child + 1))) (h_time (h !!! child))
                     then child + 1 else child in
        if dle (h_time (h !!! parent)) (h_time (h !!! child)) then h
        else remove_down fuel len child (ccd_heap_swap parent child h)
      else h
  end.

Definition ccd_heap_remove (s : ccd_timers) : ccd_timers :=
  if 0 <? ccd_heaplen s then
    let h := ccd_heap_swap 1 (ccd_heaplen s) (ch_heap s) in
    let len := ccd_heaplen s - 1 in
    mk_timers (if negb (len =? 0) then remove_down len len 1 h else h)
      len (ccd_heapmaxlen s) (ch_addr s)
  else s.

(** [e[ne++]=h[1]; ccd_heap_remove();] while the root has expired; [e] is
    the cell [ccd_heapmaxlen] of the heap's own array. *)
Fixpoint pull_expired (fuel : nat) (curWallTime : double) (ne : nat) (s : ccd_timers) : ccd_timers * nat :=
  match fuel with
  | 0 => (s, ne)
  | S fuel =>
      if (0 <? ccd_heaplen s) && dlt (h_time (ch_heap s !!! 1)) curWallTime then
        let h := <[ccd_heapmaxlen s + ne := ch_heap s !!! 1]> (ch_heap s) in
        let s := mk_timers h (ccd_heaplen s) (ccd_heapmaxlen s) (ch_addr s) in
        pull_expired fuel curWallTime (S ne) (ccd_heap_remove s)
      else (s, ne)
  end.

End ops.

(** ** Invariant *)

Definition tkey (h : list ccd_heap_elem) (i : nat) : double := h_time (h !!! i).

Definition no_nan (n : nat) (h : list ccd_heap_elem) : Prop :=
  Forall (fun e => is_nan (h_time e) = false) (cells n h).

Record timers_wf (s : ccd_timers) : Prop := {
  tw_size : length (ch_heap s) = 2 * (ccd_heapmaxlen s + 1);
  tw_len : ccd_heaplen s <= ccd_heapmaxlen s;
  tw_max : 1 <= ccd_heapmaxlen s;
  tw_heap : heap_ok dgt (tkey (ch_heap s)) (ccd_heaplen s);
  tw_nan : no_nan (ccd_heaplen s) (ch_heap s)
}.

(** The pending timers. *)
Definition pending (s : ccd_timers) : list ccd_heap_elem := cells (ccd_heaplen s) (ch_heap s).

Lemma ccd_heap_swap_swap i j h : ccd_heap_swap i j h = list_swap h i j.
Proof. done. Qed.

Lemma tkey_swap h i j x :
  i < length h -> j < length h -> tkey (list_swap h i j) x = swap_at (tkey h) i j x.
Proof. intros. unfold tkey, swap_at. rewrite list_swap_lookup by done. by bool_cases. Qed.

Lemma no_nan_cell n h i : no_nan n h -> n < length h -> 1 <= i <= n -> is_nan (tkey h i) = false.
Proof.
  intros Hn Hl Hi. unfold no_nan in Hn. rewrite Forall_forall in Hn. by apply Hn, cells_lookup.
Qed.

Lemma no_nan_rearranged n h h' : n < length h -> rearranged n h h' -> no_nan n h -> no_nan n h'.
Proof. intros Hl HR. unfold no_nan. by rewrite (rearranged_cells _ _ _ Hl HR). Qed.

Lemma insert_up_spec n fuel : forall h p,
  n < length h -> 1 <= p <= n -> p <= fuel -> no_nan n h -> up_inv dgt (tkey h) n p ->
  heap_ok dgt (tkey (insert_up fuel p h)) n /\ rearranged n h (insert_up fuel p h).
Proof.
  induction fuel as [|fuel IH]; intros h p Hl Hp Hf Hnan Hup; simpl; [lia|].
  destruct (decide (p = 1)) as [->|].
  { split; [apply (up_inv_done _ _ _ 1); [by left|done]|apply rearranged_refl]. }
  pose proof (half_bounds p) as Hhalf.
  destruct (Nat.ltb_spec 0 (p / 2)); [|lia]. simpl.
  rewrite (dlt_dgt (h_time _) (h_time _)) by (eapply no_nan_cell; eauto; lia).
  destruct (dgt (h_time (h !!! (p / 2))) (h_time (h !!! p))) eqn:E.
  - rewrite ccd_heap_swap_swap.
    assert (rearranged n h (list_swap h p (p / 2))) as HR by (apply list_swap_rearranged; lia).
    destruct (IH (list_swap h p (p / 2)) (p / 2)) as [Hok HR']; [len|lia|lia| | |].
    + by eapply no_nan_rearranged.
    + eapply up_inv_ext; [lia| |apply (up_inv_step dgt (tkey h) n p); [lia| |exact Hup]].
      * intros i Hi. symmetry. apply tkey_swap; lia.
      * unfold kle. by apply gt_asym.
    + split; [done|]. by eapply rearranged_trans.
  - split; [|apply rearranged_refl]. apply (up_inv_done _ _ _ p); [by right|done].
Qed.

(** The choice of the smaller child. *)
Lemma smaller_child n h p :
  n < length h -> no_nan n h -> 1 <= p -> 2 * p <= n ->
  let c := if (2 * p + 1 <=? n) && dlt (h_time (h !!! (2 * p + 1))) (h_time (h !!! (2 * p)))
           then 2 * p + 1 else 2 * p in
  2 <= c <= n /\ c / 2 = p /\ forall i, 2 <= i <= n -> i / 2 = p -> kle dgt (tkey h c) (tkey h i).
Proof.
  intros Hl Hnan Hp Hn c.
  assert ((2 * p) / 2 = p) as E0 by (symmetry; apply (Nat.div_unique _ _ _ 0); lia).
  assert ((2 * p + 1) / 2 = p) as E1 by (symmetry; apply (Nat.div_unique _ _ _ 1); lia).
  assert (forall i, 2 <= i -> i / 2 = p -> i = 2 * p \/ i = 2 * p + 1) as Hch
    by (intros i Hi; pose proof (half_bounds i); lia).
  unfold c. destruct (Nat.leb_spec (2 * p + 1) n); simpl.
  - rewrite (dlt_dgt (h_time _) (h_time _)) by (eapply no_nan_cell; eauto; lia).
    destruct (dgt _ _) eqn:E; (split; [lia|]; split; [done|]; intros i Hi Hip).
    + destruct (Hch i) as [->| ->]; try lia; [exact (kle_of_gt dgt _ _ E)|exact (kle_refl dgt _)].
    + destruct (Hch i) as [->| ->]; try lia; [exact (kle_refl dgt _)|exact E].
  - split; [lia|]. split; [done|]. intros i Hi Hip.
    destruct (Hch i) as [->| ->]; try lia. exact (kle_refl dgt _).
Qed.

Lemma remove_down_spec n fuel : forall h p,
  n < length h -> 1 <= p -> n < p + fuel -> no_nan n h -> down_inv dgt (tkey h) n p ->
  heap_ok dgt (tkey (remove_down fuel n p h)) n /\ rearranged n h (remove_down fuel n p h).
Proof.
  induction fuel as [|fuel IH]; intros h p Hl Hp Hf Hnan Hdown.
  { simpl. split; [|apply rearranged_refl]. apply (down_inv_done _ _ _ p); [|done].
    intros i Hi E. pose proof (half_bounds i). lia. }
  cbn [remove_down]. destruct (Nat.leb_spec (2 * p) n) as [Hn|Hn].
  - pose proof (smaller_child n h p Hl Hnan Hp Hn) as (Hc & Hcp & Hmin).
    set (c := if _ && _ then _ else _) in *. pose proof (half_bounds c) as Hhalf.
    rewrite dle_dgt by (eapply no_nan_cell; eauto; lia).
    destruct (dgt (h_time (h !!! p)) (h_time (h !!! c))) eqn:E; simpl.
    + rewrite ccd_heap_swap_swap.
      assert (rearranged n h (list_swap h p c)) as HR by (apply list_swap_rearranged; lia).
      destruct (IH (list_swap h p c) c) as [Hok HR']; [len|lia|lia| | |].
      * by eapply no_nan_rearranged.
      * eapply down_inv_ext; [lia| |apply (down_inv_step dgt (tkey h) n p c); try done].
        -- intros i Hi. symmetry. apply tkey_swap; lia.
        -- unfold kle. by apply gt_asym.
      * split; [done|]. by eapply rearranged_trans.
    + split; [|apply rearranged_refl]. apply (down_inv_done _ _ _ p); [|done].
      intros i Hi Hip. apply (kle_trans dgt _ (tkey h c)); [exact E|by apply Hmin].
  - split; [|apply rearranged_refl]. apply (down_inv_done _ _ _ p); [|done].
    intros i Hi E. pose proof (half_bounds i). lia.
Qed.

Lemma cells_S n (h : list ccd_heap_elem) : S n < length h -> cells (S n) h = cells n h ++ [h !!! S n].
Proof.
  intros Hn. rewrite <- (cells_snoc n h (h !!! S n)) by done.
  rewrite list_insert_id; [done|]. by apply list_lookup_lookup_total_lt.
Qed.

Section facts.
Context {U : Uninit}.

Lemma timers_init_wf : timers_wf timers_init.
Proof.
  unfold timers_init, MAXTIMERHEAPENTRIES. split; cbn -[Nat.mul]; try lia.
  - by rewrite length_replicate.
  - intros i Hi. lia.
  - constructor.
Qed.

Lemma expand_timers_wf s :
  timers_wf s -> ccd_heaplen s = ccd_heapmaxlen s ->
  timers_wf (expand_ccd_heap s) /\ pending (expand_ccd_heap s) = pending s.
Proof.
  intros [Hsz Hlen Hmax Hok Hnan] E. unfold expand_ccd_heap.
  set (old := ccd_heapmaxlen s) in *. set (h' := take _ _ ++ _).
  assert (forall i, i <= old -> h' !! i = ch_heap s !! i) as Hh.
  { intros i Hi. unfold h'. rewrite lookup_app_l by len. apply lookup_take_lt. lia. }
  assert (cells (ccd_heaplen s) h' = cells (ccd_heaplen s) (ch_heap s)) as Hc.
  { apply list_eq. intros i. unfold cells. destruct (decide (i < ccd_heaplen s)).
    - rewrite !lookup_take_lt, !lookup_drop by lia. apply Hh. lia.
    - by rewrite !lookup_take_ge by lia. }
  split; [|done]. split; simpl.
  - unfold h'. len.
  - lia.
  - lia.
  - eapply heap_ok_ext; [|exact Hok]. intros i Hi. unfold tkey.
    by rewrite !list_lookup_total_alt, Hh by lia.
  - unfold no_nan. by rewrite Hc.
Qed.

Lemma insert_room_wf s t cb :
  timers_wf s -> is_nan t = false -> ccd_heaplen s < ccd_heapmaxlen s ->
  timers_wf (ccd_heap_insert t cb s) /\
  pending (ccd_heap_insert t cb s) ≡ₚ mk_helem t cb :: pending s /\
  ch_addr (ccd_heap_insert t cb s) = ch_addr s /\
  ccd_heapmaxlen (ccd_heap_insert t cb s) = ccd_heapmaxlen s /\
  ccd_heaplen (ccd_heap_insert t cb s) = S (ccd_heaplen s) /\
  (forall i, S (ccd_heaplen s) < i -> ch_heap (ccd_heap_insert t cb s) !!! i = ch_heap s !!! i).
Proof.
  intros [Hsz Hlen Hmax Hok Hnan] Ht Hroom. unfold ccd_heap_insert.
  destruct (Nat.leb_spec (ccd_heapmaxlen s) (ccd_heaplen s)); [lia|].
  set (n := ccd_heaplen s) in *. set (h := <[S n := mk_helem t cb]> (ch_heap s)).
  assert (cells (S n) h = cells n (ch_heap s) ++ [mk_helem t cb]) as Hc by (apply cells_snoc; lia).
  destruct (insert_up_spec (S n) (S n) h (S n)) as [Hok' HR].
  - unfold h. len.
  - lia.
  - lia.
  - unfold no_nan. rewrite Hc. apply Forall_app. split; [done|]. by constructor.
  - eapply up_inv_last, heap_ok_ext; [|exact Hok].
    intros i Hi. unfold tkey, h. by rewrite list_lookup_total_insert_ne by lia.
  - assert (S n < length h) as Hlh by (unfold h; len).
    assert (cells (S n) (insert_up (S n) (S n) h) ≡ₚ mk_helem t cb :: pending s) as Hp.
    { rewrite (rearranged_cells _ _ _ Hlh HR), Hc. symmetry. apply Permutation_cons_append. }
    split; [|split_and!; try done].
    2:{ intros i Hi. cbn [ch_heap]. rewrite (rearranged_frame _ _ _ HR) by lia.
        unfold h. by rewrite list_lookup_total_insert_ne by lia. }
    split; cbn [ch_heap ccd_heaplen ccd_heapmaxlen].
    + rewrite (rearranged_length _ _ _ HR). unfold h. len.
    + lia.
    + lia.
    + done.
    + unfold no_nan. rewrite Hp. constructor; [done|exact Hnan].
Qed.

Lemma insert_wf s t cb :
  timers_wf s -> is_nan t = false ->
  timers_wf (ccd_heap_insert t cb s) /\
  pending (ccd_heap_insert t cb s) ≡ₚ mk_helem t cb :: pending s.
Proof.
  intros Hwf Ht. destruct (decide (ccd_heaplen s < ccd_heapmaxlen s)) as [Hr|Hr].
  { by destruct (insert_room_wf s t cb Hwf Ht Hr) as (? & ? & _). }
  pose proof (tw_len _ Hwf) as Hlen. pose proof (tw_max _ Hwf).
  destruct (expand_timers_wf s Hwf) as [Hwf' Hp]; [lia|].
  assert (ccd_heap_insert t cb s = ccd_heap_insert t cb (expand_ccd_heap s)) as ->.
  { unfold ccd_heap_insert. destruct (Nat.leb_spec (ccd_heapmaxlen s) (ccd_heaplen s)); [|lia].
    destruct (Nat.leb_spec (ccd_heapmaxlen (expand_ccd_heap s)) (ccd_heaplen (expand_ccd_heap s)))
      as [Hb|]; [|done]. simpl in Hb. lia. }
  destruct (insert_room_wf (expand_ccd_heap s) t cb Hwf' Ht) as (? & Hi & _); [simpl; lia|].
  split; [done|]. by rewrite Hi, Hp.
Qed.

Lemma remove_wf s :
  timers_wf s -> 0 < ccd_heaplen s ->
  timers_wf (ccd_heap_remove s) /\
  pending s ≡ₚ (ch_heap s !!! 1) :: pending (ccd_heap_remove s) /\
  ccd_heaplen (ccd_heap_remove s) = ccd_heaplen s - 1 /\
  ccd_heapmaxlen (ccd_heap_remove s) = ccd_heapmaxlen s /\
  ch_addr (ccd_heap_remove s) = ch_addr s /\
  (forall i, ccd_heaplen s < i -> ch_heap (ccd_heap_remove s) !!! i = ch_heap s !!! i).
Proof.
  intros [Hsz Hlen Hmax Hok Hnan] Hpos. unfold ccd_heap_remove.
  destruct (Nat.ltb_spec 0 (ccd_heaplen s)); [|lia]. rewrite ccd_heap_swap_swap.
  destruct (ccd_heaplen s) as [|n] eqn:En; [lia|]. rewrite Nat.sub_1_r. cbn [Nat.pred].
  set (h := list_swap (ch_heap s) 1 (S n)).
  assert (length h = length (ch_heap s)) as Hlh by (unfold h; len).
  assert (rearranged (S n) (ch_heap s) h) as HR by (apply list_swap_rearranged; lia).
  assert (cells (S n) (ch_heap s) ≡ₚ (ch_heap s !!! 1) :: cells n h) as Hp.
  { rewrite <- (rearranged_cells (S n) (ch_heap s) h), (cells_S n h) by (done || lia).
    assert (h !!! S n = ch_heap s !!! 1) as ->; [|symmetry; apply Permutation_cons_append].
    unfold h. rewrite list_swap_lookup by lia. bool_cases; try lia; [|done]. by f_equal. }
  assert (no_nan n h) as Hnan'.
  { unfold no_nan in Hnan. rewrite Hp in Hnan. by inversion Hnan. }
  assert (heap_ok dgt (tkey (remove_down n n 1 h)) n /\ rearranged n h (remove_down n n 1 h)) as [Hok' HR'].
  { apply remove_down_spec; [lia|lia|lia|done|].
    apply (down_inv_root dgt (tkey (ch_heap s))); [apply (heap_ok_shrink _ _ (S n)); [lia|done]|].
    intros i Hi. unfold h. rewrite tkey_swap by lia. unfold swap_at. by bool_cases; try lia. }
  assert ((if negb (n =? 0) then remove_down n n 1 h else h) = remove_down n n 1 h) as ->
    by (destruct n; done).
  assert (cells n (remove_down n n 1 h) ≡ₚ cells n h) as Hc by (apply rearranged_cells; [lia|done]).
  split; [|split; [|split_and!]]; try done; cbn [ch_heap ccd_heaplen ccd_heapmaxlen].
  - split; simpl; try lia.
    + rewrite (rearranged_length _ _ _ HR'). lia.
    + done.
    + unfold no_nan. by rewrite Hc.
  - unfold pending. cbn [ch_heap ccd_heaplen]. rewrite En, Hp. by rewrite Hc.
  - intros i Hi. rewrite (rearranged_frame _ _ _ HR') by lia. apply (rearranged_frame _ _ _ HR). lia.
Qed.

(** Writing an expired entry above the heap. *)
Lemma stash_wf s i e :
  timers_wf s -> ccd_heaplen s < i ->
  let s' := mk_timers (<[i := e]> (ch_heap s)) (ccd_heaplen s) (ccd_heapmaxlen s) (ch_addr s) in
  timers_wf s' /\ pending s' = pending s.
Proof.
  intros [Hsz Hlen Hmax Hok Hnan] Hi s'.
  assert (pending s' = pending s) as Hp by (by apply cells_insert_ge).
  split; [|done]. split; simpl; try done.
  - by rewrite length_insert.
  - eapply heap_ok_ext; [|exact Hok]. intros k Hk. unfold tkey.
    by rewrite list_lookup_total_insert_ne by lia.
  - unfold no_nan. by rewrite cells_insert_ge.
Qed.

Definition time_le (a b : ccd_heap_elem) : Prop := dgt (h_time a) (h_time b) = false.

Lemma root_le_pending s e : timers_wf s -> e ∈ pending s -> time_le (ch_heap s !!! 1) e.
Proof.
  intros [Hsz Hlen Hmax Hok _] (i & Hi & <-)%elem_of_cells; [|lia].
  apply (heap_root_min dgt (tkey (ch_heap s)) _ _ Hok Hi).
Qed.

(** What the first loop of [ccd_heap_update] leaves when the heap does not
    reach the cells of the expired entries. *)
Lemma pull_expired_spec cur fuel : forall s ne,
  timers_wf s -> is_nan cur = false -> ccd_heaplen s <= fuel ->
  ccd_heaplen s + ne < ccd_heapmaxlen s ->
  exists s' ex, pull_expired fuel cur ne s = (s', ne + length ex) /\ timers_wf s' /\
    pending s ≡ₚ ex ++ pending s' /\ StronglySorted time_le ex /\
    Forall (fun e => dlt (h_time e) cur = true) ex /\
    Forall (fun e => dlt (h_time e) cur = false) (pending s') /\
    ccd_heapmaxlen s' = ccd_heapmaxlen s /\ ch_addr s' = ch_addr s /\
    ccd_heaplen s' + length ex = ccd_heaplen s /\
    (forall i e, ex !! i = Some e -> ch_heap s' !!! (ccd_heapmaxlen s + ne + i) = e) /\
    (forall i, i < ne -> ch_heap s' !!! (ccd_heapmaxlen s + i) = ch_heap s !!! (ccd_heapmaxlen s + i)).
Proof.
  induction fuel as [|fuel IH]; intros s ne Hwf Hcur Hf Hroom; cbn [pull_expired].
  { exists s, []. rewrite Nat.add_0_r. assert (pending s = []) as Hp by (unfold pending; by replace (ccd_heaplen s) with 0 by lia).
    rewrite Hp. split_and!; try done; try constructor; cbn; lia. }
  pose proof Hwf as [Hsz Hlen Hmax Hok Hnan].
  destruct (Nat.ltb_spec 0 (ccd_heaplen s)) as [Hpos|Hpos]; simpl.
  2:{ exists s, []. rewrite Nat.add_0_r. assert (pending s = []) as Hp by (unfold pending; by replace (ccd_heaplen s) with 0 by lia).
      rewrite Hp. split_and!; try done; try constructor; cbn; lia. }
  destruct (dlt (h_time (ch_heap s !!! 1)) cur) eqn:E.
  - destruct (stash_wf s (ccd_heapmaxlen s + ne) (ch_heap s !!! 1) Hwf) as [Hwf1 Hp1]; [lia|].
    set (s1 := mk_timers _ _ _ _) in *.
    assert (ch_heap s1 !!! 1 = ch_heap s !!! 1) as Hroot
      by (unfold s1; simpl; by rewrite list_lookup_total_insert_ne by lia).
    destruct (remove_wf s1 Hwf1) as (Hwf2 & Hp2 & Hl2 & Hm2 & Ha2 & Hfr2); [done|].
    rewrite Hp1, Hroot in Hp2. simpl in Hl2, Hm2, Ha2, Hfr2.
    destruct (IH (ccd_heap_remove s1) (S ne) Hwf2 Hcur) as
      (s' & ex & -> & Hwf' & Hpend & Hsort & Hex & Hrest & Hm & Ha & Hn & Hcell & Hold); [lia|lia|].
    rewrite Hm2 in Hm, Hcell, Hold.
    exists s', (ch_heap s !!! 1 :: ex). split_and!; try done.
    + f_equal. simpl. lia.
    + by rewrite Hp2, Hpend.
    + constructor; [done|]. apply Forall_forall. intros e He. apply root_le_pending; [done|].
      rewrite Hp2, Hpend. set_solver.
    + by constructor.
    + congruence.
    + simpl. lia.
    + intros [|i] e He; simpl in He.
      * injection He as <-. rewrite Nat.add_0_r, Hold by lia. rewrite Hfr2 by lia.
        by rewrite list_lookup_total_insert_eq by lia.
      * replace (ccd_heapmaxlen s + ne + S i) with (ccd_heapmaxlen s + S ne + i) by lia. by apply Hcell.
    + intros i Hi. rewrite Hold, Hfr2 by lia. by rewrite list_lookup_total_insert_ne by lia.
  - exists s, []. rewrite Nat.add_0_r. split_and!; try done; try constructor; try (cbn; lia).
    apply Forall_forall. intros e He. pose proof (root_le_pending _ _ Hwf He) as Hle.
    assert (is_nan (h_time e) = false) as He' by (by eapply (Forall_forall _ (pending s)) in Hnan).
    assert (is_nan (h_time (ch_heap s !!! 1)) = false) as Hr'
      by (by apply (no_nan_cell (ccd_heaplen s)); [|lia|lia]).
    rewrite dlt_dgt in E by done. rewrite dlt_dgt by done. by apply (kle_trans dgt _ _ _ E).
Qed.

End facts.
