(* ===== verification/Conds.v ===== *)
(** * Conds: conditional, periodic and timed callbacks (conv-conds.c)

    The per-processor state of src/conv-core/conv-conds.c and its entry
    points: registering and cancelling callbacks on conditions, raising a
    condition, timed callbacks, the polling resolution, and [CcdCallBacks],
    which the scheduler runs between messages.  Callbacks may themselves call
    the entry points while the lists and the heap are being traversed, so
    every traversal re-reads the state after each call. *)

From S2P Require Import Prelude Heap Double Cblist CcdHeap.
Set Warnings "-clear-no-such-hyp".

Definition MAXNUMCONDS : nat := 128.
Definition CcdPROCESSOR_END_IDLE : nat := 0.
Definition CcdPROCESSOR_BEGIN_IDLE : nat := 1.
Definition CcdPERIODIC : nat := 3.
Definition CcdIGNOREPE : Z := -2.
Definition CCD_PERIODIC_MAX : nat := 13.

Definition periodicCallInterval : list double :=
  [ddiv (d_of_Z 1) (d_of_Z 1000); ddiv (d_of_Z 1) (d_of_Z 100); ddiv (d_of_Z 1) (d_of_Z 10);
   d_of_Z 1; d_of_Z 5; d_of_Z 10; d_of_Z 60; d_of_Z 120; d_of_Z 300; d_of_Z 600; d_of_Z 3600;
   d_of_Z (12 * 3600); d_of_Z (24 * 3600)].

Definition CCD_DEFAULT_RESOLUTION : double := ddiv (d_of_Z 5) (d_of_Z 1000).

Record ccd_periodic_callbacks := mk_pcb {
  nSkip : Z;
  lastCheck : double;
  resolution : double;
  nextCall : list double
}.

(** [called] records the invocations of callbacks, oldest first. *)
Record ccd := mk_ccd {
  condcb : list ccd_cblist;
  condcb_keep : list ccd_cblist;
  timers : ccd_timers;
  pcb : ccd_periodic_callbacks;
  ccd_numchecks : Z;
  called : list (ccd_callback * double)
}.

#[global] Instance cblist_inhabited : Inhabited ccd_cblist := populate (mk_cblist 0 0 0 0 0 false []).
#[global] Instance double_inhabited : Inhabited double := populate (d_of_Z 0).

(** The result of code that runs callbacks: it returns, it fails an assertion
    or reads freed memory, or the bound on nested invocations is reached. *)
Inductive exec (A : Type) := Done (a : A) | Crash | NoFuel.
Arguments Done {A} a.
Arguments Crash {A}.
Arguments NoFuel {A}.

#[global] Instance exec_ret : MRet exec := @Done.
#[global] Instance exec_bind : MBind exec := fun A B f m =>
  match m with Done a => f a | Crash => Crash | NoFuel => NoFuel end.

Definition set_condcb c l s :=
  mk_ccd (<[c := l]> (condcb s)) (condcb_keep s) (timers s) (pcb s) (ccd_numchecks s) (called s).
Definition set_condcb_keep c l s :=
  mk_ccd (condcb s) (<[c := l]> (condcb_keep s)) (timers s) (pcb s) (ccd_numchecks s) (called s).
Definition set_timers t s :=
  mk_ccd (condcb s) (condcb_keep s) t (pcb s) (ccd_numchecks s) (called s).
Definition set_pcb p s :=
  mk_ccd (condcb s) (condcb_keep s) (timers s) p (ccd_numchecks s) (called s).
Definition set_numchecks n s :=
  mk_ccd (condcb s) (condcb_keep s) (timers s) (pcb s) n (called s).
Definition log_call cb t s :=
  mk_ccd (condcb s) (condcb_keep s) (timers s) (pcb s) (ccd_numchecks s) (called s ++ [(cb, t)]).
Definition set_flag b l :=
  mk_cblist (l_maxlen l) (l_len l) (l_first l) (l_last l) (l_first_free l) b (l_elems l).

(** What a callback may do; [now] is what [CmiWallTimer] returns to it. *)
Inductive ccd_action :=
  | ActOnCondition (keep : bool) (condnum : nat) (cb : ccd_callback)
  | ActCancel (keep : bool) (condnum : nat) (idx : Z)
  | ActFnAfter (cb : ccd_callback) (deltaT now : double)
  | ActRaise (condnum : nat) (now : double)
  | ActMinResolution (newResolution minResolution now : double)
  | ActResetResolution
  | ActReset (curWallTime : double).

Section ops.
Context {U : Uninit}.

(** [CcdCallOnCondition...(condnum, ...)], which differ in the list and in
    the processor they store. *)
Definition CcdCallOnConditionOnPE (condnum : nat) (cb : ccd_callback) (s : ccd) : exec (ccd * Z) :=
  if condnum <? MAXNUMCONDS then
    let '(l, idx) := append_elem (condcb s !!! condnum) cb in
    Done (set_condcb condnum l s, idx)
  else Crash.

Definition CcdCallOnConditionKeepOnPE (condnum : nat) (cb : ccd_callback) (s : ccd) : exec (ccd * Z) :=
  if condnum <? MAXNUMCONDS then
    let '(l, idx) := append_elem (condcb_keep s !!! condnum) cb in
    Done (set_condcb_keep condnum l s, idx)
  else Crash.

Definition CcdCallOnCondition (condnum : nat) (fn arg : ptr) : ccd -> exec (ccd * Z) :=
  CcdCallOnConditionOnPE condnum (mk_cb fn arg CcdIGNOREPE).

Definition CcdCallOnConditionKeep (condnum : nat) (fn arg : ptr) : ccd -> exec (ccd * Z) :=
  CcdCallOnConditionKeepOnPE condnum (mk_cb fn arg CcdIGNOREPE).

Definition CcdCancelCallOnCondition (condnum : nat) (idx : Z) (s : ccd) : exec ccd :=
  if condnum <? MAXNUMCONDS
  then Done (set_condcb condnum (remove_elem (condcb s !!! condnum) idx) s) else Crash.

Definition CcdCancelCallOnConditionKeep (condnum : nat) (idx : Z) (s : ccd) : exec ccd :=
  if condnum <? MAXNUMCONDS
  then Done (set_condcb_keep condnum (remove_elem (condcb_keep s !!! condnum) idx) s) else Crash.

Definition CcdCallFnAfterOnPE (cb : ccd_callback) (deltaT now : double) (s : ccd) : ccd :=
  let tcall := dadd now (ddiv deltaT (d_of_Z 1000)) in
  set_timers (ccd_heap_insert tcall cb (timers s)) s.

Definition CcdCallFnAfter (fn arg : ptr) (deltaT now : double) : ccd -> ccd :=
  CcdCallFnAfterOnPE (mk_cb fn arg CcdIGNOREPE) deltaT now.

Definition CcdCallBacksReset (curWallTime : double) (s : ccd) : ccd :=
  set_numchecks 1
    (set_pcb (mk_pcb 1 curWallTime (resolution (pcb s)) (nextCall (pcb s))) s).

Definition CcdSetMinResolution (newResolution minResolution now : double) (s : ccd) : ccd * double :=
  let o := pcb s in
  let oldResolution := resolution o in
  let r := fmin newResolution minResolution in
  let s := set_pcb (mk_pcb (nSkip o) (lastCheck o) r (nextCall o)) s in
  let s := if dlt r oldResolution then CcdCallBacksReset now s else s in
  (s, oldResolution).

Definition CcdSetResolution (newResolution now : double) : ccd -> ccd * double :=
  CcdSetMinResolution newResolution CCD_DEFAULT_RESOLUTION now.

Definition CcdResetResolution (s : ccd) : ccd * double :=
  let o := pcb s in
  (set_pcb (mk_pcb (nSkip o) (lastCheck o) CCD_DEFAULT_RESOLUTION (nextCall o)) s, resolution o).

Definition CcdIncreaseResolution (newResolution now : double) (s : ccd) : ccd * double :=
  CcdSetMinResolution newResolution (resolution (pcb s)) now s.

(** ** Running callbacks *)

Section with_call.
Variable call : ccd_callback -> double -> ccd -> exec ccd.

(** [for(i=0, idx=l->first;i<len;i++)] over the list that [sel] selects. *)
Fixpoint call_loop (sel : ccd -> ccd_cblist) (n : nat) (idx : Z) (curWallTime : double) (s : ccd) : exec ccd :=
  match n with
  | 0 => Done s
  | S n =>
      s ← call (c_cb (at_ (l_elems (sel s)) idx)) curWallTime s;
      call_loop sel n (c_next (at_ (l_elems (sel s)) idx)) curWallTime s
  end.

Definition call_cblist_keep (condnum : nat) (curWallTime : double) (s : ccd) : exec ccd :=
  let sel s := condcb_keep s !!! condnum in
  call_loop sel (l_len (sel s)) (l_first (sel s)) curWallTime s.

Definition call_cblist_remove (condnum : nat) (curWallTime : double) (s : ccd) : exec ccd :=
  let sel s := condcb s !!! condnum in
  let len := l_len (sel s) in
  if l_flag (sel s) then Done s
  else
    let s := set_condcb condnum (set_flag true (sel s)) s in
    s ← call_loop sel len (l_first (sel s)) curWallTime s;
    Done (set_condcb condnum (set_flag false (remove_n_elems (sel s) len)) s).

Definition CcdRaiseCondition (condnum : nat) (now : double) (s : ccd) : exec ccd :=
  if condnum <? MAXNUMCONDS then
    s ← call_cblist_remove condnum now s;
    call_cblist_keep condnum now s
  else Crash.

(** The second loop of [ccd_heap_update]: [e] points into the array that was
    current before the first call, so reading [e[i]] after that array was
    replaced reads freed memory. *)
Fixpoint call_expired (addr emax i n : nat) (curWallTime : double) (s : ccd) : exec ccd :=
  match n with
  | 0 => Done s
  | S n =>
      if ch_addr (timers s) =? addr then
        s ← call (h_cb (ch_heap (timers s) !!! (emax + i))) curWallTime s;
        call_expired addr emax (S i) n curWallTime s
      else Crash
  end.

Definition ccd_heap_update (curWallTime : double) (s : ccd) : exec ccd :=
  let '(t, ne) := pull_expired (ccd_heaplen (timers s)) curWallTime 0 (timers s) in
  call_expired (ch_addr t) (ccd_heapmaxlen t) 0 ne curWallTime (set_timers t s).

Definition run_action (a : ccd_action) (s : ccd) : exec ccd :=
  match a with
  | ActOnCondition keep condnum cb =>
      '(s, _) ← (if keep then CcdCallOnConditionKeepOnPE condnum cb s
                 else CcdCallOnConditionOnPE condnum cb s);
      Done s
  | ActCancel keep condnum idx =>
      if keep then CcdCancelCallOnConditionKeep condnum idx s
      else CcdCancelCallOnCondition condnum idx s
  | ActFnAfter cb deltaT now => Done (CcdCallFnAfterOnPE cb deltaT now s)
  | ActRaise condnum now => CcdRaiseCondition condnum now s
  | ActMinResolution r m now => Done (fst (CcdSetMinResolution r m now s))
  | ActResetResolution => Done (fst (CcdResetResolution s))
  | ActReset t => Done (CcdCallBacksReset t s)
  end.

Fixpoint run_actions (l : list ccd_action) (s : ccd) : exec ccd :=
  match l with
  | [] => Done s
  | a :: l => s ← run_action a s; run_actions l s
  end.

End with_call.

(** [prog] says what each callback does when it is called. *)
Variable prog : ccd_callback -> double -> list ccd_action.

(** [fuel] bounds the depth of nested invocations. *)
Fixpoint invoke (fuel : nat) (cb : ccd_callback) (curWallTime : double) (s : ccd) : exec ccd :=
  match fuel with
  | 0 => NoFuel
  | S fuel => run_actions (invoke fuel) (prog cb curWallTime) (log_call cb curWallTime s)
  end.

(** [nSkip] for the next round. *)
Definition adjust_nSkip (o : ccd_periodic_callbacks) (curWallTime : double) : Z :=
  let nskip := u32 (nSkip o) in
  let elapsed := dsub curWallTime (lastCheck o) in
  let nskip :=
    if dlt (d_of_Z 0) elapsed
    then u32 (i32 (d_to_Z (dmul (d_of_Z nskip)
           (fmax (ddiv (d_of_Z 1) (d_of_Z 2)) (fmin (d_of_Z 2) (ddiv (resolution o) elapsed))))))
    else nskip in
  if (nskip <? 1)%Z then 1%Z else if (20 <? nskip)%Z then 20%Z else nskip.

(** The loop over the periodic conditions; [now i] is the time that
    [CcdRaiseCondition] reads for the [i]th one. *)
Fixpoint raise_periodic (fuel : nat) (now : nat -> double) (i n : nat) (curWallTime : double) (s : ccd) :
    exec ccd :=
  match n with
  | 0 => Done s
  | S n =>
      if dle (nextCall (pcb s) !!! i) curWallTime then
        s ← CcdRaiseCondition (invoke fuel) (CcdPERIODIC + i) (now i) s;
        let o := pcb s in
        let next := <[i := dadd curWallTime (periodicCallInterval !!! i)]> (nextCall o) in
        raise_periodic fuel now (S i) n curWallTime
          (set_pcb (mk_pcb (nSkip o) (lastCheck o) (resolution o) next) s)
      else Done s
  end.

Definition CcdCallBacks (fuel : nat) (curWallTime : double) (now : nat -> double) (s : ccd) : exec ccd :=
  let o := pcb s in
  let nskip := adjust_nSkip o curWallTime in
  let s := set_numchecks nskip
             (set_pcb (mk_pcb nskip curWallTime (resolution o) (nextCall o)) s) in
  s ← ccd_heap_update (invoke fuel) curWallTime s;
  raise_periodic fuel now 0 CCD_PERIODIC_MAX curWallTime s.

(** [reset_fn] is the address of [CcdCallBacksReset]. *)
Definition CcdModuleInit (reset_fn : ptr) (curTime : double) : exec ccd :=
  let lists := replicate MAXNUMCONDS (init_cblist CBLIST_INIT_LEN) in
  let s := mk_ccd lists lists timers_init
             (mk_pcb 1 curTime CCD_DEFAULT_RESOLUTION (dadd curTime <$> periodicCallInterval)) 1 [] in
  '(s, _) ← CcdCallOnConditionKeep CcdPROCESSOR_BEGIN_IDLE reset_fn 0%Z s;
  '(s, _) ← CcdCallOnConditionKeep CcdPROCESSOR_END_IDLE reset_fn 0%Z s;
  Done s.

End ops.
