(* ===== verification/CondsFacts.v ===== *)
(** * CondsFacts: what conv-conds.c promises

    Callbacks that register further callbacks while they run: each callback
    that was registered when a condition is raised is called exactly once, in
    order, and what is registered meanwhile stays for the next time; expired
    timers are called in the order of their times; and where the code fails
    to deliver this. *)

From S2P Require Import Prelude Heap Double Cblist CcdHeap Conds.
Set Warnings "-clear-no-such-hyp".

Definition clist (keep : bool) (c : nat) (s : ccd) : ccd_cblist :=
  if keep then condcb_keep s !!! c else condcb s !!! c.

(** ** What a sequence of registrations adds *)

Definition reg_of (keep : bool) (c : nat) (a : ccd_action) : list ccd_callback :=
  match a with
  | ActOnCondition k c' cb => if Bool.eqb k keep && (c =? c') then [cb] else []
  | _ => []
  end.
Definition regs keep c (acts : list ccd_action) : list ccd_callback := concat (reg_of keep c <$> acts).

Definition timer_of (a : ccd_action) : list ccd_heap_elem :=
  match a with
  | ActFnAfter cb deltaT now => [mk_helem (dadd now (ddiv deltaT (d_of_Z 1000))) cb]
  | _ => []
  end.
Definition timers_of (acts : list ccd_action) : list ccd_heap_elem := concat (timer_of <$> acts).

(** The action registers a callback on a valid condition or at a time that is
    a number. *)
Definition registers (a : ccd_action) : Prop :=
  match a with
  | ActOnCondition _ c _ => c < MAXNUMCONDS
  | ActFnAfter _ deltaT now => is_nan (dadd now (ddiv deltaT (d_of_Z 1000))) = false
  | _ => False
  end.

Definition sized (s : ccd) : Prop := length (condcb s) = MAXNUMCONDS /\ length (condcb_keep s) = MAXNUMCONDS.

(** [s'] is [s] after the registrations [acts]. *)
Record reg_ext (acts : list ccd_action) (s s' : ccd) : Prop := {
  re_list keep c hs : c < MAXNUMCONDS -> cblist_repr (clist keep c s) hs ->
    exists hs', cblist_repr (clist keep c s') (hs ++ hs') /\ hs'.*2 = regs keep c acts;
  re_flag keep c : c < MAXNUMCONDS -> l_flag (clist keep c s') = l_flag (clist keep c s);
  re_sized : sized s -> sized s';
  re_timers : timers_wf (timers s) -> timers_wf (timers s') /\
    pending (timers s') ≡ₚ timers_of acts ++ pending (timers s)
}.

Lemma regs_app keep c l1 l2 : regs keep c (l1 ++ l2) = regs keep c l1 ++ regs keep c l2.
Proof. unfold regs. by rewrite fmap_app, concat_app. Qed.

Lemma timers_of_app l1 l2 : timers_of (l1 ++ l2) = timers_of l1 ++ timers_of l2.
Proof. unfold timers_of. by rewrite fmap_app, concat_app. Qed.

Lemma reg_ext_refl s : reg_ext [] s s.
Proof. split; try done. intros keep c hs _ Hr. exists []. by rewrite app_nil_r. Qed.

Lemma reg_ext_trans l1 l2 s1 s2 s3 :
  reg_ext l1 s1 s2 -> reg_ext l2 s2 s3 -> reg_ext (l1 ++ l2) s1 s3.
Proof.
  intros [H1 F1 S1 T1] [H2 F2 S2 T2]. split.
  - intros keep c hs Hc Hr. destruct (H1 _ _ _ Hc Hr) as (n1 & Hr1 & E1).
    destruct (H2 _ _ _ Hc Hr1) as (n2 & Hr2 & E2). exists (n1 ++ n2).
    rewrite app_assoc, fmap_app, regs_app, E1, E2. done.
  - intros keep c Hc. by rewrite F2, F1.
  - auto.
  - intros Hwf. destruct (T1 Hwf) as [Hwf1 P1]. destruct (T2 Hwf1) as [Hwf2 P2].
    split; [done|]. rewrite P2, P1, timers_of_app, !app_assoc. f_equiv. apply Permutation_app_comm.
Qed.

Lemma clist_set keep c k c' l s :
  sized s -> c < MAXNUMCONDS ->
  clist keep c (if k : bool then set_condcb_keep c' l s else set_condcb c' l s) =
  if Bool.eqb k keep && (c =? c') then l else clist keep c s.
Proof.
  intros [S1 S2] Hc. destruct k, keep; simpl; try done;
    (destruct (Nat.eqb_spec c c') as [->|];
     [by rewrite list_lookup_total_insert_eq by lia|by rewrite list_lookup_total_insert_ne]).
Qed.

Section facts.
Context {U : Uninit}.
Variable call : ccd_callback -> double -> ccd -> exec ccd.

Lemma run_action_ext a s :
  registers a -> sized s ->
  exists s', run_action call a s = Done s' /\ reg_ext [a] s s' /\ called s' = called s.
Proof.
  destruct a as [k c' cb| |cb deltaT now| | | |]; simpl; intros Ha Hs; try done.
  - set (l := clist k c' s). destruct (append_elem l cb) as [l' idx] eqn:E.
    exists (if k then set_condcb_keep c' l' s else set_condcb c' l' s). split_and!.
    + unfold l in E. unfold CcdCallOnConditionKeepOnPE, CcdCallOnConditionOnPE.
      apply Nat.ltb_lt in Ha. rewrite Ha. destruct k; simpl in E; by rewrite E.
    + split.
      * intros keep c hs Hc Hr. rewrite clist_set by done. unfold regs. simpl. rewrite app_nil_r.
        destruct (Bool.eqb k keep && (c =? c')) eqn:Eq; [|exists []; by rewrite app_nil_r].
        apply andb_true_iff in Eq as [->%Bool.eqb_prop ->%Nat.eqb_eq].
        pose proof (append_repr _ _ cb Hr) as Happ. fold l in Happ. rewrite E in Happ.
        destruct Happ as (i & _ & _ & Hr' & _). by exists [(i, cb)].
      * intros keep c Hc. rewrite clist_set by done.
        destruct (Bool.eqb k keep && (c =? c')) eqn:Eq; [|done].
        apply andb_true_iff in Eq as [->%Bool.eqb_prop ->%Nat.eqb_eq].
        fold l. unfold append_elem in E. by destruct (l_len l =? l_maxlen l); simplify_eq/=.
      * destruct k; unfold sized; simpl; by rewrite length_insert.
      * destruct k; simpl; done.
    + by destruct k.
  - eexists. split; [done|]. split; [|done]. split.
    + intros keep c hs _ Hr. exists []. rewrite app_nil_r. by destruct keep.
    + intros keep c Hc. by destruct keep.
    + done.
    + intros Hwf. simpl. apply insert_wf; [done|exact Ha].
Qed.

Lemma run_actions_ext acts : forall s,
  Forall registers acts -> sized s ->
  exists s', run_actions call acts s = Done s' /\ reg_ext acts s s' /\ called s' = called s.
Proof.
  induction acts as [|a acts IH]; intros s Hall Hs; simpl.
  { exists s. split_and!; [done|apply reg_ext_refl|done]. }
  inversion_clear Hall as [|? ? Ha Hacts].
  destruct (run_action_ext a s Ha Hs) as (s1 & -> & He & Hc). simpl.
  destruct (IH s1 Hacts (re_sized _ _ _ He Hs)) as (s2 & -> & He2 & Hc2).
  exists s2. split_and!; [done|by apply (reg_ext_trans [a] acts _ s1)|congruence].
Qed.

End facts.

Section progs.
Context {U : Uninit}.
Variable prog : ccd_callback -> double -> list ccd_action.
Hypothesis prog_registers : forall cb t, Forall registers (prog cb t).

Lemma reg_ext_log l cb t s s' : reg_ext l (log_call cb t s) s' -> reg_ext l s s'.
Proof. intros [H1 F1 S1 T1]. by split. Qed.

Lemma invoke_ext fuel cb t s :
  sized s ->
  exists s', invoke prog (S fuel) cb t s = Done s' /\ reg_ext (prog cb t) s s' /\
    called s' = called s ++ [(cb, t)].
Proof.
  intros Hs. simpl. destruct (run_actions_ext (invoke prog fuel) (prog cb t) (log_call cb t s))
    as (s' & Hr & He & Hc); [done|done|]. exists s'. split_and!; [done| |done].
  by apply reg_ext_log in He.
Qed.

(** The actions of a sequence of callbacks. *)
Definition progs (cbs : list ccd_callback) (t : double) : list ccd_action :=
  concat ((fun cb => prog cb t) <$> cbs).

Lemma call_loop_ext fuel keep c t hs : c < MAXNUMCONDS -> forall h1 h2 s,
  sized s -> cblist_repr (clist keep c s) (h1 ++ hs ++ h2) ->
  exists s', call_loop (invoke prog (S fuel)) (clist keep c) (length hs) (hd_or (hs ++ h2).*1 (-1)) t s = Done s' /\
    reg_ext (progs hs.*2 t) s s' /\ called s' = called s ++ ((fun cb => (cb, t)) <$> hs.*2).
Proof.
  intros Hc. induction hs as [|[i cb] hs IH]; intros h1 h2 s Hs Hr.
  { exists s. split_and!; [done|apply reg_ext_refl|]. by rewrite app_nil_r. }
  cbn [length call_loop]. simpl app in *.
  destruct (repr_cell _ _ _ _ _ Hr) as [Hcb _]. simpl hd_or. rewrite Hcb.
  destruct (invoke_ext fuel cb t s Hs) as (s1 & -> & He & Hcall). cbn [mbind exec_bind].
  destruct (re_list _ _ _ He keep c _ Hc Hr) as (new & Hr1 & _).
  rewrite <- app_assoc in Hr1. simpl in Hr1.
  destruct (repr_cell _ _ _ _ _ Hr1) as [_ ->].
  rewrite <- app_assoc.
  destruct (IH (h1 ++ [(i, cb)]) (h2 ++ new) s1) as (s2 & -> & He2 & Hc2).
  - by apply (re_sized _ _ _ He).
  - rewrite <- app_assoc. simpl. by rewrite (app_assoc hs).
  - exists s2. split_and!; [done| |].
    + change (progs (((i, cb) :: hs).*2) t) with (prog cb t ++ progs hs.*2 t). by eapply reg_ext_trans.
    + rewrite Hc2, Hcall, <- app_assoc. done.
Qed.

Lemma set_flag_repr b l hs : cblist_repr l hs -> cblist_repr (set_flag b l) hs.
Proof. intros (B & F & [] & ->). exists B, F. by split; [split|]. Qed.

(** [call_cblist_keep] calls what was registered, in order, and keeps it. *)
Lemma call_keep_ext fuel c t s ks :
  c < MAXNUMCONDS -> sized s -> cblist_repr (clist true c s) ks ->
  exists s', call_cblist_keep (invoke prog (S fuel)) c t s = Done s' /\
    reg_ext (progs ks.*2 t) s s' /\ called s' = called s ++ ((fun cb => (cb, t)) <$> ks.*2).
Proof.
  intros Hc Hs Hr. unfold call_cblist_keep. pose proof (repr_first _ _ Hr) as [Hf Hl].
  simpl in Hf, Hl. rewrite Hf, Hl.
  destruct (call_loop_ext fuel true c t ks Hc [] [] s) as (s' & Hd & He & Hcall); [done|by rewrite app_nil_r|].
  exists s'. rewrite app_nil_r in Hd. done.
Qed.

(** [call_cblist_remove] calls what was registered, in order, and removes
    exactly that. *)
Lemma call_remove_ext fuel c t s cbs :
  c < MAXNUMCONDS -> sized s -> cblist_repr (clist false c s) cbs -> l_flag (clist false c s) = false ->
  exists s', call_cblist_remove (invoke prog (S fuel)) c t s = Done s' /\ sized s' /\
    called s' = called s ++ ((fun cb => (cb, t)) <$> cbs.*2) /\
    l_flag (clist false c s') = false /\
    (exists new, cblist_repr (clist false c s') new /\ new.*2 = regs false c (progs cbs.*2 t)) /\
    (forall ks, cblist_repr (clist true c s) ks -> exists new,
       cblist_repr (clist true c s') (ks ++ new) /\ new.*2 = regs true c (progs cbs.*2 t)).
Proof.
  intros Hc Hs Hr Hfl. unfold call_cblist_remove. pose proof (repr_first _ _ Hr) as [Hf Hl].
  simpl in Hf, Hl, Hfl. rewrite Hfl. set (s1 := set_condcb c _ s).
  assert (clist false c s1 = set_flag true (clist false c s)) as Hs1l.
  { unfold s1, clist, set_condcb. simpl. destruct Hs. by rewrite list_lookup_total_insert_eq by lia. }
  assert (sized s1) as Hs1 by (destruct Hs; split; [simpl; by rewrite length_insert|done]).
  change (condcb s1 !!! c) with (clist false c s1). rewrite Hs1l.
  change (l_first (set_flag true (clist false c s))) with (l_first (condcb s !!! c)). rewrite Hf, Hl.
  destruct (call_loop_ext fuel false c t cbs Hc [] [] s1) as (s2 & Hd & He & Hcall); [done| |].
  { rewrite app_nil_r, Hs1l. by apply set_flag_repr. }
  rewrite app_nil_r in Hd.
  change (fun s0 : ccd => condcb s0 !!! c) with (clist false c). rewrite Hd. cbn [mbind exec_bind].
  destruct (re_list _ _ _ He false c cbs Hc) as (new & Hr2 & Hnew);
    [rewrite Hs1l; by apply set_flag_repr|].
  destruct (remove_n_elems_repr _ _ (length cbs) Hr2) as [Hr3 _]; [len|].
  rewrite drop_app_length in Hr3.
  pose proof (re_sized _ _ _ He Hs1) as Hs2. set (s3 := set_condcb c _ s2).
  assert (clist false c s3 = set_flag false (remove_n_elems (clist false c s2) (length cbs))) as Hs3l.
  { unfold s3, clist, set_condcb. simpl. destruct Hs2. by rewrite list_lookup_total_insert_eq by lia. }
  exists s3. split; [done|]. split; [destruct Hs2; split; [simpl; by rewrite length_insert|done]|].
  split; [done|]. rewrite Hs3l. split; [done|]. split.
  - exists new. split; [by apply set_flag_repr|done].
  - intros ks Hks. apply (re_list _ _ _ He true c ks Hc Hks).
Qed.

(** ** Timers *)

(** Registrations that leave room in the timer heap move neither the array nor
    the cells above the heap. *)
Lemma run_actions_room call acts : forall s,
  Forall registers acts -> sized s -> timers_wf (timers s) ->
  ccd_heaplen (timers s) + length (timers_of acts) <= ccd_heapmaxlen (timers s) ->
  exists s', run_actions call acts s = Done s' /\ sized s' /\ called s' = called s /\
    timers_wf (timers s') /\ pending (timers s') ≡ₚ timers_of acts ++ pending (timers s) /\
    ch_addr (timers s') = ch_addr (timers s) /\
    ccd_heapmaxlen (timers s') = ccd_heapmaxlen (timers s) /\
    ccd_heaplen (timers s') = ccd_heaplen (timers s) + length (timers_of acts) /\
    (forall i, ccd_heaplen (timers s) + length (timers_of acts) < i ->
       ch_heap (timers s') !!! i = ch_heap (timers s) !!! i).
Proof.
  induction acts as [|a acts IH]; intros s Hall Hs Hwf Hroom; simpl.
  { exists s. split_and!; try done; lia. }
  inversion_clear Hall as [|? ? Ha Hacts].
  destruct (run_action_ext call a s Ha Hs) as (s1 & Hd & He & Hc). rewrite Hd. cbn [mbind exec_bind].
  change (timers_of (a :: acts)) with (timer_of a ++ timers_of acts) in *.
  rewrite length_app in *. pose proof (re_sized _ _ _ He Hs) as Hs1.
  assert (timers_wf (timers s1) /\ pending (timers s1) ≡ₚ timer_of a ++ pending (timers s) /\
    ch_addr (timers s1) = ch_addr (timers s) /\ ccd_heapmaxlen (timers s1) = ccd_heapmaxlen (timers s) /\
    ccd_heaplen (timers s1) = ccd_heaplen (timers s) + length (timer_of a) /\
    (forall i, ccd_heaplen (timers s) + length (timer_of a) < i ->
       ch_heap (timers s1) !!! i = ch_heap (timers s) !!! i)) as (Hwf1 & Hp1 & Ha1 & Hm1 & Hl1 & Hf1).
  { destruct a as [k c cb| |cb d now| | | |]; try done.
    - assert (timers s1 = timers s) as ->.
      { revert Hd. simpl. unfold CcdCallOnConditionKeepOnPE, CcdCallOnConditionOnPE.
        destruct k, (c <? MAXNUMCONDS); simpl; by intros [= <-]. }
      split_and!; try done; simpl; lia.
    - injection Hd as <-. unfold CcdCallFnAfterOnPE. cbn [timer_of length app timers set_timers registers] in *.
      destruct (insert_room_wf (timers s) (dadd now (ddiv d (d_of_Z 1000))) cb Hwf Ha)
        as (? & ? & ? & ? & ? & Hfr); [lia|].
      split_and!; try done; [lia|]. intros i Hi. apply Hfr. lia. }
  destruct (IH s1 Hacts Hs1 Hwf1) as (s2 & Hd2 & Hs2 & Hc2 & Hwf2 & Hp2 & Ha2 & Hm2 & Hl2 & Hf2); [lia|].
  exists s2. split_and!; try done; try congruence.
  - rewrite Hp2, Hp1, !app_assoc. f_equiv. apply Permutation_app_comm.
  - lia.
  - intros i Hi. rewrite Hf2, Hf1 by lia. done.
Qed.

Lemma invoke_room fuel cb t s :
  sized s -> timers_wf (timers s) ->
  ccd_heaplen (timers s) + length (timers_of (prog cb t)) <= ccd_heapmaxlen (timers s) ->
  exists s', invoke prog (S fuel) cb t s = Done s' /\ sized s' /\ called s' = called s ++ [(cb, t)] /\
    timers_wf (timers s') /\ pending (timers s') ≡ₚ timers_of (prog cb t) ++ pending (timers s) /\
    ch_addr (timers s') = ch_addr (timers s) /\
    ccd_heapmaxlen (timers s') = ccd_heapmaxlen (timers s) /\
    ccd_heaplen (timers s') = ccd_heaplen (timers s) + length (timers_of (prog cb t)) /\
    (forall i, ccd_heaplen (timers s) + length (timers_of (prog cb t)) < i ->
       ch_heap (timers s') !!! i = ch_heap (timers s) !!! i).
Proof.
  intros Hs Hwf Hroom. cbn [invoke].
  destruct (run_actions_room (invoke prog fuel) (prog cb t) (log_call cb t s)) as (s' & H); try done.
  by exists s'.
Qed.

Lemma call_expired_room fuel addr emax t cbs : forall i s,
  sized s -> timers_wf (timers s) -> ch_addr (timers s) = addr -> ccd_heapmaxlen (timers s) = emax ->
  (forall k cb, cbs !! k = Some cb -> h_cb (ch_heap (timers s) !!! (emax + i + k)) = cb) ->
  ccd_heaplen (timers s) + length (timers_of (progs cbs t)) < emax ->
  exists s', call_expired (invoke prog (S fuel)) addr emax i (length cbs) t s = Done s' /\ sized s' /\
    called s' = called s ++ ((fun cb => (cb, t)) <$> cbs) /\
    timers_wf (timers s') /\
    pending (timers s') ≡ₚ timers_of (progs cbs t) ++ pending (timers s).
Proof.
  induction cbs as [|cb cbs IH]; intros i s Hs Hwf Haddr Hmax Hcell Hroom.
  { exists s. split_and!; try done. by rewrite app_nil_r. }
  change (progs (cb :: cbs) t) with (prog cb t ++ progs cbs t) in *.
  rewrite timers_of_app, length_app in Hroom. cbn [length call_expired].
  rewrite Haddr, Nat.eqb_refl. pose proof (Hcell 0 cb eq_refl) as Hcb. rewrite Nat.add_0_r in Hcb.
  rewrite Hcb. destruct (invoke_room fuel cb t s Hs Hwf) as
    (s1 & -> & Hs1 & Hc1 & Hwf1 & Hp1 & Ha1 & Hm1 & Hl1 & Hf1); [lia|]. cbn [mbind exec_bind].
  destruct (IH (S i) s1) as (s2 & -> & Hs2 & Hc2 & Hwf2 & Hp2); try done; try congruence.
  - intros k cb' Hk. rewrite Hf1 by lia.
    replace (emax + S i + k) with (emax + i + S k) by lia. by apply Hcell.
  - lia.
  - exists s2. split_and!; try done.
    + rewrite Hc2, Hc1, <- app_assoc. done.
    + rewrite Hp2, Hp1, timers_of_app, !app_assoc. f_equiv. apply Permutation_app_comm.
Qed.

End progs.

(** ** Histories of a callback list *)

(** The states of a callback list that starts empty, with what the client has
    registered and not cancelled, by handle. *)
Inductive cbrun {U : Uninit} : ccd_cblist -> list (nat * ccd_callback) -> Prop :=
  | cbrun_init : cbrun (init_cblist CBLIST_INIT_LEN) []
  | cbrun_append l hs cb l' idx :
      cbrun l hs -> append_elem l cb = (l', idx) -> cbrun l' (hs ++ [(Z.to_nat idx, cb)])
  | cbrun_cancel l h1 i cb h2 :
      cbrun l (h1 ++ (i, cb) :: h2) -> cbrun (remove_elem l (Z.of_nat i)) (h1 ++ h2).

(** A traversal from [first] along [next]. *)
Fixpoint walk (n : nat) (idx : Z) (l : ccd_cblist) : list (Z * ccd_callback) :=
  match n with
  | 0 => []
  | S n => let e := at_ (l_elems l) idx in (idx, c_cb e) :: walk n (c_next e) l
  end.

Lemma walk_repr l h2 : forall h1,
  cblist_repr l (h1 ++ h2) ->
  walk (length h2) (hd_or h2.*1 (-1)) l = (fun '(i, cb) => (Z.of_nat i, cb)) <$> h2.
Proof.
  induction h2 as [|[i cb] h2 IH]; intros h1 Hr; [done|]. simpl.
  destruct (repr_cell _ _ _ _ _ Hr) as [-> ->]. f_equal. apply (IH (h1 ++ [(i, cb)])).
  by rewrite <- app_assoc.
Qed.

Lemma cbrun_repr {U : Uninit} l hs : cbrun l hs -> cblist_repr l hs.
Proof.
  induction 1 as [|l hs cb l' idx _ IH E|l h1 i cb h2 _ IH].
  - apply repr_nil_init. unfold CBLIST_INIT_LEN. lia.
  - pose proof (append_repr l hs cb IH) as Ha. rewrite E in Ha.
    destruct Ha as (i & -> & _ & Hr & _). by rewrite Nat2Z.id.
  - by apply (remove_repr _ _ _ cb).
Qed.

Lemma repr_nodup l hs : cblist_repr l hs -> NoDup hs.*1.
Proof.
  intros (B & F & Hwf & Hcbs). rewrite (repr_handles _ _ _ Hcbs).
  by pose proof (wf_nodup _ _ _ Hwf) as (? & _)%NoDup_app.
Qed.

(** C10: whatever is registered and cancelled, in any order and through any growth of
    the array, the list holds exactly the live registrations in registration order:
    handles are distinct, the length is exact, and following [next] from [first] meets
    each live callback once. *)
Theorem cblist_holds_registrations {U : Uninit} l hs :
  cbrun l hs ->
  NoDup hs.*1 /\ l_len l = length hs /\
  walk (l_len l) (l_first l) l = (fun '(i, cb) => (Z.of_nat i, cb)) <$> hs.
Proof.
  intros Hr%cbrun_repr. destruct (repr_first _ _ Hr) as [Hf Hl]. rewrite Hf, Hl.
  split_and!; [by eapply repr_nodup|done|]. by apply (walk_repr _ _ []).
Qed.

(** ** Raising a condition *)

Section claims.
Context {U : Uninit}.

(** C11: raising a condition calls the callbacks registered on it, one-time ones
    first and then the permanent ones, each exactly once and in registration order,
    whatever further callbacks and timers they register; the one-time callbacks are gone
    afterwards, the permanent ones stay, and what was registered during the raise is
    kept for the next one (a permanent callback registered by a one-time one is still
    called now). *)
Theorem raise_calls_registered prog fuel c t s cbs ks :
  (forall cb t, Forall registers (prog cb t)) ->
  c < MAXNUMCONDS -> sized s ->
  cblist_repr (clist false c s) cbs -> l_flag (clist false c s) = false ->
  cblist_repr (clist true c s) ks ->
  let acts l := progs prog l t in
  let keep := ks.*2 ++ regs true c (acts cbs.*2) in
  exists s' once' keep', CcdRaiseCondition (invoke prog (S fuel)) c t s = Done s' /\
    called s' = called s ++ ((fun cb => (cb, t)) <$> cbs.*2 ++ keep) /\
    l_flag (clist false c s') = false /\
    cblist_repr (clist false c s') once' /\ once'.*2 = regs false c (acts cbs.*2 ++ acts keep) /\
    cblist_repr (clist true c s') keep' /\ keep'.*2 = keep ++ regs true c (acts keep).
Proof.
  intros Hp Hc Hs Hcbs Hfl Hks acts keep. unfold CcdRaiseCondition.
  pose proof Hc as Hcb%Nat.ltb_lt. rewrite Hcb.
  destruct (call_remove_ext prog Hp fuel c t s cbs Hc Hs Hcbs Hfl)
    as (s1 & -> & Hs1 & Hc1 & Hfl1 & (o1 & Ho1 & Eo1) & Hk1). cbn [mbind exec_bind].
  destruct (Hk1 _ Hks) as (k1 & Hkr & Ek1).
  destruct (call_keep_ext prog Hp fuel c t s1 (ks ++ k1) Hc Hs1 Hkr) as (s2 & Hd & He & Hc2).
  assert ((ks ++ k1).*2 = keep) as Ek by (by rewrite fmap_app, Ek1). rewrite Ek in He, Hc2.
  destruct (re_list _ _ _ He false c _ Hc Ho1) as (o2 & Ho2 & Eo2).
  destruct (re_list _ _ _ He true c _ Hc Hkr) as (k2 & Hk2 & Ek2).
  exists s2, (o1 ++ o2), ((ks ++ k1) ++ k2). split_and!; try done.
  - by rewrite Hc2, Hc1, fmap_app, app_assoc.
  - by rewrite (re_flag _ _ _ He).
  - by rewrite fmap_app, Eo1, Eo2, regs_app.
  - by rewrite fmap_app, Ek, Ek2.
Qed.

(** C12: when the timer heap is not full and the expired callbacks leave room in it,
    [ccd_heap_update] calls exactly the timers whose time has passed, each once and in the
    order of their times; the others stay pending, with the timers registered meanwhile. *)
Theorem heap_update_calls_expired prog fuel cur s :
  (forall cb t, Forall registers (prog cb t)) ->
  sized s -> timers_wf (timers s) -> is_nan cur = false ->
  (forall ex, ex ⊆+ pending (timers s) ->
     ccd_heaplen (timers s) + length (timers_of (progs prog (h_cb <$> ex) cur)) < ccd_heapmaxlen (timers s)) ->
  exists s' ex rest, ccd_heap_update (invoke prog (S fuel)) cur s = Done s' /\
    pending (timers s) ≡ₚ ex ++ rest /\
    Forall (fun e => dlt (h_time e) cur = true) ex /\ Forall (fun e => dlt (h_time e) cur = false) rest /\
    StronglySorted time_le ex /\
    called s' = called s ++ ((fun cb => (cb, cur)) <$> (h_cb <$> ex)) /\
    timers_wf (timers s') /\
    pending (timers s') ≡ₚ timers_of (progs prog (h_cb <$> ex) cur) ++ rest.
Proof.
  intros Hp Hs Hwf Hcur Hroom. unfold ccd_heap_update.
  assert (ccd_heaplen (timers s) < ccd_heapmaxlen (timers s)) as Hlt.
  { specialize (Hroom [] (submseteq_nil_l _)). lia. }
  destruct (pull_expired_spec cur (ccd_heaplen (timers s)) (timers s) 0 Hwf Hcur) as
    (t' & ex & -> & Hwf' & Hpend & Hsort & Hex & Hrest & Hm & Ha & Hn & Hcell & _); [lia|lia|].
  cbn [Nat.add].
  destruct (call_expired_room prog Hp fuel (ch_addr t') (ccd_heapmaxlen t') cur (h_cb <$> ex) 0 (set_timers t' s))
    as (s' & Hd & Hs' & Hc & Hwf2 & Hp2); try done.
  - intros k cb Hk. rewrite list_lookup_fmap in Hk.
    destruct (ex !! k) as [e|] eqn:E; simplify_eq/=. rewrite Hm. by rewrite (Hcell _ _ E).
  - simpl. rewrite Hm. specialize (Hroom ex). rewrite Hpend in Hroom.
    specialize (Hroom (submseteq_inserts_r _ _ _ (reflexivity ex))). lia.
  - exists s', ex, (pending t'). rewrite length_fmap in Hd. by split_and!.
Qed.

End claims.

(** ** Where the timers go wrong *)

(** Timers with the times and callbacks [1..n], registered in this order. *)
Definition timers_upto {U : Uninit} (n : nat) : ccd_timers :=
  fold_left (fun s i => ccd_heap_insert (d_of_Z (Z.of_nat i)) (mk_cb (Z.of_nat i) 0 0) s) (seq 1 n) timers_init.

Definition is_pending (fn : ptr) (s : ccd_timers) : bool :=
  existsb (fun e => (cb_fn (h_cb e) =? fn)%Z) (pending s).

(** With 128 pending timers the heap is full, and the cell where
    [ccd_heap_update] puts the first expired entry is the last cell of the heap itself.
    One expired timer out of 128: it is taken out twice, so its callback runs twice, and
    the timer that was in the last cell is neither called nor pending any more.  With 127
    timers the same update is right. *)
Theorem full_heap_loses_timer {U : Uninit} :
  (let '(s, ne) := pull_expired 128 (d_of_Z 2) 0 (timers_upto 128) in
   ne = 2 /\ cb_fn (h_cb (ch_heap s !!! 128)) = 1%Z /\ cb_fn (h_cb (ch_heap s !!! 129)) = 1%Z /\
   is_pending 128 s = false /\ ccd_heaplen s = 126) /\
  (let '(s, ne) := pull_expired 127 (d_of_Z 2) 0 (timers_upto 127) in
   ne = 1 /\ cb_fn (h_cb (ch_heap s !!! 128)) = 1%Z /\ is_pending 127 s = true /\ ccd_heaplen s = 126).
Proof. vm_compute. repeat split. Qed.

(** A callback [1] that registers [n] further timers. *)
Definition spawner (n : nat) (cb : ccd_callback) (t : double) : list ccd_action :=
  if (cb_fn cb =? 1)%Z
  then replicate n (ActFnAfter (mk_cb 7 0 0) (d_of_Z 1000) t) else [].

Definition ccd_with_timers {U : Uninit} (t : ccd_timers) : ccd :=
  mk_ccd [] [] t (mk_pcb 1 (d_of_Z 0) CCD_DEFAULT_RESOLUTION []) 1 [].

(** The callbacks that were called, or [None] if the run did not return. *)
Definition calls_of (r : exec ccd) : exec (list ptr) :=
  match r with Done s => Done (cb_fn <$> (called s).*1) | Crash => Crash | NoFuel => NoFuel end.

(** [ccd_heap_update] keeps a pointer into the timer array while it runs the
    expired callbacks.  If they register enough timers for the array to be replaced, the
    remaining expired entries are read from freed memory: two expired timers of which the
    first registers 129 more are enough.  With 128 more the second one is still read from the live
    array. *)
Theorem heap_update_reads_freed_array {U : Uninit} :
  let s := ccd_with_timers (timers_upto 2) in
  calls_of (ccd_heap_update (invoke (spawner 129) 1) (d_of_Z 3) s) = Crash /\
  calls_of (ccd_heap_update (invoke (spawner 128) 1) (d_of_Z 3) s) = Done [1; 2]%Z.
Proof. split; vm_compute; reflexivity. Qed.

(** ** The polling interval *)

Definition skip_ok (s : ccd) : Prop := (1 <= ccd_numchecks s <= 20)%Z /\ nSkip (pcb s) = ccd_numchecks s.

Definition returns (P : ccd -> Prop) (r : exec ccd) : Prop :=
  match r with Done s => P s | _ => True end.

Lemma returns_bind (P : ccd -> Prop) (r : exec ccd) (f : ccd -> exec ccd) :
  returns P r -> (forall s, P s -> returns P (f s)) -> returns P (s ← r; f s).
Proof. destruct r; simpl; auto. Qed.

Section skip.
Context {U : Uninit}.
Variable call : ccd_callback -> double -> ccd -> exec ccd.
Hypothesis call_skip : forall cb t s, skip_ok s -> returns skip_ok (call cb t s).

Lemma call_loop_skip sel n : forall idx t s, skip_ok s -> returns skip_ok (call_loop call sel n idx t s).
Proof.
  induction n as [|n IH]; intros idx t s Hs; cbn [call_loop]; [done|].
  apply returns_bind; [by apply call_skip|]. intros s' Hs'. by apply IH.
Qed.

Lemma raise_skip c t s : skip_ok s -> returns skip_ok (CcdRaiseCondition call c t s).
Proof.
  intros Hs. unfold CcdRaiseCondition. destruct (c <? MAXNUMCONDS); [|done]. apply returns_bind.
  - unfold call_cblist_remove. destruct (l_flag _); [done|].
    apply returns_bind; [by apply call_loop_skip|]. done.
  - intros s' Hs'. by apply call_loop_skip.
Qed.

Lemma heap_update_skip t s : skip_ok s -> returns skip_ok (ccd_heap_update call t s).
Proof.
  intros Hs. unfold ccd_heap_update. destruct (pull_expired _ _ _ _) as [tm ne].
  assert (forall n i s, skip_ok s -> returns skip_ok (call_expired call (ch_addr tm) (ccd_heapmaxlen tm) i n t s))
    as H; [|by apply H].
  clear Hs s. induction n as [|n IH]; intros i s Hs; cbn [call_expired]; [done|].
  destruct (_ =? _); [|done]. apply returns_bind; [by apply call_skip|]. intros; by apply IH.
Qed.

Lemma run_actions_skip acts : forall s, skip_ok s -> returns skip_ok (run_actions call acts s).
Proof.
  induction acts as [|a acts IH]; intros s Hs; cbn [run_actions]; [done|].
  apply returns_bind; [|done]. destruct a as [k c cb|k c idx|cb d now|c now|r m now| |t]; cbn [run_action].
  - unfold CcdCallOnConditionKeepOnPE, CcdCallOnConditionOnPE.
    destruct k, (c <? MAXNUMCONDS); try done; by destruct (append_elem _ _).
  - unfold CcdCancelCallOnConditionKeep, CcdCancelCallOnCondition.
    by destruct k, (c <? MAXNUMCONDS).
  - done.
  - by apply raise_skip.
  - unfold CcdSetMinResolution. destruct (dlt _ _); simpl; [|done]. split; simpl; [lia|done].
  - done.
  - split; simpl; [lia|done].
Qed.

End skip.

Lemma invoke_skip {U : Uninit} prog fuel : forall cb t s,
  skip_ok s -> returns skip_ok (invoke prog fuel cb t s).
Proof.
  induction fuel as [|fuel IH]; intros cb t s Hs; cbn [invoke]; [done|]. by apply run_actions_skip.
Qed.

Lemma adjust_range o t : (1 <= adjust_nSkip o t <= 20)%Z.
Proof.
  unfold adjust_nSkip. cbv zeta.
  match goal with |- context [if dlt ?a ?b then ?x else ?y] => generalize (if dlt a b then x else y) end.
  intros n. bool_cases; lia.
Qed.


(** ** The initial state *)

Lemma on_condition_keep {U : Uninit} c cb s l i :
  c < MAXNUMCONDS -> append_elem (clist true c s) cb = (l, i) ->
  CcdCallOnConditionKeepOnPE c cb s = Done (set_condcb_keep c l s, i).
Proof.
  intros Hc E. unfold CcdCallOnConditionKeepOnPE. apply Nat.ltb_lt in Hc. rewrite Hc.
  simpl in E. by rewrite E.
Qed.

Lemma module_init {U : Uninit} rf t :
  exists s, CcdModuleInit rf t = Done s /\ sized s /\ timers_wf (timers s) /\ called s = [] /\
    (forall c, c < MAXNUMCONDS -> cblist_repr (clist false c s) [] /\ l_flag (clist false c s) = false) /\
    (forall c, 2 <= c < MAXNUMCONDS -> cblist_repr (clist true c s) []).
Proof.
  assert (0 < MAXNUMCONDS /\ 1 < MAXNUMCONDS) as [H0 H1] by (unfold MAXNUMCONDS; lia).
  unfold CcdModuleInit, CcdCallOnConditionKeep. set (s0 := mk_ccd _ _ _ _ _ _).
  set (cb := mk_cb rf 0 CcdIGNOREPE).
  assert (sized s0) as Hs0 by (unfold s0; split; apply length_replicate).
  destruct (append_elem (init_cblist CBLIST_INIT_LEN) cb) as [l i] eqn:El.
  assert (forall c, c < MAXNUMCONDS -> clist true c s0 = init_cblist CBLIST_INIT_LEN) as Hk.
  { intros c Hc. by apply lookup_total_replicate_2. }
  rewrite (on_condition_keep _ _ s0 l i) by (done || by rewrite Hk). cbn [mbind exec_bind].
  set (s1 := set_condcb_keep CcdPROCESSOR_BEGIN_IDLE l s0).
  assert (forall c, c <> 1 -> c < MAXNUMCONDS -> clist true c s1 = init_cblist CBLIST_INIT_LEN) as Hk1.
  { intros c Hc1 Hc. unfold s1. rewrite (clist_set true c true) by done.
    unfold CcdPROCESSOR_BEGIN_IDLE. destruct (Nat.eqb_spec c 1); [done|]. by apply Hk. }
  rewrite (on_condition_keep _ _ s1 l i) by (done || by rewrite Hk1). cbn [mbind exec_bind].
  eexists. split; [done|]. assert (sized s1) as Hs1 by (destruct Hs0; split; simpl; by rewrite ?length_insert).
  split; [destruct Hs1; split; simpl; by rewrite ?length_insert|]. split; [apply timers_init_wf|].
  split; [done|]. split.
  - intros c Hc. replace (clist false c _) with (init_cblist CBLIST_INIT_LEN)
      by (symmetry; by apply (lookup_total_replicate_2 MAXNUMCONDS)).
    split; [apply repr_nil_init; unfold CBLIST_INIT_LEN; lia|done].
  - intros c Hc. rewrite (clist_set true c true) by (done || lia).
    unfold CcdPROCESSOR_END_IDLE. destruct (Nat.eqb_spec c 0); [lia|]. cbn [andb Bool.eqb].
    rewrite Hk1 by lia. apply repr_nil_init. unfold CBLIST_INIT_LEN. lia.
Qed.

(** ** Instances *)

#[local] Instance witness_uninit : Uninit := 99%Z.

Definition witness_list : ccd_cblist :=
  let l1 := fst (append_elem (init_cblist CBLIST_INIT_LEN) (mk_cb 1 2 0)) in
  let l2 := fst (append_elem l1 (mk_cb 3 4 0)) in
  remove_elem l2 0.

Lemma cblist_holds_registrations_witness :
  NoDup [1] /\ l_len witness_list = 1 /\
  walk (l_len witness_list) (l_first witness_list) witness_list = [(1%Z, mk_cb 3 4 0)].
Proof.
  apply (cblist_holds_registrations witness_list [(1, mk_cb 3 4 0)]).
  unfold witness_list. cbv zeta. set (l1 := fst (append_elem (init_cblist _) _)).
  set (l2 := fst (append_elem l1 _)).
  apply (cbrun_cancel l2 [] 0 (mk_cb 1 2 0) [(1, mk_cb 3 4 0)]).
  apply (cbrun_append l1 [(0, mk_cb 1 2 0)] (mk_cb 3 4 0) _ 1); [|reflexivity].
  apply (cbrun_append (init_cblist CBLIST_INIT_LEN) [] (mk_cb 1 2 0) _ 0); [|reflexivity]. constructor.
Defined.

(** Each callback registers itself again on condition 20, and a timer. *)
Definition again (cb : ccd_callback) (t : double) : list ccd_action :=
  [ActOnCondition false 20 cb; ActFnAfter cb (d_of_Z 5) (d_of_Z 1)].

Lemma again_registers cb t : Forall registers (again cb t).
Proof. repeat constructor; simpl; unfold MAXNUMCONDS; lia. Qed.

(** The initial state, then callback [8] registered on condition 20 and as a
    timer. *)
Lemma witness_state : exists s hs, sized s /\ timers_wf (timers s) /\ called s = [] /\
  cblist_repr (clist false 20 s) hs /\ hs.*2 = [mk_cb 8 0 0] /\ l_flag (clist false 20 s) = false /\
  cblist_repr (clist true 20 s) [] /\
  pending (timers s) ≡ₚ [mk_helem (dadd (d_of_Z 1) (ddiv (d_of_Z 5) (d_of_Z 1000))) (mk_cb 8 0 0)] /\
  ccd_heaplen (timers s) = 1 /\ ccd_heapmaxlen (timers s) = 128.
Proof.
  assert (20 < MAXNUMCONDS) as H20 by (unfold MAXNUMCONDS; lia).
  destruct (module_init 5 (d_of_Z 0)) as (s & Hi & Hs & Hwf & Hcalled & Hone & Hkeep).
  assert (timers s = timers_init) as Ht.
  { revert Hi. unfold CcdModuleInit, CcdCallOnConditionKeep, CcdCallOnConditionKeepOnPE. simpl.
    by intros [= <-]. }
  destruct (Hone 20 H20) as [H1 H2]. pose proof (Hkeep 20 ltac:(lia)) as H3.
  destruct (run_actions_ext (invoke again 0) (again (mk_cb 8 0 0) (d_of_Z 0)) s (again_registers _ _) Hs)
    as (s1 & Hd & [Hl Hf Hsz _] & Hc1).
  destruct (run_actions_room (invoke again 0) (again (mk_cb 8 0 0) (d_of_Z 0)) s (again_registers _ _) Hs Hwf)
    as (s2 & Hd2 & _ & _ & Hwf2 & Hp & _ & Hm & Hlen & _); [rewrite Ht; vm_compute; lia|].
  rewrite Hd in Hd2. injection Hd2 as <-.
  destruct (Hl false 20 [] H20 H1) as (hs & Hr & Ehs). destruct (Hl true 20 [] H20 H3) as (ks & Hk & Eks).
  apply fmap_nil_inv in Eks as ->.
  exists s1, hs. rewrite Hf by done. split_and!; auto; [congruence| | |].
  - rewrite Hp, Ht. done.
  - rewrite Hlen, Ht. done.
  - rewrite Hm, Ht. done.
Qed.

Lemma raise_calls_registered_witness :
  exists s s' once, CcdRaiseCondition (invoke again 1) 20 (d_of_Z 1) s = Done s' /\
    called s' = [(mk_cb 8 0 0, d_of_Z 1)] /\
    cblist_repr (clist false 20 s') once /\ once.*2 = [mk_cb 8 0 0].
Proof.
  destruct witness_state as (s & hs & Hs & _ & Hcalled & H1 & E1 & H2 & H3 & _).
  assert (20 < MAXNUMCONDS) as H20 by (unfold MAXNUMCONDS; lia).
  destruct (raise_calls_registered again 0 20 (d_of_Z 1) s hs [] again_registers H20 Hs H1 H2 H3)
    as (s' & o & k & Hr & Hc & _ & Ho & Eo & _).
  exists s, s', o. split; [exact Hr|]. rewrite Hc, Hcalled, Eo, E1.
  split; [reflexivity|]. split; [exact Ho|reflexivity].
Defined.

Lemma heap_update_calls_expired_witness :
  exists s s' ex rest, ccd_heap_update (invoke again 1) (d_of_Z 2) s = Done s' /\
    length (pending (timers s)) = 1 /\
    pending (timers s) ≡ₚ ex ++ rest /\ called s' = (fun cb => (cb, d_of_Z 2)) <$> (h_cb <$> ex).
Proof.
  destruct witness_state as (s & hs & Hs & Hwf & Hcalled & _ & _ & _ & _ & Hp & Hl & Hm).
  destruct (heap_update_calls_expired again 0 (d_of_Z 2) s again_registers Hs Hwf eq_refl)
    as (s' & ex & rest & Hd & Hpe & _ & _ & _ & Hc & _).
  - intros ex Hex. rewrite Hp in Hex. apply submseteq_length in Hex. rewrite Hl, Hm.
    destruct ex as [|e [|e2 ex]]; simpl in Hex |- *; lia.
  - exists s, s', ex, rest. split; [exact Hd|]. split; [by rewrite Hp|]. split; [exact Hpe|].
    by rewrite Hc, Hcalled.
Defined.
