(* ===== verification/SpanTree.v ===== *)
(** * SpanTree: the spanning tree of processors

    The interface through which quiescence detection, reductions and
    broadcasts see the spanning tree, and the tree that the macros of
    src/conv-core/converse.h compute ([CmiSpanTreeParent],
    [CmiNumSpanTreeChildren], [CmiSpanTreeChildren]) for machines whose nodes
    all have the same number of processors. *)

From S2P Require Import Prelude.
Set Warnings "-clear-no-such-hyp".

Class SpanTree := {
  tree_children : nat -> list nat;
  tree_parent : nat -> nat
}.

(** A tree over the processors [0..N-1] with root 0, in which parents come
    before their children. *)
Class SpanTreeLaws (N : nat) `{SpanTree} := {
  tree_child p q : p < N -> q ∈ tree_children p <-> (0 < q < N /\ tree_parent q = p);
  tree_nodup p : p < N -> NoDup (tree_children p);
  tree_parent_lt q : 0 < q < N -> tree_parent q < q
}.

Section macros.
(** [CST_W], the number of nodes and the number of processors of a node. *)
Variables (W NN NS : nat).

Definition CmiNodeOf (p : nat) : nat := p / NS.
Definition CmiRankOf (p : nat) : nat := p mod NS.
Definition CmiNodeFirst (n : nat) : nat := n * NS.

Definition CmiNodeSpanTreeParent (n : nat) : Z :=
  if negb (n =? 0) then Z.of_nat ((n - 1) / W) else -1.

Definition CmiNumNodeSpanTreeChildren (n : nat) : nat :=
  if (n + 1) * W <? NN then W
  else if NN <=? n * W + 1 then 0 else (NN - 1) - n * W.

(** [CST_C]. *)
Definition rank_num_children (p : nat) : nat :=
  let r := CmiRankOf p in
  if (r + 1) * W <? NS then W
  else if NS <=? r * W + 1 then 0 else (NS - 1) - r * W.

Definition CmiSpanTreeParent (p : nat) : Z :=
  if negb (p =? 0) then
    if negb (CmiRankOf p =? 0)
    then Z.of_nat (CmiNodeFirst (CmiNodeOf p) + (CmiRankOf p - 1) / W)
    else Z.of_nat (CmiNodeFirst (Z.to_nat (CmiNodeSpanTreeParent (CmiNodeOf p))))
  else -1.

Definition CmiNumSpanTreeChildren (p : nat) : nat :=
  if negb (CmiRankOf p =? 0) then rank_num_children p
  else CmiNumNodeSpanTreeChildren (CmiNodeOf p) + rank_num_children p.

(** The cells that [CmiSpanTreeChildren(p,c)] writes, in order. *)
Definition CmiSpanTreeChildren (p : nat) : list nat :=
  (if CmiRankOf p =? 0 then
     CmiNodeFirst <$> filter (fun x => x < NN) ((fun i => CmiNodeOf p * W + i + 1) <$> seq 0 W)
   else []) ++
  ((fun x => CmiNodeFirst (CmiNodeOf p) + x) <$>
     filter (fun x => x < NS) ((fun i => CmiRankOf p * W + i + 1) <$> seq 0 W)).

Instance macro_tree : SpanTree := {
  tree_children := CmiSpanTreeChildren;
  tree_parent q := Z.to_nat (CmiSpanTreeParent q)
}.

Context (HW : 0 < W) (HNS : 0 < NS).

(** [x] is one of the [W] numbers after [a*W] exactly if [(x-1)/W = a]. *)
Lemma elem_of_band a x :
  x ∈ (fun i => a * W + i + 1) <$> seq 0 W <-> 0 < x /\ (x - 1) / W = a.
Proof.
  rewrite list_elem_of_fmap. split.
  - intros (i & -> & Hi%elem_of_seq). split; [lia|].
    replace (a * W + i + 1 - 1) with (i + a * W) by lia.
    rewrite Nat.div_add by lia. rewrite Nat.div_small by lia. lia.
  - intros [Hx <-]. exists ((x - 1) mod W). pose proof (Nat.div_mod_eq (x - 1) W).
    pose proof (Nat.mod_upper_bound (x - 1) W). rewrite elem_of_seq. split; lia.
Qed.

Lemma node_of_split n r : r < NS -> CmiNodeOf (CmiNodeFirst n + r) = n /\ CmiRankOf (CmiNodeFirst n + r) = r.
Proof.
  intros Hr. unfold CmiNodeOf, CmiRankOf, CmiNodeFirst. rewrite (Nat.add_comm (n * NS)).
  rewrite Nat.div_add, Nat.Div0.mod_add by lia. rewrite Nat.div_small, Nat.mod_small by lia. lia.
Qed.

Lemma pe_split p : p = CmiNodeFirst (CmiNodeOf p) + CmiRankOf p /\ CmiRankOf p < NS.
Proof.
  unfold CmiNodeOf, CmiRankOf, CmiNodeFirst. pose proof (Nat.div_mod_eq p NS).
  pose proof (Nat.mod_upper_bound p NS). lia.
Qed.

Lemma elem_of_node_children p q :
  q ∈ CmiNodeFirst <$> filter (fun x => x < NN) ((fun i => CmiNodeOf p * W + i + 1) <$> seq 0 W) <->
  exists x, q = CmiNodeFirst x /\ 0 < x < NN /\ (x - 1) / W = CmiNodeOf p.
Proof.
  rewrite list_elem_of_fmap. setoid_rewrite list_elem_of_filter. setoid_rewrite elem_of_band. naive_solver lia.
Qed.

Lemma elem_of_rank_children p q :
  q ∈ (fun x => CmiNodeFirst (CmiNodeOf p) + x) <$>
        filter (fun x => x < NS) ((fun i => CmiRankOf p * W + i + 1) <$> seq 0 W) <->
  exists x, q = CmiNodeFirst (CmiNodeOf p) + x /\ 0 < x < NS /\ (x - 1) / W = CmiRankOf p.
Proof.
  rewrite list_elem_of_fmap. setoid_rewrite list_elem_of_filter. setoid_rewrite elem_of_band. naive_solver lia.
Qed.

Lemma parent_rank n r : 0 < r < NS ->
  Z.to_nat (CmiSpanTreeParent (CmiNodeFirst n + r)) = CmiNodeFirst n + (r - 1) / W.
Proof.
  intros Hr. unfold CmiSpanTreeParent. destruct (node_of_split n r) as [-> ->]; [lia|].
  destruct (Nat.eqb_spec (CmiNodeFirst n + r) 0); [lia|]. destruct (Nat.eqb_spec r 0); [lia|]. simpl. lia.
Qed.

Lemma parent_node n : 0 < n ->
  Z.to_nat (CmiSpanTreeParent (CmiNodeFirst n)) = CmiNodeFirst ((n - 1) / W).
Proof.
  intros Hn. unfold CmiSpanTreeParent. destruct (node_of_split n 0) as [H1 H2]; [lia|].
  rewrite Nat.add_0_r in H1, H2. rewrite H1, H2. unfold CmiNodeSpanTreeParent.
  destruct (Nat.eqb_spec (CmiNodeFirst n) 0) as [E|]; [unfold CmiNodeFirst in E; nia|].
  destruct (Nat.eqb_spec n 0); [lia|]. simpl. by rewrite Nat2Z.id, Nat2Z.id.
Qed.

Lemma macro_child p q :
  p < NN * NS -> q ∈ CmiSpanTreeChildren p <->
  (0 < q < NN * NS /\ Z.to_nat (CmiSpanTreeParent q) = p).
Proof.
  intros Hp. destruct (pe_split p) as [Ep Hrp]. destruct (pe_split q) as [Eq Hrq].
  assert (CmiNodeOf p < NN) as HpN by (unfold CmiNodeFirst in Ep; nia).
  unfold CmiSpanTreeChildren. rewrite elem_of_app, elem_of_rank_children. split.
  - intros [Hq|(x & -> & Hx & E)].
    + destruct (Nat.eqb_spec (CmiRankOf p) 0) as [Er|]; [|by apply not_elem_of_nil in Hq].
      apply elem_of_node_children in Hq as (x & -> & Hx & E). rewrite parent_node by lia.
      rewrite E. split; [unfold CmiNodeFirst; nia|lia].
    + rewrite parent_rank by lia. rewrite E. split; [unfold CmiNodeFirst; nia|lia].
  - intros [Hq Hpar]. destruct (decide (CmiRankOf q = 0)) as [E0|E0].
    + left. rewrite E0, Nat.add_0_r in Eq.
      assert (0 < CmiNodeOf q < NN) as Hn by (unfold CmiNodeFirst in Eq; nia).
      rewrite Eq, parent_node in Hpar by lia. destruct (node_of_split ((CmiNodeOf q - 1) / W) 0) as [H1 H2]; [lia|].
      rewrite Nat.add_0_r in H1, H2. rewrite <- Hpar, H2. simpl. apply elem_of_node_children.
      rewrite H1. exists (CmiNodeOf q). done.
    + right. rewrite Eq, parent_rank in Hpar by lia.
      assert ((CmiRankOf q - 1) / W <= CmiRankOf q - 1) by (apply Nat.Div0.div_le_upper_bound; nia).
      destruct (node_of_split (CmiNodeOf q) ((CmiRankOf q - 1) / W)) as [H1 H2]; [lia|].
      rewrite <- Hpar, H1, H2. exists (CmiRankOf q). split_and!; try done; lia.
Qed.

Lemma macro_nodup p : NoDup (CmiSpanTreeChildren p).
Proof.
  unfold CmiSpanTreeChildren. apply NoDup_app. split_and!.
  - destruct (_ =? _); [|constructor]. apply NoDup_fmap_2_strong;
      [intros x y _ _ E; unfold CmiNodeFirst in E; nia|].
    apply NoDup_filter, NoDup_fmap_2_strong; [intros; lia|apply NoDup_seq].
  - intros q Hq (x & -> & Hx & E)%elem_of_rank_children.
    destruct (_ =? _); [|by apply not_elem_of_nil in Hq].
    apply elem_of_node_children in Hq as (y & Ey & Hy & _).
    destruct (node_of_split (CmiNodeOf p) x) as [_ H1]; [lia|].
    destruct (node_of_split y 0) as [_ H2]; [lia|]. rewrite Ey in H1. rewrite Nat.add_0_r in H2. lia.
  - apply NoDup_fmap_2_strong; [intros; lia|]. apply NoDup_filter, NoDup_fmap_2_strong; [intros; lia|apply NoDup_seq].
Qed.

Lemma macro_parent_lt q : 0 < q -> Z.to_nat (CmiSpanTreeParent q) < q.
Proof.
  intros Hq. destruct (pe_split q) as [Eq Hrq]. rewrite Eq at 2. destruct (decide (CmiRankOf q = 0)) as [E0|E0].
  - rewrite E0, Nat.add_0_r in Eq. assert (0 < CmiNodeOf q) by (unfold CmiNodeFirst in Eq; nia).
    rewrite Eq at 1. rewrite parent_node by lia. rewrite E0, Nat.add_0_r. unfold CmiNodeFirst.
    assert ((CmiNodeOf q - 1) / W <= CmiNodeOf q - 1) by (apply Nat.Div0.div_le_upper_bound; nia). nia.
  - rewrite Eq at 1. rewrite parent_rank by lia.
    assert ((CmiRankOf q - 1) / W <= CmiRankOf q - 1) by (apply Nat.Div0.div_le_upper_bound; nia). lia.
Qed.

Lemma macro_tree_laws : SpanTreeLaws (NN * NS).
Proof.
  split; simpl; [by apply macro_child|intros; apply macro_nodup|intros; apply macro_parent_lt; lia].
Qed.

Lemma band_length a n : length (filter (fun x => x < n) ((fun i => a * W + i + 1) <$> seq 0 W)) =
  if (a + 1) * W <? n then W else if n <=? a * W + 1 then 0 else (n - 1) - a * W.
Proof.
  assert (forall k j, filter (fun x => x < n) ((fun i => a * W + i + 1) <$> seq j k) =
    (fun i => a * W + i + 1) <$> seq j (Nat.min k (n - (a * W + j + 1)))) as Hf.
  { induction k as [|k IH]; intros j; [done|]. rewrite <- cons_seq, fmap_cons, filter_cons, IH.
    case_decide as E.
    - replace (Nat.min (S k) (n - (a * W + j + 1))) with (S (Nat.min k (n - (a * W + S j + 1)))) by lia. done.
    - replace (n - (a * W + S j + 1)) with 0 by lia. replace (n - (a * W + j + 1)) with 0 by lia.
      by rewrite !Nat.min_0_r. }
  rewrite Hf, length_fmap, length_seq. bool_cases; lia.
Qed.

(** [CmiSpanTreeChildren] writes as many cells as [CmiNumSpanTreeChildren]
    announces. *)
Lemma macro_num_children p : length (CmiSpanTreeChildren p) = CmiNumSpanTreeChildren p.
Proof.
  unfold CmiSpanTreeChildren, CmiNumSpanTreeChildren, CmiNumNodeSpanTreeChildren, rank_num_children.
  rewrite length_app, length_fmap, band_length. destruct (CmiRankOf p =? 0); simpl; [|done].
  by rewrite length_fmap, band_length.
Qed.

End macros.
