(* ===== verification/Quiescence.v ===== *)
(** * Quiescence: quiescence detection (quiescence.c)

    The handlers of src/conv-core/quiescence.c as functions of a processor's
    [ConvQdState] that return the messages they send, and the machine: the
    processors with the application messages, the detection messages and the
    announcements in transit.  The counters are unbounded integers; the C
    type is a 64-bit integer. *)

From S2P Require Import Prelude SpanTree.
Set Warnings "-clear-no-such-hyp".

(** [u.p1] and [u.p2] share their memory in the source; each accessor checks
    the phase that selects the member. *)
Record ConvQdMsg := mk_qmsg {
  phase : Z;
  m_created : Z;
  m_processed : Z;
  m_dirty : bool
}.

Record ConvQdState := mk_qd {
  stage : Z;
  cDirty : bool;
  oProcessed : Z;
  mCreated : Z;
  mProcessed : Z;
  cCreated : Z;
  cProcessed : Z;
  nReported : nat;
  nChildren : nat;
  parent : nat;
  children : list nat
}.

Definition CQdMsgSetPhase (p : Z) (m : ConvQdMsg) := mk_qmsg p (m_created m) (m_processed m) (m_dirty m).
Definition CQdMsgGetCreated (m : ConvQdMsg) : outcome Z := _ ← CmiAssert (phase m =? 1)%Z; Normal (m_created m).
Definition CQdMsgSetCreated (c : Z) (m : ConvQdMsg) : outcome ConvQdMsg :=
  _ ← CmiAssert (phase m =? 1)%Z; Normal (mk_qmsg (phase m) c (m_processed m) (m_dirty m)).
Definition CQdMsgGetProcessed (m : ConvQdMsg) : outcome Z := _ ← CmiAssert (phase m =? 1)%Z; Normal (m_processed m).
Definition CQdMsgSetProcessed (c : Z) (m : ConvQdMsg) : outcome ConvQdMsg :=
  _ ← CmiAssert (phase m =? 1)%Z; Normal (mk_qmsg (phase m) (m_created m) c (m_dirty m)).
Definition CQdMsgGetDirty (m : ConvQdMsg) : outcome bool := _ ← CmiAssert (phase m =? 2)%Z; Normal (m_dirty m).
Definition CQdMsgSetDirty (d : bool) (m : ConvQdMsg) : outcome ConvQdMsg :=
  _ ← CmiAssert (phase m =? 2)%Z; Normal (mk_qmsg (phase m) (m_created m) (m_processed m) d).

Definition CQdCreate (n : Z) (s : ConvQdState) : ConvQdState :=
  mk_qd (stage s) (cDirty s) (oProcessed s) (mCreated s + n) (mProcessed s) (cCreated s) (cProcessed s)
    (nReported s) (nChildren s) (parent s) (children s).
Definition CQdProcess (n : Z) (s : ConvQdState) : ConvQdState :=
  mk_qd (stage s) (cDirty s) (oProcessed s) (mCreated s) (mProcessed s + n) (cCreated s) (cProcessed s)
    (nReported s) (nChildren s) (parent s) (children s).
Definition CQdSubtreeCreate (c : Z) (s : ConvQdState) : ConvQdState :=
  mk_qd (stage s) (cDirty s) (oProcessed s) (mCreated s) (mProcessed s) (cCreated s + c) (cProcessed s)
    (nReported s) (nChildren s) (parent s) (children s).
Definition CQdSubtreeProcess (c : Z) (s : ConvQdState) : ConvQdState :=
  mk_qd (stage s) (cDirty s) (oProcessed s) (mCreated s) (mProcessed s) (cCreated s) (cProcessed s + c)
    (nReported s) (nChildren s) (parent s) (children s).
Definition CQdSetStage (p : Z) (s : ConvQdState) : ConvQdState :=
  mk_qd p (cDirty s) (oProcessed s) (mCreated s) (mProcessed s) (cCreated s) (cProcessed s)
    (nReported s) (nChildren s) (parent s) (children s).
Definition CQdReported (s : ConvQdState) : ConvQdState :=
  mk_qd (stage s) (cDirty s) (oProcessed s) (mCreated s) (mProcessed s) (cCreated s) (cProcessed s)
    (S (nReported s)) (nChildren s) (parent s) (children s).
Definition CQdAllReported (s : ConvQdState) : bool := nReported s =? nChildren s + 1.
Definition CQdReset (s : ConvQdState) : ConvQdState :=
  mk_qd (stage s) false (oProcessed s) (mCreated s) (mProcessed s) 0 0 0 (nChildren s) (parent s) (children s).
Definition CQdMarkProcessed (s : ConvQdState) : ConvQdState :=
  mk_qd (stage s) (cDirty s) (mProcessed s) (mCreated s) (mProcessed s) (cCreated s) (cProcessed s)
    (nReported s) (nChildren s) (parent s) (children s).
Definition CQdIsDirty (s : ConvQdState) : bool := (oProcessed s <? mProcessed s)%Z || cDirty s.
Definition CQdSubtreeSetDirty (d : bool) (s : ConvQdState) : ConvQdState :=
  mk_qd (stage s) (cDirty s || d) (oProcessed s) (mCreated s) (mProcessed s) (cCreated s) (cProcessed s)
    (nReported s) (nChildren s) (parent s) (children s).

Definition CQdStateCreate `{SpanTree} (pe : nat) : ConvQdState :=
  mk_qd 0 false 0 0 0 0 0 0 (length (tree_children pe)) (tree_parent pe) (tree_children pe).

(** ** Handlers *)

(** What a handler has done so far: the new state, the detection messages sent
    and whether quiescence was announced to all processors. *)
Record qfx := mk_fx { fx_state : ConvQdState; fx_out : list (nat * ConvQdMsg); fx_ann : bool }.

Definition on_state (f : ConvQdState -> ConvQdState) (x : qfx) : qfx := mk_fx (f (fx_state x)) (fx_out x) (fx_ann x).

(** [CmiSyncSend] and [CmiSyncSendAndFree]: the machine layer counts every
    message it sends. *)
Definition CmiSyncSend (dst : nat) (m : ConvQdMsg) (x : qfx) : qfx :=
  mk_fx (CQdCreate 1 (fx_state x)) (fx_out x ++ [(dst, m)]) (fx_ann x).

Definition CQdPropagate (m : ConvQdMsg) (x : qfx) : qfx :=
  fold_left (fun x c => CmiSyncSend c m (on_state (CQdCreate (-1)) x)) (children (fx_state x)) x.

Definition CQdBcastQD1 (pe : nat) (x : qfx) (msg : ConvQdMsg) : outcome qfx :=
  let msg := CQdMsgSetPhase 0 msg in
  let x := CQdPropagate msg x in
  let msg := CQdMsgSetPhase 1 msg in
  msg ← CQdMsgSetCreated (mCreated (fx_state x)) msg;
  msg ← CQdMsgSetProcessed (mProcessed (fx_state x)) msg;
  let x := CmiSyncSend pe msg (on_state (CQdCreate (-1)) x) in
  Normal (on_state (fun s => CQdSetStage 1 (CQdReset (CQdMarkProcessed s))) x).

Definition CQdBcastQD2 (pe : nat) (x : qfx) (msg : ConvQdMsg) : outcome qfx :=
  let msg := CQdMsgSetPhase 1 msg in
  let x := CQdPropagate msg x in
  let msg := CQdMsgSetPhase 2 msg in
  msg ← CQdMsgSetDirty (CQdIsDirty (fx_state x)) msg;
  let x := CmiSyncSend pe msg (on_state (CQdCreate (-1)) x) in
  Normal (on_state (fun s => CQdSetStage 2 (CQdReset s)) x).

Definition CQdHandlePhase0 (pe : nat) (x : qfx) (msg : ConvQdMsg) : outcome qfx :=
  _ ← CmiAssert ((pe =? 0) || (stage (fx_state x) =? 0)%Z);
  if (stage (fx_state x) =? 0)%Z then CQdBcastQD1 pe x msg else Normal x.

Definition CQdHandlePhase1 (pe : nat) (x : qfx) (msg : ConvQdMsg) : outcome qfx :=
  if (stage (fx_state x) =? 0)%Z then
    _ ← CmiAssert (negb (pe =? 0));
    CQdBcastQD2 pe x msg
  else if (stage (fx_state x) =? 1)%Z then
    c ← CQdMsgGetCreated msg;
    p ← CQdMsgGetProcessed msg;
    let x := on_state (fun s => CQdReported (CQdSubtreeProcess p (CQdSubtreeCreate c s))) x in
    if CQdAllReported (fx_state x) then
      if pe =? 0 then
        if (cCreated (fx_state x) =? cProcessed (fx_state x))%Z
        then CQdBcastQD2 pe x msg else CQdBcastQD1 pe x msg
      else
        msg ← CQdMsgSetCreated (cCreated (fx_state x)) msg;
        msg ← CQdMsgSetProcessed (cProcessed (fx_state x)) msg;
        let x := CmiSyncSend (parent (fx_state x)) msg (on_state (CQdCreate (-1)) x) in
        Normal (on_state (fun s => CQdSetStage 0 (CQdReset s)) x)
    else Normal x
  else Aborted.

(** The broadcast counts one message for each of the [npes] processors. *)
Definition CQdHandlePhase2 (npes pe : nat) (x : qfx) (msg : ConvQdMsg) : outcome qfx :=
  _ ← CmiAssert (stage (fx_state x) =? 2)%Z;
  d ← CQdMsgGetDirty msg;
  let x := on_state (fun s => CQdReported (CQdSubtreeSetDirty d s)) x in
  if CQdAllReported (fx_state x) then
    if pe =? 0 then
      if CQdIsDirty (fx_state x) then CQdBcastQD1 pe x msg
      else
        let x := on_state (fun s => CQdCreate (Z.of_nat npes) (CQdCreate (0 - Z.of_nat npes) s)) x in
        Normal (mk_fx (CQdSetStage 0 (CQdReset (fx_state x))) (fx_out x) true)
    else
      msg ← CQdMsgSetDirty (CQdIsDirty (fx_state x)) msg;
      let x := CmiSyncSend (parent (fx_state x)) msg (on_state (CQdCreate (-1)) x) in
      Normal (on_state (fun s => CQdSetStage 0 (CQdReset s)) x)
  else Normal x.

Definition CQdCallWhenIdle (npes pe : nat) (s : ConvQdState) (msg : ConvQdMsg) : outcome qfx :=
  let x := mk_fx s [] false in
  if (phase msg =? 0)%Z then CQdHandlePhase0 pe x msg
  else if (phase msg =? 1)%Z then CQdHandlePhase1 pe x msg
  else if (phase msg =? 2)%Z then CQdHandlePhase2 npes pe x msg
  else Aborted.

(** [CQdHandler] and [CQdAnnounceHandler] run after the scheduler has counted
    the message as processed. *)
Definition CQdHandler (s : ConvQdState) : ConvQdState := CQdProcess (-1) (CQdProcess 1 s).
Definition CQdAnnounceHandler (s : ConvQdState) : ConvQdState := CQdProcess (-1) (CQdProcess 1 s).

(** [CmiStartQD]: a message of phase 0, whose other fields are not set, to
    processor 0. *)
Definition CmiStartQD (s : ConvQdState) (garbage : ConvQdMsg) : qfx :=
  CmiSyncSend 0 (CQdMsgSetPhase 0 garbage) (mk_fx (CQdCreate (-1) s) [] false).

(** ** The machine *)

(** [qd_net] are the detection messages in the network, [qd_idle] those that
    [CQdHandler] has put on hold until the processor is idle. *)
Record sys := mk_sys {
  pes : nat -> ConvQdState;
  apps : list nat;
  qd_net : list (nat * ConvQdMsg);
  qd_idle : list (nat * ConvQdMsg);
  announcements : list nat
}.

Definition set_pe (p : nat) (s : ConvQdState) (f : nat -> ConvQdState) : nat -> ConvQdState :=
  fun q => if q =? p then s else f q.

Section machine.
Variable N : nat.
Context `{SpanTree}.

Inductive step : sys -> sys -> Prop :=
  (** A processor takes an application message from the network and its
      handler sends messages to [dsts]. *)
  | step_app s p rest dsts :
      apps s ≡ₚ p :: rest -> p < N -> Forall (fun q => q < N) dsts ->
      step s (mk_sys (set_pe p (CQdCreate (Z.of_nat (length dsts)) (CQdProcess 1 (pes s p))) (pes s))
                (rest ++ dsts) (qd_net s) (qd_idle s) (announcements s))
  (** [CQdHandler] of a detection message. *)
  | step_deliver s p m rest :
      qd_net s ≡ₚ (p, m) :: rest ->
      step s (mk_sys (set_pe p (CQdHandler (pes s p)) (pes s)) (apps s) rest
                (qd_idle s ++ [(p, m)]) (announcements s))
  (** [CQdCallWhenIdle] of a message on hold. *)
  | step_idle s p m rest fx :
      qd_idle s ≡ₚ (p, m) :: rest ->
      CQdCallWhenIdle N p (pes s p) m = Normal fx ->
      step s (mk_sys (set_pe p (fx_state fx) (pes s)) (apps s) (qd_net s ++ fx_out fx) rest
                (announcements s ++ (if fx_ann fx then seq 0 N else [])))
  (** Any processor may ask for quiescence detection at any time. *)
  | step_start s p garbage :
      p < N ->
      step s (mk_sys (set_pe p (fx_state (CmiStartQD (pes s p) garbage)) (pes s)) (apps s)
                (qd_net s ++ fx_out (CmiStartQD (pes s p) garbage)) (qd_idle s) (announcements s))
  (** [CQdAnnounceHandler]. *)
  | step_announce s p rest :
      announcements s ≡ₚ p :: rest ->
      step s (mk_sys (set_pe p (CQdAnnounceHandler (pes s p)) (pes s)) (apps s) (qd_net s)
                (qd_idle s) rest).

(** The machine starts with application messages in transit to [dsts], sent by
    processor 0. *)
Inductive reachable : sys -> Prop :=
  | reach_init dsts :
      Forall (fun q => q < N) dsts ->
      reachable (mk_sys (set_pe 0 (CQdCreate (Z.of_nat (length dsts)) (CQdStateCreate 0)) CQdStateCreate)
                   dsts [] [] [])
  | reach_step s s' : reachable s -> step s s' -> reachable s'.

End machine.
