(* ===== verification/QuiescenceFacts.v ===== *)
(** * QuiescenceFacts: safety of quiescence detection

    When processor 0 announces quiescence, no application message is in
    transit; and no handler ever fails an assertion.  The proof follows the
    waves of the algorithm: in each wave a processor is not reached yet,
    collecting reports, or has reported to its parent. *)

From S2P Require Import Prelude SpanTree Quiescence.
Set Warnings "-clear-no-such-hyp".

(** ** What the handlers compute *)

Lemma create_cancel s n : CQdCreate n (CQdCreate (- n) s) = s.
Proof. destruct s. unfold CQdCreate. simpl. f_equal. lia. Qed.

Lemma process_cancel s : CQdProcess (-1) (CQdProcess 1 s) = s.
Proof. destruct s. unfold CQdProcess. simpl. f_equal. lia. Qed.

Lemma send_counted dst m x :
  CmiSyncSend dst m (on_state (CQdCreate (-1)) x) = mk_fx (fx_state x) (fx_out x ++ [(dst, m)]) (fx_ann x).
Proof. unfold CmiSyncSend, on_state. simpl. f_equal. apply (create_cancel (fx_state x) 1). Qed.

Lemma propagate_eq m x :
  CQdPropagate m x = mk_fx (fx_state x) (fx_out x ++ ((fun c => (c, m)) <$> children (fx_state x))) (fx_ann x).
Proof.
  unfold CQdPropagate. generalize (children (fx_state x)) as l. intros l. revert x.
  induction l as [|c l IH]; intros [s o a]; simpl; [by rewrite app_nil_r|].
  rewrite send_counted, IH. simpl. by rewrite <- app_assoc.
Qed.

(** The state and the messages of a processor that joins a wave. *)
Definition joined (k : Z) (mark : bool) (s : ConvQdState) : ConvQdState :=
  mk_qd k false (if mark then mProcessed s else oProcessed s) (mCreated s) (mProcessed s) 0 0 0
    (nChildren s) (parent s) (children s).

Lemma bcast1_eq pe x msg :
  CQdBcastQD1 pe x msg = Normal (mk_fx (joined 1 true (fx_state x))
    (fx_out x ++ ((fun c => (c, CQdMsgSetPhase 0 msg)) <$> children (fx_state x)) ++
       [(pe, mk_qmsg 1 (mCreated (fx_state x)) (mProcessed (fx_state x)) (m_dirty msg))]) (fx_ann x)).
Proof.
  unfold CQdBcastQD1. cbv zeta. rewrite propagate_eq. cbn [mbind outcome_bind CQdMsgSetCreated
    CQdMsgSetProcessed CmiAssert CQdMsgSetPhase phase Z.eqb Pos.eqb fx_state].
  rewrite send_counted. unfold on_state. simpl. by rewrite <- app_assoc.
Qed.

Lemma bcast2_eq pe x msg :
  CQdBcastQD2 pe x msg = Normal (mk_fx (joined 2 false (fx_state x))
    (fx_out x ++ ((fun c => (c, CQdMsgSetPhase 1 msg)) <$> children (fx_state x)) ++
       [(pe, mk_qmsg 2 (m_created msg) (m_processed msg) (CQdIsDirty (fx_state x)))]) (fx_ann x)).
Proof.
  unfold CQdBcastQD2. cbv zeta. rewrite propagate_eq. cbn [mbind outcome_bind CQdMsgSetDirty
    CmiAssert CQdMsgSetPhase phase Z.eqb Pos.eqb fx_state].
  rewrite send_counted. unfold on_state. simpl. by rewrite <- app_assoc.
Qed.

(** ** Sums over the processors *)

Definition sumN (N : nat) (f : nat -> Z) : Z := foldr Z.add 0%Z (f <$> seq 0 N).

Lemma foldr_app_add l1 l2 : foldr Z.add 0%Z (l1 ++ l2) = (foldr Z.add 0 l1 + foldr Z.add 0 l2)%Z.
Proof. induction l1 as [|x l1 IH]; simpl; [done|]. rewrite IH. lia. Qed.

Lemma foldr_add_perm (l1 l2 : list Z) : l1 ≡ₚ l2 -> foldr Z.add 0%Z l1 = foldr Z.add 0%Z l2.
Proof. induction 1; simpl; lia. Qed.

Lemma sumN_S N f : sumN (S N) f = (sumN N f + f N)%Z.
Proof.
  unfold sumN. rewrite seq_S, fmap_app, foldr_app_add. simpl. lia.
Qed.

Lemma sumN_ext N f g : (forall p, p < N -> f p = g p) -> sumN N f = sumN N g.
Proof.
  intros Hfg. unfold sumN. f_equal. apply list_fmap_ext. intros i x Hx%lookup_seq. apply Hfg. lia.
Qed.

Lemma sumN_update N f g p :
  p < N -> (forall q, q <> p -> q < N -> g q = f q) -> sumN N g = (sumN N f - f p + g p)%Z.
Proof.
  induction N as [|N IH]; intros Hp Hq; [lia|]. rewrite !sumN_S.
  destruct (decide (p = N)) as [->|].
  - rewrite (sumN_ext N g f) by (intros; apply Hq; lia). lia.
  - rewrite IH by (lia || (intros; apply Hq; lia)). rewrite (Hq N) by lia. lia.
Qed.

Lemma sumN_sub_zero N f g :
  (forall p : nat, p < N -> (f p <= g p)%Z) -> sumN N f = sumN N g -> forall p, p < N -> f p = g p.
Proof.
  assert (forall M, (forall p : nat, p < M -> (f p <= g p)%Z) -> (sumN M f <= sumN M g)%Z) as Hle.
  { induction M as [|M IH]; intros HM; [done|]. rewrite !sumN_S.
    pose proof (IH (fun p Hp => HM p ltac:(lia))). pose proof (HM M ltac:(lia)). lia. }
  induction N as [|N IH]; intros Hfg Hs p Hp; [lia|]. rewrite !sumN_S in Hs.
  pose proof (Hle N (fun p Hp => Hfg p ltac:(lia))). pose proof (Hfg N ltac:(lia)).
  destruct (decide (p = N)) as [->|]; [lia|]. apply IH; [intros; apply Hfg; lia|lia|lia].
Qed.

(** ** Waves *)

Inductive status := Unreached | Collecting | Reported.

#[global] Instance status_eq : EqDecision status.
Proof. solve_decision. Defined.

Definition set_st (p : nat) (x : status) (st : nat -> status) : nat -> status :=
  fun q => if q =? p then x else st q.

Lemma set_st_eq p x st : set_st p x st p = x.
Proof. unfold set_st. by rewrite Nat.eqb_refl. Qed.
Lemma set_st_ne p x st q : q <> p -> set_st p x st q = st q.
Proof. intros H. unfold set_st. apply Nat.eqb_neq in H. by rewrite H. Qed.
Lemma set_pe_eq p x S : set_pe p x S p = x.
Proof. unfold set_pe. by rewrite Nat.eqb_refl. Qed.
Lemma set_pe_ne p x S q : q <> p -> set_pe p x S q = S q.
Proof. intros H. unfold set_pe. apply Nat.eqb_neq in H. by rewrite H. Qed.

(** A request to start detection. *)
Definition is_start (x : nat * ConvQdMsg) : bool := (fst x =? 0) && (phase (snd x) =? 0)%Z.

(** The messages to [p] that belong to a wave. *)
Definition for_pe (p : nat) (x : nat * ConvQdMsg) : Prop := fst x = p /\ is_start x = false.
#[global] Instance for_pe_dec p x : Decision (for_pe p x).
Proof. unfold for_pe. apply _. Defined.
Definition cnt (p : nat) (L : list (nat * ConvQdMsg)) : nat := length (filter (for_pe p) L).

(** The fields that the waves use. *)
Definition clean (s : ConvQdState) : Prop :=
  stage s = 0%Z /\ nReported s = 0 /\ cCreated s = 0%Z /\ cProcessed s = 0%Z.
Definition same_ctl (s s' : ConvQdState) : Prop :=
  stage s' = stage s /\ nReported s' = nReported s /\ cCreated s' = cCreated s /\ cProcessed s' = cProcessed s.

Lemma clean_ctl s s' : same_ctl s s' -> clean s -> clean s'.
Proof. unfold same_ctl, clean. intuition congruence. Qed.

Lemma cnt_app p L1 L2 : cnt p (L1 ++ L2) = cnt p L1 + cnt p L2.
Proof. unfold cnt. by rewrite filter_app, length_app. Qed.

Lemma cnt_perm p L1 L2 : L1 ≡ₚ L2 -> cnt p L1 = cnt p L2.
Proof. intros HL. unfold cnt. by rewrite HL. Qed.

Lemma cnt_cons p x L : cnt p (x :: L) = (if decide (for_pe p x) then 1 else 0) + cnt p L.
Proof. unfold cnt. rewrite filter_cons. by case_decide. Qed.

Lemma cnt_zero p L x : cnt p L = 0 -> x ∈ L -> fst x = p -> is_start x = true.
Proof.
  intros Hc Hx Hp. destruct (is_start x) eqn:E; [done|]. exfalso.
  unfold cnt in Hc. apply nil_length_inv in Hc.
  by apply (filter_nil_not_elem_of _ _ x Hc).
Qed.

Lemma cnt_one q p m : is_start (p, m) = false -> cnt q [(p, m)] = if decide (q = p) then 1 else 0.
Proof.
  intros Hns. rewrite cnt_cons. destruct (decide (q = p)) as [->|].
  - by rewrite decide_True by done.
  - rewrite decide_False; [done|]. unfold for_pe. simpl. naive_solver.
Qed.

(** Messages to a list of processors. *)
Lemma cnt_children p l m :
  NoDup l -> 0 ∉ l -> cnt p ((fun c => (c, m)) <$> l) = if decide (p ∈ l) then 1 else 0.
Proof.
  induction l as [|c l IH]; intros Hnd H0; [done|]. apply NoDup_cons in Hnd as [Hc Hnd].
  rewrite fmap_cons, cnt_cons, IH by (done || set_solver). unfold for_pe, is_start. simpl.
  assert (c <> 0) as Hc0 by (intros ->; set_solver).
  destruct (decide (c = p)) as [->|Hcp].
  - rewrite decide_True by (split; [done|]; apply Nat.eqb_neq in Hc0; by rewrite Hc0).
    rewrite decide_False by done. rewrite decide_True by set_solver. done.
  - rewrite decide_False by naive_solver. destruct (decide (p ∈ l)).
    + rewrite decide_True by set_solver. done.
    + rewrite decide_False by set_solver. done.
Qed.

Lemma filter_ext_in {A} (P Q : A -> Prop) `{!forall x, Decision (P x), !forall x, Decision (Q x)} (l : list A) :
  (forall x, x ∈ l -> P x <-> Q x) -> filter P l = filter Q l.
Proof.
  induction l as [|x l IH]; intros HPQ; [done|]. rewrite !filter_cons.
  assert (filter P l = filter Q l) as -> by (apply IH; intros; apply HPQ; by right).
  pose proof (HPQ x (list_elem_of_here _ _)). destruct (decide (P x)), (decide (Q x)); tauto.
Qed.

Section waves.
Variable N : nat.
Context `{SpanTreeLaws N}.
Hypothesis Npos : 0 < N.

Definition nR (st : nat -> status) (p : nat) : nat :=
  length (filter (fun q => st q = Reported) (tree_children p)).

(** [k] is the stage of the wave (1 or 2); its messages on the way down have
    phase [k-1], those on the way up phase [k]. *)
Record wave_ok (k : Z) (S : nat -> ConvQdState) (st : nat -> status) (L : list (nat * ConvQdMsg)) : Prop := {
  wo_root : st 0 = Collecting;
  wo_u p : p < N -> st p = Unreached ->
    clean (S p) /\ cnt p L = if decide (st (tree_parent p) = Collecting) then 1 else 0;
  wo_c p : p < N -> st p = Collecting ->
    stage (S p) = k /\ (p <> 0 -> st (tree_parent p) = Collecting) /\
    nReported (S p) + cnt p L = 1 + nR st p;
  wo_r p : p < N -> st p = Reported ->
    clean (S p) /\ cnt p L = 0 /\ st (tree_parent p) <> Unreached /\
    (forall q, q ∈ tree_children p -> st q = Reported);
  wo_msg p m : (p, m) ∈ L -> p < N /\
    (is_start (p, m) = true \/ (st p = Unreached /\ phase m = (k - 1)%Z) \/ (st p = Collecting /\ phase m = k))
}.

Lemma child_range p q : p < N -> q ∈ tree_children p -> 0 < q < N /\ tree_parent q = p /\ p < q.
Proof.
  intros Hp Hq%tree_child; [|done]. destruct Hq as [Hq <-]. split_and!; try lia.
  apply tree_parent_lt. lia.
Qed.

Lemma wave_perm k S st L L' : L ≡ₚ L' -> wave_ok k S st L -> wave_ok k S st L'.
Proof.
  intros HL [Hroot Hu Hc Hr Hm].
  split; try done; try (intros p; rewrite <- (cnt_perm p _ _ HL); auto).
  intros p m. rewrite <- HL. apply Hm.
Qed.

Lemma wave_ctl k S S' st L :
  (forall p, p < N -> same_ctl (S p) (S' p)) -> wave_ok k S st L -> wave_ok k S' st L.
Proof.
  intros HS [Hroot Hu Hc Hr Hm]. split; try done.
  - intros p Hp Hst. destruct (Hu p Hp Hst) as [Hcl ?]. split; [|done]. by eapply clean_ctl; [apply HS|].
  - intros p Hp Hst. destruct (HS p Hp) as (-> & -> & _ & _). by apply Hc.
  - intros p Hp Hst. destruct (Hr p Hp Hst) as [Hcl ?]. split; [|done]. by eapply clean_ctl; [apply HS|].
Qed.

(** Requests to start do not belong to the wave. *)
Lemma cnt_start p x L : is_start x = true -> cnt p (x :: L) = cnt p L.
Proof. intros Hx. rewrite cnt_cons, decide_False; [done|]. unfold for_pe. rewrite Hx. naive_solver. Qed.

Lemma wave_drop_start k S st x L : is_start x = true -> wave_ok k S st (x :: L) -> wave_ok k S st L.
Proof.
  intros Hx [Hroot Hu Hc Hr Hm].
  split; try done; try (intros p; rewrite <- (cnt_start p x L Hx); auto).
  intros p m Hin. apply Hm. by right.
Qed.

Lemma wave_add_start k S st x L : is_start x = true -> wave_ok k S st L -> wave_ok k S st (x :: L).
Proof.
  intros Hx [Hroot Hu Hc Hr Hm].
  split; try done; try (intros p; rewrite (cnt_start p x L Hx); auto).
  intros p m [Heq|Hin]%elem_of_cons; [|by apply Hm]. subst x. split; [|by left].
  unfold is_start in Hx. simpl in Hx. apply andb_true_iff in Hx as [->%Nat.eqb_eq _]. done.
Qed.

(** The children of a processor that the wave has not reached are not reached. *)
Lemma unreached_children k S st L p q :
  wave_ok k S st L -> p < N -> st p = Unreached -> q ∈ tree_children p -> st q = Unreached.
Proof.
  intros [Hroot Hu Hc Hr Hm] Hp Hst Hq. destruct (child_range p q Hp Hq) as (Hqr & Hpar & Hlt).
  destruct (st q) eqn:E; [done| |].
  - destruct (Hc q) as (_ & Hpc & _); [lia|done|]. rewrite Hpar in Hpc. rewrite Hpc in Hst; [done|lia].
  - destruct (Hr q) as (_ & _ & Hpu & _); [lia|done|]. by rewrite Hpar in Hpu.
Qed.

Lemma nR_zero st p : (forall q, q ∈ tree_children p -> st q <> Reported) -> nR st p = 0.
Proof.
  intros Hst. unfold nR. induction (tree_children p) as [|c l IH]; [done|].
  rewrite filter_cons_False by (apply Hst; by left). apply IH. intros q Hq. apply Hst. by right.
Qed.

Lemma nR_ext st st' p : (forall q, q ∈ tree_children p -> st' q = Reported <-> st q = Reported) -> nR st' p = nR st p.
Proof. intros Hst. unfold nR. f_equal. by apply filter_ext_in. Qed.

Lemma nR_full st p :
  nR st p = length (tree_children p) -> forall q, q ∈ tree_children p -> st q = Reported.
Proof.
  unfold nR. induction (tree_children p) as [|c l IH]; intros Hl q Hq; [by apply not_elem_of_nil in Hq|].
  pose proof (length_filter (fun q => st q = Reported) l) as Hle. rewrite filter_cons in Hl.
  case_decide; simpl in Hl; [|lia]. apply elem_of_cons in Hq as [->|Hq]; [done|]. apply IH; [lia|done].
Qed.

Lemma nR_report st p q :
  p < N -> q ∈ tree_children p -> st q <> Reported -> nR (set_st q Reported st) p = S (nR st p).
Proof.
  intros Hp. pose proof (tree_nodup p Hp) as Hnd. unfold nR.
  induction (tree_children p) as [|c l IH]; intros Hq Hst; [by apply not_elem_of_nil in Hq|].
  apply NoDup_cons in Hnd as [Hc Hnd].
  assert (forall l : list nat, q ∉ l -> filter (fun x => set_st q Reported st x = Reported) l =
    filter (fun x => st x = Reported) l) as Hsame.
  { intros l0 Hl0. apply filter_ext_in. intros x Hx. rewrite set_st_ne; [done|]. by intros ->. }
  destruct (decide (c = q)) as [->|Hcq].
  - rewrite filter_cons_True by (by rewrite set_st_eq). rewrite filter_cons_False by done.
    simpl. by rewrite Hsame.
  - rewrite !filter_cons. rewrite set_st_ne by done.
    destruct (decide (st c = Reported)); simpl; rewrite IH; try done; set_solver.
Qed.

(** A processor joins the wave. *)
Lemma wave_visit k S st p m L s' mU mC :
  wave_ok k S st ((p, m) :: L) -> is_start (p, m) = false -> st p = Unreached ->
  stage s' = k -> nReported s' = 0 -> (1 <= k)%Z -> phase mU = (k - 1)%Z -> phase mC = k ->
  wave_ok k (set_pe p s' S) (set_st p Collecting st)
    (L ++ ((fun c => (c, mU)) <$> tree_children p) ++ [(p, mC)]).
Proof.
  intros Hwo Hns Hst Hs1 Hs2 Hk HmU HmC. pose proof Hwo as [Hroot Hu Hc Hr Hm].
  destruct (Hm p m) as [Hp _]; [by left|].
  assert (p <> 0) as Hp0 by (intros ->; congruence).
  assert (0 ∉ tree_children p) as Hz by (intros Hin%child_range; [lia|done]).
  assert (p ∉ tree_children p) as Hpp by (intros Hin%child_range; [lia|done]).
  pose proof (tree_parent_lt p ltac:(lia)) as Hpl.
  assert (forall q, cnt q (L ++ ((fun c => (c, mU)) <$> tree_children p) ++ [(p, mC)]) =
    cnt q L + (if decide (q ∈ tree_children p) then 1 else 0) + (if decide (q = p) then 1 else 0)) as Hcnt.
  { intros q. rewrite !cnt_app, cnt_children by (done || by apply tree_nodup). rewrite Nat.add_assoc. f_equal.
    rewrite cnt_cons. unfold for_pe, is_start. simpl. destruct (decide (q = p)) as [->|].
    - rewrite decide_True; [done|]. split; [done|]. apply Nat.eqb_neq in Hp0. by rewrite Hp0.
    - rewrite decide_False; [done|]. naive_solver. }
  assert (forall q, q <> p -> cnt q ((p, m) :: L) = cnt q L) as Hcq.
  { intros q Hq. rewrite cnt_cons, decide_False; [done|]. unfold for_pe. simpl. naive_solver. }
  destruct (Hu p Hp Hst) as [_ Hcp]. rewrite cnt_cons, decide_True in Hcp by done.
  case_decide as Hpar; [|lia].
  assert (forall q, q < N -> set_st p Collecting st q = Unreached -> st q = Unreached /\ q <> p) as HsetU.
  { intros q _. destruct (decide (q = p)) as [->|]; [by rewrite set_st_eq|by rewrite set_st_ne]. }
  split.
  - rewrite set_st_ne; [done|lia].
  - intros q Hq Hqst. destruct (HsetU q Hq Hqst) as [Hq1 Hq2].
    rewrite set_pe_ne by done. destruct (Hu q Hq Hq1) as [Hcl Hcn]. split; [done|].
    rewrite Hcnt, (decide_False (P := q = p)), <- Hcq, Hcn by done.
    assert (q <> 0) as Hq0 by (intros ->; congruence).
    destruct (decide (q ∈ tree_children p)) as [Hin|Hin].
    + destruct (child_range p q Hp Hin) as (_ & -> & _). rewrite set_st_eq.
      rewrite decide_False by (by rewrite Hst). by rewrite decide_True.
    + rewrite set_st_ne; [lia|]. intros E. apply Hin, tree_child; [done|]. lia.
  - intros q Hq Hqst. destruct (decide (q = p)) as [->|Hqp].
    + rewrite set_pe_eq. split; [done|]. split; [intros _; rewrite set_st_ne; [done|lia]|].
      rewrite Hcnt, decide_False, decide_True, Hs2 by done.
      rewrite nR_zero; [lia|]. intros q Hqin. rewrite set_st_ne by (by intros ->).
      rewrite (unreached_children _ _ _ _ _ _ Hwo Hp Hst Hqin). done.
    + rewrite set_st_ne in Hqst by done. rewrite set_pe_ne by done.
      destruct (Hc q Hq Hqst) as (Hq1 & Hq2 & Hq3). split; [done|]. split.
      * intros Hq0. specialize (Hq2 Hq0). rewrite set_st_ne; [done|]. intros E. rewrite E in Hq2. congruence.
      * rewrite Hcnt, (decide_False (P := q = p)) by done. rewrite decide_False.
        -- rewrite <- Hcq by done. rewrite !Nat.add_0_r, Hq3. f_equal. symmetry. apply nR_ext.
           intros x Hx. destruct (decide (x = p)) as [->|]; [by rewrite set_st_eq, Hst|by rewrite set_st_ne].
        -- intros Hin. rewrite (unreached_children _ _ _ _ _ _ Hwo Hp Hst Hin) in Hqst. done.
  - intros q Hq Hqst. assert (q <> p) as Hqp by (intros ->; by rewrite set_st_eq in Hqst).
    rewrite set_st_ne in Hqst by done. rewrite set_pe_ne by done.
    destruct (Hr q Hq Hqst) as (Hcl & Hcn & Hpn & Hch). split; [done|]. split.
    + rewrite Hcnt, (decide_False (P := q = p)), decide_False, <- Hcq by
        (done || intros Hin; rewrite (unreached_children _ _ _ _ _ _ Hwo Hp Hst Hin) in Hqst; done). lia.
    + split.
      * destruct (decide (tree_parent q = p)) as [->|]; [by rewrite set_st_eq|by rewrite set_st_ne].
      * intros x Hx. specialize (Hch x Hx). rewrite set_st_ne; [done|]. intros ->. congruence.
  - intros q m' Hin. rewrite !elem_of_app, list_elem_of_fmap, list_elem_of_singleton in Hin.
    destruct Hin as [Hin|[(c & [= -> ->] & Hin)|[= -> ->]]].
    + destruct (Hm q m') as [Hq Hcase]; [by right|]. split; [done|].
      destruct Hcase as [?|[[Hq1 Hph]|[Hq1 Hph]]]; [by left| |].
      * destruct (decide (q = p)) as [->|Hqp]; [|right; left; by rewrite set_st_ne].
        left. apply (cnt_zero p L); [lia|done|done].
      * right; right. rewrite set_st_ne; [done|]. intros ->. congruence.
    + destruct (child_range p c Hp Hin) as (Hcr & _ & _). split; [lia|]. right; left.
      rewrite set_st_ne by (by intros ->). split; [|done]. by eapply unreached_children.
    + split; [done|]. right; right. by rewrite set_st_eq.
Qed.

(** A collecting processor takes a report and waits for more. *)
Lemma wave_collect k S st p m L s' :
  wave_ok k S st ((p, m) :: L) -> is_start (p, m) = false -> st p = Collecting ->
  stage s' = k -> nReported s' = Datatypes.S (nReported (S p)) ->
  wave_ok k (set_pe p s' S) st L.
Proof.
  intros [Hroot Hu Hc Hr Hm] Hns Hst Hs1 Hs2.
  assert (forall q, q <> p -> cnt q ((p, m) :: L) = cnt q L) as Hcq.
  { intros q Hq. rewrite cnt_cons, decide_False; [done|]. unfold for_pe. simpl. naive_solver. }
  assert (forall q, st q <> Collecting -> q <> p) as Hne by (intros q Hq ->; done).
  split; try done.
  - intros q Hq Hqst. rewrite set_pe_ne, <- Hcq by (apply Hne; congruence). by apply Hu.
  - intros q Hq Hqst. destruct (Hc q Hq Hqst) as (Hq1 & Hq2 & Hq3).
    destruct (decide (q = p)) as [->|]; [|by rewrite set_pe_ne, <- Hcq by done].
    rewrite set_pe_eq. split_and!; try done. rewrite cnt_cons, decide_True in Hq3 by done. lia.
  - intros q Hq Hqst. rewrite set_pe_ne, <- Hcq by (apply Hne; congruence). by apply Hr.
  - intros q m' Hin. apply Hm. by right.
Qed.

(** The last report of a collecting processor: all its children have
    reported and no message of the wave is on the way to it. *)
Lemma wave_last k S st p m L :
  wave_ok k S st ((p, m) :: L) -> is_start (p, m) = false -> st p = Collecting ->
  nReported (S p) = length (tree_children p) ->
  cnt p L = 0 /\ (forall q, q ∈ tree_children p -> st q = Reported).
Proof.
  intros [Hroot Hu Hc Hr Hm] Hns Hst Hall. destruct (Hm p m) as [Hp _]; [by left|].
  destruct (Hc p Hp Hst) as (_ & _ & Heq). rewrite cnt_cons, decide_True in Heq by done.
  pose proof (length_filter (fun q => st q = Reported) (tree_children p)) as Hle. fold (nR st p) in Hle.
  split; [lia|]. apply nR_full. lia.
Qed.

(** A processor other than the root reports to its parent. *)
Lemma wave_complete k S st p m L s' m' :
  wave_ok k S st ((p, m) :: L) -> is_start (p, m) = false -> st p = Collecting -> p <> 0 ->
  nReported (S p) = length (tree_children p) ->
  clean s' -> phase m' = k -> (1 <= k)%Z ->
  wave_ok k (set_pe p s' S) (set_st p Reported st) (L ++ [(tree_parent p, m')]).
Proof.
  intros Hwo Hns Hst Hp0 Hall Hcl Hm' Hk.
  destruct (wave_last _ _ _ _ _ _ Hwo Hns Hst Hall) as [Hc0 Hch].
  pose proof Hwo as [Hroot Hu Hc Hr Hm]. destruct (Hm p m) as [Hp _]; [by left|].
  pose proof (tree_parent_lt p ltac:(lia)) as Hpl.
  destruct (Hc p Hp Hst) as (_ & Hpar & _). specialize (Hpar Hp0).
  assert (is_start (tree_parent p, m') = false) as Hns'.
  { unfold is_start. simpl. destruct (Z.eqb_spec (phase m') 0); [lia|]. by rewrite andb_false_r. }
  assert (forall q, cnt q (L ++ [(tree_parent p, m')]) =
    cnt q L + if decide (q = tree_parent p) then 1 else 0) as Hcnt.
  { intros q. by rewrite cnt_app, cnt_one. }
  assert (forall q, q <> p -> cnt q ((p, m) :: L) = cnt q L) as Hcq.
  { intros q Hq. rewrite cnt_cons, decide_False; [done|]. unfold for_pe. simpl. naive_solver. }
  split.
  - rewrite set_st_ne; [done|lia].
  - intros q Hq Hqst. assert (q <> p) as Hqp by (intros ->; by rewrite set_st_eq in Hqst).
    rewrite set_st_ne in Hqst by done. rewrite set_pe_ne by done. destruct (Hu q Hq Hqst) as [Hqc Hqn].
    split; [done|]. rewrite Hcnt, <- Hcq by done. rewrite decide_False by (intros ->; congruence).
    rewrite Hqn, Nat.add_0_r. assert (q <> 0) as Hq0 by (intros ->; congruence).
    rewrite set_st_ne; [done|]. intros E.
    assert (q ∈ tree_children p) as Hin by (apply tree_child; [done|lia]). by rewrite (Hch q Hin) in Hqst.
  - intros q Hq Hqst. assert (q <> p) as Hqp by (intros ->; by rewrite set_st_eq in Hqst).
    rewrite set_st_ne in Hqst by done. rewrite set_pe_ne by done.
    destruct (Hc q Hq Hqst) as (Hq1 & Hq2 & Hq3). split; [done|]. split.
    + intros Hq0. specialize (Hq2 Hq0). rewrite set_st_ne; [done|]. intros E.
      assert (q ∈ tree_children p) as Hin by (apply tree_child; [done|lia]). by rewrite (Hch q Hin) in Hqst.
    + rewrite Hcnt, <- Hcq by done. destruct (decide (q = tree_parent p)) as [->|Hqn].
      * rewrite nR_report; [lia|done| |by rewrite Hst]. apply tree_child; [done|lia].
      * rewrite Nat.add_0_r, Hq3. f_equal. symmetry. apply nR_ext. intros x Hx.
        rewrite set_st_ne; [done|]. intros ->. apply Hqn. by destruct (child_range q p Hq Hx) as (_ & -> & _).
  - intros q Hq Hqst. destruct (decide (q = p)) as [->|Hqp].
    + rewrite set_pe_eq, Hcnt, decide_False, Hc0 by lia. split_and!; try done.
      * rewrite set_st_ne by lia. by rewrite Hpar.
      * intros x Hx. destruct (decide (x = p)) as [->|]; [by rewrite set_st_eq|].
        rewrite set_st_ne by done. by apply Hch.
    + rewrite set_st_ne in Hqst by done. rewrite set_pe_ne by done.
      destruct (Hr q Hq Hqst) as (Hqc & Hqn & Hqp' & Hqch). split; [done|].
      rewrite Hcnt, <- Hcq, decide_False by (done || intros ->; congruence). split; [lia|]. split.
      * destruct (decide (tree_parent q = p)) as [->|]; [by rewrite set_st_eq|by rewrite set_st_ne].
      * intros x Hx. destruct (decide (x = p)) as [->|]; [by rewrite set_st_eq|].
        rewrite set_st_ne by done. by apply Hqch.
  - intros q mq [Hin|Hin%list_elem_of_singleton]%elem_of_app.
    + destruct (Hm q mq) as [Hq Hcase]; [by right|]. split; [done|].
      destruct (decide (q = p)) as [->|Hqp]; [left; by apply (cnt_zero p L)|].
      by rewrite set_st_ne.
    + injection Hin as -> ->. split; [lia|]. right; right. rewrite set_st_ne by lia. done.
Qed.

(** When the root has its last report, every other processor has reported. *)
Lemma wave_root_done k S st m L :
  wave_ok k S st ((0, m) :: L) -> is_start (0, m) = false ->
  nReported (S 0) = length (tree_children 0) ->
  (forall p, 0 < p < N -> st p = Reported /\ clean (S p)) /\ Forall (fun x => is_start x = true) L.
Proof.
  intros Hwo Hns Hall. pose proof (wo_root _ _ _ _ Hwo) as Hst.
  destruct (wave_last _ _ _ _ _ _ Hwo Hns Hst Hall) as [Hc0 Hch].
  pose proof Hwo as [_ Hu Hc Hr Hm].
  assert (forall p, 0 < p < N -> st p = Reported) as HR.
  { intros p. induction p as [p IH] using lt_wf_ind. intros Hp.
    pose proof (tree_parent_lt p Hp) as Hpl.
    destruct (decide (tree_parent p = 0)) as [E|E]; [apply Hch, tree_child; lia|].
    destruct (Hr (tree_parent p)) as (_ & _ & _ & Hcp); [lia|apply IH; lia|].
    apply Hcp, tree_child; lia. }
  split.
  - intros p Hp. split; [by apply HR|]. destruct (Hr p) as [? _]; [lia|by apply HR|done].
  - apply Forall_forall. intros [q mq] Hin. destruct (decide (q = 0)) as [->|Hq].
    + by apply (cnt_zero 0 L).
    + destruct (Hm q mq) as [HqN [?|[[E _]|[E _]]]]; [by right|done| |];
        rewrite HR in E by lia; done.
Qed.

Definition root_only (p : nat) : status := if p =? 0 then Collecting else Unreached.

(** The root starts a wave. *)
Lemma wave_start k S L s' mU mC :
  (forall p, 0 < p < N -> clean (S p)) -> Forall (fun x => is_start x = true) L ->
  stage s' = k -> nReported s' = 0 -> (1 <= k)%Z -> phase mU = (k - 1)%Z -> phase mC = k ->
  wave_ok k (set_pe 0 s' S) root_only (L ++ ((fun c => (c, mU)) <$> tree_children 0) ++ [(0, mC)]).
Proof.
  intros Hcl HL Hs1 Hs2 Hk HmU HmC.
  assert (0 ∉ tree_children 0) as Hz by (intros Hin%child_range; [lia|done]).
  assert (forall q, cnt q L = 0) as HcL.
  { intros q. unfold cnt. induction HL as [|x L Hx HL IH]; [done|].
    rewrite filter_cons_False; [done|]. unfold for_pe. rewrite Hx. naive_solver. }
  assert (forall q, cnt q (L ++ ((fun c => (c, mU)) <$> tree_children 0) ++ [(0, mC)]) =
    (if decide (q ∈ tree_children 0) then 1 else 0) + (if decide (q = 0) then 1 else 0)) as Hcnt.
  { intros q. rewrite !cnt_app, cnt_children, HcL by (done || by apply tree_nodup). simpl. f_equal.
    apply cnt_one. unfold is_start. simpl. apply Z.eqb_neq. lia. }
  assert (forall p, root_only p = Unreached -> p <> 0) as HU by (intros p Hp ->; done).
  assert (forall p, p <> 0 -> root_only p = Unreached) as HU'.
  { intros p Hp. unfold root_only. apply Nat.eqb_neq in Hp. by rewrite Hp. }
  split; [done| | | |].
  - intros p Hp Hst%HU. rewrite set_pe_ne by done. split; [apply Hcl; lia|].
    rewrite Hcnt, (decide_False (P := p = 0)), Nat.add_0_r by done.
    destruct (decide (p ∈ tree_children 0)) as [Hin|Hin].
    + destruct (child_range 0 p Npos Hin) as (_ & -> & _). by rewrite decide_True.
    + rewrite decide_False; [done|]. rewrite HU'; [done|]. intros E. apply Hin, tree_child; lia.
  - intros p Hp Hst. assert (p = 0) as ->.
    { destruct (decide (p = 0)); [done|]. by rewrite HU' in Hst. }
    rewrite set_pe_eq, Hs2, Hcnt, decide_False, decide_True by done. split_and!; try done.
    rewrite nR_zero; [done|]. intros q Hq. destruct (child_range 0 q Npos Hq) as (Hqr & _ & _).
    rewrite HU' by lia. done.
  - intros p Hp Hst. unfold root_only in Hst. by destruct (p =? 0).
  - intros q mq Hin. rewrite !elem_of_app, list_elem_of_fmap, list_elem_of_singleton in Hin.
    destruct Hin as [Hin|[(c & [= -> ->] & Hin)|[= -> ->]]].
    + pose proof (proj1 (Forall_forall _ L) HL _ Hin) as Hstart. split; [|by left].
      unfold is_start in Hstart. simpl in Hstart. apply andb_true_iff in Hstart as [->%Nat.eqb_eq _]. done.
    + destruct (child_range 0 c Npos Hin) as (Hcr & _ & _). split; [lia|]. right; left. by rewrite HU' by lia.
    + split; [done|]. by right; right.
Qed.

(** ** Counting in the first wave *)

(** The sum of a field over the reports in transit. *)
Definition msum (g : ConvQdMsg -> Z) (L : list (nat * ConvQdMsg)) : Z :=
  foldr Z.add 0%Z ((fun x => if (phase (snd x) =? 1)%Z then g (snd x) else 0%Z) <$> L).

Lemma msum_app g L1 L2 : msum g (L1 ++ L2) = (msum g L1 + msum g L2)%Z.
Proof. unfold msum. by rewrite fmap_app, foldr_app_add. Qed.

Lemma msum_perm g L1 L2 : L1 ≡ₚ L2 -> msum g L1 = msum g L2.
Proof. intros HL. apply foldr_add_perm. by rewrite HL. Qed.

Lemma msum_cons g p m L : msum g ((p, m) :: L) = ((if (phase m =? 1)%Z then g m else 0) + msum g L)%Z.
Proof. done. Qed.

Lemma msum_down g l m : phase m = 0%Z -> msum g ((fun c => (c, m)) <$> l) = 0%Z.
Proof. intros Hm. induction l as [|c l IH]; [done|]. rewrite fmap_cons, msum_cons, Hm, IH. done. Qed.

Lemma msum_starts g L : Forall (fun x => is_start x = true) L -> msum g L = 0%Z.
Proof.
  induction 1 as [|[p m] L Hx HL IH]; [done|]. rewrite msum_cons, IH.
  unfold is_start in Hx. simpl in Hx. apply andb_true_iff in Hx as [_ ->%Z.eqb_eq]. done.
Qed.

(** What the collecting processors and the reports in transit hold is what
    the processors that joined the wave had counted. *)
Definition held (f : ConvQdState -> Z) (S : nat -> ConvQdState) (st : nat -> status) : Z :=
  sumN N (fun p => if decide (st p = Collecting) then f (S p) else 0%Z).
Definition counted (v : nat -> Z) (st : nat -> status) : Z :=
  sumN N (fun p => if decide (st p = Unreached) then 0%Z else v p).

Lemma held_update f S st p s' x :
  p < N ->
  held f (set_pe p s' S) (set_st p x st) =
  (held f S st - (if decide (st p = Collecting) then f (S p) else 0) +
     (if decide (x = Collecting) then f s' else 0))%Z.
Proof.
  intros Hp. unfold held. rewrite (sumN_update N (fun p => if decide (st p = Collecting) then f (S p) else 0%Z) _ p Hp).
  - by rewrite set_st_eq, set_pe_eq.
  - intros q Hq _. by rewrite set_st_ne, set_pe_ne.
Qed.

Lemma held_same f S st p s' :
  p < N -> held f (set_pe p s' S) st =
  (held f S st + (if decide (st p = Collecting) then f s' - f (S p) else 0))%Z.
Proof.
  intros Hp. unfold held. rewrite (sumN_update N (fun p => if decide (st p = Collecting) then f (S p) else 0%Z) _ p Hp).
  - rewrite set_pe_eq. case_decide; lia.
  - intros q Hq _. by rewrite set_pe_ne.
Qed.

Lemma counted_join v v' st p :
  p < N -> st p = Unreached -> (forall q, q <> p -> v' q = v q) ->
  counted v' (set_st p Collecting st) = (counted v st + v' p)%Z.
Proof.
  intros Hp Hst Hv. unfold counted. rewrite (sumN_update N (fun p => if decide (st p = Unreached) then 0%Z else v p) _ p Hp).
  - rewrite set_st_eq, Hst. simpl. lia.
  - intros q Hq _. rewrite set_st_ne by done. case_decide; [done|by apply Hv].
Qed.

Lemma counted_report v st p :
  st p = Collecting -> counted v (set_st p Reported st) = counted v st.
Proof.
  intros Hst. apply sumN_ext. intros q _. destruct (decide (q = p)) as [->|]; [|by rewrite set_st_ne].
  by rewrite set_st_eq, Hst.
Qed.

Lemma sumN_zero M : sumN M (fun _ => 0%Z) = 0%Z.
Proof. induction M as [|M IH]; [done|]. rewrite sumN_S, IH. done. Qed.

Lemma held_root f S s' : held f (set_pe 0 s' S) root_only = f s'.
Proof.
  unfold held. rewrite (sumN_update N (fun _ => 0%Z) _ 0 Npos), sumN_zero; [done|].
  intros q Hq _. unfold root_only. apply Nat.eqb_neq in Hq. by rewrite Hq.
Qed.

Lemma counted_root v : counted v root_only = v 0.
Proof.
  unfold counted. rewrite (sumN_update N (fun _ => 0%Z) _ 0 Npos), sumN_zero; [done|].
  intros q Hq _. unfold root_only. apply Nat.eqb_neq in Hq. by rewrite Hq.
Qed.

(** ** The invariant *)

Record wave1 (S : nat -> ConvQdState) (st : nat -> status) (L : list (nat * ConvQdMsg)) (snap : nat -> Z) : Prop := {
  w1_wave : wave_ok 1 S st L;
  w1_created : (held cCreated S st + msum m_created L)%Z = counted snap st;
  w1_processed : (held cProcessed S st + msum m_processed L)%Z = counted (fun p => oProcessed (S p)) st;
  w1_snap p : p < N -> st p <> Unreached -> mProcessed (S p) = oProcessed (S p) -> mCreated (S p) = snap p
}.

(** In the second wave, either nothing is in transit or the wave will find
    out that a message was processed since the first one. *)
Definition will_be_dirty (S : nat -> ConvQdState) (st : nat -> status) (L : list (nat * ConvQdMsg)) : Prop :=
  (exists p, p < N /\ st p = Unreached /\ (oProcessed (S p) < mProcessed (S p))%Z) \/
  (exists p, p < N /\ st p = Collecting /\ CQdIsDirty (S p) = true) \/
  (exists p m, (p, m) ∈ L /\ phase m = 2%Z /\ m_dirty m = true).

Inductive phase_ok (S : nat -> ConvQdState) (L : list (nat * ConvQdMsg)) (A : list nat) : Prop :=
  | phase_none :
      (forall p, p < N -> clean (S p)) -> Forall (fun x => is_start x = true) L -> phase_ok S L A
  | phase_first st snap : wave1 S st L snap -> phase_ok S L A
  | phase_second st : wave_ok 2 S st L -> A = [] \/ will_be_dirty S st L -> phase_ok S L A.

Definition knows_tree (S : nat -> ConvQdState) : Prop := forall p, p < N ->
  children (S p) = tree_children p /\ nChildren (S p) = length (tree_children p) /\ parent (S p) = tree_parent p.

Lemma phase_perm S L L' A : L ≡ₚ L' -> phase_ok S L A -> phase_ok S L' A.
Proof.
  intros HL [Hcl Hst|st snap [Hw Hc Hp Hs]|st Hw Hd].
  - apply phase_none; [done|]. by rewrite <- HL.
  - apply (phase_first _ _ _ st snap). split; [by eapply wave_perm| | |done]; by rewrite <- (msum_perm _ _ _ HL).
  - apply (phase_second _ _ _ st); [by eapply wave_perm|]. destruct Hd as [?|Hd]; [by left|right].
    unfold will_be_dirty in *. by setoid_rewrite <- HL.
Qed.

Lemma phase_ext S S' L A : (forall p, p < N -> S' p = S p) -> phase_ok S L A -> phase_ok S' L A.
Proof.
  intros HS. assert (forall p, p < N -> same_ctl (S p) (S' p)) as Hctl by (intros p Hp; rewrite HS by done; done).
  intros [Hcl Hst|st snap [Hw Hc Hp Hs]|st Hw Hd].
  - apply phase_none; [|done]. intros p Hp. rewrite HS by done. by apply Hcl.
  - apply (phase_first _ _ _ st snap). split.
    + by eapply wave_ctl.
    + rewrite <- Hc. f_equal. apply sumN_ext. intros p Hp'. by rewrite HS.
    + unfold held. rewrite (sumN_ext N _ (fun p => if decide (st p = Collecting) then cProcessed (S p) else 0%Z))
        by (intros; by rewrite HS). fold (held cProcessed S st). rewrite Hp. apply sumN_ext. intros q Hq. by rewrite HS.
    + intros p Hp'. rewrite HS by done. by apply Hs.
  - apply (phase_second _ _ _ st); [by eapply wave_ctl|]. destruct Hd as [?|[(p & ? & ? & ?)|[(p & ? & ? & ?)|?]]].
    + by left.
    + right. left. exists p. by rewrite HS.
    + right. right. left. exists p. by rewrite HS.
    + by do 3 right.
Qed.

(** ** Waves start *)

Lemma start_first S L A s0 msg :
  (forall p, 0 < p < N -> clean (S p)) -> Forall (fun x => is_start x = true) L ->
  phase_ok (set_pe 0 (joined 1 true s0) S)
    (L ++ ((fun c => (c, CQdMsgSetPhase 0 msg)) <$> tree_children 0) ++
       [(0, mk_qmsg 1 (mCreated s0) (mProcessed s0) (m_dirty msg))]) A.
Proof.
  intros Hcl HL. apply (phase_first _ _ _ root_only (fun _ => mCreated s0)). split.
  - by apply wave_start.
  - rewrite held_root, counted_root, !msum_app, msum_starts, msum_down, msum_cons by done. simpl. unfold msum. simpl. lia.
  - rewrite held_root, counted_root, !msum_app, msum_starts, msum_down, msum_cons by done.
    rewrite set_pe_eq. simpl. unfold msum. simpl. lia.
  - intros p Hp Hst _. assert (p = 0) as ->; [|done].
    unfold root_only in Hst. by destruct (Nat.eqb_spec p 0).
Qed.

Lemma start_second S L A s0 msg :
  (forall p, 0 < p < N -> clean (S p)) -> Forall (fun x => is_start x = true) L ->
  (A = [] \/ (exists p, 0 < p < N /\ (oProcessed (S p) < mProcessed (S p))%Z) \/ CQdIsDirty s0 = true) ->
  phase_ok (set_pe 0 (joined 2 false s0) S)
    (L ++ ((fun c => (c, CQdMsgSetPhase 1 msg)) <$> tree_children 0) ++
       [(0, mk_qmsg 2 (m_created msg) (m_processed msg) (CQdIsDirty s0))]) A.
Proof.
  intros Hcl HL Hd. apply (phase_second _ _ _ root_only); [by apply wave_start|].
  destruct Hd as [?|[(p & Hp & Hd)|Hd]]; [by left| |].
  - right. left. exists p. rewrite set_pe_ne by lia. split_and!; try done; [lia|].
    unfold root_only. destruct (Nat.eqb_spec p 0); [lia|done].
  - do 3 right. exists 0, (mk_qmsg 2 (m_created msg) (m_processed msg) (CQdIsDirty s0)).
    split; [|done]. rewrite !elem_of_app, list_elem_of_singleton. by do 2 right.
Qed.

(** ** The first wave *)

Lemma first_visit S L A st snap p m s0 :
  wave1 S st ((p, m) :: L) snap -> is_start (p, m) = false -> st p = Unreached -> phase m = 0%Z -> s0 = S p ->
  phase_ok (set_pe p (joined 1 true s0) S)
    (L ++ ((fun c => (c, CQdMsgSetPhase 0 m)) <$> tree_children p) ++
       [(p, mk_qmsg 1 (mCreated s0) (mProcessed s0) (m_dirty m))]) A.
Proof.
  intros [Hw Hc Hp Hs] Hns Hst Hph ->. destruct (wo_msg _ _ _ _ Hw p m) as [HpN _]; [by left|].
  apply (phase_first _ _ _ (set_st p Collecting st) (fun q => if q =? p then mCreated (S p) else snap q)). split.
  - by eapply wave_visit.
  - rewrite held_update, (counted_join snap), !msum_app, msum_down, msum_cons by
      (done || (intros q Hq; apply Nat.eqb_neq in Hq; by rewrite Hq)).
    rewrite msum_cons, Hph in Hc. rewrite Hst, Nat.eqb_refl. simpl in *. unfold msum at 2. simpl. lia.
  - rewrite held_update, (counted_join (fun p => oProcessed (S p))), !msum_app, msum_down, msum_cons by
      (done || (intros q Hq; by rewrite set_pe_ne)).
    rewrite msum_cons, Hph in Hp. rewrite Hst, set_pe_eq. simpl in *. unfold msum at 2. simpl. lia.
  - intros q Hq Hqst. destruct (Nat.eqb_spec q p) as [->|Hqp]; [by rewrite set_pe_eq|].
    rewrite set_st_ne in Hqst by done. rewrite set_pe_ne by done. by apply Hs.
Qed.

Definition reported1 (m : ConvQdMsg) (s : ConvQdState) : ConvQdState :=
  CQdReported (CQdSubtreeProcess (m_processed m) (CQdSubtreeCreate (m_created m) s)).

Lemma first_collect S L A st snap p m :
  wave1 S st ((p, m) :: L) snap -> st p = Collecting -> phase m = 1%Z ->
  phase_ok (set_pe p (reported1 m (S p)) S) L A.
Proof.
  intros [Hw Hc Hp Hs] Hst Hph. destruct (wo_msg _ _ _ _ Hw p m) as [HpN _]; [by left|].
  assert (is_start (p, m) = false) as Hns by (unfold is_start; simpl; rewrite Hph; by rewrite andb_false_r).
  apply (phase_first _ _ _ st snap). split.
  - eapply wave_collect; try done. by apply (wo_c _ _ _ _ Hw).
  - rewrite held_same by done. rewrite Hst. rewrite msum_cons, Hph in Hc. simpl in *. lia.
  - rewrite held_same by done. rewrite Hst. rewrite msum_cons, Hph in Hp. simpl in *.
    replace (counted _ st) with (counted (fun p => oProcessed (S p)) st); [lia|].
    apply sumN_ext. intros q Hq. destruct (decide (q = p)) as [->|]; [by rewrite set_pe_eq|by rewrite set_pe_ne].
  - intros q Hq Hqst. destruct (decide (q = p)) as [->|]; [|rewrite set_pe_ne by done; by apply Hs].
    rewrite set_pe_eq. by apply Hs.
Qed.

(** A processor that has reported. *)
Definition retired (s : ConvQdState) : ConvQdState := CQdSetStage 0 (CQdReset s).

Lemma first_complete S L A st snap p m d :
  wave1 S st ((p, m) :: L) snap -> st p = Collecting -> phase m = 1%Z -> p <> 0 ->
  nReported (S p) = length (tree_children p) ->
  let s := reported1 m (S p) in
  phase_ok (set_pe p (retired s) S) (L ++ [(tree_parent p, mk_qmsg 1 (cCreated s) (cProcessed s) d)]) A.
Proof.
  intros [Hw Hc Hp Hs] Hst Hph Hp0 Hall s. destruct (wo_msg _ _ _ _ Hw p m) as [HpN _]; [by left|].
  assert (is_start (p, m) = false) as Hns by (unfold is_start; simpl; rewrite Hph; by rewrite andb_false_r).
  apply (phase_first _ _ _ (set_st p Reported st) snap). split.
  - by eapply wave_complete.
  - rewrite held_update, counted_report, msum_app, msum_cons by done. rewrite Hst.
    rewrite msum_cons, Hph in Hc. simpl in *. unfold msum at 2. simpl. lia.
  - rewrite held_update, msum_app, msum_cons by done. rewrite Hst.
    rewrite msum_cons, Hph in Hp. simpl in *. unfold msum at 2. simpl.
    replace (counted _ (set_st p Reported st)) with (counted (fun p => oProcessed (S p)) st); [lia|].
    rewrite <- (counted_report _ st p Hst). apply sumN_ext. intros q Hq.
    destruct (decide (q = p)) as [->|]; [by rewrite set_pe_eq|by rewrite set_pe_ne].
  - intros q Hq Hqst. destruct (decide (q = p)) as [->|Hqp].
    + rewrite set_pe_eq. apply Hs; [done|]. by rewrite Hst.
    + rewrite set_st_ne in Hqst by done. rewrite set_pe_ne by done. by apply Hs.
Qed.

(** At the end of the first wave with equal sums, either nothing is in transit
    or some processor has processed a message since it was counted. *)
Lemma first_done S L (A : list nat) st snap m :
  wave1 S st ((0, m) :: L) snap -> phase m = 1%Z -> nReported (S 0) = length (tree_children 0) ->
  (forall p, p < N -> (oProcessed (S p) <= mProcessed (S p))%Z) ->
  (sumN N (fun p => mCreated (S p)) - sumN N (fun p => mProcessed (S p)) = Z.of_nat (length A))%Z ->
  (forall p, 0 < p < N -> clean (S p)) /\ Forall (fun x => is_start x = true) L /\
  (cCreated (reported1 m (S 0)) = cProcessed (reported1 m (S 0)) ->
   A = [] \/ exists p, p < N /\ (oProcessed (S p) < mProcessed (S p))%Z).
Proof.
  intros [Hw Hc Hp Hs] Hph Hall Hmark Hcons.
  assert (is_start (0, m) = false) as Hns by (unfold is_start; simpl; by rewrite Hph).
  destruct (wave_root_done _ _ _ _ _ Hw Hns Hall) as [Hcl HL].
  pose proof (wo_root _ _ _ _ Hw) as Hst0.
  split; [intros p Hp'; by apply Hcl|]. split; [done|]. intros Heq. simpl in Heq.
  assert (forall f, held f S st = f (S 0)) as Hheld.
  { intros f. unfold held. rewrite (sumN_update N (fun _ => 0%Z) _ 0 Npos), sumN_zero.
    - rewrite Hst0. simpl. lia.
    - intros q Hq HqN. destruct (Hcl q) as [-> _]; [lia|done]. }
  assert (forall p, p < N -> st p <> Unreached) as Hvis.
  { intros p Hp'. destruct (decide (p = 0)) as [->|]; [by rewrite Hst0|].
    destruct (Hcl p) as [-> _]; [lia|done]. }
  assert (forall v, counted v st = sumN N v) as Hcnt.
  { intros v. apply sumN_ext. intros p Hp'. by rewrite decide_False by (by apply Hvis). }
  rewrite Hheld, Hcnt, msum_cons, Hph, msum_starts in Hc by done.
  rewrite Hheld, Hcnt, msum_cons, Hph, msum_starts in Hp by done. simpl in Hc, Hp.
  destruct (decide (Forall (fun p => mProcessed (S p) <= oProcessed (S p))%Z (seq 0 N))) as [Hall'|Hsome].
  - left. rewrite Forall_forall in Hall'.
    assert (forall p, p < N -> mProcessed (S p) = oProcessed (S p)) as Hsame.
    { intros p Hp'. specialize (Hmark p Hp').
      assert (p ∈ seq 0 N) as Hin by (apply elem_of_seq; lia). specialize (Hall' p Hin). simpl in Hall'. lia. }
    rewrite (sumN_ext N (fun p => mCreated (S p)) snap), (sumN_ext N (fun p => mProcessed (S p)) (fun p => oProcessed (S p)))
      in Hcons; [apply nil_length_inv; lia|done|].
    intros p Hp'. apply Hs; [done|by apply Hvis|by apply Hsame].
  - right. apply not_Forall_Exists, Exists_exists in Hsome as (p & Hp'%elem_of_seq & Hlt); [|apply _].
    exists p. split; [lia|]. simpl in Hlt. lia.
Qed.

(** ** The second wave *)

Definition reported2 (m : ConvQdMsg) (s : ConvQdState) : ConvQdState :=
  CQdReported (CQdSubtreeSetDirty (m_dirty m) s).

Lemma reported2_dirty m s : CQdIsDirty (reported2 m s) = CQdIsDirty s || m_dirty m.
Proof. unfold CQdIsDirty, reported2. simpl. by rewrite orb_assoc. Qed.

Lemma second_visit S L A st p m :
  wave_ok 2 S st ((p, m) :: L) -> A = [] \/ will_be_dirty S st ((p, m) :: L) ->
  is_start (p, m) = false -> st p = Unreached -> phase m = 1%Z ->
  phase_ok (set_pe p (joined 2 false (S p)) S)
    (L ++ ((fun c => (c, CQdMsgSetPhase 1 m)) <$> tree_children p) ++
       [(p, mk_qmsg 2 (m_created m) (m_processed m) (CQdIsDirty (S p)))]) A.
Proof.
  intros Hw Hd Hns Hst Hph. apply (phase_second _ _ _ (set_st p Collecting st)); [by eapply wave_visit|].
  destruct Hd as [?|Hd]; [by left|right]. destruct Hd as [(q & Hq & Hqs & Hqd)|[(q & Hq & Hqs & Hqd)|(q & mq & Hin & Hqp & Hqd)]].
  - destruct (decide (q = p)) as [->|Hqp].
    + right. right. exists p, (mk_qmsg 2 (m_created m) (m_processed m) (CQdIsDirty (S p))).
      split; [rewrite !elem_of_app, list_elem_of_singleton; by do 2 right|]. split; [done|]. simpl.
      unfold CQdIsDirty. apply Z.ltb_lt in Hqd. by rewrite Hqd.
    + left. exists q. by rewrite set_st_ne, set_pe_ne by done.
  - right. left. exists q. assert (q <> p) by (intros ->; congruence). by rewrite set_st_ne, set_pe_ne by done.
  - right. right. exists q, mq. split; [|done]. apply elem_of_cons in Hin as [E|Hin].
    + injection E as -> ->. congruence.
    + rewrite !elem_of_app. by left.
Qed.

Lemma second_collect S L A st p m :
  wave_ok 2 S st ((p, m) :: L) -> A = [] \/ will_be_dirty S st ((p, m) :: L) ->
  st p = Collecting -> phase m = 2%Z -> phase_ok (set_pe p (reported2 m (S p)) S) L A.
Proof.
  intros Hw Hd Hst Hph. destruct (wo_msg _ _ _ _ Hw p m) as [HpN _]; [by left|].
  assert (is_start (p, m) = false) as Hns by (unfold is_start; simpl; rewrite Hph; by rewrite andb_false_r).
  apply (phase_second _ _ _ st).
  { eapply wave_collect; try done. by apply (wo_c _ _ _ _ Hw). }
  destruct Hd as [?|Hd]; [by left|right]. destruct Hd as [(q & Hq & Hqs & Hqd)|[(q & Hq & Hqs & Hqd)|(q & mq & Hin & Hqp & Hqd)]].
  - left. exists q. assert (q <> p) by (intros ->; congruence). by rewrite set_pe_ne by done.
  - right. left. exists q. split_and!; try done. destruct (decide (q = p)) as [->|]; [|by rewrite set_pe_ne].
    rewrite set_pe_eq, reported2_dirty, Hqd. done.
  - right. apply elem_of_cons in Hin as [E|Hin].
    + injection E as -> ->. left. exists p. rewrite set_pe_eq, reported2_dirty, Hqd. by rewrite orb_true_r.
    + right. by exists q, mq.
Qed.

Lemma second_complete S L A st p m c1 c2 :
  wave_ok 2 S st ((p, m) :: L) -> A = [] \/ will_be_dirty S st ((p, m) :: L) ->
  st p = Collecting -> phase m = 2%Z -> p <> 0 -> nReported (S p) = length (tree_children p) ->
  let s := reported2 m (S p) in
  phase_ok (set_pe p (retired s) S) (L ++ [(tree_parent p, mk_qmsg 2 c1 c2 (CQdIsDirty s))]) A.
Proof.
  intros Hw Hd Hst Hph Hp0 Hall s. destruct (wo_msg _ _ _ _ Hw p m) as [HpN _]; [by left|].
  assert (is_start (p, m) = false) as Hns by (unfold is_start; simpl; rewrite Hph; by rewrite andb_false_r).
  apply (phase_second _ _ _ (set_st p Reported st)); [by eapply wave_complete|].
  assert (CQdIsDirty s = true -> will_be_dirty (set_pe p (retired s) S) (set_st p Reported st)
    (L ++ [(tree_parent p, mk_qmsg 2 c1 c2 (CQdIsDirty s))])) as Hdirty.
  { intros Hs. right. right. eexists (tree_parent p), (mk_qmsg 2 c1 c2 (CQdIsDirty s)).
    split; [rewrite elem_of_app, list_elem_of_singleton; by right|done]. }
  unfold s in Hdirty at 1. rewrite reported2_dirty in Hdirty.
  destruct Hd as [?|Hd]; [by left|right]. destruct Hd as [(q & Hq & Hqs & Hqd)|[(q & Hq & Hqs & Hqd)|(q & mq & Hin & Hqp & Hqd)]].
  - left. exists q. assert (q <> p) by (intros ->; congruence). by rewrite set_st_ne, set_pe_ne by done.
  - destruct (decide (q = p)) as [->|]; [apply Hdirty; by rewrite Hqd|].
    right. left. exists q. by rewrite set_st_ne, set_pe_ne by done.
  - apply elem_of_cons in Hin as [E|Hin].
    + injection E as -> ->. apply Hdirty. by rewrite Hqd, orb_true_r.
    + right. right. exists q, mq. split; [|done]. apply elem_of_app. by left.
Qed.

Lemma second_done S L (A : list nat) st m :
  wave_ok 2 S st ((0, m) :: L) -> A = [] \/ will_be_dirty S st ((0, m) :: L) ->
  phase m = 2%Z -> nReported (S 0) = length (tree_children 0) ->
  (forall p, 0 < p < N -> clean (S p)) /\ Forall (fun x => is_start x = true) L /\
  (CQdIsDirty (reported2 m (S 0)) = false -> A = []).
Proof.
  intros Hw Hd Hph Hall.
  assert (is_start (0, m) = false) as Hns by (unfold is_start; simpl; by rewrite Hph).
  destruct (wave_root_done _ _ _ _ _ Hw Hns Hall) as [Hcl HL].
  split; [intros p Hp; by apply Hcl|]. split; [done|]. rewrite reported2_dirty. intros [Hd1 Hd2]%orb_false_iff.
  pose proof (wo_root _ _ _ _ Hw) as Hst0.
  destruct Hd as [?|Hd]; [done|]. destruct Hd as [(q & Hq & Hqs & Hqd)|[(q & Hq & Hqs & Hqd)|(q & mq & Hin & Hqp & Hqd)]].
  - destruct (decide (q = 0)) as [->|]; [congruence|]. destruct (Hcl q) as [E _]; [lia|congruence].
  - destruct (decide (q = 0)) as [->|]; [congruence|]. destruct (Hcl q) as [E _]; [lia|congruence].
  - apply elem_of_cons in Hin as [E|Hin]; [injection E as -> ->; congruence|].
    rewrite Forall_forall in HL. specialize (HL _ Hin). unfold is_start in HL. simpl in HL. rewrite Hqp in HL.
    by rewrite andb_false_r in HL.
Qed.

(** ** One call of [CQdCallWhenIdle] *)

(** What a call leaves alone. *)
Record kept (s s' : ConvQdState) : Prop := {
  kept_created : mCreated s' = mCreated s;
  kept_processed : mProcessed s' = mProcessed s;
  kept_mark : oProcessed s' = oProcessed s \/ oProcessed s' = mProcessed s;
  kept_tree : children s' = children s /\ nChildren s' = nChildren s /\ parent s' = parent s
}.

(** The result that a call must have. *)
Definition call_ok (S : nat -> ConvQdState) (L : list (nat * ConvQdMsg)) (A : list nat) (p : nat) (m : ConvQdMsg) : Prop :=
  exists fx, CQdCallWhenIdle N p (S p) m = Normal fx /\ p < N /\ kept (S p) (fx_state fx) /\
    phase_ok (set_pe p (fx_state fx) S) (L ++ fx_out fx) A /\ (fx_ann fx = true -> A = []).

(** A request to start that finds a wave under way is dropped. *)
Lemma start_dropped S L A m :
  stage (S 0) <> 0%Z -> phase m = 0%Z -> phase_ok S L A -> call_ok S L A 0 m.
Proof.
  intros Hs Hm Hph. apply Z.eqb_neq in Hs. exists (mk_fx (S 0) [] false).
  unfold CQdCallWhenIdle, CQdHandlePhase0. rewrite Hm. cbn [Z.eqb fx_state]. rewrite Hs. split; [done|].
  split; [done|]. split; [split; auto|]. split; [|done]. cbn [fx_state fx_out]. rewrite app_nil_r.
  eapply phase_ext; [|exact Hph]. intros p _. destruct (decide (p = 0)) as [->|]; [by rewrite set_pe_eq|by rewrite set_pe_ne].
Qed.

Lemma idle_none S L A p m :
  (forall p, p < N -> clean (S p)) -> Forall (fun x => is_start x = true) ((p, m) :: L) -> knows_tree S ->
  call_ok S L A p m.
Proof.
  intros Hcl Hst Htree. inversion_clear Hst as [|? ? Hx HL]. unfold is_start in Hx. simpl in Hx.
  apply andb_true_iff in Hx as [->%Nat.eqb_eq Hphm%Z.eqb_eq].
  destruct (Hcl 0 Npos) as (Hs0 & _). destruct (Htree 0 Npos) as (Hch & _).
  unfold call_ok, CQdCallWhenIdle, CQdHandlePhase0. rewrite Hphm. cbn [Z.eqb fx_state].
  rewrite Hs0. cbn [Z.eqb Nat.eqb orb CmiAssert mbind outcome_bind]. rewrite bcast1_eq.
  eexists. split; [done|]. cbn [fx_state fx_out fx_ann app]. split; [done|].
  split; [split; simpl; auto|]. split; [|done].
  rewrite Hch. apply start_first; [|done]. intros p Hp. apply Hcl. lia.
Qed.

Lemma idle_first S L A st snap p m :
  wave1 S st ((p, m) :: L) snap -> knows_tree S ->
  (forall p, p < N -> (oProcessed (S p) <= mProcessed (S p))%Z) ->
  (sumN N (fun p => mCreated (S p)) - sumN N (fun p => mProcessed (S p)) = Z.of_nat (length A))%Z ->
  call_ok S L A p m.
Proof.
  intros Hw1 Htree Hmark Hcons. pose proof (w1_wave _ _ _ _ Hw1) as Hw.
  destruct (wo_msg _ _ _ _ Hw p m) as [Hp Hcase]; [by left|].
  destruct (Htree p Hp) as (Hch & Hnc & Hpar).
  destruct (is_start (p, m)) eqn:Hns.
  { pose proof Hns as Hns'. unfold is_start in Hns'. simpl in Hns'.
    apply andb_true_iff in Hns' as [->%Nat.eqb_eq Hphm%Z.eqb_eq]. apply start_dropped; [|done|].
    - destruct (wo_c _ _ _ _ Hw 0 Hp (wo_root _ _ _ _ Hw)) as [-> _]. done.
    - destruct Hw1 as [_ Hc Hpr Hs]. rewrite msum_cons, Hphm in Hc, Hpr.
      apply (phase_first _ _ _ st snap). split; [by eapply wave_drop_start|done|done|done]. }
  destruct Hcase as [?|[[Hst Hphm]|[Hst Hphm]]]; [done| |]; unfold call_ok, CQdCallWhenIdle; rewrite Hphm;
    cbn [Z.eqb Z.sub Z.add Z.opp Z.pos_sub Pos.eqb].
  - destruct (wo_u _ _ _ _ Hw p Hp Hst) as [(Hs0 & _) _]. change (1 - 1 =? 0)%Z with true. cbv iota.
    unfold CQdHandlePhase0. cbn [fx_state].
    rewrite Hs0, orb_true_r. cbn [Z.eqb CmiAssert mbind outcome_bind]. rewrite bcast1_eq.
    eexists. split; [done|]. cbn [fx_state fx_out fx_ann app]. split; [done|].
    split; [split; simpl; auto|]. split; [|done]. rewrite Hch. by eapply first_visit.
  - destruct (wo_c _ _ _ _ Hw p Hp Hst) as (Hs1 & _). unfold CQdHandlePhase1. cbn [fx_state].
    rewrite Hs1. unfold CQdMsgGetCreated, CQdMsgGetProcessed. rewrite Hphm.
    cbn [Z.eqb Pos.eqb CmiAssert mbind outcome_bind].
    change (on_state _ (mk_fx (S p) [] false)) with (mk_fx (reported1 m (S p)) [] false). cbv zeta. cbn [fx_state].
    change (CQdAllReported (reported1 m (S p))) with
      (Datatypes.S (nReported (S p)) =? nChildren (S p) + 1). rewrite Hnc.
    destruct (Nat.eqb_spec (Datatypes.S (nReported (S p))) (length (tree_children p) + 1)) as [E|E].
    2:{ eexists. split; [done|]. cbn [fx_state fx_out fx_ann]. split; [done|]. split; [split; simpl; auto|].
        rewrite app_nil_r. split; [|done]. by eapply first_collect. }
    assert (nReported (S p) = length (tree_children p)) as Hall by lia.
    destruct (Nat.eqb_spec p 0) as [->|Hp0].
    + destruct (first_done S L A st snap m Hw1 Hphm Hall Hmark Hcons) as (Hcl & HL & Hdone).
      destruct (Z.eqb_spec (cCreated (reported1 m (S 0))) (cProcessed (reported1 m (S 0)))) as [Eq|Eq].
      * rewrite bcast2_eq. eexists. split; [done|]. cbn [fx_state fx_out fx_ann app]. split; [done|].
        split; [split; simpl; auto|]. split; [|done].
        change (children (reported1 m (S 0))) with (children (S 0)). rewrite Hch.
        apply start_second; [done|done|]. destruct (Hdone Eq) as [?|(q & Hq & Hd)]; [by left|right].
        destruct (decide (q = 0)) as [->|]; [right|left; exists q; split; [lia|done]].
        unfold CQdIsDirty, reported1. simpl. apply Z.ltb_lt in Hd. by rewrite Hd.
      * rewrite bcast1_eq. eexists. split; [done|]. cbn [fx_state fx_out fx_ann app]. split; [done|].
        split; [split; simpl; auto|]. split; [|done].
        change (children (reported1 m (S 0))) with (children (S 0)). rewrite Hch.
        apply start_first; done.
    + unfold CQdMsgSetCreated, CQdMsgSetProcessed. cbn [phase]. rewrite Hphm.
      cbn [Z.eqb Pos.eqb CmiAssert mbind outcome_bind phase]. rewrite send_counted.
      eexists. split; [done|]. unfold on_state. cbn [fx_state fx_out fx_ann app]. split; [done|].
      split; [split; simpl; auto|]. split; [|done].
      change (parent (reported1 m (S p))) with (parent (S p)). rewrite Hpar.
      by eapply first_complete.
Qed.

Lemma idle_second S L A st p m :
  wave_ok 2 S st ((p, m) :: L) -> A = [] \/ will_be_dirty S st ((p, m) :: L) -> knows_tree S ->
  call_ok S L A p m.
Proof.
  intros Hw Hd Htree. destruct (wo_msg _ _ _ _ Hw p m) as [Hp Hcase]; [by left|].
  destruct (Htree p Hp) as (Hch & Hnc & Hpar).
  destruct (is_start (p, m)) eqn:Hns.
  { pose proof Hns as Hns'. unfold is_start in Hns'. simpl in Hns'.
    apply andb_true_iff in Hns' as [->%Nat.eqb_eq Hphm%Z.eqb_eq]. apply start_dropped; [|done|].
    - destruct (wo_c _ _ _ _ Hw 0 Hp (wo_root _ _ _ _ Hw)) as [-> _]. done.
    - apply (phase_second _ _ _ st); [by eapply wave_drop_start|]. destruct Hd as [?|[?|[?|(q & mq & Hin & Hq & Hqd)]]].
      + by left.
      + right. by left.
      + right. right. by left.
      + do 3 right. exists q, mq. split; [|done]. apply elem_of_cons in Hin as [E|?]; [|done].
        injection E as -> ->. congruence. }
  destruct Hcase as [?|[[Hst Hphm]|[Hst Hphm]]]; [done| |]; unfold call_ok, CQdCallWhenIdle; rewrite Hphm.
  - destruct (wo_u _ _ _ _ Hw p Hp Hst) as [(Hs0 & _) _].
    change (2 - 1 =? 0)%Z with false. change (2 - 1 =? 1)%Z with true. cbv iota.
    unfold CQdHandlePhase1. cbn [fx_state]. rewrite Hs0. cbn [Z.eqb].
    assert (p <> 0) as Hp0%Nat.eqb_neq by (intros ->; pose proof (wo_root _ _ _ _ Hw); congruence).
    rewrite Hp0. cbn [negb CmiAssert mbind outcome_bind]. rewrite bcast2_eq.
    eexists. split; [done|]. cbn [fx_state fx_out fx_ann app]. split; [done|].
    split; [split; simpl; auto|]. split; [|done]. rewrite Hch. by eapply second_visit.
  - destruct (wo_c _ _ _ _ Hw p Hp Hst) as (Hs1 & _). cbn [Z.eqb Pos.eqb]. unfold CQdHandlePhase2. cbn [fx_state].
    rewrite Hs1. unfold CQdMsgGetDirty. rewrite Hphm.
    cbn [Z.eqb Pos.eqb CmiAssert mbind outcome_bind].
    change (on_state _ (mk_fx (S p) [] false)) with (mk_fx (reported2 m (S p)) [] false). cbv zeta. cbn [fx_state].
    change (CQdAllReported (reported2 m (S p))) with
      (Datatypes.S (nReported (S p)) =? nChildren (S p) + 1). rewrite Hnc.
    destruct (Nat.eqb_spec (Datatypes.S (nReported (S p))) (length (tree_children p) + 1)) as [E|E].
    2:{ eexists. split; [done|]. cbn [fx_state fx_out fx_ann]. split; [done|]. split; [split; simpl; auto|].
        rewrite app_nil_r. split; [|done]. by eapply second_collect. }
    assert (nReported (S p) = length (tree_children p)) as Hall by lia.
    destruct (Nat.eqb_spec p 0) as [->|Hp0].
    + destruct (second_done S L A st m Hw Hd Hphm Hall) as (Hcl & HL & Hdone).
      destruct (CQdIsDirty (reported2 m (S 0))) eqn:Edirty.
      * rewrite bcast1_eq. eexists. split; [done|]. cbn [fx_state fx_out fx_ann app]. split; [done|].
        split; [split; simpl; auto|]. split; [|done].
        change (children (reported2 m (S 0))) with (children (S 0)). rewrite Hch.
        apply start_first; done.
      * eexists. split; [done|]. cbn [fx_state fx_out fx_ann]. split; [done|].
        split; [split; simpl; auto; lia|]. rewrite app_nil_r. split; [|by auto].
        apply phase_none; [|done]. intros q Hq. destruct (decide (q = 0)) as [->|].
        -- rewrite set_pe_eq. done.
        -- rewrite set_pe_ne by done. apply Hcl. lia.
    + unfold CQdMsgSetDirty. rewrite Hphm.
      cbn [Z.eqb Pos.eqb CmiAssert mbind outcome_bind phase]. rewrite send_counted.
      eexists. split; [done|]. unfold on_state. cbn [fx_state fx_out fx_ann app]. split; [done|].
      split; [split; simpl; auto|]. split; [|done].
      change (parent (reported2 m (S p))) with (parent (S p)). rewrite Hpar.
      by eapply second_complete.
Qed.

Lemma idle_call S L A p m :
  phase_ok S ((p, m) :: L) A -> knows_tree S ->
  (forall p, p < N -> (oProcessed (S p) <= mProcessed (S p))%Z) ->
  (sumN N (fun p => mCreated (S p)) - sumN N (fun p => mProcessed (S p)) = Z.of_nat (length A))%Z ->
  call_ok S L A p m.
Proof.
  intros [Hcl Hst|st snap Hw1|st Hw Hd]; intros; [by apply idle_none|by eapply idle_first|by eapply idle_second].
Qed.

(** ** Application messages *)

Definition app_work (n : nat) (s : ConvQdState) : ConvQdState := CQdCreate (Z.of_nat n) (CQdProcess 1 s).

Lemma phase_app S L A A' p n :
  phase_ok S L A -> A <> [] -> p < N -> (oProcessed (S p) <= mProcessed (S p))%Z ->
  phase_ok (set_pe p (app_work n (S p)) S) L A'.
Proof.
  intros Hph HA Hp Hmark. set (S' := set_pe p _ S).
  assert (forall q, q < N -> same_ctl (S q) (S' q)) as Hctl.
  { intros q Hq. unfold S'. destruct (decide (q = p)) as [->|]; [by rewrite set_pe_eq|by rewrite set_pe_ne]. }
  assert (forall q, oProcessed (S' q) = oProcessed (S q)) as Ho.
  { intros q. unfold S'. destruct (decide (q = p)) as [->|]; [by rewrite set_pe_eq|by rewrite set_pe_ne]. }
  assert (forall q, (mProcessed (S q) <= mProcessed (S' q))%Z) as Hm.
  { intros q. unfold S'. destruct (decide (q = p)) as [->|]; [rewrite set_pe_eq; simpl; lia|by rewrite set_pe_ne]. }
  destruct Hph as [Hcl Hst|st snap [Hw Hc Hpr Hs]|st Hw Hd].
  - apply phase_none; [|done]. intros q Hq. by eapply clean_ctl; [apply Hctl|apply Hcl].
  - apply (phase_first _ _ _ st snap). split.
    + by eapply wave_ctl.
    + rewrite <- Hc. f_equal. apply sumN_ext. intros q Hq. by destruct (Hctl q Hq) as (_ & _ & -> & _).
    + unfold held. rewrite (sumN_ext N _ (fun p => if decide (st p = Collecting) then cProcessed (S p) else 0%Z))
        by (intros q Hq; by destruct (Hctl q Hq) as (_ & _ & _ & ->)).
      fold (held cProcessed S st). rewrite Hpr. apply sumN_ext. intros q Hq. by rewrite Ho.
    + intros q Hq Hqst. unfold S'. destruct (decide (q = p)) as [->|]; [|rewrite set_pe_ne by done; by apply Hs].
      rewrite set_pe_eq. simpl. lia.
  - apply (phase_second _ _ _ st); [by eapply wave_ctl|]. right.
    destruct Hd as [?|[(q & Hq & Hqs & Hqd)|[(q & Hq & Hqs & Hqd)|?]]]; [done| | |by do 2 right].
    + left. exists q. rewrite Ho. specialize (Hm q). split_and!; [done|done|lia].
    + right. left. exists q. split_and!; try done. unfold CQdIsDirty in *. rewrite Ho. specialize (Hm q).
      assert (cDirty (S' q) = cDirty (S q)) as ->.
      { unfold S'. destruct (decide (q = p)) as [->|]; [by rewrite set_pe_eq|by rewrite set_pe_ne]. }
      apply orb_true_iff in Hqd as [Hqd%Z.ltb_lt| ->]; [|by rewrite orb_true_r].
      apply orb_true_iff. left. apply Z.ltb_lt. lia.
Qed.

(** ** The invariant of the machine *)

Record inv (s : sys) : Prop := {
  i_cons : (sumN N (fun p => mCreated (pes s p)) - sumN N (fun p => mProcessed (pes s p))
            = Z.of_nat (length (apps s)))%Z;
  i_mark p : p < N -> (oProcessed (pes s p) <= mProcessed (pes s p))%Z;
  i_tree : knows_tree (pes s);
  i_ann : announcements s <> [] -> apps s = [];
  i_phase : phase_ok (pes s) (qd_net s ++ qd_idle s) (apps s)
}.

Lemma sum_set_pe (f : ConvQdState -> Z) S p s' :
  p < N -> sumN N (fun q => f (set_pe p s' S q)) = (sumN N (fun q => f (S q)) - f (S p) + f s')%Z.
Proof.
  intros Hp. rewrite (sumN_update N (fun q => f (S q)) _ p Hp).
  - by rewrite set_pe_eq.
  - intros q Hq _. by rewrite set_pe_ne.
Qed.

(** Counters that cancel leave a processor as it was. *)
Lemma set_pe_id p s S : s = S p -> forall q, set_pe p s S q = S q.
Proof. intros -> q. destruct (decide (q = p)) as [->|]; [by rewrite set_pe_eq|by rewrite set_pe_ne]. Qed.

Lemma inv_ext s s' :
  (forall p, pes s' p = pes s p) -> apps s' = apps s ->
  (announcements s' <> [] -> announcements s <> []) ->
  phase_ok (pes s) (qd_net s' ++ qd_idle s') (apps s) -> inv s -> inv s'.
Proof.
  intros HS HA Hann Hph [Hcons Hmark Htree Ha _]. split.
  - rewrite HA, <- Hcons. f_equal; apply sumN_ext; intros; by rewrite HS.
  - intros p Hp. rewrite HS. by apply Hmark.
  - intros p Hp. rewrite HS. by apply Htree.
  - rewrite HA. auto.
  - rewrite HA. eapply phase_ext; [|exact Hph]. auto.
Qed.

Lemma phase_add_start S L A x : is_start x = true -> phase_ok S L A -> phase_ok S (x :: L) A.
Proof.
  intros Hx Hph. destruct x as [p m]. destruct Hph as [Hcl Hst|st snap [Hw Hc Hpr Hs]|st Hw Hd].
  - apply phase_none; [done|]. by constructor.
  - assert (phase m = 0%Z) as Hm by (unfold is_start in Hx; simpl in Hx; apply andb_true_iff in Hx as [_ ?%Z.eqb_eq]; done).
    apply (phase_first _ _ _ st snap). split; [by apply wave_add_start| | |done]; by rewrite msum_cons, Hm.
  - apply (phase_second _ _ _ st); [by apply wave_add_start|].
    destruct Hd as [?|[?|[?|(q & mq & Hin & ?)]]]; [by left|right; by left|right; right; by left|].
    do 3 right. exists q, mq. split; [by right|done].
Qed.

Lemma inv_step s s' : inv s -> step N s s' -> inv s'.
Proof.
  intros Hinv Hstep. pose proof Hinv as [Hcons Hmark Htree Hann Hph].
  destruct Hstep as [s p rest dsts Hap Hp Hd|s p m rest Hq|s p m rest fx Hq Hcall|s p g Hp|s p rest Ha].
  - assert (apps s <> []) as HA by (intros E; rewrite E in Hap; by apply Permutation_nil_cons in Hap).
    change (CQdCreate (Z.of_nat (length dsts)) (CQdProcess 1 (pes s p))) with (app_work (length dsts) (pes s p)).
    split; cbn [pes apps qd_net qd_idle announcements].
    + rewrite !sum_set_pe by done. rewrite Hap in Hcons. rewrite length_app. simpl in *. lia.
    + intros q Hq'. destruct (decide (q = p)) as [->|]; [|rewrite set_pe_ne by done; by apply Hmark].
      rewrite set_pe_eq. simpl. specialize (Hmark p Hp). lia.
    + intros q Hq'. destruct (decide (q = p)) as [->|]; [|rewrite set_pe_ne by done; by apply Htree].
      rewrite set_pe_eq. by apply Htree.
    + intros Hne. by specialize (Hann Hne).
    + by eapply phase_app; [|exact HA| |apply Hmark].
  - apply (inv_ext s); [|done|done| |exact Hinv]; cbn [pes apps qd_net qd_idle announcements].
    + apply set_pe_id, process_cancel.
    + eapply phase_perm; [|exact Hph]. rewrite Hq. simpl.
      rewrite app_assoc. symmetry. by rewrite Permutation_app_comm.
  - destruct (idle_call (pes s) (qd_net s ++ rest) (apps s) p m) as (fx' & Hc & Hp & Hk & Hph' & Ha'); try done.
    { eapply phase_perm; [|exact Hph]. rewrite Hq. symmetry. apply Permutation_middle. }
    rewrite Hcall in Hc. injection Hc as <-. destruct Hk as [Hk1 Hk2 Hk3 (Hk4 & Hk5 & Hk6)].
    split; cbn [pes apps qd_net qd_idle announcements].
    + rewrite !sum_set_pe by done. rewrite Hk1, Hk2. lia.
    + intros q Hq'. destruct (decide (q = p)) as [->|]; [|rewrite set_pe_ne by done; by apply Hmark].
      rewrite set_pe_eq, Hk2. specialize (Hmark p Hp). destruct Hk3 as [-> | ->]; lia.
    + intros q Hq'. destruct (decide (q = p)) as [->|]; [|rewrite set_pe_ne by done; by apply Htree].
      rewrite set_pe_eq, Hk4, Hk5, Hk6. by apply Htree.
    + destruct (fx_ann fx); [by auto|]. rewrite app_nil_r. done.
    + eapply phase_perm; [|exact Hph']. rewrite <- !app_assoc. f_equiv. apply Permutation_app_comm.
  - apply (inv_ext s); [|done|done| |exact Hinv]; cbn [pes apps qd_net qd_idle announcements].
    + apply set_pe_id. unfold CmiStartQD. simpl. apply (create_cancel _ 1).
    + eapply phase_perm; [|eapply (phase_add_start _ _ _ (0, CQdMsgSetPhase 0 g)); [done|exact Hph]].
      simpl. rewrite <- app_assoc. simpl. apply Permutation_middle.
  - apply (inv_ext s); [|done| |exact Hph|exact Hinv]; cbn [pes apps qd_net qd_idle announcements].
    + apply set_pe_id, process_cancel.
    + intros _ E. rewrite E in Ha. by apply Permutation_nil_cons in Ha.
Qed.

Lemma inv_reachable s : reachable N s -> inv s.
Proof.
  induction 1 as [dsts Hd|s s' _ IH Hstep]; [|by eapply inv_step].
  split; cbn [pes apps qd_net qd_idle announcements].
  - rewrite !sum_set_pe by done. 
    change (sumN N (fun q => mCreated (CQdStateCreate q))) with (sumN N (fun _ => 0%Z)).
    change (sumN N (fun q => mProcessed (CQdStateCreate q))) with (sumN N (fun _ => 0%Z)).
    rewrite sumN_zero. simpl. lia.
  - intros p Hp. destruct (decide (p = 0)) as [->|]; [by rewrite set_pe_eq|by rewrite set_pe_ne].
  - intros p Hp. destruct (decide (p = 0)) as [->|]; [by rewrite set_pe_eq|by rewrite set_pe_ne].
  - done.
  - apply phase_none; [|done]. intros p Hp.
    destruct (decide (p = 0)) as [->|]; [by rewrite set_pe_eq|by rewrite set_pe_ne].
Qed.

End waves.

(** ** What quiescence detection promises *)


(** C17: the detection never trips over itself: no handler fails an assertion or
    aborts, whatever requests for detection arrive while a wave is under way, and every
    message goes to an existing processor. *)
Theorem qd_never_aborts N `{SpanTreeLaws N} s p m :
  0 < N -> reachable N s -> (p, m) ∈ qd_idle s ->
  p < N /\ CQdCallWhenIdle N p (pes s p) m <> Aborted.
Proof.
  intros HN Hr Hin. destruct (inv_reachable N HN s Hr) as [Hcons Hmark Htree Hann Hph].
  apply list_elem_of_split in Hin as (l1 & l2 & E).
  destruct (idle_call N HN (pes s) (qd_net s ++ l1 ++ l2) (apps s) p m) as (fx & Hc & Hp & _); try done.
  - eapply phase_perm; [|exact Hph]. rewrite E, !app_assoc. symmetry. apply Permutation_middle.
  - by rewrite Hc.
Qed.

(** The counters are exact: in every reachable state the messages created minus
    the messages processed, over all processors, are the application messages in transit.
    The detection's own messages do not count. *)
Theorem qd_counters_exact N `{SpanTreeLaws N} s :
  0 < N -> reachable N s ->
  (sumN N (fun p => mCreated (pes s p)) - sumN N (fun p => mProcessed (pes s p))
   = Z.of_nat (length (apps s)))%Z.
Proof. intros HN Hr. apply (i_cons N _ (inv_reachable N HN s Hr)). Qed.

(** C19: the macros of converse.h describe a spanning tree for every branching factor,
    number of nodes and node size: the children lists are duplicate-free and agree with the
    parents, every processor is below processor 0, and [CmiSpanTreeChildren] fills exactly
    as many cells as [CmiNumSpanTreeChildren] announces. *)
Theorem span_tree_macros W NN NS :
  0 < W -> 0 < NS ->
  (forall p q, p < NN * NS -> q ∈ CmiSpanTreeChildren W NN NS p <->
     (0 < q < NN * NS /\ Z.to_nat (CmiSpanTreeParent W NS q) = p)) /\
  (forall p, NoDup (CmiSpanTreeChildren W NN NS p)) /\
  (forall q, 0 < q -> Z.to_nat (CmiSpanTreeParent W NS q) < q) /\
  (forall p, length (CmiSpanTreeChildren W NN NS p) = CmiNumSpanTreeChildren W NN NS p).
Proof.
  intros HW HNS. split_and!.
  - intros p q. by apply macro_child.
  - by apply macro_nodup.
  - by apply macro_parent_lt.
  - by apply macro_num_children.
Qed.

Lemma span_tree_macros_witness :
  NoDup (CmiSpanTreeChildren 4 3 2 0) /\ CmiSpanTreeChildren 4 3 2 0 = [2; 4; 1].
Proof.
  destruct (span_tree_macros 4 3 2 ltac:(lia) ltac:(lia)) as (_ & H & _). split; [exact (H 0)|reflexivity].
Defined.

(** ** An execution: two processors, one application message *)

#[local] Instance two_pes : SpanTree := macro_tree 4 2 1.
#[local] Instance two_pes_laws : SpanTreeLaws 2 := macro_tree_laws 4 2 1 ltac:(lia) ltac:(lia).

(** Delivers and handles the oldest detection message. *)
Definition drive (s : sys) : sys :=
  match qd_idle s with
  | (p, m) :: rest =>
      match CQdCallWhenIdle 2 p (pes s p) m with
      | Normal fx => mk_sys (set_pe p (fx_state fx) (pes s)) (apps s) (qd_net s ++ fx_out fx) rest
                       (announcements s ++ (if fx_ann fx then seq 0 2 else []))
      | Aborted => s
      end
  | [] =>
      match qd_net s with
      | (p, m) :: rest => mk_sys (set_pe p (CQdHandler (pes s p)) (pes s)) (apps s) rest
                            (qd_idle s ++ [(p, m)]) (announcements s)
      | [] => s
      end
  end.

Lemma drive_reachable s : reachable 2 s -> reachable 2 (drive s).
Proof.
  intros Hr. unfold drive. destruct (qd_idle s) as [|[p m] rest] eqn:Ei.
  - destruct (qd_net s) as [|[p m] rest] eqn:En; [done|].
    eapply reach_step; [done|]. pose proof (step_deliver 2 s p m rest) as Hd.
    rewrite Ei, En in Hd. by apply Hd.
  - destruct (CQdCallWhenIdle 2 p (pes s p) m) as [fx|] eqn:E; [|done].
    eapply reach_step; [done|]. apply (step_idle 2 s p m rest fx); [by rewrite Ei|done].
Qed.

Definition qd_example (n : nat) : sys :=
  let s0 := mk_sys (set_pe 0 (CQdCreate 1 (CQdStateCreate 0)) CQdStateCreate) [1] [] [] [] in
  let s1 := mk_sys (set_pe 1 (app_work 0 (pes s0 1)) (pes s0)) [] [] [] [] in
  let fx := CmiStartQD (pes s1 1) (mk_qmsg 0 0 0 false) in
  let s2 := mk_sys (set_pe 1 (fx_state fx) (pes s1)) [] (fx_out fx) [] [] in
  Nat.iter n drive s2.

Lemma qd_example_reachable n : reachable 2 (qd_example n).
Proof.
  unfold qd_example. cbv zeta. set (s0 := mk_sys (set_pe 0 _ _) [1] [] [] []).
  set (s1 := mk_sys (set_pe 1 _ _) [] [] [] []). set (s2 := mk_sys _ _ _ _ _).
  assert (reachable 2 s2) as H2.
  { apply (reach_step 2 s1); [|apply (step_start 2 s1 1); lia].
    apply (reach_step 2 s0); [apply (reach_init 2 [1]); repeat constructor; lia|].
    apply (step_app 2 s0 1 [] []); [done|lia|constructor]. }
  induction n as [|n IH]; [done|]. simpl. by apply drive_reachable.
Qed.


Lemma qd_never_aborts_witness :
  exists p m, let s := qd_example 5 in
  (p, m) ∈ qd_idle s /\ p < 2 /\ CQdCallWhenIdle 2 p (pes s p) m <> Aborted.
Proof.
  assert (exists x, x ∈ qd_idle (qd_example 5)) as [[p m] Hin].
  { eexists. vm_compute. left. }
  exists p, m. split; [exact Hin|].
  exact (qd_never_aborts 2 (qd_example 5) p m ltac:(lia) (qd_example_reachable 5) Hin).
Defined.

Lemma qd_counters_exact_witness :
  let s := qd_example 5 in
  (sumN 2 (fun p => mCreated (pes s p)) - sumN 2 (fun p => mProcessed (pes s p)) = 0)%Z.
Proof. exact (qd_counters_exact 2 (qd_example 5) ltac:(lia) (qd_example_reachable 5)). Defined.
