(* ===== verification/CkQ.v ===== *)
(** * CkQ: the circular FIFO of the local message queue (cklists.h)

    The class [CkQ<T>] of src/util/cklists.h at [T = void*], the type behind
    the [CdsFifo_...] functions of src/util/conv-lists.C: a power-of-two
    circular buffer that doubles when it is full.  Every operation is related
    to the list of the queue's elements. *)

From S2P Require Import Prelude.
Set Warnings "-clear-no-such-hyp".

Record ckq := mk_ckq {
  block : list ptr;
  ck_first : nat;
  ck_len : nat;
  mask : nat
}.

#[global] Instance ptr_inhabited : Inhabited ptr := populate NULL.

(** [std::move(block.begin()+b, block.begin()+b+n, block.begin()+d)], element
    by element from the first. *)
Fixpoint move_range (b n d : nat) (l : list ptr) : list ptr :=
  match n with
  | 0 => l
  | S n => move_range (S b) n (S d) (<[d := l !!! b]> l)
  end.

(** [block.resize(newlen)] with [newlen] at least the current size. *)
Definition vector_resize (newlen : nat) (l : list ptr) : list ptr :=
  l ++ replicate (newlen - length l) NULL.

Definition _expand (q : ckq) : outcome ckq :=
  let blklen := length (block q) in
  '(newlen, m) ← (if blklen =? 0 then _ ← CmiAssert (ck_first q =? 0); Normal (16, 15)
                  else Normal (Nat.shiftl blklen 1, Nat.lor (mask q) blklen));
  let blk := vector_resize newlen (block q) in
  let first := ck_first q in
  if first =? 0 then Normal (mk_ckq blk first (ck_len q) m)
  else
    _ ← CmiAssert ((0 <? first) && (first <? blklen));
    _ ← CmiAssert (2 * blklen <=? newlen);
    let blk := move_range 0 first blklen blk in
    let blk := move_range first (blklen - first) 0 blk in
    let blk := move_range blklen first (blklen - first) blk in
    Normal (mk_ckq blk 0 (ck_len q) m).

Definition CkQ_new : ckq := mk_ckq [] 0 0 0.

(** [while (1<<size < sz) { mask |= 1<<size; size++; }] *)
Fixpoint grow_mask (fuel size m sz : nat) : nat * nat :=
  match fuel with
  | 0 => (size, m)
  | S fuel =>
      if Nat.shiftl 1 size <? sz then grow_mask fuel (S size) (Nat.lor m (Nat.shiftl 1 size)) sz
      else (size, m)
  end.

Definition CkQ_new_sz (sz : nat) : ckq :=
  let '(size, m) := grow_mask sz 2 3 sz in
  mk_ckq (vector_resize (Nat.shiftl 1 size) []) 0 0 m.

(** The move constructor: the new queue and what is left of [rhs], whose
    [first] and [mask] stay. *)
Definition CkQ_move (rhs : ckq) : ckq * ckq :=
  (mk_ckq (block rhs) (ck_first rhs) (ck_len rhs) (mask rhs), mk_ckq [] (ck_first rhs) 0 (mask rhs)).

Definition ck_length (q : ckq) : nat := ck_len q.
Definition isEmpty (q : ckq) : bool := ck_len q =? 0.

Definition ck_deq (q : ckq) : ckq * ptr :=
  if 0 <? ck_len q then
    (mk_ckq (block q) (Nat.land (ck_first q + 1) (mask q)) (ck_len q - 1) (mask q),
     block q !!! ck_first q)
  else (q, NULL).

Definition ck_enq (elt : ptr) (q : ckq) : outcome ckq :=
  q ← (if ck_len q =? length (block q) then _expand q else Normal q);
  Normal (mk_ckq (<[Nat.land (ck_first q + ck_len q) (mask q) := elt]> (block q))
            (ck_first q) (ck_len q + 1) (mask q)).

(** [first-1+block.size()] is computed in [size_t]. *)
Definition ck_push (elt : ptr) (q : ckq) : outcome ckq :=
  q ← (if ck_len q =? length (block q) then _expand q else Normal q);
  let first := Nat.land (ck_first q + length (block q) - 1) (mask q) in
  Normal (mk_ckq (<[first := elt]> (block q)) first (ck_len q + 1) (mask q)).

Definition ck_peek (q : ckq) : ptr := block q !!! ck_first q.

Definition ck_at (n : nat) (q : ckq) : ptr := block q !!! Nat.land (n + ck_first q) (mask q).

(** [while(len==block.size() || pos>=block.size()) _expand();] *)
Fixpoint expand_for (fuel pos : nat) (q : ckq) : outcome ckq :=
  match fuel with
  | 0 => Normal q
  | S fuel =>
      if (ck_len q =? length (block q)) || (length (block q) <=? pos)
      then q ← _expand q; expand_for fuel pos q else Normal q
  end.

(** [for (int i=len; i>pos; i--) block[(i+first)&mask] = block[(i-1+first)&mask];]
    [n] iterations from [i = pos + n]. *)
Fixpoint shift_up (n pos first mask : nat) (l : list ptr) : list ptr :=
  match n with
  | 0 => l
  | S n' =>
      let i := pos + n in
      shift_up n' pos first mask
        (<[Nat.land (i + first) mask := l !!! Nat.land (i - 1 + first) mask]> l)
  end.

Definition insert_fuel (pos : nat) : nat := pos + 2.

Definition ck_insert (pos : nat) (elt : ptr) (q : ckq) : outcome ckq :=
  q ← expand_for (insert_fuel pos) pos q;
  let blk := shift_up (ck_len q - pos) pos (ck_first q) (mask q) (block q) in
  let blk := <[Nat.land (pos + ck_first q) (mask q) := elt]> blk in
  Normal (mk_ckq blk (ck_first q) (if ck_len q <? pos then pos + 1 else ck_len q + 1) (mask q)).

(** [for (int i=pos; i<len-1; i++) block[(i+first)&mask] = block[(i+1+first)&mask];] *)
Fixpoint shift_down (n i first mask : nat) (l : list ptr) : list ptr :=
  match n with
  | 0 => l
  | S n =>
      shift_down n (S i) first mask
        (<[Nat.land (i + first) mask := l !!! Nat.land (i + 1 + first) mask]> l)
  end.

Definition ck_remove (pos : nat) (q : ckq) : ckq * ptr :=
  if ck_len q <=? pos then (q, NULL)
  else
    let ret := block q !!! Nat.land (pos + ck_first q) (mask q) in
    (mk_ckq (shift_down (ck_len q - 1 - pos) pos (ck_first q) (mask q) (block q))
       (ck_first q) (ck_len q - 1) (mask q), ret).

Definition removeFrom (pos : nat) (q : ckq) : outcome ckq :=
  _ ← CmiAssert (pos <? ck_len q);
  Normal (mk_ckq (block q) (ck_first q) pos (mask q)).

(** [for(i=0,j=first;i<len;i++){ newblk[i] = block[j]; j = (j+1)&mask; }] *)
Fixpoint getArray_loop (n j : nat) (q : ckq) : list ptr :=
  match n with
  | 0 => []
  | S n => block q !!! j :: getArray_loop n (Nat.land (j + 1) (mask q)) q
  end.

Definition getArray (q : ckq) : list ptr := getArray_loop (ck_len q) (ck_first q) q.

(** ** The [CdsFifo] interface of conv-lists.C *)

Definition CdsFifo_Create : ckq := CkQ_new.
Definition CdsFifo_Create_len (len : nat) : ckq := CkQ_new_sz len.
Definition CdsFifo_Enqueue (q : ckq) (elt : ptr) : outcome ckq := ck_enq elt q.
Definition CdsFifo_Dequeue (q : ckq) : ckq * ptr := ck_deq q.
Definition CdsFifo_Push (q : ckq) (elt : ptr) : outcome ckq := ck_push elt q.
Definition CdsFifo_Pop (q : ckq) : ckq * ptr := ck_deq q.
Definition CdsFifo_Enumerate (q : ckq) : list ptr := getArray q.
Definition CdsFifo_Empty (q : ckq) : bool := isEmpty q.
Definition CdsFifo_Peek (q : ckq) : ptr := if ck_length q =? 0 then NULL else ck_at 0 q.
Definition CdsFifo_Length (q : ckq) : nat := ck_length q.

(** ** Invariant and contents *)

(** The buffer is empty and unused, or a power of two with the matching mask. *)
Record ckq_wf (q : ckq) : Prop := {
  ckw_shape : (block q = [] /\ mask q = 0 /\ ck_first q = 0) \/
              (exists k, length (block q) = 2 ^ k /\ mask q = Nat.ones k /\ ck_first q < 2 ^ k);
  ckw_len : ck_len q <= length (block q)
}.

Definition ckq_list (q : ckq) : list ptr := (fun i => ck_at i q) <$> seq 0 (ck_len q).

Definition ckq_rep (q : ckq) (l : list ptr) : Prop := ckq_wf q /\ ckq_list q = l.

(** A view of a queue: its buffer has [2 ^ k] cells and holds [l] from
    [first] on, wrapping around. *)
Record ckq_view (q : ckq) (k : nat) (l : list ptr) : Prop := {
  cv_size : length (block q) = 2 ^ k;
  cv_mask : mask q = Nat.ones k;
  cv_first : ck_first q < 2 ^ k;
  cv_len : ck_len q = length l;
  cv_fits : length l <= 2 ^ k;
  cv_cells i : i < length l -> block q !! ((ck_first q + i) mod 2 ^ k) = Some (l !!! i)
}.

(** ** Indices *)

Lemma wrap_eq a n : n <> 0 -> a < 2 * n -> a mod n = if a <? n then a else a - n.
Proof.
  intros Hn Ha. bool_cases; [by apply Nat.mod_small|].
  replace a with (a - n + 1 * n) at 1 by lia. rewrite Nat.Div0.mod_add. apply Nat.mod_small. lia.
Qed.

Lemma pow2_pos k : 2 ^ k <> 0.
Proof. by apply Nat.pow_nonzero. Qed.

(** Reduce the indices of a goal about a buffer of [2 ^ k] cells. *)
Ltac wrap_cases k :=
  pose proof (pow2_pos k);
  rewrite ?(wrap_eq _ (2 ^ k)) in * by lia; bool_cases; try lia.

Lemma wrap_inj k f i j :
  f < 2 ^ k -> i < 2 ^ k -> j < 2 ^ k -> (f + i) mod 2 ^ k = (f + j) mod 2 ^ k -> i = j.
Proof.
  intros ??? H. pose proof (pow2_pos k). rewrite !wrap_eq in H by lia. bool_cases_in H; lia.
Qed.

Lemma wrap_lt k a : a mod 2 ^ k < 2 ^ k.
Proof. apply Nat.mod_upper_bound, pow2_pos. Qed.

#[local] Hint Resolve pow2_pos wrap_lt : charm.

Lemma cv_at q k l i : ckq_view q k l -> Nat.land i (mask q) = i mod 2 ^ k.
Proof. intros Hv. rewrite (cv_mask _ _ _ Hv). apply Nat.land_ones. Qed.

Lemma view_rep q k l : ckq_view q k l -> ckq_rep q l.
Proof.
  intros Hv. pose proof Hv as [Hs Hm Hf Hl Hfit Hc]. split.
  { split; [right; by exists k|lia]. }
  unfold ckq_list. apply list_eq. intros i. rewrite list_lookup_fmap.
  destruct (decide (i < length l)) as [Hi|Hi].
  - rewrite lookup_seq_lt by lia. simpl. unfold ck_at. rewrite (cv_at _ _ _ _ Hv), (Nat.add_comm i).
    by rewrite (list_lookup_total_correct _ _ _ (Hc i Hi)), list_lookup_lookup_total_lt.
  - rewrite lookup_seq_ge by lia. simpl. symmetry. apply lookup_ge_None. lia.
Qed.

Lemma rep_view q l : ckq_rep q l -> block q <> [] -> exists k, ckq_view q k l.
Proof.
  intros [[[(Hb & _)|(k & Hs & Hm & Hf)] Hl] <-] Hne; [done|]. exists k.
  unfold ckq_list. split; try done; rewrite ?length_fmap, ?length_seq; [done|lia|].
  intros i Hi. rewrite (list_lookup_total_correct _ _ (ck_at i q))
    by (by rewrite list_lookup_fmap, lookup_seq_lt).
  unfold ck_at. rewrite Hm, Nat.land_ones, (Nat.add_comm i).
  apply list_lookup_lookup_total_lt. rewrite Hs. apply wrap_lt.
Qed.

Lemma rep_empty q l : ckq_rep q l -> block q = [] ->
  l = [] /\ ck_len q = 0 /\ ck_first q = 0 /\ mask q = 0.
Proof.
  intros [[Hs Hl] <-] Hb. rewrite Hb in *. simpl in Hl.
  destruct Hs as [(_ & ? & ?)|(k & Hk & _)]; [|by destruct (pow2_pos k)].
  unfold ckq_list. assert (ck_len q = 0) as -> by lia. done.
Qed.

Lemma new_rep : ckq_rep CkQ_new [].
Proof. split; [|done]. split; [by left|done]. Qed.

(** ** Moving a range of cells *)

Lemma move_range_length n : forall b d l, length (move_range b n d l) = length l.
Proof. induction n as [|n IH]; intros; simpl; [done|]. by rewrite IH, length_insert. Qed.

Lemma move_range_lookup n : forall b d l i,
  b + n <= length l -> d + n <= length l -> d <= b \/ b + n <= d ->
  move_range b n d l !! i = if (d <=? i) && (i <? d + n) then l !! (b + (i - d)) else l !! i.
Proof.
  induction n as [|n IH]; intros b d l i Hb Hd Hov; cbn [move_range].
  { bool_cases; simpl; try done; lia. }
  rewrite IH by (rewrite ?length_insert; lia).
  destruct (Nat.leb_spec d i), (Nat.leb_spec (S d) i), (Nat.ltb_spec i (S d + n)),
    (Nat.ltb_spec i (d + S n)); cbn [andb]; try lia.
  - rewrite list_lookup_insert_ne by lia. f_equal. lia.
  - rewrite list_lookup_insert_ne by lia. done.
  - assert (i = d) as -> by lia. rewrite list_lookup_insert_eq by lia.
    replace (b + (d - d)) with b by lia. symmetry. apply list_lookup_lookup_total_lt. lia.
  - rewrite list_lookup_insert_ne by lia. done.
Qed.

Lemma resize_lookup n (l : list ptr) i : i < length l -> vector_resize n l !! i = l !! i.
Proof. intros. unfold vector_resize. by rewrite lookup_app_l. Qed.

Lemma resize_length n (l : list ptr) : length l <= n -> length (vector_resize n l) = n.
Proof. intros. unfold vector_resize. len. Qed.

Lemma ones_lor k : Nat.lor (Nat.ones k) (2 ^ k) = Nat.ones (S k).
Proof.
  apply Nat.bits_inj. intros i. rewrite Nat.lor_spec.
  destruct (Nat.lt_ge_cases i k).
  - rewrite Nat.ones_spec_low, Nat.ones_spec_low by lia. done.
  - rewrite (Nat.ones_spec_high k) by lia. simpl. destruct (decide (i = k)) as [->|].
    + rewrite Nat.pow2_bits_true, Nat.ones_spec_low by lia. done.
    + rewrite Nat.pow2_bits_false, Nat.ones_spec_high by lia. done.
Qed.

Lemma shiftl1 a : Nat.shiftl a 1 = 2 * a.
Proof. simpl. apply Nat.double_twice. Qed.

(** ** Doubling the buffer *)

Lemma expand_empty q : ckq_rep q [] -> block q = [] ->
  exists q', _expand q = Normal q' /\ ckq_view q' 4 [].
Proof.
  intros Hr Hb. destruct (rep_empty _ _ Hr Hb) as (_ & Hl & Hf & Hm).
  eexists. split; [unfold _expand; rewrite Hb, Hf; simpl; reflexivity|].
  split; simpl; try done; lia.
Qed.

Lemma expand_moves_length first n blk :
  length (move_range n first (n - first) (move_range first (n - first) 0 (move_range 0 first n blk)))
  = length blk.
Proof. by rewrite !move_range_length. Qed.

(** The three moves rotate the first [n] cells. *)
Lemma expand_moves first n blk i :
  0 < first < n -> length blk = 2 * n -> i < n ->
  move_range n first (n - first) (move_range first (n - first) 0 (move_range 0 first n blk)) !! i
  = blk !! (if first + i <? n then first + i else first + i - n).
Proof.
  intros Hf Hb Hi.
  rewrite move_range_lookup by (rewrite ?move_range_length; lia).
  destruct (Nat.leb_spec (n - first) i), (Nat.ltb_spec i (n - first + first)); cbn [andb]; try lia.
  - rewrite move_range_lookup by (rewrite ?move_range_length; lia).
    rewrite (proj2 (Nat.ltb_ge _ _)) by lia. rewrite andb_false_r.
    rewrite move_range_lookup by lia. rewrite (proj2 (Nat.leb_le _ _)), (proj2 (Nat.ltb_lt _ _)) by lia.
    cbn [andb]. rewrite (proj2 (Nat.ltb_ge (first + i) n)) by lia. f_equal. lia.
  - rewrite move_range_lookup by (rewrite ?move_range_length; lia).
    rewrite (proj2 (Nat.leb_le _ _)), (proj2 (Nat.ltb_lt _ _)) by lia. cbn [andb].
    rewrite move_range_lookup by lia. rewrite (proj2 (Nat.leb_gt _ _)) by lia. cbn [andb].
    rewrite (proj2 (Nat.ltb_lt (first + i) n)) by lia. f_equal. lia.
Qed.

Lemma expand_view q k l : ckq_view q k l ->
  exists q', _expand q = Normal q' /\ ckq_view q' (S k) l.
Proof.
  intros [Hs Hm Hf Hl Hfit Hc]. pose proof (pow2_pos k). unfold _expand.
  rewrite (proj2 (Nat.eqb_neq (length (block q)) 0)) by lia. cbn [mbind outcome_bind]. rewrite shiftl1, Hs, Hm, ones_lor.
  assert (2 * 2 ^ k = 2 ^ S k) as Hp by (simpl; lia). rewrite Hp.
  assert (length (vector_resize (2 ^ S k) (block q)) = 2 ^ S k) as Hrl by (apply resize_length; lia).
  destruct (Nat.eqb_spec (ck_first q) 0) as [E0|E0].
  - eexists. split; [reflexivity|]. split; cbn [block mask ck_first ck_len]; try done; try lia.
    intros i Hi. rewrite E0 in *. rewrite Nat.add_0_l, Nat.mod_small by lia.
    rewrite resize_lookup by lia. rewrite <- (Hc i Hi). rewrite Nat.add_0_l, Nat.mod_small; [done|lia].
  - rewrite (proj2 (Nat.ltb_lt _ _)) by lia. rewrite (proj2 (Nat.ltb_lt _ _)) by lia.
    rewrite (proj2 (Nat.leb_le _ _)) by lia. cbn [andb CmiAssert mbind outcome_bind].
    eexists. split; [reflexivity|]. split; cbn [block mask ck_first ck_len]; try done; try lia.
    { by rewrite expand_moves_length. }
    intros i Hi. rewrite Nat.add_0_l, Nat.mod_small by lia.
    rewrite expand_moves by lia. rewrite <- (Hc i Hi), (wrap_eq (ck_first q + i)) by lia.
    apply resize_lookup. bool_cases; lia.
Qed.

(** Room for one more element. *)
Lemma make_room q l : ckq_rep q l ->
  exists q' k, (if ck_len q =? length (block q) then _expand q else Normal q) = Normal q' /\
    ckq_view q' k l /\ length l < 2 ^ k.
Proof.
  intros Hr. destruct (decide (block q = [])) as [Hb|Hb].
  - destruct (rep_empty _ _ Hr Hb) as (-> & Hl & _). rewrite Hl, Hb. simpl.
    destruct (expand_empty q Hr Hb) as (q' & Hq' & Hv). exists q', 4. split; [done|]. split; [done|].
    simpl. lia.
  - destruct (rep_view _ _ Hr Hb) as (k & Hv). pose proof Hv as [Hs _ _ Hl Hfit _].
    destruct (Nat.eqb_spec (ck_len q) (length (block q))) as [E|E].
    + destruct (expand_view q k l Hv) as (q' & Hq' & Hv'). exists q', (S k). split; [done|]. split; [done|].
      simpl. pose proof (pow2_pos k). lia.
    + exists q, k. split; [done|]. split; [done|]. lia.
Qed.

(** ** The operations on lists *)

Lemma enq_view q k l x : ckq_view q k l -> length l < 2 ^ k ->
  ckq_view (mk_ckq (<[Nat.land (ck_first q + ck_len q) (mask q) := x]> (block q))
            (ck_first q) (ck_len q + 1) (mask q)) k (l ++ [x]).
Proof.
  intros Hv Hr. pose proof Hv as [Hs Hm Hf Hl Hfit Hc]. rewrite (cv_at _ _ _ _ Hv), Hl.
  split; cbn [block mask ck_first ck_len]; try done; [len|len|len|].
  intros i Hi. rewrite length_app in Hi. simpl in Hi. destruct (decide (i = length l)) as [->|Hne].
  - rewrite list_lookup_insert_eq by (rewrite Hs; apply wrap_lt).
    by rewrite lookup_total_app_r, Nat.sub_diag by lia.
  - rewrite list_lookup_insert_ne by (intros E%wrap_inj; lia).
    rewrite lookup_total_app_l by lia. apply Hc. lia.
Qed.

Lemma enq_rep q l x : ckq_rep q l -> exists q', ck_enq x q = Normal q' /\ ckq_rep q' (l ++ [x]).
Proof.
  intros Hr. destruct (make_room q l Hr) as (q' & k & Hq' & Hv & Hlt).
  unfold ck_enq. rewrite Hq'. cbn [mbind outcome_bind]. eexists. split; [done|].
  eapply view_rep, enq_view; eauto.
Qed.

Lemma push_rep q l x : ckq_rep q l -> exists q', ck_push x q = Normal q' /\ ckq_rep q' (x :: l).
Proof.
  intros Hr. destruct (make_room q l Hr) as (q' & k & Hq' & Hv & Hlt).
  unfold ck_push. rewrite Hq'. cbn [mbind outcome_bind]. eexists. split; [done|].
  apply (view_rep _ k). pose proof Hv as [Hs Hm Hf Hl Hfit Hc]. rewrite (cv_at _ _ _ _ Hv), Hs.
  pose proof (pow2_pos k). split; cbn [block mask ck_first ck_len]; try done; [len|apply wrap_lt|len|].
  intros [|i] Hi; simpl in Hi.
  - rewrite Nat.add_0_r, Nat.Div0.mod_mod by done. rewrite list_lookup_insert_eq; [done|].
    rewrite Hs. apply wrap_lt.
  - replace ((((ck_first q' + 2 ^ k - 1) mod 2 ^ k) + S i) mod 2 ^ k) with ((ck_first q' + i) mod 2 ^ k).
    2: { rewrite !(wrap_eq (ck_first q' + 2 ^ k - 1)) by lia. destruct (Nat.ltb_spec (ck_first q' + 2 ^ k - 1) (2 ^ k)).
      - assert (ck_first q' = 0) as -> by lia. rewrite Nat.add_0_l, Nat.mod_small by lia.
        rewrite wrap_eq by lia. bool_cases; lia.
      - f_equal. lia. }
    rewrite list_lookup_insert_ne; [by apply Hc; lia|].
    rewrite (wrap_eq (ck_first q' + 2 ^ k - 1)), (wrap_eq (ck_first q' + i)) by lia. bool_cases; lia.
Qed.

Lemma deq_rep q l : ckq_rep q l ->
  match l with
  | [] => ck_deq q = (q, NULL)
  | x :: l' => exists q', ck_deq q = (q', x) /\ ckq_rep q' l'
  end.
Proof.
  intros Hr. unfold ck_deq. destruct (decide (block q = [])) as [Hb|Hb].
  { by destruct (rep_empty _ _ Hr Hb) as (-> & -> & _). }
  destruct (rep_view _ _ Hr Hb) as (k & Hv). pose proof Hv as [Hs Hm Hf Hl Hfit Hc]. rewrite Hl.
  destruct l as [|x l]; [done|]. rewrite (proj2 (Nat.ltb_lt _ _)) by (simpl; lia). simpl in Hfit.
  assert (forall i, (((ck_first q + 1) mod 2 ^ k) + i) mod 2 ^ k = (ck_first q + S i) mod 2 ^ k) as Hshift.
  { intros i. rewrite Nat.Div0.add_mod_idemp_l. f_equal. lia. }
  rewrite (cv_at _ _ _ _ Hv). eexists. split.
  - f_equal. specialize (Hc 0). rewrite Nat.add_0_r, Nat.mod_small in Hc by done.
    apply list_lookup_total_correct. apply Hc. simpl. lia.
  - apply (view_rep _ k). split; cbn [block mask ck_first ck_len]; try done; [apply wrap_lt|simpl; lia|lia|].
    intros i Hi. rewrite Hshift. rewrite (Hc (S i)) by (simpl; lia). done.
Qed.

Lemma getArray_rep q l : ckq_rep q l -> getArray q = l.
Proof.
  intros Hr. unfold getArray. destruct (decide (block q = [])) as [Hb|Hb].
  { by destruct (rep_empty _ _ Hr Hb) as (-> & -> & _). }
  destruct (rep_view _ _ Hr Hb) as (k & Hv). pose proof Hv as [Hs Hm Hf Hl Hfit Hc]. rewrite Hl.
  assert (forall n i, i + n = length l ->
    getArray_loop n ((ck_first q + i) mod 2 ^ k) q = drop i l) as H.
  { induction n as [|n IH]; intros i Hi; simpl; [rewrite drop_ge; [done|lia]|].
    assert (i < length l) as Hlt by lia.
    rewrite (list_lookup_total_correct _ _ _ (Hc i Hlt)), (cv_at _ _ _ _ Hv), Nat.Div0.add_mod_idemp_l.
    replace (ck_first q + i + 1) with (ck_first q + S i) by lia.
    rewrite IH by lia. symmetry. apply drop_S. by apply list_lookup_lookup_total_lt. }
  rewrite <- (Nat.mod_small (ck_first q) (2 ^ k)) by done.
  rewrite <- (Nat.add_0_r (ck_first q)) at 1. by apply (H (length l) 0).
Qed.

(** *** Insertion and removal in the middle *)

Lemma shift_up_length n : forall pos f m l, length (shift_up n pos f m l) = length l.
Proof. induction n as [|n IH]; intros; cbn [shift_up]; [done|]. by rewrite IH, length_insert. Qed.

Lemma shift_up_lookup k n : forall pos f l j,
  length l = 2 ^ k -> f < 2 ^ k -> pos + n < 2 ^ k -> j < 2 ^ k ->
  shift_up n pos f (Nat.ones k) l !! ((f + j) mod 2 ^ k) =
  if (pos <? j) && (j <=? pos + n) then l !! ((f + (j - 1)) mod 2 ^ k) else l !! ((f + j) mod 2 ^ k).
Proof.
  induction n as [|n IH]; intros pos f l j Hs Hf Hn Hj; cbn [shift_up].
  { bool_cases; simpl; (done || lia). }
  rewrite !Nat.land_ones, (Nat.add_comm (pos + S n)), (Nat.add_comm (pos + S n - 1)).
  rewrite IH by (rewrite ?length_insert; lia).
  assert (forall i x, i < 2 ^ k -> i <> pos + S n ->
    <[(f + (pos + S n)) mod 2 ^ k := x]> l !! ((f + i) mod 2 ^ k) = l !! ((f + i) mod 2 ^ k)) as Hne.
  { intros i x Hi Hine. apply list_lookup_insert_ne. intros E%wrap_inj; lia. }
  destruct (decide (j = pos + S n)) as [->|Hjn].
  - rewrite (proj2 (Nat.leb_gt _ _)), andb_false_r by lia.
    rewrite list_lookup_insert_eq by (rewrite Hs; apply wrap_lt).
    rewrite (proj2 (Nat.ltb_lt _ _)), (proj2 (Nat.leb_le _ _)) by lia. simpl.
    symmetry. apply list_lookup_lookup_total_lt. rewrite Hs. apply wrap_lt.
  - bool_cases; cbn [andb]; try lia; rewrite Hne by lia; done.
Qed.

Lemma shift_down_length n : forall i f m l, length (shift_down n i f m l) = length l.
Proof. induction n as [|n IH]; intros; cbn [shift_down]; [done|]. by rewrite IH, length_insert. Qed.

Lemma shift_down_lookup k n : forall i f l j,
  length l = 2 ^ k -> f < 2 ^ k -> i + n < 2 ^ k -> j < 2 ^ k ->
  shift_down n i f (Nat.ones k) l !! ((f + j) mod 2 ^ k) =
  if (i <=? j) && (j <? i + n) then l !! ((f + (j + 1)) mod 2 ^ k) else l !! ((f + j) mod 2 ^ k).
Proof.
  induction n as [|n IH]; intros i f l j Hs Hf Hn Hj; cbn [shift_down].
  { bool_cases; simpl; (done || lia). }
  rewrite !Nat.land_ones, (Nat.add_comm i), (Nat.add_comm (i + 1)).
  rewrite IH by (rewrite ?length_insert; lia).
  assert (forall a x, a < 2 ^ k -> a <> i ->
    <[(f + i) mod 2 ^ k := x]> l !! ((f + a) mod 2 ^ k) = l !! ((f + a) mod 2 ^ k)) as Hne.
  { intros a x Ha Hane. apply list_lookup_insert_ne. intros E%wrap_inj; lia. }
  destruct (decide (j = i)) as [->|Hji].
  - rewrite (proj2 (Nat.leb_gt _ _)) by lia. simpl.
    rewrite list_lookup_insert_eq by (rewrite Hs; apply wrap_lt).
    rewrite (proj2 (Nat.leb_le _ _)), (proj2 (Nat.ltb_lt _ _)) by lia. simpl.
    symmetry. apply list_lookup_lookup_total_lt. rewrite Hs. apply wrap_lt.
  - bool_cases; cbn [andb]; try lia; rewrite Hne by lia; done.
Qed.

Lemma expand_for_view fuel : forall pos q k l,
  ckq_view q k l -> length l < 2 ^ k -> pos < fuel + k ->
  exists q' k', expand_for fuel pos q = Normal q' /\ ckq_view q' k' l /\ length l < 2 ^ k' /\ pos < 2 ^ k'.
Proof.
  induction fuel as [|fuel IH]; intros pos q k l Hv Hr Hp; cbn [expand_for].
  { exists q, k. split_and!; try done. pose proof (Nat.pow_gt_lin_r 2 k). lia. }
  pose proof Hv as [Hs _ _ Hl _ _]. rewrite (proj2 (Nat.eqb_neq _ _)) by lia. cbn [orb].
  destruct (Nat.leb_spec (length (block q)) pos); [|exists q, k; split_and!; try done; lia].
  destruct (expand_view q k l Hv) as (q' & -> & Hv'). cbn [mbind outcome_bind].
  apply (IH pos q' (S k)); [done|simpl; lia|lia].
Qed.

Lemma expand_for_rep pos q l : ckq_rep q l ->
  exists q' k, expand_for (insert_fuel pos) pos q = Normal q' /\ ckq_view q' k l /\
    length l < 2 ^ k /\ pos < 2 ^ k.
Proof.
  intros Hr. unfold insert_fuel. replace (pos + 2) with (S (S pos)) by lia.
  destruct (make_room q l Hr) as (q' & k & Hq' & Hv & Hlt).
  destruct (Nat.eqb_spec (ck_len q) (length (block q))) as [E|E].
  - change (expand_for (S (S pos)) pos q) with
      (if (ck_len q =? length (block q)) || (length (block q) <=? pos)
       then q ← _expand q; expand_for (S pos) pos q else Normal q).
    rewrite E, Nat.eqb_refl. cbn [orb]. rewrite Hq'. cbn [mbind outcome_bind]. apply (expand_for_view (S pos) pos q' k); [done|done|lia].
  - injection Hq' as <-. apply (expand_for_view (S (S pos)) pos q k); [done|done|lia].
Qed.

Lemma insert_rep q l pos x : ckq_rep q l -> pos <= length l ->
  exists q', ck_insert pos x q = Normal q' /\ ckq_rep q' (take pos l ++ x :: drop pos l).
Proof.
  intros Hr Hpos. destruct (expand_for_rep pos q l Hr) as (q' & k & Hq' & Hv & Hlt & Hp).
  unfold ck_insert. rewrite Hq'. cbn [mbind outcome_bind]. eexists. split; [done|].
  apply (view_rep _ k). pose proof Hv as [Hs Hm Hf Hl Hfit Hc].
  rewrite (cv_at _ _ _ _ Hv), Hl, Hm, (proj2 (Nat.ltb_ge _ _)), (Nat.add_comm pos) by lia.
  split; cbn [block mask ck_first ck_len]; try done; [|len|len|].
  { by rewrite length_insert, shift_up_length. }
  intros i Hi. rewrite length_app, length_cons, length_take, length_drop in Hi.
  destruct (decide (i = pos)) as [->|Hne].
  - rewrite list_lookup_insert_eq by (rewrite shift_up_length, Hs; apply wrap_lt).
    rewrite lookup_total_app_r by len. rewrite length_take, Nat.min_l by lia. by rewrite Nat.sub_diag.
  - rewrite list_lookup_insert_ne by (intros E%wrap_inj; lia).
    rewrite shift_up_lookup by lia. destruct (Nat.ltb_spec pos i); cbn [andb].
    + rewrite (proj2 (Nat.leb_le _ _)) by lia. rewrite Hc by lia. f_equal.
      rewrite lookup_total_app_r by len. rewrite length_take, Nat.min_l by lia.
      replace (i - pos) with (S (i - pos - 1)) by lia. simpl. rewrite lookup_total_drop. f_equal. lia.
    + rewrite Hc by lia. f_equal. rewrite lookup_total_app_l by len. by rewrite lookup_total_take, decide_True by lia.
Qed.

Lemma remove_rep q l pos : ckq_rep q l ->
  match l !! pos with
  | None => ck_remove pos q = (q, NULL)
  | Some x => exists q', ck_remove pos q = (q', x) /\ ckq_rep q' (delete pos l)
  end.
Proof.
  intros Hr. unfold ck_remove. destruct (decide (block q = [])) as [Hb|Hb].
  { by destruct (rep_empty _ _ Hr Hb) as (-> & -> & _). }
  destruct (rep_view _ _ Hr Hb) as (k & Hv). pose proof Hv as [Hs Hm Hf Hl Hfit Hc]. rewrite Hl.
  destruct (l !! pos) as [x|] eqn:Ex.
  2: { apply lookup_ge_None in Ex. by rewrite (proj2 (Nat.leb_le _ _)). }
  pose proof (lookup_lt_Some _ _ _ Ex). rewrite (proj2 (Nat.leb_gt _ _)) by lia.
  rewrite (cv_at _ _ _ _ Hv), (Nat.add_comm pos). eexists. split.
  { rewrite (list_lookup_total_correct _ _ _ (Hc pos H)). f_equal.
    by apply list_lookup_total_correct. }
  assert (length (delete pos l) = length l - 1) as Hdl by (by apply length_delete; eexists).
  apply (view_rep _ k). rewrite Hm. split; cbn [block mask ck_first ck_len]; try done; [|lia|].
  { by rewrite shift_down_length. }
  intros i Hi. rewrite Hdl in Hi. rewrite shift_down_lookup by lia.
  assert (forall j, j < length l -> block q !! ((ck_first q + j) mod 2 ^ k) = l !! j) as Hc'.
  { intros j Hj. rewrite (Hc j Hj). symmetry. by apply list_lookup_lookup_total_lt. }
  rewrite <- list_lookup_lookup_total_lt by lia. destruct (Nat.leb_spec pos i); cbn [andb].
  - rewrite (proj2 (Nat.ltb_lt _ _)) by lia. rewrite list_lookup_delete_ge by lia.
    rewrite Hc' by lia. f_equal. lia.
  - rewrite list_lookup_delete_lt by lia. apply Hc'. lia.
Qed.

Lemma removeFrom_rep q l pos : ckq_rep q l ->
  if pos <? length l then exists q', removeFrom pos q = Normal q' /\ ckq_rep q' (take pos l)
  else removeFrom pos q = Aborted.
Proof.
  intros Hr. unfold removeFrom. destruct (decide (block q = [])) as [Hb|Hb].
  { by destruct (rep_empty _ _ Hr Hb) as (-> & -> & _). }
  destruct (rep_view _ _ Hr Hb) as (k & Hv). pose proof Hv as [Hs Hm Hf Hl Hfit Hc]. rewrite Hl.
  destruct (Nat.ltb_spec pos (length l)); [|done]. eexists. split; [reflexivity|].
  apply (view_rep _ k). split; cbn [block mask ck_first ck_len]; try done; [len|len|].
  intros i Hi. rewrite length_take in Hi. by rewrite Hc, lookup_total_take, decide_True by lia.
Qed.

Lemma grow_mask_spec sz fuel : forall size,
  sz <= fuel + 2 ^ size ->
  exists k, grow_mask fuel size (Nat.ones size) sz = (k, Nat.ones k) /\ sz <= 2 ^ k.
Proof.
  induction fuel as [|fuel IH]; intros size Hs; cbn [grow_mask]; [by exists size|].
  rewrite Nat.shiftl_1_l. destruct (Nat.ltb_spec (2 ^ size) sz); [|by exists size].
  rewrite ones_lor. apply IH. simpl. pose proof (pow2_pos size). lia.
Qed.

Lemma new_sz_rep sz : ckq_rep (CkQ_new_sz sz) [] /\ sz <= length (block (CkQ_new_sz sz)).
Proof.
  unfold CkQ_new_sz. destruct (grow_mask_spec sz sz 2) as (k & Hk & Hle); [lia|].
  change (Nat.ones 2) with 3 in Hk. rewrite Hk, Nat.shiftl_1_l.
  assert (length (vector_resize (2 ^ k) []) = 2 ^ k) as Hl by (apply resize_length; simpl; lia).
  pose proof (pow2_pos k). split; [|simpl; lia]. apply (view_rep _ k).
  split; simpl; try done; lia.
Qed.

(** ** Histories *)

Lemma delete_out_of_range (l : list ptr) i : length l <= i -> delete i l = l.
Proof.
  intros Hi. rewrite delete_take_drop, take_ge, drop_ge by lia. apply app_nil_r.
Qed.

Inductive ckop :=
  | OpEnq (x : ptr) | OpPush (x : ptr) | OpDeq
  | OpInsert (pos : nat) (x : ptr) | OpRemove (pos : nat) | OpRemoveFrom (pos : nat).

(** An operation on the circular buffer, with what it returns. *)
Definition ck_exec (op : ckop) (q : ckq) : outcome (ckq * ptr) :=
  match op with
  | OpEnq x => q ← CdsFifo_Enqueue q x; Normal (q, NULL)
  | OpPush x => q ← CdsFifo_Push q x; Normal (q, NULL)
  | OpDeq => Normal (CdsFifo_Dequeue q)
  | OpInsert pos x => q ← ck_insert pos x q; Normal (q, NULL)
  | OpRemove pos => Normal (ck_remove pos q)
  | OpRemoveFrom pos => q ← removeFrom pos q; Normal (q, NULL)
  end.

(** The same on a list; [None] where the operation is used outside its
    contract: an insertion that leaves a gap, [removeFrom] past the end. *)
Definition list_exec (op : ckop) (l : list ptr) : option (list ptr * ptr) :=
  match op with
  | OpEnq x => Some (l ++ [x], NULL)
  | OpPush x => Some (x :: l, NULL)
  | OpDeq => Some (tail l, default NULL (head l))
  | OpInsert pos x => if pos <=? length l then Some (take pos l ++ x :: drop pos l, NULL) else None
  | OpRemove pos => Some (delete pos l, default NULL (l !! pos))
  | OpRemoveFrom pos => if pos <? length l then Some (take pos l, NULL) else None
  end.

Fixpoint ck_run (ops : list ckop) (q : ckq) : outcome (ckq * list ptr) :=
  match ops with
  | [] => Normal (q, [])
  | op :: ops => '(q, r) ← ck_exec op q; '(q, rs) ← ck_run ops q; Normal (q, r :: rs)
  end.

Fixpoint list_run (ops : list ckop) (l : list ptr) : option (list ptr * list ptr) :=
  match ops with
  | [] => Some (l, [])
  | op :: ops => '(l, r) ← list_exec op l; '(l, rs) ← list_run ops l; Some (l, r :: rs)
  end.

Lemma exec_rep op q l l' r : ckq_rep q l -> list_exec op l = Some (l', r) ->
  exists q', ck_exec op q = Normal (q', r) /\ ckq_rep q' l'.
Proof.
  intros Hr. destruct op as [x|x| |pos x|pos|pos]; cbn [list_exec ck_exec]; intros He.
  - injection He as <- <-. destruct (enq_rep q l x Hr) as (q' & Hq & Hr').
    unfold CdsFifo_Enqueue. rewrite Hq. by exists q'.
  - injection He as <- <-. destruct (push_rep q l x Hr) as (q' & Hq & Hr').
    unfold CdsFifo_Push. rewrite Hq. by exists q'.
  - injection He as <- <-. pose proof (deq_rep q l Hr) as Hd. unfold CdsFifo_Dequeue. destruct l as [|x l].
    + exists q. by rewrite Hd.
    + destruct Hd as (q' & -> & Hr'). by exists q'.
  - destruct (Nat.leb_spec pos (length l)); [|done]. injection He as <- <-.
    destruct (insert_rep q l pos x Hr) as (q' & Hq & Hr'); [done|]. rewrite Hq. by exists q'.
  - injection He as <- <-. pose proof (remove_rep q l pos Hr) as Hd. destruct (l !! pos) as [x|] eqn:Ex.
    + destruct Hd as (q' & -> & Hr'). by exists q'.
    + exists q. rewrite Hd. split; [done|]. by rewrite delete_out_of_range by (by apply lookup_ge_None).
  - pose proof (removeFrom_rep q l pos Hr) as Hd. destruct (pos <? length l); [|done].
    injection He as <- <-. destruct Hd as (q' & -> & Hr'). by exists q'.
Qed.

Lemma run_rep ops : forall q l l' rs, ckq_rep q l -> list_run ops l = Some (l', rs) ->
  exists q', ck_run ops q = Normal (q', rs) /\ ckq_rep q' l'.
Proof.
  induction ops as [|op ops IH]; intros q l l' rs Hr; cbn [list_run ck_run].
  { intros [= <- <-]. by exists q. }
  destruct (list_exec op l) as [[l1 r]|] eqn:E1; [|done]. cbn [mbind option_bind].
  destruct (list_run ops l1) as [[l2 rs']|] eqn:E2; [|done]. cbn. intros [= <- <-].
  destruct (exec_rep op q l l1 r Hr E1) as (q1 & -> & Hr1). cbn [mbind outcome_bind].
  destruct (IH q1 l1 l2 rs' Hr1 E2) as (q2 & -> & Hr2). by exists q2.
Qed.

(** C20: the circular buffer behind the local message queue is a list: any sequence
    of enqueues, pushes, dequeues, insertions and removals on a queue created with or
    without a size runs without a failed assertion, returns what the list returns, and
    leaves the queue enumerating the list, across any number of wrap-arounds and
    doublings. *)
Theorem ckq_refines_list ops l rs sz :
  list_run ops [] = Some (l, rs) ->
  (exists q, ck_run ops CdsFifo_Create = Normal (q, rs) /\ CdsFifo_Enumerate q = l /\
     CdsFifo_Length q = length l) /\
  (exists q, ck_run ops (CdsFifo_Create_len sz) = Normal (q, rs) /\ CdsFifo_Enumerate q = l /\
     CdsFifo_Length q = length l).
Proof.
  intros Hl.
  assert (forall q0, ckq_rep q0 [] -> exists q, ck_run ops q0 = Normal (q, rs) /\
    CdsFifo_Enumerate q = l /\ CdsFifo_Length q = length l) as H.
  { intros q0 H0. destruct (run_rep ops q0 [] l rs H0 Hl) as (q & Hq & Hr). exists q.
    split; [done|]. split; [by apply getArray_rep|]. destruct Hr as [_ <-].
    unfold ckq_list, CdsFifo_Length, ck_length. by rewrite length_fmap, length_seq. }
  split; apply H; [apply new_rep|apply new_sz_rep].
Qed.

Lemma ckq_refines_list_witness :
  (exists q, ck_run [OpEnq 1; OpEnq 2; OpDeq; OpPush 7; OpInsert 1 9; OpRemove 2]%Z CdsFifo_Create
     = Normal (q, [0; 0; 1; 0; 0; 2]%Z) /\ CdsFifo_Enumerate q = [7; 9]%Z /\ CdsFifo_Length q = 2) /\
  (exists q, ck_run [OpEnq 1; OpEnq 2; OpDeq; OpPush 7; OpInsert 1 9; OpRemove 2]%Z (CdsFifo_Create_len 5)
     = Normal (q, [0; 0; 1; 0; 0; 2]%Z) /\ CdsFifo_Enumerate q = [7; 9]%Z /\ CdsFifo_Length q = 2).
Proof.
  apply (ckq_refines_list [OpEnq 1; OpEnq 2; OpDeq; OpPush 7; OpInsert 1 9; OpRemove 2]%Z [7; 9]%Z).
  reflexivity.
Defined.

(** ** Serialisation *)

(** [CkQ::pup] on a packing [PUP::er]: the length and the elements. *)
Definition ckq_pack (q : ckq) : list Z := Z.of_nat (ck_len q) :: ckq_list q.

(** [CkQ::pup] on an unpacking [PUP::er]: [p|len] overwrites [len], and each
    [enq] increments it.  [None] when a cell outside the buffer is written or
    the input is exhausted; [fuel] bounds the iterations. *)
Fixpoint unpack_loop (fuel i : nat) (input : list Z) (q : ckq) : option ckq :=
  match fuel with
  | 0 => None
  | S fuel =>
      if i <? ck_len q then
        match input with
        | [] => None
        | t :: input =>
            match (if ck_len q =? length (block q) then _expand q else Normal q) with
            | Normal q =>
                let c := Nat.land (ck_first q + ck_len q) (mask q) in
                if c <? length (block q) then
                  unpack_loop fuel (S i) input
                    (mk_ckq (<[c := t]> (block q)) (ck_first q) (ck_len q + 1) (mask q))
                else None
            | Aborted => None
            end
        end
      else Some q
  end.

Definition ckq_unpack (fuel : nat) (input : list Z) (q : ckq) : option ckq :=
  match input with
  | [] => None
  | n :: input => unpack_loop fuel 0 input (mk_ckq (block q) (ck_first q) (Z.to_nat n) (mask q))
  end.

Lemma expand_len q q' : _expand q = Normal q' -> ck_len q' = ck_len q.
Proof.
  unfold _expand. generalize (length (block q)). intros n.
  destruct (if n =? 0 then _ else _) as [[newlen m]|]; cbn [mbind outcome_bind]; [|done].
  destruct (ck_first q =? 0); [by intros [= <-]|].
  destruct (_ && _); cbn [CmiAssert mbind outcome_bind]; [|done].
  destruct (_ <=? _); cbn [CmiAssert mbind outcome_bind]; [by intros [= <-]|done].
Qed.

Lemma unpack_loop_fails fuel : forall i input q, i < ck_len q -> unpack_loop fuel i input q = None.
Proof.
  induction fuel as [|fuel IH]; intros i input q Hi; cbn [unpack_loop]; [done|].
  rewrite (proj2 (Nat.ltb_lt _ _)) by done. destruct input as [|t input]; [done|].
  destruct (if ck_len q =? length (block q) then _expand q else Normal q) as [q'|] eqn:E; [|done].
  assert (ck_len q' = ck_len q) as Hlen.
  { destruct (ck_len q =? length (block q)); [by apply expand_len|by injection E as <-]. }
  destruct (_ <? _); [|done]. apply IH. simpl. lia.
Qed.

(** A queue that is not empty cannot be unpacked from what packing it produced,
    whatever queue it is unpacked into: the length is restored before the elements are
    enqueued, every [enq] increments it again, and the loop ends only by writing outside
    the buffer or reading past the input. *)
Theorem ckq_unpack_never_succeeds q q0 fuel :
  isEmpty q = false -> ckq_unpack fuel (ckq_pack q) q0 = None.
Proof.
  unfold isEmpty. intros Hne%Nat.eqb_neq. unfold ckq_pack, ckq_unpack.
  apply unpack_loop_fails. simpl. lia.
Qed.

Lemma ckq_unpack_never_succeeds_witness :
  isEmpty (mk_ckq [7; 0; 0; 0]%Z 0 1 3) = false /\
  ckq_unpack 10 (ckq_pack (mk_ckq [7; 0; 0; 0]%Z 0 1 3)) CkQ_new = None.
Proof.
  split; [reflexivity|].
  apply (ckq_unpack_never_succeeds (mk_ckq [7; 0; 0; 0]%Z 0 1 3)). reflexivity.
Defined.
