(* ===== verification/Handlers.v ===== *)
(** * Handlers: the table of message handlers (convcore.c)

    Registration and numbering of handlers, the growth of the table, and the
    lookup that [CmiHandleMessage] performs for a message.  The table is
    related to a finite map from handler numbers to handlers. *)

From S2P Require Import Prelude.
Set Warnings "-clear-no-such-hyp".

Record CmiHandlerInfo := mk_hinfo { hdlr : ptr; userPtr : ptr }.

(** A cleared table cell. *)
Definition no_handler : CmiHandlerInfo := mk_hinfo NULL NULL.
#[global] Instance hinfo_inhabited : Inhabited CmiHandlerInfo := populate no_handler.

(** [CmiHandlerMax] is the length of the table. *)
Record handlers := mk_handlers {
  CmiHandlerTable : list CmiHandlerInfo;
  CmiHandlerCount : nat;
  CmiHandlerLocal : nat;
  CmiHandlerGlobal : nat
}.

Definition CmiHandlerMax (t : handlers) : nat := length (CmiHandlerTable t).

Definition set_table (l : list CmiHandlerInfo) (t : handlers) : handlers :=
  mk_handlers l (CmiHandlerCount t) (CmiHandlerLocal t) (CmiHandlerGlobal t).

(** [malloc], [memcpy] of the old table, [memset] of the rest. *)
Definition CmiExtendHandlerTable (atLeastLen : nat) (t : handlers) : handlers :=
  let max := CmiHandlerMax t in
  let newmax := atLeastLen + Nat.shiftr atLeastLen 2 + 32 in
  set_table (CmiHandlerTable t ++ replicate (newmax - max) no_handler) t.

Definition CmiNumberHandlerEx (n : nat) (h uptr : ptr) (t : handlers) : handlers :=
  let t := if CmiHandlerMax t <=? n then CmiExtendHandlerTable n t else t in
  set_table (<[n := mk_hinfo h uptr]> (CmiHandlerTable t)) t.

Definition CmiNumberHandler (n : nat) (h : ptr) (t : handlers) : handlers :=
  let t := if CmiHandlerMax t <=? n then CmiExtendHandlerTable n t else t in
  set_table (<[n := mk_hinfo h NULL]> (CmiHandlerTable t)) t.

(** [CMI_LOCAL_GLOBAL_AVAILABLE] decides the distance between handlers. *)
Definition DIST_BETWEEN_HANDLERS (local_global : bool) : nat := if local_global then 3 else 1.

Definition CmiRegisterHandler (lg : bool) (h : ptr) (t : handlers) : handlers * nat :=
  let Count := CmiHandlerCount t in
  let t := CmiNumberHandler Count h t in
  (mk_handlers (CmiHandlerTable t) (Count + DIST_BETWEEN_HANDLERS lg)
     (CmiHandlerLocal t) (CmiHandlerGlobal t), Count).

Definition CmiRegisterHandlerEx (lg : bool) (h uptr : ptr) (t : handlers) : handlers * nat :=
  let Count := CmiHandlerCount t in
  let t := CmiNumberHandlerEx Count h uptr t in
  (mk_handlers (CmiHandlerTable t) (Count + DIST_BETWEEN_HANDLERS lg)
     (CmiHandlerLocal t) (CmiHandlerGlobal t), Count).

Definition CmiRegisterHandlerLocal (h : ptr) (t : handlers) : handlers * nat :=
  let Local := CmiHandlerLocal t in
  let t := CmiNumberHandler Local h t in
  (mk_handlers (CmiHandlerTable t) (CmiHandlerCount t) (Local + 3) (CmiHandlerGlobal t), Local).

Definition CmiRegisterHandlerGlobal (h : ptr) (t : handlers) : handlers * nat :=
  let Global := CmiHandlerGlobal t in
  let t := CmiNumberHandler Global h t in
  (mk_handlers (CmiHandlerTable t) (CmiHandlerCount t) (CmiHandlerLocal t) (Global + 3), Global).

(** [zero_fn] is the address of [_cmiZeroHandler], which aborts. *)
Definition CmiHandlerInit (lg : bool) (zero_fn : ptr) : handlers :=
  fst (CmiRegisterHandler lg zero_fn (mk_handlers [] 0 1 2)).

(** What [CmiHandleMessage] does to find the handler of a message whose header
    says [hdl]: the two checks under [CMK_ERROR_CHECKING] and the lookup. *)
Definition find_handler (hdl : Z) (t : handlers) : outcome CmiHandlerInfo :=
  let handlerIdx := u16 hdl in
  if (Z.of_nat (CmiHandlerCount t) <=? handlerIdx)%Z then Aborted
  else
    let h := CmiHandlerTable t !!! Z.to_nat handlerIdx in
    if (hdlr h =? NULL)%Z then Aborted else Normal h.

(** ** The table as a map *)

Definition table_repr (t : handlers) (m : gmap nat CmiHandlerInfo) : Prop :=
  forall n h, m !! n = Some h -> CmiHandlerTable t !! n = Some h.

(** Cells that were never numbered are clear. *)
Definition table_clear (t : handlers) (m : gmap nat CmiHandlerInfo) : Prop :=
  forall n h, CmiHandlerTable t !! n = Some h -> m !! n = None -> h = no_handler.

Lemma extend_lookup n t k :
  k < CmiHandlerMax t -> CmiHandlerTable (CmiExtendHandlerTable n t) !! k = CmiHandlerTable t !! k.
Proof. intros Hk. cbn [CmiExtendHandlerTable set_table CmiHandlerTable]. by rewrite lookup_app_l. Qed.

Lemma extend_room n t : CmiHandlerMax t <= n -> n < CmiHandlerMax (CmiExtendHandlerTable n t).
Proof. intros Hn. unfold CmiExtendHandlerTable, CmiHandlerMax in *. cbn [set_table CmiHandlerTable]. len. Qed.

Lemma extend_fresh n t k h :
  CmiHandlerMax t <= k -> CmiHandlerTable (CmiExtendHandlerTable n t) !! k = Some h -> h = no_handler.
Proof.
  intros Hk. cbn [CmiExtendHandlerTable set_table CmiHandlerTable]. rewrite lookup_app_r by done.
  by intros [-> _]%lookup_replicate.
Qed.

(** Numbering a handler updates the map. *)
Lemma number_repr n h uptr t m :
  table_repr t m -> table_clear t m ->
  table_repr (CmiNumberHandlerEx n h uptr t) (<[n := mk_hinfo h uptr]> m) /\
  table_clear (CmiNumberHandlerEx n h uptr t) (<[n := mk_hinfo h uptr]> m).
Proof.
  intros Hr Hc. unfold CmiNumberHandlerEx.
  set (t' := if CmiHandlerMax t <=? n then CmiExtendHandlerTable n t else t).
  assert (n < CmiHandlerMax t' /\ table_repr t' m /\ table_clear t' m) as (Hn & Hr' & Hc').
  { unfold t'. destruct (Nat.leb_spec (CmiHandlerMax t) n); [|done]. split; [by apply extend_room|]. split.
    - intros k x Hk. specialize (Hr _ _ Hk). rewrite extend_lookup; [done|]. by eapply lookup_lt_Some.
    - intros k x Hk Hm. destruct (Nat.lt_ge_cases k (CmiHandlerMax t)).
      + rewrite extend_lookup in Hk by done. by eapply Hc.
      + by eapply extend_fresh. }
  unfold CmiHandlerMax in Hn. split; intros k x; cbn [set_table CmiHandlerTable].
  - destruct (decide (k = n)) as [->|Hne].
    + rewrite lookup_insert_eq. intros [= <-]. by apply list_lookup_insert_eq.
    + rewrite lookup_insert_ne, list_lookup_insert_ne by done. apply Hr'.
  - destruct (decide (k = n)) as [->|Hne]; [by rewrite lookup_insert_eq|].
    rewrite lookup_insert_ne, list_lookup_insert_ne by done. apply Hc'.
Qed.

Lemma number_counts n h uptr t :
  let t' := CmiNumberHandlerEx n h uptr t in
  CmiHandlerCount t' = CmiHandlerCount t /\ CmiHandlerLocal t' = CmiHandlerLocal t /\
  CmiHandlerGlobal t' = CmiHandlerGlobal t.
Proof. unfold CmiNumberHandlerEx. by destruct (_ <=? _). Qed.

(** ** Registrations *)

Inductive registration := RegHandler (h : ptr) | RegHandlerEx (h uptr : ptr).

Definition reg_info (r : registration) : CmiHandlerInfo :=
  match r with RegHandler h => mk_hinfo h NULL | RegHandlerEx h uptr => mk_hinfo h uptr end.

Definition register (lg : bool) (r : registration) (t : handlers) : handlers * nat :=
  match r with
  | RegHandler h => CmiRegisterHandler lg h t
  | RegHandlerEx h uptr => CmiRegisterHandlerEx lg h uptr t
  end.

Fixpoint register_all (lg : bool) (rs : list registration) (t : handlers) : handlers * list nat :=
  match rs with
  | [] => (t, [])
  | r :: rs =>
      let '(t, i) := register lg r t in
      let '(t, idxs) := register_all lg rs t in
      (t, i :: idxs)
  end.

(** After the handlers [hs] have been registered, in this order. *)
Definition registered (lg : bool) (t : handlers) (hs : list CmiHandlerInfo) : Prop :=
  CmiHandlerCount t = length hs * DIST_BETWEEN_HANDLERS lg /\
  exists m, table_repr t m /\ table_clear t m /\
    (forall i h, hs !! i = Some h -> m !! (i * DIST_BETWEEN_HANDLERS lg) = Some h) /\
    (forall n, CmiHandlerCount t <= n -> m !! n = None) /\
    (forall n h, m !! n = Some h -> exists i, n = i * DIST_BETWEEN_HANDLERS lg /\ hs !! i = Some h).

Lemma dist_pos lg : 0 < DIST_BETWEEN_HANDLERS lg.
Proof. destruct lg; simpl; lia. Qed.

Lemma register_step lg r t hs :
  registered lg t hs ->
  registered lg (fst (register lg r t)) (hs ++ [reg_info r]) /\
  snd (register lg r t) = length hs * DIST_BETWEEN_HANDLERS lg.
Proof.
  intros (Hcnt & m & Hr & Hc & Hin & Hout & Honly). pose proof (dist_pos lg) as Hd.
  assert (exists h uptr, reg_info r = mk_hinfo h uptr /\
    CmiHandlerTable (fst (register lg r t)) = CmiHandlerTable (CmiNumberHandlerEx (CmiHandlerCount t) h uptr t) /\
    CmiHandlerCount (fst (register lg r t)) = CmiHandlerCount t + DIST_BETWEEN_HANDLERS lg /\
    snd (register lg r t) = CmiHandlerCount t) as (h & uptr & -> & Ht & Hct & Hi)
    by (destruct r; by eexists _, _).
  split; [|by rewrite Hi]. split; [rewrite Hct, Hcnt; len|].
  destruct (number_repr (CmiHandlerCount t) h uptr t m Hr Hc) as [Hr' Hc'].
  exists (<[CmiHandlerCount t := mk_hinfo h uptr]> m).
  split; [|split]; [intros n x; rewrite Ht; apply Hr'|intros n x; rewrite Ht; apply Hc'|].
  split_and!.
  - intros i x. rewrite lookup_app_Some. intros [Hx|[Hge Hx]].
    + pose proof (lookup_lt_Some _ _ _ Hx). rewrite lookup_insert_ne by nia. by apply Hin.
    + destruct (i - length hs) eqn:E; [|done]. simpl in Hx. injection Hx as <-.
      replace i with (length hs) by lia. rewrite <- Hcnt. by rewrite lookup_insert_eq.
  - intros n Hn. rewrite Hct in Hn. rewrite lookup_insert_ne by lia. apply Hout. lia.
  - intros n x. destruct (decide (n = CmiHandlerCount t)) as [->|].
    + rewrite lookup_insert_eq. intros [= <-]. exists (length hs). split; [done|]. by apply list_lookup_middle.
    + rewrite lookup_insert_ne by done. intros (i & -> & Hx)%Honly. exists i. split; [done|].
      rewrite lookup_app_l; [done|]. by eapply lookup_lt_Some.
Qed.

Lemma register_all_step lg rs : forall t hs, registered lg t hs ->
  registered lg (fst (register_all lg rs t)) (hs ++ (reg_info <$> rs)) /\
  snd (register_all lg rs t) = (fun i => i * DIST_BETWEEN_HANDLERS lg) <$> seq (length hs) (length rs).
Proof.
  induction rs as [|r rs IH]; intros t hs Hr; cbn [register_all].
  { simpl. by rewrite app_nil_r. }
  destruct (register_step lg r t hs Hr) as [Hr1 Hi]. destruct (register lg r t) as [t1 i]. cbn [fst snd] in *.
  destruct (IH t1 _ Hr1) as [Hr2 His]. destruct (register_all lg rs t1) as [t2 idxs]. cbn [fst snd] in *.
  rewrite fmap_cons, <- app_assoc in *. split; [done|].
  rewrite length_app in His. simpl in His. rewrite Nat.add_1_r in His. simpl. by rewrite Hi, His.
Qed.

Lemma init_registered lg zero_fn : registered lg (CmiHandlerInit lg zero_fn) [mk_hinfo zero_fn NULL].
Proof.
  unfold CmiHandlerInit. apply (register_step lg (RegHandler zero_fn) (mk_handlers [] 0 1 2) []).
  split; [done|]. exists ∅. split_and!; done.
Qed.

Lemma find_registered lg t hs i h :
  registered lg t hs -> hs !! i = Some h -> hdlr h <> NULL ->
  i * DIST_BETWEEN_HANDLERS lg < 2 ^ 16 ->
  find_handler (Z.of_nat (i * DIST_BETWEEN_HANDLERS lg)) t = Normal h.
Proof.
  intros (Hcnt & m & Hr & _ & Hin & _ & _) Hi Hne Hlt. unfold find_handler, u16.
  pose proof (lookup_lt_Some _ _ _ Hi). pose proof (dist_pos lg).
  assert (i * DIST_BETWEEN_HANDLERS lg < CmiHandlerCount t) by (rewrite Hcnt; nia).
  assert (Z.of_nat (2 ^ 16) = 2 ^ 16)%Z as Hp by (vm_compute; reflexivity).
  rewrite Z.mod_small by lia. rewrite (proj2 (Z.leb_gt _ _)) by lia.
  rewrite Nat2Z.id, (list_lookup_total_correct _ _ _ (Hr _ _ (Hin _ _ Hi))).
  by rewrite (proj2 (Z.eqb_neq _ _)).
Qed.

Lemma find_unregistered lg t hs n :
  registered lg t hs -> (0 <= n < 2 ^ 16)%Z ->
  (forall i, n = Z.of_nat (i * DIST_BETWEEN_HANDLERS lg) -> length hs <= i) ->
  find_handler n t = Aborted.
Proof.
  intros (Hcnt & m & Hr & Hc & Hin & Hout & Honly) Hn Hno. unfold find_handler, u16.
  rewrite Z.mod_small by lia. destruct (Z.leb_spec (Z.of_nat (CmiHandlerCount t)) n); [done|].
  rewrite list_lookup_total_alt. destruct (CmiHandlerTable t !! Z.to_nat n) as [h|] eqn:E; [|done].
  destruct (m !! Z.to_nat n) as [h'|] eqn:Em.
  - destruct (Honly _ _ Em) as (i & Hi & Hl). apply lookup_lt_Some in Hl.
    specialize (Hno i ltac:(lia)). lia.
  - by rewrite (Hc _ _ E Em).
Qed.

(** C22: registration numbers handlers in order and a message is dispatched to the
    handler its number was given to.  After any sequence of registrations the numbers
    handed out are consecutive multiples of the handler distance, the numbers find
    their handlers with their user pointers however often the table has been
    reallocated, and every other number aborts. *)
Theorem handlers_dispatch lg zero_fn rs :
  zero_fn <> NULL -> Forall (fun r => hdlr (reg_info r) <> NULL) rs ->
  (S (length rs)) * DIST_BETWEEN_HANDLERS lg < 2 ^ 16 ->
  let '(t, idxs) := register_all lg rs (CmiHandlerInit lg zero_fn) in
  idxs = (fun i => i * DIST_BETWEEN_HANDLERS lg) <$> seq 1 (length rs) /\
  (forall j r i, rs !! j = Some r -> idxs !! j = Some i -> find_handler (Z.of_nat i) t = Normal (reg_info r)) /\
  find_handler 0 t = Normal (mk_hinfo zero_fn NULL) /\
  (forall n, (0 <= n < 2 ^ 16)%Z -> n <> 0%Z -> Z.to_nat n ∉ idxs -> find_handler n t = Aborted).
Proof.
  intros Hz Hrs Hlen. destruct (register_all_step lg rs _ _ (init_registered lg zero_fn)) as [Hr His].
  destruct (register_all lg rs _) as [t idxs]. cbn [fst snd] in *. pose proof (dist_pos lg).
  split; [done|]. split_and!.
  - intros j r i Hj Hi. subst idxs. rewrite list_lookup_fmap in Hi.
    pose proof (lookup_lt_Some _ _ _ Hj). rewrite lookup_seq_lt in Hi by done. injection Hi as <-.
    eapply (find_registered lg t _ (1 + j) _ Hr); [| |nia].
    + simpl. by rewrite list_lookup_fmap, Hj.
    + by apply (proj1 (Forall_lookup _ _) Hrs j).
  - apply (find_registered lg t _ 0 _ Hr); [done|done|simpl; nia].
  - intros n Hn Hn0 Hnot. apply (find_unregistered lg t _ n Hr Hn). intros i ->.
    rewrite length_app, length_fmap. simpl. apply Nat.nlt_ge. intros Hlt. apply Hnot. subst idxs.
    rewrite Nat2Z.id. apply list_elem_of_fmap. exists i. split; [done|]. apply elem_of_seq.
    simpl. destruct i; lia.
Qed.

Lemma handlers_dispatch_witness :
  let '(t, idxs) := register_all false [RegHandler 7; RegHandlerEx 8 9]%Z (CmiHandlerInit false 5%Z) in
  idxs = [1; 2] /\ find_handler 2 t = Normal (mk_hinfo 8 9).
Proof.
  assert (5%Z <> NULL) as H1 by done.
  assert (Forall (fun r => hdlr (reg_info r) <> NULL) [RegHandler 7; RegHandlerEx 8 9]%Z) as H2
    by (repeat constructor; done).
  assert (S 2 * DIST_BETWEEN_HANDLERS false < 2 ^ 16) as H3 by (simpl; lia).
  destruct (handlers_dispatch false 5%Z [RegHandler 7; RegHandlerEx 8 9]%Z H1 H2 H3) as (Hi & Hf & _).
  split; [exact Hi|]. exact (Hf 1 (RegHandlerEx 8 9) 2 eq_refl eq_refl).
Defined.
