(* ===== verification/Sched.v ===== *)
(** * Sched: the Converse scheduler (convcore.c)

    [CsdNextMessage] and the scheduler loops of src/conv-core/convcore.c (the
    common code, built without [CMK_TASKQUEUE], [CMK_CELL] and [CMK_CUDA]).
    The queues are reached through two interfaces, which the circular buffer
    of cklists.h and the prioritised queue of queueing.C implement; the
    machine layer, the handlers and the condition callbacks are an
    environment. *)

From S2P Require Import Prelude Heap Deq Prioq Queueing CkQ Handlers Cblist CcdHeap Conds.
Set Warnings "-clear-no-such-hyp".

(** ** Interfaces *)

(** The [CdsFifo] operations the scheduler uses. *)
Class FifoOps (Q : Type) := {
  fifo_dequeue : Q -> Q * ptr;
  fifo_enqueue : Q -> ptr -> outcome Q
}.

(** The [Cqs] operations the scheduler uses. *)
Class CqsOps (Q : Type) := {
  cqs_dequeue : Q -> Q * ptr;
  cqs_empty : Q -> bool;
  cqs_priority : Q -> prio
}.

(** What the scheduler relies on, [rep q l] relating a queue to its messages. *)
Class FifoLaws {Q} (O : FifoOps Q) (rep : Q -> list ptr -> Prop) : Prop := {
  fl_dequeue q l : rep q l ->
    match l with
    | [] => fifo_dequeue q = (q, NULL)
    | x :: l' => exists q', fifo_dequeue q = (q', x) /\ rep q' l'
    end;
  fl_enqueue q l x : rep q l -> exists q', fifo_enqueue q x = Normal q' /\ rep q' (l ++ [x])
}.

Class CqsLaws {Q} (O : CqsOps Q) (rep : Q -> list ptr -> Prop) : Prop := {
  ql_dequeue q l : rep q l ->
    (l = [] /\ cqs_dequeue q = (q, NULL)) \/
    (exists q' x l', cqs_dequeue q = (q', x) /\ l ≡ₚ x :: l' /\ rep q' l');
  ql_empty q l : rep q l -> cqs_empty q = true <-> l = []
}.

(** Build options, and [CsdLocalMax] ([+csdLocalMax]). *)
Class SchedConfig := {
  CMI_QD : bool;
  CMK_GRID_QUEUE_AVAILABLE : bool;
  CMK_NODE_QUEUE_AVAILABLE : bool;
  CMK_NO_MSG_PRIOS : bool;
  CMK_OBJECT_QUEUE_AVAILABLE : bool;
  CharmLibInterOperate : bool;
  CsdLocalMax : Z
}.

(** ** State *)

(** The scheduler's per-processor variables.  [polls] counts the calls of
    [CmiGetNonLocal]; [env] is the rest of the program and of the machine. *)
Record csd {LQ SQ E : Type} := mk_csd {
  localQ : LQ;
  schedQ : SQ;
  nodeQ : SQ;
  gridQ : SQ;
  objQ : LQ;
  localCounter : Z;
  CsdStopFlag : Z;
  qd_mProcessed : Z;
  csd_numchecks : Z;
  cmiMyPeIdle : bool;
  interopExitFlag : bool;
  handler_table : handlers;
  polls : nat;
  env : E
}.
Arguments csd : clear implicits.

(** The machine layer, the bodies of the handlers and of the callbacks. *)
Class SchedEnv (LQ SQ E : Type) := {
  CmiGetNonLocal : E -> E * ptr;
  CmiGetNonLocalNodeQ : E -> E * ptr;
  CmiTryLock : E -> E * Z;
  CmiLock : E -> E;
  CmiUnlock : E -> E;
  CmiGetHandler : E -> ptr -> Z;
  call_handler : CmiHandlerInfo -> ptr -> csd LQ SQ E -> exec (csd LQ SQ E);
  ccd_callbacks : csd LQ SQ E -> exec (csd LQ SQ E);
  ccd_raise : nat -> csd LQ SQ E -> exec (csd LQ SQ E)
}.

Definition CcdPROCESSOR_BEGIN_BUSY : nat := 0.
Definition CcdPROCESSOR_STILL_IDLE : nat := 2.

Section sched.
Context {LQ SQ E : Type} {LO : FifoOps LQ} {SO : CqsOps SQ} {C : SchedConfig} {V : SchedEnv LQ SQ E}.
Abbreviation st := (csd LQ SQ E).

Definition set_localQ q (s : st) : st :=
  mk_csd _ _ _ q (schedQ s) (nodeQ s) (gridQ s) (objQ s) (localCounter s) (CsdStopFlag s) (qd_mProcessed s)
    (csd_numchecks s) (cmiMyPeIdle s) (interopExitFlag s) (handler_table s) (polls s) (env s).
Definition set_schedQ q (s : st) : st :=
  mk_csd _ _ _ (localQ s) q (nodeQ s) (gridQ s) (objQ s) (localCounter s) (CsdStopFlag s) (qd_mProcessed s)
    (csd_numchecks s) (cmiMyPeIdle s) (interopExitFlag s) (handler_table s) (polls s) (env s).
Definition set_nodeQ q (s : st) : st :=
  mk_csd _ _ _ (localQ s) (schedQ s) q (gridQ s) (objQ s) (localCounter s) (CsdStopFlag s) (qd_mProcessed s)
    (csd_numchecks s) (cmiMyPeIdle s) (interopExitFlag s) (handler_table s) (polls s) (env s).
Definition set_gridQ q (s : st) : st :=
  mk_csd _ _ _ (localQ s) (schedQ s) (nodeQ s) q (objQ s) (localCounter s) (CsdStopFlag s) (qd_mProcessed s)
    (csd_numchecks s) (cmiMyPeIdle s) (interopExitFlag s) (handler_table s) (polls s) (env s).
Definition set_objQ q (s : st) : st :=
  mk_csd _ _ _ (localQ s) (schedQ s) (nodeQ s) (gridQ s) q (localCounter s) (CsdStopFlag s) (qd_mProcessed s)
    (csd_numchecks s) (cmiMyPeIdle s) (interopExitFlag s) (handler_table s) (polls s) (env s).
Definition set_localCounter c (s : st) : st :=
  mk_csd _ _ _ (localQ s) (schedQ s) (nodeQ s) (gridQ s) (objQ s) c (CsdStopFlag s) (qd_mProcessed s)
    (csd_numchecks s) (cmiMyPeIdle s) (interopExitFlag s) (handler_table s) (polls s) (env s).
Definition set_csd_numchecks n (s : st) : st :=
  mk_csd _ _ _ (localQ s) (schedQ s) (nodeQ s) (gridQ s) (objQ s) (localCounter s) (CsdStopFlag s)
    (qd_mProcessed s) n (cmiMyPeIdle s) (interopExitFlag s) (handler_table s) (polls s) (env s).
Definition set_idle b (s : st) : st :=
  mk_csd _ _ _ (localQ s) (schedQ s) (nodeQ s) (gridQ s) (objQ s) (localCounter s) (CsdStopFlag s)
    (qd_mProcessed s) (csd_numchecks s) b (interopExitFlag s) (handler_table s) (polls s) (env s).
Definition set_interop b (s : st) : st :=
  mk_csd _ _ _ (localQ s) (schedQ s) (nodeQ s) (gridQ s) (objQ s) (localCounter s) (CsdStopFlag s)
    (qd_mProcessed s) (csd_numchecks s) (cmiMyPeIdle s) b (handler_table s) (polls s) (env s).
Definition set_env e (s : st) : st :=
  mk_csd _ _ _ (localQ s) (schedQ s) (nodeQ s) (gridQ s) (objQ s) (localCounter s) (CsdStopFlag s)
    (qd_mProcessed s) (csd_numchecks s) (cmiMyPeIdle s) (interopExitFlag s) (handler_table s) (polls s) e.
Definition count_poll (s : st) : st :=
  mk_csd _ _ _ (localQ s) (schedQ s) (nodeQ s) (gridQ s) (objQ s) (localCounter s) (CsdStopFlag s)
    (qd_mProcessed s) (csd_numchecks s) (cmiMyPeIdle s) (interopExitFlag s) (handler_table s)
    (S (polls s)) (env s).

(** [CpvAccess(cQdState)->mProcessed++] under [CMI_QD]. *)
Definition qd_process (s : st) : st :=
  if CMI_QD then
    mk_csd _ _ _ (localQ s) (schedQ s) (nodeQ s) (gridQ s) (objQ s) (localCounter s) (CsdStopFlag s)
      (qd_mProcessed s + 1)%Z (csd_numchecks s) (cmiMyPeIdle s) (interopExitFlag s) (handler_table s)
      (polls s) (env s)
  else s.

(** ** Choosing the next message *)

(** [if (NULL!=(msg=f())) return msg;] and go on otherwise. *)
Definition or_else (f g : st -> st * ptr) (s : st) : st * ptr :=
  let '(s, msg) := f s in if (msg =? NULL)%Z then g s else (s, msg).

(** [f] when the condition holds. *)
Definition when (b : bool) (f : st -> st * ptr) (s : st) : st * ptr :=
  if b then f s else (s, NULL).

Definition from_local (s : st) : st * ptr :=
  let '(q, msg) := fifo_dequeue (localQ s) in
  let s := set_localQ q s in
  if (msg =? NULL)%Z then (s, msg) else (qd_process s, msg).

Definition from_sched (s : st) : st * ptr :=
  let '(q, msg) := cqs_dequeue (schedQ s) in (set_schedQ q s, msg).

Definition from_machine (s : st) : st * ptr :=
  let '(e, msg) := CmiGetNonLocal (env s) in
  let s := set_env e (count_poll s) in
  if (msg =? NULL)%Z then (s, msg) else (qd_process s, msg).

Definition from_grid (s : st) : st * ptr :=
  let '(q, msg) := cqs_dequeue (gridQ s) in (set_gridQ q s, msg).

Definition from_machine_node (s : st) : st * ptr :=
  let '(e, msg) := CmiGetNonLocalNodeQ (env s) in (set_env e s, msg).

Definition from_node (s : st) : st * ptr :=
  if negb (cqs_empty (nodeQ s)) && CqsPrioGT (cqs_priority (schedQ s)) (cqs_priority (nodeQ s)) then
    let '(e, r) := CmiTryLock (env s) in
    let s := set_env e s in
    if (r =? 0)%Z then
      let '(q, msg) := cqs_dequeue (nodeQ s) in
      let s := set_nodeQ q s in
      (set_env (CmiUnlock (env s)) s, msg)
    else (s, NULL)
  else (s, NULL).

Definition from_obj (s : st) : st * ptr :=
  let '(q, msg) := fifo_dequeue (objQ s) in (set_objQ q s, msg).

Definition CsdNextMessage (s : st) : st * ptr :=
  let c := localCounter s in
  let s := set_localCounter (i32 (c - 1)) s in
  or_else (when (0 <? c)%Z (or_else from_local from_sched))
    (fun s =>
       let s := set_localCounter CsdLocalMax s in
       or_else from_machine
      (or_else from_local
      (or_else (when CMK_GRID_QUEUE_AVAILABLE from_grid)
      (or_else (when CMK_NODE_QUEUE_AVAILABLE from_machine_node)
      (or_else (when (CMK_NODE_QUEUE_AVAILABLE && negb CMK_NO_MSG_PRIOS) from_node)
      (or_else (when CMK_OBJECT_QUEUE_AVAILABLE from_obj)
      (or_else (when (CsdLocalMax =? 0)%Z from_sched)
         (fun s => (s, NULL)))))))) s) s.

Definition CsdNextLocalNodeMessage (s : st) : st * ptr :=
  when CMK_NODE_QUEUE_AVAILABLE (fun s =>
    if negb (cqs_empty (nodeQ s)) then
      let s := set_env (CmiLock (env s)) s in
      let '(q, msg) := cqs_dequeue (nodeQ s) in
      let s := set_nodeQ q s in
      (set_env (CmiUnlock (env s)) s, msg)
    else (s, NULL)) s.

(** ** Handling a message, idling *)

Definition CmiHandleMessage (msg : ptr) (s : st) : exec st :=
  match find_handler (CmiGetHandler (env s) msg) (handler_table s) with
  | Normal h => call_handler h msg s
  | Aborted => Crash
  end.

Definition CsdBeginIdle (s : st) : exec st :=
  s ← ccd_callbacks s; ccd_raise CcdPROCESSOR_BEGIN_IDLE (set_idle true s).

Definition CsdStillIdle (s : st) : exec st := ccd_raise CcdPROCESSOR_STILL_IDLE s.

Definition CsdEndIdle (s : st) : exec st := ccd_raise CcdPROCESSOR_BEGIN_BUSY (set_idle false s).

(** [if (CpvAccess(_ccd_numchecks)-- <= 0) ccd_callbacks();] *)
Definition CsdPeriodic (s : st) : exec st :=
  let n := csd_numchecks s in
  let s := set_csd_numchecks (i32 (n - 1)) s in
  if (n <=? 0)%Z then ccd_callbacks s else Done s.

(** ** The scheduler loops

    [fuel] bounds the iterations; the result has the messages handled, oldest
    first.  [cycle] is the stop flag when the loop started. *)

Definition stopped (cycle : Z) (s : st) : bool := negb (CsdStopFlag s =? cycle)%Z.

Definition go_idle (isIdle : bool) (s : st) : exec st :=
  if isIdle then CsdStillIdle s else CsdBeginIdle s.

Fixpoint forever_loop (fuel : nat) (cycle : Z) (isIdle : bool) (s : st) : exec (st * list ptr) :=
  match fuel with
  | 0 => NoFuel
  | S fuel =>
      if CharmLibInterOperate && interopExitFlag s then Done (set_interop false s, [])
      else
        let '(s, msg) := CsdNextMessage s in
        if negb (msg =? NULL)%Z then
          s ← (if isIdle then CsdEndIdle s else Done s);
          s ← CmiHandleMessage msg s;
          if stopped cycle s then Done (s, [msg])
          else
            s ← CsdPeriodic s;
            '(s, l) ← forever_loop fuel cycle false s;
            Done (s, msg :: l)
        else
          s ← go_idle isIdle s;
          if stopped cycle s then s ← CsdEndIdle s; Done (s, [])
          else
            s ← CsdPeriodic s;
            forever_loop fuel cycle true s
  end.

Definition CsdScheduleForever (fuel : nat) (s : st) : exec (st * list ptr) :=
  forever_loop fuel (CsdStopFlag s) false s.

Fixpoint count_loop (fuel : nat) (cycle maxmsgs : Z) (isIdle : bool) (s : st) : exec (st * Z * list ptr) :=
  match fuel with
  | 0 => NoFuel
  | S fuel =>
      let '(s, msg) := CsdNextMessage s in
      if negb (msg =? NULL)%Z then
        s ← (if isIdle then CsdEndIdle s else Done s);
        let maxmsgs := (maxmsgs - 1)%Z in
        s ← CmiHandleMessage msg s;
        if stopped cycle s then Done (s, maxmsgs, [msg])
        else if (maxmsgs =? 0)%Z then Done (s, maxmsgs, [msg])
        else
          s ← CsdPeriodic s;
          '(s, r, l) ← count_loop fuel cycle maxmsgs false s;
          Done (s, r, msg :: l)
      else
        s ← go_idle isIdle s;
        if stopped cycle s then s ← CsdEndIdle s; Done (s, maxmsgs, [])
        else
          s ← CsdPeriodic s;
          count_loop fuel cycle maxmsgs true s
  end.

Definition CsdScheduleCount (fuel : nat) (maxmsgs : Z) (s : st) : exec (st * Z * list ptr) :=
  count_loop fuel (CsdStopFlag s) maxmsgs false s.

Fixpoint poll_loop (fuel : nat) (cycle : Z) (s : st) : exec (st * list ptr) :=
  match fuel with
  | 0 => NoFuel
  | S fuel =>
      s ← CsdPeriodic s;
      let '(s, msg) := CsdNextMessage s in
      if negb (msg =? NULL)%Z then
        s ← CmiHandleMessage msg s;
        if stopped cycle s then Done (s, [msg])
        else '(s, l) ← poll_loop fuel cycle s; Done (s, msg :: l)
      else Done (s, [])
  end.

Definition CsdSchedulePoll (fuel : nat) (s : st) : exec (st * list ptr) :=
  poll_loop fuel (CsdStopFlag s) s.

Fixpoint node_poll_loop (fuel : nat) (cycle : Z) (s : st) : exec (st * list ptr) :=
  match fuel with
  | 0 => NoFuel
  | S fuel =>
      let '(s, msg) := CsdNextLocalNodeMessage s in
      if negb (msg =? NULL)%Z then
        s ← CmiHandleMessage msg s;
        if stopped cycle s then Done (s, [msg])
        else '(s, l) ← node_poll_loop fuel cycle s; Done (s, msg :: l)
      else Done (s, [])
  end.

Definition CsdScheduleNodePoll (fuel : nat) (s : st) : exec (st * list ptr) :=
  node_poll_loop fuel (CsdStopFlag s) s.

Definition CsdScheduler (fuel : nat) (maxmsgs : Z) (s : st) : exec (st * Z * list ptr) :=
  if (maxmsgs <? 0)%Z then '(s, l) ← CsdScheduleForever fuel s; Done (s, 0%Z, l)
  else if (maxmsgs =? 0)%Z then '(s, l) ← CsdSchedulePoll fuel s; Done (s, 0%Z, l)
  else CsdScheduleCount fuel maxmsgs s.

Definition CmiDeliverMsgs (fuel : nat) (maxmsgs : Z) (s : st) : exec (st * Z * list ptr) :=
  CsdScheduler fuel maxmsgs s.

(** [side] alternates between the machine layer and the local queue; a message
    with another handler goes to the back of the local queue. *)
Fixpoint deliver_specific (fuel : nat) (handler : Z) (side : bool) (s : st) : exec (st * ptr) :=
  match fuel with
  | 0 => NoFuel
  | S fuel =>
      s ← CsdPeriodic s;
      let side := negb side in
      let '(s, msg) :=
        if side then let '(e, msg) := CmiGetNonLocal (env s) in (set_env e (count_poll s), msg)
        else let '(q, msg) := fifo_dequeue (localQ s) in (set_localQ q s, msg) in
      if negb (msg =? NULL)%Z then
        if (u16 (CmiGetHandler (env s) msg) =? handler)%Z then
          s ← CmiHandleMessage msg (qd_process s);
          Done (s, msg)
        else
          match fifo_enqueue (localQ s) msg with
          | Normal q => deliver_specific fuel handler side (set_localQ q s)
          | Aborted => Crash
          end
      else deliver_specific fuel handler side s
  end.

Definition CmiDeliverSpecificMsg (fuel : nat) (handler : Z) (s : st) : exec (st * ptr) :=
  deliver_specific fuel handler false s.

End sched.

(** ** The queues of the program *)

#[global] Instance ckq_ops : FifoOps ckq :=
  {| fifo_dequeue := CdsFifo_Dequeue; fifo_enqueue := CdsFifo_Enqueue |}.

#[global] Instance queue_ops {U : Uninit} : CqsOps Queue :=
  {| cqs_dequeue := CqsDequeue; cqs_empty := CqsEmpty; cqs_priority := CqsGetPriority |}.
