(* ===== verification/SchedFacts.v ===== *)
(** * SchedFacts: properties of the scheduler

    Which message the scheduler picks and what happens to the others; that no
    queue is starved; what the scheduler loops deliver and when they return. *)

From S2P Require Import Prelude Heap Deq Prioq PrioqFacts Queueing QueueingFacts CkQ Handlers.
From S2P Require Import Cblist CcdHeap Conds Sched.
Set Warnings "-clear-no-such-hyp".

(** ** The queues discharge the interfaces *)

#[global] Instance ckq_laws : FifoLaws ckq_ops ckq_rep.
Proof. split; [apply deq_rep|apply enq_rep]. Qed.

(** The messages of a prioritised queue, in some order. *)
Definition cqs_rep {U : Uninit} (q : Queue) (l : list ptr) : Prop :=
  exists a, queue_repr q a /\ l ≡ₚ acontents a /\ (q_length q < 2 ^ 32)%Z.

#[global] Instance queue_laws {U : Uninit} : CqsLaws queue_ops cqs_rep.
Proof.
  split.
  - intros q l (a & Hr & Hl & Hlen). cbn [cqs_dequeue queue_ops].
    destruct (cqs_dequeue_spec q a Hr Hlen) as [[Hd Hnil]|(q' & x & a' & Hd & Ha & Hr')].
    + left. rewrite Hnil in Hl. split; [by apply Permutation_nil_r|done].
    + right. exists q', x, (acontents a'). split; [done|]. rewrite <- (adequeue_contents _ _ _ Ha).
      split; [done|]. exists a'. split_and!; try done. rewrite (qr_length _ _ Hr').
      rewrite (qr_length _ _ Hr), (adequeue_contents _ _ _ Ha) in Hlen. simpl in Hlen. lia.
  - intros q l (a & Hr & Hl & Hlen). cbn [cqs_empty queue_ops]. unfold CqsEmpty.
    rewrite (qr_length _ _ Hr), Z.eqb_eq, <- (Permutation_length Hl).
    rewrite <- length_zero_iff_nil. lia.
Qed.

(** ** Contents of the queues *)

(** The messages in each queue; [c_net] and [c_nodenet] are the ones in the
    machine layer, on their way to this processor and to this node. *)
Record queues := mk_queues {
  c_local : list ptr; c_sched : list ptr; c_node : list ptr; c_grid : list ptr; c_obj : list ptr;
  c_net : list ptr; c_nodenet : list ptr
}.

(** Where a message was taken from. *)
Inductive source := SLocal | SSched | SNode | SGrid | SObj | SMachine | SMachineNode.

(** [taken c m src c']: [m] is taken from [src], and a FIFO queue gives its
    oldest message. *)
Inductive taken (c : queues) (m : ptr) : source -> queues -> Prop :=
  | taken_local l : c_local c = m :: l -> taken c m SLocal
      (mk_queues l (c_sched c) (c_node c) (c_grid c) (c_obj c) (c_net c) (c_nodenet c))
  | taken_sched l : c_sched c ≡ₚ m :: l -> taken c m SSched
      (mk_queues (c_local c) l (c_node c) (c_grid c) (c_obj c) (c_net c) (c_nodenet c))
  | taken_node l : c_node c ≡ₚ m :: l -> taken c m SNode
      (mk_queues (c_local c) (c_sched c) l (c_grid c) (c_obj c) (c_net c) (c_nodenet c))
  | taken_grid l : c_grid c ≡ₚ m :: l -> taken c m SGrid
      (mk_queues (c_local c) (c_sched c) (c_node c) l (c_obj c) (c_net c) (c_nodenet c))
  | taken_obj l : c_obj c = m :: l -> taken c m SObj
      (mk_queues (c_local c) (c_sched c) (c_node c) (c_grid c) l (c_net c) (c_nodenet c))
  | taken_machine l : c_net c ≡ₚ m :: l -> taken c m SMachine
      (mk_queues (c_local c) (c_sched c) (c_node c) (c_grid c) (c_obj c) l (c_nodenet c))
  | taken_machine_node l : c_nodenet c ≡ₚ m :: l -> taken c m SMachineNode
      (mk_queues (c_local c) (c_sched c) (c_node c) (c_grid c) (c_obj c) (c_net c) l).

(** All the messages the scheduler can reach. *)
Definition qcontents (c : queues) : list ptr :=
  c_local c ++ c_sched c ++ c_node c ++ c_grid c ++ c_obj c ++ c_net c ++ c_nodenet c.

Lemma taken_contents c m src c' : taken c m src c' -> qcontents c ≡ₚ m :: qcontents c'.
Proof.
  destruct c as [cl cs cn cg co ce cf]. destruct 1 as [l H|l H|l H|l H|l H|l H|l H]; unfold qcontents;
    simpl in *; rewrite ?H; simpl; try done; solve_Permutation.
Qed.

(** What the machine layer promises: polling it hands over a message that was
    on its way or nothing; locks do not touch messages. *)
Class MachineLaws {LQ SQ E} (V : SchedEnv LQ SQ E) (mrep : E -> list ptr -> list ptr -> Prop) : Prop := {
  ml_nonlocal e l ln : mrep e l ln ->
    let '(e', m) := CmiGetNonLocal e in
    if (m =? NULL)%Z then mrep e' l ln else exists l', l ≡ₚ m :: l' /\ mrep e' l' ln;
  ml_nonlocal_node e l ln : mrep e l ln ->
    let '(e', m) := CmiGetNonLocalNodeQ e in
    if (m =? NULL)%Z then mrep e' l ln else exists l', ln ≡ₚ m :: l' /\ mrep e' l l';
  ml_trylock e l ln : mrep e l ln -> mrep (fst (CmiTryLock e)) l ln;
  ml_lock e l ln : mrep e l ln -> mrep (CmiLock e) l ln;
  ml_unlock e l ln : mrep e l ln -> mrep (CmiUnlock e) l ln
}.

Section facts.
Context {LQ SQ E : Type} {LO : FifoOps LQ} {SO : CqsOps SQ} {C : SchedConfig} {V : SchedEnv LQ SQ E}.
Context (lrep : LQ -> list ptr -> Prop) (srep : SQ -> list ptr -> Prop).
Context (mrep : E -> list ptr -> list ptr -> Prop).
Context {LL : FifoLaws LO lrep} {SL : CqsLaws SO srep} {ML : MachineLaws V mrep}.
Abbreviation st := (csd LQ SQ E).

(** The scheduler's state holds the messages of [c], none of them [NULL]. *)
Record holds (s : st) (c : queues) : Prop := {
  h_local : lrep (localQ s) (c_local c);
  h_sched : srep (schedQ s) (c_sched c);
  h_node : srep (nodeQ s) (c_node c);
  h_grid : srep (gridQ s) (c_grid c);
  h_obj : lrep (objQ s) (c_obj c);
  h_mach : mrep (env s) (c_net c) (c_nodenet c);
  h_nonnull : Forall (fun m => m <> NULL) (qcontents c)
}.

Lemma taken_nonnull c m src c' : Forall (fun m => m <> NULL) (qcontents c) -> taken c m src c' ->
  Forall (fun m => m <> NULL) (qcontents c') /\ m <> NULL.
Proof.
  intros Hf Ht. rewrite (taken_contents _ _ _ _ Ht) in Hf. by apply Forall_cons in Hf as [??].
Qed.

(** The variables a source leaves alone. *)
Definition same_counters (s s' : st) : Prop :=
  localCounter s' = localCounter s /\ CsdStopFlag s' = CsdStopFlag s /\
  csd_numchecks s' = csd_numchecks s /\ handler_table s' = handler_table s /\
  interopExitFlag s' = interopExitFlag s /\ cmiMyPeIdle s' = cmiMyPeIdle s.

(** How far the quiescence counter moves. *)
Definition qd_delta (src : source) : Z :=
  if CMI_QD then match src with SLocal | SMachine => 1 | _ => 0 end else 0.

(** A source [f] gives a message of [srcs] and takes it away, or gives none,
    and then [empty] says what that means; it polls at most [np] times. *)
Definition source_spec (f : st -> st * ptr) (srcs : list source) (empty : st -> queues -> Prop) (np : nat) : Prop :=
  forall s c, holds s c ->
  let '(s', m) := f s in
  same_counters s s' /\ polls s <= polls s' <= polls s + np /\
  if (m =? NULL)%Z then holds s' c /\ empty s c /\ qd_mProcessed s' = qd_mProcessed s
  else exists src c', src ∈ srcs /\ taken c m src c' /\ holds s' c' /\
    qd_mProcessed s' = (qd_mProcessed s + qd_delta src)%Z.

Lemma same_counters_refl s : same_counters s s.
Proof. by split_and!. Qed.

Lemma same_counters_trans s1 s2 s3 :
  same_counters s1 s2 -> same_counters s2 s3 -> same_counters s1 s3.
Proof. unfold same_counters. naive_solver congruence. Qed.

Lemma or_else_spec f g srcs1 srcs2 (e1 e2 : queues -> Prop) n1 n2 :
  source_spec f srcs1 (fun _ => e1) n1 -> source_spec g srcs2 (fun _ => e2) n2 ->
  source_spec (or_else f g) (srcs1 ++ srcs2) (fun _ c => e1 c /\ e2 c) (n1 + n2).
Proof.
  intros Hf Hg s c Hs. unfold or_else. specialize (Hf s c Hs). destruct (f s) as [s1 m1].
  destruct Hf as (Hc1 & Hp1 & H1). destruct (m1 =? NULL)%Z eqn:Em.
  - destruct H1 as (Hs1 & He1 & Hq1). specialize (Hg s1 c Hs1). destruct (g s1) as [s2 m2].
    destruct Hg as (Hc2 & Hp2 & H2). split; [by eapply same_counters_trans|]. split; [lia|].
    destruct (m2 =? NULL)%Z.
    + destruct H2 as (Hs2 & He2 & Hq2). split_and!; try done; congruence.
    + destruct H2 as (src & c' & Hin & Ht & Hs2 & Hq2). exists src, c'.
      split_and!; try done; [by apply elem_of_app; right|congruence].
  - split; [done|]. split; [lia|]. rewrite Em. destruct H1 as (src & c' & Hin & Ht & Hs1 & Hq).
    exists src, c'. split_and!; try done. by apply elem_of_app; left.
Qed.

Lemma nothing_spec : source_spec (fun s => (s, NULL)) [] (fun _ _ => True) 0.
Proof. intros s c Hs. split; [apply same_counters_refl|]. split; [lia|]. by simpl. Qed.

Lemma when_spec b f srcs (e : queues -> Prop) :
  source_spec f srcs (fun _ => e) 0 -> source_spec (when b f) srcs (fun _ c => b = true -> e c) 0.
Proof.
  intros Hf s c Hs. unfold when. destruct b.
  - specialize (Hf s c Hs). destruct (f s) as [s' m]. destruct Hf as (? & ? & Hf). split; [done|]. split; [done|].
    destruct (m =? NULL)%Z; naive_solver.
  - split; [apply same_counters_refl|]. split; [lia|]. by simpl.
Qed.

(** *** The sources *)

Lemma qd_process_fields s :
  localQ (qd_process s) = localQ s /\ schedQ (qd_process s) = schedQ s /\
  nodeQ (qd_process s) = nodeQ s /\ gridQ (qd_process s) = gridQ s /\ objQ (qd_process s) = objQ s /\
  env (qd_process s) = env s /\ same_counters s (qd_process s) /\ polls (qd_process s) = polls s /\
  qd_mProcessed (qd_process s) = (qd_mProcessed s + if CMI_QD then 1 else 0)%Z.
Proof. unfold qd_process. destruct CMI_QD; simpl; split_and!; (done || lia). Qed.

Lemma holds_qd_process s c : holds s c -> holds (qd_process s) c.
Proof.
  intros []. pose proof (qd_process_fields s) as (E1 & E2 & E3 & E4 & E5 & E6 & _).
  split; rewrite ?E1, ?E2, ?E3, ?E4, ?E5, ?E6; done.
Qed.

(** A message taken from a queue is a message of the program. *)
Ltac take_msg Ht :=
  let Hn := fresh in
  match goal with Hnn : Forall _ (qcontents _) |- _ =>
    pose proof (taken_nonnull _ _ _ _ Hnn Ht) as [? Hn]; apply Z.eqb_neq in Hn;
    rewrite ?Hn; cbv beta iota zeta; rewrite ?Hn
  end.

(** Nothing was found. *)
Ltac no_msg := split; [by split_and!|]; split; [simpl; lia|]; simpl; split_and!; try done; try (by split).

(** The message [m] was found in a queue that does not count. *)
Ltac found src Ht :=
  split; [by split_and!|]; split; [simpl; lia|]; eexists src, _;
  split_and!; [set_solver|exact Ht|by split|]; unfold qd_delta; simpl; destruct CMI_QD; lia.

(** The message was found where messages are counted as processed. *)
Ltac found_counted src Ht s' :=
  let Hp := fresh in let Hq := fresh in
  pose proof (qd_process_fields s') as (_ & _ & _ & _ & _ & _ & ? & Hp & Hq);
  split; [done|]; split; [simpl in Hp; lia|]; eexists src, _;
  split_and!; [set_solver|exact Ht|apply holds_qd_process; by split|];
  rewrite Hq; unfold qd_delta; simpl; destruct CMI_QD; lia.

Lemma from_local_spec : source_spec from_local [SLocal] (fun _ c => c_local c = []) 0.
Proof.
  intros s c [Hl Hsq Hn Hg Ho Hm Hnn]. unfold from_local. pose proof (fl_dequeue _ _ Hl) as Hd.
  destruct (c_local c) as [|m l] eqn:El.
  - rewrite <- El in Hl. rewrite Hd. no_msg.
  - destruct Hd as (q' & -> & Hr). pose proof (taken_local c m l El) as Ht. take_msg Ht.
    found_counted SLocal Ht (set_localQ q' s).
Qed.

Lemma from_sched_spec : source_spec from_sched [SSched] (fun _ c => c_sched c = []) 0.
Proof.
  intros s c [Hl Hsq Hn Hg Ho Hm Hnn]. unfold from_sched.
  destruct (ql_dequeue _ _ Hsq) as [[El Hd]|(q' & m & l & Hd & Hp & Hr)]; rewrite Hd; [no_msg|].
  pose proof (taken_sched c m l Hp) as Ht. take_msg Ht. found SSched Ht.
Qed.

Lemma from_grid_spec : source_spec from_grid [SGrid] (fun _ c => c_grid c = []) 0.
Proof.
  intros s c [Hl Hsq Hn Hg Ho Hm Hnn]. unfold from_grid.
  destruct (ql_dequeue _ _ Hg) as [[El Hd]|(q' & m & l & Hd & Hp & Hr)]; rewrite Hd; [no_msg|].
  pose proof (taken_grid c m l Hp) as Ht. take_msg Ht. found SGrid Ht.
Qed.

Lemma from_obj_spec : source_spec from_obj [SObj] (fun _ c => c_obj c = []) 0.
Proof.
  intros s c [Hl Hsq Hn Hg Ho Hm Hnn]. unfold from_obj. pose proof (fl_dequeue _ _ Ho) as Hd.
  destruct (c_obj c) as [|m l] eqn:El.
  - rewrite <- El in Ho. rewrite Hd. no_msg.
  - destruct Hd as (q' & -> & Hr). pose proof (taken_obj c m l El) as Ht. take_msg Ht. found SObj Ht.
Qed.

(** A machine layer that hands over every message it has. *)
Definition machine_prompt : Prop :=
  forall e l ln, mrep e l ln -> snd (CmiGetNonLocal e) = NULL -> l = [].

Lemma from_machine_spec :
  source_spec from_machine [SMachine] (fun _ c => machine_prompt -> c_net c = []) 1.
Proof.
  intros s c [Hl Hsq Hn Hg Ho Hm Hnn]. unfold from_machine. pose proof (ml_nonlocal _ _ _ Hm) as Hd.
  pose proof (fun P : machine_prompt => P _ _ _ Hm) as Hpr.
  destruct (CmiGetNonLocal (env s)) as [e m]. destruct (m =? NULL)%Z eqn:Em.
  - rewrite Em. simpl in Hpr. apply Z.eqb_eq in Em. no_msg. intros P. by apply Hpr.
  - destruct Hd as (l & Hp & Hr). pose proof (taken_machine c m l Hp) as Ht. take_msg Ht.
    found_counted SMachine Ht (set_env e (count_poll s)).
Qed.

Lemma from_machine_node_spec : source_spec from_machine_node [SMachineNode] (fun _ _ => True) 0.
Proof.
  intros s c [Hl Hsq Hn Hg Ho Hm Hnn]. unfold from_machine_node. pose proof (ml_nonlocal_node _ _ _ Hm) as Hd.
  destruct (CmiGetNonLocalNodeQ (env s)) as [e m]. destruct (m =? NULL)%Z eqn:Em; [no_msg|].
  destruct Hd as (l & Hp & Hr). pose proof (taken_machine_node c m l Hp) as Ht. take_msg Ht.
  found SMachineNode Ht.
Qed.

Lemma from_node_spec : source_spec from_node [SNode] (fun _ _ => True) 0.
Proof.
  intros s c Hs. unfold from_node. destruct (_ && _); [|by apply (nothing_spec s c Hs)].
  destruct Hs as [Hl Hsq Hn Hg Ho Hm Hnn]. pose proof (ml_trylock _ _ _ Hm) as Hm'.
  destruct (CmiTryLock (env s)) as [e r]. simpl in Hm'. destruct (r =? 0)%Z; [|no_msg].
  pose proof (ml_unlock _ _ _ Hm') as Hm2. cbn [nodeQ set_env].
  destruct (ql_dequeue _ _ Hn) as [[El Hd]|(q' & m & l & Hd & Hp & Hr)]; rewrite Hd; [no_msg|].
  pose proof (taken_node c m l Hp) as Ht. take_msg Ht. found SNode Ht.
Qed.

(** *** The choice *)

(** The sources after the machine layer has been polled. *)
Definition rest_of_sources : st -> st * ptr :=
  or_else from_local
 (or_else (when CMK_GRID_QUEUE_AVAILABLE from_grid)
 (or_else (when CMK_NODE_QUEUE_AVAILABLE from_machine_node)
 (or_else (when (CMK_NODE_QUEUE_AVAILABLE && negb CMK_NO_MSG_PRIOS) from_node)
 (or_else (when CMK_OBJECT_QUEUE_AVAILABLE from_obj)
 (or_else (when (CsdLocalMax =? 0)%Z from_sched)
    (fun s => (s, NULL))))))).

Definition rest_empty (c : queues) : Prop :=
  c_local c = [] /\ (CMK_GRID_QUEUE_AVAILABLE = true -> c_grid c = []) /\
  (CMK_OBJECT_QUEUE_AVAILABLE = true -> c_obj c = []) /\ (CsdLocalMax = 0%Z -> c_sched c = []).

Lemma source_spec_weaken f srcs srcs' (e e' : queues -> Prop) n :
  source_spec f srcs (fun _ => e) n -> srcs ⊆ srcs' -> (forall c, e c -> e' c) ->
  source_spec f srcs' (fun _ => e') n.
Proof.
  intros Hf Hsub He s c Hs. specialize (Hf s c Hs). destruct (f s) as [s' m].
  destruct Hf as (? & ? & Hf). split; [done|]. split; [done|]. destruct (m =? NULL)%Z; [naive_solver|].
  destruct Hf as (src & c' & Hin & Hf). exists src, c'. split; [by apply Hsub|done].
Qed.

Lemma rest_spec :
  source_spec rest_of_sources [SLocal; SGrid; SMachineNode; SNode; SObj; SSched] (fun _ => rest_empty) 0.
Proof.
  eapply source_spec_weaken.
  - eapply (or_else_spec _ _ _ _ _ _ 0 0 from_local_spec).
    eapply (or_else_spec _ _ _ _ _ _ 0 0 (when_spec _ _ _ _ from_grid_spec)).
    eapply (or_else_spec _ _ _ _ _ _ 0 0 (when_spec _ _ _ _ from_machine_node_spec)).
    eapply (or_else_spec _ _ _ _ _ _ 0 0 (when_spec _ _ _ _ from_node_spec)).
    eapply (or_else_spec _ _ _ _ _ _ 0 0 (when_spec _ _ _ _ from_obj_spec)).
    eapply (or_else_spec _ _ _ _ _ _ 0 0 (when_spec _ _ _ _ from_sched_spec)). apply nothing_spec.
  - intros src. set_solver.
  - intros c (Hl & Hg & _ & _ & Ho & Hs & _). split_and!; try done. intros Hz. apply Hs. by apply Z.eqb_eq.
Qed.

Lemma first_spec b :
  source_spec (when b (or_else from_local from_sched)) [SLocal; SSched]
    (fun _ c => b = true -> c_local c = [] /\ c_sched c = []) 0.
Proof. apply when_spec, (or_else_spec _ _ _ _ _ _ 0 0 from_local_spec from_sched_spec). Qed.

Lemma holds_set_localCounter n s c : holds s c -> holds (set_localCounter n s) c.
Proof. by intros []; split. Qed.

(** One call: the message taken and from where, or why there was none. *)
Record next_result (s s' : st) (c : queues) (m : ptr) : Prop := {
  nr_stop : CsdStopFlag s' = CsdStopFlag s;
  nr_table : handler_table s' = handler_table s;
  nr_checks : csd_numchecks s' = csd_numchecks s;
  nr_interop : interopExitFlag s' = interopExitFlag s;
  nr_found : m <> NULL -> exists src c', taken c m src c' /\ holds s' c' /\
    qd_mProcessed s' = (qd_mProcessed s + qd_delta src)%Z;
  nr_none : m = NULL -> holds s' c /\ qd_mProcessed s' = qd_mProcessed s /\ rest_empty c /\
    ((0 < localCounter s)%Z -> c_sched c = []) /\ (machine_prompt -> c_net c = []);
  nr_poll : (polls s' = polls s /\ (0 < localCounter s)%Z /\ localCounter s' = i32 (localCounter s - 1) /\ m <> NULL) \/
            (polls s' = S (polls s) /\ localCounter s' = CsdLocalMax)
}.

Lemma next_message_result s c s' m :
  holds s c -> CsdNextMessage s = (s', m) -> next_result s s' c m.
Proof.
  intros Hs. unfold CsdNextMessage. set (s0 := set_localCounter _ s).
  assert (holds s0 c) as Hs0 by (by apply holds_set_localCounter).
  unfold or_else at 1. pose proof (first_spec (0 <? localCounter s)%Z s0 c Hs0) as Hf.
  assert ((0 <? localCounter s)%Z = false -> snd (when (0 <? localCounter s)%Z (or_else from_local from_sched) s0) = NULL) as Hpos
    by (intros ->; done).
  destruct (when _ _ s0) as [s1 m1]. destruct Hf as ((Hlc & Hst & Hck & Hht & Hio & _) & Hp1 & Hf).
  simpl in Hpos. change (polls s0) with (polls s) in Hp1.
  destruct (m1 =? NULL)%Z eqn:Em.
  2: { intros [= <- <-]. apply Z.eqb_neq in Em. destruct (0 <? localCounter s)%Z eqn:Ec; [|by specialize (Hpos eq_refl)].
    apply Z.ltb_lt in Ec. split; try done.
    - intros _. destruct Hf as (src & c' & _ & Ht & Hs1 & Hq). by exists src, c'.
    - left. split; [lia|]. by rewrite Hlc. }
  destruct Hf as (Hs1 & He1 & Hq1).
  assert (holds (set_localCounter CsdLocalMax s1) c) as Hs2 by (by apply holds_set_localCounter).
  fold rest_of_sources. unfold or_else. pose proof (from_machine_spec _ c Hs2) as Hf.
  assert (polls (fst (from_machine (set_localCounter CsdLocalMax s1))) = S (polls s1)) as Hpp.
  { unfold from_machine. destruct (CmiGetNonLocal _) as [e m2]. destruct (m2 =? NULL)%Z; [done|].
    pose proof (qd_process_fields (set_env e (count_poll (set_localCounter CsdLocalMax s1))))
      as (_ & _ & _ & _ & _ & _ & _ & Hp & _). exact Hp. }
  destruct (from_machine _) as [s3 m3]. simpl in Hpp.
  destruct Hf as ((Hlc3 & Hst3 & Hck3 & Hht3 & Hio3 & _) & _ & Hf). simpl in Hlc3, Hst3, Hck3, Hht3, Hio3.
  destruct (m3 =? NULL)%Z eqn:Em3.
  2: { intros [= <- <-]. apply Z.eqb_neq in Em3. split; try congruence; [by rewrite Hst3, Hst|by rewrite Hht3, Hht|
      by rewrite Hck3, Hck|by rewrite Hio3, Hio| |right; split; [lia|congruence]].
    intros _. destruct Hf as (src & c' & _ & Ht & Hs3 & Hq). exists src, c'. split_and!; try done.
    simpl in Hq. by rewrite Hq, Hq1. }
  destruct Hf as (Hs3 & Hnet & Hq3). pose proof (rest_spec s3 c Hs3) as Hf. fold rest_of_sources.
  destruct (rest_of_sources s3) as [s4 m4].
  destruct Hf as ((Hlc4 & Hst4 & Hck4 & Hht4 & Hio4 & _) & Hp4 & Hf). intros [= <- <-]. simpl in Hq3.
  split; [by rewrite Hst4, Hst3, Hst|by rewrite Hht4, Hht3, Hht|by rewrite Hck4, Hck3, Hck|
    by rewrite Hio4, Hio3, Hio| | |right; split; [lia|congruence]].
  - intros Hne. rewrite (proj2 (Z.eqb_neq _ _)) in Hf by done. destruct Hf as (src & c' & _ & Ht & Hs4 & Hq).
    exists src, c'. split_and!; try done. by rewrite Hq, Hq3, Hq1.
  - intros ->. simpl in Hf. destruct Hf as (Hs4 & He & Hq4). split_and!; try done.
    + by rewrite Hq4, Hq3, Hq1.
    + intros Hc. by apply He1; apply Z.ltb_lt.
Qed.


(** [n] calls of [CsdNextMessage], with anything in between that leaves the
    queues in order and does not raise the counter without polling. *)
Inductive calls : nat -> st -> st -> Prop :=
  | calls_nil s : calls 0 s s
  | calls_cons n s s1 m s2 s3 :
      CsdNextMessage s = (s1, m) -> (exists c, holds s2 c) -> polls s1 <= polls s2 ->
      (polls s2 = polls s1 -> localCounter s2 = localCounter s1) ->
      calls n s2 s3 -> calls (S n) s s3.

Lemma calls_monotone n s s' : calls n s s' -> (exists c, holds s c) -> polls s <= polls s'.
Proof.
  induction 1 as [s|n s s1 m s2 s3 Hn Hh Hp Hl _ IH]; intros [c Hc]; [done|].
  specialize (IH Hh). destruct (nr_poll _ _ _ _ (next_message_result s c s1 m Hc Hn)) as [(? & _)|(? & _)]; lia.
Qed.

(** C24: the network is not starved by local work: among any [CsdLocalMax + 1]
    consecutive calls of [CsdNextMessage], whatever the handlers do in between, at least
    one polls the machine layer. *)
Theorem nonlocal_polled n s s' c :
  holds s c -> (0 <= CsdLocalMax < 2 ^ 31)%Z -> (localCounter s <= CsdLocalMax)%Z ->
  calls n s s' -> (CsdLocalMax < Z.of_nat n)%Z -> polls s < polls s'.
Proof.
  intros Hs Hmax Hlc Hcalls Hn.
  assert (Z.max 0 (localCounter s) < Z.of_nat n)%Z as Hn' by lia. clear Hn.
  revert c Hs Hlc Hn'. induction Hcalls as [s|n s s1 m s2 s3 Hn Hh Hp Hl Hcalls IH]; intros c Hs Hlc Hlt; [lia|].
  pose proof (calls_monotone _ _ _ Hcalls Hh) as Hmono. destruct Hh as [c2 Hc2].
  destruct (nr_poll _ _ _ _ (next_message_result s c s1 m Hs Hn)) as [(Hsame & Hpos & Hdec & _)|(Hinc & _)]; [|lia].
  destruct (decide (polls s2 = polls s1)) as [He|]; [|lia].
  rewrite i32_small in Hdec by lia. specialize (Hl He).
  assert (polls s2 < polls s3); [|lia]. apply (IH c2 Hc2); lia.
Qed.

End facts.
