(* ===== verification/SchedLoops.v ===== *)
(** * SchedLoops: what the scheduler loops deliver and when they return

    Total correctness of the polling and counting schedulers for programs
    whose handlers send messages in turn, [CmiDeliverSpecificMsg], and two
    behaviours that differ from what the comments say. *)

From S2P Require Import Prelude Heap Deq Prioq PrioqFacts Queueing QueueingFacts CkQ Handlers.
From S2P Require Import Cblist CcdHeap Conds Sched SchedFacts.
Set Warnings "-clear-no-such-hyp".

Section loops.
Context {LQ SQ E : Type} {LO : FifoOps LQ} {SO : CqsOps SQ} {C : SchedConfig} {V : SchedEnv LQ SQ E}.
Context (lrep : LQ -> list ptr -> Prop) (srep : SQ -> list ptr -> Prop).
Context (mrep : E -> list ptr -> list ptr -> Prop).
Context {LL : FifoLaws LO lrep} {SL : CqsLaws SO srep} {ML : MachineLaws V mrep}.
Abbreviation st := (csd LQ SQ E).
Abbreviation holds := (holds lrep srep mrep).

(** Messages are only in queues that the build has, and none is in the node
    queues: the non-SMP configuration. *)
Definition enabled (c : queues) : Prop :=
  (CMK_GRID_QUEUE_AVAILABLE = false -> c_grid c = []) /\
  (CMK_OBJECT_QUEUE_AVAILABLE = false -> c_obj c = []) /\ c_node c = [] /\ c_nodenet c = [].

(** A program whose handlers return: handling [m] sends the messages
    [spawn m]; the callbacks send none. [T] is its handler table. *)
Class SchedProgram (T : handlers) (spawn : ptr -> list ptr) : Prop := {
  sp_prompt : machine_prompt mrep;
  sp_callbacks (s : st) c : holds s c -> handler_table s = T ->
    exists s', ccd_callbacks s = Done s' /\ holds s' c /\ handler_table s' = T /\
      CsdStopFlag s' = CsdStopFlag s;
  sp_raise n (s : st) c : holds s c -> handler_table s = T ->
    exists s', ccd_raise n s = Done s' /\ holds s' c /\ handler_table s' = T /\
      CsdStopFlag s' = CsdStopFlag s;
  sp_handler (s : st) c m : holds s c -> enabled c -> handler_table s = T -> m <> NULL ->
    exists h s' c', find_handler (CmiGetHandler (env s) m) T = Normal h /\ call_handler h m s = Done s' /\
      holds s' c' /\ enabled c' /\ qcontents c' ≡ₚ spawn m ++ qcontents c /\
      handler_table s' = T /\ CsdStopFlag s' = CsdStopFlag s
}.

Context (T : handlers) (spawn : ptr -> list ptr) {P : SchedProgram T spawn}.

(** A state of the program, holding [c]. *)
Definition running (s : st) (c : queues) : Prop := holds s c /\ enabled c /\ handler_table s = T.

Lemma taken_enabled c m src c' : taken c m src c' -> enabled c -> enabled c'.
Proof.
  intros Ht (Hg & Ho & Hn & Hnn). destruct Ht as [l H|l H|l H|l H|l H|l H|l H]; split_and!; simpl; try done.
  - by rewrite Hn in H; apply Permutation_nil_cons in H.
  - intros E1. rewrite (Hg E1) in H. by apply Permutation_nil_cons in H.
  - intros E1. by rewrite (Ho E1) in H.
  - by rewrite Hnn in H; apply Permutation_nil_cons in H.
Qed.

Lemma periodic_running s c : running s c ->
  exists s', CsdPeriodic s = Done s' /\ running s' c /\ CsdStopFlag s' = CsdStopFlag s.
Proof.
  intros (Hs & He & HT). unfold CsdPeriodic. set (s1 := set_csd_numchecks _ s).
  assert (holds s1 c) as Hs1 by (by destruct Hs; split).
  destruct (_ <=? _)%Z; [|by exists s1].
  destruct (sp_callbacks s1 c Hs1 HT) as (s' & -> & Hs' & HT' & Hst). by exists s'.
Qed.

Lemma raise_running n s c : running s c ->
  exists s', ccd_raise n s = Done s' /\ running s' c /\ CsdStopFlag s' = CsdStopFlag s.
Proof.
  intros (Hs & He & HT). destruct (sp_raise n s c Hs HT) as (s' & -> & Hs' & HT' & Hst). by exists s'.
Qed.

Lemma set_idle_running b s c : running s c -> running (set_idle b s) c.
Proof. intros (Hs & He & HT). split; [by destruct Hs; split|done]. Qed.

Lemma go_idle_running b s c : running s c ->
  exists s', go_idle b s = Done s' /\ running s' c /\ CsdStopFlag s' = CsdStopFlag s.
Proof.
  intros Hr. unfold go_idle. destruct b; [by apply raise_running|].
  unfold CsdBeginIdle. pose proof Hr as (Hs & He & HT).
  destruct (sp_callbacks s c Hs HT) as (s1 & -> & Hs1 & HT1 & Hst1). cbn [mbind exec_bind].
  destruct (raise_running CcdPROCESSOR_BEGIN_IDLE (set_idle true s1) c) as (s2 & -> & Hr2 & Hst2).
  { apply set_idle_running. by split. }
  exists s2. split; [done|]. split; [done|]. simpl in Hst2. congruence.
Qed.

Lemma end_idle_running s c : running s c ->
  exists s', CsdEndIdle s = Done s' /\ running s' c /\ CsdStopFlag s' = CsdStopFlag s.
Proof. intros Hr. exact (raise_running _ _ _ (set_idle_running false s c Hr)). Qed.

(** One round of the default scheduler: a message of the program, or none
    because there is none. *)
Lemma next_running s c : running s c -> CsdLocalMax = 0%Z ->
  exists s1 m, CsdNextMessage s = (s1, m) /\ CsdStopFlag s1 = CsdStopFlag s /\
    if (m =? NULL)%Z then running s1 c /\ qcontents c = []
    else m <> NULL /\ exists c1, running s1 c1 /\ qcontents c ≡ₚ m :: qcontents c1.
Proof.
  intros (Hs & He & HT) Hmax. destruct (CsdNextMessage s) as [s1 m] eqn:En. exists s1, m.
  destruct (next_message_result lrep srep mrep s c s1 m Hs En) as [Hst Htab _ _ Hfound Hnone _].
  split; [done|]. split; [done|]. destruct (Z.eqb_spec m NULL) as [->|Hne].
  - destruct (Hnone eq_refl) as (Hs1 & _ & (Hl & Hg & Ho & Hsc) & _ & Hnet).
    split; [split_and!; (done || congruence || apply He)|].
    destruct He as (Hg' & Ho' & Hn & Hnn). unfold qcontents. rewrite Hl, (Hsc Hmax), Hn, Hnn, (Hnet sp_prompt).
    destruct CMK_GRID_QUEUE_AVAILABLE, CMK_OBJECT_QUEUE_AVAILABLE;
      rewrite ?Hg, ?Ho, ?Hg', ?Ho' by done; done.
  - split; [done|]. destruct (Hfound Hne) as (src & c1 & Ht & Hs1 & _). exists c1.
    split; [split; [done|]; split; [by eapply taken_enabled|congruence]|by eapply taken_contents].
Qed.

Lemma handle_running s c m : running s c -> m <> NULL ->
  exists s' c', CmiHandleMessage m s = Done s' /\ running s' c' /\
    qcontents c' ≡ₚ spawn m ++ qcontents c /\ CsdStopFlag s' = CsdStopFlag s.
Proof.
  intros (Hs & He & HT) Hne.
  destruct (sp_handler s c m Hs He HT Hne) as (h & s' & c' & Hh & Hc & Hs' & He' & Hq & HT' & Hst).
  exists s', c'. unfold CmiHandleMessage. rewrite HT, Hh. by split_and!.
Qed.

Lemma not_stopped (s s' : st) : CsdStopFlag s' = CsdStopFlag s -> stopped (CsdStopFlag s) s' = false.
Proof. unfold stopped. intros ->. by rewrite Z.eqb_refl. Qed.

(** ** Polling *)

Context (weight : ptr -> nat).

(** The work that a list of messages stands for. *)
Definition work (l : list ptr) : nat := sum_list_with weight l.

Lemma work_perm l1 l2 : l1 ≡ₚ l2 -> work l1 = work l2.
Proof. intros Hp. unfold work. induction Hp; simpl; lia. Qed.

Lemma work_app l1 l2 : work (l1 ++ l2) = work l1 + work l2.
Proof. apply sum_list_with_app. Qed.

Lemma poll_loop_drains fuel : forall s c,
  (forall m, work (spawn m) < weight m) -> CsdLocalMax = 0%Z ->
  running s c -> work (qcontents c) < fuel ->
  exists s' c' l, poll_loop fuel (CsdStopFlag s) s = Done (s', l) /\ holds s' c' /\ qcontents c' = [] /\
    l ≡ₚ qcontents c ++ mjoin (spawn <$> l) /\ CsdStopFlag s' = CsdStopFlag s.
Proof.
  induction fuel as [|fuel IH]; intros s c Hw Hmax Hr Hf; [lia|]. cbn [poll_loop].
  destruct (periodic_running s c Hr) as (s1 & -> & Hr1 & Hst1). cbn [mbind exec_bind].
  destruct (next_running s1 c Hr1 Hmax) as (s2 & m & -> & Hst2 & Hm).
  destruct (m =? NULL)%Z; cbn [negb].
  { destruct Hm as ((Hs2 & _) & Hq). exists s2, c, []. rewrite Hq. split_and!; try done. congruence. }
  destruct Hm as (Hne & c1 & Hr2 & Hq1).
  destruct (handle_running s2 c1 m Hr2 Hne) as (s3 & c3 & -> & Hr3 & Hq3 & Hst3). cbn [mbind exec_bind].
  assert (CsdStopFlag s3 = CsdStopFlag s) as Hst by congruence. rewrite (not_stopped s s3 Hst), <- Hst.
  rewrite (work_perm _ _ Hq1) in Hf. change (work (m :: ?l)) with (weight m + work l) in Hf.
  destruct (IH s3 c3 Hw Hmax Hr3) as (s4 & c4 & l & -> & Hs4 & Hq4 & Hl & Hst4).
  { rewrite (work_perm _ _ Hq3), work_app. specialize (Hw m). lia. }
  cbn. exists s4, c4, (m :: l). split_and!; try done. rewrite Hq1, Hl at 1. simpl. rewrite Hq3.
  solve_Permutation.
Qed.


(** ** Counting *)

Lemma count_loop_delivers n : forall idle s c,
  CsdLocalMax = 0%Z -> running s c -> 0 < n <= length (qcontents c) ->
  exists s' c' l, count_loop n (CsdStopFlag s) (Z.of_nat n) idle s = Done (s', 0%Z, l) /\
    length l = n /\ holds s' c' /\ l ++ qcontents c' ≡ₚ qcontents c ++ mjoin (spawn <$> l).
Proof.
  induction n as [|n IH]; intros idle s c Hmax Hr Hn; [lia|]. cbn [count_loop].
  destruct (next_running s c Hr Hmax) as (s1 & m & -> & Hst1 & Hm). destruct (m =? NULL)%Z; cbn [negb].
  { destruct Hm as (_ & Hq). rewrite Hq in Hn. simpl in Hn. lia. }
  destruct Hm as (Hne & c1 & Hr1 & Hq1).
  assert (exists s2, (if idle then CsdEndIdle s1 else Done s1) = Done s2 /\ running s2 c1 /\
    CsdStopFlag s2 = CsdStopFlag s1) as (s2 & -> & Hr2 & Hst2).
  { destruct idle; [|by exists s1]. by apply end_idle_running. }
  cbn [mbind exec_bind].
  destruct (handle_running s2 c1 m Hr2 Hne) as (s3 & c3 & -> & Hr3 & Hq3 & Hst3). cbn [mbind exec_bind].
  assert (CsdStopFlag s3 = CsdStopFlag s) as Hst by congruence. rewrite (not_stopped s s3 Hst).
  replace (Z.of_nat (S n) - 1)%Z with (Z.of_nat n) by lia. destruct (Z.eqb_spec (Z.of_nat n) 0) as [E0|E0].
  - exists s3, c3, [m]. assert (n = 0) as -> by lia. split_and!; try done; [apply Hr3|].
    simpl. rewrite Hq3, Hq1, app_nil_r. solve_Permutation.
  - destruct (periodic_running s3 c3 Hr3) as (s4 & -> & Hr4 & Hst4). cbn [mbind exec_bind].
    rewrite <- Hst, <- Hst4.
    destruct (IH false s4 c3 Hmax Hr4) as (s5 & c5 & l & -> & Hl & Hs5 & Hq5).
    { apply Permutation_length in Hq1, Hq3. rewrite length_app in Hq3. simpl in *. lia. }
    cbn. exists s5, c5, (m :: l). split_and!; try done; [simpl; lia|].
    simpl. rewrite Hq5, Hq3, Hq1. solve_Permutation.
Qed.

(** The counting scheduler delivers what it is asked for: with at least [n > 0]
    messages in the queues, [CsdScheduler(n)] returns 0 after [n] rounds, having handled
    exactly [n] messages; nothing is lost and the rest is still queued. *)
Theorem count_delivers n s c :
  CsdLocalMax = 0%Z -> running s c -> 0 < n <= length (qcontents c) ->
  exists s' c' l, CsdScheduler n (Z.of_nat n) s = Done (s', 0%Z, l) /\ length l = n /\
    holds s' c' /\ l ++ qcontents c' ≡ₚ qcontents c ++ mjoin (spawn <$> l).
Proof.
  intros Hmax Hr Hn. unfold CsdScheduler, CsdScheduleCount.
  rewrite (proj2 (Z.ltb_ge _ _)), (proj2 (Z.eqb_neq _ _)) by lia. by apply count_loop_delivers.
Qed.

Lemma count_loop_waits fuel : forall n idle s c,
  CsdLocalMax = 0%Z -> running s c -> qcontents c = [] ->
  count_loop fuel (CsdStopFlag s) n idle s = NoFuel.
Proof.
  induction fuel as [|fuel IH]; intros n idle s c Hmax Hr Hq; cbn [count_loop]; [done|].
  destruct (next_running s c Hr Hmax) as (s1 & m & -> & Hst1 & Hm). destruct (m =? NULL)%Z; cbn [negb].
  2: { destruct Hm as (_ & c1 & _ & Hp). rewrite Hq in Hp. by apply Permutation_nil_cons in Hp. }
  destruct Hm as (Hr1 & _). destruct (go_idle_running idle s1 c Hr1) as (s2 & -> & Hr2 & Hst2).
  cbn [mbind exec_bind]. rewrite (not_stopped s s2) by congruence.
  destruct (periodic_running s2 c Hr2) as (s3 & -> & Hr3 & Hst3). cbn [mbind exec_bind].
  replace (CsdStopFlag s) with (CsdStopFlag s3) by congruence. by eapply IH.
Qed.

(** [CmiDeliverMsgs(n)] with [n > 0] waits.  With no message anywhere it never
    returns, however long it runs; the comment above it says that it does not wait and
    returns [n] minus the number of messages delivered. *)
Theorem deliver_msgs_waits fuel n s c :
  CsdLocalMax = 0%Z -> running s c -> qcontents c = [] -> (0 < n)%Z ->
  CmiDeliverMsgs fuel n s = NoFuel.
Proof.
  intros Hmax Hr Hq Hn. unfold CmiDeliverMsgs, CsdScheduler, CsdScheduleCount.
  rewrite (proj2 (Z.ltb_ge _ _)), (proj2 (Z.eqb_neq _ _)) by lia. by eapply count_loop_waits.
Qed.

(** ** Waiting for one handler *)

Definition with_local (l : list ptr) (c : queues) : queues :=
  mk_queues l (c_sched c) (c_node c) (c_grid c) (c_obj c) (c_net c) (c_nodenet c).

(** With no message on its way, a poll changes nothing. *)
Lemma poll_running s c : running s c -> c_net c = [] ->
  exists e, CmiGetNonLocal (env s) = (e, NULL) /\ running (set_env e (count_poll s)) c.
Proof.
  intros (Hs & He & HT) Hnet. pose proof Hs as [Hl Hsc Hn Hg Ho Hm Hnn].
  pose proof (ml_nonlocal _ _ _ Hm) as Hp. destruct (CmiGetNonLocal (env s)) as [e m]. exists e.
  destruct (m =? NULL)%Z eqn:Em.
  - apply Z.eqb_eq in Em. split; [by rewrite Em|]. split; [by split|done].
  - destruct Hp as (l' & Hp & _). rewrite Hnet in Hp. by apply Permutation_nil_cons in Hp.
Qed.

(** Taking the oldest local message. *)
Lemma dequeue_running s c x l : running s c -> c_local c = x :: l ->
  exists q, fifo_dequeue (localQ s) = (q, x) /\ running (set_localQ q s) (with_local l c) /\ x <> NULL.
Proof.
  intros (Hs & He & HT) Hl. pose proof Hs as [Hlq Hsc Hn Hg Ho Hm Hnn].
  pose proof (fl_dequeue _ _ Hlq) as Hd. rewrite Hl in Hd. destruct Hd as (q & Hd & Hr). exists q.
  pose proof (taken_nonnull _ _ _ _ Hnn (taken_local c x l Hl)) as [Hnn' Hx].
  split; [done|]. split; [|done]. split; [by split|done].
Qed.

(** Putting a message at the back. *)
Lemma enqueue_running s c x : running s c -> x <> NULL ->
  exists q, fifo_enqueue (localQ s) x = Normal q /\ running (set_localQ q s) (with_local (c_local c ++ [x]) c).
Proof.
  intros (Hs & He & HT) Hx. pose proof Hs as [Hlq Hsc Hn Hg Ho Hm Hnn].
  destruct (fl_enqueue _ _ x Hlq) as (q & Hq & Hr). exists q. split; [done|]. split; [|done].
  split; try done. unfold qcontents in *. simpl. rewrite <- app_assoc. simpl.
  rewrite <- Permutation_middle. by constructor.
Qed.

(** Two rounds: the machine layer has nothing, and a local message with
    another handler goes to the back of the queue. *)
Lemma specific_skip hdl handler fuel s c x l :
  (forall e y, CmiGetHandler e y = hdl y) -> running s c -> c_local c = x :: l -> c_net c = [] ->
  u16 (hdl x) <> handler ->
  exists s', running s' (with_local (l ++ [x]) c) /\
    deliver_specific (S (S fuel)) handler false s = deliver_specific fuel handler false s'.
Proof.
  intros Hget Hr Hl Hnet Hne. cbn [deliver_specific negb].
  destruct (periodic_running s c Hr) as (s1 & -> & Hr1 & _). cbn [mbind exec_bind].
  destruct (poll_running s1 c Hr1 Hnet) as (e & -> & Hr2). cbn [negb Z.eqb NULL].
  destruct (periodic_running _ c Hr2) as (s3 & -> & Hr3 & _). cbn [mbind exec_bind].
  destruct (dequeue_running s3 c x l Hr3 Hl) as (q & -> & Hr4 & Hx).
  rewrite (proj2 (Z.eqb_neq x NULL)) by done. cbn [negb].
  rewrite Hget, (proj2 (Z.eqb_neq (u16 (hdl x)) handler)) by done.
  destruct (enqueue_running _ _ x Hr4 Hx) as (q' & -> & Hr5). by exists (set_localQ q' (set_localQ q s3)).
Qed.

Lemma specific_found hdl fuel s c m l :
  (forall e y, CmiGetHandler e y = hdl y) -> running s c -> c_local c = m :: l -> c_net c = [] ->
  exists s', running s' (with_local l c) /\
    deliver_specific (S (S fuel)) (u16 (hdl m)) false s =
      (s2 ← CmiHandleMessage m (qd_process s'); Done (s2, m)).
Proof.
  intros Hget Hr Hl Hnet. cbn [deliver_specific negb].
  destruct (periodic_running s c Hr) as (s1 & -> & Hr1 & _). cbn [mbind exec_bind].
  destruct (poll_running s1 c Hr1 Hnet) as (e & -> & Hr2). cbn [negb Z.eqb NULL].
  destruct (periodic_running _ c Hr2) as (s3 & -> & Hr3 & _). cbn [mbind exec_bind].
  destruct (dequeue_running s3 c m l Hr3 Hl) as (q & -> & Hr4 & Hx).
  rewrite (proj2 (Z.eqb_neq m NULL)) by done. cbn [negb].
  rewrite Hget, Z.eqb_refl. by exists (set_localQ q s3).
Qed.

(** [CmiDeliverSpecificMsg] delivers the oldest local message for the handler and
    keeps the others: it returns after it has run the handler of that message once, with
    the messages that were ahead of it moved behind the ones that were after it, in
    order, plus whatever the handler sent. *)
Theorem deliver_specific_rotates hdl l1 l2 m s c :
  (forall e y, CmiGetHandler e y = hdl y) -> running s c ->
  c_local c = l1 ++ m :: l2 -> c_net c = [] ->
  Forall (fun y => u16 (hdl y) <> u16 (hdl m)) l1 ->
  exists s1 s2 c2, running s1 (with_local (l2 ++ l1) c) /\
    CmiHandleMessage m (qd_process s1) = Done s2 /\ running s2 c2 /\
    qcontents c2 ≡ₚ spawn m ++ qcontents (with_local (l2 ++ l1) c) /\
    CmiDeliverSpecificMsg (2 * length l1 + 2) (u16 (hdl m)) s = Done (s2, m).
Proof.
  intros Hget. unfold CmiDeliverSpecificMsg.
  revert l2 s c. induction l1 as [|x l1 IH]; intros l2 s c Hr Hl Hnet Hno.
  - destruct (specific_found hdl 0 s c m l2 Hget Hr Hl Hnet) as (s1 & Hr1 & Hd). rewrite app_nil_r.
    assert (running (qd_process s1) (with_local l2 c)) as Hr1'.
    { destruct Hr1 as (Hs & He & HT). split; [by apply holds_qd_process|]. split; [done|].
      unfold qd_process. by destruct CMI_QD. }
    destruct (dequeue_running s c m l2 Hr Hl) as (_ & _ & _ & Hm).
    destruct (handle_running _ _ m Hr1' Hm) as (s2 & c2 & Hh & Hr2 & Hq & _).
    exists s1, s2, c2. split_and!; try done. change (2 * length [] + 2) with 2. by rewrite Hd, Hh.
  - apply Forall_cons in Hno as [Hx Hno]. replace (2 * length (x :: l1) + 2) with (S (S (2 * length l1 + 2))) by (simpl; lia).
    destruct (specific_skip hdl (u16 (hdl m)) (2 * length l1 + 2) s c x (l1 ++ m :: l2) Hget Hr Hl Hnet Hx)
      as (s' & Hr' & ->).
    destruct (IH (l2 ++ [x]) s' _ Hr') as (s1 & s2 & c2 & Hr1 & Hh & Hr2 & Hq & Hd).
    { simpl. by rewrite <- app_assoc. } { done. } { done. }
    exists s1, s2, c2. rewrite <- app_assoc in Hr1, Hq. by split_and!.
Qed.

End loops.
