(* ===== verification/SchedExample.v ===== *)
(** * SchedExample: a program under the scheduler

    A small program on the queues of the runtime, which shows that the
    hypotheses of the scheduler's theorems can hold, and the node message
    that the scheduler never picks. *)

From S2P Require Import Prelude Heap Deq Prioq PrioqFacts Queueing QueueingFacts CkQ Handlers.
From S2P Require Import Cblist CcdHeap Conds Sched SchedFacts SchedLoops.
Set Warnings "-clear-no-such-hyp".

#[local] Instance example_uninit : Uninit := 0%Z.

(** The machine layer is the list of messages that have arrived. *)
Abbreviation net := (list ptr) (only parsing).
Abbreviation st := (csd ckq Queue (list ptr)).

Definition example_poll (e : net) : net * ptr :=
  match e with [] => ([], NULL) | m :: l => (l, m) end.

(** Message 5 sends message 6 to its own processor; the others send nothing. *)
Definition example_handler (m : ptr) (s : st) : exec st :=
  if (m =? 5)%Z then
    match fifo_enqueue (localQ s) 6%Z with Normal q => Done (set_localQ q s) | Aborted => Crash end
  else Done s.

Definition example_spawn (m : ptr) : list ptr := if (m =? 5)%Z then [6%Z] else [].
Definition example_weight (m : ptr) : nat := if (m =? 5)%Z then 2 else 1.

#[local] Instance example_env : SchedEnv ckq Queue (list ptr) := {|
  CmiGetNonLocal := example_poll;
  CmiGetNonLocalNodeQ e := (e, NULL);
  CmiTryLock e := (e, 0%Z);
  CmiLock e := e;
  CmiUnlock e := e;
  CmiGetHandler _ _ := 1%Z;
  call_handler _ := example_handler;
  ccd_callbacks := Done;
  ccd_raise _ := Done
|}.

Definition example_mrep (e l ln : list ptr) : Prop := e = l /\ ln = [] /\ Forall (fun m => m <> NULL) e.

#[local] Instance example_machine : MachineLaws example_env example_mrep.
Proof.
  split; simpl; try done.
  - intros e l ln (-> & -> & Hf). destruct l as [|m l]; [done|]. simpl.
    apply Forall_cons in Hf as [Hm Hf]. rewrite (proj2 (Z.eqb_neq _ _)) by done. by exists l.
Qed.

(** A non-SMP build with quiescence counting, and an SMP build. *)
Definition uni_config : SchedConfig := {|
  CMI_QD := true; CMK_GRID_QUEUE_AVAILABLE := false; CMK_NODE_QUEUE_AVAILABLE := false;
  CMK_NO_MSG_PRIOS := false; CMK_OBJECT_QUEUE_AVAILABLE := false; CharmLibInterOperate := false;
  CsdLocalMax := 0 |}.

Definition smp_config : SchedConfig := {|
  CMI_QD := false; CMK_GRID_QUEUE_AVAILABLE := false; CMK_NODE_QUEUE_AVAILABLE := true;
  CMK_NO_MSG_PRIOS := false; CMK_OBJECT_QUEUE_AVAILABLE := false; CharmLibInterOperate := false;
  CsdLocalMax := 0 |}.

Definition example_table : handlers := fst (register_all false [RegHandler 7%Z] (CmiHandlerInit false 9%Z)).

Abbreviation example_holds := (holds ckq_rep cqs_rep example_mrep).

#[local] Instance example_program :
  SchedProgram (C := uni_config) ckq_rep cqs_rep example_mrep example_table example_spawn.
Proof.
  split.
  - intros e l ln (-> & _ & Hf). simpl. destruct l as [|m l]; [done|]. simpl. intros ->.
    by apply Forall_cons in Hf as [? _].
  - intros s c Hs HT. by exists s.
  - intros n s c Hs HT. by exists s.
  - intros s c m Hs He HT Hm. exists (mk_hinfo 7%Z NULL). unfold call_handler. simpl.
    unfold example_handler, example_spawn. destruct (m =? 5)%Z.
    + destruct Hs as [Hl Hsc Hn Hg Ho Hmc Hnn]. destruct (fl_enqueue _ _ 6%Z Hl) as (q & Hq & Hr).
      simpl in Hq. unfold fifo_enqueue. simpl. rewrite Hq.
      assert (qcontents (with_local (c_local c ++ [6%Z]) c) ≡ₚ 6%Z :: qcontents c) as Hp.
      { unfold qcontents. simpl. rewrite <- app_assoc. simpl. by rewrite <- Permutation_middle. }
      exists (set_localQ q s), (with_local (c_local c ++ [6%Z]) c). split_and!; try done; [|apply He..].
      split; try done. rewrite Hp. by constructor.
    + exists s, c. split_and!; (done || apply He).
Qed.

Definition local_with (m : ptr) : ckq :=
  match CdsFifo_Enqueue CdsFifo_Create m with Normal q => q | Aborted => CdsFifo_Create end.

Lemma local_with_rep m : ckq_rep (local_with m) [m].
Proof. unfold local_with, CdsFifo_Enqueue, CdsFifo_Create. by destruct (enq_rep _ _ m new_rep) as (q & -> & Hr). Qed.

Lemma create_cqs_rep : cqs_rep CqsCreate [].
Proof. exists (mk_aqueue ∅ [] ∅). split; [apply create_repr|]. done. Qed.

(** Message 5 is in the local queue, message 8 has arrived from the network. *)
Definition example_state : st :=
  mk_csd _ _ _ (local_with 5%Z) CqsCreate CqsCreate CqsCreate CdsFifo_Create 0 0 0 0 false false
    example_table 0 [8%Z].

Definition example_queues : queues := mk_queues [5%Z] [] [] [] [] [8%Z] [].

Lemma example_state_holds : example_holds example_state example_queues.
Proof.
  split; simpl; try apply create_cqs_rep; try apply new_rep; [apply local_with_rep| |].
  - split; [done|]. split; [done|]. by repeat constructor.
  - by repeat constructor.
Qed.

Lemma example_running :
  running (C := uni_config) ckq_rep cqs_rep example_mrep example_table example_state example_queues.
Proof. split; [apply example_state_holds|]. by split_and!. Qed.

Lemma example_weights m : work example_weight (example_spawn m) < example_weight m.
Proof. unfold example_spawn, example_weight. destruct (m =? 5)%Z; simpl; lia. Qed.


Lemma example_next_holds s1 m :
  CsdNextMessage (C := uni_config) example_state = (s1, m) -> exists c, example_holds s1 c.
Proof.
  intros En. destruct (next_message_result (C := uni_config) ckq_rep cqs_rep example_mrep
    _ _ _ _ example_state_holds En) as [_ _ _ _ Hf Hn _].
  destruct (decide (m = NULL)) as [Hm|Hm].
  - exists example_queues. by apply Hn.
  - destruct (Hf Hm) as (src & c' & _ & Hc & _). by exists c'.
Qed.

Lemma nonlocal_polled_witness :
  exists s1 m, CsdNextMessage (C := uni_config) example_state = (s1, m) /\ 0 < polls s1.
Proof.
  destruct (CsdNextMessage (C := uni_config) example_state) as [s1 m] eqn:En. exists s1, m. split; [reflexivity|].
  apply (nonlocal_polled (C := uni_config) ckq_rep cqs_rep example_mrep 1 example_state s1 example_queues).
  - exact example_state_holds.
  - simpl. lia.
  - simpl. lia.
  - apply (calls_cons (C := uni_config) _ _ _ 0 _ s1 m s1 s1); [exact En|exact (example_next_holds s1 m En)| | |].
    + reflexivity.
    + reflexivity.
    + constructor.
  - simpl. lia.
Defined.


Lemma count_delivers_witness :
  exists s' c' l, CsdScheduler (C := uni_config) 2 2 example_state = Done (s', 0%Z, l) /\ length l = 2 /\
    example_holds s' c' /\ l ++ qcontents c' ≡ₚ [5%Z; 8%Z] ++ mjoin (example_spawn <$> l).
Proof.
  apply (count_delivers (C := uni_config) ckq_rep cqs_rep example_mrep example_table example_spawn
    2 example_state example_queues).
  - reflexivity.
  - exact example_running.
  - simpl. lia.
Defined.

(** No message anywhere. *)
Definition idle_state : st :=
  mk_csd _ _ _ CdsFifo_Create CqsCreate CqsCreate CqsCreate CdsFifo_Create 0 0 0 0 false false
    example_table 0 [].

Lemma idle_running :
  running (C := uni_config) ckq_rep cqs_rep example_mrep example_table idle_state (mk_queues [] [] [] [] [] [] []).
Proof.
  split; [|by split_and!]. split; simpl; try apply create_cqs_rep; try apply new_rep; [by split_and!|constructor].
Qed.

Lemma deliver_msgs_waits_witness : CmiDeliverMsgs (C := uni_config) 1000 3 idle_state = NoFuel.
Proof.
  apply (deliver_msgs_waits (C := uni_config) ckq_rep cqs_rep example_mrep example_table example_spawn
    1000 3 idle_state (mk_queues [] [] [] [] [] [] [])).
  - reflexivity.
  - exact idle_running.
  - reflexivity.
  - lia.
Defined.

(** Message 5 in the local queue and an empty network. *)
Definition specific_state : st :=
  mk_csd _ _ _ (local_with 5%Z) CqsCreate CqsCreate CqsCreate CdsFifo_Create 0 0 0 0 false false
    example_table 0 [].

Lemma specific_running :
  running (C := uni_config) ckq_rep cqs_rep example_mrep example_table specific_state
    (mk_queues [5%Z] [] [] [] [] [] []).
Proof.
  split; [|by split_and!].
  split; simpl; try apply create_cqs_rep; try apply new_rep; [apply local_with_rep|by split_and!|].
  by repeat constructor.
Qed.

Lemma deliver_specific_rotates_witness :
  exists s2, CmiDeliverSpecificMsg (C := uni_config) 2 1 specific_state = Done (s2, 5%Z).
Proof.
  destruct (deliver_specific_rotates (C := uni_config) ckq_rep cqs_rep example_mrep example_table example_spawn
    (fun _ => 1%Z) [] [] 5%Z specific_state (mk_queues [5%Z] [] [] [] [] [] []))
    as (s1 & s2 & c2 & _ & _ & _ & _ & Hd).
  - reflexivity.
  - exact specific_running.
  - reflexivity.
  - reflexivity.
  - constructor.
  - exists s2. exact Hd.
Defined.

(** ** A node message that is never picked *)

(** A node queue with one message of the given signed priority. *)
Definition node_queue (prio : Z) (m : ptr) : Queue :=
  match CqsEnqueueGeneral LittleEndian CqsCreate m CQS_QUEUEING_IFIFO 32 [u32 prio] with
  | Normal q => q
  | Aborted => CqsCreate
  end.

Definition node_state (prio : Z) : st :=
  mk_csd _ _ _ CdsFifo_Create CqsCreate (node_queue prio 77%Z) CqsCreate CdsFifo_Create 0 0 0 0 false false
    example_table 0 [].

(** What [n] calls of [CsdNextMessage] in a row return. *)
Fixpoint next_n (n : nat) (s : st) : list ptr :=
  match n with
  | 0 => []
  | S n => let '(s, m) := CsdNextMessage (C := smp_config) s in m :: next_n n s
  end.

(** The same state up to its counters. *)
Definition starving (q : Queue) (s : st) : Prop :=
  localQ s = CdsFifo_Create /\ schedQ s = CqsCreate /\ nodeQ s = q /\ env s = [] /\ localCounter s = 0%Z.

Lemma starving_step q s :
  CqsPrioGT kprio_max (CqsGetPriority q) = false -> starving q s ->
  exists s', CsdNextMessage (C := smp_config) s = (s', NULL) /\ starving q s'.
Proof.
  intros Hp (Hl & Hs & Hn & He & Hc). unfold CsdNextMessage. rewrite Hc.
  unfold or_else, when. cbn [Z.ltb Z.compare set_localCounter].
  unfold from_machine at 1. cbn [env set_localCounter CmiGetNonLocal example_env]. rewrite He. cbn [example_poll].
  unfold from_local. cbn. rewrite Hl. change (CdsFifo_Dequeue CdsFifo_Create) with (CdsFifo_Create, NULL).
  cbn. unfold from_node. cbn [nodeQ schedQ set_env set_localQ count_poll set_localCounter cqs_priority queue_ops].
  rewrite Hs, Hn. change (CqsGetPriority CqsCreate) with kprio_max. rewrite Hp, andb_false_r. cbn [Z.eqb NULL].
  unfold from_sched. cbn [schedQ set_env set_localQ count_poll set_localCounter cqs_dequeue queue_ops].
  rewrite Hs. change (CqsDequeue CqsCreate) with (CqsCreate, NULL). cbn [Z.eqb NULL]. eexists. split; [reflexivity|]. by split_and!.
Qed.

(** A node message of the lowest priority is never scheduled.  An empty scheduler
    queue reports the priority [kprio_max], and [CsdNextMessage] takes a node message only
    if the scheduler queue's priority is strictly worse, so a node message of priority
    [INT_MAX] stays in the node queue however often an otherwise idle processor looks for
    work; with any smaller priority it would be picked at once. *)
Theorem lowest_priority_node_message_starves n :
  next_n n (node_state (2 ^ 31 - 1)) = replicate n NULL /\
  next_n 1 (node_state (2 ^ 31 - 2)) = [77%Z].
Proof.
  split; [|vm_compute; reflexivity].
  assert (starving (node_queue (2 ^ 31 - 1) 77%Z) (node_state (2 ^ 31 - 1))) as Hs by (by split_and!).
  revert Hs. generalize (node_state (2 ^ 31 - 1)). induction n as [|n IH]; intros s Hs; [done|].
  cbn [next_n]. destruct (starving_step (node_queue (2 ^ 31 - 1) 77%Z) s) as (s' & -> & Hs');
    [vm_compute; reflexivity|done|].
  by rewrite IH.
Qed.
