(* ===== verification/Pool.v ===== *)
(** * Pool: the message allocator with power-of-two bins (cmipool.c)

    [CmiPoolAlloc] and [CmiPoolFree] of src/conv-core/cmipool.c: free blocks
    of each size class are chained through their headers, and the header of a
    block in use holds its class.  [malloc_nomigrate] is a parameter. *)

From S2P Require Import Prelude.
Set Warnings "-clear-no-such-hyp".

(** Addresses in the memory of the process. *)
Abbreviation addr := Z (only parsing).

Definition CMI_POOL_HEADER_SIZE : Z := 8.

(** [hdr] is the header word of each block, by the address that follows it;
    [live] has the blocks obtained from [malloc_nomigrate] and their sizes. *)
Record pool := mk_pool {
  bins : list addr;
  binLengths : list Z;
  maxBin : Z;
  numKallocs : Z;
  numMallocs : Z;
  numOallocs : Z;
  numFrees : Z;
  numOFrees : Z;
  hdr : gmap addr Z;
  live : gmap addr Z
}.

(** The allocator underneath: an address for a block of the given size. *)
Class Malloc := malloc_nomigrate : gmap addr Z -> Z -> addr.

(** Two blocks, by address and size, do not overlap. *)
Definition apart (a n b m : Z) : Prop := (a + n <= b \/ b + m <= a)%Z.

(** What [malloc] promises: memory that no live block overlaps. *)
Class MallocLaws (M : Malloc) : Prop := {
  malloc_pos blocks n : (0 < malloc_nomigrate blocks n)%Z;
  malloc_apart blocks n a m : blocks !! a = Some m -> (0 < n)%Z -> apart a m (malloc_nomigrate blocks n) n;
  malloc_fresh blocks n : blocks !! malloc_nomigrate blocks n = None
}.

(** [CMK_WITH_STATS]. *)
Class PoolConfig := CMK_WITH_STATS : bool.

Section ops.
Context {M : Malloc} {C : PoolConfig}.

Definition CmiPoolAllocInit (numBins : nat) : pool :=
  mk_pool (replicate numBins NULL) (replicate numBins 0%Z) (Z.of_nat numBins - 1) 0 0 0 0 0 ∅ ∅.

(** [while (n !=0) { n = n >> 1; bin++; }] *)
Fixpoint find_bin (fuel : nat) (n : Z) (bin : nat) : nat :=
  match fuel with
  | 0 => bin
  | S fuel => if (n =? 0)%Z then bin else find_bin fuel (Z.shiftr n 1) (S bin)
  end.

Definition stat (n : Z) : Z := if CMK_WITH_STATS then (n + 1)%Z else n.

(** Taking the first block of a bin that has one. *)
Definition pool_pop (bin : nat) (s : pool) : pool * addr :=
  let p := bins s !!! bin in
  let len := (binLengths s !!! bin - 1)%Z in
  let next := hdr s !!! p in
  let '(lens, head) :=
    if CMK_WITH_STATS then
      (<[bin := len]> (binLengths s), if negb (len =? 0)%Z then next else NULL)
    else (binLengths s, next) in
  (mk_pool (<[bin := head]> (bins s)) lens (maxBin s) (stat (numKallocs s)) (numMallocs s) (numOallocs s)
     (numFrees s) (numOFrees s) (hdr s) (live s), p).

(** A block of [size] bytes from [malloc_nomigrate]; [over] for the large ones. *)
Definition pool_malloc (over : bool) (size : Z) (s : pool) : pool * addr :=
  let a := malloc_nomigrate (live s) size in
  (mk_pool (bins s) (binLengths s) (maxBin s) (numKallocs s)
     (if over then numMallocs s else stat (numMallocs s))
     (if over then stat (numOallocs s) else numOallocs s)
     (numFrees s) (numOFrees s) (hdr s) (<[a := size]> (live s)), (a + CMI_POOL_HEADER_SIZE)%Z).

Definition set_hdr (p : addr) (v : Z) (s : pool) : pool :=
  mk_pool (bins s) (binLengths s) (maxBin s) (numKallocs s) (numMallocs s) (numOallocs s)
    (numFrees s) (numOFrees s) (<[p := v]> (hdr s)) (live s).

Definition CmiPoolAlloc (numBytes : Z) (s : pool) : outcome (pool * addr) :=
  let n := i32 (u32 (numBytes + CMI_POOL_HEADER_SIZE)) in
  let numBytes := u32 n in
  let bin := find_bin 32 n 0 in
  '(s, p, bin) ←
    (if (Z.of_nat bin <? maxBin s)%Z then
       _ ← CmiAssert (0 <? bin);
       if negb (bins s !!! bin =? NULL)%Z then let '(s, p) := pool_pop bin s in Normal (s, p, bin)
       else let '(s, p) := pool_malloc false (Z.shiftl 1 (Z.of_nat bin)) s in Normal (s, p, bin)
     else let '(s, p) := pool_malloc true numBytes s in Normal (s, p, 0));
  _ ← CmiAssert (negb (p - CMI_POOL_HEADER_SIZE =? NULL)%Z);
  Normal (set_hdr p (Z.of_nat bin) s, p).

Definition CmiPoolFree (p : addr) (s : pool) : outcome pool :=
  let bin := i32 (hdr s !!! p) in
  if (bin =? 0)%Z then
    Normal (mk_pool (bins s) (binLengths s) (maxBin s) (numKallocs s) (numMallocs s) (numOallocs s)
      (numFrees s) (stat (numOFrees s)) (delete p (hdr s)) (delete (p - CMI_POOL_HEADER_SIZE)%Z (live s)))
  else if (bin <? maxBin s)%Z then
    let b := Z.to_nat bin in
    Normal (mk_pool (<[b := p]> (bins s))
      (if CMK_WITH_STATS then <[b := (binLengths s !!! b + 1)%Z]> (binLengths s) else binLengths s)
      (maxBin s) (numKallocs s) (numMallocs s) (numOallocs s) (stat (numFrees s)) (numOFrees s)
      (<[p := bins s !!! b]> (hdr s)) (live s))
  else Aborted.

End ops.

(** ** Chains of free blocks *)

Inductive chain (h : gmap addr Z) : addr -> list addr -> Prop :=
  | chain_nil : chain h NULL []
  | chain_cons p next l : p <> NULL -> h !! p = Some next -> chain h next l -> chain h p (p :: l).

Lemma chain_frame h p l q v : chain h p l -> q ∉ l -> chain (<[q := v]> h) p l.
Proof.
  induction 1 as [|p next l Hp Hn _ IH]; intros Hq; [constructor|].
  apply not_elem_of_cons in Hq as [Hne Hq]. econstructor; [done| |by apply IH].
  by rewrite lookup_insert_ne.
Qed.

Lemma chain_frame_delete h p l q : chain h p l -> q ∉ l -> chain (delete q h) p l.
Proof.
  induction 1 as [|p next l Hp Hn _ IH]; intros Hq; [constructor|].
  apply not_elem_of_cons in Hq as [Hne Hq]. econstructor; [done| |by apply IH].
  by rewrite lookup_delete_ne.
Qed.

Lemma chain_head h p l : chain h p l -> (p =? NULL)%Z = bool_decide (l = []).
Proof.
  destruct 1 as [|p next l Hp Hn Hc]; [done|]. rewrite (proj2 (Z.eqb_neq _ _)) by done.
  by rewrite bool_decide_eq_false_2.
Qed.

(** ** Size classes *)

Lemma find_bin_spec fuel : forall n bin, (0 <= n < 2 ^ Z.of_nat fuel)%Z ->
  exists b, find_bin fuel n bin = bin + b /\ (n < 2 ^ Z.of_nat b)%Z /\ (n = 0%Z -> b = 0) /\
    (n <> 0%Z -> 0 < b /\ (2 ^ (Z.of_nat b - 1) <= n)%Z).
Proof.
  induction fuel as [|fuel IH]; intros n bin Hn; cbn [find_bin].
  { exists 0. change (2 ^ Z.of_nat 0)%Z with 1%Z in *. split_and!; lia. }
  destruct (Z.eqb_spec n 0) as [->|Hn0]; [exists 0; split_and!; simpl; lia|].
  assert (forall k, 2 ^ Z.of_nat (S k) = 2 * 2 ^ Z.of_nat k)%Z as Hpow.
  { intros k. rewrite Nat2Z.inj_succ, Z.pow_succ_r by lia. lia. }
  rewrite Z.shiftr_div_pow2 by lia. change (2 ^ 1)%Z with 2%Z. rewrite Hpow in Hn.
  pose proof (Z.div_mod n 2). pose proof (Z.mod_pos_bound n 2).
  destruct (IH (n / 2)%Z (S bin)) as (b & -> & Hlt & Hz & Hge); [lia|].
  exists (S b). rewrite Hpow. split_and!; [lia|lia|lia|]. intros _. split; [lia|].
  replace (Z.of_nat (S b) - 1)%Z with (Z.of_nat b) by lia.
  destruct (decide (n / 2 = 0)%Z) as [E|E]; [rewrite (Hz E); simpl; lia|].
  destruct (Hge E) as [Hpos Hle]. destruct b as [|b]; [lia|]. rewrite Hpow.
  replace (Z.of_nat (S b) - 1)%Z with (Z.of_nat b) in Hle by lia. lia.
Qed.

(** ** Invariant *)

Section invariant.
Context {M : Malloc} {C : PoolConfig} {ML : MallocLaws M}.

(** The size class of a request, and what is stamped on its block: 0 when it
    is too large for the bins. *)
Definition class_of (numBytes : Z) : nat := find_bin 32 (i32 (u32 (numBytes + 8))) 0.

Definition stamp (max numBytes : Z) : nat :=
  if (Z.of_nat (class_of numBytes) <? max)%Z then class_of numBytes else 0.

(** [out] has the blocks in use, by address, with the sizes asked for; [ch b]
    is the list of the free blocks of class [b]. *)
Record pool_inv (s : pool) (out : gmap addr Z) (ch : nat -> list addr) : Prop := {
  pi_bins : Z.of_nat (length (bins s)) = (maxBin s + 1)%Z;
  pi_lens : length (binLengths s) = length (bins s);
  pi_max : (maxBin s < 2 ^ 31)%Z;
  pi_chain b : b < length (bins s) -> chain (hdr s) (bins s !!! b) (ch b);
  pi_count b : CMK_WITH_STATS = true -> b < length (bins s) -> binLengths s !!! b = Z.of_nat (length (ch b));
  pi_classes b p : p ∈ ch b -> 0 < b /\ (Z.of_nat b < maxBin s)%Z;
  pi_free b p : p ∈ ch b -> live s !! (p - 8)%Z = Some (2 ^ Z.of_nat b)%Z;
  pi_used p n : out !! p = Some n -> exists b sz, hdr s !! p = Some b /\ live s !! (p - 8)%Z = Some sz /\
    (0 <= n /\ n + 8 <= sz /\ b = Z.of_nat (stamp (maxBin s) n) /\ (b = 0 \/ b < maxBin s /\ sz = 2 ^ b))%Z;
  pi_nodup b : NoDup (ch b);
  pi_once b b' p : p ∈ ch b -> p ∈ ch b' -> b = b';
  pi_not_used b p : p ∈ ch b -> out !! p = None;
  pi_apart a n a' n' : live s !! a = Some n -> live s !! a' = Some n' -> a <> a' -> apart a n a' n';
  pi_live_pos a n : live s !! a = Some n -> (0 < a)%Z
}.

Lemma request_class n : (0 <= n < 2 ^ 31 - 8)%Z ->
  i32 (u32 (n + 8)) = (n + 8)%Z /\ u32 (i32 (u32 (n + 8))) = (n + 8)%Z /\
  0 < class_of n /\ (n + 8 < 2 ^ Z.of_nat (class_of n))%Z.
Proof.
  intros Hn. assert (i32 (u32 (n + 8)) = n + 8)%Z as E by (rewrite u32_small, i32_small; lia).
  split; [done|]. unfold class_of. rewrite E, u32_small by lia. split; [done|].
  destruct (find_bin_spec 32 (n + 8) 0) as (b & -> & Hlt & _ & Hpos).
  { change (2 ^ Z.of_nat 32)%Z with (2 ^ 32)%Z. lia. }
  destruct Hpos; [lia|]. simpl. by split.
Qed.

(** Popping a non-empty bin. *)
Lemma pop_spec s out ch b : pool_inv s out ch -> b < length (bins s) -> bins s !!! b <> NULL ->
  exists p l, ch b = p :: l /\ snd (pool_pop b s) = p /\
    let s' := fst (pool_pop b s) in
    bins s' = <[b := bins s' !!! b]> (bins s) /\ chain (hdr s) (bins s' !!! b) l /\
    hdr s' = hdr s /\ live s' = live s /\ maxBin s' = maxBin s /\
    length (binLengths s') = length (bins s) /\
    (CMK_WITH_STATS = true -> binLengths s' = <[b := Z.of_nat (length l)]> (binLengths s)).
Proof.
  intros Hi Hb Hne. pose proof (pi_chain _ _ _ Hi b Hb) as Hc.
  destruct (ch b) as [|p l] eqn:Ech; [by inversion Hc|].
  inversion Hc as [|p0 next l0 Hp Hn Hcl]; simplify_eq. exists (bins s !!! b), l.
  pose proof (pi_lens _ _ _ Hi) as Hlen. pose proof (pi_count _ _ _ Hi b) as Hcnt. rewrite Ech in Hcnt.
  unfold pool_pop. rewrite (lookup_total_correct _ _ _ Hn). destruct CMK_WITH_STATS.
  - specialize (Hcnt eq_refl Hb). simpl in Hcnt.
    replace (binLengths s !!! b - 1)%Z with (Z.of_nat (length l)) by lia.
    destruct l as [|q l]; [inversion Hcl; subst next|];
      simpl; rewrite list_lookup_total_insert_eq, length_insert by lia; by split_and!.
  - simpl. rewrite list_lookup_total_insert_eq by lia. by split_and!.
Qed.

Definition set_class (b : nat) (l : list addr) (ch : nat -> list addr) : nat -> list addr :=
  fun b' => if b' =? b then l else ch b'.

Lemma elem_of_set_class b l ch b' p :
  p ∈ set_class b l ch b' <-> (b' = b /\ p ∈ l) \/ (b' <> b /\ p ∈ ch b').
Proof. unfold set_class. bool_cases; naive_solver. Qed.

(** Taking a free block of class [b] for a request of [n] bytes. *)
Lemma alloc_reuse s out ch b n : pool_inv s out ch ->
  (Z.of_nat b < maxBin s)%Z -> b = stamp (maxBin s) n ->
  (0 <= n)%Z -> (n + 8 <= 2 ^ Z.of_nat b)%Z -> bins s !!! b <> NULL ->
  exists p l, ch b = p :: l /\ snd (pool_pop b s) = p /\
    pool_inv (set_hdr p (Z.of_nat b) (fst (pool_pop b s))) (<[p := n]> out) (set_class b l ch).
Proof.
  intros Hi Hb Hbs Hn Hfit Hne. pose proof (pi_bins _ _ _ Hi) as Hbins. pose proof (pi_lens _ _ _ Hi) as Hlens.
  assert (b < length (bins s)) as Hlt by lia.
  destruct (pop_spec s out ch b Hi Hlt Hne) as (p & l & Hch & Hp & Hb' & Hcl & Hh & Hl & Hm & Hbl & Hst).
  exists p, l. split; [done|]. split; [done|]. destruct (pool_pop b s) as [s' p']. simpl in *. subst p'.
  assert (p ∈ ch b) as Hpin by (rewrite Hch; left).
  pose proof (pi_nodup _ _ _ Hi b) as Hnd. rewrite Hch in Hnd. apply NoDup_cons in Hnd as [Hpl Hndl].
  assert (forall b' q, q ∈ set_class b l ch b' -> q <> p /\ q ∈ ch b') as Hsub.
  { intros b' q [[-> Hq]|[Hbb Hq]]%elem_of_set_class.
    - rewrite Hch. split; [by intros ->|by right].
    - split; [|done]. intros ->. by apply Hbb, (pi_once _ _ _ Hi _ _ p). }
  assert (length (bins s') = length (bins s)) as Hlen by (by rewrite Hb', length_insert).
  split; cbn [set_hdr bins binLengths maxBin hdr live]; rewrite ?Hlen, ?Hh, ?Hl, ?Hm; try apply Hi; try done.
  - intros b' Hlt'. unfold set_class. destruct (Nat.eqb_spec b' b) as [->|Hbb]; [by apply chain_frame|].
    rewrite Hb', list_lookup_total_insert_ne by done. apply chain_frame; [by apply Hi|].
    intros Hin. by apply Hbb, (pi_once _ _ _ Hi _ _ p).
  - intros b' E Hlt'. rewrite (Hst E). unfold set_class. destruct (Nat.eqb_spec b' b) as [->|Hbb].
    + apply list_lookup_total_insert_eq. lia.
    + rewrite list_lookup_total_insert_ne by done. by apply Hi.
  - intros b' q [_ Hq]%Hsub. by eapply pi_classes in Hq.
  - intros b' q [_ Hq]%Hsub. by apply (pi_free _ _ _ Hi).
  - intros q m Hq. destruct (decide (q = p)) as [->|Hqp].
    + rewrite lookup_insert_eq in Hq. injection Hq as <-. exists (Z.of_nat b), (2 ^ Z.of_nat b)%Z.
      rewrite lookup_insert_eq. split; [done|]. split; [by apply (pi_free _ _ _ Hi)|]. lia.
    + rewrite lookup_insert_ne in Hq by done. rewrite lookup_insert_ne by done. by apply (pi_used _ _ _ Hi).
  - intros b'. unfold set_class. destruct (b' =? b); [done|by apply Hi].
  - intros b1 b2 q [_ H1]%Hsub [_ H2]%Hsub. by apply (pi_once _ _ _ Hi _ _ q).
  - intros b' q [Hqp Hq]%Hsub. rewrite lookup_insert_ne by done. by apply (pi_not_used _ _ _ Hi b').
Qed.

(** A block from [malloc_nomigrate], stamped with class [b] (0 if too large). *)
Lemma alloc_malloc s out ch over b size n : pool_inv s out ch ->
  b = stamp (maxBin s) n -> (0 <= n)%Z -> (n + 8 <= size)%Z -> b = 0 \/ (Z.of_nat b < maxBin s)%Z /\ size = (2 ^ Z.of_nat b)%Z ->
  exists a, snd (pool_malloc over size s) = (a + 8)%Z /\ (0 < a)%Z /\ out !! (a + 8)%Z = None /\
    pool_inv (set_hdr (a + 8)%Z (Z.of_nat b) (fst (pool_malloc over size s))) (<[(a + 8)%Z := n]> out) ch.
Proof.
  intros Hi Hbs Hn Hfit Hb. set (a := malloc_nomigrate (live s) size). exists a. split; [done|].
  split; [apply malloc_pos|].
  assert (live s !! a = None) as Hfresh by apply malloc_fresh.
  assert (forall b' q, q ∈ ch b' -> q <> a + 8)%Z as Hnot.
  { intros b' q Hq%(pi_free _ _ _ Hi) ->. rewrite Z.add_simpl_r in Hq. congruence. }
  assert (forall q m, live s !! (q - 8)%Z = Some m -> q <> a + 8)%Z as Hnotl.
  { intros q m Hq ->. rewrite Z.add_simpl_r in Hq. congruence. }
  split.
  { destruct (out !! (a + 8)%Z) as [m|] eqn:Eo; [|done].
    destruct (pi_used _ _ _ Hi _ _ Eo) as (b' & sz & _ & Hl & _). by apply Hnotl in Hl. }
  split; cbn [pool_malloc fst set_hdr bins binLengths maxBin hdr live]; fold a; try apply Hi.
  - intros b' Hlt. apply chain_frame; [by apply Hi|]. intros Hin. by apply (Hnot b' _ Hin).
  - intros b' q Hq. rewrite lookup_insert_ne; [by apply (pi_free _ _ _ Hi)|].
    intros E. apply (Hnot b' q Hq). lia.
  - intros q m Hq. destruct (decide (q = a + 8)%Z) as [->|Hqa].
    + rewrite lookup_insert_eq in Hq. injection Hq as <-. exists (Z.of_nat b), size.
      rewrite Z.add_simpl_r, !lookup_insert_eq. split; [done|]. split; [done|].
      destruct Hb as [->|[? ?]]; split_and!; lia.
    + rewrite lookup_insert_ne in Hq by done. destruct (pi_used _ _ _ Hi q m Hq) as (b' & sz & Hh & Hl & Hrest).
      exists b', sz. rewrite lookup_insert_ne by done. split; [done|]. split; [|done].
      rewrite lookup_insert_ne; [done|]. lia.
  - intros b' q Hq. rewrite lookup_insert_ne; [by apply (pi_not_used _ _ _ Hi b')|].
    intros E. by apply (Hnot b' q Hq).
  - intros a1 n1 a2 n2 H1 H2 Hne. destruct (decide (a1 = a)) as [->|], (decide (a2 = a)) as [->|]; [done|..].
    + rewrite lookup_insert_eq in H1. rewrite lookup_insert_ne in H2 by done. injection H1 as <-.
      pose proof (malloc_apart _ size _ _ H2 ltac:(lia)) as Ha. unfold apart in *. fold a in Ha. lia.
    + rewrite lookup_insert_eq in H2. rewrite lookup_insert_ne in H1 by done. injection H2 as <-.
      pose proof (malloc_apart _ size _ _ H1 ltac:(lia)) as Ha. unfold apart in *. fold a in Ha. lia.
    + rewrite lookup_insert_ne in H1, H2 by done. by apply (pi_apart _ _ _ Hi).
  - intros a1 n1 H1. destruct (decide (a1 = a)) as [->|]; [apply malloc_pos|].
    rewrite lookup_insert_ne in H1 by done. by eapply pi_live_pos.
Qed.

Lemma assert_header p : (0 < p - 8)%Z -> CmiAssert (negb (p - CMI_POOL_HEADER_SIZE =? NULL)%Z) = Normal tt.
Proof. intros Hp. unfold CMI_POOL_HEADER_SIZE, NULL. by rewrite (proj2 (Z.eqb_neq _ _)) by lia. Qed.

Lemma alloc_spec s out ch n : pool_inv s out ch -> (0 <= n < 2 ^ 31 - 8)%Z ->
  exists s' p ch', CmiPoolAlloc n s = Normal (s', p) /\ out !! p = None /\
    pool_inv s' (<[p := n]> out) ch' /\
    ((Z.of_nat (class_of n) < maxBin s)%Z -> forall q l, ch (class_of n) = q :: l ->
       p = q /\ ch' (class_of n) = l /\ live s' = live s).
Proof.
  intros Hi Hn. destruct (request_class n Hn) as (_ & Eu & Hpos & Hfit). unfold CmiPoolAlloc.
  change (n + CMI_POOL_HEADER_SIZE)%Z with (n + 8)%Z. rewrite Eu. fold (class_of n). set (b := class_of n) in *.
  assert (stamp (maxBin s) n = if (Z.of_nat b <? maxBin s)%Z then b else 0) as Hst by done.
  destruct (Z.ltb_spec (Z.of_nat b) (maxBin s)) as [Hb|Hb].
  - rewrite (proj2 (Nat.ltb_lt _ _)) by done. pose proof (pi_bins _ _ _ Hi) as Hbins.
    assert (b < length (bins s)) as Hlt by lia.
    pose proof (chain_head _ _ _ (pi_chain _ _ _ Hi b Hlt)) as Hhead.
    destruct (bins s !!! b =? NULL)%Z eqn:En; cbn [negb].
    + rewrite Z.shiftl_mul_pow2, Z.mul_1_l by lia.
      destruct (alloc_malloc s out ch false b (2 ^ Z.of_nat b) n Hi) as (a & Hp & Ha & Ho & Hi'); [done|lia|lia|by right|].
      destruct (pool_malloc false _ s) as [s' p]. simpl in Hp, Hi'. subst p.
      cbn [CmiAssert mbind outcome_bind]. rewrite assert_header by lia.
      exists (set_hdr (a + 8)%Z (Z.of_nat b) s'), (a + 8)%Z, ch. split_and!; try done.
      intros _ q l E. by rewrite E in Hhead.
    + apply Z.eqb_neq in En. destruct (alloc_reuse s out ch b n Hi Hb) as (p & l & Hch & Hp & Hi'); [done|lia|lia|done|].
      destruct (pop_spec s out ch b Hi Hlt En) as (_ & _ & _ & _ & _ & _ & _ & Hlive & _).
      destruct (pool_pop b s) as [s' q]. simpl in *. subst q.
      assert (p ∈ ch b) as Hin by (rewrite Hch; left).
      rewrite assert_header by (eapply (pi_live_pos _ _ _ Hi), (pi_free _ _ _ Hi), Hin).
      exists (set_hdr p (Z.of_nat b) s'), p, (set_class b l ch). split; [done|].
      split; [by apply (pi_not_used _ _ _ Hi b)|]. split; [done|].
      intros _ q l0 E. rewrite Hch in E. injection E as -> ->. split; [done|]. split; [|done].
      unfold set_class. by rewrite Nat.eqb_refl.
  - destruct (alloc_malloc s out ch true 0 (n + 8) n Hi) as (a & Hp & Ha & Ho & Hi'); [done|lia|lia|by left|].
    destruct (pool_malloc true _ s) as [s' p]. simpl in Hp, Hi'. subst p.
    cbn [mbind outcome_bind]. rewrite assert_header by lia.
    exists (set_hdr (a + 8)%Z 0 s'), (a + 8)%Z, ch. split_and!; try done. lia.
Qed.

(** *** Giving back a block in use *)

Lemma used_not_free s out ch p n : pool_inv s out ch -> out !! p = Some n -> forall b, p ∉ ch b.
Proof. intros Hi Hp b Hin%(pi_not_used _ _ _ Hi). congruence. Qed.

Lemma delete_used (out : gmap Z Z) p q m : delete p out !! q = Some m -> q <> p /\ out !! q = Some m.
Proof. rewrite lookup_delete_Some. naive_solver. Qed.

(** A large block goes back to [free_nomigrate]. *)
Lemma free_large s out ch p n k : pool_inv s out ch -> out !! p = Some n ->
  pool_inv (mk_pool (bins s) (binLengths s) (maxBin s) (numKallocs s) (numMallocs s) (numOallocs s)
    (numFrees s) k (delete p (hdr s)) (delete (p - 8)%Z (live s))) (delete p out) ch.
Proof.
  intros Hi Hp. pose proof (used_not_free _ _ _ _ _ Hi Hp) as Hnot.
  assert (forall a m, delete (p - 8)%Z (live s) !! a = Some m -> live s !! a = Some m) as Hld.
  { intros a m. rewrite lookup_delete_Some. tauto. }
  split; cbn [bins binLengths maxBin hdr live]; try apply Hi.
  - intros b Hlt. apply chain_frame_delete; [by apply Hi|done].
  - intros b q Hq. pose proof (pi_free _ _ _ Hi b q Hq) as Hf. rewrite lookup_delete_ne; [done|].
    intros E. assert (p = q) as <- by lia. by apply (Hnot b).
  - intros q m [Hqp Hq]%delete_used. destruct (pi_used _ _ _ Hi q m Hq) as (b & sz & H1 & H2 & H3).
    exists b, sz. rewrite !lookup_delete_ne by lia. done.
  - intros b q Hq. apply lookup_delete_None. right. by apply (pi_not_used _ _ _ Hi b).
  - intros a1 n1 a2 n2 H1%Hld H2%Hld. by apply (pi_apart _ _ _ Hi).
  - intros a m Ha%Hld. by eapply pi_live_pos.
Qed.

(** A block of class [b] becomes the first of its free list. *)
Lemma free_small s out ch p n b k : pool_inv s out ch -> out !! p = Some n ->
  0 < b -> (Z.of_nat b < maxBin s)%Z -> live s !! (p - 8)%Z = Some (2 ^ Z.of_nat b)%Z ->
  pool_inv (mk_pool (<[b := p]> (bins s))
    (if CMK_WITH_STATS then <[b := (binLengths s !!! b + 1)%Z]> (binLengths s) else binLengths s)
    (maxBin s) (numKallocs s) (numMallocs s) (numOallocs s) k (numOFrees s)
    (<[p := bins s !!! b]> (hdr s)) (live s)) (delete p out) (set_class b (p :: ch b) ch).
Proof.
  intros Hi Hp Hb0 Hbm Hl. pose proof (used_not_free _ _ _ _ _ Hi Hp) as Hnot.
  pose proof (pi_bins _ _ _ Hi) as Hbins. pose proof (pi_lens _ _ _ Hi) as Hlens.
  assert (forall b' q, q ∈ set_class b (p :: ch b) ch b' -> (b' = b /\ q = p) \/ q ∈ ch b') as Hsub.
  { intros b' q [[-> [->|Hq]%elem_of_cons]|[_ Hq]]%elem_of_set_class; auto. }
  split; cbn [bins binLengths maxBin hdr live]; rewrite ?length_insert; try apply Hi.
  - destruct CMK_WITH_STATS; by rewrite ?length_insert.
  - intros b' Hlt. unfold set_class. destruct (Nat.eqb_spec b' b) as [->|Hbb].
    + rewrite list_lookup_total_insert_eq by lia. econstructor; [|by rewrite lookup_insert_eq|].
      * pose proof (pi_live_pos _ _ _ Hi _ _ Hl). unfold NULL. lia.
      * apply chain_frame; [by apply Hi|done].
    + rewrite list_lookup_total_insert_ne by done. apply chain_frame; [by apply Hi|done].
  - intros b' E Hlt. rewrite E. unfold set_class. destruct (Nat.eqb_spec b' b) as [->|Hbb].
    + rewrite list_lookup_total_insert_eq by lia. rewrite (pi_count _ _ _ Hi) by done. simpl. lia.
    + rewrite list_lookup_total_insert_ne by done. by apply Hi.
  - intros b' q [[-> ->]|Hq]%Hsub; [done|by eapply pi_classes in Hq].
  - intros b' q [[-> ->]|Hq]%Hsub; [done|by apply (pi_free _ _ _ Hi)].
  - intros q m [Hqp Hq]%delete_used. destruct (pi_used _ _ _ Hi q m Hq) as (b' & sz' & H1 & H2 & H3).
    exists b', sz'. rewrite lookup_insert_ne by done. done.
  - intros b'. unfold set_class. destruct (b' =? b); [|by apply Hi].
    apply NoDup_cons. split; [done|by apply Hi].
  - intros b1 b2 q [[-> ->]|H1]%Hsub [[-> H2]|H2]%Hsub; [done|by apply Hnot in H2| |].
    + subst q. by apply Hnot in H1.
    + by apply (pi_once _ _ _ Hi _ _ q).
  - intros b' q [[-> ->]|Hq]%Hsub; [apply lookup_delete_eq|].
    apply lookup_delete_None. right. by apply (pi_not_used _ _ _ Hi b').
Qed.

Lemma free_spec s out ch p n : pool_inv s out ch -> out !! p = Some n ->
  exists s' ch', CmiPoolFree p s = Normal s' /\ pool_inv s' (delete p out) ch' /\
    (0 < stamp (maxBin s) n -> ch' (stamp (maxBin s) n) = p :: ch (stamp (maxBin s) n) /\
       live s' = live s /\ maxBin s' = maxBin s).
Proof.
  intros Hi Hp. destruct (pi_used _ _ _ Hi p n Hp) as (b & sz & Hh & Hl & Hn0 & Hfit & Hbs & Hb).
  pose proof (pi_max _ _ _ Hi) as Hmax.
  unfold CmiPoolFree. rewrite (lookup_total_correct _ _ _ Hh), i32_small by lia.
  destruct (Z.eqb_spec b 0) as [->|Hbne].
  - eexists _, ch. split; [done|]. split; [by eapply free_large|lia].
  - destruct Hb as [?|[Hbm ->]]; [done|]. rewrite (proj2 (Z.ltb_lt _ _)) by done. subst b. rewrite Nat2Z.id.
    eexists _, (set_class _ (p :: ch _) ch). split; [done|].
    split; [by eapply free_small; [..|lia|done|done]|]. intros _. unfold set_class. by rewrite Nat.eqb_refl.
Qed.

Lemma init_inv numBins : (Z.of_nat numBins < 2 ^ 31)%Z -> 0 < numBins ->
  pool_inv (CmiPoolAllocInit numBins) ∅ (fun _ => []).
Proof.
  intros Hn Hpos. split; cbn [CmiPoolAllocInit bins binLengths maxBin hdr live]; rewrite ?length_replicate; try done; try lia.
  - intros b Hb. rewrite lookup_total_replicate_2 by done. constructor.
  - intros b _ Hb. by rewrite lookup_total_replicate_2.
  - by intros b p Hp%elem_of_nil.
  - by intros b p Hp%elem_of_nil.
  - intros b. constructor.
  - by intros b b' p Hp%elem_of_nil.
Qed.

(** ** Histories *)

(** The pool and the blocks in use, under requests and releases. *)
Inductive pool_step : pool * gmap Z Z -> pool * gmap Z Z -> Prop :=
  | step_alloc n s out s' p : (0 <= n < 2 ^ 31 - 8)%Z -> CmiPoolAlloc n s = Normal (s', p) ->
      pool_step (s, out) (s', <[p := n]> out)
  | step_free p s out s' : is_Some (out !! p) -> CmiPoolFree p s = Normal s' ->
      pool_step (s, out) (s', delete p out).

Definition pool_reachable (numBins : nat) : pool * gmap Z Z -> Prop :=
  rtc pool_step (CmiPoolAllocInit numBins, ∅).

Lemma reachable_inv numBins x : (Z.of_nat numBins < 2 ^ 31)%Z -> 0 < numBins ->
  pool_reachable numBins x -> exists ch, pool_inv (fst x) (snd x) ch.
Proof.
  intros Hn Hpos Hr. revert Hr. unfold pool_reachable.
  apply (rtc_ind_r (fun y => exists ch, pool_inv (fst y) (snd y) ch)).
  { eexists. by apply init_inv. }
  intros y z _ Hstep [ch Hi]. destruct Hstep as [n s out s' p Hr Ha|p s out s' [n Hp] Hf]; simpl in *.
  - destruct (alloc_spec s out ch n Hi Hr) as (s2 & p2 & ch' & Ha' & _ & Hi' & _).
    rewrite Ha in Ha'. injection Ha' as <- <-. by exists ch'.
  - destruct (free_spec s out ch p n Hi Hp) as (s2 & ch' & Hf' & Hi' & _).
    rewrite Hf in Hf'. injection Hf' as <-. by exists ch'.
Qed.


(** Released blocks are reused.  After a block of a binned size is released, the
    next request of its size class gets that block back and nothing is taken from
    [malloc_nomigrate], with and without the statistics that count the free blocks. *)
Theorem pool_reuses numBins s out p n m :
  (Z.of_nat numBins < 2 ^ 31)%Z -> 0 < numBins -> pool_reachable numBins (s, out) ->
  out !! p = Some n -> (0 <= n < 2 ^ 31 - 8)%Z -> (0 <= m < 2 ^ 31 - 8)%Z ->
  class_of m = class_of n -> (Z.of_nat (class_of n) < maxBin s)%Z ->
  exists s1 s2, CmiPoolFree p s = Normal s1 /\ CmiPoolAlloc m s1 = Normal (s2, p) /\ live s2 = live s.
Proof.
  intros Hn Hpos Hr Hp Hn' Hm Hc Hlt. destruct (reachable_inv numBins _ Hn Hpos Hr) as [ch Hi]. simpl in Hi.
  destruct (request_class n Hn') as (_ & _ & Hcpos & _).
  assert (stamp (maxBin s) n = class_of n) as Hst by (unfold stamp; by rewrite (proj2 (Z.ltb_lt _ _))).
  destruct (free_spec s out ch p n Hi Hp) as (s1 & ch1 & Hf & Hi1 & Hch). rewrite Hst in Hch.
  destruct (Hch Hcpos) as (Hch1 & Hl1 & Hm1).
  destruct (alloc_spec s1 _ ch1 m Hi1 Hm) as (s2 & p2 & ch2 & Ha & _ & _ & Hre).
  rewrite Hc, Hm1 in Hre. destruct (Hre Hlt _ _ Hch1) as (-> & _ & Hl2). exists s1, s2. by rewrite Hl2, Hl1.
Qed.

End invariant.

(** ** Instances *)

(** An allocator that never gives memory back: it allocates above every block. *)
Definition bump (blocks : gmap Z Z) (n : Z) : Z :=
  map_fold (fun a m top => Z.max top (a + Z.max m 0 + 1)) 16%Z blocks.

Lemma bump_above blocks n : (16 <= bump blocks n)%Z /\
  forall a m, blocks !! a = Some m -> (a < bump blocks n /\ a + m < bump blocks n)%Z.
Proof.
  unfold bump. apply (map_fold_weak_ind (fun r blocks => (16 <= r)%Z /\
    forall a m, blocks !! a = Some m -> (a < r /\ a + m < r)%Z)).
  - split; [lia|]. intros a m Ha. by rewrite lookup_empty in Ha.
  - intros a m bl r Hn [IH1 IH2]. split; [lia|]. intros a' m'. destruct (decide (a' = a)) as [->|].
    + rewrite lookup_insert_eq. intros [= ->]. lia.
    + rewrite lookup_insert_ne by done. intros H%IH2. lia.
Qed.

#[local] Instance bump_malloc : Malloc := bump.

#[local] Instance bump_laws : MallocLaws bump_malloc.
Proof.
  split; unfold malloc_nomigrate, bump_malloc.
  - intros blocks n. pose proof (bump_above blocks n) as [H _]. lia.
  - intros blocks n a m Ha Hn. pose proof (bump_above blocks n) as [_ H]. apply H in Ha. unfold apart. lia.
  - intros blocks n. destruct (blocks !! bump blocks n) as [m|] eqn:E; [|done].
    pose proof (bump_above blocks n) as [_ H]. apply H in E. lia.
Qed.

#[local] Instance stats_on : PoolConfig := true.

(** One request of 20 bytes from 30 bins. *)
Definition example_pool : pool * Z :=
  match CmiPoolAlloc 20 (CmiPoolAllocInit 30) with Normal x => x | Aborted => (CmiPoolAllocInit 30, 0%Z) end.

Lemma example_pool_reachable :
  pool_reachable 30 (fst example_pool, {[ snd example_pool := 20%Z ]}).
Proof.
  apply rtc_once. change {[ snd example_pool := 20%Z ]} with (<[ snd example_pool := 20%Z ]> (∅ : gmap Z Z)).
  apply (step_alloc 20); [lia|]. vm_compute. reflexivity.
Qed.


Lemma pool_reuses_witness :
  exists s1 s2, CmiPoolFree (snd example_pool) (fst example_pool) = Normal s1 /\
    CmiPoolAlloc 22 s1 = Normal (s2, snd example_pool) /\ live s2 = live (fst example_pool).
Proof.
  apply (pool_reuses 30 (fst example_pool) {[ snd example_pool := 20%Z ]} (snd example_pool) 20 22).
  - lia.
  - lia.
  - exact example_pool_reachable.
  - apply lookup_singleton_eq.
  - lia.
  - lia.
  - vm_compute. reflexivity.
  - vm_compute. reflexivity.
Defined.
