(* ===== verification/Args.v ===== *)
(** * Args: command-line arguments (convcore.c)

    The argument routines of src/conv-core/convcore.c: they search the
    [argv] array, take an option with its value out of it in place, and
    collect the descriptions for the usage message.  The array is related to
    the list of its arguments.  [CmiGetArgDouble] is left out: it needs the
    floating-point conversions of [sscanf]. *)

From Stdlib Require Import String Ascii.
From S2P Require Import Prelude.
Set Warnings "-clear-no-such-hyp".
Local Open Scope nat_scope.

(** ** Descriptions *)

Record CLA := mk_CLA { cla_arg : string; cla_param : string; cla_desc : string }.

(** [printed] is what has been printed, oldest first. *)
Record cla_state := mk_clas {
  CmiMyPe : nat;
  usageChecked : bool;
  printUsage : bool;
  CLAlist : list CLA;
  CLAlistMax : nat;
  printed : list CLA
}.

Definition CmiAddCLA (arg param : string) (desc : option string) (s : cla_state) : cla_state :=
  if negb (CmiMyPe s =? 0) then s
  else match desc with
  | None => s
  | Some d =>
      if usageChecked s then
        if printUsage s then
          mk_clas (CmiMyPe s) (usageChecked s) (printUsage s) (CLAlist s) (CLAlistMax s)
            (printed s ++ [mk_CLA arg param d])
        else s
      else
        let len := length (CLAlist s) + 1 in
        let max := if CLAlistMax s <? len then 16 + 2 * len else CLAlistMax s in
        mk_clas (CmiMyPe s) (usageChecked s) (printUsage s) (CLAlist s ++ [mk_CLA arg param d]) max (printed s)
  end.

Definition CmiPrintCLAs (s : cla_state) : cla_state :=
  if negb (CmiMyPe s =? 0) then s
  else mk_clas (CmiMyPe s) (usageChecked s) (printUsage s) (CLAlist s) (CLAlistMax s) (printed s ++ CLAlist s).

(** [argv[i]]; [NULL] ends the arguments. *)
Definition argv_at (argv : list (option string)) (i : nat) : option string := mjoin (argv !! i).

Definition is_help (a : string) : bool := String.eqb a "-?" || String.eqb a "-h" || String.eqb a "--help".

(** [for (i=0;argv[i]!=NULL;i++)] of [CmiArgInit]. *)
Fixpoint arg_init_loop (fuel i : nat) (argv : list (option string)) (s : cla_state) : cla_state :=
  match fuel with
  | 0 => s
  | S fuel =>
      match argv_at argv i with
      | None => s
      | Some a =>
          arg_init_loop fuel (S i) argv
            (if is_help a then
               CmiPrintCLAs (mk_clas (CmiMyPe s) (usageChecked s) true (CLAlist s) (CLAlistMax s) (printed s))
             else s)
      end
  end.

Definition CmiArgInit (argv : list (option string)) (s : cla_state) : cla_state :=
  let s := arg_init_loop (length argv) 0 argv s in
  let '(l, m) := if CmiMyPe s =? 0 then ([], 0) else (CLAlist s, CLAlistMax s) in
  mk_clas (CmiMyPe s) true (printUsage s) l m (printed s).

Definition CmiArgGivingUsage (s : cla_state) : bool := (CmiMyPe s =? 0) && printUsage s.

(** ** The array *)

Fixpoint argc_loop (fuel i argc : nat) (argv : list (option string)) : nat :=
  match fuel with
  | 0 => argc
  | S fuel => match argv_at argv i with None => argc | Some _ => argc_loop fuel (S i) (S argc) argv end
  end.

Definition CmiGetArgc (argv : list (option string)) : nat := argc_loop (length argv) 0 0 argv.

(** [for (i=0;i<=argc;i++) ret[i]=argv[i];] *)
Definition CmiCopyArgs (argv : list (option string)) : list (option string) :=
  argv_at argv <$> seq 0 (CmiGetArgc argv + 1).

(** [while ((argv[i]=argv[i+k])!=NULL) i++;] from [argv + off]. *)
Fixpoint delete_loop (fuel off k : nat) (argv : list (option string)) : list (option string) :=
  match fuel with
  | 0 => argv
  | S fuel =>
      let v := argv_at argv (off + k) in
      let argv := <[off := v]> argv in
      match v with None => argv | Some _ => delete_loop fuel (S off) k argv end
  end.

Definition CmiDeleteArgs (off k : nat) (argv : list (option string)) : list (option string) :=
  delete_loop (length argv) off k argv.

(** ** [sscanf] *)

Definition is_space (c : ascii) : bool :=
  let n := nat_of_ascii c in (n =? 32) || ((9 <=? n) && (n <=? 13)).

Fixpoint skip_space (s : string) : string :=
  match s with
  | EmptyString => EmptyString
  | String c s' => if is_space c then skip_space s' else s
  end.

(** The value of a digit in any base. *)
Definition digit_val (c : ascii) : option Z :=
  let n := Z.of_nat (nat_of_ascii c) in
  if (48 <=? n)%Z && (n <=? 57)%Z then Some (n - 48)%Z
  else if (97 <=? n)%Z && (n <=? 102)%Z then Some (n - 87)%Z
  else if (65 <=? n)%Z && (n <=? 70)%Z then Some (n - 55)%Z
  else None.

(** The longest run of digits of the base, after [acc]. *)
Fixpoint scan_digits (base acc : Z) (s : string) : Z :=
  match s with
  | EmptyString => acc
  | String c s' =>
      match digit_val c with
      | Some d => if (d <? base)%Z then scan_digits base (acc * base + d) s' else acc
      | None => acc
      end
  end.

(** At least one digit. *)
Definition scan_number (base : Z) (s : string) : option Z :=
  match s with
  | EmptyString => None
  | String c _ =>
      match digit_val c with
      | Some d => if (d <? base)%Z then Some (scan_digits base 0 s) else None
      | None => None
      end
  end.

Definition scan_sign (s : string) : Z * string :=
  match s with
  | String "-" s' => ((-1)%Z, s')
  | String "+" s' => (1%Z, s')
  | _ => (1%Z, s)
  end.

(** [%i]: the prefix selects the base. *)
Definition scan_i (s : string) : option Z :=
  let '(sign, s) := scan_sign (skip_space s) in
  v ← match s with
      | String "0" (String "x" s') | String "0" (String "X" s') => scan_number 16 s'
      | String "0" _ => scan_number 8 s
      | _ => scan_number 10 s
      end;
  Some (i32 (sign * v)).

(** [%lu] into a signed 64-bit integer. *)
Definition scan_lu (s : string) : option Z :=
  let '(sign, s) := scan_sign (skip_space s) in
  v ← scan_number 10 s;
  Some (i64 (sign * v)).

(** ** Options *)

Section search.
Context (argv : list (option string)).

(** The loop of [CmiGetArgStringDesc] and [CmiGetArgFlagDesc]:
    the first [i] with [0==strcmp(argv[i],arg)]. *)
Fixpoint find_exact (fuel i : nat) (arg : string) : option nat :=
  match fuel with
  | 0 => None
  | S fuel =>
      match argv_at argv i with
      | None => None
      | Some a => if String.eqb a arg then Some i else find_exact fuel (S i) arg
      end
  end.

(** The [switch] on the character after the prefix: the option's text, if it
    has one, and how many arguments to delete; [None] for a false alarm. *)
Definition number_option (a arg : string) (next : option string) : option (option string * nat) :=
  if String.prefix arg a then
    match String.get (String.length arg) a with
    | None => Some (next, 2)
    | Some c =>
        let rest := String.substring (String.length arg) (String.length a) a in
        if Ascii.eqb c "=" then
          Some (Some (String.substring (String.length arg + 1) (String.length a) a), 1)
        else if Ascii.eqb c "-" || Ascii.eqb c "+" || ((48 <=? nat_of_ascii c) && (nat_of_ascii c <=? 57))
        then Some (Some rest, 1)
        else None
    end
  else None.

(** The loop of [CmiGetArgIntDesc] and [CmiGetArgLongDesc]. *)
Fixpoint find_number (fuel i : nat) (arg : string) : option (nat * option string * nat) :=
  match fuel with
  | 0 => None
  | S fuel =>
      match argv_at argv i with
      | None => None
      | Some a =>
          match number_option a arg (argv_at argv (i + 1)) with
          | Some (opt, nDel) => Some (i, opt, nDel)
          | None => find_number fuel (S i) arg
          end
      end
  end.
End search.

(** The results: the array, the description list, and the value if the option
    was found. *)
Definition CmiGetArgStringDesc (argv : list (option string)) (arg : string) (desc : option string)
    (s : cla_state) : outcome (list (option string) * cla_state * option string) :=
  let s := CmiAddCLA arg "string" desc s in
  match find_exact argv (length argv) 0 arg with
  | None => Normal (argv, s, None)
  | Some i =>
      match argv_at argv (i + 1) with
      | None => Aborted
      | Some opt => Normal (CmiDeleteArgs i 2 argv, s, Some opt)
      end
  end.

Definition get_number (scan : string -> option Z) (argv : list (option string)) (arg : string)
    (desc : option string) (s : cla_state) : outcome (list (option string) * cla_state * option Z) :=
  let s := CmiAddCLA arg "integer" desc s in
  match find_number argv (length argv) 0 arg with
  | None => Normal (argv, s, None)
  | Some (i, opt, nDel) =>
      match opt with
      | None => Aborted
      | Some o =>
          match scan o with
          | None => Aborted
          | Some v => Normal (CmiDeleteArgs i nDel argv, s, Some v)
          end
      end
  end.

Definition CmiGetArgIntDesc := get_number scan_i.
Definition CmiGetArgLongDesc := get_number scan_lu.

Definition CmiGetArgFlagDesc (argv : list (option string)) (arg : string) (desc : option string)
    (s : cla_state) : list (option string) * cla_state * bool :=
  let s := CmiAddCLA arg "" desc s in
  match find_exact argv (length argv) 0 arg with
  | None => (argv, s, false)
  | Some i => (CmiDeleteArgs i 1 argv, s, true)
  end.

Definition CmiGetArgString argv arg s := CmiGetArgStringDesc argv arg (Some ""%string) s.
Definition CmiGetArgInt argv arg s := CmiGetArgIntDesc argv arg (Some ""%string) s.
Definition CmiGetArgLong argv arg s := CmiGetArgLongDesc argv arg (Some ""%string) s.
Definition CmiGetArgFlag argv arg s := CmiGetArgFlagDesc argv arg (Some ""%string) s.
