(* ===== verification/ArgsFacts.v ===== *)
(** * ArgsFacts: properties of the argument routines

    Options are taken out of [argv] in place and nothing else changes; the
    numbers a program prints are read back; the usage message. *)

From Stdlib Require Import String Ascii.
From S2P Require Import Prelude Args.
Set Warnings "-clear-no-such-hyp".
Local Open Scope nat_scope.

(** ** The array as a list *)

Fixpoint args_of (argv : list (option string)) : list string :=
  match argv with Some a :: argv => a :: args_of argv | _ => [] end.

(** The array holds the arguments [l], a [NULL], and perhaps more cells. *)
Definition argv_rep (argv : list (option string)) (l : list string) : Prop :=
  args_of argv = l /\ length l < length argv.

Lemma rep_at argv l i : argv_rep argv l -> i <= length l -> argv_at argv i = l !! i.
Proof.
  intros [<- _]. revert i. unfold argv_at. induction argv as [|[a|] argv IH]; intros i Hi; simpl in *.
  - by destruct i.
  - destruct i as [|i]; [done|]. apply IH. lia.
  - by destruct i; [|lia].
Qed.

Lemma rep_intro argv l : length l < length argv ->
  (forall i, i <= length l -> argv_at argv i = l !! i) -> argv_rep argv l.
Proof.
  intros Hlen Hat. split; [|done]. revert l Hlen Hat. unfold argv_at.
  induction argv as [|c argv IH]; intros l Hlen Hat; simpl in *; [lia|].
  pose proof (Hat 0 ltac:(lia)) as H0. simpl in H0. destruct l as [|a l]; simpl in *.
  - by destruct c.
  - destruct c as [c|]; [|done]. simpl in H0. injection H0 as ->. f_equal. apply IH; [lia|].
    intros i Hi. apply (Hat (S i)). lia.
Qed.

(** The loop writes what is [k] cells further on, up to the [NULL]. *)
Lemma delete_loop_spec l k fuel : forall off argv,
  off + k <= length l -> length l - (off + k) < fuel -> length l < length argv ->
  (forall j, off + k <= j <= length l -> argv_at argv j = l !! j) ->
  length (delete_loop fuel off k argv) = length argv /\
  forall j, j <= length l - k -> argv_at (delete_loop fuel off k argv) j =
    if j <? off then argv_at argv j else l !! (j + k).
Proof.
  induction fuel as [|fuel IH]; intros off argv Hoff Hf Hlen Hat; [lia|]. cbn [delete_loop].
  rewrite (Hat (off + k)) by lia.
  assert (forall j v, j <> off -> argv_at (<[off := v]> argv) j = argv_at argv j) as Hne.
  { intros j v Hj. unfold argv_at. by rewrite list_lookup_insert_ne. }
  assert (forall v, argv_at (<[off := v]> argv) off = v) as Heq.
  { intros v. unfold argv_at. by rewrite list_lookup_insert_eq by lia. }
  destruct (l !! (off + k)) as [a|] eqn:Ea.
  - apply lookup_lt_Some in Ea as Hlt.
    destruct (IH (S off) (<[off := Some a]> argv)) as [IHl IHa]; [lia|lia|by rewrite length_insert| |].
    { intros j Hj. rewrite Hne by lia. apply Hat. lia. }
    rewrite IHl, length_insert. split; [done|]. intros j Hj. rewrite IHa by done.
    destruct (Nat.ltb_spec j (S off)), (Nat.ltb_spec j off); try lia; [by apply Hne; lia| |done].
    assert (j = off) as -> by lia. by rewrite Heq.
  - apply lookup_ge_None in Ea. rewrite length_insert. split; [done|]. intros j Hj.
    destruct (Nat.ltb_spec j off); [by apply Hne; lia|].
    assert (j = off) as -> by lia. rewrite Heq. symmetry. by apply lookup_ge_None.
Qed.

Lemma delete_args_rep argv l1 l2 l3 : argv_rep argv (l1 ++ l2 ++ l3) ->
  argv_rep (CmiDeleteArgs (length l1) (length l2) argv) (l1 ++ l3).
Proof.
  intros Hr. pose proof Hr as [_ Hlen]. unfold CmiDeleteArgs. set (l := l1 ++ l2 ++ l3) in *.
  assert (length l = length l1 + length l2 + length l3) as Hl by (unfold l; rewrite !length_app; lia).
  destruct (delete_loop_spec l (length l2) (length argv) (length l1) argv) as [Hdl Hda]; try lia.
  { intros j Hj. apply (rep_at _ _ _ Hr). lia. }
  apply rep_intro; [rewrite Hdl, length_app; lia|]. intros i Hi. rewrite length_app in Hi.
  rewrite Hda by lia. destruct (Nat.ltb_spec i (length l1)).
  - rewrite (rep_at _ _ _ Hr) by lia. unfold l. by rewrite !lookup_app_l by lia.
  - unfold l. rewrite !lookup_app_r by (rewrite ?length_app; lia). f_equal. lia.
Qed.

(** ** Searching *)

(** No argument of [l] has the name [arg]. *)
Definition no_exact (arg : string) (l : list string) : Prop := Forall (fun a => a <> arg) l.

Lemma find_exact_skip argv l1 l2 arg fuel : argv_rep argv (l1 ++ l2) -> no_exact arg l1 ->
  length l1 <= fuel ->
  find_exact argv fuel 0 arg = find_exact argv (fuel - length l1) (length l1) arg.
Proof.
  intros Hr Hno Hf.
  assert (forall n k, n + k = length l1 -> n <= fuel -> forall fuel', fuel' = fuel - k -> k <= fuel ->
    find_exact argv fuel' k arg = find_exact argv (fuel - length l1) (length l1) arg) as H.
  { induction n as [|n IH]; intros k Hk Hn fuel' -> Hkf; [by assert (k = length l1) as -> by lia|].
    destruct (decide (k = fuel)); [lia|].
    replace (fuel - k) with (S (fuel - S k)) by lia. cbn [find_exact].
    rewrite (rep_at _ _ _ Hr) by (rewrite length_app; lia). rewrite lookup_app_l by lia.
    destruct (lookup_lt_is_Some_2 l1 k) as [a Ha]; [lia|]. rewrite Ha.
    pose proof (proj1 (Forall_lookup _ _) Hno _ _ Ha) as Hne. simpl in Hne.
    rewrite (proj2 (String.eqb_neq _ _)) by done. apply IH; lia. }
  apply (H (length l1) 0); lia.
Qed.

Lemma find_exact_found argv l1 arg l2 : argv_rep argv (l1 ++ arg :: l2) -> no_exact arg l1 ->
  find_exact argv (length argv) 0 arg = Some (length l1).
Proof.
  intros Hr Hno. pose proof Hr as [_ Hlen]. rewrite length_app in Hlen. simpl in Hlen.
  rewrite (find_exact_skip _ _ _ _ _ Hr Hno) by lia.
  replace (length argv - length l1) with (S (length argv - length l1 - 1)) by lia. cbn [find_exact].
  rewrite (rep_at _ _ _ Hr) by (rewrite length_app; simpl; lia).
  rewrite list_lookup_middle by done. by rewrite String.eqb_refl.
Qed.

Lemma find_exact_none argv l arg : argv_rep argv l -> no_exact arg l ->
  find_exact argv (length argv) 0 arg = None.
Proof.
  intros Hr Hno. pose proof Hr as [_ Hlen].
  assert (argv_rep argv (l ++ [])) as Hr' by (by rewrite app_nil_r).
  rewrite (find_exact_skip _ _ _ _ _ Hr' Hno) by lia.
  replace (length argv - length l) with (S (length argv - length l - 1)) by lia. cbn [find_exact].
  rewrite (rep_at _ _ _ Hr) by lia. by rewrite (proj2 (lookup_ge_None _ _)).
Qed.

(** The argument [a], followed by [rest], is not the option [arg]. *)
Definition not_number (arg a : string) (rest : list string) : Prop := number_option a arg (head rest) = None.

(** No argument of [l1], in front of [l2], is the option. *)
Fixpoint no_number (arg : string) (l1 l2 : list string) : Prop :=
  match l1 with
  | [] => True
  | a :: l1 => not_number arg a (l1 ++ l2) /\ no_number arg l1 l2
  end.

Lemma no_number_lookup arg l1 l2 k a : no_number arg l1 l2 -> l1 !! k = Some a ->
  number_option a arg ((l1 ++ l2) !! (k + 1)) = None.
Proof.
  revert k. induction l1 as [|b l1 IH]; intros k Hno Hk; [done|]. destruct Hno as [Hb Hno].
  destruct k as [|k]; simpl in *; [|by apply IH]. injection Hk as ->.
  unfold not_number in Hb. rewrite head_lookup in Hb. done.
Qed.

Lemma find_number_skip argv l1 l2 arg fuel : argv_rep argv (l1 ++ l2) -> no_number arg l1 l2 ->
  length l1 <= fuel ->
  find_number argv fuel 0 arg = find_number argv (fuel - length l1) (length l1) arg.
Proof.
  intros Hr Hno Hf.
  assert (forall n k, n + k = length l1 -> n <= fuel -> forall fuel', fuel' = fuel - k -> k <= fuel ->
    find_number argv fuel' k arg = find_number argv (fuel - length l1) (length l1) arg) as H.
  { induction n as [|n IH]; intros k Hk Hn fuel' -> Hkf; [by assert (k = length l1) as -> by lia|].
    destruct (decide (k = fuel)); [lia|].
    replace (fuel - k) with (S (fuel - S k)) by lia. cbn [find_number].
    rewrite !(rep_at _ _ _ Hr) by (rewrite length_app; lia). rewrite lookup_app_l by lia.
    destruct (lookup_lt_is_Some_2 l1 k) as [a Ha]; [lia|]. rewrite Ha.
    rewrite (no_number_lookup _ _ _ _ _ Hno Ha). apply IH; lia. }
  apply (H (length l1) 0); lia.
Qed.

Lemma find_number_found argv l1 a l2 arg opt n : argv_rep argv (l1 ++ a :: l2) -> no_number arg l1 (a :: l2) ->
  number_option a arg (head l2) = Some (opt, n) ->
  find_number argv (length argv) 0 arg = Some (length l1, opt, n).
Proof.
  intros Hr Hno Ha. pose proof Hr as [_ Hlen]. rewrite length_app in Hlen. simpl in Hlen.
  rewrite (find_number_skip _ _ _ _ _ Hr Hno) by lia.
  replace (length argv - length l1) with (S (length argv - length l1 - 1)) by lia. cbn [find_number].
  rewrite !(rep_at _ _ _ Hr) by (rewrite length_app; simpl; lia).
  rewrite list_lookup_middle by done.
  rewrite lookup_app_r by lia. replace (length l1 + 1 - length l1) with 1 by lia.
  change ((a :: l2) !! 1) with (l2 !! 0). by rewrite <- head_lookup, Ha.
Qed.

Lemma find_number_none argv l arg : argv_rep argv l -> no_number arg l [] ->
  find_number argv (length argv) 0 arg = None.
Proof.
  intros Hr Hno. pose proof Hr as [_ Hlen].
  assert (argv_rep argv (l ++ [])) as Hr' by (by rewrite app_nil_r).
  rewrite (find_number_skip _ _ _ _ _ Hr' Hno) by lia.
  replace (length argv - length l) with (S (length argv - length l - 1)) by lia. cbn [find_number].
  rewrite (rep_at _ _ _ Hr) by lia. by rewrite (proj2 (lookup_ge_None _ _)).
Qed.

(** ** Taking options out *)

Lemma number_option_shape a arg next opt n :
  number_option a arg next = Some (opt, n) -> n = 1 /\ is_Some opt \/ n = 2 /\ opt = next.
Proof.
  unfold number_option. destruct (String.prefix arg a); [|done].
  destruct (String.get _ a) as [c|]; [|intros [= <- <-]; by right].
  destruct (Ascii.eqb c "="); [intros [= <- <-]; by left|].
  destruct (_ || _); [intros [= <- <-]; by left|done].
Qed.

Lemma delete_one argv l1 a l2 : argv_rep argv (l1 ++ a :: l2) ->
  argv_rep (CmiDeleteArgs (length l1) 1 argv) (l1 ++ l2).
Proof. apply (delete_args_rep argv l1 [a] l2). Qed.

Lemma delete_two argv l1 a b l2 : argv_rep argv (l1 ++ a :: b :: l2) ->
  argv_rep (CmiDeleteArgs (length l1) 2 argv) (l1 ++ l2).
Proof. apply (delete_args_rep argv l1 [a; b] l2). Qed.

Lemma get_number_found scan argv l1 a l2 arg desc s o n v :
  argv_rep argv (l1 ++ a :: l2) -> no_number arg l1 (a :: l2) ->
  number_option a arg (head l2) = Some (Some o, n) -> scan o = Some v ->
  exists argv', get_number scan argv arg desc s = Normal (argv', CmiAddCLA arg "integer" desc s, Some v) /\
    argv_rep argv' (l1 ++ drop (n - 1) l2).
Proof.
  intros Hr Hno Ha Hv. unfold get_number. rewrite (find_number_found _ _ _ _ _ _ _ Hr Hno Ha), Hv.
  eexists. split; [done|]. destruct (number_option_shape _ _ _ _ _ Ha) as [[-> _]|[-> Hn]].
  - by eapply delete_one.
  - destruct l2 as [|b l2]; [done|]. by eapply delete_two.
Qed.


Definition example_argv : list (option string) := [Some "a.out"; Some "+p4"; Some "x"; None]%string.


(** ** Numbers are read back *)

Fixpoint show_digits (fuel : nat) (n : Z) (acc : string) : string :=
  match fuel with
  | 0 => acc
  | S fuel =>
      let acc := String (ascii_of_nat (48 + Z.to_nat (n mod 10))) acc in
      if (n <? 10)%Z then acc else show_digits fuel (n / 10) acc
  end.

(** [printf("%d")]. *)
Definition show (z : Z) : string :=
  if (z <? 0)%Z then String "-" (show_digits 10 (- z) "") else show_digits 10 z "".

Lemma digit_char d : (0 <= d < 10)%Z -> digit_val (ascii_of_nat (48 + Z.to_nat d)) = Some d /\
  nat_of_ascii (ascii_of_nat (48 + Z.to_nat d)) = 48 + Z.to_nat d.
Proof.
  intros Hd. assert (nat_of_ascii (ascii_of_nat (48 + Z.to_nat d)) = 48 + Z.to_nat d) as E
    by (apply nat_ascii_embedding; lia).
  split; [|done]. unfold digit_val. rewrite E. replace (Z.of_nat (48 + Z.to_nat d)) with (48 + d)%Z by lia.
  rewrite (proj2 (Z.leb_le 48 (48 + d))), (proj2 (Z.leb_le (48 + d) 57)) by lia. cbn [andb]. f_equal. lia.
Qed.

Lemma scan_show_digits fuel : forall n acc, (0 <= n < 10 ^ Z.of_nat fuel)%Z -> 0 < fuel ->
  scan_digits 10 0 (show_digits fuel n acc) = scan_digits 10 n acc.
Proof.
  induction fuel as [|fuel IH]; intros n acc Hn Hf; [lia|]. cbn [show_digits].
  pose proof (Z.mod_pos_bound n 10 ltac:(lia)) as Hm. destruct (digit_char (n mod 10) Hm) as [Hd _].
  generalize dependent (ascii_of_nat (48 + Z.to_nat (n mod 10))). intros c Hd.
  assert (forall k, scan_digits 10 k (String c acc) = scan_digits 10 (k * 10 + n mod 10) acc) as Hstep.
  { intros k. cbn [scan_digits]. rewrite Hd. by rewrite (proj2 (Z.ltb_lt _ _)) by lia. }
  destruct (Z.ltb_spec n 10).
  - rewrite Hstep. f_equal. rewrite Z.mod_small by lia. lia.
  - pose proof (Z.div_mod n 10). rewrite Nat2Z.inj_succ, Z.pow_succ_r in Hn by lia.
    destruct fuel as [|fuel]; [simpl in Hn; lia|]. rewrite IH; [|lia|lia]. rewrite Hstep. f_equal. lia.
Qed.

(** What is printed starts with a digit, and with a zero only for zero. *)
Lemma show_digits_head fuel : forall n acc, (0 < n < 10 ^ Z.of_nat fuel)%Z ->
  exists d s, show_digits fuel n acc = String (ascii_of_nat (48 + Z.to_nat d)) s /\ (0 < d < 10)%Z.
Proof.
  induction fuel as [|fuel IH]; intros n acc Hn; [simpl in Hn; lia|]. cbn [show_digits].
  destruct (Z.ltb_spec n 10).
  - exists n, acc. rewrite Z.mod_small by lia. split; [done|lia].
  - apply IH. pose proof (Z.div_mod n 10). pose proof (Z.mod_pos_bound n 10).
    rewrite Nat2Z.inj_succ, Z.pow_succ_r in Hn by lia. lia.
Qed.

Lemma show_range n : (0 <= n <= 2 ^ 31)%Z -> (0 <= n < 10 ^ Z.of_nat 10)%Z.
Proof. change (10 ^ Z.of_nat 10)%Z with 10000000000%Z. lia. Qed.

(** The character of a positive digit is a digit, not a sign, not a space and
    not a zero. *)
Lemma digit_cases d (P : ascii -> Prop) : (0 < d < 10)%Z ->
  Forall P ["1"; "2"; "3"; "4"; "5"; "6"; "7"; "8"; "9"]%char -> P (ascii_of_nat (48 + Z.to_nat d)).
Proof.
  intros Hd HP. rewrite !Forall_cons in HP. destruct HP as (H1 & H2 & H3 & H4 & H5 & H6 & H7 & H8 & H9 & _).
  assert (d = 1 \/ d = 2 \/ d = 3 \/ d = 4 \/ d = 5 \/ d = 6 \/ d = 7 \/ d = 8 \/ d = 9)%Z as Hc by lia.
  repeat destruct Hc as [->|Hc]; try subst d; assumption.
Qed.

(** Evaluate the classification of known characters. *)
Ltac eval_chars :=
  repeat match goal with
  | |- context [is_space ?c] => change (is_space c) with false
  | |- context [digit_val ?c] => let v := eval vm_compute in (digit_val c) in change (digit_val c) with v
  end.

Lemma scan_i_positive n : (0 < n <= 2 ^ 31)%Z ->
  (scan_i (show_digits 10 n "") = Some (i32 n)) /\
  (scan_i (String "-" (show_digits 10 n "")) = Some (i32 (- n))).
Proof.
  intros Hn. destruct (show_digits_head 10 n "") as (d & s & Hs & Hd).
  { pose proof (show_range n). lia. }
  pose proof (scan_show_digits 10 n "" (show_range n ltac:(lia)) ltac:(lia)) as Hscan.
  cbn [scan_digits] in Hscan. rewrite Hs in *. revert Hscan.
  pattern (ascii_of_nat (48 + Z.to_nat d)). apply (digit_cases d _ Hd).
  repeat apply Forall_cons_2; try apply Forall_nil_2; intros Hscan; split;
    unfold scan_i; cbn [skip_space]; eval_chars; cbn [scan_sign]; unfold scan_number; eval_chars;
    cbn -[i32 scan_digits Z.mul]; rewrite Hscan; f_equal; f_equal; lia.
Qed.

Lemma scan_show z : (- 2 ^ 31 <= z < 2 ^ 31)%Z -> scan_i (show z) = Some z.
Proof.
  intros Hz. unfold show. destruct (Z.ltb_spec z 0).
  - destruct (scan_i_positive (- z) ltac:(lia)) as [_ ->]. by rewrite Z.opp_involutive, i32_small.
  - destruct (decide (z = 0%Z)) as [->|]; [vm_compute; reflexivity|].
    destruct (scan_i_positive z ltac:(lia)) as [-> _]. by rewrite i32_small.
Qed.

(** *** The three spellings *)

Lemma prefix_app arg s : String.prefix arg (arg ++ s) = true.
Proof. induction arg as [|c arg IH]; [by destruct s|]. simpl. by destruct (Ascii.ascii_dec c c). Qed.

Lemma get_app arg s : String.get (String.length arg) (arg ++ s) = String.get 0 s.
Proof. induction arg as [|c arg IH]; [done|]. simpl. done. Qed.

Lemma substring_all s n : String.length s <= n -> String.substring 0 n s = s.
Proof.
  revert n. induction s as [|c s IH]; intros n Hn; [by destruct n|]. simpl in Hn.
  destruct n as [|n]; [lia|]. simpl. f_equal. apply IH. lia.
Qed.

Lemma substring_app arg s n : String.length s <= n ->
  String.substring (String.length arg) n (arg ++ s) = s.
Proof. intros Hn. induction arg as [|c arg IH]; [by apply substring_all|]. done. Qed.

Lemma string_length_app s1 s2 : String.length (s1 ++ s2) = String.length s1 + String.length s2.
Proof. induction s1 as [|c s1 IH]; [done|]. exact (f_equal S IH). Qed.

Lemma string_app_nil s : (s ++ "")%string = s.
Proof. induction s as [|c s IH]; [done|]. exact (f_equal (String c) IH). Qed.

Lemma option_spaced arg next : number_option arg arg next = Some (next, 2).
Proof.
  unfold number_option. pose proof (prefix_app arg "") as Hp. pose proof (get_app arg "") as Hg.
  rewrite string_app_nil in Hp, Hg. by rewrite Hp, Hg.
Qed.

Lemma option_equals arg o next : number_option (arg ++ String "=" o) arg next = Some (Some o, 1).
Proof.
  assert (arg ++ String "=" o = (arg ++ "=") ++ o)%string as E.
  { induction arg as [|c arg IH]; [done|]. exact (f_equal (String c) IH). }
  unfold number_option. rewrite prefix_app, get_app. cbn [String.get Ascii.eqb Bool.eqb]. rewrite E. do 3 f_equal.
  replace (String.length arg + 1) with (String.length (arg ++ "=")) by apply string_length_app.
  apply substring_app. rewrite (string_length_app (arg ++ "=")). lia.
Qed.

Lemma option_glued arg z next : (- 2 ^ 31 <= z < 2 ^ 31)%Z ->
  number_option (arg ++ show z) arg next = Some (Some (show z), 1).
Proof.
  intros Hz. unfold number_option. rewrite prefix_app, get_app.
  rewrite substring_app by (rewrite string_length_app; lia).
  assert (exists c s, show z = String c s /\ Ascii.eqb c "=" = false /\
    (Ascii.eqb c "-" || Ascii.eqb c "+" || ((48 <=? nat_of_ascii c) && (nat_of_ascii c <=? 57))) = true)
    as (c & s & Hs & He & Hc).
  { unfold show. destruct (Z.ltb_spec z 0); [by eexists "-"%char, _|].
    destruct (decide (z = 0%Z)) as [->|]; [by eexists "0"%char, _|].
    destruct (show_digits_head 10 z "") as (d & s & -> & Hd); [pose proof (show_range z); lia|].
    exists (ascii_of_nat (48 + Z.to_nat d)), s. split; [done|].
    pattern (ascii_of_nat (48 + Z.to_nat d)). apply (digit_cases d _ Hd). by repeat constructor. }
  rewrite Hs. cbn [String.get]. by rewrite He, Hc.
Qed.

(** C33: an integer printed on a command line is read back in each of the spellings
    that the comment of [CmiGetArgIntDesc] lists: as the next argument, after an equals
    sign, and glued to the flag; whatever the flag is, for every value of type [int]. *)
Theorem int_option_roundtrip z arg desc s argv l1 l2 spelling :
  (- 2 ^ 31 <= z < 2 ^ 31)%Z ->
  spelling = [arg; show z] \/ spelling = [(arg ++ String "=" (show z))%string] \/ spelling = [(arg ++ show z)%string] ->
  argv_rep argv (l1 ++ spelling ++ l2) -> no_number arg l1 (spelling ++ l2) ->
  exists argv', CmiGetArgIntDesc argv arg desc s = Normal (argv', CmiAddCLA arg "integer" desc s, Some z) /\
    argv_rep argv' (l1 ++ l2).
Proof.
  intros Hz Hsp Hr Hno. pose proof (scan_show z Hz) as Hv.
  destruct Hsp as [->|[->| ->]]; simpl in Hr, Hno.
  - apply (get_number_found scan_i argv l1 arg (show z :: l2) arg desc s (show z) 2 z Hr Hno); [|done].
    apply option_spaced.
  - apply (get_number_found scan_i argv l1 _ l2 arg desc s (show z) 1 z Hr Hno); [|done]. apply option_equals.
  - apply (get_number_found scan_i argv l1 _ l2 arg desc s (show z) 1 z Hr Hno); [|done]. by apply option_glued.
Qed.

Lemma int_option_roundtrip_witness :
  exists argv', CmiGetArgIntDesc [Some "a"; Some "-pack=-27"; None]%string "-pack" None (mk_clas 0 false false [] 0 []) =
    Normal (argv', CmiAddCLA "-pack" "integer" None (mk_clas 0 false false [] 0 []), Some (-27)%Z) /\
    argv_rep argv' ["a"]%string.
Proof.
  apply (int_option_roundtrip (-27) "-pack" None (mk_clas 0 false false [] 0 [])
    [Some "a"; Some "-pack=-27"; None]%string ["a"]%string [] ["-pack=-27"]%string).
  - lia.
  - right. left. vm_compute. reflexivity.
  - split; [vm_compute; reflexivity|simpl; lia].
  - simpl. split; [vm_compute; reflexivity|exact I].
Defined.
