(* ===== verification/Reduce.v ===== *)
(** * Reduce: reductions over the processors (convcore.c)

    The reduction routines of src/conv-core/convcore.c: the table of
    reductions in progress, contributing to a reduction over all processors,
    over a list or over a group of processors, and merging what the children
    send.  The data that is reduced is abstract; the merge, pup and delete
    functions of the callers are an interface. *)

From S2P Require Import Prelude.
Set Warnings "-clear-no-such-hyp".

(** The callers' functions, by address: [merge_data f size local remote]
    returns the new size and the merged data, [pup_data f d] is [d] packed
    into a message and [pup_size f d] its length. *)
Class ReduceFns (D : Type) := {
  merge_data : ptr -> Z -> D -> list D -> Z * D;
  pup_size : ptr -> D -> Z;
  pup_data : ptr -> D -> D
}.

(** The processor: its number, its children and its parent in the spanning
    tree, and [CmiReservedHeaderSize]. *)
Class ReducePe := {
  my_pe : Z;
  my_num_children : nat;
  my_parent : Z;
  CmiReservedHeaderSize : Z
}.

Record red_ops := mk_ops { destination : ptr; mergeFn : ptr; pupFn : ptr; deleteFn : ptr }.

(** [remoteData] holds the [numRemoteReceived] entries that have been stored;
    [red_cap] is the number of entries that were allocated; [localData] and
    [ops] are set by the local contribution. *)
Record CmiReduction {D : Type} := mk_red {
  localData : option D;
  remoteData : list D;
  red_cap : nat;
  localSize : Z;
  numChildren : nat;
  red_parent : Z;
  seqID : Z;
  localContributed : bool;
  ops : red_ops
}.
Arguments CmiReduction : clear implicits.
Arguments mk_red {D}.

(** What a call does to the outside. *)
Inductive red_effect {D : Type} :=
  | RSend (pe size id : Z) (d : D)
  | RDestination (h : ptr) (d : D)
  | RDelete (f : ptr) (d : D).
Arguments red_effect : clear implicits.
Arguments RSend {D}.
Arguments RDestination {D}.
Arguments RDelete {D}.

Record rst {D : Type} := mk_rst {
  reduce_info : list (option (CmiReduction D));
  reduce_info_size : Z;
  seqID_global : Z;
  seqID_request : Z;
  seqID_dynamic : Z;
  effects : list (red_effect D)
}.
Arguments rst : clear implicits.
Arguments mk_rst {D}.

Definition CmiReductionID_globalOffset : Z := 0.
Definition CmiReductionID_requestOffset : Z := 1.
Definition CmiReductionID_dynamicOffset : Z := 2.
Definition CmiReductionID_multiplier : Z := 3.

Section ops.
Context {D : Type} {F : ReduceFns D} {P : ReducePe}.
Abbreviation st := (rst D).
Abbreviation red := (CmiReduction D).

Definition CmiReductionsInit : st :=
  mk_rst (replicate 16 None) 4 CmiReductionID_globalOffset CmiReductionID_requestOffset
    CmiReductionID_dynamicOffset [].

Definition set_info (l : list (option red)) (s : st) : st :=
  mk_rst l (reduce_info_size s) (seqID_global s) (seqID_request s) (seqID_dynamic s) (effects s).
Definition set_seq_global (n : Z) (s : st) : st :=
  mk_rst (reduce_info s) (reduce_info_size s) n (seqID_request s) (seqID_dynamic s) (effects s).
Definition emit (e : red_effect D) (s : st) : st :=
  mk_rst (reduce_info s) (reduce_info_size s) (seqID_global s) (seqID_request s) (seqID_dynamic s)
    (effects s ++ [e]).

(** [id & ~((~0u)<<CpvAccess(_reduce_info_size))] *)
Definition red_index (id : Z) (s : st) : nat :=
  Z.to_nat (Z.land id (u32 (Z.lnot (u32 (Z.shiftl (2 ^ 32 - 1) (reduce_info_size s)))))).

Definition get_red (index : nat) (s : st) : option red := mjoin (reduce_info s !! index).
Definition put_red (index : nat) (r : red) (s : st) : st := set_info (<[index := Some r]> (reduce_info s)) s.

Definition no_ops : red_ops := mk_ops NULL NULL NULL NULL.

(** The new block: [malloc], the three fields that are set, and the [memcpy]
    of the old block and its entries. *)
Definition grow_red (id : Z) (n : nat) (old : option red) : red :=
  match old with
  | None => mk_red None [] n 0 n 0 (u16 id) false no_ops
  | Some r => mk_red (localData r) (remoteData r) n (localSize r) n (red_parent r) (seqID r)
                (localContributed r) (ops r)
  end.

(** The reduction is returned by its index in the table. *)
Definition CmiGetReductionCreate (id : Z) (numChildren_ : nat) (s : st) : outcome (st * nat) :=
  let index := red_index id s in
  let r := get_red index s in
  _ ← CmiAssert (match r with Some r => (seqID r =? id)%Z | None => true end);
  if match r with None => true | Some r => numChildren r <? numChildren_ end then
    _ ← CmiAssert (match r with None => true | Some r => negb (localContributed r) end);
    let n := if numChildren_ =? 0 then 4 else numChildren_ in
    Normal (put_red index (grow_red id n r) s, index)
  else Normal (s, index).

Definition CmiGetReduction (id : Z) (s : st) : outcome (st * nat) := CmiGetReductionCreate id 0 s.

Definition CmiClearReduction (id : Z) (s : st) : st :=
  set_info (<[red_index id s := None]> (reduce_info s)) s.

Definition CmiGetNextReduction (numChildren : nat) (s : st) : outcome (st * nat) :=
  let id := seqID_global s in
  let s := set_seq_global (u16 (seqID_global s + CmiReductionID_multiplier)) s in
  let s := if (65520 <? id)%Z then set_seq_global CmiReductionID_globalOffset s else s in
  CmiGetReductionCreate id numChildren s.

Definition CmiGetGlobalReduction (s : st) : st * Z :=
  let id := u16 (seqID_request s + CmiReductionID_multiplier) in
  (mk_rst (reduce_info s) (reduce_info_size s) (seqID_global s) id (seqID_dynamic s) (effects s), id).

Definition CmiGetDynamicReduction (s : st) : outcome (st * Z) :=
  _ ← CmiAssert (my_pe =? 0)%Z;
  let id := u16 (seqID_dynamic s + CmiReductionID_multiplier) in
  Normal (mk_rst (reduce_info s) (reduce_info_size s) (seqID_global s) (seqID_request s) id (effects s), id).

Definition CmiResetGlobalReduceSeqID (s : st) : st := set_seq_global 0 s.

(** [red] is the reduction at [index]; nothing happens until the local data
    and the data of every child are there. *)
Definition CmiSendReduce (index : nat) (s : st) : outcome st :=
  match get_red index s with
  | None => Aborted
  | Some r =>
      if negb (localContributed r) || negb (numChildren r =? length (remoteData r)) then Normal s
      else
        match localData r with
        | None => Aborted
        | Some local =>
            let '(msg_size, mergedData) :=
              if 0 <? numChildren r then merge_data (mergeFn (ops r)) (localSize r) local (remoteData r)
              else (localSize r, local) in
            let s :=
              if negb (red_parent r =? -1)%Z then
                if negb (pupFn (ops r) =? NULL)%Z then
                  let msg_size := (pup_size (pupFn (ops r)) mergedData + CmiReservedHeaderSize)%Z in
                  let msg := pup_data (pupFn (ops r)) mergedData in
                  let s := if negb (deleteFn (ops r) =? NULL)%Z then emit (RDelete (deleteFn (ops r)) local) s else s in
                  emit (RSend (red_parent r) msg_size (seqID r) msg) s
                else emit (RSend (red_parent r) msg_size (seqID r) mergedData) s
              else emit (RDestination (destination (ops r)) mergedData) s in
            Normal (CmiClearReduction (seqID r) s)
        end
  end.

(** Filling in the local contribution of the reduction at [index]. *)
Definition contribute (index : nat) (data : D) (size : Z) (children : nat) (parent : Z) (o : red_ops) (s : st) :
    outcome st :=
  match get_red index s with
  | None => Aborted
  | Some r =>
      _ ← CmiAssert (negb (localContributed r));
      Normal (put_red index (mk_red (Some data) (remoteData r) (red_cap r) size children parent (seqID r) true o) s)
  end.

(** [CmiGlobalReduce]; [dest] is [CmiGetHandlerFunction(msg)]. *)
Definition CmiGlobalReduce (msg : D) (size : Z) (dest mergeFn : ptr) (index : nat) (s : st) : outcome st :=
  s ← contribute index msg size my_num_children my_parent (mk_ops dest mergeFn NULL NULL) s;
  CmiSendReduce index s.

Definition CmiGlobalReduceStruct (data : D) (pupFn mergeFn dest deleteFn : ptr) (index : nat) (s : st) : outcome st :=
  s ← contribute index data 0 my_num_children my_parent (mk_ops dest mergeFn pupFn deleteFn) s;
  CmiSendReduce index s.

Definition CmiReduce (msg : D) (size : Z) (dest mergeFn : ptr) (s : st) : outcome st :=
  '(s, red) ← CmiGetNextReduction my_num_children s;
  CmiGlobalReduce msg size dest mergeFn red s.

Definition CmiReduceStruct (data : D) (pupFn mergeFn dest deleteFn : ptr) (s : st) : outcome st :=
  '(s, red) ← CmiGetNextReduction my_num_children s;
  CmiGlobalReduceStruct data pupFn mergeFn dest deleteFn red s.

Definition CmiReduceID (msg : D) (size : Z) (dest mergeFn : ptr) (id : Z) (s : st) : outcome st :=
  '(s, red) ← CmiGetReductionCreate id my_num_children s;
  CmiGlobalReduce msg size dest mergeFn red s.

Definition CmiReduceStructID (data : D) (pupFn mergeFn dest deleteFn : ptr) (id : Z) (s : st) : outcome st :=
  '(s, red) ← CmiGetReductionCreate id my_num_children s;
  CmiGlobalReduceStruct data pupFn mergeFn dest deleteFn red s.

(** [for (myPos=0; myPos<npes; ++myPos) if (pes[myPos] == CmiMyPe()) break;] *)
Fixpoint find_pos (pes : list Z) (myPos : nat) : nat :=
  match pes with
  | [] => myPos
  | pe :: pes => if (pe =? my_pe)%Z then myPos else find_pos pes (S myPos)
  end.

(** The children of position [myPos] of a list of [npes] processors. *)
Definition list_children (npes myPos : nat) : nat :=
  let n := (Z.of_nat npes - Z.shiftl (Z.of_nat myPos) 2 - 1)%Z in
  let n := if (4 <? n)%Z then 4%Z else n in
  Z.to_nat (if (n <? 0)%Z then 0%Z else n).

Definition CmiListReduce (pes : list Z) (msg : D) (size : Z) (dest mergeFn : ptr) (id : Z) (s : st) : outcome st :=
  '(s, index) ← CmiGetReductionCreate id my_num_children s;
  let myPos := find_pos pes 0 in
  _ ← CmiAssert (myPos <? length pes);
  let parent := if myPos =? 0 then (-1)%Z else pes !!! Z.to_nat (Z.shiftr (Z.of_nat myPos - 1) 2) in
  s ← contribute index msg size (list_children (length pes) myPos) parent (mk_ops dest mergeFn NULL NULL) s;
  CmiSendReduce index s.

Definition CmiListReduceStruct (pes : list Z) (data : D) (pupFn mergeFn dest deleteFn : ptr) (id : Z) (s : st) :
    outcome st :=
  '(s, index) ← CmiGetReductionCreate id my_num_children s;
  let myPos := find_pos pes 0 in
  _ ← CmiAssert (myPos <? length pes);
  let parent := Z.shiftr (Z.of_nat myPos - 1) 2 in
  let parent := if myPos =? 0 then (-1)%Z else parent in
  s ← contribute index data 0 (list_children (length pes) myPos) parent (mk_ops dest mergeFn pupFn deleteFn) s;
  CmiSendReduce index s.

(** [red->remoteData[red->numRemoteReceived++] = msg] writes past the
    allocated entries when they are full. *)
Definition CmiHandleReductionMessage (id : Z) (msg : D) (s : st) : outcome st :=
  '(s, index) ← CmiGetReduction id s;
  match get_red index s with
  | None => Aborted
  | Some r =>
      '(s, index) ← (if length (remoteData r) =? numChildren r
                     then CmiGetReductionCreate id (numChildren r + 4) s else Normal (s, index));
      match get_red index s with
      | None => Aborted
      | Some r =>
          _ ← CmiAssert (length (remoteData r) <? red_cap r);
          CmiSendReduce index
            (put_red index (mk_red (localData r) (remoteData r ++ [msg]) (red_cap r) (localSize r) (numChildren r)
               (red_parent r) (seqID r) (localContributed r) (ops r)) s)
      end
  end.

(** A request for a dynamic number: the processor that asked (or -1), the
    handler of the answer and the data that comes back with it. *)
Record dyn_request := mk_dyn { dyn_pe : Z; dyn_handler : Z; dyn_data : list Z }.

Inductive dyn_effect :=
  | DynAnswer (pe handler id : Z) (data : list Z)
  | DynAnswerAll (handler id : Z) (data : list Z)
  | DynAsk (r : dyn_request).

Definition CmiReductionHandleDynamicRequest (r : dyn_request) (s : st) : outcome (st * dyn_effect) :=
  '(s, id) ← CmiGetDynamicReduction s;
  Normal (s, if (0 <=? dyn_pe r)%Z then DynAnswer (dyn_pe r) (dyn_handler r) id (dyn_data r)
             else DynAnswerAll (dyn_handler r) id (dyn_data r)).

(** Processor 0 answers at once, the others ask it. *)
Definition CmiGetDynamicReductionRemote (handlerIdx pe : Z) (data : list Z) (s : st) : outcome (st * dyn_effect) :=
  let r := mk_dyn pe handlerIdx data in
  if (my_pe =? 0)%Z then CmiReductionHandleDynamicRequest r s else Normal (s, DynAsk r).

(** Not implemented in the source. *)
Definition CmiNodeReduce (s : st) : outcome st := Aborted.
Definition CmiNodeReduceStruct (s : st) : outcome st := Aborted.

End ops.
