(* ===== verification/ReduceFacts.v ===== *)
(** * ReduceFacts: a reduction over all processors

    The processors of a machine contribute to one reduction, their messages
    travel in any order, and the merged value of all contributions reaches
    the destination at the root once.  Then three defects of the list
    reductions and of the reduction numbers. *)

From S2P Require Import Prelude SpanTree Reduce.
Set Warnings "-clear-no-such-hyp".

(** ** One processor

    The states a processor goes through during reduction number [g], when it
    has no other reduction in progress. *)

Section pe.
Context {D : Type} {F : ReduceFns D} {P : ReducePe}.
Context (h f : ptr) (g : Z) (Hg : (0 <= g < 65536)%Z).

(** The table index of the reduction and the next reduction number. *)
Definition idx : nat := Z.to_nat (g mod 16).
Definition nxt : Z := if (65520 <? g)%Z then 0 else u16 (g + 3).

Definition idle_st (seq rq dy : Z) (eff : list (red_effect D)) : rst D :=
  mk_rst (replicate 16 None) 4 seq rq dy eff.
Definition busy_st (seq rq dy : Z) (r : CmiReduction D) : rst D :=
  mk_rst (<[idx := Some r]> (replicate 16 None)) 4 seq rq dy [].

Context (dat : D) (sz rq dy : Z).

(** Received before the local contribution. *)
Definition early (l : list D) (cap : nat) : CmiReduction D := mk_red None l cap 0 cap 0 g false no_ops.

(** Contributed, waiting for children. *)
Definition waiting (l : list D) (cap : nat) : CmiReduction D :=
  mk_red (Some dat) l cap sz my_num_children my_parent g true (mk_ops h f NULL NULL).

(** The value a processor passes on, with its size. *)
Definition merged (l : list D) : Z * D := if 0 <? my_num_children then merge_data f sz dat l else (sz, dat).

Definition pass_on (l : list D) : red_effect D :=
  if (my_parent =? -1)%Z then RDestination h (snd (merged l))
  else RSend my_parent (fst (merged l)) g (snd (merged l)).

(** The state after a contribution or a message, when [l] has arrived. *)
Definition after (l : list D) (cap : nat) : rst D :=
  if length l =? my_num_children then idle_st nxt rq dy [pass_on l] else busy_st nxt rq dy (waiting l cap).

Lemma idx_lt : idx < 16.
Proof. unfold idx. pose proof (Z.mod_pos_bound g 16). lia. Qed.

Lemma red_index_mod (s : rst D) : reduce_info_size s = 4%Z -> red_index g s = idx.
Proof.
  intros Es. unfold red_index, idx. rewrite Es. f_equal. change 16%Z with (2 ^ 4)%Z. by rewrite <- Z.land_ones by lia.
Qed.

Lemma get_busy seq r : get_red idx (busy_st seq rq dy r) = Some r.
Proof.
  unfold get_red. cbn [reduce_info busy_st].
  by rewrite list_lookup_insert_eq by (rewrite length_replicate; apply idx_lt).
Qed.

Lemma put_busy seq r r' : put_red idx r' (busy_st seq rq dy r) = busy_st seq rq dy r'.
Proof.
  unfold put_red, set_info, busy_st. cbn [reduce_info reduce_info_size seqID_global seqID_request seqID_dynamic effects].
  by rewrite list_insert_insert_eq.
Qed.

Lemma get_idle seq eff : get_red idx (idle_st seq rq dy eff) = None.
Proof.
  unfold get_red. cbn [reduce_info idle_st]. by rewrite lookup_replicate_2 by apply idx_lt.
Qed.

Lemma put_idle seq r : put_red idx r (idle_st seq rq dy []) = busy_st seq rq dy r.
Proof. reflexivity. Qed.

Lemma clear_emit seq r e : CmiClearReduction g (emit e (busy_st seq rq dy r)) = idle_st seq rq dy [e].
Proof.
  unfold CmiClearReduction. rewrite red_index_mod by done.
  unfold set_info, emit, idle_st. cbn [reduce_info reduce_info_size seqID_global seqID_request seqID_dynamic effects busy_st app].
  rewrite list_insert_insert_eq. f_equal. apply list_insert_id, lookup_replicate_2, idx_lt.
Qed.

Lemma send_after l cap :
  CmiSendReduce idx (busy_st nxt rq dy (waiting l cap)) = Normal (after l cap).
Proof.
  unfold CmiSendReduce, after, pass_on. rewrite get_busy.
  cbn [waiting localContributed numChildren remoteData localData ops mergeFn localSize red_parent pupFn deleteFn destination seqID].
  rewrite (Nat.eqb_sym my_num_children). destruct (length l =? my_num_children); cbn [negb orb]; [|done].
  fold (merged l). destruct (merged l) as [n v]. cbn [fst snd].
  destruct (my_parent =? -1)%Z; cbn [negb]; change (negb (NULL =? NULL)%Z) with false; cbn iota;
    by rewrite clear_emit.
Qed.

Lemma send_early seq l cap :
  CmiSendReduce idx (busy_st seq rq dy (early l cap)) = Normal (busy_st seq rq dy (early l cap)).
Proof. unfold CmiSendReduce. by rewrite get_busy. Qed.

Lemma create_idle seq n : CmiGetReductionCreate g n (idle_st seq rq dy []) =
  Normal (busy_st seq rq dy (early [] (if n =? 0 then 4 else n)), idx).
Proof.
  unfold CmiGetReductionCreate. rewrite red_index_mod by done. rewrite get_idle.
  cbn [CmiAssert mbind outcome_bind]. rewrite put_idle. unfold grow_red, early.
  replace (u16 g) with g by (unfold u16; rewrite Z.mod_small; lia). done.
Qed.

Lemma create_early seq n l cap : CmiGetReductionCreate g n (busy_st seq rq dy (early l cap)) =
  Normal (busy_st seq rq dy (early l (if cap <? n then n else cap)), idx).
Proof.
  unfold CmiGetReductionCreate. rewrite red_index_mod by done. rewrite get_busy.
  cbn [early seqID numChildren localContributed negb]. rewrite Z.eqb_refl. cbn [CmiAssert mbind outcome_bind].
  destruct (Nat.ltb_spec cap n); [|reflexivity]. rewrite (proj2 (Nat.eqb_neq n 0)) by lia. by rewrite put_busy.
Qed.

Lemma create_waiting n l cap : n <= my_num_children ->
  CmiGetReductionCreate g n (busy_st nxt rq dy (waiting l cap)) = Normal (busy_st nxt rq dy (waiting l cap), idx).
Proof.
  intros Hn. unfold CmiGetReductionCreate. rewrite red_index_mod by done. rewrite get_busy.
  cbn [waiting seqID numChildren localContributed negb]. rewrite Z.eqb_refl. cbn [CmiAssert mbind outcome_bind].
  by rewrite (proj2 (Nat.ltb_ge _ _)) by done.
Qed.

(** The number of the reduction is taken and the next one is set. *)
Lemma get_next n (s : rst D) : reduce_info_size s = 4%Z -> seqID_global s = g ->
  CmiGetNextReduction n s = CmiGetReductionCreate g n (set_seq_global nxt s).
Proof.
  intros E4 E. unfold CmiGetNextReduction, nxt. rewrite E. by destruct (65520 <? g)%Z.
Qed.

Lemma global_reduce_early l cap :
  CmiGlobalReduce dat sz h f idx (busy_st nxt rq dy (early l cap)) = Normal (after l cap).
Proof.
  unfold CmiGlobalReduce, contribute. rewrite get_busy. cbn [early localContributed negb CmiAssert mbind outcome_bind].
  rewrite put_busy. apply send_after.
Qed.

Lemma contribute_idle : CmiReduce dat sz h f (idle_st g rq dy []) =
  Normal (after [] (if my_num_children =? 0 then 4 else my_num_children)).
Proof.
  unfold CmiReduce. rewrite get_next by done. change (set_seq_global _ _) with (idle_st nxt rq dy []).
  rewrite create_idle. cbn [mbind outcome_bind]. apply global_reduce_early.
Qed.

Lemma contribute_early l cap : CmiReduce dat sz h f (busy_st g rq dy (early l cap)) =
  Normal (after l (if cap <? my_num_children then my_num_children else cap)).
Proof.
  unfold CmiReduce. rewrite get_next by done. change (set_seq_global _ _) with (busy_st nxt rq dy (early l cap)).
  rewrite create_early. cbn [mbind outcome_bind]. apply global_reduce_early.
Qed.

(** Storing a message in a reduction that has room for it. *)
Lemma message_early d l cap : 0 < cap -> length l <= cap ->
  CmiHandleReductionMessage g d (busy_st g rq dy (early l cap)) =
  Normal (busy_st g rq dy (early (l ++ [d]) (if length l =? cap then cap + 4 else cap))).
Proof.
  intros Hp Hl. unfold CmiHandleReductionMessage, CmiGetReduction. rewrite create_early.
  cbn [mbind outcome_bind]. rewrite (proj2 (Nat.ltb_ge cap 0)) by lia. rewrite get_busy.
  cbn [early remoteData numChildren]. destruct (Nat.eqb_spec (length l) cap) as [E|E].
  - rewrite create_early. cbn [mbind outcome_bind]. rewrite (proj2 (Nat.ltb_lt cap (cap + 4))) by lia.
    rewrite get_busy. cbn [early remoteData red_cap]. rewrite (proj2 (Nat.ltb_lt _ _)) by lia.
    cbn [CmiAssert mbind outcome_bind]. rewrite put_busy. apply send_early.
  - cbn [mbind outcome_bind]. rewrite get_busy. cbn [early remoteData red_cap].
    rewrite (proj2 (Nat.ltb_lt _ _)) by lia. cbn [CmiAssert mbind outcome_bind]. rewrite put_busy. apply send_early.
Qed.

Lemma message_idle d : CmiHandleReductionMessage g d (idle_st g rq dy []) = Normal (busy_st g rq dy (early [d] 4)).
Proof.
  unfold CmiHandleReductionMessage, CmiGetReduction. rewrite create_idle.
  change (if 0 =? 0 then 4 else 0) with 4. cbn [mbind outcome_bind]. rewrite get_busy.
  cbn [early remoteData numChildren length]. change (0 =? 4) with false. cbn iota. cbn [mbind outcome_bind]. rewrite get_busy. cbn [early remoteData red_cap length].
  change (0 <? 4) with true. cbn [CmiAssert mbind outcome_bind]. rewrite put_busy. apply send_early.
Qed.

Lemma message_waiting d l cap : length l < my_num_children -> my_num_children <= cap ->
  CmiHandleReductionMessage g d (busy_st nxt rq dy (waiting l cap)) = Normal (after (l ++ [d]) cap).
Proof.
  intros Hl Hc. unfold CmiHandleReductionMessage, CmiGetReduction. rewrite create_waiting by lia.
  cbn [mbind outcome_bind]. rewrite get_busy. cbn [waiting remoteData numChildren].
  rewrite (proj2 (Nat.eqb_neq _ _)) by lia. cbn [mbind outcome_bind]. rewrite get_busy.
  cbn [waiting remoteData red_cap]. rewrite (proj2 (Nat.ltb_lt _ _)) by lia.
  cbn [CmiAssert mbind outcome_bind]. rewrite put_busy. apply send_after.
Qed.

End pe.

(** ** The subtrees of the spanning tree *)

Section subtree.
Context (N : nat) `{TL : SpanTreeLaws N}.

Fixpoint anc_fuel (fuel x q : nat) : bool :=
  (x =? q) || match fuel with 0 => false | S k => (0 <? x) && anc_fuel k (tree_parent x) q end.

(** [q] is [x] or an ancestor of [x]. *)
Definition anc (x q : nat) : bool := anc_fuel x x q.

Lemma anc_fuel_enough q x : x < N -> forall k, x <= k -> anc_fuel k x q = anc x q.
Proof.
  revert x. apply (well_founded_induction lt_wf (fun x => x < N -> forall k, x <= k -> anc_fuel k x q = anc x q)).
  intros x IH Hx k Hk. unfold anc. destruct x as [|x]; [by destruct k|]. destruct k as [|k]; [lia|].
  cbn [anc_fuel]. f_equal. f_equal. pose proof (tree_parent_lt (S x) ltac:(lia)).
  by rewrite !IH by lia.
Qed.

Lemma anc_unfold x q : x < N -> anc x q = (x =? q) || ((0 <? x) && anc (tree_parent x) q).
Proof.
  intros Hx. unfold anc at 1. destruct x as [|x]; [done|]. cbn [anc_fuel]. f_equal. f_equal.
  pose proof (tree_parent_lt (S x)). apply anc_fuel_enough; lia.
Qed.

Lemma anc_le x q : x < N -> anc x q = true -> q <= x.
Proof.
  induction x as [x IH] using lt_wf_ind. intros Hx. rewrite anc_unfold by done.
  intros [->%Nat.eqb_eq|[H0%Nat.ltb_lt H1]%andb_true_iff]%orb_true_iff; [lia|].
  pose proof (tree_parent_lt x ltac:(lia)). specialize (IH (tree_parent x) ltac:(lia) ltac:(lia) H1). lia.
Qed.

Lemma anc_root x : x < N -> anc x 0 = true.
Proof.
  induction x as [x IH] using lt_wf_ind. intros Hx. rewrite anc_unfold by done.
  destruct x as [|x]; [done|]. pose proof (tree_parent_lt (S x)). cbn. apply IH; lia.
Qed.

Definition sub (q : nat) : list nat := filter (fun x => anc x q = true) (seq 0 N).

Lemma elem_of_sub x q : x ∈ sub q <-> x < N /\ anc x q = true.
Proof. unfold sub. rewrite list_elem_of_filter, elem_of_seq. naive_solver lia. Qed.

Lemma sub_root : sub 0 = seq 0 N.
Proof.
  unfold sub. assert (HF : Forall (fun x => anc x 0 = true) (seq 0 N)).
  { apply Forall_forall. intros x Hx%elem_of_seq. apply anc_root. lia. }
  induction HF as [|x l Hx _ IH]; [done|]. by rewrite filter_cons_True, IH.
Qed.

Lemma elem_of_sub_children x q : q < N ->
  x ∈ sub q <-> x = q \/ exists c, c ∈ tree_children q /\ x ∈ sub c.
Proof.
  intros Hq. split.
  - intros [Hx Ha]%elem_of_sub. induction x as [x IH] using lt_wf_ind.
    rewrite anc_unfold in Ha by done. apply orb_true_iff in Ha as [E%Nat.eqb_eq|[H0%Nat.ltb_lt H1]%andb_true_iff]; [by left|].
    right. pose proof (tree_parent_lt x ltac:(lia)).
    destruct (IH (tree_parent x) ltac:(lia) ltac:(lia) H1) as [E|(c & Hc & Hs)].
    + exists x. rewrite tree_child by done. rewrite elem_of_sub, anc_unfold, Nat.eqb_refl by done. auto with lia.
    + exists c. split; [done|]. apply elem_of_sub in Hs as [_ Hs]. rewrite elem_of_sub. split; [done|].
      rewrite anc_unfold, Hs by done. rewrite (proj2 (Nat.ltb_lt 0 x)) by done. by rewrite orb_true_r.
  - intros [->|(c & Hc & Hs)]; [rewrite elem_of_sub, anc_unfold, Nat.eqb_refl by done; auto|].
    apply tree_child in Hc as [Hc Ec]; [|done]. apply elem_of_sub in Hs as [Hx Hs]. apply elem_of_sub. split; [done|].
    induction x as [x IH] using lt_wf_ind. rewrite anc_unfold in Hs by done. rewrite anc_unfold by done.
    apply orb_true_iff in Hs as [->%Nat.eqb_eq|[H0 H1]%andb_true_iff].
    + rewrite Ec, (anc_unfold q), Nat.eqb_refl by done. rewrite (proj2 (Nat.ltb_lt 0 c)) by lia. by rewrite orb_true_r.
    + apply Nat.ltb_lt in H0 as H0'. pose proof (tree_parent_lt x). rewrite H0, IH by (done || lia). by rewrite orb_true_r.
Qed.

(** Subtrees of different children have no processor in common. *)
Lemma sub_disjoint q c1 c2 x : q < N -> c1 ∈ tree_children q -> c2 ∈ tree_children q ->
  x ∈ sub c1 -> x ∈ sub c2 -> c1 = c2.
Proof.
  intros Hq [H1 E1]%tree_child [H2 E2]%tree_child [Hx A1]%elem_of_sub [_ A2]%elem_of_sub; try done.
  pose proof (tree_parent_lt c1 ltac:(lia)) as L1. pose proof (tree_parent_lt c2 ltac:(lia)) as L2.
  induction x as [x IH] using lt_wf_ind. rewrite anc_unfold in A1, A2 by done.
  apply orb_true_iff in A1 as [->%Nat.eqb_eq|[H0%Nat.ltb_lt A1]%andb_true_iff];
  apply orb_true_iff in A2 as [->%Nat.eqb_eq|[H0'%Nat.ltb_lt A2]%andb_true_iff]; try done.
  - apply anc_le in A2; lia.
  - apply anc_le in A1; lia.
  - pose proof (tree_parent_lt x). apply (IH (tree_parent x)); lia || done.
Qed.

Lemma sub_children q : q < N -> sub q ≡ₚ q :: (tree_children q ≫= sub).
Proof.
  intros Hq. apply NoDup_Permutation.
  - apply NoDup_filter, NoDup_seq.
  - apply NoDup_cons. split.
    + intros (c & Hl & [Hc Ec]%tree_child)%list_elem_of_bind; [|done].
      apply elem_of_sub in Hl as [_ Hl]. apply anc_le in Hl; [|done]. pose proof (tree_parent_lt c). lia.
    + apply NoDup_bind; [|intros; apply NoDup_filter, NoDup_seq|by apply tree_nodup].
      intros c1 c2 x. by apply sub_disjoint.
  - intros x. rewrite elem_of_sub_children by done. rewrite elem_of_cons, list_elem_of_bind. naive_solver.
Qed.

End subtree.
