(* ===== verification/ReduceMachine.v ===== *)
(** * ReduceMachine: the processors of a machine reducing together

    Every processor calls [CmiReduce] once, at any time, and the reduction
    messages are delivered in any order.  No processor aborts, the machine
    comes to rest, and the destination has then been called once, at the
    root, with the contributions of all processors merged. *)

From stdpp Require Import functions.
From S2P Require Import Prelude SpanTree Reduce ReduceFacts.
Set Warnings "-clear-no-such-hyp".

Section machine.
Context {D : Type} {F : ReduceFns D} (N : nat) `{TL : SpanTreeLaws N}.

(** Header size, destination, merge function, number of the reduction, and
    the data and size each processor contributes. *)
Context (hdr : Z) (h f : ptr) (g : Z) (dat : nat -> D) (sz rq dy : nat -> Z).

Definition nch (p : nat) : nat := length (tree_children p).
Definition red_pe (p : nat) : ReducePe := {|
  my_pe := Z.of_nat p; my_num_children := nch p;
  my_parent := if p =? 0 then (-1)%Z else Z.of_nat (tree_parent p);
  CmiReservedHeaderSize := hdr |}.

(** The processors, the messages in flight (destination, reduction number,
    data), the calls of destinations, and who has contributed. *)
Record mach := mk_mach {
  rpes : nat -> rst D;
  rnet : list (Z * Z * D);
  rcalled : list (ptr * D);
  contributed : nat -> bool
}.

Definition sends (l : list (red_effect D)) : list (Z * Z * D) :=
  omap (fun e => match e with RSend pe _ id d => Some (pe, id, d) | _ => None end) l.
Definition calls (l : list (red_effect D)) : list (ptr * D) :=
  omap (fun e => match e with RDestination h d => Some (h, d) | _ => None end) l.

Definition clear_effects (s : rst D) : rst D :=
  mk_rst (reduce_info s) (reduce_info_size s) (seqID_global s) (seqID_request s) (seqID_dynamic s) [].

(** What processor [p] did is taken over into the machine. *)
Definition settle (p : nat) (net : list (Z * Z * D)) (s : rst D) (c : nat -> bool) (m : mach) : mach :=
  mk_mach (<[p := clear_effects s]> (rpes m)) (net ++ sends (effects s)) (rcalled m ++ calls (effects s)) c.

Inductive revent := Contribute (p : nat) | Deliver (i : nat).

Definition can_do (e : revent) (m : mach) : bool :=
  match e with
  | Contribute p => (p <? N) && negb (contributed m p)
  | Deliver i => i <? length (rnet m)
  end.

Definition rstep (e : revent) (m : mach) : outcome mach :=
  match e with
  | Contribute p =>
      s ← @CmiReduce D F (red_pe p) (dat p) (sz p) h f (rpes m p);
      Normal (settle p (rnet m) s (<[p := true]> (contributed m)) m)
  | Deliver i =>
      match rnet m !! i with
      | None => Aborted
      | Some (dst, id, d) =>
          let p := Z.to_nat dst in
          s ← @CmiHandleReductionMessage D F (red_pe p) id d (rpes m p);
          Normal (settle p (delete i (rnet m)) s (contributed m) m)
      end
  end.

Definition rinit : mach := mk_mach (fun p => idle_st g (rq p) (dy p) []) [] [] (fun _ => false).

Inductive rreach : list revent -> mach -> Prop :=
  | rreach_init : rreach [] rinit
  | rreach_step es m e m' : rreach es m -> can_do e m = true -> rstep e m = Normal m' -> rreach (es ++ [e]) m'.

(** The merge function folds an associative and commutative operation. *)
Context (op : D -> D -> D) `{!Assoc (=) op, !Comm (=) op}.
Context (Hmerge : forall n a l, snd (merge_data f n a l) = foldr op a l).
Context (Hg : (0 <= g < 65536)%Z).

(** ** The merged value of a set of processors *)

Definition oop (a b : option D) : option D :=
  match a, b with Some x, Some y => Some (op x y) | None, y => y | x, None => x end.

#[local] Instance oop_assoc : Assoc (=) oop.
Proof. intros [x|] [y|] [z|]; cbn; try done. by rewrite (assoc_L op). Qed.
#[local] Instance oop_comm : Comm (=) oop.
Proof. intros [x|] [y|]; cbn; try done. by rewrite (comm_L op). Qed.

Definition tot (l : list nat) : option D := foldr (fun p => oop (Some (dat p))) None l.

Lemma tot_cons p l : tot (p :: l) = oop (Some (dat p)) (tot l).
Proof. done. Qed.

Lemma tot_app l1 l2 : tot (l1 ++ l2) = oop (tot l1) (tot l2).
Proof. induction l1 as [|p l1 IH]; [done|]. cbn [app]. rewrite !tot_cons, IH. by rewrite (assoc_L oop). Qed.

#[local] Instance tot_proper : Proper ((≡ₚ) ==> (=)) tot.
Proof.
  intros l1 l2 HP. induction HP as [|p l1 l2 _ IH|p q l| l1 l2 l3 _ IH1 _ IH2]; rewrite ?tot_cons; [done| | |congruence].
  - by rewrite IH.
  - rewrite !(assoc_L oop). by rewrite (comm_L oop (Some (dat p))).
Qed.

(** [d] is the merged value of the subtree of [q]. *)
Definition val (q : nat) (d : D) : Prop := tot (sub N q) = Some d.

Lemma foldr_vals a qs ds : Forall2 val qs ds ->
  Some (foldr op a ds) = oop (Some a) (tot (qs ≫= sub N)).
Proof.
  induction 1 as [|q d qs ds Hq _ IH]; [done|]. cbn [foldr bind_cons mbind list_bind].
  rewrite tot_app, Hq. rewrite (assoc_L oop), (comm_L oop (Some a)), <- (assoc_L oop), <- IH. done.
Qed.

Lemma merged_val p qs ds : p < N -> qs ≡ₚ tree_children p -> Forall2 val qs ds ->
  val p (snd (@merged D F (red_pe p) f (dat p) (sz p) ds)).
Proof.
  intros Hp HP HF. unfold val. rewrite (sub_children N p Hp), <- HP, tot_cons.
  rewrite <- (foldr_vals (dat p) qs ds HF). unfold merged. cbn [my_num_children red_pe]. unfold nch. rewrite <- HP.
  rewrite (Forall2_length _ _ _ HF). destruct ds as [|d ds]; [done|].
  change (0 <? length (d :: ds)) with true. cbn iota. by rewrite Hmerge.
Qed.

(** ** One processor during the reduction *)

(** [srcs] are the children whose values have arrived. *)
Definition pe_ok (p : nat) (c : bool) (srcs : list nat) (s : rst D) : Prop :=
  if c then
    if length srcs =? nch p then s = idle_st (nxt g) (rq p) (dy p) []
    else exists ds cap, nch p <= cap /\ Forall2 val srcs ds /\
           s = busy_st g (nxt g) (rq p) (dy p) (@waiting D (red_pe p) h f g (dat p) (sz p) ds cap)
  else
    match srcs with
    | [] => s = idle_st g (rq p) (dy p) []
    | _ => exists ds cap, 0 < cap /\ length ds <= cap /\ Forall2 val srcs ds /\
             s = busy_st g g (rq p) (dy p) (early g ds cap)
    end.

(** What [p] puts out when its last value arrives, nothing before. *)
Definition out (p : nat) (srcs : list nat) (l : list (red_effect D)) : Prop :=
  if length srcs =? nch p then
    exists d n, val p d /\ l = [if p =? 0 then RDestination h d else RSend (Z.of_nat (tree_parent p)) n g d]
  else l = [].

Definition arrived (p : nat) (srcs : list nat) : Prop := NoDup srcs /\ srcs ⊆ tree_children p.

Lemma arrived_le p srcs : arrived p srcs -> length srcs <= nch p.
Proof. intros [Hn Hs]. unfold nch. apply submseteq_length, NoDup_submseteq; auto. Qed.

Lemma arrived_all p srcs : arrived p srcs -> length srcs = nch p -> srcs ≡ₚ tree_children p.
Proof. intros [Hn Hs] E. apply submseteq_length_Permutation; [by apply NoDup_submseteq|unfold nch in E; lia]. Qed.

Lemma after_ok p srcs ds cap : p < N -> arrived p srcs -> Forall2 val srcs ds -> nch p <= cap ->
  let s := @after D F (red_pe p) h f g (dat p) (sz p) (rq p) (dy p) ds cap in
  pe_ok p true srcs (clear_effects s) /\ out p srcs (effects s).
Proof.
  intros Hp Ha HF Hc s. unfold pe_ok, out, s, after. cbn [my_num_children red_pe].
  rewrite <- (Forall2_length _ _ _ HF). destruct (Nat.eqb_spec (length srcs) (nch p)) as [E|E].
  - split; [done|]. pose proof (merged_val p srcs ds Hp (arrived_all _ _ Ha E) HF) as Hv.
    eexists _, _. split; [exact Hv|]. cbn [effects idle_st]. f_equal. unfold pass_on. cbn [my_parent red_pe].
    destruct (Nat.eqb_spec p 0); [done|]. rewrite (proj2 (Z.eqb_neq _ _)) by lia. reflexivity.
  - split; [|done]. exists ds, cap. done.
Qed.

Lemma pe_contribute p srcs s : p < N -> arrived p srcs -> pe_ok p false srcs s ->
  exists s', @CmiReduce D F (red_pe p) (dat p) (sz p) h f s = Normal s' /\
    pe_ok p true srcs (clear_effects s') /\ out p srcs (effects s').
Proof.
  intros Hp Ha Hs. destruct srcs as [|q srcs].
  - cbn in Hs. subst s. eexists. split; [by apply contribute_idle|]. apply after_ok; auto.
    cbn [my_num_children red_pe]. destruct (Nat.eqb_spec (nch p) 0); lia.
  - destruct Hs as (ds & cap & Hc & Hl & HF & ->). eexists. split; [by apply contribute_early|]. apply after_ok; auto.
    cbn [my_num_children red_pe]. destruct (Nat.ltb_spec cap (nch p)); lia.
Qed.

Lemma pe_message p c srcs q d s : p < N -> arrived p (srcs ++ [q]) -> pe_ok p c srcs s -> val q d ->
  exists s', @CmiHandleReductionMessage D F (red_pe p) g d s = Normal s' /\
    pe_ok p c (srcs ++ [q]) (clear_effects s') /\
    (if c then out p (srcs ++ [q]) (effects s') else effects s' = []).
Proof.
  intros Hp Ha Hs Hv. pose proof (arrived_le _ _ Ha) as Hle. rewrite length_app in Hle. cbn in Hle. destruct c.
  - cbn in Hs. rewrite (proj2 (Nat.eqb_neq _ _)) in Hs by lia. destruct Hs as (ds & cap & Hc & HF & ->).
    pose proof (Forall2_length _ _ _ HF). eexists. split; [apply message_waiting; cbn [my_num_children red_pe]; lia || done|].
    apply after_ok; auto using Forall2_app.
  - destruct srcs as [|q0 srcs].
    + cbn in Hs. subst s. eexists. split; [by apply message_idle|]. split; [|done].
      exists [d], 4. cbn [length]. split; [lia|]. split; [lia|]. split; [by repeat constructor|done].
    + destruct Hs as (ds & cap & Hc & Hl & HF & ->). eexists. split; [by apply message_early|]. split; [|done].
      exists (ds ++ [d]), (if length ds =? cap then cap + 4 else cap). rewrite length_app. cbn [length].
      split; [destruct (_ =? _); lia|]. split; [destruct (Nat.eqb_spec (length ds) cap); lia|].
      split; [by apply Forall2_app; auto|done].
Qed.

(** ** The machine *)

(** The children of [p] among the delivered sources, in order of arrival. *)
Definition rcv (dl : list nat) (p : nat) : list nat := filter (fun q => tree_parent q = p) dl.

(** The messages of [src] are in flight, those of [dl] have been delivered,
    and exactly the processors of [fl] have passed their value on. *)
Record flight (fl : nat -> Prop) (src dl : list nat) (net : list (Z * Z * D)) (called : list (ptr * D)) : Prop := {
  fl_net : Forall2 (fun q x => exists d, val q d /\ x = (Z.of_nat (tree_parent q), g, d)) src net;
  fl_nodup : NoDup (src ++ dl);
  fl_elem q : q ∈ src ++ dl <-> 0 < q < N /\ fl q;
  fl_called : fl 0 -> exists d, val 0 d /\ called = [(h, d)];
  fl_not_called : ~ fl 0 -> called = []
}.

Lemma flight_ext fl fl' src dl net called : 0 < N -> (forall q, q < N -> fl q <-> fl' q) ->
  flight fl src dl net called -> flight fl' src dl net called.
Proof.
  intros HN E [F1 F2 F3 F4 F5]. split; [done|done| | |].
  - intros q. rewrite F3. split; intros [Hq Hf]; split; try apply E; try done; lia.
  - intros H0. apply F4, E; done.
  - intros H0. apply F5. intros H1. apply H0, E; done.
Qed.

Lemma flight_arrived fl src dl net called p : p < N -> flight fl src dl net called -> arrived p (rcv dl p).
Proof.
  intros Hp HF. pose proof (fl_nodup _ _ _ _ _ HF) as (_ & _ & Hn)%NoDup_app. split; [by apply NoDup_filter|].
  intros q [Eq Hq]%list_elem_of_filter. rewrite tree_child by done. split; [|done].
  apply (fl_elem _ _ _ _ _ HF q), elem_of_app. by right.
Qed.

(** A processor passes its value on. *)
Lemma flight_emit fl src dl net called p srcs l : p < N -> flight fl src dl net called -> ~ fl p ->
  length srcs = nch p -> out p srcs l ->
  exists src', flight (fun q => fl q \/ q = p) src' dl (net ++ sends l) (called ++ calls l).
Proof.
  intros Hp [F1 F2 F3 F4 F5] Hf El Ho. unfold out in Ho. rewrite (proj2 (Nat.eqb_eq _ _) El) in Ho.
  destruct Ho as (d & n & Hv & ->). destruct (Nat.eqb_spec p 0) as [->|H0].
  - exists src. rewrite (F5 Hf). cbn. rewrite app_nil_r. split; auto.
    + intros q. rewrite F3. intuition lia.
    + intros _. by exists d.
    + intros Hn. exfalso. auto.
  - exists (src ++ [p]). cbn. rewrite app_nil_r. split.
    + apply Forall2_app; [done|]. by repeat econstructor.
    + rewrite <- app_assoc, (Permutation_app_comm [p]), app_assoc. apply NoDup_app. split; [done|].
      split; [|apply NoDup_singleton]. intros q Hq ->%list_elem_of_singleton. by apply F3 in Hq as [_ Hq].
    + intros q. rewrite <- app_assoc, (Permutation_app_comm [p]), app_assoc, elem_of_app, F3, list_elem_of_singleton.
      split; [intros [[]| ->]; auto with lia|]. intros [Hq [Hfq|Eq]]; auto.
    + intros [Hq|Eq]; [by apply F4|lia].
    + intros Hn. apply F5. auto.
Qed.

(** The same, whether or not all values of the children are there. *)
Lemma flight_out fl src dl net called p srcs l : p < N -> flight fl src dl net called -> ~ fl p -> out p srcs l ->
  exists src', flight (fun q => fl q \/ (q = p /\ length srcs = nch p)) src' dl (net ++ sends l) (called ++ calls l).
Proof.
  intros Hp HF Hf Ho. destruct (decide (length srcs = nch p)) as [E|E].
  - destruct (flight_emit _ _ _ _ _ p srcs l Hp HF Hf E Ho) as [src' HF']. exists src'.
    eapply flight_ext; [lia| |exact HF']. intuition.
  - exists src. unfold out in Ho. rewrite (proj2 (Nat.eqb_neq _ _) E) in Ho. subst l. cbn. rewrite !app_nil_r.
    eapply flight_ext; [lia| |exact HF]. intuition.
Qed.

(** A message arrives. *)
Lemma flight_deliver fl src dl net called i x : flight fl src dl net called -> net !! i = Some x ->
  exists q d, x = (Z.of_nat (tree_parent q), g, d) /\ val q d /\ 0 < q < N /\
    flight fl (delete i src) (dl ++ [q]) (delete i net) called.
Proof.
  intros [F1 F2 F3 F4 F5] Hi. destruct (Forall2_lookup_r _ _ _ _ _ F1 Hi) as (q & Hq & d & Hv & ->).
  exists q, d. assert (HP : delete i src ++ dl ++ [q] ≡ₚ src ++ dl).
  { rewrite (delete_Permutation src i q Hq) at 2. rewrite app_assoc, Permutation_app_comm. done. }
  split; [done|]. split; [done|]. split.
  { apply F3, elem_of_app. left. by eapply list_elem_of_lookup_2. }
  split; [by apply Forall2_delete|by rewrite HP| |done|done]. intros q'. by rewrite HP, F3.
Qed.

(** ** Invariant *)

Definition passed (m : mach) (dl : list nat) (q : nat) : Prop :=
  contributed m q = true /\ length (rcv dl q) = nch q.

(** [cl] are the contributors, and [n] events have happened. *)
Record rinv (n : nat) (m : mach) (src dl cl : list nat) : Prop := {
  ri_flight : flight (passed m dl) src dl (rnet m) (rcalled m);
  ri_pe p : p < N -> pe_ok p (contributed m p) (rcv dl p) (rpes m p);
  ri_cl : NoDup cl;
  ri_contrib p : p ∈ cl <-> p < N /\ contributed m p = true;
  ri_count : n = length cl + length dl
}.

Lemma rinv_init : rinv 0 rinit [] [] [].
Proof.
  split; [|done|constructor| |done].
  - split; cbn; [done|constructor| | |done]; [|by intros []].
    intros q. rewrite elem_of_nil. split; [done|]. intros [_ []]. done.
  - intros p. cbn. rewrite elem_of_nil. split; [done|intros []; done].
Qed.

Lemma rcv_snoc dl q p : rcv (dl ++ [q]) p = if decide (tree_parent q = p) then rcv dl p ++ [q] else rcv dl p.
Proof.
  unfold rcv. rewrite filter_app.
  destruct (decide (tree_parent q = p)); [by rewrite filter_cons_True|].
  by rewrite filter_cons_False, filter_nil, app_nil_r.
Qed.

Lemma rinv_contribute n m src dl cl p : rinv n m src dl cl -> p < N -> contributed m p = false ->
  exists m' src', rstep (Contribute p) m = Normal m' /\ rinv (S n) m' src' dl (p :: cl).
Proof.
  intros [HF Hpe Hn Hcl Hc] Hp Ec. pose proof (Hpe p Hp) as Hs. rewrite Ec in Hs.
  destruct (pe_contribute p _ _ Hp (flight_arrived _ _ _ _ _ _ Hp HF) Hs) as (s' & Es & Hok & Ho).
  assert (Hnp : ~ passed m dl p) by (intros [E _]; congruence).
  destruct (flight_out _ _ _ _ _ p _ _ Hp HF Hnp Ho) as [src' HF'].
  eexists _, src'. cbn [rstep]. rewrite Es. cbn [mbind outcome_bind]. split; [done|]. split; cbn.
  - eapply flight_ext; [lia| |exact HF']. intros q Hq. unfold passed, settle. cbn.
    destruct (decide (q = p)) as [->|Hqp]; [rewrite fn_lookup_insert|rewrite fn_lookup_insert_ne by done]; naive_solver.
  - intros q Hq. destruct (decide (q = p)) as [->|Hqp]; [by rewrite !fn_lookup_insert|].
    rewrite !fn_lookup_insert_ne by done. auto.
  - constructor; [|done]. intros [_ E]%Hcl. congruence.
  - intros q. rewrite elem_of_cons, Hcl.
    destruct (decide (q = p)) as [->|Hqp]; [rewrite fn_lookup_insert|rewrite fn_lookup_insert_ne by done]; naive_solver.
  - lia.
Qed.

(** What the messages of a processor that has arrived values [dl] do. *)
Lemma rinv_deliver n m src dl cl i : rinv n m src dl cl -> i < length (rnet m) ->
  exists m' src' q, rstep (Deliver i) m = Normal m' /\ rinv (S n) m' src' (dl ++ [q]) cl.
Proof.
  intros [HF Hpe Hn Hcl Hc] [x Hx]%lookup_lt_is_Some_2.
  destruct (flight_deliver _ _ _ _ _ _ _ HF Hx) as (q & d & -> & Hv & Hq & HF1).
  pose proof (tree_parent_lt q Hq) as Hlt. set (p := tree_parent q) in *. assert (Hp : p < N) by lia.
  pose proof (flight_arrived _ _ _ _ _ _ Hp HF1) as Ha. rewrite rcv_snoc, decide_True in Ha by done.
  destruct (pe_message p _ _ q d _ Hp Ha (Hpe p Hp) Hv) as (s' & Es & Hok & Ho).
  assert (HF' : exists src', flight (passed (settle p (delete i (rnet m)) s' (contributed m) m) (dl ++ [q])) src'
    (dl ++ [q]) (delete i (rnet m) ++ sends (effects s')) (rcalled m ++ calls (effects s'))).
  { assert (Hpassed : forall r, r <> p -> passed m dl r <-> passed m (dl ++ [q]) r).
    { intros r Hr. unfold passed. rewrite rcv_snoc, decide_False by done. done. }
    destruct (contributed m p) eqn:Ec.
    - assert (Hnp : ~ passed m dl p).
      { intros [_ El]. apply arrived_le in Ha. rewrite length_app in Ha. cbn in Ha. lia. }
      destruct (flight_out _ _ _ _ _ p _ _ Hp HF1 Hnp Ho) as [src' HF']. exists src'.
      eapply flight_ext; [lia| |exact HF']. intros r Hr. cbn. destruct (decide (r = p)) as [->|Hrp].
      + unfold passed at 2. cbn. rewrite rcv_snoc, decide_True by done. intuition congruence.
      + rewrite Hpassed by done. change (passed (settle _ _ _ _ _)) with (passed m). tauto.
    - rewrite Ho. cbn. rewrite !app_nil_r. exists (delete i src). eapply flight_ext; [lia| |exact HF1].
      intros r Hr. destruct (decide (r = p)) as [->|Hrp]; [|rewrite Hpassed by done; done].
      unfold passed. cbn. rewrite Ec. intuition discriminate. }
  destruct HF' as [src' HF']. exists (settle p (delete i (rnet m)) s' (contributed m) m), src', q.
  cbn [rstep]. rewrite Hx. cbn zeta. rewrite Nat2Z.id, Es. split; [done|]. split; [done| |done|done|].
  - intros r Hr. cbn. destruct (decide (r = p)) as [->|Hrp].
    + by rewrite fn_lookup_insert, rcv_snoc, decide_True.
    + rewrite fn_lookup_insert_ne, rcv_snoc, decide_False by done. auto.
  - rewrite length_app. cbn. lia.
Qed.

Lemma rinv_reach es m : rreach es m -> exists src dl cl, rinv (length es) m src dl cl.
Proof.
  induction 1 as [|es m e m' _ (src & dl & cl & HI) Hcan Hst]; [exists [], [], []; apply rinv_init|].
  rewrite length_app, Nat.add_comm. destruct e as [p|i]; cbn [can_do] in Hcan.
  - apply andb_true_iff in Hcan as [Hp%Nat.ltb_lt Hc%negb_true_iff].
    destruct (rinv_contribute _ _ _ _ _ p HI Hp Hc) as (m1 & src' & E & HI'). rewrite Hst in E. simplify_eq. eauto.
  - apply Nat.ltb_lt in Hcan. destruct (rinv_deliver _ _ _ _ _ i HI Hcan) as (m1 & src' & q & E & HI').
    rewrite Hst in E. simplify_eq. eauto.
Qed.

(** When everybody has contributed and nothing is in flight, everybody has
    passed its value on. *)
Lemma rest_passed n m dl cl : rinv n m [] dl cl -> (forall p, p < N -> contributed m p = true) ->
  forall q, q < N -> passed m dl q.
Proof.
  intros HI Hall q. remember (N - q) as k eqn:Ek. revert q Ek.
  induction k as [k IH] using lt_wf_ind. intros q -> Hq. split; [by apply Hall|].
  apply Nat.le_antisymm; [apply arrived_le, (flight_arrived _ _ _ _ _ _ Hq (ri_flight _ _ _ _ _ HI))|].
  apply submseteq_length, NoDup_submseteq; [by apply tree_nodup|].
  intros c [Hc Ec]%tree_child; [|done]. apply list_elem_of_filter. split; [done|].
  pose proof (tree_parent_lt c Hc). apply (fl_elem _ _ _ _ _ (ri_flight _ _ _ _ _ HI) c). split; [done|].
  apply (IH (N - c)); lia.
Qed.

Lemma tot_foldr a l : oop (Some a) (tot l) = Some (foldr op a (dat <$> l)).
Proof.
  induction l as [|p l IH]; [done|]. rewrite tot_cons, (assoc_L oop), (comm_L oop (Some a)), <- (assoc_L oop), IH. done.
Qed.

Lemma val_root d : 0 < N -> val 0 d -> d = foldr op (dat 0) (dat <$> seq 1 (N - 1)).
Proof.
  intros HN. unfold val. rewrite sub_root by done. destruct N as [|k]; [lia|]. cbn [seq]. rewrite tot_cons, tot_foldr.
  rewrite Nat.sub_succ, Nat.sub_0_r. congruence.
Qed.

(** Nothing can happen any more. *)
Definition at_rest (m : mach) : Prop := forall e, can_do e m = false.

Lemma at_rest_all m : at_rest m -> rnet m = [] /\ forall p, p < N -> contributed m p = true.
Proof.
  intros Hr. split.
  - pose proof (Hr (Deliver 0)) as H0. cbn in H0. destruct (rnet m); [done|]. discriminate.
  - intros p Hp. pose proof (Hr (Contribute p)) as H0. cbn in H0. rewrite (proj2 (Nat.ltb_lt _ _) Hp) in H0.
    by apply negb_false_iff in H0.
Qed.

Definition all_done (m : mach) : bool := (length (rnet m) =? 0) && forallb (contributed m) (seq 0 N).

Lemma all_done_rest m : all_done m = true -> at_rest m.
Proof.
  intros [Hn%Nat.eqb_eq Hc]%andb_true_iff [p|i]; cbn [can_do]; [|rewrite Hn; by destruct i].
  destruct (Nat.ltb_spec p N) as [Hp|]; [|done]. cbn. apply negb_false_iff.
  rewrite forallb_forall in Hc. apply Hc, in_seq. lia.
Qed.

Lemma rinv_rest n m src dl cl : 0 < N -> rinv n m src dl cl -> at_rest m ->
  rcalled m = [(h, foldr op (dat 0) (dat <$> seq 1 (N - 1)))] /\
  forall p, p < N -> rpes m p = idle_st (nxt g) (rq p) (dy p) [].
Proof.
  intros HN HI [En Hall]%at_rest_all. pose proof (fl_net _ _ _ _ _ (ri_flight _ _ _ _ _ HI)) as Hnet.
  rewrite En in Hnet. apply Forall2_nil_inv_r in Hnet as ->. pose proof (rest_passed _ _ _ _ HI Hall) as Hp. split.
  - destruct (fl_called _ _ _ _ _ (ri_flight _ _ _ _ _ HI) (Hp 0 HN)) as (d & Hv & ->). by rewrite (val_root d HN Hv).
  - intros p Hlt. pose proof (ri_pe _ _ _ _ _ HI p Hlt) as Hs. destruct (Hp p Hlt) as [Hc El].
    unfold pe_ok in Hs. by rewrite Hc, (proj2 (Nat.eqb_eq _ _) El) in Hs.
Qed.

Lemma rinv_bound n m src dl cl : rinv n m src dl cl -> n <= 2 * N - 1.
Proof.
  intros [HF _ Hn Hcl ->]. assert (length cl <= N).
  { rewrite <- (length_seq N 0). apply submseteq_length, NoDup_submseteq; [done|].
    intros p [Hp _]%Hcl. apply elem_of_seq. lia. }
  assert (length dl <= N - 1); [|lia]. rewrite <- (length_seq (N - 1) 1).
  apply submseteq_length, NoDup_submseteq; [by pose proof (fl_nodup _ _ _ _ _ HF) as (_ & _ & ?)%NoDup_app|].
  intros q Hq. apply elem_of_seq. pose proof (fl_elem _ _ _ _ _ HF q) as [E _]. rewrite elem_of_app in E.
  destruct E as [Hlt _]; [by right|lia].
Qed.

Lemma rinv_called n m src dl cl : rinv n m src dl cl -> length (rcalled m) <= 1.
Proof.
  intros [[_ _ _ F4 F5] _ _ _ _]. destruct (decide (contributed m 0 = true)) as [Hc|Hc].
  - destruct (decide (length (rcv dl 0) = nch 0)) as [E|E].
    + destruct (F4 (conj Hc E)) as (d & _ & ->). done.
    + rewrite F5; [cbn; lia|]. intros [_ ?]. done.
  - rewrite F5; [cbn; lia|]. intros [? _]. done.
Qed.

(** Running a schedule. *)
Fixpoint rrun (es : list revent) (m : mach) : outcome mach :=
  match es with
  | [] => Normal m
  | e :: es => if can_do e m then m ← rstep e m; rrun es m else Aborted
  end.

Lemma rrun_reach es m es' m' : rreach es m -> rrun es' m = Normal m' -> rreach (es ++ es') m'.
Proof.
  revert es m. induction es' as [|e es' IH]; intros es m Hr E; cbn [rrun] in E.
  - simplify_eq. by rewrite app_nil_r.
  - destruct (can_do e m) eqn:Hc; [|done]. destruct (rstep e m) as [m1|] eqn:Es; [|done].
    rewrite cons_middle, app_assoc. eapply IH; [|exact E]. by eapply rreach_step.
Qed.

(** C34: a reduction over all processors is correct whatever the order in
    which the processors call [CmiReduce] and the messages arrive, for every
    spanning tree, every reduction number and every merge function that
    folds an associative and commutative operation.  No event ever aborts
    (so no table clash and no write past the stored messages), the
    destination handler is called at most once, there are at most [2N-1]
    events, and when none is left the handler has been called with the
    contributions of all processors merged, and every processor is ready for
    the next reduction number with an empty table. *)
Theorem reduction_correct es m : 0 < N -> rreach es m ->
  (forall e, can_do e m = true -> exists m', rstep e m = Normal m') /\
  length es <= 2 * N - 1 /\ length (rcalled m) <= 1 /\
  (at_rest m ->
     rcalled m = [(h, foldr op (dat 0) (dat <$> seq 1 (N - 1)))] /\
     forall p, p < N -> rpes m p = idle_st (nxt g) (rq p) (dy p) []).
Proof.
  intros HN (src & dl & cl & HI)%rinv_reach. split; [|split; [by eapply rinv_bound|split; [by eapply rinv_called|by eapply rinv_rest]]].
  intros [p|i] Hcan; cbn [can_do] in Hcan.
  - apply andb_true_iff in Hcan as [Hp%Nat.ltb_lt Hc%negb_true_iff].
    destruct (rinv_contribute _ _ _ _ _ p HI Hp Hc) as (m' & src' & E & _). eauto.
  - apply Nat.ltb_lt in Hcan. destruct (rinv_deliver _ _ _ _ _ i HI Hcan) as (m' & src' & q & E & _). eauto.
Qed.

End machine.

(** ** Example: three processors add their numbers

    Processor 0 has the child 1, and 1 has the child 2. *)

#[local] Instance add_fns : ReduceFns Z := {|
  merge_data _ n a l := (n, foldr Z.add a l); pup_size _ _ := 0%Z; pup_data _ d := d |}.
#[local] Instance three_pes : SpanTree := macro_tree 1 3 1.
#[local] Instance three_pes_laws : SpanTreeLaws 3 := macro_tree_laws 1 3 1 ltac:(lia) ltac:(lia).

Definition add_events : list revent :=
  [Contribute 2; Deliver 0; Contribute 0; Contribute 1; Deliver 0].
Definition add_run : outcome (@mach Z) :=
  rrun 3 64 1000 0 (fun p => Z.of_nat p + 10)%Z (fun _ => 80%Z) add_events
    (rinit 65523 (fun _ => 1%Z) (fun _ => 2%Z)).

Lemma reduction_correct_witness : exists m, add_run = Normal m /\ rcalled m = [(1000%Z, 33%Z)].
Proof.
  assert (Hd : match add_run with Normal m => all_done 3 m | Aborted => false end = true) by (vm_compute; reflexivity).
  destruct add_run as [m|] eqn:E; [|discriminate]. exists m. split; [done|].
  pose proof (rrun_reach 3 64 1000 0 65523 (fun p => Z.of_nat p + 10)%Z (fun _ => 80%Z) (fun _ => 1%Z) (fun _ => 2%Z)
    [] _ add_events m (rreach_init _ _ _ _ _ _ _ _ _) E) as Hr.
  refine (proj1 (proj2 (proj2 (proj2 (reduction_correct 3 64 1000 0 65523 (fun p => Z.of_nat p + 10)%Z
    (fun _ => 80%Z) (fun _ => 1%Z) (fun _ => 2%Z) Z.add (fun _ _ _ => eq_refl) ltac:(lia)
    ([] ++ add_events) m ltac:(lia) Hr))) (all_done_rest 3 m Hd))).
Defined.
