(* ===== verification/ReduceLists.v ===== *)
(** * ReduceLists: reductions over lists, and the reduction numbers

    Where a member of a list sends its contribution, how many messages of
    children a list reduction has room for, and how long the three classes
    of reduction numbers stay apart. *)

From S2P Require Import Prelude Reduce ReduceFacts.
Set Warnings "-clear-no-such-hyp".

Section lists.
Context {D : Type} {F : ReduceFns D} {P : ReducePe}.

(** This processor is at position [pos] of the list. *)
Definition at_pos (pes : list Z) (pos : nat) : Prop :=
  pes !! pos = Some my_pe /\ forall i, i < pos -> pes !! i <> Some my_pe.

Lemma find_pos_spec pes pos k : at_pos pes pos -> find_pos pes k = k + pos.
Proof.
  revert pos k. induction pes as [|pe pes IH]; intros pos k [Hp Hb]; [done|]. cbn [find_pos].
  destruct pos as [|pos].
  - cbn in Hp. injection Hp as ->. rewrite Z.eqb_refl. lia.
  - destruct (Z.eqb_spec pe my_pe) as [->|_]; [by destruct (Hb 0); [lia|]|].
    rewrite (IH pos); [lia|]. split; [done|]. intros i Hi. apply (Hb (S i)). lia.
Qed.

(** The list reduction of number [g] that a processor at [pos] has started. *)
Definition list_red (g : Z) (data : D) (size : Z) (children cap : nat) (parent : Z) (o : red_ops) (l : list D) :
    CmiReduction D :=
  mk_red (Some data) l cap size children parent g true o.

Context (g rq dy seq : Z) (Hg : (0 <= g < 65536)%Z).

Definition cap0 : nat := if my_num_children =? 0 then 4 else my_num_children.

Lemma contribute_new data size children parent o cap :
  contribute (idx g) data size children parent o (busy_st g seq rq dy (early g [] cap)) =
  Normal (busy_st g seq rq dy (list_red g data size children cap parent o [])).
Proof. unfold contribute. rewrite get_busy. cbn [early localContributed negb CmiAssert mbind outcome_bind]. by rewrite put_busy. Qed.

(** [(myPos - 1) >> 2] *)
Lemma parent_pos pos : pos <> 0 -> Z.shiftr (Z.of_nat pos - 1) 2 = Z.of_nat ((pos - 1) / 4).
Proof.
  intros E. rewrite Z.shiftr_div_pow2 by lia. change (2 ^ 2)%Z with (Z.of_nat 4).
  replace (Z.of_nat pos - 1)%Z with (Z.of_nat (pos - 1)) by lia. by rewrite Nat2Z.inj_div.
Qed.

Lemma list_reduce_starts pes pos msg size dest mergeFn : at_pos pes pos ->
  CmiListReduce pes msg size dest mergeFn g (idle_st seq rq dy []) =
  CmiSendReduce (idx g) (busy_st g seq rq dy
    (list_red g msg size (list_children (length pes) pos) cap0
       (if pos =? 0 then (-1)%Z else pes !!! ((pos - 1) / 4)) (mk_ops dest mergeFn NULL NULL) [])).
Proof.
  intros Hp. unfold CmiListReduce. rewrite create_idle by done. cbn [mbind outcome_bind].
  rewrite (find_pos_spec pes pos 0 Hp). rewrite (proj2 (Nat.ltb_lt _ _)) by (destruct Hp as [E _]; by apply lookup_lt_Some in E).
  cbn [CmiAssert mbind outcome_bind]. rewrite contribute_new. cbn [mbind outcome_bind]. cbn [Nat.add]. fold cap0.
  destruct (Nat.eqb_spec pos 0) as [E|E]; [done|]. by rewrite parent_pos, Nat2Z.id.
Qed.

Lemma list_reduce_struct_starts pes pos data pupFn mergeFn dest deleteFn : at_pos pes pos ->
  CmiListReduceStruct pes data pupFn mergeFn dest deleteFn g (idle_st seq rq dy []) =
  CmiSendReduce (idx g) (busy_st g seq rq dy
    (list_red g data 0 (list_children (length pes) pos) cap0
       (if pos =? 0 then (-1)%Z else Z.of_nat ((pos - 1) / 4)) (mk_ops dest mergeFn pupFn deleteFn) [])).
Proof.
  intros Hp. unfold CmiListReduceStruct. rewrite create_idle by done. cbn [mbind outcome_bind].
  rewrite (find_pos_spec pes pos 0 Hp). rewrite (proj2 (Nat.ltb_lt _ _)) by (destruct Hp as [E _]; by apply lookup_lt_Some in E).
  cbn [CmiAssert mbind outcome_bind]. rewrite contribute_new. cbn [mbind outcome_bind]. cbn [Nat.add]. fold cap0.
  destruct (Nat.eqb_spec pos 0) as [E|E]; [done|]. by rewrite parent_pos.
Qed.

(** A member of the list that has no children and is not the first. *)
Definition list_leaf (pes : list Z) (pos : nat) : Prop := at_pos pes pos /\ 0 < pos /\ length pes <= 4 * pos + 1.

Lemma list_children_spec n pos : list_children n pos = Nat.min 4 (n - (4 * pos + 1)).
Proof.
  unfold list_children. rewrite Z.shiftl_mul_pow2 by lia. change (2 ^ 2)%Z with 4%Z.
  destruct (Z.ltb_spec 4 (Z.of_nat n - Z.of_nat pos * 4 - 1)).
  - change (4 <? 0)%Z with false. lia.
  - destruct (Z.ltb_spec (Z.of_nat n - Z.of_nat pos * 4 - 1) 0); lia.
Qed.

(** The effect of [CmiSendReduce] on a leaf of the list. *)
Lemma leaf_sends data size cap parent o : (parent =? -1)%Z = false -> deleteFn o = NULL ->
  CmiSendReduce (idx g) (busy_st g seq rq dy (list_red g data size 0 cap parent o [])) =
  Normal (idle_st seq rq dy
    [if (pupFn o =? NULL)%Z then RSend parent size g data
     else RSend parent (pup_size (pupFn o) data + CmiReservedHeaderSize) g (pup_data (pupFn o) data)]).
Proof.
  intros Hp Hd. unfold CmiSendReduce. rewrite get_busy.
  cbn [list_red localContributed numChildren remoteData localData ops localSize red_parent seqID negb orb length].
  change (0 =? 0) with true. change (0 <? 0) with false. cbn iota. cbn [negb]. rewrite Hp, Hd. cbn [negb].
  change (negb (NULL =? NULL)%Z) with false. cbn iota. destruct (pupFn o =? NULL)%Z; cbn [negb]; by rewrite clear_emit.
Qed.

(** A leaf of a list reduction sends its contribution to the parent
    that is [(pos-1)/4] places down the list with [CmiListReduce], but to
    the processor whose number is [(pos-1)/4] with [CmiListReduceStruct]. *)
Theorem list_reduce_parents pes pos msg size dest mergeFn pupFn : list_leaf pes pos ->
  pes !!! ((pos - 1) / 4) <> (-1)%Z -> pupFn <> NULL ->
  CmiListReduce pes msg size dest mergeFn g (idle_st seq rq dy []) =
    Normal (idle_st seq rq dy [RSend (pes !!! ((pos - 1) / 4)) size g msg]) /\
  CmiListReduceStruct pes msg pupFn mergeFn dest NULL g (idle_st seq rq dy []) =
    Normal (idle_st seq rq dy [RSend (Z.of_nat ((pos - 1) / 4)) (pup_size pupFn msg + CmiReservedHeaderSize) g
                                 (pup_data pupFn msg)]).
Proof.
  intros (Hp & H0 & Hl) Hpar%Z.eqb_neq Hpup%Z.eqb_neq. rewrite (list_reduce_starts pes pos), (list_reduce_struct_starts pes pos) by done.
  rewrite list_children_spec. replace (length pes - (4 * pos + 1)) with 0 by lia.
  rewrite (proj2 (Nat.eqb_neq pos 0)) by lia. cbn [Nat.min]. split.
  - by rewrite leaf_sends.
  - rewrite leaf_sends; [by cbn; rewrite Hpup| |done]. apply Z.eqb_neq. lia.
Qed.

(** ** Room for the messages of the children *)

(** A processor of the list that waits for [children] messages stores what
    comes, as long as there is room. *)
Lemma list_message data size children cap parent o l d : length l < children ->
  CmiHandleReductionMessage g d (busy_st g seq rq dy (list_red g data size children cap parent o l)) =
  if length l <? cap
  then CmiSendReduce (idx g) (busy_st g seq rq dy (list_red g data size children cap parent o (l ++ [d])))
  else Aborted.
Proof.
  intros Hl. unfold CmiHandleReductionMessage, CmiGetReduction, CmiGetReductionCreate.
  rewrite red_index_mod by done. rewrite get_busy. cbn [list_red seqID numChildren]. rewrite Z.eqb_refl.
  cbn [CmiAssert mbind outcome_bind]. rewrite (proj2 (Nat.ltb_ge children 0)) by lia. cbn [mbind outcome_bind].
  rewrite get_busy. cbn [list_red remoteData numChildren]. rewrite (proj2 (Nat.eqb_neq _ _)) by lia.
  cbn [mbind outcome_bind]. rewrite get_busy. cbn [list_red remoteData red_cap].
  destruct (length l <? cap); cbn [CmiAssert mbind outcome_bind]; [|done]. by rewrite put_busy.
Qed.

Lemma list_waits data size children cap parent o l : length l < children ->
  CmiSendReduce (idx g) (busy_st g seq rq dy (list_red g data size children cap parent o l)) =
  Normal (busy_st g seq rq dy (list_red g data size children cap parent o l)).
Proof.
  intros Hl. unfold CmiSendReduce. rewrite get_busy. cbn [list_red localContributed numChildren remoteData].
  by rewrite (proj2 (Nat.eqb_neq _ _)) by lia.
Qed.

Fixpoint messages (ds : list D) (s : rst D) : outcome (rst D) :=
  match ds with
  | [] => Normal s
  | d :: ds => s ← CmiHandleReductionMessage g d s; messages ds s
  end.

Lemma list_messages data size children cap parent o ds l :
  length l + length ds <= cap -> cap < children ->
  messages ds (busy_st g seq rq dy (list_red g data size children cap parent o l)) =
  Normal (busy_st g seq rq dy (list_red g data size children cap parent o (l ++ ds))).
Proof.
  revert l. induction ds as [|d ds IH]; intros l Hl Hc; cbn [messages]; [by rewrite app_nil_r|]. cbn in Hl.
  rewrite list_message, (proj2 (Nat.ltb_lt _ _)), list_waits by (rewrite ?length_app; cbn; lia).
  cbn [mbind outcome_bind]. rewrite IH by (rewrite ?length_app; cbn; lia). by rewrite <- app_assoc.
Qed.

(** [CmiListReduce] allocates room for the children of the processor in
    the spanning tree of all processors, not for its children in the list.
    A processor that has between one and three of the former and more of the
    latter takes as many messages as there is room for, and the next one is
    written past the end of the allocated block. *)
Theorem list_reduce_overflows pes pos msg size dest mergeFn ds d :
  at_pos pes pos -> 0 < my_num_children < list_children (length pes) pos -> length ds = my_num_children ->
  exists s1 s2, CmiListReduce pes msg size dest mergeFn g (idle_st seq rq dy []) = Normal s1 /\
    messages ds s1 = Normal s2 /\ CmiHandleReductionMessage g d s2 = Aborted.
Proof.
  intros Hp Hc Hds. rewrite (list_reduce_starts pes pos) by done. rewrite list_waits by (cbn; lia).
  unfold cap0. rewrite (proj2 (Nat.eqb_neq _ _)) by lia. eexists _, _. split; [reflexivity|].
  rewrite list_messages by (cbn; lia). split; [reflexivity|].
  rewrite list_message by (cbn; lia). by rewrite (proj2 (Nat.ltb_ge _ _)) by (cbn; lia).
Qed.

End lists.

(** ** Reduction numbers *)

Section numbers.
Context {D : Type} {F : ReduceFns D} {P : ReducePe}.

(** The numbers that [k] calls return. *)
Fixpoint dynamic_ids (k : nat) (s : rst D) : outcome (list Z) :=
  match k with
  | 0 => Normal []
  | S k => '(s, id) ← CmiGetDynamicReduction s; ids ← dynamic_ids k s; Normal (id :: ids)
  end.

Fixpoint request_ids (k : nat) (s : rst D) : list Z :=
  match k with
  | 0 => []
  | S k => let '(s, id) := CmiGetGlobalReduction s in id :: request_ids k s
  end.

Lemma u16_add (a b : Z) : u16 (u16 a + b) = u16 (a + b).
Proof. unfold u16. by rewrite Zplus_mod_idemp_l. Qed.

Lemma request_ids_spec k a s : seqID_request s = u16 a ->
  request_ids k s = (fun i => u16 (a + 3 * (Z.of_nat i + 1))) <$> seq 0 k.
Proof.
  revert a s. induction k as [|k IH]; intros a s E; [done|]. cbn [request_ids CmiGetGlobalReduction]. rewrite E, u16_add.
  cbn [seq fmap list_fmap]. f_equal.
  rewrite (IH (a + 3)%Z) by done. rewrite <- fmap_S_seq, <- list_fmap_compose. apply list_fmap_ext.
  intros i x _. cbn. f_equal. lia.
Qed.

Lemma dynamic_ids_spec k a s : my_pe = 0%Z -> seqID_dynamic s = u16 a ->
  dynamic_ids k s = Normal ((fun i => u16 (a + 3 * (Z.of_nat i + 1))) <$> seq 0 k).
Proof.
  intros Hpe. revert a s. induction k as [|k IH]; intros a s E; [done|].
  cbn [dynamic_ids]. unfold CmiGetDynamicReduction. rewrite Hpe. cbn [Z.eqb CmiAssert mbind outcome_bind]. rewrite E.
  unfold CmiReductionID_multiplier. rewrite u16_add. rewrite (IH (a + 3)%Z) by done. cbn [mbind outcome_bind].
  f_equal. cbn [seq fmap list_fmap]. f_equal.
  rewrite <- fmap_S_seq, <- list_fmap_compose. apply list_fmap_ext. intros i x _. cbn. f_equal. lia.
Qed.

(** The numbers of the reductions over all processors. *)
Definition global_ok (s : rst D) : Prop := (0 <= seqID_global s < 65536 /\ seqID_global s mod 3 = 0)%Z.

Lemma get_create_seq id n (s s' : rst D) i : CmiGetReductionCreate id n s = Normal (s', i) -> seqID_global s' = seqID_global s.
Proof.
  unfold CmiGetReductionCreate. generalize (get_red (red_index id s) s). intros r E.
  destruct (match r with Some r => (seqID r =? id)%Z | None => true end); [|done]. cbn [CmiAssert mbind outcome_bind] in E.
  destruct (match r with Some r => numChildren r <? n | None => true end); [|by simplify_eq].
  destruct (match r with Some r => negb (localContributed r) | None => true end); [|done].
  cbn [CmiAssert mbind outcome_bind] in E. by simplify_eq.
Qed.

Lemma next_global_ok n s s' i : global_ok s -> CmiGetNextReduction n s = Normal (s', i) -> global_ok s'.
Proof.
  intros [Hr Hm] E. unfold CmiGetNextReduction in E. apply get_create_seq in E. unfold global_ok. rewrite E. clear E.
  cbn zeta. destruct (Z.ltb_spec 65520 (seqID_global s)); cbn [set_seq_global seqID_global]; [done|].
  unfold u16, CmiReductionID_multiplier. rewrite Z.mod_small by lia. split; [lia|]. rewrite Zplus_mod, Hm. done.
Qed.

(** The numbers of reductions over all processors wrap around within
    their class, the multiples of 3.  The numbers requested with
    [CmiGetGlobalReduction] and [CmiGetDynamicReduction] do not: the first
    21844 calls return different numbers of their own class, 1 and 2 modulo
    3, and call 21845 returns 0, the number of the first reduction over all
    processors, and 1, a number of the request class. *)
Theorem reduction_number_classes (s : rst D) :
  seqID_request s = CmiReductionID_requestOffset -> seqID_dynamic s = CmiReductionID_dynamicOffset -> my_pe = 0%Z ->
  (forall n s1 s2 i, global_ok s1 -> CmiGetNextReduction n s1 = Normal (s2, i) -> global_ok s2) /\
  (forall k, exists rs dsy, request_ids k s = rs /\ dynamic_ids k s = Normal dsy /\ length rs = k /\ length dsy = k /\
     forall i r d, rs !! i = Some r -> dsy !! i = Some d ->
       ((Z.of_nat i < 21844)%Z -> r = Z.of_nat (3 * i + 4) /\ d = Z.of_nat (3 * i + 5)) /\
       (Z.of_nat i = 21844%Z -> r = CmiReductionID_globalOffset /\ d = CmiReductionID_requestOffset)).
Proof.
  intros Er Ed Hpe. split; [exact next_global_ok|]. intros k. eexists _, _. split; [reflexivity|].
  rewrite (request_ids_spec k 1 s), (dynamic_ids_spec k 2 s) by done. split; [reflexivity|].
  rewrite !length_fmap, length_seq. split; [done|]. split; [done|].
  intros i r d. rewrite !list_lookup_fmap. intros Hr Hd.
  destruct (seq 0 k !! i) as [j|] eqn:E; [|done]. apply lookup_seq in E as [-> _]. cbn in Hr, Hd. injection Hr as <-. injection Hd as <-.
  split.
  - intros Hi. unfold u16. rewrite !Z.mod_small by lia. lia.
  - intros Hi. rewrite Hi. done.
Qed.

End numbers.

(** ** Examples *)

#[local] Instance pair_fns : ReduceFns Z := {|
  merge_data _ n a l := (n, foldr Z.add a l); pup_size _ _ := 8%Z; pup_data _ d := d |}.
(** Processor [pe] with [n] children in the spanning tree. *)
Definition plain_pe (pe : Z) (n : nat) : ReducePe :=
  {| my_pe := pe; my_num_children := n; my_parent := 0; CmiReservedHeaderSize := 64 |}.

(** Processor 7 contributes to a reduction over the processors 5 and 7. *)
Lemma list_reduce_parents_witness :
  @CmiListReduceStruct Z _ (plain_pe 7 0) [5; 7]%Z 42%Z 11 12 13 NULL 4 CmiReductionsInit =
  Normal (idle_st 0 1 2 [RSend 0 72 4 42]%Z).
Proof.
  refine (proj2 (@list_reduce_parents Z _ (plain_pe 7 0) 4 1 2 0 ltac:(lia) [5; 7]%Z 1 42%Z 80 13 12 11 _ _ _)); [|done..].
  split; [split; [done|]|cbn; lia]. intros [|i] Hi; [done|lia].
Defined.

(** The first of three processors of a list, with one child in the spanning
    tree and two in the list. *)
Lemma list_reduce_overflows_witness : exists s1 s2,
  @CmiListReduce Z _ (plain_pe 1 1) [1; 2; 3]%Z 42%Z 80 13 12 4 CmiReductionsInit = Normal s1 /\
  @messages Z _ (plain_pe 1 1) 4 [43]%Z s1 = Normal s2 /\
  @CmiHandleReductionMessage Z _ (plain_pe 1 1) 4 44%Z s2 = Aborted.
Proof.
  apply (@list_reduce_overflows Z _ (plain_pe 1 1) 4 1 2 0 ltac:(lia) [1; 2; 3]%Z 0 42%Z 80 13 12 [43]%Z 44%Z).
  - split; [done|]. intros i Hi. lia.
  - change (list_children (length [1; 2; 3]%Z) 0) with 2. cbn. lia.
  - done.
Defined.

Lemma reduction_number_classes_witness : exists rs dsy,
  request_ids (Z.to_nat 21845) (CmiReductionsInit (D := Z)) = rs /\
  @dynamic_ids Z (plain_pe 0 0) (Z.to_nat 21845) CmiReductionsInit = Normal dsy /\
  forall r d, rs !! Z.to_nat 21844 = Some r -> dsy !! Z.to_nat 21844 = Some d -> r = 0%Z /\ d = 1%Z.
Proof.
  destruct (proj2 (@reduction_number_classes Z (plain_pe 0 0) CmiReductionsInit eq_refl eq_refl eq_refl) (Z.to_nat 21845))
    as (rs & dsy & E1 & E2 & _ & _ & H). exists rs, dsy. split; [done|]. split; [done|].
  intros r d Hr Hd. apply (H (Z.to_nat 21844) r d Hr Hd). lia.
Defined.
