(* ===== verification/Groups.v ===== *)
(** * Groups: multicast groups and group reductions (convcore.c)

    Groups of processors are defined on one processor and broadcast to all,
    each of which keeps a hash table of definitions.  A multicast travels
    down a binary tree of the positions of the group's list; the first bytes
    of the message are moved to its end to make room for a header, and moved
    back before the message is handed over. *)

From stdpp Require Import functions.
From S2P Require Import Prelude SpanTree Reduce ReduceFacts.
Set Warnings "-clear-no-such-hyp".

(** ** The table of groups *)

Record CmiGroup := mk_group { group_id : Z; group_pe : Z }.
#[global] Instance CmiGroup_eq_dec : EqDecision CmiGroup.
Proof. solve_decision. Defined.

Record GroupDef := mk_groupdef { def_group : CmiGroup; def_pes : list Z }.

Definition GROUPTAB_SIZE : Z := 101.

(** The counter and the table of one processor; a bucket is its chain of
    definitions. *)
Record groups := mk_groups { CmiGroupCounter : Z; CmiGroupTable : list (list GroupDef) }.

Definition CmiGroupInit : groups := mk_groups 0 (replicate (Z.to_nat GROUPTAB_SIZE) []).

Definition bucket_of (grp : CmiGroup) : nat :=
  Z.to_nat (u32 (Z.lxor (group_id grp) (group_pe grp)) mod GROUPTAB_SIZE).

Definition CmiGroupHandler (def : GroupDef) (g : groups) : groups :=
  let bucket := bucket_of (def_group def) in
  mk_groups (CmiGroupCounter g)
    (<[bucket := def :: (CmiGroupTable g !!! bucket)]> (CmiGroupTable g)).

(** The new group and the definition that is broadcast to all processors. *)
Definition CmiEstablishGroup (my_pe : Z) (pes : list Z) (g : groups) : groups * CmiGroup * GroupDef :=
  let grp := mk_group (CmiGroupCounter g) my_pe in
  (mk_groups (i32 (CmiGroupCounter g + 1)) (CmiGroupTable g), grp, mk_groupdef grp pes).

Fixpoint lookup_chain (grp : CmiGroup) (l : list GroupDef) : option (list Z) :=
  match l with
  | [] => None
  | def :: l =>
      if (group_id (def_group def) =? group_id grp)%Z && (group_pe (def_group def) =? group_pe grp)%Z
      then Some (def_pes def) else lookup_chain grp l
  end.

(** [None] stands for [*npes = 0; *pes = 0]. *)
Definition CmiLookupGroup (grp : CmiGroup) (g : groups) : option (list Z) :=
  lookup_chain grp (CmiGroupTable g !!! bucket_of grp).

(** ** Reductions over a group *)

Section reduce.
Context {D : Type} {F : ReduceFns D} {P : ReducePe}.

Definition CmiGroupReduce (grp : CmiGroup) (msg : D) (size : Z) (dest mergeFn : ptr) (id : Z) (g : groups) (s : rst D) :
    outcome (rst D) :=
  CmiListReduce (default [] (CmiLookupGroup grp g)) msg size dest mergeFn id s.

Definition CmiGroupReduceStruct (grp : CmiGroup) (data : D) (pupFn mergeFn dest deleteFn : ptr) (id : Z) (g : groups)
    (s : rst D) : outcome (rst D) :=
  CmiListReduceStruct (default [] (CmiLookupGroup grp g)) data pupFn mergeFn dest deleteFn id s.
End reduce.

(** ** Sends to a list of processors *)

Inductive list_send := LSend (pe : Z) | LSendAndFree (pe : Z) | LFree.

(** The configuration without [CMK_BROADCAST_USE_CMIREFERENCE]. *)
Definition CmiSyncListSendFn (pes : list Z) : list list_send := LSend <$> pes.

Definition CmiFreeListSendFn (pes : list Z) : list list_send :=
  (LSend <$> take (length pes - 1) pes) ++
  (if 0 <? length pes then [LSendAndFree (pes !!! (length pes - 1))] else [LFree]).

(** ** Multicasts *)

(** A multicast message: the header struct and the bytes behind it. *)
Record MultiMsg := mk_multi { mm_group : CmiGroup; mm_pos : Z; mm_origlen : nat; mm_rest : list Z }.

Section multicast.
(** [sizeof(struct MultiMsg_s)] *)
Variable (HS : nat).

Definition pack (msg : list Z) : list Z :=
  if length msg <? HS then msg else drop HS msg ++ take HS msg.

(** The message after the first bytes have been copied over the header. *)
Definition unpack (olen : nat) (rest : list Z) : list Z :=
  if olen <? HS then take olen rest else take HS (drop (olen - HS) rest) ++ take (olen - HS) rest.

(** What a processor sends: multicast messages on, or the message itself to
    its own queue. *)
Inductive mc_effect := MForward (pe : Z) (m : MultiMsg) | MLocal (pe : Z) (msg : list Z).

Definition set_pos (pos : Z) (m : MultiMsg) : MultiMsg := mk_multi (mm_group m) pos (mm_origlen m) (mm_rest m).

Definition CmiMulticastDeliver (my_pe : Z) (g : groups) (msg : MultiMsg) : list mc_effect :=
  match CmiLookupGroup (mm_group msg) g with
  | None => [MForward my_pe msg]
  | Some pes =>
      if length pes =? 0 then []
      else if (mm_pos msg =? -1)%Z then [MForward (pes !!! 0) (set_pos 0 msg)]
      else
        let pos := mm_pos msg in
        let child1 := Z.shiftl (pos + 1) 1 in
        let child2 := (child1 - 1)%Z in
        (if (child1 <? Z.of_nat (length pes))%Z then [MForward (pes !!! Z.to_nat child1) (set_pos child1 msg)] else []) ++
        (if (child2 <? Z.of_nat (length pes))%Z then [MForward (pes !!! Z.to_nat child2) (set_pos child2 msg)] else []) ++
        [MLocal my_pe (unpack (mm_origlen msg) (mm_rest msg))]
  end.

Definition CmiMulticastHandler := CmiMulticastDeliver.

Definition CmiSyncMulticastFn (my_pe : Z) (g : groups) (grp : CmiGroup) (msg : list Z) : list mc_effect :=
  CmiMulticastDeliver my_pe g (mk_multi grp (-1) (length msg) (pack msg)).

Lemma unpack_pack msg : unpack (length msg) (pack msg) = msg.
Proof.
  unfold pack, unpack. destruct (Nat.ltb_spec (length msg) HS) as [H|H]; [by rewrite firstn_all|].
  rewrite drop_app_length' by (rewrite length_drop; lia). rewrite take_app_length' by (rewrite length_drop; lia).
  rewrite firstn_all2 by (rewrite length_take; lia). apply take_drop.
Qed.

End multicast.
