(* ===== verification/GroupsFacts.v ===== *)
(** * GroupsFacts: group tables agree, and multicasts reach every member once *)

From stdpp Require Import functions.
From S2P Require Import Prelude SpanTree ReduceFacts Groups.
Set Warnings "-clear-no-such-hyp".

(** ** The table of groups *)

Definition table_ok (g : groups) : Prop := length (CmiGroupTable g) = Z.to_nat GROUPTAB_SIZE.

Lemma bucket_lt grp : bucket_of grp < Z.to_nat GROUPTAB_SIZE.
Proof.
  unfold bucket_of, GROUPTAB_SIZE. pose proof (Z.mod_pos_bound (u32 (Z.lxor (group_id grp) (group_pe grp))) 101). lia.
Qed.

Lemma same_group (d grp : CmiGroup) :
  (group_id d =? group_id grp)%Z && (group_pe d =? group_pe grp)%Z = bool_decide (d = grp).
Proof.
  destruct d as [i p], grp as [i' p']. cbn. destruct (Z.eqb_spec i i'), (Z.eqb_spec p p'); cbn; symmetry;
    (apply bool_decide_eq_true_2 || apply bool_decide_eq_false_2); congruence.
Qed.

Lemma handler_ok def g : table_ok g -> table_ok (CmiGroupHandler def g).
Proof. unfold table_ok, CmiGroupHandler. cbn. by rewrite length_insert. Qed.

Lemma lookup_handler def g grp : table_ok g ->
  CmiLookupGroup grp (CmiGroupHandler def g) =
  if decide (def_group def = grp) then Some (def_pes def) else CmiLookupGroup grp g.
Proof.
  intros Hok. unfold CmiLookupGroup, CmiGroupHandler. cbn [CmiGroupTable].
  destruct (decide (bucket_of (def_group def) = bucket_of grp)) as [E|E].
  - rewrite E, list_lookup_total_insert_eq by (rewrite Hok; apply bucket_lt). cbn [lookup_chain]. rewrite same_group.
    case_bool_decide; case_decide; done.
  - rewrite list_lookup_total_insert_ne by done. case_decide; [congruence|done].
Qed.

Lemma lookup_init grp : CmiLookupGroup grp CmiGroupInit = None.
Proof.
  unfold CmiLookupGroup, CmiGroupInit. cbn [CmiGroupTable]. by rewrite lookup_total_replicate_2 by apply bucket_lt.
Qed.

Definition receive_defs (ds : list GroupDef) : groups := foldr CmiGroupHandler CmiGroupInit ds.

Lemma receive_ok ds : table_ok (receive_defs ds).
Proof. induction ds as [|d ds IH]; [by vm_compute|]. by apply handler_ok. Qed.

Lemma lookup_receive ds grp pes : NoDup (def_group <$> ds) ->
  CmiLookupGroup grp (receive_defs ds) = Some pes <-> mk_groupdef grp pes ∈ ds.
Proof.
  induction ds as [|d ds IH]; intros Hn.
  - cbn [receive_defs foldr]. rewrite lookup_init, elem_of_nil. done.
  - rewrite fmap_cons in Hn. apply NoDup_cons in Hn as [Hd Hn]. cbn [receive_defs foldr].
    rewrite lookup_handler by apply receive_ok. rewrite elem_of_cons. case_decide as E.
    + split; [intros [= <-]; left; subst grp; by destruct d|]. intros [<-|Hin]; [done|].
      destruct Hd. rewrite E. change grp with (def_group (mk_groupdef grp pes)). by apply list_elem_of_fmap_2.
    + fold (receive_defs ds). rewrite IH by done. split; [by right|]. intros [<-|?]; done.
Qed.

(** The definitions of the groups that [my_pe] establishes one after the
    other. *)
Fixpoint establish (my_pe : Z) (reqs : list (list Z)) (g : groups) : list GroupDef :=
  match reqs with
  | [] => []
  | pes :: reqs => let '(g, grp, def) := CmiEstablishGroup my_pe pes g in def :: establish my_pe reqs g
  end.

Lemma establish_spec my_pe reqs g c : CmiGroupCounter g = c -> (0 <= c /\ c + Z.of_nat (length reqs) < 2 ^ 31)%Z ->
  establish my_pe reqs g =
  imap (fun i pes => mk_groupdef (mk_group (c + Z.of_nat i) my_pe) pes) reqs.
Proof.
  revert g c. induction reqs as [|pes reqs IH]; intros g c Ec Hc; [done|]. cbn [establish CmiEstablishGroup imap].
  cbn in Hc. rewrite Ec, Z.add_0_r. f_equal. rewrite (IH _ (c + 1)%Z); [|cbn; apply i32_small; lia|cbn in *; lia].
  apply imap_ext. intros i x _. cbn. do 2 f_equal. lia.
Qed.

(** The definitions that the processors [0..N-1] broadcast. *)
Definition all_defs (N : nat) (reqs : nat -> list (list Z)) : list GroupDef :=
  seq 0 N ≫= fun p => establish (Z.of_nat p) (reqs p) CmiGroupInit.

Lemma fmap_bind' {A B C} (f : A -> list B) (h : B -> C) (l : list A) : h <$> (l ≫= f) = l ≫= fun a => h <$> f a.
Proof. induction l as [|a l IH]; [done|]. cbn. by rewrite fmap_app, <- IH. Qed.

Lemma all_defs_nodup N reqs : (forall p, p < N -> (Z.of_nat (length (reqs p)) < 2 ^ 31)%Z) ->
  NoDup (def_group <$> all_defs N reqs).
Proof.
  intros Hr. unfold all_defs. rewrite fmap_bind'.
  assert (HE : forall p, p ∈ seq 0 N -> def_group <$> establish (Z.of_nat p) (reqs p) CmiGroupInit =
    (fun i => mk_group (Z.of_nat i) (Z.of_nat p)) <$> seq 0 (length (reqs p))).
  { intros p Hp%elem_of_seq. rewrite (establish_spec _ _ _ 0) by (done || (specialize (Hr p); lia)).
    apply list_eq. intros i. rewrite !list_lookup_fmap, list_lookup_imap.
    destruct (reqs p !! i) as [x|] eqn:E; cbn.
    - rewrite lookup_seq_lt by (by eapply lookup_lt_Some). done.
    - rewrite lookup_seq_ge by (by apply lookup_ge_None_1). done. }
  apply NoDup_bind; [| |apply NoDup_seq].
  - intros p q y Hp Hq. rewrite !HE by done. rewrite !list_elem_of_fmap. intros (i & -> & _) (j & [= _ ?] & _). lia.
  - intros p Hp. rewrite HE by done. apply NoDup_fmap_2_strong; [|apply NoDup_seq]. intros i j _ _ [= ?]. lia.
Qed.

(** C38: whatever groups the processors establish and in whatever order the
    definitions arrive, two established groups never share an identity, and
    a processor that has received the definitions finds exactly the
    established lists; before a definition arrives its group is reported as
    unknown. *)
Theorem groups_agree N reqs ds ds1 ds2 grp pes :
  (forall p, p < N -> (Z.of_nat (length (reqs p)) < 2 ^ 31)%Z) -> all_defs N reqs ≡ₚ ds -> ds = ds1 ++ ds2 ->
  NoDup (def_group <$> all_defs N reqs) /\
  (CmiLookupGroup grp (receive_defs ds) = Some pes <-> mk_groupdef grp pes ∈ all_defs N reqs) /\
  (mk_groupdef grp pes ∈ ds1 -> CmiLookupGroup grp (receive_defs ds2) = None).
Proof.
  intros Hr HP E. pose proof (all_defs_nodup N reqs Hr) as Hn. split; [done|].
  assert (Hn' : NoDup (def_group <$> ds)) by (rewrite <- HP; done). split.
  - rewrite lookup_receive by done. by rewrite HP.
  - intros Hin. destruct (CmiLookupGroup grp (receive_defs ds2)) as [pes'|] eqn:El; [|done]. exfalso.
    subst ds. rewrite fmap_app in Hn'. apply NoDup_app in Hn' as (_ & Hdis & Hn2).
    apply lookup_receive in El; [|done]. apply (Hdis grp).
    + change grp with (def_group (mk_groupdef grp pes)). by apply list_elem_of_fmap_2.
    + change grp with (def_group (mk_groupdef grp pes')). by apply list_elem_of_fmap_2.
Qed.

(** Two processors, one group each; the second has not heard of the first
    processor's group yet. *)
Lemma groups_agree_witness :
  CmiLookupGroup (mk_group 0 0) (receive_defs (all_defs 2 (fun _ => [[0; 1]%Z]))) = Some [0; 1]%Z /\
  CmiLookupGroup (mk_group 0 0) (receive_defs [mk_groupdef (mk_group 0 1) [0; 1]%Z]) = None.
Proof.
  destruct (groups_agree 2 (fun _ => [[0; 1]%Z]) (all_defs 2 (fun _ => [[0; 1]%Z]))
    [mk_groupdef (mk_group 0 0) [0; 1]%Z] [mk_groupdef (mk_group 0 1) [0; 1]%Z] (mk_group 0 0) [0; 1]%Z) as (_ & H1 & H2).
  - intros p _. cbn. lia.
  - done.
  - reflexivity.
  - split; [apply H1, list_elem_of_here|apply H2, list_elem_of_here].
Defined.

(** ** The binary tree of positions *)

Section binary.
Variable (n : nat).

Instance binary_tree : SpanTree := {
  tree_children p := filter (fun q => q < n) [2 * p + 2; 2 * p + 1];
  tree_parent q := (q - 1) / 2
}.

Lemma half q : q - 1 = 2 * ((q - 1) / 2) \/ q - 1 = 2 * ((q - 1) / 2) + 1.
Proof. pose proof (Nat.div_mod_eq (q - 1) 2). pose proof (Nat.mod_upper_bound (q - 1) 2). lia. Qed.

Instance binary_laws : SpanTreeLaws n.
Proof.
  split; cbn [tree_children tree_parent binary_tree].
  - intros p q Hp. pose proof (half q). rewrite list_elem_of_filter, !elem_of_cons, elem_of_nil. lia.
  - intros p _. apply NoDup_filter. repeat constructor; rewrite ?elem_of_cons, ?elem_of_nil; lia.
  - intros q Hq. pose proof (half q). lia.
Qed.

(** The positions a message in flight stands for; position -1 stands for a
    message on its way to the first member. *)
Definition cover (pos : Z) : list nat := sub n (Z.to_nat pos).

Lemma cover_all : cover (-1) = seq 0 n.
Proof. apply sub_root. apply _. Qed.

(** What [CmiMulticastDeliver] does at a position covers the rest of the
    subtree. *)
Lemma cover_step pos : pos < n ->
  cover (Z.of_nat pos) ≡ₚ pos :: ((if 2 * pos + 2 <? n then cover (Z.of_nat (2 * pos + 2)) else []) ++
                                  (if 2 * pos + 1 <? n then cover (Z.of_nat (2 * pos + 1)) else [])).
Proof.
  intros Hp. unfold cover at 1. rewrite Nat2Z.id, (sub_children n pos Hp). f_equiv.
  cbn [tree_children binary_tree]. unfold cover. rewrite !Nat2Z.id.
  destruct (Nat.ltb_spec (2 * pos + 2) n), (Nat.ltb_spec (2 * pos + 1) n); try lia;
    rewrite !filter_cons, filter_nil; repeat case_decide; try lia; cbn; by rewrite ?app_nil_r.
Qed.

End binary.

(** ** The machine *)

Section machine.
(** Header size, number of processors, the group and its members, and the
    message that is multicast. *)
Context (HS N : nat) (grp : CmiGroup) (pes : list Z) (msg : list Z).

(** The tables of the processors, the processors that have not received the
    definition of the group yet, the messages in flight and the messages
    handed over. *)
Record mcast := mk_mcast {
  mc_tables : Z -> groups;
  mc_defs : list Z;
  mc_net : list (Z * MultiMsg);
  mc_log : list (Z * list Z)
}.

Definition forwards (l : list mc_effect) : list (Z * MultiMsg) :=
  omap (fun e => match e with MForward pe m => Some (pe, m) | _ => None end) l.
Definition locals (l : list mc_effect) : list (Z * list Z) :=
  omap (fun e => match e with MLocal pe m => Some (pe, m) | _ => None end) l.

Definition mc_apply (l : list mc_effect) (m : mcast) : mcast :=
  mk_mcast (mc_tables m) (mc_defs m) (mc_net m ++ forwards l) (mc_log m ++ locals l).

(** The events: the definition arrives at the [k]-th processor that lacks
    it, or the [i]-th message in flight arrives. *)
Inductive mc_event := MDefine (k : nat) | MMessage (i : nat).

Definition mc_step (e : mc_event) (m : mcast) : option mcast :=
  match e with
  | MDefine k =>
      pe ← mc_defs m !! k;
      Some (mk_mcast (<[pe := CmiGroupHandler (mk_groupdef grp pes) (mc_tables m pe)]> (mc_tables m))
              (delete k (mc_defs m)) (mc_net m) (mc_log m))
  | MMessage i =>
      '(pe, x) ← mc_net m !! i;
      Some (mc_apply (CmiMulticastHandler HS pe (mc_tables m pe) x)
              (mk_mcast (mc_tables m) (mc_defs m) (delete i (mc_net m)) (mc_log m)))
  end.

Fixpoint mc_run (es : list mc_event) (m : mcast) : option mcast :=
  match es with
  | [] => Some m
  | e :: es => m ← mc_step e m; mc_run es m
  end.

(** The definition has been broadcast, and processor [origin] multicasts. *)
Definition mc_init (t : Z -> groups) (origin : Z) : mcast :=
  mc_apply (CmiSyncMulticastFn HS origin (t origin) grp msg)
    (mk_mcast t (Z.of_nat <$> seq 0 N) [] []).

(** ** Invariant *)

Definition is_pe (pe : Z) : Prop := (0 <= pe < Z.of_nat N)%Z.

(** A message in flight at [pe]: a copy of the packed message for a
    position, at the member of that position. *)
Definition in_flight (x : Z * MultiMsg) : Prop :=
  is_pe x.1 /\ mm_group x.2 = grp /\ mm_origlen x.2 = length msg /\ mm_rest x.2 = pack HS msg /\
  (mm_pos x.2 = (-1)%Z \/ exists pos, pos < length pes /\ mm_pos x.2 = Z.of_nat pos /\ x.1 = pes !!! pos).

Definition covered (l : list (Z * MultiMsg)) : list nat := l ≫= fun x => cover (length pes) (mm_pos x.2).

Record minv (m : mcast) (done : list nat) : Prop := {
  mi_table pe : is_pe pe -> table_ok (mc_tables m pe);
  mi_lookup pe : is_pe pe ->
    CmiLookupGroup grp (mc_tables m pe) = if decide (pe ∈ mc_defs m) then None else Some pes;
  mi_nodup : NoDup (mc_defs m);
  mi_flight : Forall in_flight (mc_net m);
  mi_cover : covered (mc_net m) ++ done ≡ₚ seq 0 (length pes);
  mi_log : mc_log m = (fun pos => (pes !!! pos, msg)) <$> done
}.

Context (Hpes : Forall is_pe pes).

Lemma member_pe pos : pos < length pes -> is_pe (pes !!! pos).
Proof.
  intros Hp. rewrite Forall_forall in Hpes. apply Hpes. apply list_elem_of_lookup_total_2. done.
Qed.

(** A forwarded copy is in flight for its new position. *)
Lemma forwarded x pos : in_flight x -> pos < length pes ->
  in_flight (pes !!! pos, set_pos (Z.of_nat pos) x.2).
Proof.
  intros (Hpe & Eg & El & Er & _) Hpos. split; [by apply member_pe|]. do 3 (split; [done|]).
  right. by exists pos.
Qed.

(** The number of deliveries a message can still cause. *)
Definition weight (x : Z * MultiMsg) : nat :=
  length (cover (length pes) (mm_pos x.2)) + if decide (mm_pos x.2 = (-1)%Z) then 1 else 0.
Definition weights (l : list (Z * MultiMsg)) : nat := sum_list_with weight l.

(** The copy for position [q], when there is such a position. *)
Definition fwd (x : Z * MultiMsg) (q : nat) : list mc_effect :=
  if (Z.of_nat q <? Z.of_nat (length pes))%Z then [MForward (pes !!! q) (set_pos (Z.of_nat q) x.2)] else [].

Lemma fwd_ok x q : in_flight x ->
  Forall in_flight (forwards (fwd x q)) /\ locals (fwd x q) = [] /\
  covered (forwards (fwd x q)) = (if q <? length pes then cover (length pes) (Z.of_nat q) else []) /\
  weights (forwards (fwd x q)) = length (if q <? length pes then cover (length pes) (Z.of_nat q) else []).
Proof.
  intros Hx. unfold fwd. destruct (Nat.ltb_spec q (length pes)) as [Hq|Hq].
  - rewrite (proj2 (Z.ltb_lt _ _)) by lia. cbn. unfold weight. cbn. rewrite decide_False, app_nil_r by lia.
    split; [constructor; [by apply forwarded|constructor]|]. split; [done|]. split; [done|lia].
  - rewrite (proj2 (Z.ltb_ge _ _)) by lia. cbn. split; [constructor|]. done.
Qed.

Lemma forwards_app l1 l2 : forwards (l1 ++ l2) = forwards l1 ++ forwards l2.
Proof. apply omap_app. Qed.
Lemma locals_app l1 l2 : locals (l1 ++ l2) = locals l1 ++ locals l2.
Proof. apply omap_app. Qed.
Lemma covered_app l1 l2 : covered (l1 ++ l2) = covered l1 ++ covered l2.
Proof. apply bind_app. Qed.
Lemma weights_app l1 l2 : weights (l1 ++ l2) = weights l1 + weights l2.
Proof. apply sum_list_with_app. Qed.

(** What a handler call does to a message that stands for position [pos]. *)
Definition handled (x : Z * MultiMsg) (l : list mc_effect) (done' : list nat) : Prop :=
  Forall in_flight (forwards l) /\ locals l = (fun pos => (pes !!! pos, msg)) <$> done' /\
  covered (forwards l) ++ done' ≡ₚ cover (length pes) (mm_pos x.2).

Lemma deliver_pos x g pos : in_flight x -> CmiLookupGroup grp g = Some pes -> pos < length pes ->
  mm_pos x.2 = Z.of_nat pos -> x.1 = pes !!! pos ->
  let l := CmiMulticastDeliver HS x.1 g x.2 in handled x l [pos] /\ weights (forwards l) < weight x.
Proof.
  intros Hx Hg Hlt Ep Epe l. pose proof Hx as (_ & Eg & El & Er & _).
  assert (l = fwd x (2 * pos + 2) ++ fwd x (2 * pos + 1) ++ [MLocal (pes !!! pos) msg]) as ->.
  { unfold l, CmiMulticastDeliver, fwd. rewrite Eg, Hg, (proj2 (Nat.eqb_neq _ _)), Ep by lia.
    rewrite (proj2 (Z.eqb_neq _ _)) by lia.
    replace (Z.shiftl (Z.of_nat pos + 1) 1) with (Z.of_nat (2 * pos + 2)) by (rewrite Z.shiftl_mul_pow2; lia).
    replace (Z.of_nat (2 * pos + 2) - 1)%Z with (Z.of_nat (2 * pos + 1)) by lia.
    by rewrite !Nat2Z.id, El, Er, unpack_pack, Epe. }
  destruct (fwd_ok x (2 * pos + 2) Hx) as (A1 & B1 & C1 & D1). destruct (fwd_ok x (2 * pos + 1) Hx) as (A2 & B2 & C2 & D2).
  unfold handled, weight. rewrite !forwards_app, !locals_app, !covered_app, !weights_app, Ep, B1, B2, C1, C2, D1, D2.
  pose proof (cover_step (length pes) pos Hlt) as HC. pose proof (Permutation_length HC) as HL.
  cbn [length] in HL. rewrite length_app in HL. cbn. split; [|lia].
  split; [rewrite !Forall_app; auto|]. split; [done|]. rewrite HC, app_nil_r. solve_Permutation.
Qed.

(** The handler at a processor that knows the group. *)
Lemma deliver_known x g : in_flight x -> CmiLookupGroup grp g = Some pes ->
  let l := CmiMulticastDeliver HS x.1 g x.2 in exists done', handled x l done' /\ weights (forwards l) < weight x.
Proof.
  intros Hx Hg l. pose proof Hx as (Hpe & Eg & El & Er & [Ep|(pos & Hlt & Ep & Epe)]).
  - exists []. unfold l, CmiMulticastDeliver, handled, weight. rewrite Eg, Hg, Ep, decide_True by done. cbn.
    destruct (Nat.eqb_spec (length pes) 0) as [E0|E0].
    + rewrite E0. cbn. split; [|lia]. split; [constructor|]. done.
    + assert (weight (pes !!! 0, set_pos 0 x.2) = length (cover (length pes) (-1))) as Ew.
      { unfold weight. cbn. rewrite decide_False by done. apply Nat.add_0_r. }
      cbn. rewrite Ew. split; [|lia]. split; [constructor; [apply (forwarded x 0 Hx); lia|constructor]|].
      split; [done|]. by rewrite !app_nil_r.
  - exists [pos]. by apply deliver_pos.
Qed.

(** At a processor that does not know it the message goes around. *)
Lemma deliver_unknown x g : in_flight x -> CmiLookupGroup grp g = None -> handled x (CmiMulticastDeliver HS x.1 g x.2) [].
Proof.
  intros Hx Hg. pose proof Hx as (Hpe & Eg & _). unfold CmiMulticastDeliver, handled. rewrite Eg, Hg. cbn.
  split; [constructor; [by destruct x|constructor]|]. split; [done|]. by rewrite !app_nil_r.
Qed.

(** ** Steps *)

Lemma covered_delete net i x : net !! i = Some x ->
  covered net ≡ₚ covered (delete i net) ++ cover (length pes) (mm_pos x.2).
Proof.
  intros Hi. unfold covered. rewrite (delete_Permutation net i x Hi) at 1. cbn [mbind list_bind].
  apply Permutation_app_comm.
Qed.

Lemma minv_message m done i x done' : minv m done -> mc_net m !! i = Some x ->
  handled x (CmiMulticastHandler HS x.1 (mc_tables m x.1) x.2) done' ->
  minv (mc_apply (CmiMulticastHandler HS x.1 (mc_tables m x.1) x.2)
          (mk_mcast (mc_tables m) (mc_defs m) (delete i (mc_net m)) (mc_log m))) (done ++ done').
Proof.
  intros [M1 M2 M3 M4 M5 M6] Hi (H1 & H2 & H3). split; cbn; [done|done|done| | |].
  - apply Forall_app. split; [by apply Forall_delete|done].
  - rewrite covered_app, <- M5, (covered_delete _ _ _ Hi), <- H3. solve_Permutation.
  - by rewrite M6, H2, fmap_app.
Qed.

Lemma minv_define m done k pe : minv m done -> mc_defs m !! k = Some pe ->
  minv (mk_mcast (<[pe := CmiGroupHandler (mk_groupdef grp pes) (mc_tables m pe)]> (mc_tables m))
          (delete k (mc_defs m)) (mc_net m) (mc_log m)) done.
Proof.
  intros [M1 M2 M3 M4 M5 M6] Hk. pose proof (delete_Permutation _ _ _ Hk) as HP.
  assert (Hn : (pe ∉ delete k (mc_defs m)) /\ NoDup (delete k (mc_defs m))) by (rewrite HP in M3; by apply NoDup_cons in M3).
  split; cbn; [| |by destruct Hn|done|done|done].
  - intros p Hp. destruct (decide (p = pe)) as [->|Hne]; [rewrite fn_lookup_insert; by apply handler_ok, M1|].
    rewrite fn_lookup_insert_ne by done. auto.
  - intros p Hp. destruct (decide (p = pe)) as [->|Hne].
    + rewrite fn_lookup_insert, lookup_handler, decide_True by auto. rewrite decide_False by tauto. done.
    + rewrite fn_lookup_insert_ne, M2 by done. assert (p ∈ mc_defs m <-> p ∈ delete k (mc_defs m)) as Hiff by (rewrite HP at 1; set_solver).
      do 2 case_decide; tauto.
Qed.

Lemma minv_step m done e m' : minv m done -> mc_step e m = Some m' -> exists done', minv m' done'.
Proof.
  intros HI E. destruct e as [k|i]; cbn [mc_step] in E.
  - destruct (mc_defs m !! k) as [pe|] eqn:Hk; [|done]. cbn in E. injection E as <-. exists done. by apply minv_define.
  - destruct (mc_net m !! i) as [[pe x]|] eqn:Hi; [|done]. cbn in E. injection E as <-.
    pose proof (mi_flight _ _ HI) as HF. rewrite Forall_forall in HF. specialize (HF _ (list_elem_of_lookup_2 _ _ _ Hi)).
    pose proof (mi_lookup _ _ HI pe (proj1 HF)) as Hl. case_decide.
    + exists (done ++ []). apply (minv_message m done i (pe, x)); auto. by apply deliver_unknown.
    + destruct (deliver_known _ _ HF Hl) as (done' & Hd & _). exists (done ++ done'). by apply (minv_message m done i (pe, x)).
Qed.

Lemma minv_run m done es m' : minv m done -> mc_run es m = Some m' -> exists done', minv m' done'.
Proof.
  revert m done. induction es as [|e es IH]; intros m done HI E; cbn [mc_run] in E; [simplify_eq; eauto|].
  destruct (mc_step e m) as [m1|] eqn:Es; [|done]. destruct (minv_step _ _ _ _ HI Es) as [done1 HI1]. by eapply IH.
Qed.

(** When everybody knows the group, a delivery lowers the weight. *)
Lemma step_weight m done e m' : minv m done -> mc_defs m = [] -> mc_step e m = Some m' ->
  mc_defs m' = [] /\ weights (mc_net m') < weights (mc_net m).
Proof.
  intros HI Hd E. destruct e as [k|i]; cbn [mc_step] in E; [by rewrite Hd in E|].
  destruct (mc_net m !! i) as [[pe x]|] eqn:Hi; [|done]. cbn in E. injection E as <-. split; [done|]. cbn.
  pose proof (mi_flight _ _ HI) as HF. rewrite Forall_forall in HF. specialize (HF _ (list_elem_of_lookup_2 _ _ _ Hi)).
  pose proof (mi_lookup _ _ HI pe (proj1 HF)) as Hl. rewrite Hd in Hl. rewrite decide_False in Hl by apply not_elem_of_nil.
  destruct (deliver_known _ _ HF Hl) as (done' & _ & Hw). rewrite weights_app. cbn in Hw.
  assert (weights (mc_net m) = weight (pe, x) + weights (delete i (mc_net m))) as ->; [|unfold CmiMulticastHandler; lia].
  rewrite <- (take_drop_middle _ _ _ Hi) at 1. rewrite delete_take_drop, !weights_app. cbn. unfold weights. lia.
Qed.

Lemma run_weight m done es m' : minv m done -> mc_defs m = [] -> mc_run es m = Some m' ->
  length es + weights (mc_net m') <= weights (mc_net m).
Proof.
  revert m done. induction es as [|e es IH]; intros m done HI Hd E; cbn [mc_run] in E; [simplify_eq; cbn; lia|].
  destruct (mc_step e m) as [m1|] eqn:Es; [|done]. destruct (minv_step _ _ _ _ HI Es) as [done1 HI1].
  destruct (step_weight _ _ _ _ HI Hd Es) as [Hd1 Hw]. specialize (IH _ _ HI1 Hd1 E). cbn. lia.
Qed.

(** Processors with tables that do not know the group yet. *)
Definition fresh (t : Z -> groups) : Prop :=
  forall pe, is_pe pe -> table_ok (t pe) /\ CmiLookupGroup grp (t pe) = None.

Lemma minv_init t origin : fresh t -> is_pe origin -> minv (mc_init t origin) [].
Proof.
  intros Ht Ho. unfold mc_init, CmiSyncMulticastFn, CmiMulticastDeliver. cbn [mm_group]. rewrite (proj2 (Ht origin Ho)).
  split; cbn.
  - intros pe Hpe. by apply Ht.
  - intros pe Hpe. rewrite (proj2 (Ht pe Hpe)). rewrite decide_True; [done|].
    apply list_elem_of_fmap. exists (Z.to_nat pe). unfold is_pe in Hpe. rewrite elem_of_seq. lia.
  - apply NoDup_fmap_2_strong; [intros; lia|apply NoDup_seq].
  - constructor; [|constructor]. split; [done|]. do 3 (split; [done|]). by left.
  - rewrite !app_nil_r. by rewrite cover_all.
  - done.
Qed.

Lemma weights_le l : weights l <= length (covered l) + length l.
Proof.
  induction l as [|x l IH]; [done|]. cbn. unfold covered in *. rewrite length_app. unfold weights, weight in *.
  case_decide; lia.
Qed.

Lemma members_of l : l ≡ₚ seq 0 (length pes) ->
  ((fun pos => (pes !!! pos, msg)) <$> l) ≡ₚ (fun pe => (pe, msg)) <$> pes.
Proof.
  intros ->. assert ((fun pos => (pes !!! pos, msg)) <$> seq 0 (length pes) = (fun pe => (pe, msg)) <$> pes) as ->; [|done].
  apply list_eq. intros i. rewrite !list_lookup_fmap. destruct (pes !! i) as [pe|] eqn:Ei.
  - rewrite lookup_seq_lt by (by eapply lookup_lt_Some). cbn. by rewrite (list_lookup_total_correct _ _ _ Ei).
  - rewrite lookup_seq_ge by (by apply lookup_ge_None_1). done.
Qed.

(** C39: a multicast to a group of processors hands the message, byte for
    byte, to every member exactly once, wherever it starts and in whatever
    order the definition of the group and the copies of the message arrive:
    at every point the copies handed over are part of the members' list (a
    processor that occurs twice in it gets two), when no copy is in flight
    they are all of it, and once every processor knows the group at most
    [npes] deliveries plus one per copy in flight remain. *)
Theorem multicast_reaches_members t origin es m : fresh t -> is_pe origin -> mc_run es (mc_init t origin) = Some m ->
  (exists rest, mc_log m ++ rest ≡ₚ (fun pe => (pe, msg)) <$> pes) /\
  (mc_net m = [] -> mc_log m ≡ₚ (fun pe => (pe, msg)) <$> pes) /\
  (forall es' m', mc_defs m = [] -> mc_run es' m = Some m' -> length es' <= length pes + length (mc_net m)).
Proof.
  intros Ht Ho E. destruct (minv_run _ _ _ _ (minv_init t origin Ht Ho) E) as [done HI].
  pose proof (mi_cover _ _ HI) as HC. rewrite (mi_log _ _ HI). split; [|split].
  - exists ((fun pos => (pes !!! pos, msg)) <$> covered (mc_net m)). rewrite <- fmap_app. apply members_of.
    by rewrite Permutation_app_comm.
  - intros Hn. rewrite Hn in HC. by apply members_of.
  - intros es' m' Hd E'. pose proof (run_weight _ _ _ _ HI Hd E'). pose proof (weights_le (mc_net m)).
    apply Permutation_length in HC. rewrite length_app, length_seq in HC. lia.
Qed.

End machine.

(** Processor 0 of two multicasts to the members 1, 0 before anybody knows
    the group. *)
Definition mc_events : list mc_event := [MMessage 0; MDefine 0; MMessage 0; MDefine 0; MMessage 0; MMessage 0].

Lemma multicast_reaches_members_witness : exists m,
  mc_run 3 (mk_group 0 0) [1; 0]%Z mc_events (mc_init 3 2 (mk_group 0 0) [7; 8; 9; 10]%Z (fun _ => CmiGroupInit) 0) = Some m /\
  mc_log m ≡ₚ [(1, [7; 8; 9; 10]); (0, [7; 8; 9; 10])]%Z.
Proof.
  destruct (mc_run 3 (mk_group 0 0) [1; 0]%Z mc_events _) as [m|] eqn:E; [|vm_compute in E; discriminate].
  exists m. split; [done|].
  refine (proj1 (proj2 (multicast_reaches_members 3 2 (mk_group 0 0) [1; 0]%Z [7; 8; 9; 10]%Z _ (fun _ => CmiGroupInit) 0
    mc_events m _ _ E)) _).
  - repeat constructor; cbn; lia.
  - intros pe _. split; [by vm_compute|]. apply lookup_init.
  - split; cbn; lia.
  - vm_compute in E. by injection E as <-.
Defined.
