(* ===== verification/Mempool.v ===== *)
(** * Mempool: the pool of power-of-two slots (arch/util/mempool.c)

    Blocks obtained from an external allocator are cut into slots whose
    sizes are powers of two.  All slots of a block are linked in the order
    of their addresses ([gprev], [gnext]); the free slots of each size are
    linked in a free list of the block ([prev], [next]).  A request splits a
    larger slot when the list of its size is empty, and a release merges the
    slot with its free neighbours and cuts the result into slots of
    decreasing size.

    Addresses are offsets from the start of the pool, as in the code; 0
    stands for no slot.  The configuration is the one without locks. *)

From S2P Require Import Prelude.
Set Warnings "-clear-no-such-hyp".

Definition cutOffNum : nat := 25.
Definition cutOffPoints : list Z :=
  [64; 128; 256; 512; 1024; 2048; 4096; 8192; 16384; 32768;
   65536; 131072; 262144; 524288; 1048576; 2097152; 4194304;
   8388608; 16777216; 33554432; 67108864; 134217728; 268435456;
   536870912; 1073741824]%Z.

Definition cut (i : nat) : Z := cutOffPoints !!! i.

Record slot_header := mk_slot {
  block_ptr : Z;
  slot_size : nat;
  status : Z;
  gprev : Z;
  gnext : Z;
  sprev : Z;
  snext : Z
}.

Definition set_size (v : nat) (s : slot_header) : slot_header :=
  mk_slot (block_ptr s) v (status s) (gprev s) (gnext s) (sprev s) (snext s).
Definition set_status (v : Z) (s : slot_header) : slot_header :=
  mk_slot (block_ptr s) (slot_size s) v (gprev s) (gnext s) (sprev s) (snext s).
Definition set_block_ptr (v : Z) (s : slot_header) : slot_header :=
  mk_slot v (slot_size s) (status s) (gprev s) (gnext s) (sprev s) (snext s).
Definition set_gprev (v : Z) (s : slot_header) : slot_header :=
  mk_slot (block_ptr s) (slot_size s) (status s) v (gnext s) (sprev s) (snext s).
Definition set_gnext (v : Z) (s : slot_header) : slot_header :=
  mk_slot (block_ptr s) (slot_size s) (status s) (gprev s) v (sprev s) (snext s).
Definition set_sprev (v : Z) (s : slot_header) : slot_header :=
  mk_slot (block_ptr s) (slot_size s) (status s) (gprev s) (gnext s) v (snext s).
Definition set_snext (v : Z) (s : slot_header) : slot_header :=
  mk_slot (block_ptr s) (slot_size s) (status s) (gprev s) (gnext s) (sprev s) v.

Record block_header := mk_block {
  b_size : Z;
  b_used : Z;
  block_prev : Z;
  block_next : Z;
  freelists : list Z
}.

#[global] Instance block_inhabited : Inhabited block_header := populate (mk_block 0 0 0 0 []).

Definition set_used (v : Z) (b : block_header) : block_header :=
  mk_block (b_size b) v (block_prev b) (block_next b) (freelists b).
Definition set_block_prev (v : Z) (b : block_header) : block_header :=
  mk_block (b_size b) (b_used b) v (block_next b) (freelists b).
Definition set_block_next (v : Z) (b : block_header) : block_header :=
  mk_block (b_size b) (b_used b) (block_prev b) v (freelists b).
Definition set_freelist (i : nat) (v : Z) (b : block_header) : block_header :=
  mk_block (b_size b) (b_used b) (block_prev b) (block_next b) (<[i := v]> (freelists b)).

(** The blocks and the slot headers of the pool by their offset; the first
    block is at offset 0. *)
Record mempool := mk_mempool {
  blocks : gmap Z block_header;
  slots : gmap Z slot_header;
  block_tail : Z;
  limit : Z;
  mp_size : Z
}.

Definition put_slot (a : Z) (x : slot_header) (s : mempool) : mempool :=
  mk_mempool (blocks s) (<[a := x]> (slots s)) (block_tail s) (limit s) (mp_size s).

(** The header at [a]; where none has been written yet, what the memory
    holds. *)
Definition slot `{Uninit} (s : mempool) (a : Z) : slot_header :=
  default (mk_slot uninit_word (Z.to_nat uninit_word) uninit_word uninit_word uninit_word uninit_word uninit_word)
    (slots s !! a).
Definition upd_slot `{Uninit} (a : Z) (f : slot_header -> slot_header) (s : mempool) : mempool :=
  put_slot a (f (slot s a)) s.
Definition upd_block (b : Z) (f : block_header -> block_header) (s : mempool) : mempool :=
  mk_mempool (alter f b (blocks s)) (slots s) (block_tail s) (limit s) (mp_size s).
Definition block (s : mempool) (b : Z) : block_header := blocks s !!! b.
Definition freelist (s : mempool) (b : Z) (i : nat) : Z := freelists (block s b) !!! i.

(** The external allocator: how long the first block is when a size is asked
    for, and where the next block is and how long, given what is in use. *)
Class BlockAlloc := {
  firstblockfn : Z -> Z;
  newblockfn : mempool -> Z -> option (Z * Z)
}.

(** [sizeof(block_header)], [sizeof(mempool_type)]; [sizeof(used_header)] is
    40 on 64-bit machines. *)
Class PoolLayout := { sizeof_block_header : Z; sizeof_mempool_type : Z }.
Definition sizeof_used_header : Z := 40.

Section ops.
Context {U : Uninit} {L : PoolLayout} {A : BlockAlloc}.

Fixpoint which_pow2_loop (l : list Z) (i : nat) (size : Z) : nat :=
  match l with
  | [] => i
  | c :: l => if (size <=? c)%Z then i else which_pow2_loop l (S i) size
  end.

Definition which_pow2 (size : Z) : nat := which_pow2_loop cutOffPoints 0 size.

(** [power = which_pow2(size); if (size < cutOffPoints[power]) power--;] The
    array is read past its end when the size exceeds the largest slot. *)
Definition floor_pow2 (size : Z) : option nat :=
  let power := which_pow2 size in
  c ← cutOffPoints !! power;
  if (size <? c)%Z then (if power =? 0 then None else Some (power - 1)) else Some power.

(** *** fillblock *)

(** First loop: [k] is [i+1]. *)
Fixpoint fill_lists (k : nat) (loc left : Z) (fl : list Z) : list Z :=
  match k with
  | 0 => fl
  | S i => if (cut i <=? left)%Z then fill_lists i (loc + cut i) (left - cut i) (<[i := loc]> fl)
           else fill_lists i loc left fl
  end.

(** Second loop; returns the last header. *)
Fixpoint fill_heads (k power : nat) (b prev : Z) (s : mempool) : mempool * Z :=
  match k with
  | 0 => (s, prev)
  | S i =>
      let a := freelist s b i in
      if negb (a =? 0)%Z then
        let s := put_slot a (mk_slot b i 1 prev uninit_word 0 0) s in
        let s := if negb (i =? power) then upd_slot prev (set_gnext a) s else s in
        fill_heads i power b a s
      else fill_heads i power b prev s
  end.

Definition fillblock (b pool_size : Z) (expansion : bool) (s : mempool) : outcome mempool :=
  let hdr := if expansion then sizeof_block_header else sizeof_mempool_type in
  let left := u64 (pool_size - hdr) in
  let loc := (b + hdr)%Z in
  match floor_pow2 left with
  | None => Aborted
  | Some power =>
      let fl := fill_lists (S power) loc left (replicate cutOffNum 0%Z) in
      let s := upd_block b (fun h => mk_block (b_size h) (b_used h) (block_prev h) (block_next h) fl) s in
      let '(s, head) := fill_heads (S power) power b 0 s in
      Normal (upd_slot head (set_gnext 0) s)
  end.

(** *** checkblock *)

(** [for(i=power+1; i<powiter; i++)] with [n] rounds left. *)
Fixpoint break_lists (n i : nat) (b loc : Z) (s : mempool) : mempool :=
  match n with
  | 0 => s
  | S n => let loc := (loc + cut (i - 1))%Z in break_lists n (S i) b loc (upd_block b (set_freelist i loc) s)
  end.

(** [for(i=power; i<powiter; i++)] with [n] rounds left; returns [head] and
    [prev]. *)
Fixpoint break_heads (n i power : nat) (b head prev : Z) (s : mempool) : mempool * Z * Z :=
  match n with
  | 0 => (s, head, prev)
  | S n =>
      let head := if negb (i =? power) then (head + cut (i - 1))%Z else head in
      let s := put_slot head (mk_slot b i 1 prev uninit_word 0 0) s in
      let s := upd_slot prev (set_gnext head) s in
      let prev := if negb (i =? power) then (prev + cut (i - 1))%Z else (prev + cut i)%Z in
      break_heads n (S i) power b head prev s
  end.

(** The body of the loop when the list of [powiter] is not empty. *)
Definition break_slot (power powiter : nat) (b : Z) (s : mempool) : mempool :=
  let head_move := freelist s b powiter in
  let gnext_ := gnext (slot s head_move) in
  let loc := head_move in
  let s := upd_block b (set_freelist powiter (snext (slot s head_move))) s in
  let s := upd_block b (set_freelist power loc) s in
  let s := break_lists (powiter - (power + 1)) (power + 1) b (loc + cut power) s in
  let s := upd_slot head_move (set_size power) s in
  let prev := freelist s b power in
  let s := upd_slot head_move (set_snext (prev + cut power)) s in
  let '(s, head, prev) := break_heads (powiter - power) power power b (head_move + cut power) prev s in
  let s := upd_slot (head_move + cut power) (set_sprev (freelist s b power)) s in
  let s := upd_slot head (set_gnext gnext_) s in
  let s := if negb (gnext_ =? 0)%Z then upd_slot gnext_ (set_gprev prev) s else s in
  if negb (freelist s b powiter =? 0)%Z then upd_slot (freelist s b powiter) (set_sprev 0) s else s.

(** [while(head_free==NULL && powiter<cutOffNum)] *)
Fixpoint check_loop (n power powiter : nat) (b : Z) (s : mempool) : mempool * bool :=
  match n with
  | 0 => (s, false)
  | S n => if negb (freelist s b powiter =? 0)%Z then (break_slot power powiter b s, true)
           else check_loop n power (S powiter) b s
  end.

Definition checkblock (power : nat) (b : Z) (s : mempool) : mempool * bool :=
  if negb (freelist s b power =? 0)%Z then (s, true)
  else check_loop (cutOffNum - (power + 1)) power (power + 1) b s.

(** *** Blocks *)

(** [freefn(b)]: the memory of the block is gone. *)
Definition freeblockfn (b : Z) (s : mempool) : mempool :=
  mk_mempool (delete b (blocks s))
    (filter (fun p => ~ (b <= p.1 < b + b_size (block s b))%Z) (slots s))
    (block_tail s) (limit s) (mp_size s).

Definition set_tail (v : Z) (s : mempool) : mempool := mk_mempool (blocks s) (slots s) v (limit s) (mp_size s).
Definition set_mp_size (v : Z) (s : mempool) : mempool := mk_mempool (blocks s) (slots s) (block_tail s) (limit s) v.

Fixpoint remove_loop (fuel : nat) (tail prev current : Z) (s : mempool) : outcome mempool :=
  match fuel with
  | 0 => Aborted
  | S fuel =>
      if (current =? 0)%Z then Normal s
      else if (b_used (block s current) <=? 0)%Z then
        let tofree := current in
        let current := block_next (block s current) in
        let s := if (tail =? tofree)%Z then set_tail (block_prev (block s tofree)) s else s in
        let s := upd_block prev (set_block_next (block_next (block s tofree))) s in
        let s := if negb (current =? 0)%Z then upd_block current (set_block_prev (block_prev (block s tofree))) s else s in
        let s := set_mp_size (u64 (mp_size s - b_size (block s tofree))) s in
        let s := freeblockfn tofree s in
        if (mp_size s <? limit s)%Z then Normal s else remove_loop fuel tail prev current s
      else remove_loop fuel tail current (block_next (block s current)) s
  end.

Definition removeblocks (s : mempool) : outcome mempool :=
  remove_loop (S (size (blocks s))) (block_tail s) 0 (block_next (block s 0)) s.

Definition mempool_init (pool_size limit : Z) : outcome mempool :=
  let pool_size := firstblockfn pool_size in
  fillblock 0 pool_size false
    (mk_mempool {[ 0%Z := mk_block pool_size 0 0 0 [] ]} ∅ 0 limit pool_size).

Fixpoint destroy_loop (fuel : nat) (current : Z) (s : mempool) : mempool :=
  match fuel with
  | 0 => s
  | S fuel =>
      let next := block_next (block s current) in
      let s := freeblockfn current s in
      if (next =? 0)%Z then s else destroy_loop fuel next s
  end.

Definition mempool_destroy (s : mempool) : mempool := destroy_loop (size (blocks s)) 0 s.

(** *** mempool_malloc *)

(** [while(current != NULL)]: the first block that has a slot. *)
Fixpoint find_block (fuel power : nat) (current : Z) (s : mempool) : outcome (mempool * option Z) :=
  match fuel with
  | 0 => Aborted
  | S fuel =>
      let '(s, ok) := checkblock power current s in
      if ok then Normal (s, Some current)
      else let next := block_next (block s current) in
           if (next =? 0)%Z then Normal (s, None) else find_block fuel power next s
  end.

(** The first slot of the list is handed out. *)
Definition take_slot (power : nat) (current : Z) (s : mempool) : mempool * Z :=
  let head_free := freelist s current power in
  let s := upd_slot head_free (set_status 0) s in
  let s := upd_block current (set_freelist power (snext (slot s head_free))) s in
  let s := if negb (freelist s current power =? 0)%Z then upd_slot (freelist s current power) (set_sprev 0) s else s in
  let s := upd_slot head_free (set_block_ptr current) s in
  let s := upd_block current (set_used (u64 (b_used (block s current) + Z.of_nat power))) s in
  (s, head_free + sizeof_used_header)%Z.

(** A new block at the end of the list. *)
Definition expand (bestfit_size : Z) (s : mempool) : outcome (mempool * option Z) :=
  s ← (if (limit s <? mp_size s)%Z && (0 <? limit s)%Z then removeblocks s else Normal s);
  match newblockfn s (2 * bestfit_size + sizeof_block_header) with
  | None => Normal (s, None)
  | Some (pool, expand_size) =>
      let tail := block_tail s in
      let s := set_mp_size (u64 (mp_size s + expand_size)) s in
      let s := upd_block tail (set_block_next pool) s in
      let s := mk_mempool (<[pool := mk_block expand_size 0 tail 0 []]> (blocks s)) (slots s) pool (limit s) (mp_size s) in
      s ← fillblock pool expand_size true s;
      Normal (s, Some pool)
  end.

(** 0 stands for [NULL]. *)
Definition mempool_malloc (size : Z) (expand_ : bool) (s : mempool) : outcome (mempool * Z) :=
  let power := which_pow2 (u64 (size + sizeof_used_header)) in
  if power =? cutOffNum then Aborted
  else
    '(s, found) ← find_block (S (stdpp.base.size (blocks s))) power 0 s;
    match found with
    | Some current => Normal (take_slot power current s)
    | None =>
        if negb expand_ then Normal (s, 0%Z)
        else
          '(s, new) ← expand (cut power) s;
          match new with
          | None => Normal (s, 0%Z)
          | Some current =>
              let '(s, ok) := checkblock power current s in
              if ok then Normal (take_slot power current s) else Normal (s, 0%Z)
          end
    end.

(** *** mempool_free *)

(** [while(current->status == 1)] backwards: [size] and [first]. *)
Fixpoint back_loop (fuel : nat) (s : mempool) (current size first : Z) : outcome (Z * Z) :=
  match fuel with
  | 0 => Aborted
  | S fuel =>
      if (status (slot s current) =? 1)%Z then
        let size := (size + cut (slot_size (slot s current)))%Z in
        let first := current in
        let current := gprev (slot s current) in
        if (current =? 0)%Z then Normal (size, first) else back_loop fuel s current size first
      else Normal (size, first)
  end.

(** Forwards: [size] and [used_next]. *)
Fixpoint forth_loop (fuel : nat) (s : mempool) (current size : Z) : outcome (Z * Z) :=
  match fuel with
  | 0 => Aborted
  | S fuel =>
      if (status (slot s current) =? 1)%Z then
        let size := (size + cut (slot_size (slot s current)))%Z in
        let current := gnext (slot s current) in
        if (current =? 0)%Z then Normal (size, 0%Z) else forth_loop fuel s current size
      else Normal (size, current)
  end.

(** A slot is taken out of its free list. *)
Definition unlink_slot (block_head current : Z) (s : mempool) : mempool :=
  let x := slot s current in
  let s := if negb (sprev x =? 0)%Z then upd_slot (sprev x) (set_snext (snext x)) s
           else upd_block block_head (set_freelist (slot_size x) (snext x)) s in
  if negb (snext x =? 0)%Z then upd_slot (snext x) (set_sprev (sprev x)) s else s.

(** [while(current!=used_next)] *)
Fixpoint unlink_loop (fuel : nat) (block_head to_free used_next current : Z) (s : mempool) : outcome mempool :=
  match fuel with
  | 0 => Aborted
  | S fuel =>
      if (current =? used_next)%Z then Normal s
      else
        let s := if negb (current =? to_free)%Z then unlink_slot block_head current s else s in
        unlink_loop fuel block_head to_free used_next (gnext (slot s current)) s
  end.

(** [for(i=power; i>=0; i--)]: [k] is [i+1]; returns [current]. *)
Fixpoint rebuild_loop (k power : nat) (block_head loc left prev current : Z) (s : mempool) : mempool * Z :=
  match k with
  | 0 => (s, current)
  | S i =>
      if (cut i <=? left)%Z then
        let current := loc in
        let s := upd_slot current (set_size i) s in
        let s := upd_slot current (set_status 1) s in
        let s := upd_slot current (set_block_ptr block_head) s in
        let s := if negb (i =? power) then upd_slot current (set_gprev prev) s else s in
        let s := upd_slot current (set_gnext (loc + cut i)) s in
        let s := upd_slot current (set_sprev 0) s in
        let fl := freelist s block_head i in
        let s := if (fl =? 0)%Z then upd_slot current (set_snext 0) s
                 else upd_slot fl (set_sprev loc) (upd_slot current (set_snext fl) s) in
        let s := upd_block block_head (set_freelist i loc) s in
        rebuild_loop i power block_head (loc + cut i) (left - cut i) loc current s
      else rebuild_loop i power block_head loc left prev current s
  end.

Definition mempool_free (ptr_free : Z) (s : mempool) : outcome mempool :=
  let to_free := (ptr_free - sizeof_used_header)%Z in
  let s := upd_slot to_free (set_status 1) s in
  let block_head := block_ptr (slot s to_free) in
  let s := upd_block block_head (set_used (u64 (b_used (block s block_head) - Z.of_nat (slot_size (slot s to_free))))) s in
  let fuel := S (Z.to_nat (b_size (block s block_head) / 64)) in
  '(size, first) ← back_loop fuel s to_free 0 to_free;
  let size := (size - cut (slot_size (slot s to_free)))%Z in
  '(size, used_next) ← forth_loop fuel s to_free size;
  s ← unlink_loop fuel block_head to_free used_next first s;
  match floor_pow2 size with
  | None => Aborted
  | Some power =>
      let '(s, current) := rebuild_loop (S power) power block_head first size 0 to_free s in
      Normal (if negb (used_next =? 0)%Z then upd_slot used_next (set_gprev current) s
              else upd_slot current (set_gnext 0) s)
  end.

End ops.
