(* ===== verification/MempoolFacts.v ===== *)
(** * MempoolFacts: one block of the memory pool

    The doubly linked lists of a block, the tiling of its memory by slots,
    and what the operations on one block do to them. *)

From S2P Require Import Prelude Mempool.
Set Warnings "-clear-no-such-hyp".

(** ** Sizes *)

Lemma cut_pow i : i < cutOffNum -> cut i = (64 * 2 ^ Z.of_nat i)%Z.
Proof. intros Hi. unfold cutOffNum in Hi. do 25 (destruct i as [|i]; [reflexivity|]). lia. Qed.

Lemma cut_pos i : i < cutOffNum -> (64 <= cut i)%Z.
Proof. intros Hi. rewrite cut_pow by done. pose proof (Z.pow_pos_nonneg 2 (Z.of_nat i)). lia. Qed.

Lemma cut_S i : S i < cutOffNum -> cut (S i) = (2 * cut i)%Z.
Proof. intros Hi. rewrite !cut_pow by lia. rewrite Nat2Z.inj_succ, Z.pow_succ_r by lia. lia. Qed.

Lemma cut_lt i j : i < j < cutOffNum -> (cut i < cut j)%Z.
Proof.
  intros Hij. rewrite !cut_pow by lia. pose proof (Z.pow_lt_mono_r 2 (Z.of_nat i) (Z.of_nat j)). lia.
Qed.

#[global] Arguments cut : simpl never.
#[global] Arguments which_pow2 : simpl never.
#[global] Arguments cutOffPoints : simpl never.

Lemma which_pow2_loop_spec l i size : exists k, which_pow2_loop l i size = i + k /\ k <= length l /\
  (forall j c, j < k -> l !! j = Some c -> (c < size)%Z) /\ (forall c, l !! k = Some c -> (size <= c)%Z).
Proof.
  revert i. induction l as [|c l IH]; intros i; cbn [which_pow2_loop].
  - exists 0. split; [lia|]. split; [done|]. split; [lia|done].
  - destruct (Z.leb_spec size c) as [Hc|Hc].
    + exists 0. split; [lia|]. split; [lia|]. split; [lia|]. intros c' [= <-]. done.
    + destruct (IH (S i)) as (k & -> & Hk & H1 & H2). exists (S k). cbn. split; [lia|]. split; [lia|]. split; [|done].
      intros [|j] c' Hj; cbn; [by intros [= <-]|]. apply H1. lia.
Qed.

(** [which_pow2] is the smallest slot that fits. *)
Lemma which_pow2_spec size : let p := which_pow2 size in p <= cutOffNum /\
  (forall j, j < p -> (cut j < size)%Z) /\ (p < cutOffNum -> (size <= cut p)%Z).
Proof.
  unfold which_pow2. destruct (which_pow2_loop_spec cutOffPoints 0 size) as (k & -> & Hk & H1 & H2).
  change (length cutOffPoints) with cutOffNum in Hk. cbn [Nat.add].
  assert (Hl : forall j, j < cutOffNum -> cutOffPoints !! j = Some (cut j)).
  { intros j Hj. apply list_lookup_lookup_total_lt. exact Hj. }
  split; [done|]. split; intros; [apply (H1 j); [done|apply Hl; lia]|by apply H2, Hl].
Qed.

(** [floor_pow2] is the largest slot that the size fills. *)
Lemma floor_pow2_spec size : (64 <= size <= cut 24)%Z -> exists p, floor_pow2 size = Some p /\ p < cutOffNum /\
  (cut p <= size)%Z /\ (S p < cutOffNum -> (size < cut (S p))%Z).
Proof.
  intros Hs. destruct (which_pow2_spec size) as (Hp & H1 & H2). unfold floor_pow2. set (p := which_pow2 size) in *.
  assert (p < cutOffNum) as Hlt.
  { destruct (decide (p = cutOffNum)) as [E|]; [|unfold cutOffNum in *; lia]. specialize (H1 24). unfold cutOffNum in E. lia. }
  rewrite (list_lookup_lookup_total_lt cutOffPoints p) by exact Hlt. cbn [mbind option_bind]. fold (cut p). specialize (H2 Hlt).
  destruct (Z.ltb_spec size (cut p)) as [Hc|Hc].
  - destruct (Nat.eqb_spec p 0) as [E|E]; [rewrite E in Hc; change (cut 0) with 64%Z in Hc; lia|].
    exists (p - 1). split; [done|]. split; [lia|]. specialize (H1 (p - 1)). replace (S (p - 1)) with p by lia. lia.
  - exists p. split; [done|]. split; [done|]. split; [lia|]. intros HS. pose proof (cut_lt p (S p)). lia.
Qed.

(** ** Views *)

Section views.
Context {U : Uninit}.

Lemma slot_put a x s b : slot (put_slot a x s) b = if decide (b = a) then x else slot s b.
Proof.
  unfold slot, put_slot. cbn. destruct (decide (b = a)) as [->|Hne]; [by rewrite lookup_insert_eq|by rewrite lookup_insert_ne].
Qed.

Lemma slot_upd a f s b : slot (upd_slot a f s) b = if decide (b = a) then f (slot s a) else slot s b.
Proof. apply slot_put. Qed.

Lemma slot_upd_block b' f s a : slot (upd_block b' f s) a = slot s a.
Proof. done. Qed.

Lemma block_upd_slot a f s b : block (upd_slot a f s) b = block s b.
Proof. done. Qed.

Lemma block_put_slot a x s b : block (put_slot a x s) b = block s b.
Proof. done. Qed.

Lemma block_upd b f s : is_Some (blocks s !! b) -> block (upd_block b f s) b = f (block s b).
Proof.
  intros [h Hb]. unfold block, upd_block. cbn. rewrite !lookup_total_alt, lookup_alter_eq, Hb. done.
Qed.

Lemma block_upd_ne b b' f s : b' <> b -> block (upd_block b f s) b' = block s b'.
Proof. intros Hne. unfold block, upd_block. cbn. by rewrite !lookup_total_alt, lookup_alter_ne. Qed.

End views.

(** ** Doubly linked segments

    [dseg M p l e]: the slots [l] are linked by [pv] and [nx], [p] comes
    before the first and [e] after the last. *)

Section dseg.
Context (pv nx : slot_header -> Z).

Fixpoint dseg (M : Z -> slot_header) (p : Z) (l : list Z) (e : Z) : Prop :=
  match l with
  | [] => True
  | a :: l => pv (M a) = p /\ nx (M a) = default e (head l) /\ dseg M a l e
  end.

Lemma dseg_ext M M' p l e : (forall a, a ∈ l -> pv (M' a) = pv (M a) /\ nx (M' a) = nx (M a)) ->
  dseg M p l e -> dseg M' p l e.
Proof.
  revert p. induction l as [|a l IH]; intros p He; [done|]. cbn. intros (H1 & H2 & H3).
  destruct (He a) as [-> ->]; [left|]. split; [done|]. split; [done|]. apply IH; [|done]. intros b Hb. apply He. by right.
Qed.

Lemma dseg_cat M p l1 l2 e : dseg M p (l1 ++ l2) e <->
  dseg M p l1 (default e (head l2)) /\ dseg M (default p (last l1)) l2 e.
Proof.
  revert p. induction l1 as [|a l1 IH]; intros p; [cbn; tauto|]. cbn [app dseg]. rewrite IH. clear IH.
  destruct l1 as [|b l1]; [cbn; tauto|]. rewrite last_cons_cons.
  destruct (last (b :: l1)) eqn:E; [|by apply last_None in E]. cbn [head app]. tauto.
Qed.

Lemma dseg_snoc M p l a e : dseg M p (l ++ [a]) e <->
  dseg M p l a /\ pv (M a) = default p (last l) /\ nx (M a) = e.
Proof. rewrite dseg_cat. cbn. tauto. Qed.

(** A new predecessor or successor of the segment. *)
Lemma dseg_start M M' p p' a l e : a ∉ l -> dseg M p (a :: l) e ->
  pv (M' a) = p' -> nx (M' a) = nx (M a) -> (forall b, b ∈ l -> pv (M' b) = pv (M b) /\ nx (M' b) = nx (M b)) ->
  dseg M' p' (a :: l) e.
Proof.
  intros Hn (H1 & H2 & H3) E1 E2 He. cbn. rewrite E1, E2. split; [done|]. split; [done|]. by eapply dseg_ext.
Qed.

(** The same for a segment that may be empty. *)
Lemma dseg_restart M M' p p' l e : NoDup l -> dseg M p l e ->
  (forall x, x ∈ l -> nx (M' x) = nx (M x) /\ pv (M' x) = if decide (Some x = head l) then p' else pv (M x)) ->
  dseg M' p' l e.
Proof.
  destruct l as [|a l]; [done|]. intros [Hn _]%NoDup_cons Hs HM. eapply dseg_start; [exact Hn|exact Hs| | |].
  - destruct (HM a) as [_ ->]; [left|]. by rewrite decide_True.
  - apply HM. left.
  - intros b Hb. destruct (HM b) as [-> ->]; [by right|]. rewrite decide_False; [done|]. cbn. intros [= ->]. done.
Qed.

Lemma dseg_end M M' p a l e e' : a ∉ l -> dseg M p (l ++ [a]) e ->
  nx (M' a) = e' -> pv (M' a) = pv (M a) -> (forall b, b ∈ l -> pv (M' b) = pv (M b) /\ nx (M' b) = nx (M b)) ->
  dseg M' p (l ++ [a]) e'.
Proof.
  intros Hn (H1 & H2 & H3)%dseg_snoc E1 E2 He. apply dseg_snoc. rewrite E1, E2.
  split; [by eapply dseg_ext|]. done.
Qed.

End dseg.

(** ** The free lists of a block

    [G] are the slots that are in the lists. *)

Record fl_ok (M : Z -> slot_header) (fl : list Z) (G : Z -> Prop) (FL : nat -> list Z) : Prop := {
  fo_len : length fl = cutOffNum;
  fo_zero : ~ G 0%Z;
  fo_head i : i < cutOffNum -> fl !!! i = default 0%Z (head (FL i));
  fo_seg i : i < cutOffNum -> dseg sprev snext M 0 (FL i) 0;
  fo_nodup i : i < cutOffNum -> NoDup (FL i);
  fo_elem i a : i < cutOffNum -> a ∈ FL i <-> G a /\ slot_size (M a) = i;
  fo_size a : G a -> slot_size (M a) < cutOffNum
}.

Lemma fl_ok_ext M M' fl (G G' : Z -> Prop) FL : (forall a, G a <-> G' a) ->
  (forall a, G a -> slot_size (M' a) = slot_size (M a) /\ sprev (M' a) = sprev (M a) /\ snext (M' a) = snext (M a)) ->
  fl_ok M fl G FL -> fl_ok M' fl G' FL.
Proof.
  intros EG EM [F1 F2 F3 F4 F5 F6 F7]. split; auto.
  - by rewrite <- EG.
  - intros i Hi. eapply dseg_ext; [|by apply F4]. intros a Ha. apply F6 in Ha as [Ha _]; [|done]. destruct (EM a Ha) as (_ & ? & ?). done.
  - intros i a Hi. rewrite F6 by done. rewrite EG. split; intros [HG E]; (split; [done|]); apply EG in HG; destruct (EM a HG); congruence.
  - intros a Ha. apply EG in Ha as Hg. destruct (EM a Hg) as [-> _]. auto.
Qed.

Lemma fl_head_zero M fl G FL i : fl_ok M fl G FL -> i < cutOffNum -> fl !!! i = 0%Z -> FL i = [].
Proof.
  intros Hf Hi E. rewrite (fo_head _ _ _ _ Hf) in E by done. destruct (FL i) as [|a l] eqn:El; [done|]. cbn in E. subst a.
  exfalso. apply (fo_zero _ _ _ _ Hf). assert (0%Z ∈ FL i) as H0 by (rewrite El; left). by apply (fo_elem _ _ _ _ Hf) in H0 as [].
Qed.

(** Putting a slot in front of its list. *)
Lemma fl_push M M' fl G FL x i : fl_ok M fl G FL -> ~ G x -> x <> 0%Z -> i < cutOffNum ->
  slot_size (M' x) = i -> sprev (M' x) = 0%Z -> snext (M' x) = fl !!! i ->
  (forall y, G y -> slot_size (M' y) = slot_size (M y) /\ snext (M' y) = snext (M y) /\
     sprev (M' y) = if decide (y = fl !!! i) then x else sprev (M y)) ->
  fl_ok M' (<[i := x]> fl) (fun y => y = x \/ G y) (fun j => if decide (j = i) then x :: FL i else FL j).
Proof.
  intros Hf Hx H0 Hi Es Ep En Hy. pose proof Hf as [F1 F2 F3 F4 F5 F6 F7].
  assert (Hxi : forall j, j < cutOffNum -> x ∉ FL j) by (intros j Hj [? _]%F6; done). split.
  - by rewrite length_insert.
  - intros [?|?]; [congruence|done].
  - intros j Hj. case_decide as E.
    + subst j. by rewrite list_lookup_total_insert_eq by lia.
    + rewrite list_lookup_total_insert_ne by done. auto.
  - intros j Hj. case_decide as E.
    + subst j. cbn. split; [done|]. split; [by rewrite En, F3|]. specialize (F3 i Hi). destruct (FL i) as [|a l] eqn:El; [done|]. cbn in F3.
      assert (Hal : forall y, y ∈ a :: l -> G y) by (intros y Hin; rewrite <- El in Hin; by apply F6 in Hin as []).
      pose proof (F5 i Hi) as Hnd. rewrite El in Hnd. apply NoDup_cons in Hnd as [Hnd _].
      pose proof (F4 i Hi) as Hseg. rewrite El in Hseg.
      eapply dseg_start; [exact Hnd|exact Hseg| | |].
      * destruct (Hy a) as (_ & _ & ->); [apply Hal; left|]. by rewrite decide_True.
      * destruct (Hy a) as (_ & -> & _); [apply Hal; left|done].
      * intros b Hb. destruct (Hy b) as (_ & -> & ->); [apply Hal; by right|]. rewrite decide_False; [done|]. congruence.
    + eapply dseg_ext; [|by apply F4]. intros a Ha. apply F6 in Ha as [Ha Ea]; [|done]. destruct (Hy a Ha) as (_ & -> & ->).
      rewrite decide_False; [done|]. intros ->. specialize (F3 i Hi). rewrite F3 in Ha, Ea. destruct (FL i) as [|b l] eqn:El; [done|].
      cbn in Ha, Ea. assert (b ∈ FL i) as Hb by (rewrite El; left). apply F6 in Hb as [_ Hb]; [|done]. congruence.
  - intros j Hj. case_decide; [|auto]. subst j. constructor; auto.
  - intros j a Hj. destruct (decide (a = x)) as [->|Hax].
    + rewrite Es. case_decide as E; [subst j; split; [by auto|intros _; left]|].
      split; [intros Hin; by destruct (Hxi j Hj)|]. intros [_ ?]. congruence.
    + assert (G a -> slot_size (M' a) = slot_size (M a)) as Esz by (intros Ha; by destruct (Hy a Ha)).
      case_decide as E.
      * subst j. rewrite elem_of_cons, F6 by done. intuition congruence.
      * rewrite F6 by done. intuition congruence.
  - intros a [->|Ha]; [lia|]. destruct (Hy a Ha) as [-> _]. auto.
Qed.

(** Joining the two parts of a list around a slot that is taken out. *)
Lemma dseg_join M M' l1 a l2 : NoDup (l1 ++ a :: l2) -> 0%Z ∉ l1 ++ a :: l2 ->
  dseg sprev snext M 0 (l1 ++ a :: l2) 0 ->
  (forall y, y ∈ l1 ++ l2 ->
     snext (M' y) = (if decide (y = sprev (M a)) then snext (M a) else snext (M y)) /\
     sprev (M' y) = (if decide (y = snext (M a)) then sprev (M a) else sprev (M y))) ->
  dseg sprev snext M' 0 (l1 ++ l2) 0.
Proof.
  intros Hnd H0 [Hs1 (Ep & En & Hs2)]%dseg_cat Hy. apply dseg_cat.
  apply NoDup_app in Hnd as (Hn1 & Hdis & [Ha2 Hn2]%NoDup_cons).
  rewrite Ep, En in Hy. rewrite not_elem_of_app, not_elem_of_cons in H0. destruct H0 as (H01 & H0a & H02). split.
  - destruct l1 as [|p l1 _] using rev_ind; [done|]. rewrite last_snoc in Hy. change (default 0%Z (Some p)) with p in Hy.
    apply NoDup_app in Hn1 as (_ & Hp & _).
    assert (Hpl : p ∉ l1) by (intros Hin; destruct (Hp p Hin); left).
    assert (Hnl : forall y, y ∈ l1 ++ [p] -> y <> default 0%Z (head l2)).
    { intros y Hin ->. destruct l2 as [|n l2]; cbn in *; [done|]. apply (Hdis n Hin). right. left. }
    eapply dseg_end; [exact Hpl|exact Hs1| | |].
    + destruct (Hy p) as [-> _]; [set_solver|]. by rewrite decide_True.
    + destruct (Hy p) as [_ ->]; [set_solver|]. rewrite decide_False; [done|]. apply Hnl. set_solver.
    + intros b Hb. destruct (Hy b) as [-> ->]; [set_solver|]. rewrite !decide_False; [done|intros ->; by apply Hpl|apply Hnl; set_solver].
  - destruct l2 as [|n l2]; [done|]. change (default 0%Z (head (n :: l2))) with n in Hy. apply NoDup_cons in Hn2 as [Hnl Hn2].
    assert (Hpl : forall y, y ∈ n :: l2 -> y <> default 0%Z (last l1)).
    { intros y Hin E. destruct (last l1) as [p|] eqn:El; cbn in E; [|congruence]. subst p.
      apply last_Some_elem_of in El. apply (Hdis y El). by right. }
    eapply dseg_start; [exact Hnl|exact Hs2| | |].
    + destruct (Hy n) as [_ ->]; [set_solver|]. by rewrite decide_True.
    + destruct (Hy n) as [-> _]; [set_solver|]. rewrite decide_False; [done|]. apply Hpl. left.
    + intros b Hb. destruct (Hy b) as [-> ->]; [set_solver|]. rewrite !decide_False; [done|apply Hpl; by right|congruence].
Qed.

(** Taking a slot out of its list. *)
Lemma fl_unlink M M' fl G FL a : fl_ok M fl G FL -> G a ->
  (forall y, G y -> y <> a -> slot_size (M' y) = slot_size (M y) /\
     snext (M' y) = (if decide (y = sprev (M a)) then snext (M a) else snext (M y)) /\
     sprev (M' y) = (if decide (y = snext (M a)) then sprev (M a) else sprev (M y))) ->
  exists FL', fl_ok M' (if decide (sprev (M a) = 0%Z) then <[slot_size (M a) := snext (M a)]> fl else fl)
    (fun y => G y /\ y <> a) FL' /\
    (forall j, FL' j = filter (fun y => y <> a) (FL j)).
Proof.
  intros Hf Ha Hy. pose proof Hf as [F1 F2 F3 F4 F5 F6 F7]. set (i := slot_size (M a)). assert (Hi : i < cutOffNum) by (by apply F7).
  assert (Hai : a ∈ FL i) by (by apply F6). apply list_elem_of_split in Hai as (l1 & l2 & El).
  pose proof (F5 i Hi) as Hnd. rewrite El in Hnd. pose proof (F4 i Hi) as Hseg. rewrite El in Hseg.
  assert (Hg : forall y, y ∈ l1 ++ a :: l2 -> G y) by (intros y Hin; rewrite <- El in Hin; by apply F6 in Hin as []).
  pose proof Hnd as (Hn1 & Hdis & [Ha2 Hn2]%NoDup_cons)%NoDup_app.
  assert (Ha1 : a ∉ l1) by (intros Hin; destruct (Hdis a Hin); left).
  assert (Hfil : forall l : list Z, a ∉ l -> filter (fun y => y <> a) l = l).
  { intros l. induction l as [|b l IH]; [done|]. intros [? ?]%not_elem_of_cons. rewrite filter_cons_True by congruence. by rewrite IH. }
  assert (EF : forall j, j < cutOffNum -> j <> i -> filter (fun y => y <> a) (FL j) = FL j).
  { intros j Hj Hne. apply Hfil. intros [_ E]%F6; [|done]. by apply Hne. }
  assert (EFi : filter (fun y => y <> a) (FL i) = l1 ++ l2).
  { rewrite El, filter_app, filter_cons_False by tauto. by rewrite !Hfil. }
  exists (fun j => filter (fun y => y <> a) (FL j)). split; [|done].
  pose proof Hseg as (Hs1 & Ep & En & Hs2)%dseg_cat. split.
  - case_decide; by rewrite ?length_insert.
  - tauto.
  - intros j Hj. destruct (decide (j = i)) as [->|Hne].
    + rewrite EFi. rewrite Ep. destruct (last l1) as [p|] eqn:Elp; cbn [default].
      * apply last_Some_elem_of in Elp as Hp. rewrite decide_False by (intros E; apply F2, Hg; rewrite <- E; set_solver).
        rewrite F3, El by done. by destruct l1.
      * apply last_None in Elp as ->. rewrite decide_True by done. rewrite list_lookup_total_insert_eq by lia. by rewrite En.
    + rewrite EF by done. case_decide; [rewrite list_lookup_total_insert_ne by done|]; auto.
  - intros j Hj. destruct (decide (j = i)) as [->|Hne].
    + rewrite EFi. apply (dseg_join M M' l1 a l2 Hnd); [intros Hin; by apply F2, Hg|done|].
      intros y Hin. assert (y <> a) by (intros ->; set_solver). destruct (Hy y) as (_ & ? & ?); [apply Hg; set_solver|done|done].
    + rewrite EF by done. eapply dseg_ext; [|by apply F4]. intros y Hin. apply F6 in Hin as [Hgy Ey]; [|done].
      assert (Hne' : forall z, z ∈ l1 ++ a :: l2 -> y <> z).
      { intros z Hz ->. rewrite <- El in Hz. apply F6 in Hz as [_ Hz]; [|done]. congruence. }
      assert (y <> a) by (apply Hne'; set_solver). destruct (Hy y) as (_ & -> & ->); [done|done|].
      rewrite Ep, En. rewrite !decide_False; [done| |].
      * destruct (last l1) as [p|] eqn:Elp; cbn; [|intros ->; by apply F2]. apply last_Some_elem_of in Elp. apply Hne'. set_solver.
      * destruct l2 as [|n l2']; cbn; [intros ->; by apply F2|]. apply Hne'. set_solver.
  - intros j Hj. apply NoDup_filter. auto.
  - intros j y Hj. rewrite list_elem_of_filter, F6 by done. split.
    + intros (Hne & Hgy & E). split; [done|]. destruct (Hy y) as (-> & _); done.
    + intros ([Hgy Hne] & E). split; [done|]. split; [done|]. destruct (Hy y) as (Ey & _); [done..|]. congruence.
  - intros y [Hgy Hne]. destruct (Hy y) as (-> & _); [done..|]. auto.
Qed.

(** ** Tiles

    The slots [gl] cover the memory from [start] to [stop]. *)

Fixpoint tiles (M : Z -> slot_header) (start : Z) (gl : list Z) (stop : Z) : Prop :=
  match gl with
  | [] => start = stop
  | a :: gl => a = start /\ slot_size (M a) < cutOffNum /\ tiles M (start + cut (slot_size (M a))) gl stop
  end.

Lemma tiles_app M start l1 l2 stop :
  tiles M start (l1 ++ l2) stop <-> exists mid, tiles M start l1 mid /\ tiles M mid l2 stop.
Proof.
  revert start. induction l1 as [|a l1 IH]; intros start; cbn.
  - split; [by exists start|]. by intros (mid & -> & ?).
  - rewrite IH. naive_solver.
Qed.

Lemma tiles_ext M M' start gl stop : (forall a, a ∈ gl -> slot_size (M' a) = slot_size (M a)) ->
  tiles M start gl stop -> tiles M' start gl stop.
Proof.
  revert start. induction gl as [|a gl IH]; intros start He; [done|]. cbn. rewrite (He a) by left.
  intros (? & ? & ?). split; [done|]. split; [done|]. apply IH; [|done]. intros b Hb. apply He. by right.
Qed.

Lemma tiles_len M start gl stop : tiles M start gl stop -> (start + 64 * Z.of_nat (length gl) <= stop)%Z.
Proof.
  revert start. induction gl as [|a gl IH]; intros start; cbn; [lia|].
  intros (-> & Hs & Ht). apply IH in Ht. pose proof (cut_pos _ Hs). lia.
Qed.

Lemma tiles_in M start gl stop a : tiles M start gl stop -> a ∈ gl ->
  (start <= a)%Z /\ (a + cut (slot_size (M a)) <= stop)%Z /\ slot_size (M a) < cutOffNum.
Proof.
  intros Ht Ha. apply list_elem_of_split in Ha as (l1 & l2 & ->). apply tiles_app in Ht as (mid & Ht1 & Ht2).
  cbn in Ht2. destruct Ht2 as (-> & Hs & Ht2). apply tiles_len in Ht1, Ht2. lia.
Qed.

Lemma tiles_apart M start l1 a l2 stop b : tiles M start (l1 ++ a :: l2) stop -> b ∈ l1 ++ l2 ->
  (a + cut (slot_size (M a)) <= b \/ b + cut (slot_size (M b)) <= a)%Z.
Proof.
  intros (mid & Ht1 & -> & Hs & Ht2)%tiles_app [Hb|Hb]%elem_of_app.
  - apply (tiles_in _ _ _ _ _ Ht1) in Hb. lia.
  - apply (tiles_in _ _ _ _ _ Ht2) in Hb. lia.
Qed.

Lemma tiles_nodup M start gl stop : tiles M start gl stop -> NoDup gl.
Proof.
  revert start. induction gl as [|a gl IH]; intros start; [constructor|]. intros Ht. constructor.
  - intros Hin. pose proof (tiles_apart M start [] a gl stop a Ht Hin). cbn in Ht. pose proof (cut_pos (slot_size (M a))). lia.
  - cbn in Ht. destruct Ht as (_ & _ & Ht). by eapply IH.
Qed.

(** Two slots that share a byte are the same. *)
Lemma tiles_disjoint M start gl stop a b : tiles M start gl stop -> a ∈ gl -> b ∈ gl -> a <> b ->
  (a + cut (slot_size (M a)) <= b \/ b + cut (slot_size (M b)) <= a)%Z.
Proof.
  intros Ht Ha Hb Hne. apply list_elem_of_split in Ha as (l1 & l2 & ->). eapply tiles_apart; [done|]. set_solver.
Qed.

(** ** One block *)

Section block.
Context {U : Uninit}.

Definition is_free (s : mempool) (a : Z) : Prop := status (slot s a) = 1%Z.

(** The sum that [used] counts: the size classes of the slots in use. *)
Definition used_sum (M : Z -> slot_header) (gl : list Z) : Z :=
  foldr (fun a n => if decide (status (M a) = 1%Z) then n else (Z.of_nat (slot_size (M a)) + n)%Z) 0%Z gl.

Record binv (s : mempool) (b start stop : Z) (gl : list Z) (FL : nat -> list Z) : Prop := {
  bi_some : is_Some (blocks s !! b);
  bi_start : (0 < start)%Z;
  bi_len : (stop - start <= cut 24)%Z;
  bi_room : (stop - start <= b_size (block s b))%Z;
  bi_tiles : tiles (slot s) start gl stop;
  bi_glist : dseg gprev gnext (slot s) 0 gl 0;
  bi_status a : a ∈ gl -> status (slot s a) = 0%Z \/ status (slot s a) = 1%Z;
  bi_block a : a ∈ gl -> block_ptr (slot s a) = b;
  bi_free : fl_ok (slot s) (freelists (block s b)) (fun a => a ∈ gl /\ is_free s a) FL;
  bi_used : b_used (block s b) = used_sum (slot s) gl
}.

(** Slot [a] of class [n] is in use. *)
Definition in_use (s : mempool) (gl : list Z) (a : Z) (n : nat) : Prop :=
  a ∈ gl /\ status (slot s a) = 0%Z /\ slot_size (slot s a) = n.

(** Apart from slots, only the free lists and the count of the block have
    changed. *)
Record frame (b : Z) (s s' : mempool) : Prop := {
  fr_block b' : b' <> b -> blocks s' !! b' = blocks s !! b';
  fr_some : is_Some (blocks s !! b) -> is_Some (blocks s' !! b);
  fr_size : b_size (block s' b) = b_size (block s b);
  fr_prev : block_prev (block s' b) = block_prev (block s b);
  fr_next : block_next (block s' b) = block_next (block s b);
  fr_tail : block_tail s' = block_tail s;
  fr_limit : limit s' = limit s;
  fr_mp : mp_size s' = mp_size s
}.

(** Moreover the only slots that have changed are those of the block. *)
Definition only_in (b start stop : Z) (s s' : mempool) : Prop :=
  (forall x, ~ (start <= x < stop)%Z -> slot s' x = slot s x) /\ frame b s s'.

Lemma used_sum_cons M a gl : used_sum M (a :: gl) =
  ((if decide (status (M a) = 1%Z) then 0 else Z.of_nat (slot_size (M a))) + used_sum M gl)%Z.
Proof. unfold used_sum at 1. cbn. fold (used_sum M gl). case_decide; lia. Qed.

Lemma used_sum_ext M M' gl : (forall a, a ∈ gl -> status (M' a) = status (M a) /\ slot_size (M' a) = slot_size (M a)) ->
  used_sum M' gl = used_sum M gl.
Proof.
  induction gl as [|a gl IH]; intros He; [done|]. rewrite !used_sum_cons. destruct (He a) as [-> ->]; [left|].
  rewrite IH; [done|]. intros b Hb. apply He. by right.
Qed.

Lemma used_sum_app M l1 l2 : used_sum M (l1 ++ l2) = (used_sum M l1 + used_sum M l2)%Z.
Proof. induction l1 as [|a l1 IH]; [done|]. cbn [app]. rewrite !used_sum_cons, IH. lia. Qed.

Lemma used_sum_bounds M start gl stop : tiles M start gl stop -> (0 <= used_sum M gl <= 25 * (stop - start))%Z.
Proof.
  revert start. induction gl as [|a gl IH]; intros start; [cbn; lia|]. cbn [tiles]. intros (-> & Hs & Ht).
  rewrite used_sum_cons. pose proof (cut_pos _ Hs). apply IH in Ht. unfold cutOffNum in Hs. case_decide; lia.
Qed.

Lemma frame_refl b s : frame b s s.
Proof. by split. Qed.

Lemma frame_trans b s1 s2 s3 : frame b s1 s2 -> frame b s2 s3 -> frame b s1 s3.
Proof.
  intros [A2 A3 A4 A5 A6 A7 A8 A9] [B2 B3 B4 B5 B6 B7 B8 B9]. split; try congruence; auto.
  intros b' Hb. by rewrite B2, A2.
Qed.

Lemma frame_slot b s a f s1 : frame b s s1 -> frame b s (upd_slot a f s1).
Proof. intros Hf. eapply frame_trans; [exact Hf|]. by split. Qed.

Lemma frame_put b s a x s1 : frame b s s1 -> frame b s (put_slot a x s1).
Proof. intros Hf. eapply frame_trans; [exact Hf|]. by split. Qed.

Lemma frame_upd b f s : is_Some (blocks s !! b) ->
  (forall h, b_size (f h) = b_size h /\ block_prev (f h) = block_prev h /\ block_next (f h) = block_next h) ->
  frame b s (upd_block b f s).
Proof.
  intros Hb Hf. destruct (Hf (block s b)) as (H1 & H2 & H3). split; try done; try (by rewrite block_upd).
  - intros b' Hne. cbn. by rewrite lookup_alter_ne.
  - intros _. cbn. rewrite lookup_alter_eq. destruct Hb as [h ->]. by eexists.
Qed.

Lemma frame_freelist b s i v s1 : is_Some (blocks s !! b) -> frame b s s1 -> frame b s (upd_block b (set_freelist i v) s1).
Proof. intros Hb Hf. eapply frame_trans; [exact Hf|]. apply frame_upd; [|done]. by apply (fr_some _ _ _ Hf). Qed.

Lemma frame_used b s v s1 : is_Some (blocks s !! b) -> frame b s s1 -> frame b s (upd_block b (set_used v) s1).
Proof. intros Hb Hf. eapply frame_trans; [exact Hf|]. apply frame_upd; [|done]. by apply (fr_some _ _ _ Hf). Qed.

Lemma frame_if b s (c : bool) s1 s2 : frame b s s1 -> frame b s s2 -> frame b s (if c then s1 else s2).
Proof. by destruct c. Qed.

Lemma only_in_trans b start stop s1 s2 s3 : only_in b start stop s1 s2 -> only_in b start stop s2 s3 -> only_in b start stop s1 s3.
Proof. intros [A1 A2] [B1 B2]. split; [|by eapply frame_trans]. intros x Hx. by rewrite B1, A1. Qed.

Lemma only_in_refl b start stop s : only_in b start stop s s.
Proof. split; [done|apply frame_refl]. Qed.

End block.

Create HintDb mempool.
#[export] Hint Resolve frame_refl frame_slot frame_put frame_freelist frame_used frame_if : mempool.
