(* ===== verification/MempoolOps.v ===== *)
(** * MempoolOps: the operations on one block of the memory pool *)

From S2P Require Import Prelude Mempool MempoolFacts.
Set Warnings "-clear-no-such-hyp".

Section ops.
Context {U : Uninit} {L : PoolLayout} {A : BlockAlloc}.

Lemma binv_in s b start stop gl FL a : binv s b start stop gl FL -> a ∈ gl ->
  (start <= a < stop)%Z /\ (a + cut (slot_size (slot s a)) <= stop)%Z /\ slot_size (slot s a) < cutOffNum /\ a <> 0%Z.
Proof.
  intros Hb Ha. destruct (tiles_in _ _ _ _ _ (bi_tiles _ _ _ _ _ _ Hb) Ha) as (H1 & H2 & H3).
  pose proof (cut_pos _ H3). pose proof (bi_start _ _ _ _ _ _ Hb). lia.
Qed.

Lemma binv_used_room s b start stop gl FL : binv s b start stop gl FL ->
  (0 <= b_used (block s b) <= 25 * 2 ^ 30)%Z.
Proof.
  intros Hb. rewrite (bi_used _ _ _ _ _ _ Hb). pose proof (used_sum_bounds _ _ _ _ (bi_tiles _ _ _ _ _ _ Hb)).
  pose proof (bi_len _ _ _ _ _ _ Hb) as Hl. change (cut 24) with (2 ^ 30)%Z in Hl. lia.
Qed.

(** The status of one slot changes. *)
Lemma used_sum_flip M M' gl a : NoDup gl -> a ∈ gl ->
  (forall x, x ∈ gl -> slot_size (M' x) = slot_size (M x) /\ (x <> a -> status (M' x) = status (M x))) ->
  (used_sum M' gl - (if decide (status (M' a) = 1) then 0 else Z.of_nat (slot_size (M a))) =
   used_sum M gl - (if decide (status (M a) = 1) then 0 else Z.of_nat (slot_size (M a))))%Z.
Proof.
  intros Hn Ha HM. apply list_elem_of_split in Ha as (l1 & l2 & ->). rewrite !used_sum_app, !used_sum_cons.
  apply NoDup_app in Hn as (_ & Hd & [Ha2 _]%NoDup_cons).
  assert (forall l, (forall x, x ∈ l -> x ∈ l1 ++ a :: l2 /\ x <> a) -> used_sum M' l = used_sum M l) as Hx.
  { intros l Hl. apply used_sum_ext. intros x Hin. destruct (Hl x Hin) as [H1 H2]. destruct (HM x H1). auto. }
  rewrite (Hx l1), (Hx l2).
  - destruct (HM a) as [-> _]; [set_solver|]. lia.
  - intros x Hin. split; [set_solver|]. congruence.
  - intros x Hin. split; [set_solver|]. intros ->. apply (Hd a Hin). left.
Qed.

(** ** Taking a slot *)

Lemma take_slot_views s b power a n : is_Some (blocks s !! b) -> length (freelists (block s b)) = cutOffNum ->
  power < cutOffNum -> freelist s b power = a -> snext (slot s a) = n -> n <> a ->
  let s' := (take_slot power b s).1 in
  (forall x, slot s' x = if decide (x = a) then set_block_ptr b (set_status 0 (slot s a))
                         else if decide (x = n /\ n <> 0%Z) then set_sprev 0 (slot s x) else slot s x) /\
  block s' b = set_used (u64 (b_used (block s b) + Z.of_nat power)) (set_freelist power n (block s b)) /\
  (take_slot power b s).2 = (a + 40)%Z.
Proof.
  intros Hb Hlen Hp Ea En Hne. unfold take_slot. rewrite Ea. cbn zeta.
  assert (E1 : snext (slot (upd_slot a (set_status 0) s) a) = n) by (by rewrite slot_upd, decide_True).
  rewrite E1.
  assert (E2 : freelist (upd_block b (set_freelist power n) (upd_slot a (set_status 0) s)) b power = n).
  { unfold freelist. rewrite block_upd by done. cbn [freelists set_freelist]. by rewrite list_lookup_total_insert_eq by (rewrite block_upd_slot; lia). }
  rewrite E2. cbn [fst snd]. split; [|split; [|done]].
  - intros x. rewrite slot_upd_block, slot_upd. destruct (Z.eqb_spec n 0) as [En0|En0]; cbn [negb];
      rewrite ?slot_upd, ?slot_upd_block, ?slot_upd; repeat case_decide; try tauto; try congruence; naive_solver.
  - rewrite block_upd; [|destruct (negb _); cbn; rewrite lookup_alter_eq; destruct Hb as [h ->]; by eexists].
    rewrite block_upd_slot. destruct (negb _); rewrite ?block_upd_slot, block_upd by done; by rewrite block_upd_slot.
Qed.

(** The first slot of a list, and the one behind it. *)
Lemma fl_first M fl G FL i a l : fl_ok M fl G FL -> i < cutOffNum -> FL i = a :: l ->
  fl !!! i = a /\ G a /\ slot_size (M a) = i /\ sprev (M a) = 0%Z /\ snext (M a) = default 0%Z (head l) /\
  snext (M a) <> a.
Proof.
  intros Hf Hi El. pose proof (fo_head _ _ _ _ Hf i Hi) as Hh. rewrite El in Hh.
  assert (a ∈ FL i) as Ha by (rewrite El; left). apply (fo_elem _ _ _ _ Hf) in Ha as [Ha Es]; [|done].
  pose proof (fo_seg _ _ _ _ Hf i Hi) as Hs. rewrite El in Hs. destruct Hs as (E1 & E2 & _).
  do 5 (split; [done|]). rewrite E2. pose proof (fo_nodup _ _ _ _ Hf i Hi) as Hn. rewrite El in Hn. apply NoDup_cons in Hn as [Hn _].
  destruct l as [|c l]; cbn; [intros <-; by apply (fo_zero _ _ _ _ Hf)|]. intros ->. apply Hn. left.
Qed.

Lemma take_slot_frame s b power : is_Some (blocks s !! b) -> frame b s (take_slot power b s).1.
Proof. intros Hb. unfold take_slot. cbn [fst]. eauto 10 with mempool. Qed.

Lemma take_slot_spec s b start stop gl FL power a l : binv s b start stop gl FL -> power < cutOffNum ->
  FL power = a :: l ->
  let s' := (take_slot power b s).1 in
  (take_slot power b s).2 = (a + 40)%Z /\ a ∈ gl /\ is_free s a /\ slot_size (slot s a) = power /\
  only_in b start stop s s' /\
  (exists FL', binv s' b start stop gl FL') /\
  (forall x n, in_use s' gl x n <-> in_use s gl x n \/ (x = a /\ n = power)).
Proof.
  intros Hb Hp El s'. pose proof Hb as [B1 B2 B3 B4 B5 B6 B7 B8 B9 B10].
  destruct (fl_first _ _ _ _ _ _ _ B9 Hp El) as (Eh & [Ha Hfa] & Esz & Epr & En & Hna).
  pose proof (fo_len _ _ _ _ B9) as Hlen. pose proof (take_slot_frame s b power B1) as Hfr.
  destruct (take_slot_views s b power a _ B1 Hlen Hp Eh eq_refl Hna) as (Vs & Vb & Vp). fold s' in Vs, Vb, Hfr.
  assert (Hn : snext (slot s a) <> 0%Z -> snext (slot s a) ∈ gl).
  { rewrite En. intros H0. destruct l as [|c l]; [done|]. cbn. assert (c ∈ FL power) as Hc by (rewrite El; right; left).
    by apply (fo_elem _ _ _ _ B9) in Hc as [[Hc _] _]. }
  assert (Hcore : forall x, slot_size (slot s' x) = slot_size (slot s x) /\ gprev (slot s' x) = gprev (slot s x) /\
    gnext (slot s' x) = gnext (slot s x) /\ status (slot s' x) = if decide (x = a) then 0%Z else status (slot s x)).
  { intros x. rewrite Vs. repeat case_decide; subst; done. }
  assert (Hbp : forall x, block_ptr (slot s' x) = if decide (x = a) then b else block_ptr (slot s x)).
  { intros x. rewrite Vs. repeat case_decide; done. }
  assert (Hnd : NoDup gl) by (by eapply tiles_nodup).
  do 4 (split; [done|]). split; [split; [|done]|split].
  - intros x Hx. rewrite Vs. rewrite decide_False, decide_False; [done| |].
    + intros [-> H0]. by destruct (binv_in _ _ _ _ _ _ _ Hb (Hn H0)).
    + intros ->. by destruct (binv_in _ _ _ _ _ _ _ Hb Ha).
  - destruct (fl_unlink _ (slot s') _ _ _ a B9 (conj Ha Hfa)) as (FL' & HF & _).
    { intros y [Hy _] Hya. destruct (Hcore y) as (-> & _). split; [done|].
      assert (y <> 0%Z) as Hy0 by apply (binv_in _ _ _ _ _ _ _ Hb Hy).
      rewrite Vs, (decide_False (P := y = a)) by done. rewrite Epr, (decide_False (P := y = 0%Z)) by done.
      destruct (decide (y = snext (slot s a))) as [E|E].
      - rewrite decide_True by (split; congruence). done.
      - rewrite decide_False by tauto. done. }
    exists FL'. split.
    + by apply Hfr.
    + done.
    + done.
    + by rewrite (fr_size _ _ _ Hfr).
    + eapply tiles_ext; [|exact B5]. intros x _. apply Hcore.
    + eapply dseg_ext; [|exact B6]. intros x _. destruct (Hcore x) as (_ & ? & ? & _). done.
    + intros x Hx. destruct (Hcore x) as (_ & _ & _ & ->). destruct (decide (x = a)); [by left|by apply B7].
    + intros x Hx. rewrite Hbp. destruct (decide (x = a)); [done|]. by apply B8.
    + rewrite Vb. cbn [freelists set_used set_freelist]. rewrite Epr, Esz, decide_True in HF by done.
      eapply fl_ok_ext; [|by intros|exact HF]. intros x. unfold is_free. destruct (Hcore x) as (_ & _ & _ & ->).
      destruct (decide (x = a)) as [->|]; [split; [tauto|intros [_ ?]; done]|tauto].
    + rewrite Vb. cbn [b_used set_used]. pose proof (binv_used_room _ _ _ _ _ _ Hb). unfold cutOffNum in Hp.
      unfold u64. rewrite Z.mod_small by lia. rewrite B10.
      pose proof (used_sum_flip (slot s) (slot s') gl a Hnd Ha) as Hflip. rewrite Hfa, Esz in Hflip.
      destruct (Hcore a) as (_ & _ & _ & Esta). rewrite decide_True in Esta by done. rewrite Esta in Hflip.
      rewrite decide_False, decide_True in Hflip by done. rewrite Z.sub_0_r in Hflip. rewrite <- Hflip; [lia|].
      intros x Hx. destruct (Hcore x) as (-> & _ & _ & ->). split; [done|]. intros Hne. by rewrite decide_False.
  - intros x n. unfold in_use. destruct (Hcore x) as (-> & _ & _ & ->). destruct (decide (x = a)) as [->|Hne]; [|naive_solver].
    unfold is_free in Hfa. split; [intros (_ & _ & <-); auto|]. intros [(_ & E0 & _)|[_ ->]]; [congruence|done].
Qed.

End ops.
