(* ===== verification/MempoolSplit.v ===== *)
(** * MempoolSplit: splitting a free slot ([checkblock])

    Breaking a slot of class [q] for a request of class [p] leaves two slots
    of class [p] and one of every class between [p] and [q]. *)

From S2P Require Import Prelude Mempool MempoolFacts MempoolOps.
Set Warnings "-clear-no-such-hyp".

Section split.
Context {U : Uninit} {L : PoolLayout} {A : BlockAlloc}.

(** The slot to break is at [a]; the pieces behind it are at [a + cut j]. *)
Context (b a : Z) (p q : nat) (Hpq : p < q < cutOffNum).

(** The slot before piece [j]. *)
Definition before (j : nat) : Z := if decide (j = p) then a else (a + cut (j - 1))%Z.

Lemma cut_double j : p < j < cutOffNum -> (cut (j - 1) + cut (j - 1) = cut j)%Z.
Proof. intros Hj. pose proof (cut_S (j - 1)) as E. replace (S (j - 1)) with j in E by lia. lia. Qed.

Lemma cut_inj i j : i < cutOffNum -> j < cutOffNum -> cut i = cut j -> i = j.
Proof.
  intros Hi Hj E. destruct (Nat.lt_trichotomy i j) as [Hl|[Hl|Hl]]; [pose proof (cut_lt i j); lia|done|pose proof (cut_lt j i); lia].
Qed.

Lemma break_lists_view n i s : p < i -> i + n <= cutOffNum -> is_Some (blocks s !! b) -> length (freelists (block s b)) = cutOffNum ->
  let s' := break_lists n i b (a + cut (i - 1)) s in
  (forall x, slot s' x = slot s x) /\ frame b s s' /\ b_used (block s' b) = b_used (block s b) /\
  length (freelists (block s' b)) = cutOffNum /\
  forall j, freelist s' b j = if decide (i <= j < i + n) then (a + cut j)%Z else freelist s b j.
Proof.
  revert i s. induction n as [|n IH]; intros i s Hi Hin Hb Hl; cbn [break_lists].
  - do 2 (split; [auto with mempool|]). do 2 (split; [done|]). intros j. by rewrite decide_False by lia.
  - replace (a + cut (i - 1) + cut (i - 1))%Z with (a + cut i)%Z by (rewrite <- cut_double by lia; lia).
    set (s1 := upd_block b (set_freelist i (a + cut i)) s).
    assert (Hf1 : frame b s s1) by (unfold s1; auto with mempool).
    assert (Hb1 : is_Some (blocks s1 !! b)) by (by apply Hf1).
    assert (E1 : block s1 b = set_freelist i (a + cut i) (block s b)) by (by apply block_upd).
    specialize (IH (S i) s1). replace (S i - 1) with i in IH by lia.
    destruct IH as (H1 & H2 & H3 & H4 & H5); [lia|lia|done|by rewrite E1; cbn; rewrite length_insert|].
    split; [intros x; by rewrite H1|]. split; [by eapply frame_trans|]. split; [by rewrite H3, E1|]. split; [done|].
    intros j. rewrite H5. unfold freelist. rewrite E1. cbn [freelists set_freelist].
    destruct (decide (j = i)) as [->|Hne].
    + rewrite decide_False, decide_True by lia. by rewrite list_lookup_total_insert_eq by lia.
    + rewrite list_lookup_total_insert_ne by done. destruct (decide (S i <= j < S i + n)), (decide (i <= j < i + S n)); try lia; done.
Qed.

Lemma break_heads_view n i head prev s : p <= i -> i + n <= cutOffNum -> prev = before i ->
  head = (if decide (i = p) then a + cut p else a + cut (i - 1))%Z ->
  let '(s', head', prev') := break_heads n i p b head prev s in
  frame b s s' /\ (forall b', block s' b' = block s b') /\ (n = 0 -> s' = s /\ head' = head /\ prev' = prev) /\
  (0 < n -> head' = (a + cut (i + n - 1))%Z /\ prev' = (a + cut (i + n - 1))%Z /\
     slot s' prev = set_gnext (a + cut i) (slot s prev)) /\
  (forall j, i <= j < i + n -> slot s' (a + cut j) =
     mk_slot b j 1 (before j) (if decide (S j < i + n) then (a + cut (S j))%Z else uninit_word) 0 0) /\
  (forall x, x <> prev -> (forall j, i <= j < i + n -> x <> (a + cut j)%Z) -> slot s' x = slot s x).
Proof.
  revert i head prev s. induction n as [|n IH]; intros i head prev s Hi Hin -> Ehd; cbn [break_heads].
  - split; [auto with mempool|]. do 2 (split; [done|]). split; [lia|]. split; [lia|done].
  - assert (Eh : (if negb (Nat.eqb i p) then head + cut (i - 1) else head)%Z = (a + cut i)%Z).
    { subst head. destruct (Nat.eqb_spec i p) as [->|Hne]; cbn; [by rewrite decide_True|].
      rewrite decide_False by done. rewrite <- (cut_double i) by lia. lia. }
    assert (Ep : (if negb (Nat.eqb i p) then before i + cut (i - 1) else before i + cut i)%Z = (a + cut i)%Z).
    { unfold before. destruct (Nat.eqb_spec i p) as [->|Hne]; cbn; [by rewrite decide_True|].
      rewrite decide_False by done. rewrite <- (cut_double i) by lia. lia. }
    rewrite Eh, Ep.
    set (s2 := upd_slot (before i) (set_gnext (a + cut i)) (put_slot (a + cut i) (mk_slot b i 1 (before i) uninit_word 0 0) s)).
    assert (Hbi : before i <> (a + cut i)%Z).
    { unfold before. case_decide; [pose proof (cut_pos i); lia|]. pose proof (cut_lt (i - 1) i). lia. }
    assert (Hfut : forall j, i < j < cutOffNum -> before i <> (a + cut j)%Z).
    { intros j Hj. unfold before. case_decide; [pose proof (cut_pos j); lia|]. pose proof (cut_lt (i - 1) j). lia. }
    specialize (IH (S i) (a + cut i)%Z (a + cut i)%Z s2).
    destruct (break_heads n (S i) p b (a + cut i) (a + cut i) s2) as [[s' head'] prev'].
    destruct IH as (F1 & F2 & F0 & F3 & F4 & F5); [lia|lia| | |].
    { unfold before. rewrite decide_False by lia. do 2 f_equal. lia. }
    { rewrite decide_False by lia. do 2 f_equal. lia. }
    assert (V2 : slot s2 (a + cut i) = mk_slot b i 1 (before i) uninit_word 0 0).
    { unfold s2. rewrite slot_upd, decide_False by done. by rewrite slot_put, decide_True. }
    assert (V2' : forall x, x <> before i -> x <> (a + cut i)%Z -> slot s2 x = slot s x).
    { intros x H1 H2. unfold s2. rewrite slot_upd, decide_False, slot_put, decide_False by done. done. }
    split; [eapply frame_trans; [|exact F1]; unfold s2; auto with mempool|]. split; [intros b'; by rewrite F2|]. split; [|split; [|]].
    + done.
    + intros _. assert (Vp : slot s' (before i) = set_gnext (a + cut i) (slot s (before i))).
      { rewrite F5; [|done|intros j Hj; apply Hfut; lia]. unfold s2. by rewrite slot_upd, decide_True, slot_put, decide_False. }
      destruct (decide (n = 0)) as [En|En].
      * destruct (F0 En) as (_ & -> & ->). by replace (i + S n - 1) with i by lia.
      * destruct F3 as (-> & -> & _); [lia|]. by replace (i + S n - 1) with (S i + n - 1) by lia.
    + split; [intros j Hj|intros x].
      * destruct (decide (j = i)) as [->|Hne].
        -- destruct (decide (n = 0)) as [->|En].
           ++ rewrite decide_False by lia. by destruct F0 as (-> & _).
           ++ rewrite decide_True by lia. destruct F3 as (_ & _ & ->); [lia|]. by rewrite V2.
        -- rewrite F4 by lia. replace (S i + n) with (i + S n) by lia. done.
      * intros Hx Hj. destruct (decide (n = 0)) as [->|En].
        -- destruct F0 as (-> & _); [done|]. apply V2'; [done|]. apply Hj. lia.
        -- rewrite F5; [apply V2'; [done|apply Hj; lia]|apply Hj; lia|intros k Hk; apply Hj; lia].
Qed.

(** The neighbours outside of the broken slot: the slot behind it in memory
    and the one behind it in its free list. *)
Definition outer (s : mempool) (x : Z) : slot_header :=
  let g := gnext (slot s a) in let n := snext (slot s a) in
  let y := slot s x in
  let y := if decide (x = g /\ g <> 0%Z) then set_gprev (a + cut (q - 1)) y else y in
  if decide (x = n /\ n <> 0%Z) then set_sprev 0 y else y.

Definition piece (j : nat) (g : Z) : slot_header :=
  mk_slot b j 1 (before j) (if decide (S j < q) then (a + cut (S j))%Z else g) (if decide (j = p) then a else 0%Z) 0.

Definition outside (x : Z) : Prop := x <> a /\ forall j, p <= j < q -> x <> (a + cut j)%Z.

(** The free lists after the first statements of the loop body. *)
Lemma break_slot_lists s n : is_Some (blocks s !! b) -> length (freelists (block s b)) = cutOffNum ->
  let s2 := upd_block b (set_freelist p a) (upd_block b (set_freelist q n) s) in
  let s3 := break_lists (q - (p + 1)) (p + 1) b (a + cut p) s2 in
  (forall x, slot s3 x = slot s x) /\ frame b s s3 /\ b_used (block s3 b) = b_used (block s b) /\
  length (freelists (block s3 b)) = cutOffNum /\
  forall j, freelist s3 b j = if decide (j = q) then n else if decide (j = p) then a
                              else if decide (p < j < q) then (a + cut j)%Z else freelist s b j.
Proof.
  intros Hb Hlen s2. assert (Hf2 : frame b s s2) by (unfold s2; auto with mempool).
  assert (E2 : block s2 b = set_freelist p a (set_freelist q n (block s b))).
  { unfold s2. rewrite block_upd, block_upd; [done|done|]. cbn. rewrite lookup_alter_eq. destruct Hb as [h ->]. by eexists. }
  pose proof (break_lists_view (q - (p + 1)) (p + 1) s2) as HV. replace (p + 1 - 1) with p in HV by lia.
  destruct HV as (H1 & H2 & H3 & H4 & H5); [lia|lia|by apply Hf2|by rewrite E2; cbn; rewrite !length_insert|].
  split; [intros x; by rewrite H1|]. split; [by eapply frame_trans|]. split; [by rewrite H3, E2|]. split; [done|].
  intros j. rewrite H5. unfold freelist. rewrite E2. cbn [freelists set_freelist].
  destruct (decide (p + 1 <= j < p + 1 + (q - (p + 1)))) as [Hj|Hj].
  - rewrite (decide_False (P := j = q)), (decide_False (P := j = p)), decide_True by lia. done.
  - destruct (decide (j = p)) as [->|Hjp].
    + rewrite (decide_False (P := p = q)) by lia. by rewrite list_lookup_total_insert_eq by (rewrite length_insert; lia).
    + rewrite list_lookup_total_insert_ne by done. destruct (decide (j = q)) as [->|Hjq].
      * by rewrite list_lookup_total_insert_eq by lia.
      * rewrite list_lookup_total_insert_ne by done. by rewrite decide_False by lia.
Qed.

Lemma break_slot_view s : is_Some (blocks s !! b) -> length (freelists (block s b)) = cutOffNum ->
  freelist s b q = a -> let g := gnext (slot s a) in let n := snext (slot s a) in outside g -> outside n ->
  let s' := break_slot p q b s in
  frame b s s' /\ b_used (block s' b) = b_used (block s b) /\ length (freelists (block s' b)) = cutOffNum /\
  (forall j, freelist s' b j = if decide (j = q) then n else if decide (j = p) then a
                               else if decide (p < j < q) then (a + cut j)%Z else freelist s b j) /\
  slot s' a = mk_slot (block_ptr (slot s a)) p (status (slot s a)) (gprev (slot s a)) (a + cut p) (sprev (slot s a)) (a + cut p) /\
  (forall j, p <= j < q -> slot s' (a + cut j) = piece j g) /\
  (forall x, outside x -> slot s' x = outer s x).
Proof.
  intros Hb Hlen Ea g n [Hga Hgj] [Hna Hnj]. unfold break_slot. rewrite Ea. fold g n.
  destruct (break_slot_lists s n Hb Hlen) as (S3 & F3 & U3 & L3 & Q3).
  set (s3 := break_lists _ _ _ _ _) in *.
  set (s5 := upd_slot a (set_snext _) (upd_slot a (set_size p) s3)).
  assert (Ep3 : freelist s3 b p = a) by (rewrite Q3, decide_False, decide_True by lia; done).
  change (freelist (upd_slot a (set_size p) s3) b p) with (freelist s3 b p) in *. rewrite Ep3 in *.
  pose proof (break_heads_view (q - p) p (a + cut p) a s5) as HV.
  destruct (break_heads (q - p) p p b (a + cut p) a s5) as [[s6 head] prev].
  destruct HV as (F6 & B6 & _ & H6 & P6 & O6); [lia|lia|by unfold before; rewrite decide_True|by rewrite decide_True|].
  destruct H6 as (-> & -> & Ha6); [lia|]. replace (p + (q - p) - 1) with (q - 1) in * by lia.
  assert (Q6 : forall j, freelist s6 b j = freelist s3 b j) by (intros j; unfold freelist; by rewrite B6).
  rewrite Q6, Ep3.
  set (s8 := upd_slot (a + cut (q - 1)) (set_gnext g) (upd_slot (a + cut p) (set_sprev a) s6)).
  set (s9 := if negb (g =? 0)%Z then _ else _).
  assert (Q9 : freelist s9 b q = n) by (unfold s9; destruct (negb _); (change (freelist _ b q) with (freelist s6 b q)); rewrite Q6, Q3, decide_True; done).
  rewrite Q9.
  set (s' := if negb (n =? 0)%Z then _ else _).
  assert (V9 : forall x, slot s9 x = if decide (x = g /\ g <> 0%Z) then set_gprev (a + cut (q - 1)) (slot s8 x) else slot s8 x).
  { intros x. unfold s9. destruct (Z.eqb_spec g 0) as [E|E]; cbn [negb]; [by rewrite decide_False by tauto|].
    rewrite slot_upd. destruct (decide (x = g)) as [->|]; [by rewrite decide_True|by rewrite decide_False by tauto]. }
  assert (Vs : forall x, slot s' x = if decide (x = n /\ n <> 0%Z) then set_sprev 0 (slot s9 x) else slot s9 x).
  { intros x. unfold s'. destruct (Z.eqb_spec n 0) as [E|E]; cbn [negb]; [by rewrite decide_False by tauto|].
    rewrite slot_upd. destruct (decide (x = n)) as [->|]; [by rewrite decide_True|by rewrite decide_False by tauto]. }
  assert (Hin : forall x, ~ outside x -> slot s' x = slot s8 x).
  { intros x Hx. rewrite Vs, V9, !decide_False; [done| |]; intros [-> _]; by apply Hx. }
  assert (Hin_j : forall j, p <= j < q -> ~ outside (a + cut j)%Z) by (intros j Hj [_ Ho]; by apply (Ho j)).
  assert (Hin_a : ~ outside a) by (by intros [? _]).
  assert (Hcne : forall j, p <= j < q -> (a + cut j)%Z <> a) by (intros j Hj; pose proof (cut_pos j); lia).
  assert (Hcinj : forall i j, p <= i < q -> p <= j < q -> (a + cut i)%Z = (a + cut j)%Z -> i = j)
    by (intros i j ? ? ?; apply cut_inj; lia).
  assert (V5 : forall x, slot s5 x = if decide (x = a) then set_snext (a + cut p) (set_size p (slot s a)) else slot s x).
  { intros x. unfold s5. rewrite slot_upd. destruct (decide (x = a)) as [->|].
    - by rewrite slot_upd, decide_True, S3, Ep3.
    - rewrite slot_upd, decide_False by done. apply S3. }
  assert (V8 : forall x, slot s8 x = let y := if decide (x = a + cut p)%Z then set_sprev a (slot s6 x) else slot s6 x in
    if decide (x = a + cut (q - 1))%Z then set_gnext g y else y).
  { intros x. unfold s8. rewrite slot_upd. destruct (decide (x = a + cut (q - 1))%Z) as [->|]; rewrite slot_upd;
      destruct (decide (_ = a + cut p)%Z) as [->|]; done. }
  split; [|split; [|split; [|split; [|split; [|split]]]]].
  - assert (frame b s s6) as F by (eapply frame_trans; [exact F3|]; eapply frame_trans; [|exact F6]; unfold s5; auto with mempool).
    unfold s', s9, s8. auto 10 with mempool.
  - transitivity (b_used (block s6 b)); [unfold s', s9; by destruct (negb _), (negb _)|]. rewrite B6. exact U3.
  - transitivity (length (freelists (block s6 b))); [unfold s', s9; by destruct (negb _), (negb _)|]. rewrite B6. exact L3.
  - intros j. rewrite <- Q3, <- Q6. unfold s', s9. by destruct (negb _), (negb _).
  - rewrite Hin by done. rewrite V8, !(decide_False (P := a = _)) by (intros E; symmetry in E; revert E; apply Hcne; lia).
    rewrite Ha6, V5, decide_True by done. done.
  - intros j Hj. rewrite Hin by auto. rewrite V8, (P6 j) by lia. replace (p + (q - p)) with q by lia. unfold piece.
    assert (Hp : (a + cut j = a + cut p)%Z <-> j = p) by (split; [intros E; apply Hcinj in E; lia|by intros ->]).
    assert (Hq : (a + cut j = a + cut (q - 1))%Z <-> ~ S j < q).
    { split; [intros E; apply Hcinj in E; lia|]. intros Hlt. by replace j with (q - 1) by lia. }
    destruct (decide (a + cut j = a + cut p)%Z), (decide (a + cut j = a + cut (q - 1))%Z),
      (decide (j = p)), (decide (S j < q)); try tauto; done.
  - intros x [Hxa Hxj]. rewrite Vs, V9, V8. unfold outer. fold g n. cbn zeta.
    rewrite (decide_False (P := x = a + cut p)%Z), (decide_False (P := x = a + cut (q - 1))%Z) by (apply Hxj; lia).
    rewrite O6, V5, (decide_False (P := x = a)); [done|done|done|]. intros j Hj. apply Hxj. lia.
Qed.

(** ** The invariant after a split *)

Definition pieces : list Z := (fun j => a + cut j)%Z <$> seq p (q - p).

Lemma elem_of_pieces x : x ∈ pieces <-> exists j, p <= j < q /\ x = (a + cut j)%Z.
Proof.
  unfold pieces. rewrite list_elem_of_fmap. setoid_rewrite elem_of_seq. split; intros (j & H1 & H2); exists j; [split; [lia|done]|split; [done|lia]].
Qed.

Section spec.
Context (s : mempool) (start stop : Z) (g1 g2 : list Z) (FL : nat -> list Z) (l : list Z).
Context (Hb : binv s b start stop (g1 ++ a :: g2) FL) (Hq : FL q = a :: l) (Hempty : forall i, p <= i < q -> FL i = []).

Abbreviation gl := (g1 ++ a :: g2).
Abbreviation gl' := (g1 ++ a :: pieces ++ g2).
Abbreviation s' := (break_slot p q b s).

Lemma split_first : freelist s b q = a /\ is_free s a /\ slot_size (slot s a) = q /\ sprev (slot s a) = 0%Z /\
  snext (slot s a) = default 0%Z (head l).
Proof.
  destruct (fl_first _ _ _ _ _ _ _ (bi_free _ _ _ _ _ _ Hb) (proj2 Hpq) Hq) as (H1 & [_ H2] & H3 & H4 & H5 & _). done.
Qed.

Lemma split_glist : dseg gprev gnext (slot s) 0 g1 a /\ gprev (slot s a) = default 0%Z (last g1) /\
  gnext (slot s a) = default 0%Z (head g2) /\ dseg gprev gnext (slot s) a g2 0.
Proof. pose proof (bi_glist _ _ _ _ _ _ Hb) as (H1 & H2 & H3 & H4)%dseg_cat. done. Qed.

Lemma split_outside x : x ∈ gl -> x <> a -> outside x.
Proof.
  intros Hx Hxa. split; [done|]. intros j Hj ->. destruct split_first as (_ & _ & Esz & _).
  pose proof (tiles_apart _ _ _ _ _ _ (a + cut j)%Z (bi_tiles _ _ _ _ _ _ Hb)) as [H1|H1]; [set_solver| |].
  - rewrite Esz in H1. pose proof (cut_lt j q). lia.
  - pose proof (binv_in _ _ _ _ _ _ _ Hb Hx) as (_ & _ & Hs & _). pose proof (cut_pos _ Hs). pose proof (cut_pos j). lia.
Qed.

Lemma split_a : (start <= a)%Z /\ (a + cut q <= stop)%Z /\ (0 < a)%Z.
Proof.
  destruct split_first as (_ & _ & Esz & _). pose proof (binv_in _ _ _ _ _ _ a Hb) as (H1 & H2 & _); [set_solver|].
  rewrite Esz in H2. pose proof (bi_start _ _ _ _ _ _ Hb). lia.
Qed.

Lemma split_zero : outside 0.
Proof. pose proof split_a. split; [lia|]. intros j Hj. pose proof (cut_pos j). lia. Qed.

Lemma split_nodup : NoDup gl.
Proof. eapply tiles_nodup, (bi_tiles _ _ _ _ _ _ Hb). Qed.

Lemma split_notin : (a ∉ g1) /\ (a ∉ g2) /\ (forall x, x ∈ g1 -> x ∉ g2) /\ NoDup g2.
Proof.
  pose proof split_nodup as (_ & Hd & [Ha Hn2]%NoDup_cons)%NoDup_app. split; [intros Hin; apply (Hd a Hin); left|].
  split; [done|]. split; [|done]. intros x Hx Hx2. apply (Hd x Hx). by right.
Qed.

Lemma split_out_g : outside (gnext (slot s a)) /\ (gnext (slot s a) <> 0%Z -> gnext (slot s a) ∈ g2).
Proof.
  destruct split_glist as (_ & _ & -> & _). destruct split_notin as (_ & Ha & _). destruct (head g2) as [c|] eqn:E; cbn; [|split; [apply split_zero|done]].
  apply head_Some_elem_of in E. split; [|done]. apply split_outside; set_solver.
Qed.

Lemma split_in_list i x : i < cutOffNum -> x ∈ FL i -> x ∈ gl /\ is_free s x /\ slot_size (slot s x) = i.
Proof. intros Hi Hx. by apply (fo_elem _ _ _ _ (bi_free _ _ _ _ _ _ Hb)) in Hx as [[? ?] ?]. Qed.

Lemma split_l : NoDup l /\ (a ∉ l).
Proof. pose proof (fo_nodup _ _ _ _ (bi_free _ _ _ _ _ _ Hb) q (proj2 Hpq)) as Hn. rewrite Hq in Hn. apply NoDup_cons in Hn. tauto. Qed.

Lemma split_out_n : outside (snext (slot s a)) /\ (snext (slot s a) <> 0%Z -> snext (slot s a) ∈ l).
Proof.
  destruct split_first as (_ & _ & _ & _ & ->). destruct split_l as [_ Ha]. destruct (head l) as [c|] eqn:E; cbn; [|split; [apply split_zero|done]].
  apply head_Some_elem_of in E. split; [|done]. apply split_outside; [|set_solver]. apply (split_in_list q); [lia|]. rewrite Hq. by right.
Qed.

Lemma split_view : frame b s s' /\ b_used (block s' b) = b_used (block s b) /\ length (freelists (block s' b)) = cutOffNum /\
  (forall j, freelist s' b j = if decide (j = q) then snext (slot s a) else if decide (j = p) then a
                               else if decide (p < j < q) then (a + cut j)%Z else freelist s b j) /\
  slot s' a = mk_slot (block_ptr (slot s a)) p (status (slot s a)) (gprev (slot s a)) (a + cut p) (sprev (slot s a)) (a + cut p) /\
  (forall j, p <= j < q -> slot s' (a + cut j) = piece j (gnext (slot s a))) /\
  (forall x, outside x -> slot s' x = outer s x).
Proof.
  apply break_slot_view; [apply Hb|apply (fo_len _ _ _ _ (bi_free _ _ _ _ _ _ Hb))|apply split_first|apply split_out_g|apply split_out_n].
Qed.

(** The other slots keep all but links. *)
Lemma split_other x : x ∈ gl -> x <> a -> block_ptr (slot s' x) = block_ptr (slot s x) /\
  slot_size (slot s' x) = slot_size (slot s x) /\ status (slot s' x) = status (slot s x) /\
  gnext (slot s' x) = gnext (slot s x) /\ snext (slot s' x) = snext (slot s x) /\
  gprev (slot s' x) = (if decide (x = gnext (slot s a)) then (a + cut (q - 1))%Z else gprev (slot s x)) /\
  sprev (slot s' x) = (if decide (x = snext (slot s a)) then 0%Z else sprev (slot s x)).
Proof.
  intros Hx Hxa. destruct split_view as (_ & _ & _ & _ & _ & _ & Ho). rewrite Ho by (by apply split_outside).
  assert (x <> 0%Z) by apply (binv_in _ _ _ _ _ _ _ Hb Hx). unfold outer. cbn zeta.
  destruct (decide (x = snext (slot s a) /\ snext (slot s a) <> 0%Z)), (decide (x = gnext (slot s a) /\ gnext (slot s a) <> 0%Z)),
    (decide (x = snext (slot s a))), (decide (x = gnext (slot s a))); cbn; try tauto;
    exfalso; naive_solver congruence.
Qed.

Lemma split_tiles_pieces k i : p <= i -> i + k = q ->
  tiles (slot s') (a + cut i) ((fun j => a + cut j)%Z <$> seq i k) (a + cut q).
Proof.
  destruct split_view as (_ & _ & _ & _ & _ & Hp & _). revert i. induction k as [|k IH]; intros i Hi Hk; cbn.
  - do 2 f_equal. lia.
  - rewrite Hp by lia. cbn. split; [done|]. split; [lia|].
    replace (a + cut i + cut i)%Z with (a + cut (S i))%Z by (rewrite (cut_S i) by lia; lia). apply IH; lia.
Qed.

Lemma split_tiles : tiles (slot s') start gl' stop.
Proof.
  pose proof (bi_tiles _ _ _ _ _ _ Hb) as (mid & Ht1 & <- & Hs & Ht2)%tiles_app. destruct split_first as (_ & _ & Esz & _).
  rewrite Esz in Ht2. destruct split_notin as (Ha1 & Ha2 & _). destruct split_view as (_ & _ & _ & _ & Va & _ & _).
  apply tiles_app. exists a. split.
  - eapply tiles_ext; [|exact Ht1]. intros x Hx. apply split_other; set_solver.
  - cbn [tiles]. rewrite Va. cbn [slot_size]. split; [done|]. split; [lia|].
    apply tiles_app. exists (a + cut q)%Z. split; [apply split_tiles_pieces; lia|].
    eapply tiles_ext; [|exact Ht2]. intros x Hx. apply split_other; set_solver.
Qed.

Lemma split_dseg_pieces k i : p <= i -> i + k = q ->
  dseg gprev gnext (slot s') (before i) ((fun j => a + cut j)%Z <$> seq i k) (gnext (slot s a)).
Proof.
  destruct split_view as (_ & _ & _ & _ & _ & Hp & _). revert i. induction k as [|k IH]; intros i Hi Hk; cbn [seq fmap list_fmap dseg]; [done|].
  rewrite Hp by lia. cbn [piece gprev gnext]. split; [done|]. split.
  - destruct k as [|k]; cbn; [by rewrite decide_False by lia|by rewrite decide_True by lia].
  - replace (a + cut i)%Z with (before (S i)); [apply IH; lia|]. unfold before. rewrite decide_False by lia. do 2 f_equal. lia.
Qed.

Lemma pieces_last : last pieces = Some (a + cut (q - 1))%Z.
Proof.
  unfold pieces. rewrite fmap_last. replace (q - p) with (S (q - 1 - p)) by lia. rewrite seq_S, last_snoc. cbn. do 3 f_equal. lia.
Qed.

Lemma pieces_head : head pieces = Some (a + cut p)%Z.
Proof. unfold pieces. replace (q - p) with (S (q - 1 - p)) by lia. done. Qed.

Lemma split_dseg : dseg gprev gnext (slot s') 0 gl' 0.
Proof.
  destruct split_glist as (Hs1 & Ep & En & Hs2). destruct split_notin as (Ha1 & Ha2 & Hdis & Hn2).
  destruct split_view as (_ & _ & _ & _ & Va & _ & _). destruct split_out_g as [_ Hgin].
  apply dseg_cat. split; [|cbn [dseg]; rewrite Va; cbn [gprev gnext]; split; [done|split]].
  - eapply dseg_ext; [|exact Hs1]. intros x Hx. destruct (split_other x) as (_ & _ & _ & Eg & _ & Eq & _); [set_solver..|].
    rewrite Eg, Eq. rewrite decide_False; [done|]. intros ->. apply (Hdis _ Hx), Hgin.
    apply (binv_in _ _ _ _ _ _ _ Hb). set_solver.
  - rewrite head_app, pieces_head. done.
  - apply dseg_cat. rewrite pieces_last. cbn [default]. split.
    + rewrite <- En. pose proof (split_dseg_pieces (q - p) p) as Hd. unfold before in Hd. rewrite decide_True in Hd by done. apply Hd; lia.
    + apply (dseg_restart _ _ (slot s) (slot s') a _ g2 0 Hn2 Hs2). intros x Hx.
      destruct (split_other x) as (_ & _ & _ & -> & _ & -> & _); [set_solver..|]. rewrite En.
      assert (x <> 0%Z) by (apply (binv_in _ _ _ _ _ _ _ Hb); set_solver).
      split; [done|]. destruct (head g2) as [c|]; cbn;
        destruct (decide (x = _)), (decide (Some x = _)); congruence.
Qed.

(** *** Free lists *)

Definition FL_split (i : nat) : list Z :=
  if decide (i = q) then l else if decide (i = p) then [a; a + cut p]%Z
  else if decide (p < i < q) then [a + cut i]%Z else FL i.

Lemma split_free_elem i x : i < cutOffNum -> x ∈ FL_split i <-> (x ∈ gl' /\ is_free s' x) /\ slot_size (slot s' x) = i.
Proof.
  intros Hi. pose proof (bi_free _ _ _ _ _ _ Hb) as Hf. destruct split_view as (_ & _ & _ & _ & Va & Vp & _).
  destruct split_first as (_ & Hfa & Esz & _). destruct split_l as [Hnl Hal]. unfold is_free.
  assert (Hgl : x ∈ gl' <-> x = a \/ x ∈ pieces \/ (x ∈ gl /\ x <> a)).
  { destruct split_notin as (Ha1 & Ha2 & _). set_solver. }
  assert (Hold : x ∈ gl -> x <> a -> (x ∈ FL_split i <-> is_free s x /\ slot_size (slot s x) = i)).
  { intros Hx Hxa. assert (Hout : outside x) by (by apply split_outside). destruct Hout as [_ Hxj].
    assert (HFL : x ∈ FL i <-> is_free s x /\ slot_size (slot s x) = i).
    { rewrite (fo_elem _ _ _ _ Hf) by done. tauto. }
    unfold FL_split. destruct (decide (i = q)) as [->|Hiq]; [rewrite <- HFL, Hq; set_solver|].
    destruct (decide (i = p)) as [->|Hip].
    { rewrite <- HFL, Hempty by lia. pose proof (Hxj p). set_solver by lia. }
    destruct (decide (p < i < q)) as [Hr|Hr]; [|done]. rewrite <- HFL, Hempty by lia. pose proof (Hxj i). set_solver by lia. }
  assert (Hlist : forall k y, k < cutOffNum -> y ∈ FL k -> y ∈ gl) by (intros k y Hk Hy; by apply (split_in_list k)).
  assert (Hl : forall y, y ∈ l -> y ∈ gl /\ y <> a).
  { intros y Hy. split; [apply (Hlist q); [lia|rewrite Hq; by right]|]. by intros ->. }
  destruct (decide (x = a)) as [->|Hxa]; [|destruct (decide (x ∈ gl)) as [Hx|Hx]].
  - rewrite Va. cbn [status slot_size]. assert (a ∈ gl') by set_solver. unfold is_free in Hfa.
    assert (a ∈ FL_split i <-> i = p) as ->; [|split; [by intros ->|by intros [_ ->]]]. unfold FL_split.
    destruct (decide (i = q)) as [->|Hiq]; [split; [done|lia]|]. destruct (decide (i = p)) as [->|Hip]; [split; [done|left]|].
    destruct (decide (p < i < q)) as [Hr|Hr].
    + rewrite list_elem_of_singleton. pose proof (cut_pos i). lia.
    + split; [|lia]. intros Hin. apply (split_in_list i) in Hin as (_ & _ & ?); [|done]. congruence.
  - rewrite Hold by done. destruct (split_other x Hx Hxa) as (_ & -> & -> & _). unfold is_free. tauto.
  - assert (HFx : forall k, k < cutOffNum -> x ∉ FL k) by (intros k Hk Hin; by apply Hx, (Hlist k)).
    assert (Hlx : x ∉ l) by (intros Hin; by apply Hx, Hl).
    assert (HE : x ∈ FL_split i <-> p <= i < q /\ x = (a + cut i)%Z).
    { unfold FL_split. destruct (decide (i = q)) as [->|Hiq]; [split; [done|lia]|].
      destruct (decide (i = p)) as [->|Hip]; [rewrite elem_of_cons, list_elem_of_singleton; intuition lia|].
      destruct (decide (p < i < q)); [rewrite list_elem_of_singleton; intuition lia|]. split; [by intros ?%HFx|lia]. }
    rewrite HE, Hgl, elem_of_pieces. split.
    + intros [Hr ->]. rewrite Vp by done. cbn. split; [|done]. split; [|done]. right. left. by exists i.
    + intros [[[?|[(j & Hj & ->)|[? _]]] _] Es]; [done| |done]. rewrite Vp in Es by done. cbn in Es. by subst j.
Qed.

Lemma split_free : fl_ok (slot s') (freelists (block s' b)) (fun x => x ∈ gl' /\ is_free s' x) FL_split.
Proof.
  pose proof (bi_free _ _ _ _ _ _ Hb) as Hf. destruct split_view as (_ & _ & Vl & Vf & Va & Vp & _).
  destruct split_first as (Ea & Hfa & Esz & Epr & En). destruct split_l as [Hnl Hal].
  assert (Hlin : forall y, y ∈ l -> y ∈ gl /\ y <> a).
  { intros y Hy. split; [|by intros ->]. apply (split_in_list q); [lia|]. rewrite Hq. by right. }
  split.
  - done.
  - intros [H0 _]. pose proof split_a. pose proof (tiles_in _ _ _ _ _ split_tiles H0) as (Hs0 & _). pose proof (bi_start _ _ _ _ _ _ Hb). lia.
  - intros i Hi. change (freelists (block s' b) !!! i) with (freelist s' b i). rewrite Vf. unfold FL_split.
    destruct (decide (i = q)); [done|]. destruct (decide (i = p)); [done|]. destruct (decide (p < i < q)); [done|]. by apply Hf.
  - intros i Hi. unfold FL_split. destruct (decide (i = q)) as [->|Hiq]; [|destruct (decide (i = p)) as [->|Hip]].
    + pose proof (fo_seg _ _ _ _ Hf q Hi) as Hs. rewrite Hq in Hs. destruct Hs as (_ & _ & Hs).
      apply (dseg_restart _ _ (slot s) (slot s') a _ l 0 Hnl Hs). intros x Hx. destruct (Hlin x Hx) as [Hxg Hxa].
      destruct (split_other x) as (_ & _ & _ & _ & -> & _ & ->); [done..|]. rewrite En. split; [done|].
      assert (x <> 0%Z) by apply (binv_in _ _ _ _ _ _ _ Hb Hxg).
      destruct (head l) as [c|]; cbn; destruct (decide (x = _)), (decide (Some x = _)); congruence.
    + cbn [dseg]. rewrite Va, Vp by lia. cbn. rewrite decide_True by done. done.
    + destruct (decide (p < i < q)) as [Hr|Hr].
      * cbn [dseg]. rewrite Vp by lia. cbn. by rewrite decide_False by lia.
      * eapply dseg_ext; [|by apply Hf]. intros x Hx. apply (split_in_list i) in Hx as (Hxg & _ & Es); [|done].
        assert (x <> a) as Hxa by (intros ->; congruence). destruct (split_other x Hxg Hxa) as (_ & _ & _ & _ & -> & _ & ->).
        rewrite decide_False; [done|]. intros ->. rewrite En in *. destruct (head l) as [c|] eqn:Ec; cbn in *.
        -- apply head_Some_elem_of in Ec. apply Hiq. assert (c ∈ FL q) as Hc by (rewrite Hq; by right).
           apply (split_in_list q) in Hc as (_ & _ & Hc); [|lia]. congruence.
        -- pose proof (binv_in _ _ _ _ _ _ _ Hb Hxg) as (_ & _ & _ & ?). done.
  - intros i Hi. unfold FL_split. destruct (decide (i = q)); [done|]. destruct (decide (i = p)).
    + pose proof (cut_pos p). apply NoDup_cons. split; [rewrite list_elem_of_singleton; lia|apply NoDup_singleton].
    + destruct (decide (p < i < q)); [apply NoDup_singleton|]. by apply Hf.
  - intros i x Hi. by apply split_free_elem.
  - intros x [Hx _]. by apply (tiles_in _ _ _ _ _ split_tiles) in Hx as (_ & _ & ?).
Qed.

(** *** The whole block *)

Lemma split_used_sum : used_sum (slot s') gl' = used_sum (slot s) gl.
Proof.
  destruct split_view as (_ & _ & _ & _ & Va & Vp & _). destruct split_first as (_ & Hfa & _).
  destruct split_notin as (Ha1 & Ha2 & _). unfold is_free in Hfa.
  rewrite !used_sum_app, !used_sum_cons, used_sum_app, Va. cbn [status]. rewrite Hfa, !decide_True by done.
  assert (forall g, (forall x, x ∈ g -> x ∈ gl /\ x <> a) -> used_sum (slot s') g = used_sum (slot s) g) as He.
  { intros g Hg. apply used_sum_ext. intros x Hx. destruct (Hg x Hx) as [H1 H2]. by destruct (split_other x H1 H2) as (_ & -> & -> & _). }
  rewrite (He g1), (He g2) by (intros; set_solver).
  assert (used_sum (slot s') pieces = 0%Z) as ->; [|lia].
  assert (forall k, (forall x, x ∈ k -> x ∈ pieces) -> used_sum (slot s') k = 0%Z) as Hk; [|by apply Hk].
  induction k as [|x k IH]; intros Hin; [done|]. rewrite used_sum_cons, IH by (intros; apply Hin; by right).
  assert (x ∈ pieces) as (j & Hj & ->)%elem_of_pieces by (apply Hin; left). rewrite Vp by done. cbn. by rewrite decide_True.
Qed.

Lemma split_only_in : only_in b start stop s s'.
Proof.
  destruct split_view as (Hfr & _ & _ & _ & _ & _ & Ho). split; [|done]. intros x Hx. pose proof split_a as (H1 & H2 & H3).
  rewrite Ho.
  - unfold outer. cbn zeta. rewrite !decide_False; [done| |]; intros [-> H0].
    + apply split_out_g in H0. assert (gnext (slot s a) ∈ gl) as Hin by set_solver. by destruct (binv_in _ _ _ _ _ _ _ Hb Hin).
    + apply split_out_n in H0. pose proof (split_in_list q (snext (slot s a)) (proj2 Hpq)) as [Hin _]; [rewrite Hq; by right|].
      by destruct (binv_in _ _ _ _ _ _ _ Hb Hin).
  - pose proof (cut_pos q). split; [lia|]. intros j Hj. pose proof (cut_lt j q). pose proof (cut_pos j). lia.
Qed.

Lemma split_binv : binv s' b start stop gl' FL_split.
Proof.
  pose proof Hb as [B1 B2 B3 B4 B5 B6 B7 B8 B9 B10]. destruct split_view as (Hfr & Vu & _ & _ & Va & Vp & _).
  assert (Hgl : forall x, x ∈ gl' -> x = a \/ x ∈ pieces \/ (x ∈ gl /\ x <> a)).
  { destruct split_notin as (Ha1 & Ha2 & _). set_solver. }
  split; [by apply Hfr|done|done|by rewrite (fr_size _ _ _ Hfr)|apply split_tiles|apply split_dseg| | |apply split_free|].
  - intros x [->|[(j & Hj & ->)%elem_of_pieces|[Hx Hxa]]]%Hgl.
    + rewrite Va. cbn. apply B7. set_solver.
    + rewrite Vp by done. by right.
    + destruct (split_other x Hx Hxa) as (_ & _ & -> & _). auto.
  - intros x [->|[(j & Hj & ->)%elem_of_pieces|[Hx Hxa]]]%Hgl.
    + rewrite Va. cbn. apply B8. set_solver.
    + by rewrite Vp by done.
    + destruct (split_other x Hx Hxa) as (-> & _). auto.
  - by rewrite Vu, split_used_sum.
Qed.

Lemma split_in_use x n : in_use s' gl' x n <-> in_use s gl x n.
Proof.
  destruct split_view as (_ & _ & _ & _ & Va & Vp & _). destruct split_first as (_ & Hfa & _). unfold is_free in Hfa.
  destruct split_notin as (Ha1 & Ha2 & _). unfold in_use.
  destruct (decide (x = a)) as [->|Hxa]; [rewrite Va; cbn; rewrite Hfa; split; intros (_ & ? & _); done|].
  destruct (decide (x ∈ gl)) as [Hx|Hx].
  - destruct (split_other x Hx Hxa) as (_ & -> & -> & _). set_solver.
  - split; [|set_solver]. intros (Hin & Hst & _). assert (x ∈ pieces) as (j & Hj & ->)%elem_of_pieces by set_solver.
    rewrite Vp in Hst by done. done.
Qed.

End spec.
End split.

(** ** checkblock *)

Section check.
Context {U : Uninit} {L : PoolLayout} {A : BlockAlloc}.

(** What a call that found a slot leaves behind. *)
Definition found (power : nat) (b start stop : Z) (s : mempool) (gl : list Z) (s' : mempool) : Prop :=
  exists gl' FL', binv s' b start stop gl' FL' /\ only_in b start stop s s' /\ FL' power <> [] /\
    forall x n, in_use s' gl' x n <-> in_use s gl x n.

Lemma check_loop_spec n power powiter s b start stop gl FL : binv s b start stop gl FL ->
  power < powiter -> powiter + n = cutOffNum -> (forall i, power <= i < powiter -> FL i = []) ->
  let '(s', ok) := check_loop n power powiter b s in
  if ok then found power b start stop s gl s' else s' = s /\ forall i, power <= i < cutOffNum -> FL i = [].
Proof.
  intros Hb. revert powiter. induction n as [|n IH]; intros powiter Hp Hn He; cbn [check_loop].
  - split; [done|]. intros i Hi. apply He. lia.
  - destruct (Z.eqb_spec (freelist s b powiter) 0) as [E|E]; cbn [negb].
    + apply IH; [lia|lia|]. intros i Hi. destruct (decide (i = powiter)) as [->|]; [|apply He; lia].
      eapply fl_head_zero; [apply Hb|lia|exact E].
    + pose proof (bi_free _ _ _ _ _ _ Hb) as Hf. assert (Hpw : power < powiter < cutOffNum) by lia.
      unfold freelist in E. rewrite (fo_head _ _ _ _ Hf) in E by lia. destruct (FL powiter) as [|a l] eqn:El; [done|].
      assert (a ∈ gl) as Ha.
      { assert (a ∈ FL powiter) as Ha by (rewrite El; left). by apply (fo_elem _ _ _ _ Hf) in Ha as [[? _] _]; [|lia]. }
      apply list_elem_of_split in Ha as (g1 & g2 & ->). exists (g1 ++ a :: pieces a power powiter ++ g2).
      exists (FL_split a power powiter FL l). split; [by eapply split_binv|]. split; [by eapply split_only_in|]. split.
      * unfold FL_split. rewrite decide_False, decide_True by lia. done.
      * intros x m. by eapply split_in_use.
Qed.

Lemma checkblock_spec power s b start stop gl FL : binv s b start stop gl FL -> power < cutOffNum ->
  let '(s', ok) := checkblock power b s in
  if ok then found power b start stop s gl s' else s' = s /\ forall i, power <= i < cutOffNum -> FL i = [].
Proof.
  intros Hb Hp. unfold checkblock. pose proof (bi_free _ _ _ _ _ _ Hb) as Hf. destruct (Z.eqb_spec (freelist s b power) 0) as [E|E]; cbn [negb].
  - apply (check_loop_spec _ power (power + 1) s b start stop gl FL Hb); [lia|lia|].
    intros i Hi. replace i with power by lia. eapply fl_head_zero; [exact Hf|lia|exact E].
  - exists gl, FL. split; [done|]. split; [apply only_in_refl|]. split; [|done]. intros En. apply E. unfold freelist.
    by rewrite (fo_head _ _ _ _ Hf), En by done.
Qed.

(** ** The greedy cut of a stretch of memory

    [fillblock] and [mempool_free] cut [left] bytes at [loc] into slots of
    decreasing size, at most one of each class below [k]. *)

Fixpoint greedy (k : nat) (loc left : Z) : list (nat * Z) :=
  match k with
  | 0 => []
  | S i => if (cut i <=? left)%Z then (i, loc) :: greedy i (loc + cut i) (left - cut i) else greedy i loc left
  end.

Fixpoint greedy_sum (k : nat) (left : Z) : Z :=
  match k with
  | 0 => 0
  | S i => if (cut i <=? left)%Z then cut i + greedy_sum i (left - cut i) else greedy_sum i left
  end.

Lemma greedy_in k loc left i x : k <= cutOffNum -> (i, x) ∈ greedy k loc left -> i < k /\ (loc <= x)%Z.
Proof.
  revert loc left. induction k as [|k IH]; intros loc left Hk; cbn; [set_solver|].
  destruct (Z.leb_spec (cut k) left) as [Hc|Hc].
  - rewrite elem_of_cons. intros [[= -> ->]|Hin]; [lia|]. apply IH in Hin; [|lia]. pose proof (cut_pos k). lia.
  - intros Hin. apply IH in Hin; lia.
Qed.

Lemma greedy_head k loc left x : x ∈ (greedy k loc left).*2 -> (loc <= x)%Z \/ cutOffNum < k.
Proof.
  intros ((i, y) & -> & Hin)%list_elem_of_fmap. destruct (decide (k <= cutOffNum)); [|lia]. left. by apply greedy_in in Hin as [].
Qed.

(** Almost everything is used up: less than the smallest slot remains. *)
Lemma greedy_rest k left : k <= cutOffNum -> (0 <= left < 64 * 2 ^ Z.of_nat k)%Z -> (0 <= left - greedy_sum k left < 64)%Z.
Proof.
  revert left. induction k as [|k IH]; intros left Hk Hl; cbn; [lia|].
  assert (cut k = 64 * 2 ^ Z.of_nat k)%Z as Ec by (by apply cut_pow; lia).
  rewrite Nat2Z.inj_succ, Z.pow_succ_r in Hl by lia.
  destruct (Z.leb_spec (cut k) left) as [Hc|Hc]; [specialize (IH (left - cut k)%Z)|specialize (IH left)]; lia.
Qed.

Lemma greedy_rest_div k left : k <= cutOffNum -> ((left - greedy_sum k left) mod 64 = left mod 64)%Z.
Proof.
  revert left. induction k as [|k IH]; intros left Hk; cbn; [by rewrite Z.sub_0_r|].
  destruct (Z.leb_spec (cut k) left) as [Hc|Hc]; [|apply IH; lia].
  rewrite Z.sub_add_distr, IH by lia. rewrite cut_pow by lia.
  replace (left - 64 * 2 ^ Z.of_nat k)%Z with (left + (- 2 ^ Z.of_nat k) * 64)%Z by lia. by rewrite Z.mod_add by lia.
Qed.

Lemma greedy_tiles M k loc left : k <= cutOffNum -> (forall i x, (i, x) ∈ greedy k loc left -> slot_size (M x) = i) ->
  tiles M loc (greedy k loc left).*2 (loc + greedy_sum k left).
Proof.
  revert loc left. induction k as [|k IH]; intros loc left Hk HM; cbn in *; [lia|].
  destruct (Z.leb_spec (cut k) left) as [Hc|Hc]; [|apply IH; [lia|done]]. cbn.
  rewrite (HM k loc) by left. split; [done|]. split; [lia|].
  replace (loc + (cut k + greedy_sum k (left - cut k)))%Z with (loc + cut k + greedy_sum k (left - cut k))%Z by lia.
  apply IH; [lia|]. intros i x Hin. apply HM. by right.
Qed.

(** The first slot is the largest that fits. *)
Lemma greedy_first k loc left : (cut k <= left)%Z ->
  greedy (S k) loc left = (k, loc) :: greedy k (loc + cut k) (left - cut k).
Proof. intros Hc. cbn. by rewrite (proj2 (Z.leb_le _ _)). Qed.

End check.
