(* ===== verification/MempoolFill.v ===== *)
(** * MempoolFill: a new block is cut into slots ([fillblock]) *)

From S2P Require Import Prelude Mempool MempoolFacts MempoolOps MempoolSplit.
Set Warnings "-clear-no-such-hyp".

Section fill.
Context {U : Uninit} {L : PoolLayout} {A : BlockAlloc}.

(** [fl] holds the slots of the cut, and nothing else below class [k]. *)
Definition lists_of (k : nat) (l : list (nat * Z)) (fl : nat -> Z) : Prop :=
  forall i, i < k -> (forall x, (i, x) ∈ l -> fl i = x) /\ ((forall x, (i, x) ∉ l) -> fl i = 0%Z).

Lemma fill_lists_length k loc left fl : length (fill_lists k loc left fl) = length fl.
Proof.
  revert loc left fl. induction k as [|k IH]; intros loc left fl; [done|]. cbn. destruct (_ <=? _)%Z; rewrite IH; [by rewrite length_insert|done].
Qed.

Lemma fill_lists_above k loc left fl j : k <= cutOffNum -> k <= j -> fill_lists k loc left fl !!! j = fl !!! j.
Proof.
  revert loc left fl. induction k as [|k IH]; intros loc left fl Hk Hj; [done|]. cbn.
  destruct (_ <=? _)%Z; rewrite IH by lia; [by rewrite list_lookup_total_insert_ne by lia|done].
Qed.

Lemma fill_lists_spec k loc left fl : k <= cutOffNum -> length fl = cutOffNum -> (forall i, i < k -> fl !!! i = 0%Z) ->
  lists_of k (greedy k loc left) (fun i => fill_lists k loc left fl !!! i).
Proof.
  revert loc left fl. induction k as [|k IH]; intros loc left fl Hk Hl Hz i Hi; [lia|]. cbn [greedy fill_lists].
  destruct (Z.leb_spec (cut k) left) as [Hc|Hc].
  - assert (Hnk : forall x, (k, x) ∉ greedy k (loc + cut k) (left - cut k)) by (intros x Hin; apply greedy_in in Hin; lia).
    destruct (decide (i = k)) as [->|Hik].
    + rewrite fill_lists_above, list_lookup_total_insert_eq by lia. split; [|intros H0; by destruct (H0 loc); left].
      intros x [[= ->]|Hin]%elem_of_cons; [done|]. by apply Hnk in Hin.
    + destruct (IH (loc + cut k)%Z (left - cut k)%Z (<[k:=loc]> fl)) with (i := i) as [H1 H2]; [lia|by rewrite length_insert| |lia|].
      { intros j Hj. rewrite list_lookup_total_insert_ne by lia. apply Hz. lia. }
      split; [intros x [[= ? _]|Hin]%elem_of_cons; [done|auto]|]. intros H0. apply H2. intros x Hin. apply (H0 x). by right.
  - destruct (decide (i = k)) as [->|Hik].
    + rewrite fill_lists_above by lia. split; [intros x Hin; apply greedy_in in Hin; lia|]. intros _. by apply Hz.
    + apply IH; [lia|done|intros j Hj; apply Hz; lia|lia].
Qed.

(** The headers of the slots below class [power]. *)
Lemma fill_heads_spec k power b prev s loc left : k <= power -> power < cutOffNum -> (0 < loc)%Z -> (prev < loc)%Z ->
  lists_of k (greedy k loc left) (freelist s b) ->
  let l := greedy k loc left in
  let '(s', head') := fill_heads k power b prev s in
  frame b s s' /\ (forall b', block s' b' = block s b') /\ head' = default prev (last l.*2) /\
  dseg gprev gnext (slot s') prev l.*2 uninit_word /\
  (forall i x, (i, x) ∈ l -> block_ptr (slot s' x) = b /\ slot_size (slot s' x) = i /\ status (slot s' x) = 1%Z /\
     sprev (slot s' x) = 0%Z /\ snext (slot s' x) = 0%Z) /\
  slot s' prev = match head l.*2 with Some x => set_gnext x (slot s prev) | None => slot s prev end /\
  (forall x, x ∉ l.*2 -> x <> prev -> slot s' x = slot s x).
Proof.
  revert prev s loc left. induction k as [|k IH]; intros prev s loc left Hk Hp Hloc Hprev Hfl; cbn [greedy fill_heads].
  - split; [auto with mempool|]. do 4 (split; [done || set_solver|]). done.
  - destruct (Hfl k) as [F1 F2]; [lia|]. cbn [greedy] in Hfl, F1, F2.
    destruct (Z.leb_spec (cut k) left) as [Hc|Hc].
    + rewrite (F1 loc) by left. rewrite (proj2 (Z.eqb_neq loc 0)) by lia. cbn [negb].
      rewrite (proj2 (Nat.eqb_neq k power)) by lia. cbn [negb].
      set (s2 := upd_slot prev (set_gnext loc) (put_slot loc (mk_slot b k 1 prev uninit_word 0 0) s)).
      pose proof (cut_pos k) as Hcp. specialize (IH loc s2 (loc + cut k)%Z (left - cut k)%Z).
      destruct (fill_heads k power b loc s2) as [s' head'].
      destruct IH as (G1 & G2 & G3 & G4 & G5 & G6 & G7); [lia|done|lia|lia| |].
      { intros i Hi. destruct (Hfl i) as [H1 H2]; [lia|]. split; [intros x Hin; apply H1; by right|].
        intros H0. apply H2. intros x [[= -> ->]|Hin]%elem_of_cons; [lia|by apply (H0 x)]. }
      set (l' := greedy k (loc + cut k) (left - cut k)) in *.
      assert (Hl' : forall x, x ∈ l'.*2 -> (loc < x)%Z) by (intros x Hin; apply greedy_head in Hin; lia).
      assert (V2 : slot s2 loc = mk_slot b k 1 prev uninit_word 0 0).
      { unfold s2. rewrite slot_upd, decide_False by lia. by rewrite slot_put, decide_True. }
      assert (Vloc : slot s' loc = mk_slot b k 1 prev (default uninit_word (head l'.*2)) 0 0).
      { rewrite G6, V2. by destruct (head l'.*2). }
      split; [eapply frame_trans; [|exact G1]; unfold s2; auto with mempool|]. split; [intros b'; by rewrite G2|].
      rewrite fmap_cons. cbn [snd head]. split; [|split; [|split; [|split]]].
      * rewrite G3. destruct (last l'.*2) as [z|] eqn:Ez.
        -- rewrite last_cons, Ez. done.
        -- apply last_None in Ez. rewrite Ez. done.
      * cbn [dseg]. rewrite Vloc. done.
      * intros i x [[= -> ->]|Hin]%elem_of_cons; [by rewrite Vloc|auto].
      * rewrite G7; [|intros Hin%Hl'; lia|lia]. unfold s2. rewrite slot_upd, decide_True by done. by rewrite slot_put, decide_False by lia.
      * intros x [Hx1 Hx2]%not_elem_of_cons Hx3. rewrite G7 by done. unfold s2.
        rewrite slot_upd, decide_False by done. by rewrite slot_put, decide_False.
    + rewrite F2 by (intros x Hin; apply greedy_in in Hin; lia). cbn [Z.eqb negb]. apply IH; [lia|done|done|done|].
      intros i Hi. apply Hfl. lia.
Qed.

(** All headers: the largest slot comes first. *)
Lemma fill_heads_all power b s loc left : power < cutOffNum -> (0 < loc)%Z -> (cut power <= left)%Z ->
  lists_of (S power) (greedy (S power) loc left) (freelist s b) ->
  let l := greedy (S power) loc left in
  let '(s1, head') := fill_heads (S power) power b 0 s in
  let s' : mempool := upd_slot head' (set_gnext 0) s1 in
  frame b s s' /\ (forall b', block s' b' = block s b') /\
  dseg gprev gnext (slot s') 0 l.*2 0 /\
  (forall i x, (i, x) ∈ l -> block_ptr (slot s' x) = b /\ slot_size (slot s' x) = i /\ status (slot s' x) = 1%Z /\
     sprev (slot s' x) = 0%Z /\ snext (slot s' x) = 0%Z) /\
  (forall x, x ∉ l.*2 -> slot s' x = slot s x).
Proof.
  intros Hp Hloc Hc Hfl. cbn zeta. rewrite greedy_first by done. cbn [fill_heads].
  rewrite greedy_first in Hfl by done. set (l' := greedy power (loc + cut power) (left - cut power)) in *.
  rewrite (proj1 (Hfl power ltac:(lia)) loc) by left.
  rewrite (proj2 (Z.eqb_neq loc 0)), Nat.eqb_refl by lia. cbn [negb].
  set (s2 := put_slot loc (mk_slot b power 1 0 uninit_word 0 0) s).
  pose proof (cut_pos power Hp) as Hcp.
  pose proof (fill_heads_spec power power b loc s2 (loc + cut power) (left - cut power)) as HV. fold l' in HV. cbn zeta in HV.
  destruct (fill_heads power power b loc s2) as [s1 head'].
  destruct HV as (G1 & G2 & G3 & G4 & G5 & G6 & G7); [lia|done|lia|lia| |].
  { intros i Hi. destruct (Hfl i) as [H1 H2]; [lia|]. split; [intros x Hin; apply H1; by right|].
    intros H0. apply H2. intros x [[= -> ->]|Hin]%elem_of_cons; [lia|by apply (H0 x)]. }
  assert (Hl' : forall x, x ∈ l'.*2 -> (loc < x)%Z) by (intros x Hin; apply greedy_head in Hin; lia).
  assert (V1 : slot s1 loc = mk_slot b power 1 0 (default uninit_word (head l'.*2)) 0 0).
  { rewrite G6. unfold s2. rewrite slot_put, decide_True by done. by destruct (head l'.*2). }
  assert (Hd1 : dseg gprev gnext (slot s1) 0 (loc :: l'.*2) uninit_word) by (cbn [dseg]; rewrite V1; done).
  assert (Hnd : NoDup (loc :: l'.*2)).
  { apply (tiles_nodup (slot s1) loc _ (loc + greedy_sum (S power) left)).
    pose proof (greedy_tiles (slot s1) (S power) loc left) as Ht. rewrite greedy_first in Ht by done. apply Ht; [lia|].
    intros i x [[= -> ->]|Hin]%elem_of_cons; [by rewrite V1|]. by apply G5 in Hin as (_ & ? & _). }
  assert (Hlast : last (loc :: l'.*2) = Some head') by (rewrite last_cons, G3; by destruct (last l'.*2)).
  set (s' := upd_slot head' (set_gnext 0) s1).
  assert (Vs : forall x, slot s' x = if decide (x = head') then set_gnext 0 (slot s1 head') else slot s1 x) by (intros x; apply slot_upd).
  split; [|split; [|split; [|split]]].
  - unfold s'. apply frame_slot. eapply frame_trans; [|exact G1]. unfold s2. auto with mempool.
  - intros b'. unfold s'. rewrite block_upd_slot, G2. done.
  - rewrite fmap_cons. cbn [snd]. apply last_Some in Hlast as [k Ek]. rewrite Ek in *.
    apply NoDup_app in Hnd as (_ & Hdis & _). assert (head' ∉ k) as Hk by (intros Hin; apply (Hdis _ Hin); left).
    eapply dseg_end; [exact Hk|exact Hd1| | |].
    + by rewrite Vs, decide_True.
    + by rewrite Vs, decide_True.
    + intros x Hx. rewrite Vs, decide_False; [done|]. by intros ->.
  - intros i x Hin. assert (block_ptr (slot s1 x) = b /\ slot_size (slot s1 x) = i /\ status (slot s1 x) = 1%Z /\
      sprev (slot s1 x) = 0%Z /\ snext (slot s1 x) = 0%Z) as H1.
    { apply elem_of_cons in Hin as [[= -> ->]|Hin]; [by rewrite V1|auto]. }
    rewrite Vs. destruct (decide (x = head')) as [->|]; exact H1.
  - intros x. rewrite fmap_cons. intros [Hx1 Hx2]%not_elem_of_cons. cbn in Hx1. rewrite Vs, decide_False.
    + rewrite G7 by done. unfold s2. by rewrite slot_put, decide_False.
    + intros ->. apply last_Some_elem_of in Hlast. set_solver.
Qed.

(** The free lists of a new block have at most one slot each. *)
Definition FL_fill (fl : list Z) (i : nat) : list Z := if decide (fl !!! i = 0%Z) then [] else [fl !!! i].

Lemma fill_free M fl k l loc stop : k <= cutOffNum -> length fl = cutOffNum -> (0 < loc)%Z ->
  lists_of k l (fun i => fl !!! i) -> (forall i, k <= i < cutOffNum -> fl !!! i = 0%Z) -> (forall i x, (i, x) ∈ l -> i < k) ->
  tiles M loc l.*2 stop ->
  (forall i x, (i, x) ∈ l -> slot_size (M x) = i /\ status (M x) = 1%Z /\ sprev (M x) = 0%Z /\ snext (M x) = 0%Z) ->
  fl_ok M fl (fun x => x ∈ l.*2 /\ status (M x) = 1%Z) (FL_fill fl).
Proof.
  intros Hk Hlen Hloc Hfl Hab Hlk Hti HM.
  assert (Hx0 : forall x, x ∈ l.*2 -> x <> 0%Z) by (intros x Hx; apply (tiles_in _ _ _ _ _ Hti) in Hx; lia).
  assert (Hin2 : forall x, x ∈ l.*2 -> exists i, (i, x) ∈ l).
  { intros x ((i, y) & -> & Hin)%list_elem_of_fmap. by exists i. }
  assert (Hfl2 : forall i, i < cutOffNum -> fl !!! i <> 0%Z -> (i, fl !!! i) ∈ l).
  { intros i Hi Hne. destruct (decide (i < k)) as [Hik|]; [|by rewrite Hab in Hne by lia].
    destruct (decide (Exists (fun p => p.1 = i) l)) as [HE|HE].
    - apply Exists_exists in HE as ([j x] & Hin & E). cbn in E. subst j. by rewrite (proj1 (Hfl i Hik) x Hin).
    - destruct Hne. apply (Hfl i Hik). intros x Hin. apply HE, Exists_exists. by exists (i, x). }
  assert (Hin_l2 : forall i x, (i, x) ∈ l -> x ∈ l.*2) by (intros i x Hin; apply list_elem_of_fmap; by exists (i, x)).
  split.
  - done.
  - intros [H0%Hx0 _]. done.
  - intros i Hi. unfold FL_fill. by case_decide.
  - intros i Hi. unfold FL_fill. destruct (decide (fl !!! i = 0%Z)) as [|Hne]; [done|]. cbn.
    destruct (HM i _ (Hfl2 i Hi Hne)) as (_ & _ & -> & ->). done.
  - intros i Hi. unfold FL_fill. case_decide; [constructor|apply NoDup_singleton].
  - intros i x Hi. unfold FL_fill. split.
    + destruct (decide (fl !!! i = 0%Z)) as [|Hne]; [by intros ?%elem_of_nil|]. intros ->%list_elem_of_singleton.
      pose proof (Hfl2 i Hi Hne) as Hin. destruct (HM _ _ Hin) as (? & ? & _). eauto.
    + intros [[Hx Hst] Hs]. destruct (Hin2 x Hx) as [j Hj]. destruct (HM _ _ Hj) as (E & _). rewrite Hs in E. subst j.
      assert (fl !!! i = x) as -> by (apply (Hfl i); [by eapply Hlk|done]). rewrite decide_False by auto. left.
  - intros x [Hx _]. by apply (tiles_in _ _ _ _ _ Hti) in Hx as (_ & _ & ?).
Qed.

Lemma fillblock_spec b sz (expansion : bool) s hdr : is_Some (blocks s !! b) ->
  hdr = (if expansion then sizeof_block_header else sizeof_mempool_type) ->
  (0 < b + hdr)%Z -> (0 <= hdr)%Z -> (hdr + 64 <= sz <= hdr + cut 24)%Z -> b_size (block s b) = sz -> b_used (block s b) = 0%Z ->
  exists s' stop gl FL, fillblock b sz expansion s = Normal s' /\ (stop <= b + sz)%Z /\
    binv s' b (b + hdr) stop gl FL /\ only_in b (b + hdr) stop s s' /\ (forall x n, ~ in_use s' gl x n) /\
    (forall power, (2 * cut power <= sz - hdr)%Z -> power < cutOffNum -> exists i, power <= i < cutOffNum /\ FL i <> []).
Proof.
  intros Hb Eh Hpos H0 Hsz Es Eu. set (left := (sz - hdr)%Z). set (loc := (b + hdr)%Z) in *.
  unfold fillblock. rewrite <- Eh. fold loc. change (cut 24) with 1073741824%Z in *.
  assert (u64 (sz - hdr) = left) as -> by (unfold u64, left; apply Z.mod_small; lia).
  destruct (floor_pow2_spec left) as (power & -> & Hp & Hc & Hup); [change (cut 24) with 1073741824%Z; unfold left; lia|].
  set (fl := fill_lists (S power) loc left (replicate cutOffNum 0%Z)).
  set (s0 := upd_block b _ s).
  assert (Hf0 : frame b s s0) by (by apply frame_upd).
  assert (E0 : block s0 b = mk_block sz 0 (block_prev (block s b)) (block_next (block s b)) fl).
  { unfold s0. rewrite block_upd by done. by rewrite Es, Eu. }
  assert (Hlen : length fl = cutOffNum) by (unfold fl; by rewrite fill_lists_length, length_replicate).
  assert (Hfl : lists_of (S power) (greedy (S power) loc left) (fun i => fl !!! i)).
  { apply fill_lists_spec; [lia|by rewrite length_replicate|]. intros i Hi. by rewrite lookup_total_replicate_2 by lia. }
  assert (Hab : forall i, S power <= i < cutOffNum -> fl !!! i = 0%Z).
  { intros i Hi. unfold fl. rewrite fill_lists_above by lia. by rewrite lookup_total_replicate_2 by lia. }
  pose proof (fill_heads_all power b s0 loc left Hp Hpos Hc) as HV. unfold freelist in HV. rewrite E0 in HV. cbn [freelists] in HV.
  specialize (HV Hfl). cbn zeta in HV. destruct (fill_heads (S power) power b 0 s0) as [s1 head'].
  set (l := greedy (S power) loc left) in *. destruct HV as (G1 & G2 & G3 & G4 & G5).
  set (s' := upd_slot head' (set_gnext 0) s1) in *.
  exists s', (loc + greedy_sum (S power) left)%Z, l.*2, (FL_fill fl).
  assert (Hrest : (0 <= left - greedy_sum (S power) left < 64)%Z).
  { apply greedy_rest; [lia|]. split; [unfold left; lia|]. destruct (decide (S power < cutOffNum)) as [HS|HS].
    - rewrite <- cut_pow by done. by apply Hup.
    - replace (S power) with 25 by (unfold cutOffNum in *; lia).
      change (64 * 2 ^ Z.of_nat 25)%Z with 2147483648%Z. unfold left. lia. }
  split; [done|]. split; [unfold left, loc in *; lia|].
  assert (Hti : tiles (slot s') loc l.*2 (loc + greedy_sum (S power) left)).
  { apply greedy_tiles; [lia|]. intros i x Hin. by apply G4 in Hin as (_ & ? & _). }
  assert (Hin2 : forall x, x ∈ l.*2 -> exists i, (i, x) ∈ l).
  { intros x ((i, y) & -> & Hin)%list_elem_of_fmap. by exists i. }
  assert (Hbl : block s' b = block s0 b) by apply G2.
  assert (Hfree : forall x, x ∈ l.*2 -> status (slot s' x) = 1%Z) by (intros x [i Hin]%Hin2; by apply G4 in Hin as (_ & _ & ? & _)).
  split; [split|split; [|split]].
  - apply G1. by apply Hf0.
  - done.
  - change (cut 24) with 1073741824%Z. unfold left in *. lia.
  - rewrite Hbl, E0. cbn [b_size]. unfold left in *. lia.
  - done.
  - done.
  - intros x Hx. right. auto.
  - intros x [i Hin]%Hin2. by apply G4 in Hin as (? & _).
  - rewrite Hbl, E0. cbn [freelists]. apply (fill_free _ _ (S power) l loc (loc + greedy_sum (S power) left)); try done.
    + intros i x Hin. apply greedy_in in Hin; lia.
    + intros i x Hin. apply G4 in Hin as (_ & ? & ? & ? & ?). done.
  - rewrite Hbl, E0. cbn [b_used]. assert (forall k, (forall x, x ∈ k -> x ∈ l.*2) -> used_sum (slot s') k = 0%Z) as Hk; [|by rewrite Hk].
    induction k as [|x k IH]; intros Hin; [done|]. rewrite used_sum_cons, IH, decide_True; [done|apply Hfree, Hin; left|].
    intros y Hy. apply Hin. by right.
  - split; [|by eapply frame_trans]. intros x Hx. rewrite G5; [done|]. intros Hin. apply Hx.
    apply (tiles_in _ _ _ _ _ Hti) in Hin as (H1 & H2 & H3). pose proof (cut_pos _ H3). lia.
  - intros x n (Hx & Hst & _). rewrite Hfree in Hst by done. done.
  - intros pw Hpw Hlt. exists power. assert (fl !!! power = loc) as Ep.
    { apply (Hfl power); [lia|]. unfold l. rewrite greedy_first by done. left. }
    split; [|unfold FL_fill; rewrite Ep, decide_False by lia; done]. split; [|done].
    destruct (decide (pw <= power)); [done|]. exfalso. specialize (Hup ltac:(lia)).
    assert (cut (S power) <= cut pw)%Z; [|pose proof (cut_pos pw Hlt); unfold left in Hup; lia].
    destruct (decide (S power = pw)) as [->|]; [done|]. pose proof (cut_lt (S power) pw). lia.
Qed.

End fill.
