(* ===== verification/MempoolFree.v ===== *)
(** * MempoolFree: releasing a slot ([mempool_free])

    The free neighbours of the slot are found through the list of all slots
    and taken out of their free lists, and the whole stretch is cut again
    into slots of decreasing size. *)

From S2P Require Import Prelude Mempool MempoolFacts MempoolOps MempoolSplit.
Set Warnings "-clear-no-such-hyp".

Section free.
Context {U : Uninit} {L : PoolLayout} {A : BlockAlloc}.

(** ** Finding the free neighbours *)

Definition bytes (M : Z -> slot_header) (l : list Z) : Z := foldr (fun a n => (cut (slot_size (M a)) + n)%Z) 0%Z l.

Lemma bytes_cons M a l : bytes M (a :: l) = (cut (slot_size (M a)) + bytes M l)%Z.
Proof. done. Qed.

Lemma bytes_app M l1 l2 : bytes M (l1 ++ l2) = (bytes M l1 + bytes M l2)%Z.
Proof. induction l1 as [|a l1 IH]; [done|]. cbn [app]. rewrite !bytes_cons, IH. lia. Qed.

Lemma tiles_bytes M start l stop : tiles M start l stop -> stop = (start + bytes M l)%Z.
Proof.
  revert start. induction l as [|a l IH]; intros start; [cbn; lia|]. cbn [tiles]. intros (-> & _ & ->%IH).
  rewrite bytes_cons. lia.
Qed.

Definition stops (s : mempool) (o : option Z) : Prop := match o with Some u => status (slot s u) <> 1%Z | None => True end.

Lemma back_loop_spec r : forall fuel s c size first g e, dseg gprev gnext (slot s) 0 (g ++ r ++ [c]) e ->
  (forall x, x ∈ r ++ [c] -> is_free s x) -> stops s (last g) -> (forall x, x ∈ g ++ r ++ [c] -> x <> 0%Z) ->
  length (g ++ r ++ [c]) < fuel ->
  back_loop fuel s c size first = Normal (size + bytes (slot s) (r ++ [c]), default c (head r))%Z.
Proof.
  induction r as [|d r IH] using rev_ind; intros fuel s c size first g e Hd Hf Hs H0 Hl.
  - destruct fuel as [|fuel]; [lia|]. cbn [back_loop]. assert (is_free s c) as -> by (apply Hf; set_solver). cbn [Z.eqb app].
    rewrite app_nil_l in Hd. apply dseg_snoc in Hd as (_ & -> & _). cbn [app bytes foldr head]. rewrite Z.add_0_r.
    destruct (last g) as [u|] eqn:Eu; cbn; [|done]. apply last_Some_elem_of in Eu as Hu.
    rewrite (proj2 (Z.eqb_neq u 0)) by (apply H0; set_solver). destruct fuel as [|fuel]; [destruct g; cbn in Hl; [done|lia]|].
    cbn [back_loop]. rewrite (proj2 (Z.eqb_neq _ _)) by done. done.
  - destruct fuel as [|fuel]; [lia|]. cbn [back_loop]. assert (is_free s c) as -> by (apply Hf; set_solver). cbn [Z.eqb].
    rewrite !app_assoc in Hd. apply dseg_snoc in Hd as (Hd & -> & _). rewrite last_snoc. cbn [default].
    rewrite (proj2 (Z.eqb_neq (id d) 0)) by (apply H0; set_solver).
    rewrite (IH fuel s d _ c g c); [| |intros x Hx; apply Hf; set_solver|done|intros x Hx; apply H0; set_solver|].
    + rewrite !bytes_app, !bytes_cons. change (bytes (slot s) []) with 0%Z. change (id d) with d. f_equal. f_equal; [lia|]. by destruct r.
    + by rewrite app_assoc.
    + rewrite !length_app in *. cbn in *. lia.
Qed.

Lemma forth_loop_spec r : forall fuel s c size g p, dseg gprev gnext (slot s) p (c :: r ++ g) 0 ->
  (forall x, x ∈ c :: r -> is_free s x) -> stops s (head g) -> (forall x, x ∈ c :: r ++ g -> x <> 0%Z) ->
  length (c :: r ++ g) < fuel ->
  forth_loop fuel s c size = Normal (size + bytes (slot s) (c :: r), default 0 (head g))%Z.
Proof.
  induction r as [|d r IH]; intros fuel s c size g p Hd Hf Hs H0 Hl; (destruct fuel as [|fuel]; [lia|]); cbn [forth_loop];
    (assert (is_free s c) as -> by (apply Hf; left)); cbn [Z.eqb]; cbn [dseg] in Hd; destruct Hd as (_ & -> & Hd).
  - cbn [app bytes foldr]. rewrite Z.add_0_r. destruct g as [|u g]; cbn; [done|].
    rewrite (proj2 (Z.eqb_neq u 0)) by (apply H0; set_solver). destruct fuel as [|fuel]; [cbn in Hl; lia|].
    cbn [forth_loop]. rewrite (proj2 (Z.eqb_neq _ _)) by done. done.
  - cbn [app head default]. rewrite (proj2 (Z.eqb_neq (id d) 0)) by (apply H0; set_solver).
    rewrite (IH fuel s d _ g c); [|exact Hd|intros x Hx; apply Hf; by right|done|intros x Hx; apply H0; by right|cbn in *; lia].
    f_equal. f_equal. rewrite !bytes_cons. lia.
Qed.

(** ** Taking slots out of their free lists *)

(** All but the links of the free lists. *)
Definition core (x : slot_header) : Z * nat * Z * Z * Z := (block_ptr x, slot_size x, status x, gprev x, gnext x).

Lemma core_fields x y : core x = core y -> block_ptr x = block_ptr y /\ slot_size x = slot_size y /\ status x = status y /\
  gprev x = gprev y /\ gnext x = gnext y.
Proof. intros [= ? ? ? ? ?]. done. Qed.

Lemma unlink_slot_spec s b c G FL : is_Some (blocks s !! b) -> fl_ok (slot s) (freelists (block s b)) G FL -> G c ->
  let s' := unlink_slot b c s in
  (exists FL', fl_ok (slot s') (freelists (block s' b)) (fun y => G y /\ y <> c) FL') /\
  frame b s s' /\ b_used (block s' b) = b_used (block s b) /\
  (forall x, core (slot s' x) = core (slot s x)) /\ (forall x, ~ G x -> slot s' x = slot s x).
Proof.
  intros Hb Hf Hc s'. pose proof (fo_size _ _ _ _ Hf c Hc) as Hsz. set (i := slot_size (slot s c)) in *.
  assert (Hci : c ∈ FL i) by (by apply (fo_elem _ _ _ _ Hf)). apply list_elem_of_split in Hci as (l1 & l2 & El).
  pose proof (fo_seg _ _ _ _ Hf i Hsz) as Hs. rewrite El in Hs. apply dseg_cat in Hs as (_ & Ep & En & _).
  assert (HG : forall y, y ∈ l1 ++ c :: l2 -> G y).
  { intros y Hy. rewrite <- El in Hy. by apply (fo_elem _ _ _ _ Hf) in Hy as [? _]. }
  set (pc := sprev (slot s c)) in *. set (nc := snext (slot s c)) in *.
  assert (Hpc : pc <> 0%Z -> G pc).
  { rewrite Ep. destruct (last l1) as [u|] eqn:Eu; cbn; [|done]. intros _. apply last_Some_elem_of in Eu. apply HG. set_solver. }
  assert (Hnc : nc <> 0%Z -> G nc) by (rewrite En; destruct l2 as [|u l2]; cbn; [done|]; intros _; apply HG; set_solver).
  assert (Vs : forall x, slot s' x =
    let y := if decide (x = pc /\ pc <> 0%Z) then set_snext nc (slot s x) else slot s x in
    if decide (x = nc /\ nc <> 0%Z) then set_sprev pc y else y).
  { intros x. unfold s', unlink_slot. fold pc nc.
    assert (E1 : forall z, slot (if negb (pc =? 0)%Z then upd_slot pc (set_snext nc) s else upd_block b (set_freelist i nc) s) z =
      if decide (z = pc /\ pc <> 0%Z) then set_snext nc (slot s z) else slot s z).
    { intros z. destruct (Z.eqb_spec pc 0) as [E|E]; cbn [negb]; [by rewrite decide_False by tauto|].
      rewrite slot_upd. destruct (decide (z = pc)) as [->|]; [by rewrite decide_True|by rewrite decide_False by tauto]. }
    cbn zeta. destruct (Z.eqb_spec nc 0) as [E|E]; cbn [negb].
    - rewrite (decide_False (P := x = nc /\ _)) by tauto. apply E1.
    - rewrite slot_upd. destruct (decide (x = nc)) as [->|]; [rewrite decide_True by done|rewrite (decide_False (P := x = nc /\ _)) by tauto];
        by rewrite E1. }
  assert (Vb : block s' b = if decide (pc = 0%Z) then set_freelist i nc (block s b) else block s b).
  { unfold s', unlink_slot. fold pc nc. fold i. destruct (Z.eqb_spec pc 0) as [E|E]; cbn [negb].
    - rewrite decide_True by done. destruct (negb _); rewrite ?block_upd_slot; by apply block_upd.
    - rewrite decide_False by done. by destruct (negb _). }
  split; [|split; [|split; [|split]]].
  - destruct (fl_unlink _ (slot s') _ _ _ c Hf Hc) as (FL' & HF & _).
    { intros y Hy Hyc. assert (y <> 0%Z) by (intros ->; by apply (fo_zero _ _ _ _ Hf)). rewrite Vs. fold pc nc. cbn zeta.
      destruct (decide (y = pc /\ pc <> 0%Z)), (decide (y = nc /\ nc <> 0%Z)), (decide (y = pc)), (decide (y = nc));
        cbn; try done; exfalso; intuition congruence. }
    exists FL'. rewrite Vb. fold pc nc in HF. fold i in HF. by case_decide.
  - unfold s', unlink_slot. auto 10 with mempool.
  - rewrite Vb. by case_decide.
  - intros x. rewrite Vs. cbn zeta. by repeat case_decide.
  - intros x Hx. rewrite Vs. cbn zeta. rewrite !decide_False; [done| |]; intros [-> H0]; auto.
Qed.

Lemma unlink_loop_spec rl : forall fuel s b t un p G FL, is_Some (blocks s !! b) ->
  fl_ok (slot s) (freelists (block s b)) G FL -> dseg gprev gnext (slot s) p rl un -> NoDup rl -> un ∉ rl -> ~ G t ->
  (forall x, x ∈ rl -> x = t \/ G x) -> length rl < fuel ->
  exists s' FL', unlink_loop fuel b t un (default un (head rl)) s = Normal s' /\
    fl_ok (slot s') (freelists (block s' b)) (fun y => G y /\ y ∉ rl) FL' /\
    frame b s s' /\ b_used (block s' b) = b_used (block s b) /\
    (forall x, core (slot s' x) = core (slot s x)) /\ (forall x, ~ G x -> slot s' x = slot s x).
Proof.
  induction rl as [|c rl IH]; intros fuel s b t un p G FL Hb Hf Hd Hn Hun Ht Hrl Hfuel; (destruct fuel as [|fuel]; [lia|]);
    cbn [unlink_loop head default].
  - rewrite Z.eqb_refl. exists s, FL. split; [done|]. split; [|auto with mempool].
    eapply fl_ok_ext; [|by intros|exact Hf]. set_solver.
  - apply NoDup_cons in Hn as [Hc Hn]. apply not_elem_of_cons in Hun as [Hunc Hun].
    change (id c) with c. rewrite (proj2 (Z.eqb_neq c un)) by congruence.
    assert (exists FL1, let s1 := if negb (c =? t)%Z then unlink_slot b c s else s in
      fl_ok (slot s1) (freelists (block s1 b)) (fun y => G y /\ y <> c) FL1 /\ frame b s s1 /\
      b_used (block s1 b) = b_used (block s b) /\
      (forall x, core (slot s1 x) = core (slot s x)) /\ (forall x, ~ G x -> slot s1 x = slot s x)) as (FL1 & Hs1).
    { destruct (Z.eqb_spec c t) as [->|Hct]; cbn [negb].
      - exists FL. cbn zeta. split; [|auto with mempool]. eapply fl_ok_ext; [|by intros|exact Hf].
        intros y. split; [|tauto]. intros Hy. split; [done|]. by intros ->.
      - destruct (Hrl c) as [?|HGc]; [left|done|]. destruct (unlink_slot_spec s b c G FL Hb Hf HGc) as ((FL1 & ?) & ?). by exists FL1. }
    cbn zeta in *. set (s1 := if negb (c =? t)%Z then unlink_slot b c s else s) in *.
    destruct Hs1 as (F1 & F2 & F3 & F4 & F5). cbn [dseg] in Hd. destruct Hd as (_ & Hnx & Hd).
    assert (gnext (slot s1 c) = default un (head rl)) as ->.
    { destruct (core_fields _ _ (F4 c)) as (_ & _ & _ & _ & ->). done. }
    destruct (IH fuel s1 b t un c (fun y => G y /\ y <> c) FL1) as (s' & FL' & E & G1 & G2 & G3 & G4 & G5).
    + by apply F2.
    + done.
    + eapply dseg_ext; [|exact Hd]. intros x _. destruct (core_fields _ _ (F4 x)) as (_ & _ & _ & ? & ?). done.
    + done.
    + done.
    + tauto.
    + intros x Hx. destruct (Hrl x) as [->|HGx]; [by right|by left|]. right. split; [done|]. congruence.
    + cbn in Hfuel. lia.
    + exists s', FL'. split; [done|]. split; [|split; [by eapply frame_trans|split; [congruence|split]]].
      * eapply fl_ok_ext; [|by intros|exact G1]. intros y. rewrite not_elem_of_cons. tauto.
      * intros x. by rewrite G4, F4.
      * intros x Hx. rewrite G5, F5 by tauto. done.
Qed.

(** ** Cutting the stretch again *)

(** The body of the last loop. *)
Definition rebuild_body (i power : nat) (b loc prev : Z) (s : mempool) : mempool :=
  let s := upd_slot loc (set_size i) s in
  let s := upd_slot loc (set_status 1) s in
  let s := upd_slot loc (set_block_ptr b) s in
  let s := if negb (i =? power) then upd_slot loc (set_gprev prev) s else s in
  let s := upd_slot loc (set_gnext (loc + cut i)) s in
  let s := upd_slot loc (set_sprev 0) s in
  let fl := freelist s b i in
  let s := if (fl =? 0)%Z then upd_slot loc (set_snext 0) s
           else upd_slot fl (set_sprev loc) (upd_slot loc (set_snext fl) s) in
  upd_block b (set_freelist i loc) s.

Lemma rebuild_loop_eq i power b loc left prev current s : rebuild_loop (S i) power b loc left prev current s =
  if (cut i <=? left)%Z then rebuild_loop i power b (loc + cut i) (left - cut i) loc loc (rebuild_body i power b loc prev s)
  else rebuild_loop i power b loc left prev current s.
Proof. done. Qed.

Lemma slot_upd_same a f s : slot (upd_slot a f s) a = f (slot s a).
Proof. by rewrite slot_upd, decide_True. Qed.

Lemma slot_upd_other a f s x : x <> a -> slot (upd_slot a f s) x = slot s x.
Proof. intros Hx. by rewrite slot_upd, decide_False. Qed.

Lemma rebuild_body_view i power b loc prev s : freelist s b i <> loc -> is_Some (blocks s !! b) ->
  let s' := rebuild_body i power b loc prev s in
  slot s' loc = mk_slot b i 1 (if decide (i = power) then gprev (slot s loc) else prev) (loc + cut i) 0 (freelist s b i) /\
  (forall x, x <> loc -> slot s' x = if decide (x = freelist s b i /\ x <> 0%Z) then set_sprev loc (slot s x) else slot s x) /\
  block s' b = set_freelist i loc (block s b) /\ frame b s s'.
Proof.
  intros Hfl Hb. unfold rebuild_body. cbn zeta.
  match goal with |- context [upd_slot loc (set_sprev 0) ?s0] => set (s1 := upd_slot loc (set_sprev 0) s0) end.
  assert (V1 : slot s1 loc = mk_slot b i 1 (if decide (i = power) then gprev (slot s loc) else prev) (loc + cut i) 0 (snext (slot s loc))).
  { unfold s1. destruct (Nat.eqb_spec i power) as [->|Hne]; cbn [negb]; [rewrite decide_True by done|rewrite decide_False by done];
      by rewrite !slot_upd_same. }
  assert (V2 : forall x, x <> loc -> slot s1 x = slot s x).
  { intros x Hx. unfold s1. destruct (negb _); by rewrite !slot_upd_other. }
  assert (B1 : block s1 b = block s b) by (unfold s1; by destruct (negb _)).
  assert (F1 : frame b s s1) by (unfold s1; auto 10 with mempool).
  assert (freelist s1 b i = freelist s b i) as -> by (unfold freelist; by rewrite B1). set (fl := freelist s b i) in *.
  split; [|split; [|split]].
  - rewrite slot_upd_block. destruct (Z.eqb_spec fl 0) as [->|Hne].
    + rewrite slot_upd_same, V1. done.
    + rewrite slot_upd_other, slot_upd_same, V1 by done. done.
  - intros x Hx. rewrite slot_upd_block. destruct (Z.eqb_spec fl 0) as [E|Hne].
    + rewrite slot_upd_other, V2 by done. rewrite decide_False by (intros [-> ?]; done). done.
    + destruct (decide (x = fl)) as [->|Hxf].
      * rewrite slot_upd_same, slot_upd_other, V2, decide_True by done. done.
      * rewrite !slot_upd_other, V2, decide_False by tauto. done.
  - rewrite block_upd; [by destruct (_ =? _)%Z; rewrite ?block_upd_slot, B1|]. destruct (_ =? _)%Z; by apply F1.
  - auto 10 with mempool.
Qed.

Lemma rebuild_body_spec i power b loc prev s G FL : is_Some (blocks s !! b) -> i < cutOffNum -> loc <> 0%Z -> ~ G loc ->
  fl_ok (slot s) (freelists (block s b)) G FL ->
  let s' := rebuild_body i power b loc prev s in
  (exists FL', fl_ok (slot s') (freelists (block s' b)) (fun y => y = loc \/ G y) FL') /\
  frame b s s' /\ b_used (block s' b) = b_used (block s b) /\
  core (slot s' loc) = (b, i, 1%Z, if decide (i = power) then gprev (slot s loc) else prev, (loc + cut i)%Z) /\
  (forall x, x <> loc -> core (slot s' x) = core (slot s x)) /\
  (forall x, x <> loc -> ~ G x -> slot s' x = slot s x).
Proof.
  intros Hb Hi H0 HG Hf s'.
  assert (HGf : freelist s b i <> 0%Z -> G (freelist s b i)).
  { unfold freelist. rewrite (fo_head _ _ _ _ Hf) by done. destruct (FL i) as [|a l] eqn:El; [done|]. intros _. cbn.
    assert (a ∈ FL i) as Ha by (rewrite El; left). by apply (fo_elem _ _ _ _ Hf) in Ha as [? _]. }
  assert (Hne : freelist s b i <> loc) by (intros E; rewrite E in HGf; auto).
  destruct (rebuild_body_view i power b loc prev s Hne Hb) as (V1 & V2 & VB & VF). fold s' in V1, V2, VB, VF.
  split; [|split; [done|split; [by rewrite VB|split; [by rewrite V1|split]]]].
  - eexists. rewrite VB. cbn [freelists set_freelist]. apply (fl_push (slot s) (slot s') _ _ _ loc i Hf HG H0 Hi).
    + by rewrite V1.
    + by rewrite V1.
    + by rewrite V1.
    + intros y Hy. assert (y <> 0%Z) as Hy0 by (intros ->; by apply (fo_zero _ _ _ _ Hf)).
      rewrite V2 by (intros ->; done). change (freelists (block s b) !!! i) with (freelist s b i).
      destruct (decide (y = freelist s b i /\ y <> 0%Z)), (decide (y = freelist s b i)); try done; exfalso; tauto.
  - intros x Hx. rewrite V2 by done. by destruct (decide (x = freelist s b i /\ x <> 0%Z)).
  - intros x Hx HGx. rewrite V2, decide_False; [done| |done]. intros [-> ?]. auto.
Qed.

Lemma greedy_next k loc left : default (loc + greedy_sum k left)%Z (head (greedy k loc left).*2) = loc.
Proof. induction k as [|k IH]; cbn; [lia|]. by destruct (_ <=? _)%Z. Qed.

(** The slots below class [power]. *)
Lemma rebuild_loop_spec k : forall power b loc left prev current s G FL, k <= power -> power < cutOffNum -> (0 < loc)%Z ->
  is_Some (blocks s !! b) -> fl_ok (slot s) (freelists (block s b)) G FL ->
  let l := greedy k loc left in (forall x, x ∈ l.*2 -> ~ G x) ->
  let '(s', cur) := rebuild_loop k power b loc left prev current s in
  (exists FL', fl_ok (slot s') (freelists (block s' b)) (fun y => y ∈ l.*2 \/ G y) FL') /\
  frame b s s' /\ b_used (block s' b) = b_used (block s b) /\ cur = default current (last l.*2) /\
  dseg gprev gnext (slot s') prev l.*2 (loc + greedy_sum k left) /\
  (forall i x, (i, x) ∈ l -> block_ptr (slot s' x) = b /\ slot_size (slot s' x) = i /\ status (slot s' x) = 1%Z) /\
  (forall x, x ∉ l.*2 -> core (slot s' x) = core (slot s x)) /\
  (forall x, x ∉ l.*2 -> ~ G x -> slot s' x = slot s x).
Proof.
  induction k as [|k IH]; intros power b loc left prev current s G FL Hk Hp Hloc Hb Hf l HG.
  - cbn. split; [exists FL; eapply fl_ok_ext; [|by intros|exact Hf]; set_solver|]. split; [apply frame_refl|].
    do 3 (split; [done|]). split; [set_solver|]. done.
  - rewrite rebuild_loop_eq. unfold l in *. cbn [greedy greedy_sum] in *. destruct (Z.leb_spec (cut k) left) as [Hc|Hc].
    2:{ apply (IH power b loc left prev current s G FL); (done || lia). }
    pose proof (cut_pos k) as Hcp. assert (Hlt : k < cutOffNum) by lia.
    assert (HGl : ~ G loc) by (apply HG; rewrite fmap_cons; left).
    assert (Hl0 : loc <> 0%Z) by lia.
    destruct (rebuild_body_spec k power b loc prev s G FL Hb Hlt Hl0 HGl Hf) as ((FL1 & F1) & F2 & F3 & F4 & F5 & F6).
    set (s1 := rebuild_body k power b loc prev s) in *. rewrite decide_False in F4 by lia.
    set (l' := greedy k (loc + cut k) (left - cut k)) in *.
    assert (Hl' : forall x, x ∈ l'.*2 -> (loc < x)%Z) by (intros x Hin; apply greedy_head in Hin; lia).
    specialize (IH power b (loc + cut k)%Z (left - cut k)%Z loc loc s1 (fun y => y = loc \/ G y) FL1).
    fold l' in IH. cbn zeta in IH. destruct (rebuild_loop k power b (loc + cut k) (left - cut k) loc loc s1) as [s' cur].
    destruct IH as ((FL' & G1) & G2 & G3 & G4 & G5 & G6 & G7 & G8); [lia|done|lia|by apply F2|done| |].
    { intros x Hx [->|HGx]; [apply Hl' in Hx; lia|]. apply (HG x); [rewrite fmap_cons; by right|done]. }
    assert (Hlocl : loc ∉ l'.*2) by (intros Hin; apply Hl' in Hin; lia).
    assert (Cl : core (slot s' loc) = (b, k, 1%Z, prev, (loc + cut k)%Z)) by (by rewrite G7).
    rewrite fmap_cons. cbn [snd].
    split; [|split; [by eapply frame_trans|split; [congruence|split; [|split; [|split; [|split]]]]]].
    + exists FL'. eapply fl_ok_ext; [|by intros|exact G1]. intros y. rewrite elem_of_cons. tauto.
    + rewrite G4, last_cons. by destruct (last l'.*2).
    + cbn [dseg]. injection Cl as E1 E2 E3 E4 E5. split; [done|]. split.
      * rewrite E5. unfold l'. rewrite <- (greedy_next k (loc + cut k) (left - cut k)) at 1.
        by rewrite Z.add_assoc.
      * replace (loc + (cut k + greedy_sum k (left - cut k)))%Z with (loc + cut k + greedy_sum k (left - cut k))%Z by lia. done.
    + intros i x [[= -> ->]|Hin]%elem_of_cons; [by injection Cl as -> -> -> _ _|auto].
    + intros x [Hx1 Hx2]%not_elem_of_cons. by rewrite G7, F5.
    + intros x [Hx1 Hx2]%not_elem_of_cons HGx. rewrite G8, F6 by tauto. done.
Qed.

(** All of them; the first slot keeps its predecessor. *)
Lemma rebuild_all power b loc left cur0 s G FL : power < cutOffNum -> (0 < loc)%Z -> (cut power <= left)%Z ->
  is_Some (blocks s !! b) -> fl_ok (slot s) (freelists (block s b)) G FL ->
  let l := greedy (S power) loc left in (forall x, x ∈ l.*2 -> ~ G x) ->
  let '(s', cur) := rebuild_loop (S power) power b loc left 0 cur0 s in
  (exists FL', fl_ok (slot s') (freelists (block s' b)) (fun y => y ∈ l.*2 \/ G y) FL') /\
  frame b s s' /\ b_used (block s' b) = b_used (block s b) /\ last l.*2 = Some cur /\ head l.*2 = Some loc /\
  dseg gprev gnext (slot s') (gprev (slot s loc)) l.*2 (loc + greedy_sum (S power) left) /\
  (forall i x, (i, x) ∈ l -> block_ptr (slot s' x) = b /\ slot_size (slot s' x) = i /\ status (slot s' x) = 1%Z) /\
  (forall x, x ∉ l.*2 -> core (slot s' x) = core (slot s x)) /\
  (forall x, x ∉ l.*2 -> ~ G x -> slot s' x = slot s x).
Proof.
  intros Hp Hloc Hc Hb Hf l HG. unfold l in *. rewrite greedy_first in * by done. rewrite rebuild_loop_eq.
  cbn [greedy_sum]. rewrite (proj2 (Z.leb_le _ _)) by done.
  assert (HGl : ~ G loc) by (apply HG; rewrite fmap_cons; left).
  pose proof (cut_pos power Hp) as Hcp. assert (Hl0 : loc <> 0%Z) by lia.
  destruct (rebuild_body_spec power power b loc 0 s G FL Hb Hp Hl0 HGl Hf) as ((FL1 & F1) & F2 & F3 & F4 & F5 & F6).
  set (s1 := rebuild_body power power b loc 0 s) in *. rewrite decide_True in F4 by done.
  set (l' := greedy power (loc + cut power) (left - cut power)) in *.
  assert (Hl' : forall x, x ∈ l'.*2 -> (loc < x)%Z) by (intros x Hin; apply greedy_head in Hin; lia).
  pose proof (rebuild_loop_spec power power b (loc + cut power) (left - cut power) loc loc s1 (fun y => y = loc \/ G y) FL1) as IH.
  fold l' in IH. cbn zeta in IH. destruct (rebuild_loop power power b (loc + cut power) (left - cut power) loc loc s1) as [s' cur].
  destruct IH as ((FL' & G1) & G2 & G3 & G4 & G5 & G6 & G7 & G8); [lia|done|lia|by apply F2|done| |].
  { intros x Hx [->|HGx]; [apply Hl' in Hx; lia|]. apply (HG x); [rewrite fmap_cons; by right|done]. }
  assert (Hlocl : loc ∉ l'.*2) by (intros Hin; apply Hl' in Hin; lia).
  assert (Cl : core (slot s' loc) = (b, power, 1%Z, gprev (slot s loc), (loc + cut power)%Z)) by (by rewrite G7).
  rewrite fmap_cons. cbn [snd head].
  split; [|split; [by eapply frame_trans|split; [congruence|split; [|split; [done|split; [|split; [|split]]]]]]].
  - exists FL'. eapply fl_ok_ext; [|by intros|exact G1]. intros y. rewrite elem_of_cons. tauto.
  - rewrite G4, last_cons. by destruct (last l'.*2).
  - cbn [dseg]. injection Cl as E1 E2 E3 E4 E5. split; [done|]. split.
    + rewrite E5. unfold l'. rewrite <- (greedy_next power (loc + cut power) (left - cut power)) at 1. by rewrite Z.add_assoc.
    + by rewrite Z.add_assoc.
  - intros i x [[= -> ->]|Hin]%elem_of_cons; [by injection Cl as -> -> -> _ _|auto].
  - intros x [Hx1 Hx2]%not_elem_of_cons. by rewrite G7, F5.
  - intros x [Hx1 Hx2]%not_elem_of_cons HGx. rewrite G8, F6 by tauto. done.
Qed.

(** ** The stretch around the slot *)

Lemma split_suffix (Q : Z -> Prop) `{!forall x, Decision (Q x)} l : exists g r, l = g ++ r /\
  (forall x, x ∈ r -> Q x) /\ match last g with Some u => ~ Q u | None => True end.
Proof.
  induction l as [|a l (g & r & -> & Hr & Hg)]; [exists [], []; set_solver|]. destruct g as [|u g].
  - destruct (decide (Q a)) as [Ha|Ha]; [exists [], (a :: r); set_solver|exists [a], r; set_solver].
  - exists (a :: u :: g), r. split; [done|]. split; [done|]. by rewrite last_cons_cons.
Qed.

Lemma split_prefix (Q : Z -> Prop) `{!forall x, Decision (Q x)} l : exists r g, l = r ++ g /\
  (forall x, x ∈ r -> Q x) /\ match head g with Some u => ~ Q u | None => True end.
Proof.
  induction l as [|a l (r & g & -> & Hr & Hg)]; [exists [], []; set_solver|].
  destruct (decide (Q a)) as [Ha|Ha]; [exists (a :: r), g; set_solver|exists [], (a :: r ++ g); set_solver].
Qed.

Lemma greedy_small k j loc left : k <= j -> j <= cutOffNum -> (left < 64 * 2 ^ Z.of_nat k)%Z -> greedy j loc left = greedy k loc left.
Proof.
  intros Hkj. induction Hkj as [|j Hkj IH]; intros Hj Hl; [done|]. cbn. rewrite (proj2 (Z.leb_gt _ _)); [apply IH; [lia|done]|].
  rewrite cut_pow by lia. pose proof (Z.pow_le_mono_r 2 (Z.of_nat k) (Z.of_nat j)). lia.
Qed.

Lemma greedy_sum_nonneg k left : k <= cutOffNum -> (0 <= greedy_sum k left)%Z.
Proof.
  revert left. induction k as [|k IH]; intros left Hk; cbn; [lia|]. destruct (_ <=? _)%Z; [|apply IH; lia].
  pose proof (cut_pos k). specialize (IH (left - cut k)%Z). lia.
Qed.

Lemma greedy_range k loc left i x : k <= cutOffNum -> (i, x) ∈ greedy k loc left ->
  (loc <= x /\ x + cut i <= loc + greedy_sum k left)%Z.
Proof.
  revert loc left. induction k as [|k IH]; intros loc left Hk; cbn; [set_solver|].
  destruct (Z.leb_spec (cut k) left) as [Hc|Hc]; [|intros Hin; apply IH in Hin; lia].
  rewrite elem_of_cons. intros [[= -> ->]|Hin]; [pose proof (greedy_sum_nonneg k (left - cut k)); lia|].
  apply IH in Hin; [|lia]. pose proof (cut_pos k). lia.
Qed.

Lemma greedy_sum_small k j left : k <= j -> j <= cutOffNum -> (left < 64 * 2 ^ Z.of_nat k)%Z -> greedy_sum j left = greedy_sum k left.
Proof.
  intros Hkj. induction Hkj as [|j Hkj IH]; intros Hj Hl; [done|]. cbn. rewrite (proj2 (Z.leb_gt _ _)); [apply IH; [lia|done]|].
  rewrite cut_pow by lia. pose proof (Z.pow_le_mono_r 2 (Z.of_nat k) (Z.of_nat j)). lia.
Qed.

Section release.
Context (s : mempool) (b start stop t : Z) (g0 r1 r2 g3 : list Z) (FL : nat -> list Z).
Abbreviation run := (r1 ++ t :: r2).
Abbreviation gl := (g0 ++ run ++ g3).
Context (Hb : binv s b start stop gl FL) (Ht : status (slot s t) = 0%Z).

(** After the first statements. *)
Definition s_freed : mempool :=
  upd_block b (set_used (u64 (b_used (block s b) - Z.of_nat (slot_size (slot s t))))) (upd_slot t (set_status 1) s).

Context (Hr : forall x, x ∈ run -> is_free s_freed x) (Hg0 : stops s_freed (last g0)) (Hg3 : stops s_freed (head g3)).

Lemma freed_slot x : slot s_freed x = if decide (x = t) then set_status 1 (slot s t) else slot s x.
Proof. unfold s_freed. rewrite slot_upd_block. apply slot_upd. Qed.

Lemma freed_fields x : block_ptr (slot s_freed x) = block_ptr (slot s x) /\ slot_size (slot s_freed x) = slot_size (slot s x) /\
  gprev (slot s_freed x) = gprev (slot s x) /\ gnext (slot s_freed x) = gnext (slot s x) /\
  sprev (slot s_freed x) = sprev (slot s x) /\ snext (slot s_freed x) = snext (slot s x) /\
  (x <> t -> slot s_freed x = slot s x).
Proof. rewrite freed_slot. destruct (decide (x = t)) as [->|Hx]; cbn; done. Qed.

Lemma freed_frame : frame b s s_freed.
Proof. unfold s_freed. pose proof (bi_some _ _ _ _ _ _ Hb). auto with mempool. Qed.

Lemma freed_dseg : dseg gprev gnext (slot s_freed) 0 gl 0.
Proof. eapply dseg_ext; [|apply (bi_glist _ _ _ _ _ _ Hb)]. intros x _. destruct (freed_fields x) as (_ & _ & ? & ? & _). done. Qed.

Lemma freed_tiles : tiles (slot s_freed) start gl stop.
Proof. eapply tiles_ext; [|apply (bi_tiles _ _ _ _ _ _ Hb)]. intros x _. by destruct (freed_fields x) as (_ & ? & _). Qed.

Definition in_lists (x : Z) : Prop := x ∈ gl /\ is_free s x.

Lemma freed_lists : fl_ok (slot s_freed) (freelists (block s_freed b)) in_lists FL.
Proof.
  unfold s_freed. rewrite block_upd by apply Hb. cbn [freelists set_used]. rewrite block_upd_slot. fold s_freed.
  eapply fl_ok_ext; [done| |apply (bi_free _ _ _ _ _ _ Hb)]. intros x _. destruct (freed_fields x) as (_ & ? & _ & _ & ? & ? & _). done.
Qed.

Lemma run_free x : x ∈ run -> x <> t -> is_free s x.
Proof. intros Hx Hxt. specialize (Hr x Hx). unfold is_free in *. destruct (freed_fields x) as (_ & _ & _ & _ & _ & _ & E). by rewrite E in Hr. Qed.

Definition first : Z := default t (head r1).
Definition used_next : Z := default 0%Z (head g3).

Lemma used_next_cases : used_next = 0%Z \/ used_next ∈ g3.
Proof. clear. unfold used_next. destruct g3 as [|u g]; cbn; [by left|right; left]. Qed.

Definition free_fuel : nat := S (Z.to_nat (b_size (block s_freed b) / 64)).

Lemma gl_nonzero x : x ∈ gl -> x <> 0%Z.
Proof. intros Hx. by destruct (binv_in _ _ _ _ _ _ _ Hb Hx) as (_ & _ & _ & ?). Qed.

Lemma fuel_enough : length gl < free_fuel.
Proof.
  unfold free_fuel. rewrite (fr_size _ _ _ freed_frame). pose proof (tiles_len _ _ _ _ freed_tiles) as Hl.
  pose proof (bi_room _ _ _ _ _ _ Hb). pose proof (Z.div_le_lower_bound (b_size (block s b)) 64 (Z.of_nat (length gl))). lia.
Qed.

Lemma gl_nodup : NoDup gl.
Proof. eapply tiles_nodup, freed_tiles. Qed.

Lemma run_not_outer x : x ∈ run -> (x ∉ g0) /\ (x ∉ g3).
Proof.
  intros Hx. pose proof gl_nodup as (_ & H1 & (_ & H2 & _)%NoDup_app)%NoDup_app. split; [|by apply H2].
  intros H0. apply (H1 x H0). set_solver.
Qed.

Lemma outer_disjoint x : x ∈ g0 -> x ∉ g3.
Proof. pose proof gl_nodup as (_ & H1 & _)%NoDup_app. intros H0 H3. apply (H1 x H0). set_solver. Qed.

Lemma run_head : head run = Some first.
Proof. unfold first. by destruct r1. Qed.

Lemma back_result : back_loop free_fuel s_freed t 0 t = Normal (bytes (slot s_freed) (r1 ++ [t]), first).
Proof.
  pose proof freed_dseg as Hd. replace gl with ((g0 ++ r1 ++ [t]) ++ r2 ++ g3) in Hd by (by rewrite <- !app_assoc).
  apply dseg_cat in Hd as [Hd _]. pose proof fuel_enough as Hf. rewrite (back_loop_spec r1 free_fuel s_freed t 0 t g0 _ Hd).
  - done.
  - intros x Hx. apply Hr. set_solver.
  - exact Hg0.
  - intros x Hx. apply gl_nonzero. set_solver.
  - rewrite !length_app in *. cbn in *. rewrite ?length_app in *. lia.
Qed.

Lemma forth_result n : forth_loop free_fuel s_freed t n = Normal (n + bytes (slot s_freed) (t :: r2), used_next)%Z.
Proof.
  pose proof freed_dseg as Hd. replace gl with ((g0 ++ r1) ++ t :: r2 ++ g3) in Hd by (by rewrite <- !app_assoc).
  apply dseg_cat in Hd as [_ Hd]. pose proof fuel_enough as Hf. rewrite (forth_loop_spec r2 free_fuel s_freed t n g3 _ Hd).
  - done.
  - intros x Hx. apply Hr. set_solver.
  - exact Hg3.
  - intros x Hx. apply gl_nonzero. set_solver.
  - rewrite !length_app in *. cbn in *. rewrite ?length_app in *. lia.
Qed.

Lemma unlinked : exists s3 FL3, unlink_loop free_fuel b t used_next first s_freed = Normal s3 /\
  fl_ok (slot s3) (freelists (block s3 b)) (fun y => in_lists y /\ y ∉ run) FL3 /\
  frame b s_freed s3 /\ b_used (block s3 b) = b_used (block s_freed b) /\
  (forall x, core (slot s3 x) = core (slot s_freed x)) /\ (forall x, ~ in_lists x -> slot s3 x = slot s_freed x).
Proof.
  assert (Hun : used_next ∉ run).
  { intros Hin. destruct used_next_cases as [E|H3]; [apply (gl_nonzero used_next); [set_solver|done]|].
    by apply run_not_outer in Hin as [_ ?]. }
  pose proof freed_dseg as [_ [Hd _]%dseg_cat]%dseg_cat.
  pose proof gl_nodup as (_ & _ & (Hn & _ & _)%NoDup_app)%NoDup_app.
  assert (first = default used_next (head run)) as -> by (by rewrite run_head).
  apply (unlink_loop_spec run free_fuel s_freed b t used_next (default 0%Z (last g0)) in_lists FL); try done.
  - apply freed_frame, Hb.
  - apply freed_lists.
  - intros [_ Hf]. unfold is_free in Hf. congruence.
  - intros x Hx. destruct (decide (x = t)) as [|Hxt]; [by left|]. right. split; [set_solver|]. by apply run_free.
  - pose proof fuel_enough. rewrite !length_app in *. lia.
Qed.

(** The stretch lies between two addresses. *)
Lemma stretch : exists mid, tiles (slot s_freed) start g0 first /\ tiles (slot s_freed) first run mid /\ tiles (slot s_freed) mid g3 stop /\
  (mid = first + bytes (slot s_freed) run)%Z /\ (start <= first)%Z /\ (first + 64 <= mid <= stop)%Z /\ (0 < first)%Z.
Proof.
  pose proof freed_tiles as (m1 & T1 & (m2 & T2 & T3)%tiles_app)%tiles_app.
  assert (m1 = first) as ->.
  { pose proof run_head as Eh. revert Eh T2. generalize run. intros [|c l]; [done|]. cbn. intros [= ->] (-> & _). done. }
  exists m2. do 3 (split; [done|]). apply tiles_bytes in T2 as E. split; [done|].
  pose proof (tiles_len _ _ _ _ T1). pose proof (tiles_len _ _ _ _ T2) as H2. pose proof (tiles_len _ _ _ _ T3).
  pose proof (bi_start _ _ _ _ _ _ Hb). rewrite length_app in H2. cbn in H2. lia.
Qed.

Lemma free_eq : t ∈ gl -> mempool_free (t + 40) s =
  ('(size, first) ← back_loop free_fuel s_freed t 0 t;
   '(size, used_next) ← forth_loop free_fuel s_freed t (size - cut (slot_size (slot s_freed t)));
   s ← unlink_loop free_fuel b t used_next first s_freed;
   match floor_pow2 size with
   | None => Aborted
   | Some power =>
       let '(s, current) := rebuild_loop (S power) power b first size 0 t s in
       Normal (if negb (used_next =? 0)%Z then upd_slot used_next (set_gprev current) s
               else upd_slot current (set_gnext 0) s)
   end).
Proof.
  intros Hin. unfold mempool_free, free_fuel, s_freed, sizeof_used_header. replace (t + 40 - 40)%Z with t by lia.
  rewrite !slot_upd_same. cbn [block_ptr slot_size set_status]. rewrite (bi_block _ _ _ _ _ _ Hb) by done.
  rewrite block_upd_slot. done.
Qed.

Definition bytes_run : Z := bytes (slot s_freed) run.

(** The release up to the cut. *)
Lemma free_cut : t ∈ gl -> exists s3 FL3 power,
  mempool_free (t + 40) s =
    (let '(s4, current) := rebuild_loop (S power) power b first bytes_run 0 t s3 in
     Normal (if negb (used_next =? 0)%Z then upd_slot used_next (set_gprev current) s4
             else upd_slot current (set_gnext 0) s4)) /\
  fl_ok (slot s3) (freelists (block s3 b)) (fun y => in_lists y /\ y ∉ run) FL3 /\
  frame b s_freed s3 /\ b_used (block s3 b) = b_used (block s_freed b) /\
  (forall x, core (slot s3 x) = core (slot s_freed x)) /\ (forall x, ~ in_lists x -> slot s3 x = slot s_freed x) /\
  power < cutOffNum /\ (cut power <= bytes_run)%Z /\ greedy_sum (S power) bytes_run = bytes_run /\
  greedy (S power) first bytes_run = greedy cutOffNum first bytes_run /\ greedy_sum cutOffNum bytes_run = greedy_sum (S power) bytes_run.
Proof.
  intros Hin. destruct unlinked as (s3 & FL3 & E3 & H3). destruct stretch as (mid & T1 & T2 & T3 & Emid & Hfst & Hmid & _).
  fold bytes_run in Emid. pose proof (bi_len _ _ _ _ _ _ Hb) as Hlen.
  destruct (floor_pow2_spec bytes_run) as (power & Ep & Hp & Hc & Hup); [lia|].
  exists s3, FL3, power. split.
  { rewrite free_eq by done. rewrite back_result. cbn [mbind outcome_bind]. rewrite forth_result. cbn [mbind outcome_bind].
    rewrite E3. cbn [mbind outcome_bind].
    assert ((bytes (slot s_freed) (r1 ++ [t]) - cut (slot_size (slot s_freed t)) + bytes (slot s_freed) (t :: r2))%Z = bytes_run) as ->.
    { unfold bytes_run. rewrite !bytes_app, !bytes_cons. change (bytes (slot s_freed) []) with 0%Z. lia. }
    by rewrite Ep. }
  destruct H3 as (F1 & F2 & F3 & F4 & F5). do 7 (split; [done|]).
  assert (Hpow : (bytes_run < 64 * 2 ^ Z.of_nat (S power))%Z).
  { destruct (decide (S power < cutOffNum)) as [HS|HS]; [rewrite <- cut_pow by done; by apply Hup|].
    replace (S power) with 25 by (unfold cutOffNum in *; lia). change (64 * 2 ^ Z.of_nat 25)%Z with 2147483648%Z.
    change (cut 24) with 1073741824%Z in Hlen. lia. }
  split.
  - assert (Hmod : (bytes_run mod 64 = 0)%Z).
    { unfold bytes_run. clear -T2. revert T2. generalize first. induction (run) as [|a l IH]; intros f; [done|]. cbn [tiles].
      intros (_ & Hs & HT). rewrite bytes_cons, cut_pow by done. rewrite Z.add_comm, Z.mul_comm, Z.mod_add by lia. by eapply IH. }
    pose proof (greedy_rest (S power) bytes_run ltac:(lia) ltac:(lia)) as Hrest.
    pose proof (greedy_rest_div (S power) bytes_run ltac:(lia)) as Hd. rewrite Hmod, Z.mod_small in Hd by lia. lia.
  - split; [symmetry; apply greedy_small; [lia|lia|done]|apply greedy_sum_small; [lia|lia|done]].
Qed.

(** [power] is the class of the first new slot. *)
Definition new_slots (power : nat) : list Z := (greedy (S power) first bytes_run).*2.
Abbreviation gl_new power := (g0 ++ new_slots power ++ g3).

(** The state after the release. *)
Record released (power : nat) (s' : mempool) (FL' : nat -> list Z) : Prop := {
  re_power : power < cutOffNum;
  re_sum : greedy_sum (S power) bytes_run = bytes_run;
  re_frame : frame b s s';
  re_used : b_used (block s' b) = b_used (block s_freed b);
  re_lists : fl_ok (slot s') (freelists (block s' b)) (fun y => y ∈ new_slots power \/ (in_lists y /\ y ∉ run)) FL';
  re_new i x : (i, x) ∈ greedy (S power) first bytes_run ->
    block_ptr (slot s' x) = b /\ slot_size (slot s' x) = i /\ status (slot s' x) = 1%Z;
  re_old x : x ∈ g0 ++ g3 -> block_ptr (slot s' x) = block_ptr (slot s x) /\ slot_size (slot s' x) = slot_size (slot s x) /\
    status (slot s' x) = status (slot s x) /\ gnext (slot s' x) = gnext (slot s x) /\
    gprev (slot s' x) = if decide (x = used_next) then default 0%Z (last (new_slots power)) else gprev (slot s x);
  re_dseg : dseg gprev gnext (slot s') (default 0%Z (last g0)) (new_slots power) used_next;
  re_head : head (new_slots power) = Some first;
  re_other x : x ∉ gl -> x ∉ new_slots power -> slot s' x = slot s x
}.

(** New slots lie in the stretch. *)
Lemma new_not_old power x : power < cutOffNum -> greedy_sum (S power) bytes_run = bytes_run -> x ∈ new_slots power ->
  (x ∉ g0) /\ (x ∉ g3) /\ (start <= x < stop)%Z.
Proof.
  intros Hp E ((i, y) & -> & Hin)%list_elem_of_fmap. cbn [snd]. destruct stretch as (mid & T1 & T2 & T3 & Emid & Hst & Hmid & _).
  fold bytes_run in Emid. assert (i < cutOffNum) as Hi by (apply greedy_in in Hin; lia).
  apply greedy_range in Hin; [|lia]. pose proof (cut_pos i Hi). rewrite E in Hin. split; [|split; [|lia]]; intros Hx.
  - apply (tiles_in _ _ _ _ _ T1) in Hx as (H4 & H5 & H6). pose proof (cut_pos _ H6). lia.
  - apply (tiles_in _ _ _ _ _ T3) in Hx as (H4 & _). lia.
Qed.

(** The new slots are not in a free list before they are put there. *)
Lemma new_not_listed power x : power < cutOffNum -> greedy_sum (S power) bytes_run = bytes_run -> x ∈ new_slots power ->
  ~ (in_lists x /\ x ∉ run).
Proof. intros Hp E Hx [[Hin _] Hrun]. destruct (new_not_old power x Hp E Hx) as (H1 & H2 & _). set_solver. Qed.

Lemma free_released : t ∈ gl -> exists power s' FL', mempool_free (t + 40) s = Normal s' /\ released power s' FL' /\
  greedy (S power) first bytes_run = greedy cutOffNum first bytes_run.
Proof.
  intros Hin. destruct (free_cut Hin) as (s3 & FL3 & power & E & F1 & F2 & F3 & F4 & F5 & Hp & Hc & Hsum & Hgr & _).
  destruct stretch as (mid & T1 & T2 & T3 & Emid & Hst & Hmid & Hf0). fold bytes_run in Emid.
  assert (Hb3 : is_Some (blocks s3 !! b)) by (apply F2, freed_frame, Hb).
  pose proof (rebuild_all power b first bytes_run t s3 _ FL3 Hp Hf0 Hc Hb3 F1) as HV. cbn zeta in HV. fold (new_slots power) in HV.
  specialize (HV (fun x Hx => new_not_listed power x Hp Hsum Hx)).
  destruct (rebuild_loop (S power) power b first bytes_run 0 t s3) as [s4 cur].
  destruct HV as ((FL4 & G1) & G2 & G3 & G4 & G5 & G6 & G7 & G8 & G9). rewrite Hsum, <- Emid in G6.
  set (s' := if negb (used_next =? 0)%Z then upd_slot used_next (set_gprev cur) s4 else upd_slot cur (set_gnext 0) s4).
  exists power, s', FL4. split; [exact E|]. split; [|exact Hgr]. clear Hgr E.
  assert (Hcur : cur ∈ new_slots power) by (by apply last_Some_elem_of).
  assert (Hnew : forall x, x ∈ g0 ++ g3 -> x ∉ new_slots power).
  { intros x Hx Hn. destruct (new_not_old power x Hp Hsum Hn) as (H1 & H2 & _). by apply elem_of_app in Hx as [?|?]. }
  assert (Hun : used_next <> 0%Z -> used_next ∈ g3) by (intros H0; by destruct used_next_cases).
  assert (Vs : forall x, slot s' x = if decide (x = used_next /\ used_next <> 0%Z) then set_gprev cur (slot s4 x)
    else if decide (x = cur /\ used_next = 0%Z) then set_gnext 0 (slot s4 x) else slot s4 x).
  { intros x. unfold s'. destruct (Z.eqb_spec used_next 0) as [E0|E0]; cbn [negb]; rewrite slot_upd.
    - rewrite (decide_False (P := x = used_next /\ _)) by tauto.
      destruct (decide (x = cur)) as [->|]; [by rewrite decide_True|by rewrite decide_False by tauto].
    - destruct (decide (x = used_next)) as [->|]; [by rewrite decide_True|].
      by rewrite (decide_False (P := x = used_next /\ _)), decide_False by tauto. }
  assert (Hlinks : forall x, slot_size (slot s' x) = slot_size (slot s4 x) /\ status (slot s' x) = status (slot s4 x) /\
    block_ptr (slot s' x) = block_ptr (slot s4 x) /\ sprev (slot s' x) = sprev (slot s4 x) /\ snext (slot s' x) = snext (slot s4 x)).
  { intros x. rewrite Vs. destruct (decide (x = used_next /\ used_next <> 0%Z)); [done|]. by destruct (decide (x = cur /\ used_next = 0%Z)). }
  assert (Hc3 : forall x, core (slot s3 x) = core (slot s_freed x)) by done.
  split.
  - done.
  - done.
  - assert (frame b s s4) by (eapply frame_trans; [apply freed_frame|]; by eapply frame_trans). unfold s'. auto with mempool.
  - transitivity (b_used (block s4 b)); [unfold s'; by destruct (negb _)|]. by rewrite G3.
  - assert (block s' b = block s4 b) as -> by (unfold s'; by destruct (negb _)).
    eapply fl_ok_ext; [| |exact G1]; [done|]. intros x _. destruct (Hlinks x) as (? & _ & _ & ? & ?). done.
  - intros i x Hx. destruct (Hlinks x) as (-> & -> & -> & _). by apply G7.
  - intros x Hx. destruct (Hlinks x) as (-> & -> & -> & _). assert (x <> t) as Hxt.
    { intros ->. destruct (run_not_outer t) as [? ?]; [apply elem_of_app; right; left|]. by apply elem_of_app in Hx as [?|?]. }
    destruct (freed_fields x) as (_ & _ & _ & _ & _ & _ & Ex). specialize (Ex Hxt).
    pose proof (G8 x (Hnew x Hx)) as C4. rewrite Hc3, Ex in C4. destruct (core_fields _ _ C4) as (-> & -> & -> & C5 & C6).
    do 3 (split; [done|]). rewrite G4. cbn [default].
    assert (x <> 0%Z) as Hx0 by (apply gl_nonzero; rewrite !elem_of_app; apply elem_of_app in Hx as [?|?]; auto).
    assert (x <> cur) as Hxc by (intros ->; by apply (Hnew cur)).
    rewrite Vs, (decide_False (P := x = cur /\ _)) by tauto.
    destruct (decide (x = used_next /\ used_next <> 0%Z)) as [[-> _]|Hn]; [by rewrite decide_True|].
    rewrite (decide_False (P := x = used_next)); [done|]. intros ->. tauto.
  - pose proof freed_dseg as [_ [Hd _]%dseg_cat]%dseg_cat.
    assert (gprev (slot s3 first) = default 0%Z (last g0)) as Egp.
    { destruct (core_fields _ _ (Hc3 first)) as (_ & _ & _ & -> & _). revert Hd. pose proof run_head as Eh. revert Eh.
      generalize run. intros [|c l]; [done|]. cbn. intros [= ->]. tauto. }
    rewrite Egp in G6. destruct (decide (used_next = 0%Z)) as [E0|E0].
    + rewrite E0. apply last_Some in G4 as [k Ek]. rewrite Ek in *.
      assert (Hnd : NoDup (k ++ [cur])).
      { rewrite <- Ek. eapply (tiles_nodup (slot s4)), (greedy_tiles _ (S power)); [lia|]. intros i x Hx. by apply G7 in Hx as (_ & ? & _). }
      apply NoDup_app in Hnd as (_ & Hdis & _). assert (cur ∉ k) as Hk by (intros Hi; apply (Hdis _ Hi); left).
      eapply dseg_end; [exact Hk|exact G6| | |].
      * rewrite Vs, decide_False, decide_True by tauto. done.
      * rewrite Vs, decide_False, decide_True by tauto. done.
      * intros x Hx. rewrite Vs, !decide_False; [done| |tauto]. intros [-> _]. done.
    + assert (mid = used_next) as ->.
      { revert E0 T3. clear. unfold used_next. destruct g3 as [|u g]; cbn; [done|]. intros _ (-> & _). done. }
      eapply dseg_ext; [|exact G6]. intros x Hx. rewrite Vs, !decide_False; [done|tauto|].
      intros [-> H0]. apply (Hnew used_next); [apply elem_of_app; auto|done].
  - done.
  - intros x Hx Hn. rewrite Vs, decide_False, decide_False.
    + rewrite G9, F5; [|intros [? _]; done|done|intros [[? _] _]; done].
      destruct (freed_fields x) as (_ & _ & _ & _ & _ & _ & Ex). apply Ex. intros ->. by apply Hx.
    + intros [-> _]. done.
    + intros [-> H0]. apply Hx. rewrite !elem_of_app. auto.
Qed.

Section after.
Context (power : nat) (s' : mempool) (FL' : nat -> list Z) (Hre : released power s' FL').

Lemma after_new x : x ∈ new_slots power -> block_ptr (slot s' x) = b /\ status (slot s' x) = 1%Z /\ (start <= x < stop)%Z /\
  (x ∉ g0) /\ (x ∉ g3).
Proof.
  intros Hx. destruct (new_not_old power x (re_power _ _ _ Hre) (re_sum _ _ _ Hre) Hx) as (H1 & H2 & H3).
  apply list_elem_of_fmap in Hx as ((i, y) & -> & Hin). destruct (re_new _ _ _ Hre i y Hin) as (? & _ & ?). done.
Qed.

Lemma elem_of_new x : x ∈ gl_new power <-> x ∈ new_slots power \/ x ∈ g0 ++ g3.
Proof. rewrite !elem_of_app. tauto. Qed.

Lemma elem_of_old x : x ∈ gl <-> x ∈ run \/ x ∈ g0 ++ g3.
Proof. rewrite (elem_of_app g0), (elem_of_app run), (elem_of_app g0 g3). tauto. Qed.

Lemma outer_not_run x : x ∈ g0 ++ g3 -> x ∉ run.
Proof. intros Hx Hr'. apply run_not_outer in Hr' as [? ?]. by apply elem_of_app in Hx as [?|?]. Qed.

Lemma after_tiles : tiles (slot s') start (gl_new power) stop.
Proof.
  destruct stretch as (mid & T1 & T2 & T3 & Emid & _). fold bytes_run in Emid.
  assert (Hold : forall g a z, (forall x, x ∈ g -> x ∈ g0 ++ g3) -> tiles (slot s_freed) a g z -> tiles (slot s') a g z).
  { intros g a z Hg HT. eapply tiles_ext; [|exact HT]. intros x Hx. destruct (re_old _ _ _ Hre x (Hg x Hx)) as (_ & -> & _).
    by destruct (freed_fields x) as (_ & -> & _). }
  apply tiles_app. exists first. split; [apply Hold; [|done]; intros; apply elem_of_app; auto|].
  apply tiles_app. exists mid. split; [|apply Hold; [|done]; intros; apply elem_of_app; auto].
  assert (mid = first + greedy_sum (S power) bytes_run)%Z as -> by (by rewrite (re_sum _ _ _ Hre)).
  apply greedy_tiles; [apply (re_power _ _ _ Hre)|]. intros i x Hin. by apply (re_new _ _ _ Hre) in Hin as (_ & ? & _).
Qed.

Lemma after_dseg : dseg gprev gnext (slot s') 0 (gl_new power) 0.
Proof.
  pose proof (bi_glist _ _ _ _ _ _ Hb) as (D1 & (D2 & D3)%dseg_cat)%dseg_cat.
  assert (Hun0 : forall x, x ∈ g0 -> x <> used_next).
  { intros x Hx ->. destruct used_next_cases as [E|H3]; [apply (gl_nonzero used_next); [apply elem_of_app; auto|done]|].
    by apply (outer_disjoint used_next). }
  apply dseg_cat. split; [|apply dseg_cat; split].
  - rewrite head_app, (re_head _ _ _ Hre). cbn. rewrite head_app, run_head in D1. cbn in D1.
    eapply dseg_ext; [|exact D1]. intros x Hx. destruct (re_old _ _ _ Hre x) as (_ & _ & _ & -> & ->); [apply elem_of_app; auto|].
    rewrite decide_False; [done|]. auto.
  - apply (re_dseg _ _ _ Hre).
  - assert (Hnd : NoDup g3) by (pose proof gl_nodup as (_ & _ & (_ & _ & ?)%NoDup_app)%NoDup_app; done).
    apply (dseg_restart _ _ (slot s) (slot s') _ _ g3 0 Hnd D3). intros x Hx.
    destruct (re_old _ _ _ Hre x) as (_ & _ & _ & -> & ->); [apply elem_of_app; auto|]. split; [done|].
    assert (last (new_slots power) <> None) as Hl by (intros E%last_None; pose proof (re_head _ _ _ Hre) as Eh; by rewrite E in Eh).
    assert (x <> 0%Z) as Hx0 by (apply gl_nonzero, elem_of_old; right; apply elem_of_app; auto).
    unfold used_next. destruct (last (new_slots power)) as [c|]; [|done]. clear -Hx0.
    destruct (head g3) as [u|]; cbn; destruct (decide (x = _)), (decide (Some x = _)); congruence.
Qed.

Lemma after_lists : fl_ok (slot s') (freelists (block s' b)) (fun x => x ∈ gl_new power /\ is_free s' x) FL'.
Proof.
  eapply fl_ok_ext; [| |apply (re_lists _ _ _ Hre)]; [|done]. intros x. rewrite elem_of_new. unfold in_lists, is_free. split.
  - intros [Hx|[[Hx Hf] Hn]]; [by destruct (after_new x Hx) as (_ & -> & _); auto|].
    apply elem_of_old in Hx as [?|Hx]; [done|]. destruct (re_old _ _ _ Hre x Hx) as (_ & _ & -> & _). auto.
  - intros [[Hx|Hx] Hf]; [by left|]. destruct (re_old _ _ _ Hre x Hx) as (_ & _ & E & _). rewrite E in Hf.
    right. split; [split; [apply elem_of_old; auto|done]|]. by apply outer_not_run.
Qed.

Lemma used_sum_nonneg (M : Z -> slot_header) l : (0 <= used_sum M l)%Z.
Proof. induction l as [|x l IH]; [done|]. rewrite used_sum_cons. case_decide; lia. Qed.

Lemma used_run : used_sum (slot s) run = Z.of_nat (slot_size (slot s t)).
Proof.
  assert (Hz : forall l, (forall x, x ∈ l -> is_free s x) -> used_sum (slot s) l = 0%Z).
  { induction l as [|x l IH]; intros Hl; [done|]. rewrite used_sum_cons, IH, decide_True; [done|apply Hl; left|].
    intros y Hy. apply Hl. by right. }
  pose proof gl_nodup as (_ & _ & ((_ & Hd & [Hd2 _]%NoDup_cons)%NoDup_app & _ & _)%NoDup_app)%NoDup_app.
  rewrite used_sum_app, used_sum_cons, Ht, decide_False by done. rewrite (Hz r1), (Hz r2); [lia| |].
  - intros x Hx. apply run_free; [apply elem_of_app; right; by right|congruence].
  - intros x Hx. apply run_free; [apply elem_of_app; by left|]. intros ->. apply (Hd t Hx). left.
Qed.

Lemma after_used : b_used (block s' b) = used_sum (slot s') (gl_new power).
Proof.
  rewrite (re_used _ _ _ Hre). unfold s_freed. rewrite block_upd by apply Hb. cbn [b_used set_used].
  pose proof (binv_used_room _ _ _ _ _ _ Hb) as Hroom. rewrite (bi_used _ _ _ _ _ _ Hb), (used_sum_app (slot s) g0), (used_sum_app (slot s) run), used_run in *.
  rewrite (used_sum_app (slot s') g0), (used_sum_app (slot s') (new_slots power)).
  assert (Hold : forall g, (forall x, x ∈ g -> x ∈ g0 ++ g3) -> used_sum (slot s') g = used_sum (slot s) g).
  { intros g Hg. apply used_sum_ext. intros x Hx. by destruct (re_old _ _ _ Hre x (Hg x Hx)) as (_ & -> & -> & _). }
  rewrite (Hold g0), (Hold g3) by (intros; apply elem_of_app; auto).
  assert (used_sum (slot s') (new_slots power) = 0%Z) as ->.
  { assert (forall l, (forall x, x ∈ l -> x ∈ new_slots power) -> used_sum (slot s') l = 0%Z) as Hz; [|by apply Hz].
    induction l as [|x l IH]; intros Hl; [done|]. rewrite used_sum_cons, IH, decide_True; [done|apply after_new, Hl; left|].
    intros y Hy. apply Hl. by right. }
  assert (0 <= used_sum (slot s) g0 /\ 0 <= used_sum (slot s) g3)%Z as [H0 H3].
  { split; apply used_sum_nonneg. }
  unfold u64. rewrite Z.mod_small by lia. lia.
Qed.

Lemma after_binv : binv s' b start stop (gl_new power) FL'.
Proof.
  pose proof Hb as [B1 B2 B3 B4 B5 B6 B7 B8 B9 B10]. pose proof (re_frame _ _ _ Hre) as Hfr.
  split; [by apply Hfr|done|done|by rewrite (fr_size _ _ _ Hfr)|apply after_tiles|apply after_dseg| | |apply after_lists|apply after_used].
  - intros x [Hx|Hx]%elem_of_new; [by destruct (after_new x Hx) as (_ & -> & _); right|].
    destruct (re_old _ _ _ Hre x Hx) as (_ & _ & -> & _). apply B7, elem_of_old. auto.
  - intros x [Hx|Hx]%elem_of_new; [by destruct (after_new x Hx)|].
    destruct (re_old _ _ _ Hre x Hx) as (-> & _). apply B8, elem_of_old. auto.
Qed.

Lemma after_only_in : only_in b start stop s s'.
Proof.
  split; [|apply (re_frame _ _ _ Hre)]. intros x Hx. apply (re_other _ _ _ Hre).
  - intros Hin. by destruct (binv_in _ _ _ _ _ _ _ Hb Hin).
  - intros Hin. by destruct (after_new x Hin) as (_ & _ & ? & _).
Qed.

Lemma after_in_use x m : in_use s' (gl_new power) x m <-> in_use s gl x m /\ x <> t.
Proof.
  unfold in_use. rewrite elem_of_new, elem_of_old. split.
  - intros ([Hx|Hx] & Hst & Hsz); [destruct (after_new x Hx) as (_ & E & _); congruence|].
    destruct (re_old _ _ _ Hre x Hx) as (_ & E1 & E2 & _). rewrite E1 in Hsz. rewrite E2 in Hst. split; [auto|].
    intros ->. apply (outer_not_run t Hx). apply elem_of_app. right. left.
  - intros (([Hx|Hx] & Hst & Hsz) & Hxt); [apply run_free in Hx; [|done]; unfold is_free in Hx; congruence|].
    destruct (re_old _ _ _ Hre x Hx) as (_ & -> & -> & _). auto.
Qed.

(** The neighbours of the stretch are in use, so a block nothing of which is
    in use is cut as a new block is. *)
Lemma after_merged : greedy (S power) first bytes_run = greedy cutOffNum first bytes_run ->
  (forall x m, ~ in_use s' (gl_new power) x m) -> gl_new power = (greedy cutOffNum start (stop - start)).*2.
Proof.
  intros Hgr Hnone.
  assert (Hno : forall u, u ∈ g0 ++ g3 -> status (slot s_freed u) = 1%Z).
  { intros u Hu. assert (u <> t) as Hut.
    { intros ->. apply (outer_not_run t Hu), elem_of_app. right. left. }
    destruct (freed_fields u) as (_ & _ & _ & _ & _ & _ & E). rewrite (E Hut).
    assert (Hug : u ∈ gl) by (apply elem_of_old; auto). destruct (bi_status _ _ _ _ _ _ Hb u Hug) as [Hs|Hs]; [|done].
    exfalso. apply (Hnone u (slot_size (slot s u))), after_in_use. done. }
  assert (g0 = []) as E0.
  { destruct (last g0) as [u|] eqn:El; [|by apply last_None]. exfalso. apply Hg0, Hno, elem_of_app. left. by apply last_Some_elem_of. }
  assert (g3 = []) as E3.
  { clear -Hg3 Hno. destruct g3 as [|u g]; [done|]. exfalso. apply Hg3, Hno, elem_of_app. right. left. }
  destruct stretch as (mid & T1 & T2 & T3 & Emid & _). fold bytes_run in Emid. rewrite E0 in T1. rewrite E3 in T3. cbn in T1, T3.
  unfold new_slots. rewrite Hgr, E0, E3, app_nil_r. cbn [app]. by replace (stop - start)%Z with bytes_run by lia; subst.
Qed.

End after.
End release.

(** Releasing a slot in use. *)
Lemma mempool_free_spec s b start stop gl FL t n : binv s b start stop gl FL -> in_use s gl t n ->
  exists s' gl' FL', mempool_free (t + 40) s = Normal s' /\ binv s' b start stop gl' FL' /\ only_in b start stop s s' /\
    (forall x m, in_use s' gl' x m <-> in_use s gl x m /\ x <> t) /\
    ((forall x m, ~ in_use s' gl' x m) -> gl' = (greedy cutOffNum start (stop - start)).*2).
Proof.
  intros Hb (Hin & Hst & Hsz). apply list_elem_of_split in Hin as (l1 & l2 & ->).
  assert (Hdec : forall x, Decision (is_free (s_freed s b t) x)) by (intros x; unfold is_free; apply _).
  destruct (split_suffix (is_free (s_freed s b t)) l1) as (g0 & r1 & -> & Hr1 & Hg0).
  destruct (split_prefix (is_free (s_freed s b t)) l2) as (r2 & g3 & -> & Hr2 & Hg3).
  replace ((g0 ++ r1) ++ t :: r2 ++ g3) with (g0 ++ (r1 ++ t :: r2) ++ g3) in * by (by rewrite <- !app_assoc).
  assert (Hr : forall x, x ∈ r1 ++ t :: r2 -> is_free (s_freed s b t) x).
  { intros x [Hx|[->|Hx]%elem_of_cons]%elem_of_app; auto. unfold is_free. by rewrite freed_slot, decide_True. }
  assert (Hin : t ∈ g0 ++ (r1 ++ t :: r2) ++ g3) by (rewrite !elem_of_app, elem_of_cons; auto).
  destruct (free_released s b start stop t g0 r1 r2 g3 FL Hb Hst Hr Hg0 Hg3 Hin) as (power & s' & FL' & E & Hre & Hgr).
  exists s', (g0 ++ new_slots s b t r1 r2 power ++ g3), FL'. split; [done|].
  split; [by eapply after_binv|]. split; [by eapply after_only_in|]. split; [intros x m; by eapply after_in_use|].
  intros Hnone. by eapply after_merged.
Qed.

End free.
