(* ===== verification/MempoolChain.v ===== *)
(** * MempoolChain: the list of blocks of the memory pool

    The blocks of the pool are doubly linked from offset 0 to [block_tail],
    their memory does not overlap, and each satisfies the invariant of a
    block.  An operation on one block leaves the other blocks alone. *)

From S2P Require Import Prelude Mempool MempoolFacts MempoolOps MempoolSplit MempoolFill MempoolFree.
Set Warnings "-clear-no-such-hyp".

Section chain.
Context {U : Uninit} {L : PoolLayout} {A : BlockAlloc}.

(** The part of a block's memory that is cut into slots, its slots in the
    order of their addresses and its free lists. *)
Record region := mk_region { r_start : Z; r_stop : Z; r_slots : list Z; r_lists : nat -> list Z }.

Definition rinv (s : mempool) (b : Z) (r : region) : Prop :=
  binv s b (r_start r) (r_stop r) (r_slots r) (r_lists r) /\ (b < r_start r)%Z /\ (r_stop r <= b + b_size (block s b))%Z.

Fixpoint bseg (B : Z -> block_header) (p : Z) (l : list Z) (e : Z) : Prop :=
  match l with
  | [] => True
  | b :: l => block_prev (B b) = p /\ block_next (B b) = default e (head l) /\ bseg B b l e
  end.

Record shape (s : mempool) (bl : list Z) (R : Z -> region) : Prop := {
  sh_first : head bl = Some 0%Z;
  sh_nodup : NoDup bl;
  sh_dom b : is_Some (blocks s !! b) <-> b ∈ bl;
  sh_links : bseg (block s) 0 bl 0;
  sh_tail : last bl = Some (block_tail s);
  sh_region b : b ∈ bl -> rinv s b (R b);
  sh_apart b b' : b ∈ bl -> b' ∈ bl -> b <> b' ->
    (b + b_size (block s b) <= b' \/ b' + b_size (block s b') <= b)%Z
}.

(** Slot [a] of class [n] of some block is in use. *)
Definition pool_use (s : mempool) (bl : list Z) (R : Z -> region) (a : Z) (n : nat) : Prop :=
  exists b, b ∈ bl /\ in_use s (r_slots (R b)) a n.

Lemma bseg_ext B B' p l e : (forall b, b ∈ l -> block_prev (B' b) = block_prev (B b) /\ block_next (B' b) = block_next (B b)) ->
  bseg B p l e -> bseg B' p l e.
Proof.
  revert p. induction l as [|b l IH]; intros p He; [done|]. cbn. intros (H1 & H2 & H3).
  destruct (He b) as [-> ->]; [left|]. split; [done|]. split; [done|]. apply IH; [|done]. intros x Hx. apply He. by right.
Qed.

Lemma bseg_app B p l1 l2 e : bseg B p (l1 ++ l2) e <->
  bseg B p l1 (default e (head l2)) /\ bseg B (default p (last l1)) l2 e.
Proof.
  revert p. induction l1 as [|a l1 IH]; intros p; [cbn; tauto|]. cbn [app bseg]. rewrite IH. clear IH.
  destruct l1 as [|b l1]; [cbn; tauto|]. rewrite last_cons_cons.
  destruct (last (b :: l1)) eqn:E; [|by apply last_None in E]. cbn [head app]. tauto.
Qed.

(** ** Blocks that an operation does not touch *)

(** What the invariant of a block depends on. *)
Lemma binv_same s s' b start stop gl FL : binv s b start stop gl FL -> is_Some (blocks s' !! b) ->
  b_size (block s' b) = b_size (block s b) -> b_used (block s' b) = b_used (block s b) ->
  freelists (block s' b) = freelists (block s b) ->
  (forall a, a ∈ gl -> block_ptr (slot s' a) = block_ptr (slot s a) /\ slot_size (slot s' a) = slot_size (slot s a) /\
     status (slot s' a) = status (slot s a) /\ gprev (slot s' a) = gprev (slot s a) /\ gnext (slot s' a) = gnext (slot s a) /\
     (is_free s a -> sprev (slot s' a) = sprev (slot s a) /\ snext (slot s' a) = snext (slot s a))) ->
  binv s' b start stop gl FL.
Proof.
  intros [B1 B2 B3 B4 B5 B6 B7 B8 B9 B10] Hs E1 E2 E3 Ha. split; try done.
  - by rewrite E1.
  - eapply tiles_ext; [|exact B5]. intros a Hin. by destruct (Ha a Hin) as (_ & ? & _).
  - eapply dseg_ext; [|exact B6]. intros a Hin. by destruct (Ha a Hin) as (_ & _ & _ & ? & ? & _).
  - intros a Hin. destruct (Ha a Hin) as (_ & _ & -> & _). auto.
  - intros a Hin. destruct (Ha a Hin) as (-> & _). auto.
  - rewrite E3. eapply fl_ok_ext; [| |exact B9].
    + intros a. unfold is_free. split; intros [Hin Hf]; (split; [done|]); destruct (Ha a Hin) as (_ & _ & E & _); congruence.
    + intros a [Hin Hf]. destruct (Ha a Hin) as (_ & ? & _ & _ & _ & Hl). split; [done|]. auto.
  - rewrite E2, B10. symmetry. apply used_sum_ext. intros a Hin. by destruct (Ha a Hin) as (_ & ? & ? & _).
Qed.

Lemma in_use_same s s' gl a n : (forall x, x ∈ gl -> slot_size (slot s' x) = slot_size (slot s x) /\ status (slot s' x) = status (slot s x)) ->
  in_use s' gl a n <-> in_use s gl a n.
Proof. intros Hx. unfold in_use. split; intros (Hin & H1 & H2); destruct (Hx a Hin); (split; [done|]); split; congruence. Qed.

Lemma frame_blocks b s s' b' : frame b s s' -> is_Some (blocks s' !! b') <-> is_Some (blocks s !! b') \/ (b' = b /\ is_Some (blocks s' !! b)).
Proof.
  intros Hf. destruct (decide (b' = b)) as [->|Hne].
  - split; [tauto|]. intros [H|[_ H]]; [by apply (fr_some _ _ _ Hf)|done].
  - rewrite (fr_block _ _ _ Hf) by done. tauto.
Qed.

Lemma frame_block b s s' b' : frame b s s' -> b' <> b -> block s' b' = block s b'.
Proof. intros Hf Hne. unfold block. by rewrite !lookup_total_alt, (fr_block _ _ _ Hf). Qed.

Lemma frame_static b s s' b' : frame b s s' -> b_size (block s' b') = b_size (block s b') /\
  block_prev (block s' b') = block_prev (block s b') /\ block_next (block s' b') = block_next (block s b').
Proof.
  intros Hf. destruct (decide (b' = b)) as [->|Hne]; [|by rewrite (frame_block _ _ _ _ Hf)].
  by rewrite (fr_size _ _ _ Hf), (fr_prev _ _ _ Hf), (fr_next _ _ _ Hf).
Qed.

(** The slots of two blocks have different addresses. *)
Lemma region_apart s bl R b b' a : shape s bl R -> b ∈ bl -> b' ∈ bl -> b <> b' -> a ∈ r_slots (R b') ->
  ~ (r_start (R b) <= a < r_stop (R b))%Z.
Proof.
  intros Hs Hb Hb' Hne Ha. destruct (sh_region _ _ _ Hs b Hb) as (_ & H1 & H2).
  destruct (sh_region _ _ _ Hs b' Hb') as (HB & H3 & H4). destruct (binv_in _ _ _ _ _ _ _ HB Ha) as (H5 & _).
  destruct (sh_apart _ _ _ Hs b b' Hb Hb' Hne); lia.
Qed.

(** An operation on block [b]: the new slots and lists of [b]. *)
Definition rupd (R : Z -> region) (b : Z) (gl : list Z) (FL : nat -> list Z) : Z -> region :=
  fun x => if decide (x = b) then mk_region (r_start (R b)) (r_stop (R b)) gl FL else R x.

Lemma shape_update s s' bl R b gl FL : shape s bl R -> b ∈ bl -> only_in b (r_start (R b)) (r_stop (R b)) s s' ->
  binv s' b (r_start (R b)) (r_stop (R b)) gl FL ->
  shape s' bl (rupd R b gl FL) /\
  (forall b' a n, b' ∈ bl -> b' <> b -> in_use s' (r_slots (R b')) a n <-> in_use s (r_slots (R b')) a n).
Proof.
  intros Hs Hb [Hsl Hf] HB. pose proof Hs as [S1 S2 S3 S4 S5 S6 S7].
  assert (Hst : forall x, b_size (block s' x) = b_size (block s x)) by (intros x; by destruct (frame_static b s s' x Hf)).
  assert (Hx : forall b' a, b' ∈ bl -> b' <> b -> a ∈ r_slots (R b') -> slot s' a = slot s a).
  { intros b' a Hb' Hne Ha. apply Hsl. by eapply (region_apart s bl R b b'). }
  split; [split; try done|].
  - intros x. rewrite (frame_blocks _ _ _ _ Hf), S3. split; [|tauto]. intros [H|[-> _]]; done.
  - eapply bseg_ext; [|exact S4]. intros x _. by destruct (frame_static b s s' x Hf) as (_ & ? & ?).
  - by rewrite (fr_tail _ _ _ Hf).
  - intros x Hin. unfold rupd. destruct (decide (x = b)) as [->|Hne].
    + destruct (S6 b Hb) as (_ & H1 & H2). split; [done|]. by rewrite Hst.
    + destruct (S6 x Hin) as (H0 & H1 & H2). split; [|by rewrite Hst]. eapply binv_same; [exact H0| | | | |].
      * rewrite (fr_block _ _ _ Hf) by done. by apply S3.
      * apply Hst.
      * by rewrite (frame_block _ _ _ _ Hf).
      * by rewrite (frame_block _ _ _ _ Hf).
      * intros a Ha. by rewrite (Hx x a Hin Hne Ha).
  - intros x y. rewrite !Hst. apply S7.
  - intros b' a n Hb' Hne. apply in_use_same. intros x Hin. by rewrite (Hx b' x Hb' Hne Hin).
Qed.

(** The same for what is in use. *)
Lemma use_update s s' bl R b gl FL (D : Z -> nat -> Prop) : shape s bl R -> b ∈ bl ->
  (forall b' a n, b' ∈ bl -> b' <> b -> in_use s' (r_slots (R b')) a n <-> in_use s (r_slots (R b')) a n) ->
  (forall a n, in_use s' gl a n <-> D a n) ->
  forall a n, pool_use s' bl (rupd R b gl FL) a n <->
    D a n \/ exists b', b' ∈ bl /\ b' <> b /\ in_use s (r_slots (R b')) a n.
Proof.
  intros Hs Hb Ho HD a n. unfold pool_use, rupd. split.
  - intros (b' & Hb' & Hu). destruct (decide (b' = b)) as [->|Hne]; [left; by apply HD|]. right. exists b'. rewrite <- Ho; done.
  - intros [Hu|(b' & Hb' & Hne & Hu)].
    + exists b. split; [done|]. rewrite decide_True by done. by apply HD.
    + exists b'. split; [done|]. rewrite decide_False by done. by apply Ho.
Qed.

Lemma pool_use_split s bl R b a n : b ∈ bl -> pool_use s bl R a n <->
  in_use s (r_slots (R b)) a n \/ exists b', b' ∈ bl /\ b' <> b /\ in_use s (r_slots (R b')) a n.
Proof.
  intros Hb. unfold pool_use. split.
  - intros (b' & Hb' & Hu). destruct (decide (b' = b)) as [->|Hne]; [auto|]. right. eauto.
  - intros [?|(b' & ? & _ & ?)]; eauto.
Qed.

(** A slot belongs to one block only. *)
Lemma in_use_one s bl R b b' a n m : shape s bl R -> b ∈ bl -> b' ∈ bl -> in_use s (r_slots (R b)) a n ->
  in_use s (r_slots (R b')) a m -> b = b' /\ n = m.
Proof.
  intros Hs Hb Hb' (H1 & _ & <-) (H2 & _ & <-). split; [|done]. destruct (decide (b = b')) as [->|Hne]; [done|].
  exfalso. destruct (sh_region _ _ _ Hs b Hb) as (HB & _). apply (region_apart s bl R b b' a Hs Hb Hb' Hne H2).
  by apply (binv_in _ _ _ _ _ _ _ HB).
Qed.

End chain.
