(* ===== verification/MempoolBlocks.v ===== *)
(** * MempoolBlocks: searching, removing and adding blocks

    The loops over the list of blocks, against the invariant of the list. *)

From S2P Require Import Prelude Mempool MempoolFacts MempoolOps MempoolSplit MempoolFill MempoolFree MempoolChain.
Set Warnings "-clear-no-such-hyp".

Section blocks.
Context {U : Uninit} {L : PoolLayout} {A : BlockAlloc}.

(** [s'] has the same slots in use as [s]. *)
Definition same_use (s : mempool) bl R (s' : mempool) bl' R' : Prop :=
  forall a n, pool_use s' bl' R' a n <-> pool_use s bl R a n.

Lemma shape_size s bl R : shape s bl R -> size (blocks s) = length bl.
Proof.
  intros Hs. rewrite <- size_dom. assert (dom (blocks s) = list_to_set bl) as ->.
  { apply set_eq. intros x. rewrite elem_of_dom, elem_of_list_to_set. apply (sh_dom _ _ _ Hs). }
  apply size_list_to_set, (sh_nodup _ _ _ Hs).
Qed.

(** Only the first block is at offset 0. *)
Lemma later_nonzero s l1 c l2 R x : shape s (l1 ++ c :: l2) R -> x ∈ l2 -> x <> 0%Z.
Proof.
  intros Hs Hx ->. pose proof (sh_first _ _ _ Hs) as Hh. pose proof (sh_nodup _ _ _ Hs) as (_ & Hd & [Hc _]%NoDup_cons)%NoDup_app.
  destruct l1 as [|y l1]; cbn in Hh; injection Hh as ->; [done|]. apply (Hd 0%Z); [left|by right].
Qed.

Lemma next_block s l1 c l2 R : shape s (l1 ++ c :: l2) R -> block_next (block s c) = default 0%Z (head l2) /\
  block_prev (block s c) = default 0%Z (last l1).
Proof. intros Hs. pose proof (sh_links _ _ _ Hs) as [_ H]%bseg_app. cbn in H. tauto. Qed.

(** ** Searching *)

Lemma find_block_spec power fuel s bl R l1 cur l2 : shape s bl R -> bl = l1 ++ cur :: l2 -> length l2 < fuel -> power < cutOffNum ->
  exists s' o, find_block fuel power cur s = Normal (s', o) /\
    match o with
    | None => s' = s
    | Some b => b ∈ bl /\ limit s' = limit s /\ exists R', shape s' bl R' /\ same_use s bl R s' bl R' /\ r_lists (R' b) power <> []
    end.
Proof.
  intros Hs Ebl Hf Hp. revert l1 cur l2 Ebl Hf. induction fuel as [|fuel IH]; intros l1 cur l2 Ebl Hf; [lia|]. cbn [find_block].
  assert (Hc : cur ∈ bl) by (rewrite Ebl; apply elem_of_app; right; left).
  destruct (sh_region _ _ _ Hs cur Hc) as (HB & _). pose proof (checkblock_spec power _ _ _ _ _ _ HB Hp) as HC.
  destruct (checkblock power cur s) as [s1 ok]. destruct ok.
  - destruct HC as (gl' & FL' & HB' & Hin & Hne & Hu). exists s1, (Some cur). split; [done|]. split; [done|].
    split; [apply (fr_limit _ _ _ (proj2 Hin))|]. destruct (shape_update s s1 bl R cur gl' FL' Hs Hc Hin HB') as [Hs' Ho].
    exists (rupd R cur gl' FL'). split; [done|]. split; [|unfold rupd; by rewrite decide_True].
    intros a n. rewrite (use_update s s1 bl R cur gl' FL' _ Hs Hc Ho Hu). symmetry. by apply pool_use_split.
  - destruct HC as [-> _]. rewrite Ebl in Hs. destruct (next_block _ _ _ _ _ Hs) as [-> _].
    destruct l2 as [|n l2]; cbn [head from_option id]; [by exists s, None|].
    destruct (Z.eqb_spec n 0) as [E|_]; [exfalso; eapply (later_nonzero _ _ _ _ _ n Hs); [left|done]|].
    rewrite <- Ebl in Hs. apply (IH (l1 ++ [cur]) n l2); [by rewrite <- app_assoc|cbn in Hf; lia].
Qed.

(** ** Handing out and taking back *)

Lemma pool_take s bl R b power : shape s bl R -> b ∈ bl -> power < cutOffNum -> r_lists (R b) power <> [] ->
  exists s' a R', take_slot power b s = (s', a + 40)%Z /\ shape s' bl R' /\ limit s' = limit s /\ (0 < a)%Z /\
    (forall m, ~ pool_use s bl R a m) /\
    (forall x n, pool_use s' bl R' x n <-> pool_use s bl R x n \/ (x = a /\ n = power)).
Proof.
  intros Hs Hb Hp Hne. destruct (sh_region _ _ _ Hs b Hb) as (HB & _). destruct (r_lists (R b) power) as [|a l] eqn:El; [done|].
  destruct (take_slot_spec _ _ _ _ _ _ power a l HB Hp El) as (E & Ha & Hfree & Hsz & Hin & (FL' & HB') & Hu).
  set (s' := (take_slot power b s).1) in *. destruct (shape_update s s' bl R b _ FL' Hs Hb Hin HB') as [Hs' Ho].
  exists s', a, (rupd R b (r_slots (R b)) FL'). split; [by rewrite (surjective_pairing (take_slot power b s)), E|].
  split; [done|]. split; [apply (fr_limit _ _ _ (proj2 Hin))|].
  destruct (binv_in _ _ _ _ _ _ _ HB Ha) as (Hr & _). pose proof (bi_start _ _ _ _ _ _ HB). split; [lia|]. split.
  - intros m (b' & Hb' & Hu'). destruct (decide (b' = b)) as [->|Hbb].
    + destruct Hu' as (_ & Hst & _). unfold is_free in Hfree. congruence.
    + destruct Hu' as (Ha' & _). by apply (region_apart s bl R b b' a).
  - intros x n. rewrite (use_update s s' bl R b _ FL' _ Hs Hb Ho Hu), (pool_use_split s bl R b) by done. tauto.
Qed.

Lemma pool_free s bl R t n : shape s bl R -> pool_use s bl R t n ->
  exists s' R', mempool_free (t + 40) s = Normal s' /\ shape s' bl R' /\ limit s' = limit s /\
    (forall x m, pool_use s' bl R' x m <-> pool_use s bl R x m /\ x <> t).
Proof.
  intros Hs (b & Hb & Hut). destruct (sh_region _ _ _ Hs b Hb) as (HB & _).
  destruct (mempool_free_spec _ _ _ _ _ _ t n HB Hut) as (s' & gl' & FL' & E & HB' & Hin & Hu & _).
  destruct (shape_update s s' bl R b gl' FL' Hs Hb Hin HB') as [Hs' Ho].
  exists s', (rupd R b gl' FL'). split; [done|]. split; [done|]. split; [apply (fr_limit _ _ _ (proj2 Hin))|].
  intros x m. rewrite (use_update s s' bl R b gl' FL' _ Hs Hb Ho Hu), (pool_use_split s bl R b) by done.
  split; [|tauto]. intros [?|(b' & Hb' & Hne & Hx)]; [tauto|]. split; [right; eauto|]. intros ->.
  by destruct (in_use_one s bl R b' b t m n Hs Hb' Hb Hx Hut).
Qed.

(** ** Removing a block *)

(** One removal of [removeblocks]. *)
Definition drop_block (tail prev tofree : Z) (s : mempool) : mempool :=
  let current := block_next (block s tofree) in
  let s := if (tail =? tofree)%Z then set_tail (block_prev (block s tofree)) s else s in
  let s := upd_block prev (set_block_next (block_next (block s tofree))) s in
  let s := if negb (current =? 0)%Z then upd_block current (set_block_prev (block_prev (block s tofree))) s else s in
  let s := set_mp_size (u64 (mp_size s - b_size (block s tofree))) s in
  freeblockfn tofree s.

Lemma block_view_if (c : bool) s1 s2 x : block (if c then s1 else s2) x = if c then block s1 x else block s2 x.
Proof. by destruct c. Qed.

Lemma block_free s c x : x <> c -> block (freeblockfn c s) x = block s x.
Proof. intros Hne. unfold block, freeblockfn. cbn. by rewrite !lookup_total_alt, lookup_delete_ne. Qed.

Lemma slot_free s c a : ~ (c <= a < c + b_size (block s c))%Z -> slot (freeblockfn c s) a = slot s a.
Proof.
  intros Ha. unfold slot, freeblockfn. cbn. f_equal. destruct (slots s !! a) as [h|] eqn:E.
  - by apply map_lookup_filter_Some_2.
  - apply map_lookup_filter_None_2. by left.
Qed.

Section drop.
Context (s : mempool) (l1 l2 : list Z) (p c tail : Z) (R : Z -> region).
Context (Hs : shape s (l1 ++ p :: c :: l2) R) (Htail : tail = block_tail s).
Abbreviation bl := (l1 ++ p :: c :: l2).
Abbreviation bl' := (l1 ++ p :: l2).
Abbreviation s' := (drop_block tail p c s).
Abbreviation n := (default 0%Z (head l2)).

Lemma drop_nodup : (p <> c) /\ NoDup bl' /\ (c ∉ bl') /\ (n <> c) /\ (n <> p \/ n = 0%Z).
Proof.
  pose proof (sh_nodup _ _ _ Hs) as (H1 & Hd & [Hp [Hc Hn]%NoDup_cons]%NoDup_cons)%NoDup_app.
  assert (c <> 0%Z) as Hc0.
  { apply (later_nonzero s l1 p (c :: l2) R c Hs). left. }
  split; [set_solver|]. split; [apply NoDup_app; split; [done|]; split; [set_solver|]; constructor; set_solver|].
  split; [set_solver|]. destruct l2 as [|m l]; cbn; [auto|]. set_solver.
Qed.

Lemma drop_block_view x : x <> c -> block s' x =
  if decide (x = n /\ n <> 0%Z) then set_block_prev p (if decide (x = p) then set_block_next n (block s p) else block s x)
  else if decide (x = p) then set_block_next n (block s x) else block s x.
Proof.
  intros Hxc. destruct drop_nodup as (Hpc & _ & _ & Hnc & Hnp).
  assert (Hsome : forall y, y ∈ bl -> is_Some (blocks s !! y)) by (intros y; apply (sh_dom _ _ _ Hs)).
  assert (Hsp : is_Some (blocks s !! p)) by (apply Hsome; set_solver).
  assert (n <> 0%Z -> is_Some (blocks s !! n)) as Hsn.
  { intros H0. apply Hsome. destruct l2; cbn in *; [done|]. set_solver. }
  assert (block_next (block s c) = n /\ block_prev (block s c) = p) as [En Ep].
  { assert (shape s ((l1 ++ [p]) ++ c :: l2) R) as Hs2 by (by rewrite <- app_assoc).
    destruct (next_block _ _ _ _ _ Hs2) as [E1 E2]. by rewrite last_snoc in E2. }
  unfold drop_block. cbn zeta. rewrite block_free by done. rewrite En.
  set (s1 := if (tail =? c)%Z then _ else _).
  assert (E1 : blocks s1 = blocks s) by (unfold s1; by destruct (tail =? c)%Z).
  assert (B1 : forall y, block s1 y = block s y) by (intros y; unfold block; by rewrite E1).
  rewrite B1, En. set (s2 := upd_block p (set_block_next n) s1).
  assert (B2 : forall y, block s2 y = if decide (y = p) then set_block_next n (block s y) else block s y).
  { intros y. unfold s2. destruct (decide (y = p)) as [->|Hy]; [rewrite block_upd by (by rewrite E1)|rewrite block_upd_ne by done]; by rewrite B1. }
  rewrite (B2 c), decide_False, Ep by done. change (block (set_mp_size ?v ?t) x) with (block t x).
  destruct (Z.eqb_spec n 0) as [E0|E0]; cbn [negb].
  - rewrite B2. rewrite (decide_False (P := x = n /\ _)); [done|]. intros [_ H]; done.
  - destruct (decide (x = n)) as [->|Hx].
    + rewrite decide_True by done. rewrite block_upd; [|unfold s2; cbn; rewrite lookup_alter_ne, E1; [auto|]; intros ->; tauto].
      rewrite B2. destruct (decide (n = p)) as [E|]; [tauto|done].
    + rewrite block_upd_ne, B2 by done. by rewrite (decide_False (P := x = n /\ _)) by tauto.
Qed.

Lemma drop_some x : is_Some (blocks s' !! x) <-> x ∈ bl'.
Proof.
  destruct drop_nodup as (_ & _ & Hc & _). transitivity (x ∈ bl /\ x <> c); [|set_solver].
  rewrite <- (sh_dom _ _ _ Hs x). unfold drop_block, freeblockfn. cbn [blocks].
  rewrite lookup_delete_is_Some. split.
  - intros [Hne H]. split; [|done]. revert H. destruct (tail =? c)%Z, (negb _); cbn; rewrite ?lookup_alter_is_Some; done.
  - intros [H Hne]. split; [done|]. destruct (tail =? c)%Z, (negb _); cbn; by rewrite ?lookup_alter_is_Some.
Qed.

Lemma drop_static x : x <> c -> b_size (block s' x) = b_size (block s x) /\ b_used (block s' x) = b_used (block s x) /\
  freelists (block s' x) = freelists (block s x).
Proof.
  intros Hx. rewrite drop_block_view by done. destruct (decide (x = p)) as [->|]; by destruct (decide (_ /\ _)).
Qed.

Lemma drop_slot a : ~ (c <= a < c + b_size (block s c))%Z -> slot s' a = slot s a.
Proof.
  intros Ha. unfold drop_block. cbn zeta. rewrite slot_free.
  - by destruct (tail =? c)%Z, (negb _).
  - assert (forall f y t, y <> c -> block (upd_block y f t) c = block t c) as Hb by (intros; by rewrite block_upd_ne).
    destruct drop_nodup as (Hpc & _ & _ & Hnc & _).
    assert (block_next (block s c) <> c) as Hn.
    { assert (shape s ((l1 ++ [p]) ++ c :: l2) R) as Hs2 by (by rewrite <- app_assoc). by destruct (next_block _ _ _ _ _ Hs2) as [-> _]. }
    change (block (set_mp_size ?v ?t) c) with (block t c). rewrite block_view_if, (Hb _ (block_next (block s c))) by done.
    rewrite (Hb _ p) by done. by destruct (tail =? c)%Z, (negb _).
Qed.

Lemma drop_links : bseg (block s') 0 bl' 0.
Proof.
  pose proof (sh_links _ _ _ Hs) as (H1 & Hp & _ & _ & _ & H2)%bseg_app. destruct drop_nodup as (Hpc & Hnd & Hc & Hnc & Hnp).
  pose proof Hnd as (_ & Hd & [Hpl Hnd2]%NoDup_cons)%NoDup_app. pose proof (sh_first _ _ _ Hs) as Hf.
  assert (Hl2 : forall x, x ∈ l2 -> x <> 0%Z) by (intros x Hx; apply (later_nonzero s l1 p (c :: l2) R); [done|by right]).
  assert (Hn2 : n <> 0%Z -> n ∈ l2) by (clear; destruct l2; cbn; [done|left]).
  apply bseg_app. split; [|cbn [bseg]; split; [|split]].
  - eapply bseg_ext; [|exact H1]. intros x Hx. rewrite drop_block_view by set_solver.
    rewrite decide_False, decide_False; [done|set_solver|]. intros [-> H0]. apply (Hd n); [done|]. right. auto.
  - rewrite drop_block_view by done. rewrite decide_False by (intros [-> H0]; auto). by rewrite decide_True.
  - rewrite drop_block_view by done. rewrite decide_False by (intros [-> H0]; auto). by rewrite decide_True.
  - assert (Hb : forall x, x ∈ l2 -> block s' x = if decide (Some x = head l2) then set_block_prev p (block s x) else block s x).
    { intros x Hx. rewrite drop_block_view by set_solver. rewrite (decide_False (P := x = p)) by set_solver.
      rewrite (decide_False (P := x = p)) by set_solver. pose proof (Hl2 x Hx) as Hx0. clear -Hx0.
      destruct (head l2) as [m|]; cbn; destruct (decide (x = _ /\ _)), (decide (Some x = _)); try done; naive_solver. }
    clear -H2 Hb Hnd2. destruct l2 as [|m l]; [done|]. destruct H2 as (_ & E2 & H2). apply NoDup_cons in Hnd2 as [Hm _]. cbn [bseg].
    rewrite (Hb m), decide_True by (done || left). split; [done|]. split; [done|]. eapply bseg_ext; [|exact H2].
    intros x Hx. rewrite (Hb x) by (by right). rewrite decide_False; [done|]. cbn. intros [= ->]. done.
Qed.

Lemma drop_tail : last bl' = Some (block_tail s').
Proof.
  pose proof (sh_tail _ _ _ Hs) as Ht. pose proof drop_nodup as (_ & _ & Hc & _).
  assert (block_tail s' = if (tail =? c)%Z then block_prev (block s c) else block_tail s) as ->.
  { unfold drop_block. by destruct (tail =? c)%Z, (negb _). }
  assert (shape s ((l1 ++ [p]) ++ c :: l2) R) as Hs2 by (by rewrite <- app_assoc). destruct (next_block _ _ _ _ _ Hs2) as [_ Ep].
  rewrite last_snoc in Ep. cbn in Ep. rewrite Ep, Htail. rewrite last_app in Ht |- *. rewrite !last_cons in *.
  destruct (last l2) as [z|] eqn:El.
  - cbn in *. injection Ht as <-. destruct (Z.eqb_spec z c) as [->|]; [|done]. exfalso. apply Hc. apply last_Some_elem_of in El. set_solver.
  - cbn in *. injection Ht as <-. by rewrite Z.eqb_refl.
Qed.

Lemma shape_drop : shape s' bl' R.
Proof.
  pose proof Hs as [S1 S2 S3 S4 S5 S6 S7]. pose proof drop_nodup as (Hpc & Hnd & Hc & _).
  assert (Hsub : forall x, x ∈ bl' -> x ∈ bl /\ x <> c) by set_solver.
  split; [|done|apply drop_some|apply drop_links|apply drop_tail| |].
  - by destruct l1.
  - intros b Hb. destruct (Hsub b Hb) as [Hin Hne]. destruct (S6 b Hin) as (HB & H1 & H2).
    destruct (drop_static b Hne) as (E1 & E2 & E3). split; [|by rewrite E1].
    eapply binv_same; [exact HB|by apply drop_some|done|done|done|]. intros a Ha. rewrite drop_slot; [done|].
    destruct (binv_in _ _ _ _ _ _ _ HB Ha) as (Hr & _). destruct (S7 b c Hin) as [?|?]; [set_solver|done|lia|lia].
  - intros b b' Hb Hb' Hne. destruct (Hsub b Hb) as [H1 H2], (Hsub b' Hb') as [H3 H4].
    destruct (drop_static b H2) as (-> & _), (drop_static b' H4) as (-> & _). by apply S7.
Qed.

Lemma drop_use : (forall a m, ~ in_use s (r_slots (R c)) a m) -> same_use s bl R s' bl' R.
Proof.
  intros Hno a m. pose proof Hs as [S1 S2 S3 S4 S5 S6 S7]. pose proof drop_nodup as (Hpc & Hnd & Hc & _).
  assert (Hiff : forall b, b ∈ bl' -> in_use s' (r_slots (R b)) a m <-> in_use s (r_slots (R b)) a m).
  { intros b Hb. assert (b ∈ bl /\ b <> c) as [Hin Hne] by set_solver. destruct (S6 b Hin) as (HB & H1 & H2).
    apply in_use_same. intros x Hx. rewrite drop_slot; [done|].
    destruct (binv_in _ _ _ _ _ _ _ HB Hx) as (Hr & _). destruct (S7 b c Hin) as [?|?]; [set_solver|done|lia|lia]. }
  split; intros (b & Hb & Hu).
  - exists b. split; [set_solver|]. by apply Hiff.
  - assert (b <> c) by (intros ->; by apply Hno in Hu). assert (b ∈ bl') as Hb' by set_solver. exists b. split; [done|]. by apply Hiff.
Qed.

Lemma drop_limit : limit s' = limit s.
Proof. unfold drop_block. by destruct (tail =? c)%Z, (negb _). Qed.

End drop.

(** A block whose count is 0 has no slot of a class above 0 in use. *)
Lemma unused_block s b start stop gl FL a m : binv s b start stop gl FL -> (b_used (block s b) <= 0)%Z -> in_use s gl a m -> m = 0.
Proof.
  intros Hb Hu (Ha & Hst & <-). rewrite (bi_used _ _ _ _ _ _ Hb) in Hu. apply list_elem_of_split in Ha as (l1 & l2 & ->).
  rewrite used_sum_app, used_sum_cons, Hst, decide_False in Hu by done.
  pose proof (used_sum_nonneg (slot s) l1). pose proof (used_sum_nonneg (slot s) l2). lia.
Qed.

Lemma remove_loop_spec fuel s l1 p l2 R tail : shape s (l1 ++ p :: l2) R -> length l2 < fuel -> (l2 <> [] -> tail = block_tail s) ->
  (forall a n, pool_use s (l1 ++ p :: l2) R a n -> n <> 0) ->
  exists s' bl', remove_loop fuel tail p (default 0%Z (head l2)) s = Normal s' /\ shape s' bl' R /\ limit s' = limit s /\
    same_use s (l1 ++ p :: l2) R s' bl' R.
Proof.
  revert s l1 p l2. induction fuel as [|fuel IH]; intros s l1 p l2 Hs Hf Ht Hnz; [lia|]. cbn [remove_loop].
  destruct l2 as [|c l2]; cbn [head from_option id]; [by exists s, (l1 ++ [p])|].
  destruct (Z.eqb_spec c 0) as [E|_]; [exfalso; by apply (later_nonzero s l1 p (c :: l2) R c Hs); [left|]|].
  assert (shape s ((l1 ++ [p]) ++ c :: l2) R) as Hs2 by (by rewrite <- app_assoc). destruct (next_block _ _ _ _ _ Hs2) as [En _].
  assert (Hc : c ∈ l1 ++ p :: c :: l2) by set_solver. destruct (sh_region _ _ _ Hs c Hc) as (HB & _). specialize (Ht ltac:(done)).
  destruct (Z.leb_spec (b_used (block s c)) 0) as [Hu|Hu].
  - assert (Hno : forall a m, ~ in_use s (r_slots (R c)) a m).
    { intros a m Hum. apply (Hnz a m); [by exists c|]. by eapply unused_block. }
    pose proof (shape_drop s l1 l2 p c tail R Hs Ht) as Hs'. pose proof (drop_use s l1 l2 p c tail R Hs Ht Hno) as Hu'.
    fold (drop_block tail p c s).
    set (s1 := drop_block tail p c s) in *.
    destruct (mp_size s1 <? limit s1)%Z; [exists s1, (l1 ++ p :: l2); split; [done|]; split; [done|]; split; [apply drop_limit|done]|].
    rewrite En. destruct (IH s1 l1 p l2 Hs') as (s2 & bl2 & -> & Hs2' & Hl2 & Hu2); [cbn in Hf; lia| | |].
    + intros Hne. rewrite Ht. pose proof (drop_tail s l1 l2 p c tail R Hs Ht) as Et. fold s1 in Et.
      pose proof (sh_tail _ _ _ Hs) as Et0. rewrite last_app in Et, Et0. rewrite !last_cons in *.
      destruct (last l2) eqn:El; [|by apply last_None in El]. cbn in *. congruence.
    + intros a n Hun. apply (Hnz a n). by apply Hu'.
    + exists s2, bl2. split; [done|]. split; [done|]. split; [rewrite Hl2; apply drop_limit|]. intros a n. by rewrite (Hu2 a n).
  - rewrite En. destruct (IH s (l1 ++ [p]) c l2 Hs2) as (s2 & bl2 & E & Hrest); [cbn in Hf; lia|by intros _| |].
    + intros a n Hun. apply (Hnz a n). by rewrite <- app_assoc in Hun.
    + exists s2, bl2. rewrite <- app_assoc in Hrest. done.
Qed.

Lemma removeblocks_spec s bl R : shape s bl R -> (forall a n, pool_use s bl R a n -> n <> 0) ->
  exists s' bl', removeblocks s = Normal s' /\ shape s' bl' R /\ limit s' = limit s /\ same_use s bl R s' bl' R.
Proof.
  intros Hs Hnz. pose proof (sh_first _ _ _ Hs) as Hh. destruct bl as [|b l]; [done|]. injection Hh as ->.
  unfold removeblocks. rewrite (shape_size _ _ _ Hs). destruct (next_block s [] 0%Z l R Hs) as [-> _].
  apply (remove_loop_spec _ s [] 0%Z l R); [done|cbn; lia|done|done].
Qed.

(** ** Adding a block *)

(** The block that [expand] links behind the last one, before it is filled. *)
Definition linked (pool sz tail : Z) (s : mempool) : mempool :=
  let s := upd_block tail (set_block_next pool) (set_mp_size (u64 (mp_size s + sz)) s) in
  mk_mempool (<[pool := mk_block sz 0 tail 0 []]> (blocks s)) (slots s) pool (limit s) (mp_size s).

Section add.
Context (s : mempool) (bl : list Z) (R : Z -> region) (pool sz hdr stop : Z) (gl : list Z) (FL : nat -> list Z) (s' : mempool).
Context (Hs : shape s bl R) (Hpos : (0 < pool)%Z) (Hhdr : (0 < hdr)%Z).
Context (Hap : forall b h, blocks s !! b = Some h -> (pool + sz <= b \/ b + b_size h <= pool)%Z).
Context (Hin : only_in pool (pool + hdr) stop (linked pool sz (block_tail s) s) s') (Hstop : (stop <= pool + sz)%Z).
Context (HB : binv s' pool (pool + hdr) stop gl FL).

Definition radd : Z -> region := fun x => if decide (x = pool) then mk_region (pool + hdr) stop gl FL else R x.

Lemma add_size b : b ∈ bl -> blocks s !! b = Some (block s b) /\ (0 < b_size (block s b))%Z.
Proof.
  intros Hb. destruct (sh_region _ _ _ Hs b Hb) as (H0 & H1 & H2). pose proof (tiles_len _ _ _ _ (bi_tiles _ _ _ _ _ _ H0)).
  split; [|lia]. apply (sh_dom _ _ _ Hs) in Hb as [h Eh]. unfold block. by rewrite lookup_total_alt, Eh.
Qed.

Lemma add_sz : b_size (block s' pool) = sz /\ (0 < sz)%Z.
Proof.
  destruct Hin as [_ Hf]. rewrite (fr_size _ _ _ Hf). unfold block at 1. cbn. rewrite lookup_total_insert_eq. cbn.
  pose proof (tiles_len _ _ _ _ (bi_tiles _ _ _ _ _ _ HB)). split; [done|lia].
Qed.

(** The blocks' memory does not overlap, so the new one is not at the
    offset of an old one. *)
Lemma add_fresh : pool ∉ bl.
Proof. intros Hb. destruct (add_size pool Hb) as [E H0]. pose proof (Hap pool _ E). pose proof add_sz. lia. Qed.

Lemma add_view b : b ∈ bl -> block s' b = if decide (b = block_tail s) then set_block_next pool (block s b) else block s b.
Proof.
  intros Hb. assert (b <> pool) as Hne by (intros ->; by apply add_fresh). destruct Hin as [_ Hf].
  rewrite (frame_block _ _ _ _ Hf) by done. unfold linked. destruct (add_size b Hb) as [E _].
  unfold block at 1. cbn. rewrite lookup_total_insert_ne by done. rewrite lookup_total_alt.
  destruct (decide (b = block_tail s)) as [->|Hbt]; [by rewrite lookup_alter_eq, E|by rewrite lookup_alter_ne, E].
Qed.

Lemma add_some b : is_Some (blocks s' !! b) <-> b ∈ bl ++ [pool].
Proof.
  destruct Hin as [_ Hf]. rewrite (frame_blocks _ _ _ _ Hf). rewrite elem_of_app, list_elem_of_singleton, <- (sh_dom _ _ _ Hs).
  unfold linked. cbn. destruct (decide (b = pool)) as [->|Hne].
  - rewrite lookup_insert_eq. split; [by right|]. intros _. left. by eexists.
  - rewrite lookup_insert_ne, lookup_alter_is_Some by done. tauto.
Qed.

Lemma add_links : bseg (block s') 0 (bl ++ [pool]) 0.
Proof.
  pose proof (sh_tail _ _ _ Hs) as Ht. pose proof (sh_links _ _ _ Hs) as Hl. pose proof (sh_nodup _ _ _ Hs) as Hnd. pose proof add_view as Hv.
  apply bseg_app. split.
  - cbn [head from_option id]. apply last_Some in Ht as [l El]. rewrite El in Hl, Hnd, Hv |- *.
    apply NoDup_app in Hnd as (_ & Hd & _). apply bseg_app in Hl as [Hl1 Hl2]. apply bseg_app. split.
    + eapply bseg_ext; [|exact Hl1]. intros b Hb. rewrite Hv by (apply elem_of_app; auto). rewrite decide_False; [done|].
      intros ->. apply (Hd _ Hb). left.
    + cbn in Hl2 |- *. rewrite Hv, decide_True by (done || (apply elem_of_app; right; left)). cbn. tauto.
  - rewrite Ht. cbn. destruct Hin as [_ Hf]. rewrite (fr_prev _ _ _ Hf), (fr_next _ _ _ Hf). unfold block. cbn. by rewrite lookup_total_insert_eq.
Qed.

Lemma add_slot b a : b ∈ bl -> a ∈ r_slots (R b) -> slot s' a = slot s a.
Proof.
  intros Hb Ha. destruct Hin as [Hsl _]. rewrite Hsl; [done|]. destruct (sh_region _ _ _ Hs b Hb) as (H0 & H1 & H2).
  destruct (binv_in _ _ _ _ _ _ _ H0 Ha) as (Hr & _). destruct (add_size b Hb) as [E _]. destruct (Hap b _ E); lia.
Qed.

Lemma shape_add : shape s' (bl ++ [pool]) radd.
Proof.
  pose proof Hs as [S1 S2 S3 S4 S5 S6 S7]. pose proof add_fresh as Hfr. destruct add_sz as [Esz Hsz].
  assert (Est : forall b, b ∈ bl -> b_size (block s' b) = b_size (block s b) /\ b_used (block s' b) = b_used (block s b) /\
    freelists (block s' b) = freelists (block s b)) by (intros b Hb; rewrite add_view by done; by destruct (decide _)).
  split; [|apply NoDup_app|apply add_some|apply add_links| | |].
  - by destruct bl.
  - split; [done|]. split; [|apply NoDup_singleton]. intros x Hx ->%list_elem_of_singleton. done.
  - rewrite last_snoc. destruct Hin as [_ Hf]. by rewrite (fr_tail _ _ _ Hf).
  - intros b [Hb| ->%list_elem_of_singleton]%elem_of_app; unfold radd.
    + rewrite decide_False by congruence. destruct (S6 b Hb) as (H0 & H1 & H2). destruct (Est b Hb) as (E1 & E2 & E3).
      split; [|by rewrite E1]. eapply binv_same; [exact H0|apply add_some, elem_of_app; by left|done|done|done|].
      intros a Ha. by rewrite (add_slot b a Hb Ha).
    + rewrite decide_True by done. split; [done|]. cbn. rewrite Esz. lia.
  - intros b b' Hb Hb' Hne.
    assert (Hx : forall x, x ∈ bl -> (pool + sz <= x \/ x + b_size (block s' x) <= pool)%Z).
    { intros x Hx. destruct (Est x Hx) as [-> _]. apply Hap, (add_size x Hx). }
    apply elem_of_app in Hb as [Hb| ->%list_elem_of_singleton], Hb' as [Hb'| ->%list_elem_of_singleton]; try done.
    + destruct (Est b Hb) as [-> _], (Est b' Hb') as [-> _]. by apply S7.
    + destruct (Hx b Hb); rewrite Esz; lia.
    + destruct (Hx b' Hb'); rewrite Esz; lia.
Qed.

Lemma add_use : (forall a n, ~ in_use s' gl a n) -> same_use s bl R s' (bl ++ [pool]) radd.
Proof.
  intros Hno a n. pose proof add_fresh as Hfr.
  assert (Hiff : forall b, b ∈ bl -> in_use s' (r_slots (radd b)) a n <-> in_use s (r_slots (R b)) a n).
  { intros b Hb. unfold radd. rewrite decide_False by congruence. apply in_use_same. intros x Hx. by rewrite (add_slot b x Hb Hx). }
  split.
  - intros (b & [Hb| ->%list_elem_of_singleton]%elem_of_app & Hu); [exists b; split; [done|by apply Hiff]|].
    unfold radd in Hu. rewrite decide_True in Hu by done. by apply Hno in Hu.
  - intros (b & Hb & Hu). exists b. split; [apply elem_of_app; by left|by apply Hiff].
Qed.

End add.

End blocks.
