(* ===== verification/MempoolSpec.v ===== *)
(** * MempoolSpec: what the memory pool promises its clients

    A client owns the memory it has been given and not returned.  Whatever
    sequence of requests, releases and writes to its own memory it issues,
    no two of its pieces overlap and each lies in a block of the pool. *)

From S2P Require Import Prelude Mempool MempoolFacts MempoolOps MempoolSplit MempoolFill MempoolFree MempoolChain MempoolBlocks.
Set Warnings "-clear-no-such-hyp".

(** What the pool relies on: a block is as long as was asked for, no longer
    than what its slots can cover, and apart from the blocks in use.  Classes
    up to [largest_class] may be asked for. *)
Class PoolLaws {L : PoolLayout} {A : BlockAlloc} := {
  largest_class : nat;
  largest_class_ok : largest_class < cutOffNum;
  header_block : (0 < sizeof_block_header)%Z;
  header_pool : (0 < sizeof_mempool_type)%Z;
  newblock_ok s power off sz : power <= largest_class ->
    newblockfn s (2 * cut power + sizeof_block_header) = Some (off, sz) ->
    (0 < off)%Z /\ (2 * cut power + sizeof_block_header <= sz <= sizeof_block_header + cut 24)%Z /\
    forall b h, blocks s !! b = Some h -> (off + sz <= b \/ b + b_size h <= off)%Z
}.

(** ** The client *)

(** A write goes to the words of the header that are the client's, [prev]
    and [next] of its slot, or to memory behind them. *)
Inductive op := Malloc (size : Z) (expand : bool) | Free (ptr : Z) | Write (ptr addr : Z) (data : slot_header).

Section spec.
Context {U : Uninit} {L : PoolLayout} {A : BlockAlloc}.

Definition scribble (addr : Z) (data : slot_header) (s : mempool) : mempool :=
  upd_slot addr (fun h => set_sprev (sprev data) (set_snext (snext data) h)) s.

(** The pool and, for each pointer the client holds, the size it asked for. *)
Definition exec (o : op) (st : mempool * gmap Z Z) : outcome (mempool * gmap Z Z) :=
  let '(s, own) := st in
  match o with
  | Malloc size expand =>
      '(s, p) ← mempool_malloc size expand s;
      Normal (s, if (p =? 0)%Z then own else <[p := size]> own)
  | Free p =>
      match own !! p with
      | None => Normal (s, own)
      | Some _ => s ← mempool_free p s; Normal (s, delete p own)
      end
  | Write p addr data =>
      match own !! p with
      | None => Normal (s, own)
      | Some size =>
          if (addr =? p - sizeof_used_header)%Z then Normal (scribble addr data s, own)
          else if ((p - sizeof_used_header <? addr) && (addr <? p + size))%Z then Normal (put_slot addr data s, own)
          else Normal (s, own)
      end
  end.

Fixpoint run (ops : list op) (st : mempool * gmap Z Z) : outcome (mempool * gmap Z Z) :=
  match ops with
  | [] => Normal st
  | o :: ops => st ← exec o st; run ops st
  end.

(** The class of a request. *)
Definition class_of (size : Z) : nat := which_pow2 (size + sizeof_used_header).

Context {P : PoolLaws}.

(** Requests that the pool serves.  Where [limit] is set, blocks whose count
    is 0 are given back; the count does not see slots of class 0, so no
    request may be of that class. *)
Definition allowed (lim : Z) (o : op) : Prop :=
  match o with
  | Malloc size _ => (0 <= size)%Z /\ class_of size <= largest_class /\ (lim = 0%Z \/ (24 < size)%Z)
  | _ => True
  end.

(** ** Expansion *)

Lemma expand_spec power s bl R : shape s bl R -> power <= largest_class ->
  (limit s = 0%Z \/ forall a n, pool_use s bl R a n -> n <> 0) ->
  exists s' o bl' R', expand (cut power) s = Normal (s', o) /\ limit s' = limit s /\ shape s' bl' R' /\ same_use s bl R s' bl' R' /\
    match o with
    | None => exists t req, newblockfn t req = None
    | Some b => b ∈ bl' /\ exists i, power <= i < cutOffNum /\ r_lists (R' b) i <> []
    end.
Proof.
  intros Hs Hp Hl. unfold expand.
  assert (exists s1 bl1, (if (limit s <? mp_size s)%Z && (0 <? limit s)%Z then removeblocks s else Normal s) = Normal s1 /\
    shape s1 bl1 R /\ limit s1 = limit s /\ same_use s bl R s1 bl1 R) as (s1 & bl1 & -> & Hs1 & Hl1 & Hu1).
  { destruct (Z.ltb_spec 0 (limit s)); [|rewrite andb_false_r; by exists s, bl].
    rewrite andb_true_r. destruct (_ <? _)%Z; [|by exists s, bl]. apply removeblocks_spec; [done|]. destruct Hl; [lia|done]. }
  cbn [mbind outcome_bind].
  destruct (newblockfn s1 (2 * cut power + sizeof_block_header)) as [[pool sz]|] eqn:En;
    [|exists s1, None, bl1, R; do 4 (split; [done|]); eauto].
  destruct (newblock_ok s1 power pool sz Hp En) as (Hpos & Hsz & Hap). pose proof header_block as Hh. pose proof largest_class_ok as Hlc.
  pose proof (cut_pos power ltac:(lia)) as Hc. cbn zeta.
  change (mk_mempool _ _ pool _ _) with (linked pool sz (block_tail s1) s1).
  assert (block (linked pool sz (block_tail s1) s1) pool = mk_block sz 0 (block_tail s1) 0 []) as Eb.
  { unfold block, linked. cbn. by rewrite lookup_total_insert_eq. }
  destruct (fillblock_spec pool sz true (linked pool sz (block_tail s1) s1) sizeof_block_header) as
    (s2 & stop & gl & FL & -> & Hst & HB & Hin & Hno & Hav); [|done|lia|lia|lia|by rewrite Eb|by rewrite Eb|].
  { cbn. rewrite lookup_insert_eq. by eexists. }
  cbn [mbind outcome_bind]. exists s2, (Some pool), (bl1 ++ [pool]), (radd R pool sizeof_block_header stop gl FL). split; [done|].
  split; [by rewrite (fr_limit _ _ _ (proj2 Hin))|]. split; [by eapply shape_add|]. split.
  - intros a n. transitivity (pool_use s1 bl1 R a n); [|apply Hu1]. revert a n. by eapply add_use.
  - split; [apply elem_of_app; right; left|]. unfold radd. rewrite decide_True by done. apply Hav; lia.
Qed.

(** ** Requests *)

Lemma class_pos size : (24 < size)%Z -> class_of size <> 0.
Proof.
  intros Hs E. destruct (which_pow2_spec (size + sizeof_used_header)) as (_ & _ & H). fold (class_of size) in H. rewrite E in H.
  specialize (H ltac:(unfold cutOffNum; lia)). change (cut 0) with 64%Z in H. unfold sizeof_used_header in H. lia.
Qed.

Lemma class_room size : class_of size < cutOffNum -> (size + 40 <= cut (class_of size))%Z.
Proof. intros Hc. by destruct (which_pow2_spec (size + sizeof_used_header)) as (_ & _ & H); apply H. Qed.

(** A request is served, or there is no slot and no new block. *)
Lemma malloc_spec size e s bl R : shape s bl R -> (0 <= size)%Z -> class_of size <= largest_class ->
  (limit s = 0%Z \/ forall a n, pool_use s bl R a n -> n <> 0) ->
  exists s' p bl' R', mempool_malloc size e s = Normal (s', p) /\ limit s' = limit s /\ shape s' bl' R' /\
    if decide (p = 0%Z) then same_use s bl R s' bl' R' /\ (e = true -> exists t req, newblockfn t req = None)
    else (0 < p - 40)%Z /\ (forall m, ~ pool_use s bl R (p - 40) m) /\
      forall x n, pool_use s' bl' R' x n <-> pool_use s bl R x n \/ (x = p - 40 /\ n = class_of size)%Z.
Proof.
  intros Hs H0 Hc Hl. pose proof largest_class_ok as Hlc. pose proof (class_room size ltac:(lia)) as Hr.
  assert (Hcut : (cut (class_of size) <= 1073741824)%Z).
  { rewrite cut_pow by lia. unfold cutOffNum in Hlc. change 1073741824%Z with (64 * 2 ^ 24)%Z.
    apply Z.mul_le_mono_nonneg_l; [lia|]. apply Z.pow_le_mono_r; lia. }
  unfold mempool_malloc. assert (which_pow2 (u64 (size + sizeof_used_header)) = class_of size) as ->.
  { unfold class_of, u64, sizeof_used_header in *. by rewrite Z.mod_small by lia. }
  set (power := class_of size) in *. destruct (Nat.eqb_spec power cutOffNum) as [E|_]; [lia|].
  assert (Htake : forall s1 bl1 R1 b, shape s1 bl1 R1 -> b ∈ bl1 -> r_lists (R1 b) power <> [] -> limit s1 = limit s -> same_use s bl R s1 bl1 R1 ->
    exists s' p bl' R', Normal (take_slot power b s1) = Normal (s', p) /\ limit s' = limit s /\ shape s' bl' R' /\
    if decide (p = 0%Z) then same_use s bl R s' bl' R' /\ (e = true -> exists t req, newblockfn t req = None)
    else (0 < p - 40)%Z /\ (forall m, ~ pool_use s bl R (p - 40) m) /\
      forall x n, pool_use s' bl' R' x n <-> pool_use s bl R x n \/ (x = p - 40 /\ n = power)%Z).
  { intros s1 bl1 R1 b Hs1 Hb Hne El Hu. destruct (pool_take s1 bl1 R1 b power Hs1 Hb ltac:(lia) Hne) as (s' & a & R' & -> & Hs' & El' & Ha & Hno & Hu').
    exists s', (a + 40)%Z, bl1, R'. split; [done|]. split; [congruence|]. split; [done|]. rewrite decide_False by lia.
    replace (a + 40 - 40)%Z with a by lia. split; [done|]. split; [intros m Hm; by apply (Hno m), Hu|].
    intros x n. by rewrite Hu', (Hu x n). }
  pose proof (sh_first _ _ _ Hs) as Hh. destruct bl as [|b0 l]; [done|]. injection Hh as ->.
  rewrite (shape_size _ _ _ Hs).
  destruct (find_block_spec power (S (length (0%Z :: l))) s (0%Z :: l) R [] 0%Z l Hs eq_refl) as (s1 & o & -> & Ho); [cbn; lia|lia|].
  cbn [mbind outcome_bind]. destruct o as [b|].
  - destruct Ho as (Hb & El & R1 & Hs1 & Hu1 & Hne). by eapply Htake.
  - subst s1. destruct e; cbn [negb]; [|exists s, 0%Z, (0%Z :: l), R; rewrite decide_True by done; done].
    destruct (expand_spec power s _ R Hs Hc Hl) as (s2 & o & bl2 & R2 & -> & El & Hs2 & Hu2 & Ho). cbn [mbind outcome_bind].
    destruct o as [b|]; [|exists s2, 0%Z, bl2, R2; rewrite decide_True by done; done]. destruct Ho as (Hb & i & Hi & Hne).
    destruct (sh_region _ _ _ Hs2 b Hb) as (HB & _). pose proof (checkblock_spec power _ _ _ _ _ _ HB ltac:(lia)) as HC.
    destruct (checkblock power b s2) as [s3 ok]. destruct ok; [|destruct HC as [_ HC]; by rewrite HC in Hne].
    destruct HC as (gl' & FL' & HB' & Hin & Hne' & Hu). destruct (shape_update s2 s3 bl2 R2 b gl' FL' Hs2 Hb Hin HB') as [Hs3 Ho].
    apply (Htake s3 bl2 (rupd R2 b gl' FL') b Hs3 Hb); [unfold rupd; by rewrite decide_True|by rewrite (fr_limit _ _ _ (proj2 Hin))|].
    intros a n. rewrite (use_update s2 s3 bl2 R2 b gl' FL' _ Hs2 Hb Ho Hu), <- (Hu2 a n). symmetry. by apply pool_use_split.
Qed.

(** ** Writes *)

(** No slot starts inside a slot in use. *)
Lemma interior s bl R t n b x : shape s bl R -> pool_use s bl R t n -> b ∈ bl -> x ∈ r_slots (R b) -> ~ (t < x < t + cut n)%Z.
Proof.
  intros Hs (c & Hc & Ht & Hst & Hsz) Hb Hx Hlt. destruct (sh_region _ _ _ Hs c Hc) as (HB & H1 & H2).
  destruct (binv_in _ _ _ _ _ _ _ HB Ht) as (H3 & H4 & _). rewrite Hsz in H4. destruct (decide (c = b)) as [->|Hne].
  - destruct (tiles_disjoint _ _ _ _ t x (bi_tiles _ _ _ _ _ _ HB) Ht Hx) as [H5|H5]; [lia|rewrite Hsz in H5; lia|].
    destruct (binv_in _ _ _ _ _ _ _ HB Hx) as (_ & _ & H6 & _). pose proof (cut_pos _ H6). lia.
  - apply (region_apart s bl R c b x Hs Hc Hb Hne Hx). lia.
Qed.

(** A change of the words of the slots in use that belong to the client. *)
Lemma shape_slots s s' bl R : shape s bl R -> blocks s' = blocks s -> block_tail s' = block_tail s ->
  (forall b a, b ∈ bl -> a ∈ r_slots (R b) -> block_ptr (slot s' a) = block_ptr (slot s a) /\ slot_size (slot s' a) = slot_size (slot s a) /\
     status (slot s' a) = status (slot s a) /\ gprev (slot s' a) = gprev (slot s a) /\ gnext (slot s' a) = gnext (slot s a) /\
     (is_free s a -> sprev (slot s' a) = sprev (slot s a) /\ snext (slot s' a) = snext (slot s a))) ->
  shape s' bl R /\ same_use s bl R s' bl R.
Proof.
  intros Hs Eb Et Hsl. assert (Hb : forall x, block s' x = block s x) by (intros x; unfold block; by rewrite Eb).
  pose proof Hs as [S1 S2 S3 S4 S5 S6 S7]. split; [split; try done|].
  - intros b. by rewrite Eb.
  - eapply bseg_ext; [|exact S4]. intros b _. by rewrite Hb.
  - by rewrite Et.
  - intros b Hin. destruct (S6 b Hin) as (H0 & H1 & H2). split; [|by rewrite Hb].
    eapply binv_same; [exact H0|rewrite Eb; by apply S3|by rewrite Hb|by rewrite Hb|by rewrite Hb|]. intros a Ha. by apply (Hsl b).
  - intros b b'. rewrite !Hb. apply S7.
  - intros a n. unfold pool_use. split; intros (b & Hin & Hu); exists b; (split; [done|]); revert Hu; apply in_use_same; intros x Hx;
      destruct (Hsl b x Hin Hx) as (_ & ? & ? & _); done.
Qed.

Lemma scribble_spec s bl R t n data : shape s bl R -> pool_use s bl R t n ->
  shape (scribble t data s) bl R /\ same_use s bl R (scribble t data s) bl R.
Proof.
  intros Hs (c & _ & _ & Hst & _). apply shape_slots; [done..|]. intros b a Hb Ha. unfold scribble. rewrite slot_upd.
  destruct (decide (a = t)) as [->|]; [|done]. unfold is_free. cbn. rewrite Hst. done.
Qed.

Lemma put_spec s bl R t n x data : shape s bl R -> pool_use s bl R t n -> (t < x < t + cut n)%Z ->
  shape (put_slot x data s) bl R /\ same_use s bl R (put_slot x data s) bl R.
Proof.
  intros Hs Ht Hx. apply shape_slots; [done..|]. intros b a Hb Ha. rewrite slot_put. rewrite decide_False; [done|].
  intros ->. by apply (interior s bl R t n b x).
Qed.

(** ** The invariant of the pool and its client *)

Definition sized (lim size : Z) : Prop := (0 <= size)%Z /\ class_of size <= largest_class /\ (lim = 0%Z \/ (24 < size)%Z).

(** The slots in use are those that the client holds. *)
Record pinv (lim : Z) (s : mempool) (own : gmap Z Z) (bl : list Z) (R : Z -> region) : Prop := {
  pi_shape : shape s bl R;
  pi_limit : limit s = lim;
  pi_own x n : pool_use s bl R x n <-> exists size, own !! (x + 40)%Z = Some size /\ n = class_of size;
  pi_sized p size : own !! p = Some size -> sized lim size
}.

Lemma pinv_class lim s own bl R : pinv lim s own bl R -> limit s = 0%Z \/ forall a n, pool_use s bl R a n -> n <> 0.
Proof.
  intros Hp. rewrite (pi_limit _ _ _ _ _ Hp). destruct (decide (lim = 0%Z)) as [?|Hl]; [by left|]. right. intros a n (size & Eo & ->)%(pi_own _ _ _ _ _ Hp).
  apply (pi_sized _ _ _ _ _ Hp) in Eo as (_ & _ & [?|?]); [done|]. by apply class_pos.
Qed.

Lemma pinv_held lim s own bl R p size : pinv lim s own bl R -> own !! p = Some size -> pool_use s bl R (p - 40) (class_of size).
Proof. intros Hp Ho. apply (pi_own _ _ _ _ _ Hp). exists size. by replace (p - 40 + 40)%Z with p by lia. Qed.

Lemma pinv_same lim s own bl R s' : pinv lim s own bl R -> limit s' = limit s -> shape s' bl R /\ same_use s bl R s' bl R -> pinv lim s' own bl R.
Proof. intros [H1 H2 H3 H4] El [Hs Hu]. split; [done|congruence| |done]. intros x n. by rewrite (Hu x n). Qed.

Lemma exec_malloc lim s own bl R size e : pinv lim s own bl R -> sized lim size ->
  exists s' own' bl' R', exec (Malloc size e) (s, own) = Normal (s', own') /\ pinv lim s' own' bl' R'.
Proof.
  intros Hp Hz. pose proof Hp as [H1 H2 H3 H4]. pose proof Hz as (Hz0 & Hz1 & _).
  destruct (malloc_spec size e s bl R H1 Hz0 Hz1 (pinv_class _ _ _ _ _ Hp)) as (s' & p & bl' & R' & E & El & Hs' & Hu).
  cbn [exec]. rewrite E. cbn [mbind outcome_bind]. exists s', (if (p =? 0)%Z then own else <[p := size]> own), bl', R'. split; [done|].
  destruct (Z.eqb_spec p 0) as [->|Hne]; [rewrite decide_True in Hu by done|rewrite decide_False in Hu by done].
  - destruct Hu as [Hu _]. split; [done|congruence| |done]. intros x n. by rewrite (Hu x n).
  - destruct Hu as (Hp0 & Hno & Hu). split; [done|congruence| |].
    + intros x n. rewrite Hu. destruct (decide (x + 40 = p)%Z) as [<-|Hx].
      * rewrite lookup_insert_eq. replace (x + 40 - 40)%Z with x in * by lia. split; [|intros (z & [= <-] & ->); auto].
        intros [Hux|[_ ->]]; [by apply Hno in Hux|eauto].
      * rewrite lookup_insert_ne by done. rewrite H3. split; [|auto]. intros [?|[? _]]; [done|lia].
    + intros q z. destruct (decide (q = p)) as [->|Hq]; [rewrite lookup_insert_eq; by intros [= <-]|].
      rewrite lookup_insert_ne by done. apply H4.
Qed.

Lemma exec_free lim s own bl R p : pinv lim s own bl R ->
  exists s' own' R', exec (Free p) (s, own) = Normal (s', own') /\ pinv lim s' own' bl R'.
Proof.
  intros Hp. cbn [exec]. destruct (own !! p) as [size|] eqn:Eo; [|by exists s, own, R].
  pose proof Hp as [H1 H2 H3 H4]. pose proof (pinv_held _ _ _ _ _ _ _ Hp Eo) as Hu.
  destruct (pool_free s bl R _ _ H1 Hu) as (s' & R' & E & Hs' & El & Hu'). replace (p - 40 + 40)%Z with p in E by lia.
  rewrite E. cbn [mbind outcome_bind]. exists s', (delete p own), R'. split; [done|]. split; [done|congruence| |].
  - intros x n. rewrite Hu', H3. destruct (decide (x + 40 = p)%Z) as [<-|Hx].
    + rewrite lookup_delete_eq. split; [intros [_ []]; lia|by intros (? & ? & _)].
    + rewrite lookup_delete_ne by done. split; [tauto|]. intros ?. split; [done|lia].
  - intros q z [_ ?]%lookup_delete_Some. eauto.
Qed.

Lemma exec_write lim s own bl R p addr data : pinv lim s own bl R ->
  exists s', exec (Write p addr data) (s, own) = Normal (s', own) /\ pinv lim s' own bl R.
Proof.
  intros Hp. cbn [exec]. unfold sizeof_used_header. destruct (own !! p) as [size|] eqn:Eo; [|by exists s].
  pose proof (pinv_held _ _ _ _ _ _ _ Hp Eo) as Hu. pose proof (pi_shape _ _ _ _ _ Hp) as Hs.
  destruct (pi_sized _ _ _ _ _ Hp p size Eo) as (_ & Hc & _). pose proof largest_class_ok. pose proof (class_room size ltac:(lia)).
  destruct (Z.eqb_spec addr (p - 40)) as [->|Ha].
  - exists (scribble (p - 40) data s). split; [done|]. eapply pinv_same; [done|done|]. by eapply scribble_spec.
  - destruct (Z.ltb_spec (p - 40) addr); [|by exists s]. destruct (Z.ltb_spec addr (p + size)); [|by exists s].
    exists (put_slot addr data s). split; [done|]. eapply pinv_same; [done|done|]. eapply put_spec; [done|done|lia].
Qed.

Lemma run_pinv lim ops s own bl R : pinv lim s own bl R -> Forall (allowed lim) ops ->
  exists s' own' bl' R', run ops (s, own) = Normal (s', own') /\ pinv lim s' own' bl' R'.
Proof.
  revert s own bl R. induction ops as [|o ops IH]; intros s own bl R Hp Ha; [by exists s, own, bl, R|].
  apply Forall_cons in Ha as [Ho Ha]. cbn [run].
  assert (exists s1 own1 bl1 R1, exec o (s, own) = Normal (s1, own1) /\ pinv lim s1 own1 bl1 R1) as (s1 & own1 & bl1 & R1 & -> & Hp1).
  { destruct o as [size e|p|p addr data].
    - by apply (exec_malloc lim s own bl R).
    - destruct (exec_free lim s own bl R p Hp) as (? & ? & ? & ? & ?). eauto 10.
    - destruct (exec_write lim s own bl R p addr data Hp) as (? & ? & ?). eauto 10. }
  cbn [mbind outcome_bind]. by apply (IH s1 own1 bl1 R1).
Qed.

Lemma init_pinv pool_size lim : (64 + sizeof_mempool_type <= firstblockfn pool_size <= sizeof_mempool_type + cut 24)%Z ->
  exists s R, mempool_init pool_size lim = Normal s /\ pinv lim s ∅ [0%Z] R.
Proof.
  intros Hsz. unfold mempool_init. set (sz := firstblockfn pool_size) in *. set (s0 := mk_mempool _ _ _ _ _).
  pose proof header_pool as Hh. assert (block s0 0 = mk_block sz 0 0 0 []) as Eb.
  { unfold block, s0. cbn. by rewrite lookup_total_singleton_eq. }
  destruct (fillblock_spec 0 sz false s0 sizeof_mempool_type) as
    (s & stop & gl & FL & -> & Hst & HB & [Hsl Hf] & Hno & _); [|done|lia|lia|lia|by rewrite Eb|by rewrite Eb|].
  { unfold s0. cbn. rewrite lookup_singleton_eq. by eexists. }
  exists s, (fun _ => mk_region (0 + sizeof_mempool_type) stop gl FL). split; [done|]. split.
  - split.
    + done.
    + apply NoDup_singleton.
    + intros b. rewrite (frame_blocks _ _ _ _ Hf), list_elem_of_singleton. unfold s0. cbn. split.
      * intros [[h [<- _]%lookup_singleton_Some]|[-> _]]; done.
      * intros ->. left. rewrite lookup_singleton_eq. by eexists.
    + cbn. by rewrite (fr_prev _ _ _ Hf), (fr_next _ _ _ Hf), Eb.
    + cbn. by rewrite (fr_tail _ _ _ Hf).
    + intros b ->%list_elem_of_singleton. split; [exact HB|]. rewrite (fr_size _ _ _ Hf), Eb. cbn. lia.
    + intros b b' ->%list_elem_of_singleton ->%list_elem_of_singleton. done.
  - by rewrite (fr_limit _ _ _ Hf).
  - intros x n. split; [|by intros (? & ? & _)]. intros (b & _ & Hu). by apply Hno in Hu.
  - by intros p size.
Qed.

(** What the client holds lies in the blocks, and no two pieces overlap; the
    pieces come with the header in front of them. *)
Lemma pinv_apart lim s own bl R : pinv lim s own bl R ->
  (forall p size, own !! p = Some size -> exists b h, blocks s !! b = Some h /\ (b < p - 40)%Z /\ (p + size <= b + b_size h)%Z) /\
  (forall p q m n, own !! p = Some m -> own !! q = Some n -> p <> q -> (p + m <= q - 40 \/ q + n <= p - 40)%Z).
Proof.
  intros Hp. pose proof (pi_shape _ _ _ _ _ Hp) as Hs. pose proof largest_class_ok as Hlc.
  assert (Hroom : forall p m, own !! p = Some m -> (m + 40 <= cut (class_of m))%Z).
  { intros p m Ho. destruct (pi_sized _ _ _ _ _ Hp p m Ho) as (_ & ? & _). apply class_room. lia. }
  split.
  - intros p size Ho. destruct (pinv_held _ _ _ _ _ _ _ Hp Ho) as (b & Hb & Ha & _ & Hz). specialize (Hroom p size Ho).
    destruct (sh_region _ _ _ Hs b Hb) as (HB & H1 & H2). destruct (binv_in _ _ _ _ _ _ _ HB Ha) as (H3 & H4 & _). rewrite Hz in H4.
    destruct (add_size s bl R Hs b Hb) as [E _]. exists b, (block s b). split; [done|]. lia.
  - intros p q m n Hop Hoq Hne. pose proof (Hroom p m Hop). pose proof (Hroom q n Hoq).
    destruct (pinv_held _ _ _ _ _ _ _ Hp Hop) as (b & Hb & Hup). destruct (pinv_held _ _ _ _ _ _ _ Hp Hoq) as (b' & Hb' & Huq).
    pose proof (interior s bl R (p - 40) _ b' (q - 40) Hs (ex_intro _ b (conj Hb Hup)) Hb' (proj1 Huq)).
    pose proof (interior s bl R (q - 40) _ b (p - 40) Hs (ex_intro _ b' (conj Hb' Huq)) Hb (proj1 Hup)). lia.
Qed.

End spec.

(** ** The pool *)


(** *** An allocator that puts each block behind the others *)

Definition blocks_end (s : mempool) : Z := map_fold (fun b h m => Z.max (b + b_size h) m) 1%Z (blocks s).

#[local] Instance example_layout : PoolLayout := {| sizeof_block_header := 256; sizeof_mempool_type := 296 |}.
#[local] Instance example_alloc : BlockAlloc := {| firstblockfn := fun n => n; newblockfn := fun s n => Some (blocks_end s, n) |}.
#[local] Instance example_uninit : Uninit := 0%Z.

Lemma blocks_end_spec s : (0 < blocks_end s)%Z /\ forall b h, blocks s !! b = Some h -> (b + b_size h <= blocks_end s)%Z.
Proof.
  unfold blocks_end. apply (map_fold_weak_ind (fun r m => (0 < r)%Z /\ forall b h, m !! b = Some h -> (b + b_size h <= r)%Z)).
  - split; [lia|]. intros b h E. by rewrite lookup_empty in E.
  - intros b h m r Hn [H1 H2]. split; [lia|]. intros b' h' [[-> ->]|[_ E]]%lookup_insert_Some; [lia|]. specialize (H2 b' h' E). lia.
Qed.

#[local] Instance example_laws : PoolLaws.
Proof.
  refine {| largest_class := 23 |}; [unfold cutOffNum; lia|done|done|]. intros s power off sz Hp [= <- <-]. cbn.
  destruct (blocks_end_spec s) as [H1 H2]. split; [done|]. split.
  - split; [lia|]. rewrite (cut_pow power) by (unfold cutOffNum; lia). change (cut 24) with (2 * (64 * 2 ^ 23))%Z.
    pose proof (Z.pow_le_mono_r 2 (Z.of_nat power) 23). lia.
  - intros b h E. right. by apply H2.
Defined.


(** Without the condition on small requests the pool hands out the same
    memory twice: a slot of class 0 adds 0 to the count of its block, which
    is then given back while its slots are held. *)
Example small_requests_given_twice :
  match (s0 ← mempool_init 360 1; run [Malloc 16 true; Malloc 16 true] (s0, ∅)) with
  | Normal (s, own) => match mempool_malloc 500 true s with Normal (_, p) => own !! p | Aborted => None end
  | Aborted => None
  end = Some 16%Z.
Proof. vm_compute. reflexivity. Qed.
