(* ===== verification/TaskQueue.v ===== *)
(** * TaskQueue: the work-stealing queue of tasks (taskqueue.h)

    The thread that owns the queue pushes and pops at the tail; other threads
    steal at the head.  Every access to the shared words is one step of the
    thread that makes it: [Q->head] is read and written by compare-and-swap
    by all, [Q->tail] and [Q->data] are written by the owner alone.  The
    fences of the code are full ones ([__sync_synchronize]), so the accesses
    of a thread happen in the order of its program. *)

From S2P Require Import Prelude.

Definition TaskQueueSize : Z := 1024.

Record TaskQueueStruct := mk_taskq { q_head : Z; q_tail : Z; q_data : list ptr }.

Definition set_head (h : Z) (Q : TaskQueueStruct) : TaskQueueStruct := mk_taskq h (q_tail Q) (q_data Q).
Definition set_tail (t : Z) (Q : TaskQueueStruct) : TaskQueueStruct := mk_taskq (q_head Q) t (q_data Q).

(** [Q->data[i % TaskQueueSize]] *)
Definition cell (i : Z) : nat := Z.to_nat (Z.rem i TaskQueueSize).
Definition task_at (Q : TaskQueueStruct) (i : Z) : ptr := q_data Q !!! cell i.

Definition TaskQueueCreate `{Uninit} : TaskQueueStruct :=
  mk_taskq 0 0 (replicate (Z.to_nat TaskQueueSize) uninit_word).

(** ** The owner *)

(** Where the owner is in [TaskQueuePush] and [TaskQueuePop]. *)
Inductive owner_pc :=
  | OIdle
  | OPush (data : ptr)      (** about to write [data] *)
  | OPushed (data : ptr)    (** before [Q->tail += 1] *)
  | OPop                    (** before [Q->tail = Q->tail - 1] *)
  | OPopHead (t : Z)        (** before [h = Q->head] *)
  | OPopTest (t h : Z)      (** before the comparisons *)
  | OPopCas (t h : Z)       (** before the compare-and-swap *)
  | OPopTake (t : Z).       (** the compare-and-swap succeeded *)

(** One access; [Some r] when the call returns [r] ([NULL] for a push). *)
Definition TaskQueuePush (data : ptr) (Q : TaskQueueStruct) : TaskQueueStruct * owner_pc :=
  (mk_taskq (q_head Q) (q_tail Q) (<[cell (q_tail Q) := data]> (q_data Q)), OPushed data).

Definition TaskQueuePush_tail (Q : TaskQueueStruct) : TaskQueueStruct := set_tail (q_tail Q + 1) Q.

Definition TaskQueuePop (pc : owner_pc) (Q : TaskQueueStruct) : TaskQueueStruct * owner_pc * option ptr :=
  match pc with
  | OPop => let t := (q_tail Q - 1)%Z in (set_tail t Q, OPopHead t, None)
  | OPopHead t => (Q, OPopTest t (q_head Q), None)
  | OPopTest t h =>
      if (h <? t)%Z then (Q, OIdle, Some (task_at Q t))
      else if (t <? h)%Z then (set_tail h Q, OIdle, Some NULL)
      else (set_tail (h + 1) Q, OPopCas t h, None)
  | OPopCas t h =>
      if (q_head Q =? h)%Z then (set_head (h + 1) Q, OPopTake t, None) else (Q, OIdle, Some NULL)
  | OPopTake t => (Q, OIdle, Some (task_at Q t))
  | _ => (Q, pc, None)
  end.

(** ** The thieves *)

Inductive thief_pc :=
  | TIdle
  | TSteal               (** before [h = Q->head] *)
  | TTail (h : Z)        (** before [t = Q->tail] and the comparison *)
  | TCas (h : Z)         (** before the compare-and-swap *)
  | TTake (h : Z).       (** the compare-and-swap succeeded *)

#[global] Instance thief_pc_eq : EqDecision thief_pc.
Proof. solve_decision. Defined.

Definition TaskQueueSteal (pc : thief_pc) (Q : TaskQueueStruct) : TaskQueueStruct * thief_pc * option ptr :=
  match pc with
  | TIdle => (Q, TIdle, None)
  | TSteal => (Q, TTail (q_head Q), None)
  | TTail h => if (q_tail Q <=? h)%Z then (Q, TIdle, Some NULL) else (Q, TCas h, None)
  | TCas h => if (q_head Q =? h)%Z then (set_head (h + 1) Q, TTake h, None) else (Q, TSteal, None)
  | TTake h => (Q, TIdle, Some (task_at Q h))
  end.

(** ** The machine: one owner and a number of thieves

    [pushed] and [taken] record the tasks that have entered the queue and
    those that calls have returned. *)

Record machine := mk_machine {
  queue : TaskQueueStruct;
  owner : owner_pc;
  thieves : list thief_pc;
  pushed : list ptr;
  taken : list ptr
}.

Definition result (r : option ptr) (l : list ptr) : list ptr :=
  match r with Some p => if (p =? NULL)%Z then l else p :: l | None => l end.

Inductive event := EPush (data : ptr) | EPop | EOwner | ESteal (i : nat) | EThief (i : nat).

(** The next step of a thread; a call can start only when its thread is
    idle, and tasks are not null. *)
Definition fire (e : event) (m : machine) : option machine :=
  match e with
  | EPush d =>
      match owner m with
      | OIdle => if (d =? NULL)%Z then None else Some (mk_machine (queue m) (OPush d) (thieves m) (pushed m) (taken m))
      | _ => None
      end
  | EPop =>
      match owner m with OIdle => Some (mk_machine (queue m) OPop (thieves m) (pushed m) (taken m)) | _ => None end
  | EOwner =>
      match owner m with
      | OIdle => None
      | OPush d =>
          let '(Q, pc) := TaskQueuePush d (queue m) in Some (mk_machine Q pc (thieves m) (pushed m) (taken m))
      | OPushed d => Some (mk_machine (TaskQueuePush_tail (queue m)) OIdle (thieves m) (d :: pushed m) (taken m))
      | pc =>
          let '(Q, pc, r) := TaskQueuePop pc (queue m) in
          Some (mk_machine Q pc (thieves m) (pushed m) (result r (taken m)))
      end
  | ESteal i =>
      match thieves m !! i with
      | Some TIdle => Some (mk_machine (queue m) (owner m) (<[i := TSteal]> (thieves m)) (pushed m) (taken m))
      | _ => None
      end
  | EThief i =>
      match thieves m !! i with
      | Some TIdle | None => None
      | Some pc =>
          let '(Q, pc, r) := TaskQueueSteal pc (queue m) in
          Some (mk_machine Q (owner m) (<[i := pc]> (thieves m)) (pushed m) (result r (taken m)))
      end
  end.

Fixpoint fires (es : list event) (m : machine) : option machine :=
  match es with
  | [] => Some m
  | e :: es => m ← fire e m; fires es m
  end.

Definition initial `{Uninit} (n : nat) : machine := mk_machine TaskQueueCreate OIdle (replicate n TIdle) [] [].

(** There is room for a push: the cell at the tail is neither in the queue
    nor about to be read by a thief that has won its task. *)
Definition room (m : machine) : Prop :=
  match owner m with
  | OPush _ => (q_tail (queue m) - q_head (queue m) < TaskQueueSize)%Z /\
      forall i h, thieves m !! i = Some (TTake h) -> (q_tail (queue m) - h < TaskQueueSize)%Z
  | _ => True
  end.

(** Runs in which every push finds room. *)
Inductive reach `{Uninit} (n : nat) : machine -> Prop :=
  | reach_initial : reach n (initial n)
  | reach_fire m e m' : reach n m -> room m -> fire e m = Some m' -> reach n m'.

(** ** The tasks that are in the queue *)

(** The end of the window of tasks that nobody has won: while the owner is
    in a pop, the task at the tail may still go to a thief. *)
Definition bound (m : machine) : Z :=
  match owner m with
  | OPopHead t => t + 1
  | OPopTest t h => if (h <? t)%Z then t else t + 1
  | _ => q_tail (queue m)
  end.

Definition window (m : machine) : list ptr := task_at (queue m) <$> seqZ (q_head (queue m)) (bound m - q_head (queue m)).

(** Tasks that a call has won and will return. *)
Definition owner_won (m : machine) : list ptr :=
  match owner m with
  | OPopTest t h => if (h <? t)%Z then [task_at (queue m) t] else []
  | OPopTake t => [task_at (queue m) t]
  | _ => []
  end.

Definition thief_won (Q : TaskQueueStruct) (pc : thief_pc) : list ptr :=
  match pc with TTake h => [task_at Q h] | _ => [] end.

Definition won (m : machine) : list ptr := owner_won m ++ (thieves m ≫= thief_won (queue m)).

Record inv (m : machine) : Prop := {
  inv_len : length (q_data (queue m)) = Z.to_nat TaskQueueSize;
  inv_head : (0 <= q_head (queue m) <= bound m)%Z;
  inv_owner : match owner m with
    | OPush d => d <> NULL
    | OPushed d => d <> NULL /\ task_at (queue m) (q_tail (queue m)) = d
    | OPopHead t => q_tail (queue m) = t
    | OPopTest t h => q_tail (queue m) = t /\ (0 <= h <= q_head (queue m))%Z /\ (t <= h -> h <= t + 1)%Z
    | OPopCas t h => t = h /\ (0 <= h <= q_head (queue m))%Z /\ q_tail (queue m) = (h + 1)%Z
    | OPopTake t => q_head (queue m) = (t + 1)%Z /\ q_tail (queue m) = (t + 1)%Z /\ (0 <= t)%Z
    | _ => True
    end;
  inv_thief i pc : thieves m !! i = Some pc ->
    match pc with
    | TTail h => (0 <= h <= q_head (queue m))%Z
    | TCas h => (0 <= h <= q_head (queue m))%Z /\ (h = q_head (queue m) -> h < bound m)%Z
    | TTake h => (0 <= h < q_head (queue m))%Z
    | _ => True
    end;
  inv_nonnull p : p ∈ pushed m -> p <> NULL;
  inv_tasks : pushed m ≡ₚ taken m ++ won m ++ window m
}.
