(* ===== verification/TaskQueueFacts.v ===== *)
(** * TaskQueueFacts: every task is taken once

    The invariant of the work-stealing queue is preserved by every step of
    the owner and of the thieves. *)

From S2P Require Import Prelude TaskQueue.
From stdpp Require Import list_tactics.
Set Warnings "-clear-no-such-hyp".
#[local] Open Scope Z_scope.

(** ** Cells and windows *)

Lemma cell_ne i t : 0 <= i < t -> t - i < TaskQueueSize -> cell i <> cell t.
Proof.
  intros Hi Ht E. unfold cell, TaskQueueSize in *. rewrite !Z.rem_mod_nonneg in E by lia.
  apply Z2Nat.inj in E; try (apply Z.mod_pos_bound; lia).
  pose proof (Z.div_mod i 1024). pose proof (Z.div_mod t 1024). lia.
Qed.

Lemma cell_lt i : 0 <= i -> (cell i < Z.to_nat TaskQueueSize)%nat.
Proof.
  intros Hi. unfold cell, TaskQueueSize. rewrite Z.rem_mod_nonneg by lia. pose proof (Z.mod_pos_bound i 1024). lia.
Qed.

Lemma window_snoc Q h b : h <= b -> task_at Q <$> seqZ h (b + 1 - h) = (task_at Q <$> seqZ h (b - h)) ++ [task_at Q b].
Proof.
  intros Hb. replace (b + 1 - h) with ((b - h) + 1) by lia. rewrite seqZ_app, fmap_app by lia.
  replace (h + (b - h)) with b by lia. done.
Qed.

Lemma window_cons Q h b : h < b -> task_at Q <$> seqZ h (b - h) = task_at Q h :: (task_at Q <$> seqZ (h + 1) (b - (h + 1))).
Proof. intros Hb. rewrite seqZ_cons by lia. cbn. repeat f_equal; lia. Qed.

(** The steps of one thief change one term of what the thieves have won. *)
Lemma bind_update {A B} (f : A -> list B) l i x y : l !! i = Some x -> (<[i := y]> l ≫= f) ++ f x ≡ₚ (l ≫= f) ++ f y.
Proof.
  intros Hi. rewrite <- (take_drop_middle l i x Hi) at 2. apply lookup_lt_Some in Hi as Hlt.
  rewrite insert_take_drop by done. rewrite !bind_app, !bind_cons. solve_Permutation.
Qed.

Lemma lookup_update {A} (l : list A) i j x y : <[i := x]> l !! j = Some y -> (j = i /\ y = x) \/ (j <> i /\ l !! j = Some y).
Proof. intros [(-> & -> & _)|[? ?]]%list_lookup_insert_Some; auto. Qed.

(** A store at the tail is in none of the cells that are in use. *)
Lemma task_at_store Q d i : 0 <= i < q_tail Q -> q_tail Q - i < TaskQueueSize ->
  task_at (TaskQueuePush d Q).1 i = task_at Q i.
Proof. intros Hi Ht. unfold task_at. cbn. apply list_lookup_total_insert_ne. intros E. by apply (cell_ne i (q_tail Q)). Qed.

(** ** What a state says about its tasks *)

Lemma bound_tail m : inv m -> q_tail (queue m) <= bound m.
Proof.
  intros Hi. pose proof (inv_owner m Hi) as Ho. unfold bound. destruct (owner m); try lia.
  destruct (Z.ltb_spec h t); lia.
Qed.

(** Tasks that are won or in the window are not null. *)
Lemma live_nonnull m p : inv m -> p ∈ won m ++ window m -> p <> NULL.
Proof. intros Hi Hp. apply (inv_nonnull m Hi). rewrite (inv_tasks m Hi). apply elem_of_app. auto. Qed.

Lemma result_some p l : p <> NULL -> result (Some p) l = p :: l.
Proof. intros Hp. cbn. by destruct (Z.eqb_spec p NULL). Qed.

(** ** Preservation *)

(** Steps of a thief that win or return nothing. *)
Lemma inv_thief_quiet m i pc pc' : inv m -> thieves m !! i = Some pc -> thief_won (queue m) pc = thief_won (queue m) pc' ->
  match pc' with
  | TTail h => 0 <= h <= q_head (queue m)
  | TCas h => 0 <= h <= q_head (queue m) /\ (h = q_head (queue m) -> h < bound m)
  | TTake h => 0 <= h < q_head (queue m)
  | _ => True
  end ->
  inv (mk_machine (queue m) (owner m) (<[i := pc']> (thieves m)) (pushed m) (taken m)).
Proof.
  intros [I1 I2 I3 I4 I5 I6] Hp Ew Hok. split; try done.
  - intros j q [[-> ->]|[_ Hq]]%lookup_update; [done|]. by apply (I4 j).
  - etrans; [exact I6|]. unfold won, owner_won, window, bound. cbn [queue owner thieves].
    pose proof (bind_update (thief_won (queue m)) (thieves m) i pc pc' Hp) as Hb. rewrite Ew in Hb.
    apply Permutation_app_inv_r in Hb. by rewrite Hb.
Qed.

Lemma inv_thief_step m i pc : inv m -> thieves m !! i = Some pc -> pc <> TIdle ->
  let '(Q, pc', r) := TaskQueueSteal pc (queue m) in
  inv (mk_machine Q (owner m) (<[i := pc']> (thieves m)) (pushed m) (result r (taken m))).
Proof.
  intros Hi Hp Hne. pose proof Hi as [I1 I2 I3 I4 I5 I6]. pose proof (I4 i pc Hp) as Hok. destruct pc as [| |h|h|h]; [done|..]; cbn [TaskQueueSteal].
  - apply (inv_thief_quiet m i TSteal); try done. lia.
  - destruct (Z.leb_spec (q_tail (queue m)) h); [by apply (inv_thief_quiet m i (TTail h))|].
    apply (inv_thief_quiet m i (TTail h)); try done. split; [done|]. pose proof (bound_tail m Hi). lia.
  - destruct (Z.eqb_spec (q_head (queue m)) h) as [<-|]; [|by apply (inv_thief_quiet m i (TCas h))].
    destruct Hok as [Hh Hb]. specialize (Hb eq_refl). cbn [result]. set (h := q_head (queue m)) in *.
    assert (Eb : bound (mk_machine (set_head (h + 1) (queue m)) (owner m) (<[i := TTake h]> (thieves m)) (pushed m) (taken m)) = bound m) by done.
    split; try done.
    + rewrite Eb. cbn. lia.
    + cbn [queue owner thieves]. clear Eb. unfold bound in Hb. destruct (owner m); cbn; try done; lia.
    + intros j q [[-> ->]|[_ Hq]]%lookup_update; [cbn; lia|]. apply I4 in Hq. rewrite Eb. destruct q; cbn; lia.
    + etrans; [exact I6|]. unfold won, window. rewrite Eb. fold h. rewrite window_cons by done. cbn [queue owner thieves q_head set_head].
      pose proof (bind_update (thief_won (queue m)) (thieves m) i (TCas h) (TTake h) Hp) as Hbu. cbn [thief_won] in Hbu. rewrite app_nil_r in Hbu.
      change (thief_won (set_head (h + 1) (queue m))) with (thief_won (queue m)). rewrite Hbu.
      change (owner_won (mk_machine _ _ _ _ _)) with (owner_won m). change (task_at (set_head (h + 1) (queue m))) with (task_at (queue m)).
      cbn [taken result]. solve_Permutation.
  - pose proof (bind_update (thief_won (queue m)) (thieves m) i (TTake h) TIdle Hp) as Hbu. cbn [thief_won] in Hbu. rewrite app_nil_r in Hbu.
    rewrite result_some.
    + split; try done.
      * intros j q [[-> ->]|[_ Hq]]%lookup_update; [done|]. by apply (I4 j).
      * etrans; [exact I6|]. unfold won, owner_won, window, bound. cbn [queue owner thieves taken]. rewrite <- Hbu. solve_Permutation.
    + apply (live_nonnull m _ Hi). unfold won. rewrite <- Hbu. set_solver.
Qed.

(** Steps of the owner that leave the data alone: what is won and the window
    change together. *)
Lemma inv_owner_step m Q pc tk : inv m -> q_data Q = q_data (queue m) -> q_head (queue m) <= q_head Q ->
  let m' := mk_machine Q pc (thieves m) (pushed m) tk in
  0 <= q_head Q <= bound m' ->
  match pc with
  | OPush d => d <> NULL
  | OPushed d => d <> NULL /\ task_at Q (q_tail Q) = d
  | OPopHead t => q_tail Q = t
  | OPopTest t h => q_tail Q = t /\ 0 <= h <= q_head Q /\ (t <= h -> h <= t + 1)
  | OPopCas t h => t = h /\ 0 <= h <= q_head Q /\ q_tail Q = h + 1
  | OPopTake t => q_head Q = t + 1 /\ q_tail Q = t + 1 /\ 0 <= t
  | _ => True
  end ->
  (forall h, h <= q_head (queue m) -> h = q_head Q -> h < bound m -> h < bound m') ->
  taken m ++ owner_won m ++ window m ≡ₚ tk ++ owner_won m' ++ window m' ->
  inv m'.
Proof.
  intros Hi Ed Eh m' Hb Ho Hc Hp. pose proof Hi as [I1 I2 I3 I4 I5 I6].
  assert (Et : forall i, task_at Q i = task_at (queue m) i) by (intros i; unfold task_at; by rewrite Ed).
  split; try done.
  - cbn. by rewrite Ed.
  - intros i pc' Hpc. apply I4 in Hpc. unfold m'. cbn [queue]. destruct pc'; try lia. split; [lia|]. intros Hh. apply Hc; lia.
  - etrans; [exact I6|]. unfold won at 1. change (won m') with (owner_won m' ++ (thieves m ≫= thief_won Q)).
    assert ((thieves m ≫= thief_won Q) = (thieves m ≫= thief_won (queue m))) as ->.
    { apply list_bind_ext; [|done]. intros [| | | |h]; cbn; by rewrite ?Et. }
    transitivity ((thieves m ≫= thief_won (queue m)) ++ (taken m ++ owner_won m ++ window m)); [solve_Permutation|].
    rewrite Hp. cbn [taken m']. solve_Permutation.
Qed.

Lemma window_owner Q pc th pu tk : window (mk_machine Q pc th pu tk) =
  task_at Q <$> seqZ (q_head Q) (bound (mk_machine Q pc th pu tk) - q_head Q).
Proof. done. Qed.

(** The store of a push. *)
Lemma inv_store m d : inv m -> owner m = OPush d -> room m ->
  inv (mk_machine (TaskQueuePush d (queue m)).1 (OPushed d) (thieves m) (pushed m) (taken m)).
Proof.
  intros Hi Ho Hr. pose proof Hi as [I1 I2 I3 I4 I5 I6]. unfold room in Hr. rewrite Ho in Hr, I3. destruct Hr as [Hr1 Hr2].
  assert (Eb : bound m = q_tail (queue m)) by (unfold bound; by rewrite Ho). rewrite Eb in I2.
  split; try done.
  - cbn. by rewrite length_insert.
  - split; [done|]. unfold task_at. cbn. apply list_lookup_total_insert_eq. rewrite I1. apply cell_lt. lia.
  - intros i pc Hpc. apply I4 in Hpc. by rewrite Eb in Hpc.
  - etrans; [exact I6|]. unfold won, window, owner_won. rewrite Ho, Eb. cbn [owner queue thieves taken app bound].
    assert ((thieves m ≫= thief_won (TaskQueuePush d (queue m)).1) = (thieves m ≫= thief_won (queue m))) as ->.
    { generalize Hr2 I4. generalize (thieves m). intros l H2 H4. induction l as [|pc l IH]; [done|]. rewrite !bind_cons. f_equal.
      - destruct pc as [| | | |h]; try done. cbn [thief_won]. specialize (H2 0%nat h eq_refl). specialize (H4 0%nat _ eq_refl). cbn in H4.
        rewrite task_at_store; [done|lia|lia].
      - apply IH; [intros i h Hh; by apply (H2 (S i))|]. intros i q Hq. by apply (H4 (S i)). }
    assert ((task_at (TaskQueuePush d (queue m)).1 <$> seqZ (q_head (queue m)) (q_tail (queue m) - q_head (queue m))) =
            (task_at (queue m) <$> seqZ (q_head (queue m)) (q_tail (queue m) - q_head (queue m)))) as E; [|cbn in E |- *; by rewrite E].
    apply list_fmap_ext. intros i x [-> Hx]%lookup_seqZ. apply task_at_store; lia.
Qed.

Lemma inv_pop_step m pc : inv m -> owner m = pc -> match pc with OPop | OPopHead _ | OPopTest _ _ | OPopCas _ _ | OPopTake _ => True | _ => False end ->
  let '(Q, pc', r) := TaskQueuePop pc (queue m) in inv (mk_machine Q pc' (thieves m) (pushed m) (result r (taken m))).
Proof.
  intros Hi Ho Hpc. pose proof Hi as [I1 I2 I3 I4 I5 I6]. rewrite Ho in I3.
  assert (Hnn : forall p, p ∈ owner_won m -> p <> NULL).
  { intros p Hp. apply (live_nonnull m p Hi). unfold won. rewrite !elem_of_app. auto. }
  unfold bound in I2. rewrite Ho in I2.
  destruct pc as [| | | |t|t h|t h|t]; try done; cbn [TaskQueuePop].
  - apply inv_owner_step; try done; cbn; try lia.
    + intros h _ -> Hh. unfold bound in Hh. rewrite Ho in Hh. lia.
    + unfold window, owner_won, bound. rewrite Ho. cbn. by replace (q_tail (queue m) - 1 + 1) with (q_tail (queue m)) by lia.
  - apply inv_owner_step; try done; cbn.
    + destruct (Z.ltb_spec (q_head (queue m)) t); lia.
    + lia.
    + intros h _ -> Hh. unfold bound in Hh. rewrite Ho in Hh. destruct (Z.ltb_spec (q_head (queue m)) t); lia.
    + unfold window, owner_won, bound. rewrite Ho. cbn. destruct (Z.ltb_spec (q_head (queue m)) t) as [Hlt|Hlt]; [|done].
      rewrite window_snoc by lia. solve_Permutation.
  - destruct I3 as (Et & Hh & Hth). destruct (Z.ltb_spec h t) as [Hlt|Hlt]; [|destruct (Z.ltb_spec t h) as [Hlt2|Hlt2]].
    + assert (Ew : owner_won m = [task_at (queue m) t]) by (unfold owner_won; rewrite Ho; by destruct (Z.ltb_spec h t); [|lia]).
      rewrite result_some by (apply Hnn; rewrite Ew; left).
      apply inv_owner_step; try done; cbn; try lia.
      * intros x _ -> Hx. unfold bound in Hx. rewrite Ho in Hx. destruct (Z.ltb_spec h t); lia.
      * rewrite Ew. unfold window, owner_won, bound. rewrite Ho. destruct (Z.ltb_spec h t); [|lia]. cbn. rewrite Et. solve_Permutation.
    + apply inv_owner_step; try done; cbn; try lia.
      * intros x _ -> Hx. unfold bound in Hx. rewrite Ho in Hx. destruct (Z.ltb_spec h t); lia.
      * unfold window, owner_won, bound. rewrite Ho. destruct (Z.ltb_spec h t); [lia|]. cbn. by replace (t + 1) with h by lia.
    + apply inv_owner_step; try done; cbn; try lia.
      * intros x _ -> Hx. unfold bound in Hx. rewrite Ho in Hx. destruct (Z.ltb_spec h t); lia.
      * unfold window, owner_won, bound. rewrite Ho. destruct (Z.ltb_spec h t); [lia|]. cbn. by replace (t + 1) with (h + 1) by lia.
  - destruct I3 as (-> & Hh & Et). destruct (Z.eqb_spec (q_head (queue m)) h) as [E|E].
    + apply inv_owner_step; try done; cbn; try lia.
      unfold window, owner_won, bound. rewrite Ho. cbn. rewrite Et, E, window_cons by lia. done.
    + apply inv_owner_step; try done; cbn; try lia.
      * intros x _ -> Hx. unfold bound in Hx. rewrite Ho in Hx. lia.
      * unfold window, owner_won, bound. by rewrite Ho.
  - assert (Ew : owner_won m = [task_at (queue m) t]) by (unfold owner_won; by rewrite Ho).
    rewrite result_some by (apply Hnn; rewrite Ew; left).
    apply inv_owner_step; try done; cbn; try lia.
    + intros x _ -> Hx. unfold bound in Hx. rewrite Ho in Hx. lia.
    + rewrite Ew. unfold window, owner_won, bound. rewrite Ho. cbn. solve_Permutation.
Qed.

Lemma inv_pushed m d : inv m -> owner m = OPushed d ->
  inv (mk_machine (TaskQueuePush_tail (queue m)) OIdle (thieves m) (d :: pushed m) (taken m)).
Proof.
  intros Hi Ho. pose proof Hi as [I1 I2 I3 I4 I5 I6]. rewrite Ho in I3. destruct I3 as [Hd Ht].
  assert (Eb : bound m = q_tail (queue m)) by (unfold bound; by rewrite Ho). rewrite Eb in I2.
  split; try done.
  - cbn. lia.
  - intros i pc Hpc. apply I4 in Hpc. rewrite Eb in Hpc. destruct pc; cbn; try done. lia.
  - intros p [->|Hp]%elem_of_cons; auto.
  - etrans; [exact (perm_skip d I6)|]. unfold won, window, owner_won. rewrite Ho, Eb. cbn [bound owner queue thieves taken].
    change (q_tail (TaskQueuePush_tail (queue m))) with (q_tail (queue m) + 1).
    change (q_head (TaskQueuePush_tail (queue m))) with (q_head (queue m)).
    change (task_at (TaskQueuePush_tail (queue m))) with (task_at (queue m)).
    change (thief_won (TaskQueuePush_tail (queue m))) with (thief_won (queue m)).
    rewrite window_snoc, Ht by lia. solve_Permutation.
Qed.

Lemma inv_fire m e m' : inv m -> room m -> fire e m = Some m' -> inv m'.
Proof.
  intros Hi Hr. pose proof Hi as [I1 I2 I3 I4 I5 I6]. unfold bound in I2. destruct e as [d| | |i|i]; cbn [fire].
  - destruct (owner m) eqn:Ho; try done. destruct (Z.eqb_spec d NULL) as [|Hd]; [done|]. intros [= <-].
    apply inv_owner_step; try done; unfold window, owner_won, bound; rewrite Ho; cbn; lia || done.
  - destruct (owner m) eqn:Ho; try done. intros [= <-].
    apply inv_owner_step; try done; unfold window, owner_won, bound; rewrite Ho; cbn; lia || done.
  - destruct (owner m) eqn:Ho; try done.
    + intros [= <-]. by apply inv_store.
    + intros [= <-]. by apply inv_pushed.
    + pose proof (inv_pop_step m _ Hi Ho I) as H. by destruct (TaskQueuePop _ _) as [[Q pc] r]; intros [= <-].
    + pose proof (inv_pop_step m _ Hi Ho I) as H. by destruct (TaskQueuePop _ _) as [[Q pc] r]; intros [= <-].
    + pose proof (inv_pop_step m _ Hi Ho I) as H. by destruct (TaskQueuePop _ _) as [[Q pc] r]; intros [= <-].
    + pose proof (inv_pop_step m _ Hi Ho I) as H. by destruct (TaskQueuePop _ _) as [[Q pc] r]; intros [= <-].
    + pose proof (inv_pop_step m _ Hi Ho I) as H. by destruct (TaskQueuePop _ _) as [[Q pc] r]; intros [= <-].
  - destruct (thieves m !! i) as [[]|] eqn:Ht; try done. intros [= <-]. by eapply inv_thief_quiet.
  - destruct (thieves m !! i) as [pc|] eqn:Ht; [|done]. destruct (decide (pc = TIdle)) as [->|Hne]; [done|].
    pose proof (inv_thief_step m i pc Hi Ht Hne) as H. destruct (TaskQueueSteal pc (queue m)) as [[Q pc'] r].
    intros E. destruct pc; try done; injection E as <-; done.
Qed.

Section reach.
Context {U : Uninit}.

Lemma inv_initial n : inv (initial n).
Proof.
  split; cbn; try done; try lia.
  - by intros i pc [-> _]%lookup_replicate.
  - by intros p ?%elem_of_nil.
  - assert ((replicate n TIdle ≫= thief_won TaskQueueCreate) = []) as E by (induction n; [done|by rewrite replicate_S]).
    unfold won, window. cbn. by rewrite E.
Qed.

Lemma inv_reach n m : reach n m -> inv m.
Proof. induction 1 as [|m e m' _ IH Hr Hf]; [apply inv_initial|]. by eapply inv_fire. Qed.

(** While all threads are idle, nothing is on its way. *)
Lemma idle_won m : owner m = OIdle -> (forall i pc, thieves m !! i = Some pc -> pc = TIdle) -> won m = [].
Proof.
  intros Ho Ht. unfold won, owner_won. rewrite Ho. cbn. revert Ht. generalize (thieves m). induction l as [|pc l IH]; intros Ht; [done|].
  rewrite (Ht 0%nat pc eq_refl). cbn. apply IH. intros i q Hq. by apply (Ht (S i)).
Qed.
End reach.

(** ** What the queue promises *)


(** Two tasks, a thief and the owner that race for the last one. *)
Definition race : list event :=
  [EPush 5; EOwner; EOwner; EPush 6; EOwner; EOwner; ESteal 0; EThief 0; EThief 0; EPop; EOwner; EOwner; EOwner;
   EPop; EOwner; EOwner; EOwner; EThief 0; EOwner; EThief 0].

Fixpoint roomy (es : list event) (m : machine) : bool :=
  match owner m, es with
  | _, [] => true
  | OPush _, e :: es =>
      (q_tail (queue m) - q_head (queue m) <? TaskQueueSize) &&
      forallb (fun pc => match pc with TTake h => q_tail (queue m) - h <? TaskQueueSize | _ => true end) (thieves m) &&
      match fire e m with Some m' => roomy es m' | None => true end
  | _, e :: es => match fire e m with Some m' => roomy es m' | None => true end
  end.

Lemma roomy_cons e es m m' : roomy (e :: es) m = true -> fire e m = Some m' -> room m /\ roomy es m' = true.
Proof.
  intros Hr Hf. cbn in Hr. rewrite Hf in Hr. unfold room. destruct (owner m); try done.
  apply andb_prop in Hr as [[H1 H2]%andb_prop H3]. split; [|done]. split; [lia|]. intros i h Hi.
  rewrite forallb_forall in H2. specialize (H2 (TTake h)). apply Z.ltb_lt, H2. apply list_elem_of_In. by eapply list_elem_of_lookup_2.
Qed.

Lemma reach_fires `{Uninit} n es m m' : reach n m -> roomy es m = true -> fires es m = Some m' -> reach n m'.
Proof.
  revert m. induction es as [|e es IH]; intros m Hr Hro; [by intros [= <-]|]. cbn [fires]. destruct (fire e m) as [m1|] eqn:Ef; [|done].
  cbn. destruct (roomy_cons e es m m1 Hro Ef) as [H1 H2]. apply IH; [|done]. by eapply reach_fire.
Qed.

#[local] Instance zero_uninit : Uninit := 0.


(** *** Calls that nobody interferes with *)

Section alone.
Context (m : machine) (Hi : inv m) (Ho : owner m = OIdle) (Hth : forall i pc, thieves m !! i = Some pc -> pc = TIdle).
Abbreviation h := (q_head (queue m)).
Abbreviation t := (q_tail (queue m)).

Lemma alone_nonnull i : h <= i < t -> task_at (queue m) i <> NULL.
Proof.
  intros Hx. apply (live_nonnull m _ Hi), elem_of_app. right. unfold window, bound. rewrite Ho. apply list_elem_of_fmap.
  exists i. split; [done|]. apply elem_of_seqZ. lia.
Qed.

Lemma pop_alone : h < t -> exists k m', fires (EPop :: replicate k EOwner) m = Some m' /\
  owner m' = OIdle /\ taken m' = task_at (queue m) (t - 1) :: taken m.
Proof.
  intros Hlt. pose proof (alone_nonnull (t - 1) ltac:(lia)) as Hn. destruct (decide (h < t - 1)) as [Hm|Hm].
  - exists 3%nat. change (replicate 3 EOwner) with [EOwner; EOwner; EOwner]. cbn [fires]. cbn [fire]. rewrite Ho. cbn. destruct (Z.ltb_spec h (t - 1)); [|lia]. cbn.
    eexists. split; [reflexivity|]. split; [done|]. by apply result_some.
  - exists 5%nat. change (replicate 5 EOwner) with [EOwner; EOwner; EOwner; EOwner; EOwner]. cbn [fires]. cbn [fire]. rewrite Ho. cbn. destruct (Z.ltb_spec h (t - 1)); [lia|].
    destruct (Z.ltb_spec (t - 1) h); [lia|]. cbn. rewrite Z.eqb_refl. cbn.
    eexists. split; [reflexivity|]. split; [done|]. by apply result_some.
Qed.

Lemma pop_empty : h = t -> exists k m', fires (EPop :: replicate k EOwner) m = Some m' /\ m' = m.
Proof.
  intros E. exists 3%nat, m. split; [|done]. change (replicate 3 EOwner) with [EOwner; EOwner; EOwner]. cbn [fires]. cbn [fire]. rewrite Ho. cbn.
  destruct (Z.ltb_spec h (t - 1)); [lia|]. destruct (Z.ltb_spec (t - 1) h); [|lia]. cbn. unfold set_tail. cbn. rewrite E at 2.
  destruct m as [[a b c] o th pu tk]. cbn in *. by subst.
Qed.

Lemma steal_alone i : thieves m !! i = Some TIdle -> h < t -> exists k m', fires (ESteal i :: replicate k (EThief i)) m = Some m' /\
  thieves m' = thieves m /\ taken m' = task_at (queue m) h :: taken m.
Proof.
  intros Hti Hlt. pose proof (alone_nonnull h ltac:(lia)) as Hn. apply lookup_lt_Some in Hti as Hl.
  exists 4%nat. change (replicate 4 (EThief i)) with [EThief i; EThief i; EThief i; EThief i]. cbn [fires]. cbn [fire]. rewrite Hti. cbn. rewrite !list_lookup_insert_eq by (by rewrite ?length_insert). cbn.
  rewrite !list_insert_insert_eq. rewrite !list_lookup_insert_eq by (by rewrite ?length_insert). cbn.
  destruct (Z.leb_spec t h); [lia|]. cbn. rewrite !list_lookup_insert_eq by (by rewrite ?length_insert). cbn.
  rewrite Z.eqb_refl. cbn. rewrite !list_lookup_insert_eq by (by rewrite ?length_insert). cbn.
  eexists. split; [reflexivity|]. cbn [thieves taken]. rewrite !list_insert_insert_eq. rewrite list_insert_id by done. split; [done|]. by apply result_some.
Qed.

End alone.

(** In a queue that no call is working on, the owner's next pop, run
    without interference, returns the task pushed last, and the next steal of
    any thief the one at the head; a pop of the empty queue returns nothing and
    leaves the queue as it was. *)
Theorem taskq_two_ends `{Uninit} n m : reach n m -> owner m = OIdle ->
  (forall i pc, thieves m !! i = Some pc -> pc = TIdle) ->
  let Q := queue m in
  (q_head Q < q_tail Q -> exists k m', fires (EPop :: replicate k EOwner) m = Some m' /\
     owner m' = OIdle /\ taken m' = task_at Q (q_tail Q - 1) :: taken m) /\
  (forall i, thieves m !! i = Some TIdle -> q_head Q < q_tail Q ->
     exists k m', fires (ESteal i :: replicate k (EThief i)) m = Some m' /\
       thieves m' = thieves m /\ taken m' = task_at Q (q_head Q) :: taken m) /\
  (q_head Q = q_tail Q -> exists k m', fires (EPop :: replicate k EOwner) m = Some m' /\ m' = m).
Proof.
  intros Hr Ho Hth Q. pose proof (inv_reach n m Hr) as Hi. split; [|split].
  - by apply pop_alone.
  - intros i. by apply steal_alone.
  - by apply pop_empty.
Qed.

Lemma taskq_two_ends_witness : exists m, fires (take 6 race) (initial 1) = Some m /\
  exists k m', fires (EPop :: replicate k EOwner) m = Some m' /\ taken m' = [6].
Proof.
  destruct (fires (take 6 race) (initial 1)) as [m|] eqn:E; [|discriminate]. exists m. split; [reflexivity|].
  assert (Em : m = mk_machine (mk_taskq 0 2 (5 :: 6 :: replicate 1022 0)) OIdle [TIdle] [6; 5] []).
  { vm_compute in E |- *. injection E as <-. reflexivity. }
  destruct (taskq_two_ends 1 m) as (Hp & _).
  - eapply (reach_fires 1 (take 6 race) (initial 1)); [apply reach_initial|vm_compute; reflexivity|exact E].
  - by rewrite Em.
  - rewrite Em. by intros [|i] pc [= <-].
  - destruct Hp as (k & m' & Ef & _ & Et); [by rewrite Em|]. exists k, m'. split; [exact Ef|]. rewrite Et, Em. reflexivity.
Defined.

(** *** Overflow *)

(** One push of the owner. *)
Definition push (d : ptr) : list event := [EPush d; EOwner; EOwner].

Lemma fires_app es1 es2 m : fires (es1 ++ es2) m = m' ← fires es1 m; fires es2 m'.
Proof. revert m. induction es1 as [|e es1 IH]; intros m; [done|]. cbn [app fires]. destruct (fire e m); cbn; [apply IH|done]. Qed.

Lemma push_fires d Q th pu tk : d <> NULL -> fires (push d) (mk_machine Q OIdle th pu tk) =
  Some (mk_machine (mk_taskq (q_head Q) (q_tail Q + 1) (<[cell (q_tail Q) := d]> (q_data Q))) OIdle th (d :: pu) tk).
Proof. intros Hd. cbn. by destruct (Z.eqb_spec d NULL). Qed.

(** The array after [k] pushes of 1, 2, ... *)
Lemma pushes_fill `{Uninit} (k : nat) : (k <= 1024)%nat -> exists pu, fires (seqZ 1 (Z.of_nat k) ≫= push) (initial 0) =
  Some (mk_machine (mk_taskq 0 (Z.of_nat k) (seqZ 1 (Z.of_nat k) ++ replicate (1024 - k) uninit_word)) OIdle [] pu []) /\ ((0 < k)%nat -> 1 ∈ pu).
Proof.
  induction k as [|k IH]; intros Hk; [exists []; split; [reflexivity|lia]|]. destruct IH as (pu & E & Hpu); [lia|].
  rewrite seqZ_S, bind_app, fires_app, E. cbn [mbind option_bind list_bind]. rewrite app_nil_r.
  rewrite push_fires by (unfold NULL; lia). cbn [q_head q_tail q_data]. exists (1 + Z.of_nat k :: pu). split.
  - do 3 f_equal; [lia|]. assert (cell (Z.of_nat k) = k) as -> by (unfold cell, TaskQueueSize; rewrite Z.rem_small by lia; lia).
    rewrite insert_app_r_alt by (rewrite length_seqZ; lia). rewrite length_seqZ. replace (k - Z.to_nat (Z.of_nat k))%nat with 0%nat by lia.
    replace (1024 - k)%nat with (S (1024 - S k)) by lia. rewrite replicate_S. cbn. by rewrite <- app_assoc.
  - intros _. destruct (decide (k = 0)%nat) as [->|]; [left|right; apply Hpu; lia].
Qed.

(** [TaskQueuePush] does not check for room: after 1025 pushes without
    a pop or a steal, the first task is neither in the array between head and
    tail nor on its way to a caller, although it was never returned. *)
Theorem taskq_overflow_loses `{Uninit} : exists m, fires (seqZ 1 1025 ≫= push) (initial 0) = Some m /\
  1 ∈ pushed m /\ taken m = [] /\ 1 ∉ won m ++ window m.
Proof.
  change 1025 with (Z.of_nat (S 1024)). rewrite seqZ_S, bind_app, fires_app.
  destruct (pushes_fill 1024 ltac:(lia)) as (pu & -> & Hpu). cbn [mbind option_bind list_bind]. rewrite app_nil_r.
  rewrite push_fires by done. eexists. split; [reflexivity|]. cbn [pushed taken]. split; [right; apply Hpu; lia|]. split; [done|].
  change (cell (q_tail _)) with 0%nat. cbn [q_data]. change (replicate (1024 - 1024) uninit_word) with (@nil ptr). rewrite app_nil_r, (seqZ_cons 1 (Z.of_nat 1024)) by lia.
  intros [Hw|(i & E & Hin)%list_elem_of_fmap]%elem_of_app; [by apply elem_of_nil in Hw|].
  apply elem_of_seqZ in Hin. cbn [queue q_head bound owner q_tail] in Hin. unfold task_at in E. cbn [queue q_data list_insert insert] in E.
  destruct (cell i) as [|j] eqn:Ec; [done|].
  assert (Hc : (cell i < 1024)%nat) by (apply (cell_lt i); lia).
  rewrite list_lookup_total_alt, lookup_cons_ne_0, lookup_seqZ_lt in E by (rewrite ?Ec in Hc; cbn; lia). cbn in E. lia.
Qed.
