(* ===== verification/PCQueue.v ===== *)
(** * PCQueue: the producer-consumer queue between threads (pcqueue.h)

    A list of buffers of 256 cells.  Producers fill the last buffer under a
    lock and link a new one before they fill its last cell; the one consumer
    empties the first buffer without taking the lock and frees it after its
    last cell.  A null cell tells the consumer that nothing has been stored
    yet.  Every access to a word that both sides use is one step of the thread
    that makes it.  The configuration is the SMP one with the lock on the
    producers' side ([CMK_PCQUEUE_PUSH_LOCK]). *)

From S2P Require Import Prelude.
#[local] Open Scope Z_scope.

Definition PCQueueSize : nat := 256.

Record CircQueueStruct := mk_circ { c_next : Z; c_push : nat; c_pull : nat; c_data : list ptr }.

Definition set_c_next (v : Z) (c : CircQueueStruct) : CircQueueStruct := mk_circ v (c_push c) (c_pull c) (c_data c).
Definition set_c_push (v : nat) (c : CircQueueStruct) : CircQueueStruct := mk_circ (c_next c) v (c_pull c) (c_data c).
Definition set_c_pull (v : nat) (c : CircQueueStruct) : CircQueueStruct := mk_circ (c_next c) (c_push c) v (c_data c).
Definition set_c_data (i : nat) (v : ptr) (c : CircQueueStruct) : CircQueueStruct :=
  mk_circ (c_next c) (c_push c) (c_pull c) (<[i := v]> (c_data c)).

(** [bufs] are the buffers that are allocated, by address. *)
Record PCQueueStruct := mk_pcq {
  bufs : gmap Z CircQueueStruct;
  p_head : Z;
  p_tail : Z;
  p_len : Z;
  p_lock : option nat
}.

Definition set_bufs (b : gmap Z CircQueueStruct) (Q : PCQueueStruct) : PCQueueStruct := mk_pcq b (p_head Q) (p_tail Q) (p_len Q) (p_lock Q).
Definition set_p_head (h : Z) (Q : PCQueueStruct) : PCQueueStruct := mk_pcq (bufs Q) h (p_tail Q) (p_len Q) (p_lock Q).
Definition set_p_tail (t : Z) (Q : PCQueueStruct) : PCQueueStruct := mk_pcq (bufs Q) (p_head Q) t (p_len Q) (p_lock Q).
Definition set_p_len (n : Z) (Q : PCQueueStruct) : PCQueueStruct := mk_pcq (bufs Q) (p_head Q) (p_tail Q) n (p_lock Q).
Definition set_p_lock (l : option nat) (Q : PCQueueStruct) : PCQueueStruct := mk_pcq (bufs Q) (p_head Q) (p_tail Q) (p_len Q) l.

(** Access to memory that is not allocated aborts. *)
Definition get_circ (a : Z) (Q : PCQueueStruct) : outcome CircQueueStruct :=
  match bufs Q !! a with Some c => Normal c | None => Aborted end.
Definition upd_circ (a : Z) (f : CircQueueStruct -> CircQueueStruct) (Q : PCQueueStruct) : outcome PCQueueStruct :=
  c ← get_circ a Q; Normal (set_bufs (<[a := f c]> (bufs Q)) Q).

(** [calloc]: a buffer of zeros. *)
Definition circ_zero : CircQueueStruct := mk_circ 0 0 0 (replicate PCQueueSize 0).

Definition PCQueueCreate (circ : Z) : PCQueueStruct := mk_pcq {[ circ := circ_zero ]} circ circ 0 None.

Definition PCQueueLength (Q : PCQueueStruct) : Z := p_len Q.
Definition PCQueueEmpty (Q : PCQueueStruct) : bool := p_len Q =? 0.

Definition PCQueueTop (Q : PCQueueStruct) : outcome ptr :=
  if p_len Q =? 0 then Normal 0
  else c ← get_circ (p_head Q) Q; Normal (c_data c !!! c_pull c).

(** [while (circ != Q->tail) { free(circ); circ = circ->next; } free(circ);] *)
Fixpoint destroy_bufs (fuel : nat) (circ : Z) (Q : PCQueueStruct) : outcome PCQueueStruct :=
  match fuel with
  | O => Aborted
  | S fuel =>
      if circ =? p_tail Q then Normal (set_bufs (delete circ (bufs Q)) Q)
      else
        let Q := set_bufs (delete circ (bufs Q)) Q in
        c ← get_circ circ Q;
        destroy_bufs fuel (c_next c) Q
  end.

Definition PCQueueDestroy (Q : PCQueueStruct) : outcome PCQueueStruct := destroy_bufs (S (size (bufs Q))) (p_head Q) Q.

(** ** A producer *)

Inductive prod_pc :=
  | PIdle
  | PLock (data : ptr)                        (** before [CmiLock] *)
  | PTail (data : ptr)                        (** before [circ1 = Q->tail] *)
  | PPush (data : ptr) (circ1 : Z)            (** before [push = circ1->push] *)
  | PIncr (data : ptr) (circ1 : Z) (push : nat)   (** before [circ1->push = push + 1] *)
  | PAlloc (data : ptr) (circ1 : Z) (push : nat)  (** before [calloc] *)
  | PLink (data : ptr) (circ1 : Z) (push : nat) (circ : Z)    (** before [Q->tail->next = circ] *)
  | PSetTail (data : ptr) (circ1 : Z) (push : nat) (circ : Z) (** before [Q->tail = circ] *)
  | PStore (data : ptr) (circ1 : Z) (push : nat)  (** before [circ1->data[push] = data] *)
  | PLen                                      (** before the increment of [Q->len] *)
  | PUnlock.

(** One access of producer [i]; [fresh] is what [calloc] returns.  The result
    tells whether the data was stored. *)
Definition PCQueuePush (i : nat) (fresh : Z) (pc : prod_pc) (Q : PCQueueStruct) : outcome (PCQueueStruct * prod_pc * option ptr) :=
  match pc with
  | PIdle => Normal (Q, PIdle, None)
  | PLock d => match p_lock Q with None => Normal (set_p_lock (Some i) Q, PTail d, None) | Some _ => Normal (Q, PLock d, None) end
  | PTail d => Normal (Q, PPush d (p_tail Q), None)
  | PPush d c1 => c ← get_circ c1 Q; Normal (Q, PIncr d c1 (c_push c), None)
  | PIncr d c1 push =>
      Q ← upd_circ c1 (set_c_push (push + 1)) Q;
      Normal (Q, if (push =? PCQueueSize - 1)%nat then PAlloc d c1 push else PStore d c1 push, None)
  | PAlloc d c1 push => Normal (set_bufs (<[fresh := circ_zero]> (bufs Q)) Q, PLink d c1 push fresh, None)
  | PLink d c1 push circ => Q ← upd_circ (p_tail Q) (set_c_next circ) Q; Normal (Q, PSetTail d c1 push circ, None)
  | PSetTail d c1 push circ => Normal (set_p_tail circ Q, PStore d c1 push, None)
  | PStore d c1 push => Q ← upd_circ c1 (set_c_data push d) Q; Normal (Q, PLen, Some d)
  | PLen => Normal (set_p_len (p_len Q + 1) Q, PUnlock, None)
  | PUnlock => Normal (set_p_lock None Q, PIdle, None)
  end.

(** ** The consumer *)

Inductive cons_pc :=
  | CIdle
  | CLen                                (** before the test of [Q->len] *)
  | CData                               (** before the load of the cell *)
  | CClear (circ : Z) (pull : nat) (data : ptr)  (** before [circ->pull] and the cell are written *)
  | CNext (circ : Z) (data : ptr)       (** before [Q->head = circ->next] *)
  | CFree (circ : Z) (data : ptr)       (** before [free(circ)] *)
  | CDec (data : ptr).                  (** before the decrement of [Q->len] *)

#[global] Instance cons_pc_eq : EqDecision cons_pc.
Proof. solve_decision. Defined.

(** [Some r] when the call returns [r]; [Q->head] and [circ->pull] are the
    consumer's own. *)
Definition PCQueuePop (pc : cons_pc) (Q : PCQueueStruct) : outcome (PCQueueStruct * cons_pc * option ptr) :=
  match pc with
  | CIdle => Normal (Q, CIdle, None)
  | CLen => if p_len Q =? 0 then Normal (Q, CIdle, Some 0) else Normal (Q, CData, None)
  | CData =>
      c ← get_circ (p_head Q) Q;
      let data := c_data c !!! c_pull c in
      Normal (if data =? 0 then (Q, CIdle, Some 0) else (Q, CClear (p_head Q) (c_pull c) data, None))
  | CClear circ pull data =>
      Q ← upd_circ circ (fun c => set_c_data pull 0 (set_c_pull (pull + 1) c)) Q;
      Normal (Q, if (pull =? PCQueueSize - 1)%nat then CNext circ data else CDec data, None)
  | CNext circ data =>
      c ← get_circ circ Q;
      _ ← CmiAssert (negb (c_next c =? 0));
      Normal (set_p_head (c_next c) Q, CFree circ data, None)
  | CFree circ data => _ ← get_circ circ Q; Normal (set_bufs (delete circ (bufs Q)) Q, CDec data, None)
  | CDec data => Normal (set_p_len (p_len Q - 1) Q, CIdle, Some data)
  end.

(** ** The machine: producers and one consumer

    [stored] and [popped] record, in order, the data that producers have
    stored and that pops have returned. *)

Record pc_machine := mk_pcm {
  pcq : PCQueueStruct;
  producers : list prod_pc;
  consumer : cons_pc;
  stored : list ptr;
  popped : list ptr
}.

Inductive pc_event := EPush (i : nat) (data : ptr) | EProd (i : nat) (fresh : Z) | EPop | ECons.

Definition stored_by (r : option ptr) (l : list ptr) : list ptr := match r with Some d => l ++ [d] | None => l end.
Definition popped_by (r : option ptr) (l : list ptr) : list ptr :=
  match r with Some d => if d =? 0 then l else l ++ [d] | None => l end.

(** [None] when the event cannot happen: a call starts only when its thread
    is idle, data is not null, and [calloc] returns memory not in use. *)
Definition pc_fire (e : pc_event) (m : pc_machine) : option (outcome pc_machine) :=
  match e with
  | EPush i d =>
      match producers m !! i with
      | Some PIdle => if d =? 0 then None else Some (Normal (mk_pcm (pcq m) (<[i := PLock d]> (producers m)) (consumer m) (stored m) (popped m)))
      | _ => None
      end
  | EProd i fresh =>
      match producers m !! i with
      | None | Some PIdle => None
      | Some pc =>
          if (fresh =? 0) || bool_decide (is_Some (bufs (pcq m) !! fresh)) then None
          else Some ('(Q, pc, r) ← PCQueuePush i fresh pc (pcq m);
                     Normal (mk_pcm Q (<[i := pc]> (producers m)) (consumer m) (stored_by r (stored m)) (popped m)))
      end
  | EPop => match consumer m with CIdle => Some (Normal (mk_pcm (pcq m) (producers m) CLen (stored m) (popped m))) | _ => None end
  | ECons =>
      match consumer m with
      | CIdle => None
      | pc => Some ('(Q, pc, r) ← PCQueuePop pc (pcq m);
                    Normal (mk_pcm Q (producers m) pc (stored m) (popped_by r (popped m))))
      end
  end.

Definition pc_initial (n : nat) (circ : Z) : pc_machine := mk_pcm (PCQueueCreate circ) (replicate n PIdle) CIdle [] [].

Inductive pc_reach (n : nat) (circ : Z) : outcome pc_machine -> Prop :=
  | pc_reach_initial : pc_reach n circ (Normal (pc_initial n circ))
  | pc_reach_fire m e o : pc_reach n circ (Normal m) -> pc_fire e m = Some o -> pc_reach n circ o.
