(* ===== verification/PCQueueFacts.v ===== *)
(** * PCQueueFacts: the producer-consumer queue is first-in first-out

    The cells of the buffers, from the first to the last, are nulls, then the
    data not yet taken, then nulls again; every step of a producer or of the
    consumer keeps this form. *)

From S2P Require Import Prelude PCQueue.
Set Warnings "-clear-no-such-hyp".
#[local] Arguments Nat.modulo : simpl never.
#[local] Arguments PCQueueSize : simpl never.

#[global] Instance circ_inhabited : Inhabited CircQueueStruct := populate circ_zero.

(** ** The buffers in a row *)

Definition buf (Q : PCQueueStruct) (a : Z) : CircQueueStruct := bufs Q !!! a.
Definition flat (Q : PCQueueStruct) (chain : list Z) : list ptr := chain ≫= (fun a => c_data (buf Q a)).

Record chain_ok (Q : PCQueueStruct) (chain : list Z) (pl : nat) (R : list ptr) (extra : list Z) (pend : Z) : Prop := {
  ch_nodup : NoDup (chain ++ extra);
  ch_zero : 0%Z ∉ chain ++ extra;
  ch_dom a : is_Some (bufs Q !! a) <-> a ∈ chain ++ extra;
  ch_len a : a ∈ chain -> length (c_data (buf Q a)) = PCQueueSize;
  ch_links i a : chain !! i = Some a -> c_next (buf Q a) = default pend (chain !! S i);
  ch_pull i a : chain !! i = Some a -> c_pull (buf Q a) = if i =? 0 then pl else 0;
  ch_flat : flat Q chain = replicate pl 0%Z ++ R ++ replicate (PCQueueSize * length chain - pl - length R) 0%Z;
  ch_nonnull d : d ∈ R -> d <> 0%Z;
  ch_head : head chain = Some (p_head Q);
  ch_tail : last chain = Some (p_tail Q)
}.

Lemma get_buf Q a : is_Some (bufs Q !! a) -> get_circ a Q = Normal (buf Q a).
Proof. intros [c Hc]. unfold get_circ, buf. by rewrite lookup_total_alt, Hc. Qed.

Lemma upd_buf Q a f : is_Some (bufs Q !! a) -> upd_circ a f Q = Normal (set_bufs (<[a := f (buf Q a)]> (bufs Q)) Q).
Proof. intros Ha. unfold upd_circ. by rewrite get_buf. Qed.

Lemma buf_set Q a c x : buf (set_bufs (<[a := c]> (bufs Q)) Q) x = if decide (x = a) then c else buf Q x.
Proof.
  unfold buf. cbn. destruct (decide (x = a)) as [->|]; [apply lookup_total_insert_eq|by apply lookup_total_insert_ne].
Qed.

Lemma flat_length Q chain : (forall a, a ∈ chain -> length (c_data (buf Q a)) = PCQueueSize) ->
  length (flat Q chain) = PCQueueSize * length chain.
Proof.
  induction chain as [|a chain IH]; intros Hl; [done|]. unfold flat. rewrite bind_cons, length_app. fold (flat Q chain).
  rewrite IH, Hl by (set_solver). rewrite length_cons. lia.
Qed.

Lemma flat_ext Q Q' chain : (forall a, a ∈ chain -> c_data (buf Q' a) = c_data (buf Q a)) -> flat Q' chain = flat Q chain.
Proof. intros He. unfold flat. induction chain as [|a chain IH]; [done|]. rewrite !bind_cons, He, IH by set_solver. done. Qed.

(** The cell [i] of the buffer at position [j]. *)
Lemma flat_insert Q Q' chain j a i v : NoDup chain -> chain !! j = Some a -> i < PCQueueSize ->
  (forall x, x ∈ chain -> length (c_data (buf Q x)) = PCQueueSize) ->
  c_data (buf Q' a) = <[i := v]> (c_data (buf Q a)) -> (forall x, x ∈ chain -> x <> a -> c_data (buf Q' x) = c_data (buf Q x)) ->
  flat Q' chain = <[PCQueueSize * j + i := v]> (flat Q chain).
Proof.
  revert j. induction chain as [|b chain IH]; intros j Hn Hj Hi Hl Ha Ho; [done|]. apply NoDup_cons in Hn as [Hb Hn].
  unfold flat. rewrite !bind_cons. fold (flat Q chain) (flat Q' chain). assert (length (c_data (buf Q b)) = PCQueueSize) as Elb by (apply Hl; left).
  destruct j as [|j]; cbn in Hj.
  - injection Hj as ->. rewrite Ha. rewrite insert_app_l by lia. rewrite (flat_ext Q Q'); [by replace (PCQueueSize * 0 + i) with i by lia|].
    intros x Hx. apply Ho; [by right|]. congruence.
  - rewrite insert_app_r_alt by (rewrite Elb; lia). rewrite Elb. replace (PCQueueSize * S j + i - PCQueueSize) with (PCQueueSize * j + i) by lia.
    rewrite Ho; [|left|intros ->; by apply Hb; eapply list_elem_of_lookup_2]. f_equal.
    apply IH; try done; [intros x Hx; apply Hl; by right|]. intros x Hx. apply Ho. by right.
Qed.

Lemma flat_lookup Q chain j a i : (forall x, x ∈ chain -> length (c_data (buf Q x)) = PCQueueSize) ->
  chain !! j = Some a -> i < PCQueueSize -> flat Q chain !!! (PCQueueSize * j + i) = c_data (buf Q a) !!! i.
Proof.
  revert j. induction chain as [|b chain IH]; intros j Hl Hj Hi; [done|]. unfold flat. rewrite bind_cons. fold (flat Q chain).
  assert (length (c_data (buf Q b)) = PCQueueSize) as Elb by (apply Hl; left). rewrite !list_lookup_total_alt. destruct j as [|j]; cbn in Hj.
  - injection Hj as ->. rewrite lookup_app_l by lia. by replace (PCQueueSize * 0 + i) with i by lia.
  - rewrite lookup_app_r by (rewrite Elb; lia). rewrite Elb. replace (PCQueueSize * S j + i - PCQueueSize) with (PCQueueSize * j + i) by lia.
    rewrite <- !list_lookup_total_alt. apply IH; [|done|done]. intros x Hx. apply Hl. by right.
Qed.

(** ** The row as nulls, data, nulls *)

Lemma insert_at_end (n : nat) (R : list ptr) k d : 0 < k ->
  <[n + length R := d]> (replicate n 0%Z ++ R ++ replicate k 0%Z) = replicate n 0%Z ++ (R ++ [d]) ++ replicate (k - 1) 0%Z.
Proof.
  intros Hk. rewrite insert_app_r_alt by (rewrite length_replicate; lia). rewrite length_replicate.
  rewrite insert_app_r_alt by lia. replace (n + length R - n - length R) with 0 by lia.
  destruct k as [|k]; [lia|]. rewrite replicate_S. cbn. rewrite <- app_assoc. cbn. by rewrite Nat.sub_0_r.
Qed.

Lemma insert_at_start (n : nat) (d : ptr) R k :
  <[n := 0%Z]> (replicate n 0%Z ++ (d :: R) ++ replicate k 0%Z) = replicate (n + 1) 0%Z ++ R ++ replicate k 0%Z.
Proof.
  rewrite insert_app_r_alt by (rewrite length_replicate; lia). rewrite length_replicate, Nat.sub_diag. cbn.
  rewrite replicate_add. by rewrite <- app_assoc.
Qed.

Lemma row_first (n : nat) (R : list ptr) k : n + length R + k > n ->
  (replicate n 0%Z ++ R ++ replicate k 0%Z) !!! n = default 0%Z (head R).
Proof.
  intros Hk. rewrite list_lookup_total_alt, lookup_app_r by (rewrite length_replicate; lia). rewrite length_replicate, Nat.sub_diag.
  destruct R as [|d R]; cbn; [|done]. destruct k as [|k]; [cbn in Hk; lia|]. by rewrite replicate_S.
Qed.

Lemma chain_room Q chain pl R extra pend : chain_ok Q chain pl R extra pend -> pl + length R <= PCQueueSize * length chain.
Proof.
  intros Hc. pose proof (flat_length Q chain (ch_len _ _ _ _ _ _ Hc)) as Hl. rewrite (ch_flat _ _ _ _ _ _ Hc) in Hl.
  rewrite !length_app, !length_replicate in Hl. lia.
Qed.

(** What the form of the row depends on. *)
Lemma chain_ext Q Q' chain pl R extra extra' pend : chain_ok Q chain pl R extra pend ->
  (forall a, a ∈ chain -> c_next (buf Q' a) = c_next (buf Q a) /\ c_pull (buf Q' a) = c_pull (buf Q a) /\ c_data (buf Q' a) = c_data (buf Q a)) ->
  (forall a, is_Some (bufs Q' !! a) <-> a ∈ chain ++ extra') -> NoDup (chain ++ extra') -> 0%Z ∉ chain ++ extra' ->
  p_head Q' = p_head Q -> p_tail Q' = p_tail Q -> chain_ok Q' chain pl R extra' pend.
Proof.
  intros [C1 C2 C3 C4 C5 C6 C7 C8 C9 C10] Ha Hd Hn Hz Eh Et. split; try done.
  - intros a Hin. destruct (Ha a Hin) as (_ & _ & ->). auto.
  - intros i a Hi. destruct (Ha a) as (-> & _); [by eapply list_elem_of_lookup_2|]. auto.
  - intros i a Hi. destruct (Ha a) as (_ & -> & _); [by eapply list_elem_of_lookup_2|]. auto.
  - rewrite <- C7. apply flat_ext. intros a Hin. by destruct (Ha a Hin) as (_ & _ & ?).
  - congruence.
  - congruence.
Qed.

Lemma dom_update Q a c (l : list Z) : (forall x, is_Some (bufs Q !! x) <-> x ∈ l) -> a ∈ l ->
  forall x, is_Some (<[a := c]> (bufs Q) !! x) <-> x ∈ l.
Proof.
  intros Hd Ha x. destruct (decide (x = a)) as [->|Hx]; [rewrite lookup_insert_eq|by rewrite lookup_insert_ne]. split; [done|]. by eexists.
Qed.

(** ** The invariant *)

(** The producer that holds the lock is between two pushes: the next cell is
    [w]. *)
Definition settled (Q : PCQueueStruct) (chain : list Z) (w : nat) : Prop :=
  c_push (buf Q (p_tail Q)) + PCQueueSize * (length chain - 1) = w /\ c_push (buf Q (p_tail Q)) < PCQueueSize.

(** It is about to fill the last cell of the last buffer. *)
Definition filling (Q : PCQueueStruct) (chain : list Z) (w : nat) (d : ptr) (c1 : Z) (push : nat) : Prop :=
  d <> 0%Z /\ c1 = p_tail Q /\ push = PCQueueSize - 1 /\ c_push (buf Q (p_tail Q)) = PCQueueSize /\ w = PCQueueSize * (length chain - 1) + push.

Definition prod_ok (Q : PCQueueStruct) (chain : list Z) (w : nat) (pc : prod_pc) : Prop :=
  match pc with
  | PIdle | PLen | PUnlock => settled Q chain w
  | PLock d | PTail d => d <> 0%Z /\ settled Q chain w
  | PPush d c1 => d <> 0%Z /\ c1 = p_tail Q /\ settled Q chain w
  | PIncr d c1 push => d <> 0%Z /\ c1 = p_tail Q /\ settled Q chain w /\ push = c_push (buf Q (p_tail Q))
  | PAlloc d c1 push => filling Q chain w d c1 push
  | PLink d c1 push circ | PSetTail d c1 push circ => filling Q chain w d c1 push /\ bufs Q !! circ = Some circ_zero
  | PStore d c1 push => d <> 0%Z /\ chain !! (w / PCQueueSize) = Some c1 /\ push = w mod PCQueueSize /\ settled Q chain (w + 1)
  end.

Definition cons_ok (Q : PCQueueStruct) (pl : nat) (R : list ptr) (pc : cons_pc) : Prop :=
  match pc with
  | CIdle | CLen | CData => pl < PCQueueSize
  | CClear circ pull data => circ = p_head Q /\ pull = pl /\ pl < PCQueueSize /\ head R = Some data
  | CNext circ data => circ = p_head Q /\ pl = PCQueueSize /\ data <> 0%Z
  | CFree _ data | CDec data => pl < PCQueueSize /\ data <> 0%Z
  end.

Definition prod_extra (pc : prod_pc) : list Z := match pc with PLink _ _ _ circ | PSetTail _ _ _ circ => [circ] | _ => [] end.
Definition prod_pend (pc : prod_pc) : Z := match pc with PSetTail _ _ _ circ => circ | _ => 0%Z end.
Definition cons_extra (pc : cons_pc) : list Z := match pc with CFree circ _ => [circ] | _ => [] end.

(** The data that the consumer has taken out of the row and not yet
    returned. *)
Definition held (pc : cons_pc) : list ptr := match pc with CNext _ d | CFree _ d | CDec d => [d] | _ => [] end.
Definition uncounted (pc : prod_pc) : Z := match pc with PLen => 1 | _ => 0 end.

Record good (Q : PCQueueStruct) (act : prod_pc) (cn : cons_pc) (chain : list Z) (pl : nat) (R : list ptr) : Prop := {
  gd_chain : chain_ok Q chain pl R (prod_extra act ++ cons_extra cn) (prod_pend act);
  gd_prod : prod_ok Q chain (pl + length R) act;
  gd_cons : cons_ok Q pl R cn;
  gd_len : p_len Q = (Z.of_nat (length R) + Z.of_nat (length (held cn)) - uncounted act)%Z
}.

Lemma last_chain Q chain pl R extra pend : chain_ok Q chain pl R extra pend -> chain !! (length chain - 1) = Some (p_tail Q) /\ 0 < length chain.
Proof.
  intros Hc. pose proof (ch_tail _ _ _ _ _ _ Hc) as Ht. pose proof Ht as Hl. rewrite last_lookup in Hl.
  replace (pred (length chain)) with (length chain - 1) in Hl by lia. split; [done|]. apply lookup_lt_Some in Hl. lia.
Qed.

Lemma tail_in Q chain pl R extra pend : chain_ok Q chain pl R extra pend -> p_tail Q ∈ chain.
Proof. intros Hc. eapply last_Some_elem_of, (ch_tail _ _ _ _ _ _ Hc). Qed.

Lemma head_in Q chain pl R extra pend : chain_ok Q chain pl R extra pend -> p_head Q ∈ chain /\ chain !! 0 = Some (p_head Q).
Proof. intros Hc. pose proof (ch_head _ _ _ _ _ _ Hc) as Hh. destruct chain as [|a l]; [done|]. injection Hh as ->. split; [left|done]. Qed.

Lemma chain_some Q chain pl R extra pend a : chain_ok Q chain pl R extra pend -> a ∈ chain -> is_Some (bufs Q !! a).
Proof. intros Hc Ha. apply (ch_dom _ _ _ _ _ _ Hc), elem_of_app. by left. Qed.

(** ** Steps of the producer that holds the lock *)

Section producer.
Context (Q : PCQueueStruct) (cn : cons_pc) (chain : list Z) (pl : nat) (R : list ptr).

(** Only the words of the queue itself change. *)
Lemma good_quiet act act' Q' : good Q act cn chain pl R -> bufs Q' = bufs Q -> p_head Q' = p_head Q -> p_tail Q' = p_tail Q ->
  prod_extra act' = prod_extra act -> prod_pend act' = prod_pend act ->
  (prod_ok Q chain (pl + length R) act -> prod_ok Q chain (pl + length R) act') ->
  p_len Q' = (p_len Q + uncounted act - uncounted act')%Z -> good Q' act' cn chain pl R.
Proof.
  intros [G1 G2 G3 G4] Eb Eh Et Ee Ep Hp El. assert (Ebu : forall a, buf Q' a = buf Q a) by (intros a; unfold buf; by rewrite Eb). split.
  - rewrite Ee, Ep. eapply chain_ext; [exact G1| | | | |done|done].
    + intros a _. by rewrite Ebu.
    + rewrite Eb. apply (ch_dom _ _ _ _ _ _ G1).
    + apply (ch_nodup _ _ _ _ _ _ G1).
    + apply (ch_zero _ _ _ _ _ _ G1).
  - specialize (Hp G2). revert Hp. unfold prod_ok, filling, settled. by rewrite Et, Ebu, Eb.
  - revert G3. unfold cons_ok. by rewrite Eh.
  - lia.
Qed.

Lemma step_incr d c1 push : good Q (PIncr d c1 push) cn chain pl R ->
  exists Q', upd_circ c1 (set_c_push (push + 1)) Q = Normal Q' /\ p_lock Q' = p_lock Q /\
    good Q' (if push =? PCQueueSize - 1 then PAlloc d c1 push else PStore d c1 push) cn chain pl R.
Proof.
  intros [G1 (Hd & -> & [Hw Hlt] & ->) G3 G4]. set (push := c_push (buf Q (p_tail Q))) in *.
  pose proof (tail_in _ _ _ _ _ _ G1) as Hin. destruct (last_chain _ _ _ _ _ _ G1) as [Hlast Hlen].
  rewrite upd_buf by (by eapply chain_some). eexists. split; [reflexivity|]. split; [done|].
  assert (Hc' : chain_ok (set_bufs (<[p_tail Q := set_c_push (push + 1) (buf Q (p_tail Q))]> (bufs Q)) Q) chain pl R (cons_extra cn) 0).
  { eapply chain_ext; [exact G1| | |apply (ch_nodup _ _ _ _ _ _ G1)|apply (ch_zero _ _ _ _ _ _ G1)|done|done].
    - intros a _. rewrite buf_set. destruct (decide (a = p_tail Q)) as [->|]; done.
    - apply dom_update; [apply (ch_dom _ _ _ _ _ _ G1)|]. apply elem_of_app. by left. }
  destruct (Nat.eqb_spec push (PCQueueSize - 1)) as [E|E]; (split; [done| |done|done]).
  - cbn. unfold filling. cbn [p_tail]. rewrite buf_set, decide_True by done. cbn. unfold PCQueueSize in *. split_and!; try done; lia.
  - cbn. split; [done|]. unfold settled. cbn [p_tail set_bufs]. rewrite buf_set, decide_True by done. cbn [c_push set_c_push].
    replace (pl + length R) with (push + (length chain - 1) * PCQueueSize) by (unfold PCQueueSize in *; lia).
    rewrite Nat.div_add, Nat.Div0.mod_add, Nat.div_small, Nat.mod_small by (done || unfold PCQueueSize in *; lia).
    split; [done|]. split; [done|]. unfold PCQueueSize in *. lia.
Qed.

Lemma step_alloc d c1 push fresh : good Q (PAlloc d c1 push) cn chain pl R -> fresh <> 0%Z -> bufs Q !! fresh = None ->
  good (set_bufs (<[fresh := circ_zero]> (bufs Q)) Q) (PLink d c1 push fresh) cn chain pl R.
Proof.
  intros [G1 G2 G3 G4] H0 Hf. assert (Hni : fresh ∉ chain ++ cons_extra cn).
  { intros Hin. apply (ch_dom _ _ _ _ _ _ G1) in Hin. rewrite Hf in Hin. by destruct Hin. }
  assert (Hbuf : forall a, a ∈ chain -> buf (set_bufs (<[fresh := circ_zero]> (bufs Q)) Q) a = buf Q a).
  { intros a Ha. rewrite buf_set, decide_False; [done|]. intros ->. apply Hni, elem_of_app. by left. }
  split; [| |done|done].
  - cbn. pose proof (ch_nodup _ _ _ _ _ _ G1) as Hn. pose proof (ch_zero _ _ _ _ _ _ G1) as Hz. cbn in Hn, Hz.
    eapply chain_ext; [exact G1| | | | |done|done].
    + intros a Ha. by rewrite Hbuf.
    + intros a. cbn. destruct (decide (a = fresh)) as [->|Ha].
      * rewrite lookup_insert_eq. split; [set_solver|by eexists].
      * rewrite lookup_insert_ne by done. rewrite (ch_dom _ _ _ _ _ _ G1 a). cbn. set_solver.
    + rewrite <- Permutation_middle. by constructor.
    + set_solver.
  - cbn. rewrite lookup_insert_eq. split; [|done]. unfold prod_ok, filling in *. cbn [p_tail set_bufs].
    by rewrite Hbuf by (by eapply tail_in).
Qed.

Lemma step_link d c1 push circ : good Q (PLink d c1 push circ) cn chain pl R ->
  exists Q', upd_circ (p_tail Q) (set_c_next circ) Q = Normal Q' /\ p_lock Q' = p_lock Q /\ good Q' (PSetTail d c1 push circ) cn chain pl R.
Proof.
  intros [G1 [G2 Hz] G3 G4]. pose proof (tail_in _ _ _ _ _ _ G1) as Hin. destruct (last_chain _ _ _ _ _ _ G1) as [Hlast Hlen].
  rewrite upd_buf by (by eapply chain_some). eexists. split; [reflexivity|]. split; [done|].
  pose proof (ch_nodup _ _ _ _ _ _ G1) as Hn. assert (Hcc : circ ∉ chain).
  { intros Hc. cbn in Hn. apply NoDup_app in Hn as (_ & Hd & _). apply (Hd circ Hc). left. }
  set (Q' := set_bufs _ Q). assert (Hb : forall a, buf Q' a = if decide (a = p_tail Q) then set_c_next circ (buf Q (p_tail Q)) else buf Q a) by (intros a; apply buf_set).
  pose proof G1 as [C1 C2 C3 C4 C5 C6 C7 C8 C9 C10]. split; [| |done|done].
  - split; try done.
    + apply dom_update; [done|]. apply elem_of_app. by left.
    + intros a Ha. rewrite Hb. destruct (decide (a = p_tail Q)) as [->|]; by apply C4.
    + intros i a Ha. rewrite Hb. destruct (decide (a = p_tail Q)) as [->|Hne]; cbn.
      * assert (i = length chain - 1) as -> by (eapply (NoDup_lookup chain); [by apply NoDup_app in Hn as (? & _)|done|done]).
        by rewrite (lookup_ge_None_2 chain) by lia.
      * rewrite (C5 i a Ha). cbn. assert (S i < length chain) as Hlt.
        { apply lookup_lt_Some in Ha as Hi. destruct (decide (i = length chain - 1)) as [->|]; [congruence|lia]. }
        apply lookup_lt_is_Some in Hlt as [y ->]. done.
    + intros i a Ha. rewrite Hb. destruct (decide (a = p_tail Q)) as [->|]; cbn; by apply C6.
    + rewrite <- C7. apply flat_ext. intros a Ha. rewrite Hb. by destruct (decide (a = p_tail Q)) as [->|].
  - cbn. split.
    + unfold filling in *. cbn [p_tail Q' set_bufs]. rewrite Hb, decide_True by done. done.
    + rewrite lookup_insert_ne; [done|]. intros E. apply Hcc. by rewrite <- E.
Qed.

(** The new buffer becomes the last one of the row. *)
Lemma step_settail d c1 push circ : good Q (PSetTail d c1 push circ) cn chain pl R ->
  good (set_p_tail circ Q) (PStore d c1 push) cn (chain ++ [circ]) pl R.
Proof.
  intros [G1 [G2 Hz] G3 G4]. pose proof G1 as [C1 C2 C3 C4 C5 C6 C7 C8 C9 C10]. cbn [prod_extra prod_pend app] in *.
  destruct (last_chain _ _ _ _ _ _ G1) as [Hlast Hlen]. destruct G2 as (Hd & -> & -> & Hpt & Hw).
  assert (Ebz : buf Q circ = circ_zero) by (unfold buf; by rewrite lookup_total_alt, Hz).
  assert (Hbuf : forall a, buf (set_p_tail circ Q) a = buf Q a) by done.
  assert (Eapp : chain ++ circ :: cons_extra cn = (chain ++ [circ]) ++ cons_extra cn) by (by rewrite <- app_assoc).
  assert (Eflat : flat (set_p_tail circ Q) (chain ++ [circ]) = flat Q chain ++ replicate PCQueueSize 0%Z).
  { unfold flat. rewrite bind_app. cbn. rewrite app_nil_r, Hbuf, Ebz. done. }
  pose proof (chain_room _ _ _ _ _ _ G1) as Hroom. split; [|cbn|done|done].
  - cbn [prod_extra prod_pend app]. rewrite Eapp in *. split; try done.
    + intros a [Ha| ->%list_elem_of_singleton]%elem_of_app; rewrite Hbuf; [by apply C4|by rewrite Ebz].
    + intros i a [Ha|[Hi Ha]]%lookup_app_Some; rewrite Hbuf.
      * rewrite (C5 i a Ha). apply lookup_lt_Some in Ha as Hlt. destruct (decide (S i < length chain)) as [Hs|Hs].
        -- rewrite lookup_app_l by lia. apply lookup_lt_is_Some in Hs as [y Hy]. by rewrite Hy.
        -- rewrite lookup_app_r by lia. rewrite (lookup_ge_None_2 chain) by lia. by replace (S i - length chain) with 0 by lia.
      * apply list_lookup_singleton_Some in Ha as [E <-]. rewrite Ebz, lookup_ge_None_2 by (rewrite length_app; cbn; lia). done.
    + intros i a [Ha|[Hi Ha]]%lookup_app_Some; rewrite Hbuf; [by apply C6|]. apply list_lookup_singleton_Some in Ha as [E <-]. rewrite Ebz.
      by destruct (Nat.eqb_spec i 0); [lia|].
    + rewrite Eflat, C7, length_app, Nat.mul_add_distr_l, Nat.mul_1_r, <- !app_assoc. do 2 f_equal. rewrite <- replicate_add. f_equal. lia.
    + by rewrite head_app, C9.
    + by rewrite last_snoc.
  - unfold settled. cbn [p_tail set_p_tail]. rewrite Hbuf, Ebz, length_app. cbn [c_push circ_zero length].
    split; [done|]. rewrite Hw. replace (PCQueueSize * (length chain - 1) + (PCQueueSize - 1)) with ((PCQueueSize - 1) + (length chain - 1) * PCQueueSize) by lia.
    rewrite Nat.div_add, Nat.Div0.mod_add by done. rewrite Nat.div_small, Nat.mod_small by (unfold PCQueueSize; lia).
    rewrite lookup_app_l by lia. split; [done|]. split; [done|]. unfold PCQueueSize. lia.
Qed.

Lemma step_store d c1 push : good Q (PStore d c1 push) cn chain pl R ->
  exists Q', upd_circ c1 (set_c_data push d) Q = Normal Q' /\ p_lock Q' = p_lock Q /\ good Q' PLen cn chain pl (R ++ [d]).
Proof.
  intros [G1 (Hd & Hc1 & Hpush & [Hw Hlt]) G3 G4]. pose proof G1 as [C1 C2 C3 C4 C5 C6 C7 C8 C9 C10]. cbn [prod_extra prod_pend app] in *.
  assert (Hin : c1 ∈ chain) by (by eapply list_elem_of_lookup_2). apply lookup_lt_Some in Hc1 as Hj.
  set (w := pl + length R) in *. set (j := w / PCQueueSize) in *.
  assert (Hi : push < PCQueueSize) by (rewrite Hpush; by apply Nat.mod_upper_bound).
  assert (Ew : PCQueueSize * j + push = w) by (rewrite Hpush; unfold j; symmetry; by apply Nat.div_mod).
  rewrite upd_buf by (apply C3, elem_of_app; by left). set (Q' := set_bufs _ Q).
  assert (Hb : forall a, buf Q' a = if decide (a = c1) then set_c_data push d (buf Q c1) else buf Q a) by (intros a; apply buf_set).
  assert (Hcd : forall a, c_next (buf Q' a) = c_next (buf Q a) /\ c_pull (buf Q' a) = c_pull (buf Q a) /\ c_push (buf Q' a) = c_push (buf Q a)).
  { intros a. rewrite Hb. by destruct (decide (a = c1)) as [->|]. }
  assert (Hjl : PCQueueSize * (j + 1) <= PCQueueSize * length chain) by (apply Nat.mul_le_mono_l; lia).
  exists Q'. split; [reflexivity|]. split; [done|]. split.
  - split; try done.
    + apply dom_update; [done|]. apply elem_of_app. by left.
    + intros a Ha. rewrite Hb. destruct (decide (a = c1)) as [->|]; [cbn; rewrite length_insert|]; by apply C4.
    + intros i a Ha. destruct (Hcd a) as (-> & _). auto.
    + intros i a Ha. destruct (Hcd a) as (_ & -> & _). auto.
    + rewrite (flat_insert Q Q' chain j c1 push d); try done.
      * rewrite Ew, C7. unfold w. rewrite insert_at_end by lia. rewrite length_app. cbn [length]. do 3 f_equal. lia.
      * by apply NoDup_app in C1 as (? & _).
      * rewrite Hb, decide_True by done. done.
      * intros x _ Hx. by rewrite Hb, decide_False by done.
    + intros x [Hx| ->%list_elem_of_singleton]%elem_of_app; auto.
  - cbn. unfold settled. cbn [p_tail Q' set_bufs]. destruct (Hcd (p_tail Q)) as (_ & _ & ->). rewrite length_app. cbn [length]. lia.
  - clear -G3. unfold cons_ok in *. cbn [p_head Q' set_bufs]. destruct cn; try done. destruct G3 as (? & ? & ? & Hh). by rewrite head_app, Hh.
  - cbn [p_len Q' set_bufs]. rewrite G4, length_app. cbn [length uncounted]. lia.
Qed.

(** Every step of the producer that holds the lock. *)
Lemma prod_step i fresh act : good Q act cn chain pl R -> match act with PIdle | PLock _ => False | _ => True end ->
  fresh <> 0%Z -> bufs Q !! fresh = None ->
  exists Q' act' r chain' R', PCQueuePush i fresh act Q = Normal (Q', act', r) /\ good Q' act' cn chain' pl R' /\
    stored_by r R = R' /\ (forall l, stored_by r l = l ++ drop (length R) R') /\
    match act with PUnlock => act' = PIdle /\ p_lock Q' = None
                 | _ => p_lock Q' = p_lock Q /\ match act' with PIdle | PLock _ => False | _ => True end end.
Proof.
  intros Hg Hact H0 Hf.
  assert (Hnone : forall l : list ptr, l = l ++ drop (length R) R) by (intros l; by rewrite drop_all, app_nil_r).
  destruct act as [|d|d|d c1|d c1 push|d c1 push|d c1 push circ|d c1 push circ|d c1 push| |]; try done; cbn [PCQueuePush].
  - exists Q, (PPush d (p_tail Q)), None, chain, R. split_and!; try done. apply (good_quiet (PTail d)); try done; [cbn; tauto|cbn; lia].
  - pose proof Hg as [G1 (_ & -> & _) _ _]. rewrite get_buf by (eapply chain_some; [exact G1|by eapply tail_in]). cbn.
    eexists Q, _, None, chain, R. split_and!; try done. apply (good_quiet (PPush d (p_tail Q))); try done; [cbn; tauto|cbn; lia].
  - destruct (step_incr d c1 push Hg) as (Q' & E & El & Hg'). rewrite E. cbn [mbind outcome_bind].
    eexists Q', _, None, chain, R. split_and!; try done. by destruct (push =? PCQueueSize - 1).
  - eexists _, _, None, chain, R. split_and!; try done. by apply step_alloc.
  - destruct (step_link d c1 push circ Hg) as (Q' & E & El & Hg'). rewrite E. cbn [mbind outcome_bind].
    eexists Q', _, None, chain, R. split_and!; done.
  - eexists _, _, None, (chain ++ [circ]), R. split_and!; try done. by eapply step_settail.
  - destruct (step_store d c1 push Hg) as (Q' & E & El & Hg'). rewrite E. cbn [mbind outcome_bind].
    eexists Q', _, (Some d), chain, (R ++ [d]). split_and!; try done. intros l. cbn. by rewrite drop_app_length.
  - eexists _, _, None, chain, R. split_and!; try done. apply (good_quiet PLen); try done. cbn. lia.
  - eexists _, _, None, chain, R. split_and!; try done. apply (good_quiet PUnlock); try done. cbn. lia.
Qed.

End producer.

(** ** Steps of the consumer *)

Section consumer.
Context (Q : PCQueueStruct) (act : prod_pc) (chain : list Z) (pl : nat) (R : list ptr).

Lemma good_consumer cn cn' : good Q act cn chain pl R -> cons_extra cn' = cons_extra cn -> held cn' = held cn ->
  cons_ok Q pl R cn' -> good Q act cn' chain pl R.
Proof. intros [G1 G2 G3 G4] Ee Eh Hc. split; [by rewrite Ee|done|done|by rewrite Eh]. Qed.

(** The cell that the consumer reads. *)
Lemma first_cell cn : good Q act cn chain pl R -> pl < PCQueueSize ->
  c_pull (buf Q (p_head Q)) = pl /\ c_data (buf Q (p_head Q)) !!! pl = default 0%Z (head R).
Proof.
  intros [G1 G2 G3 G4] Hpl. destruct (head_in _ _ _ _ _ _ G1) as [Hin H0]. destruct (last_chain _ _ _ _ _ _ G1) as [_ Hlen].
  split; [apply (ch_pull _ _ _ _ _ _ G1 0 _ H0)|].
  etransitivity; [symmetry; exact (flat_lookup Q chain 0 (p_head Q) pl (ch_len _ _ _ _ _ _ G1) H0 Hpl)|]. rewrite (ch_flat _ _ _ _ _ _ G1).
  replace (PCQueueSize * 0 + pl) with pl by lia. apply row_first. pose proof (chain_room _ _ _ _ _ _ G1).
  assert (PCQueueSize * 1 <= PCQueueSize * length chain) by (apply Nat.mul_le_mono_l; lia). lia.
Qed.

Lemma step_clear circ pull d : good Q act (CClear circ pull d) chain pl R ->
  exists Q' R', R = d :: R' /\ upd_circ circ (fun c => set_c_data pull 0 (set_c_pull (pull + 1) c)) Q = Normal Q' /\ p_lock Q' = p_lock Q /\
    good Q' act (if pull =? PCQueueSize - 1 then CNext circ d else CDec d) chain (pl + 1) R'.
Proof.
  intros [G1 G2 (-> & -> & Hpl & HR) G4]. destruct R as [|x R']; [done|]. injection HR as ->. pose proof G1 as [C1 C2 C3 C4 C5 C6 C7 C8 C9 C10].
  destruct (head_in _ _ _ _ _ _ G1) as [Hin H0]. rewrite upd_buf by (by eapply chain_some).
  set (Q' := set_bufs _ Q). exists Q', R'. split; [done|]. split; [reflexivity|]. split; [done|].
  assert (Hb : forall a, buf Q' a = if decide (a = p_head Q) then set_c_data pl 0 (set_c_pull (pl + 1) (buf Q (p_head Q))) else buf Q a) by (intros a; apply buf_set).
  assert (Hcd : forall a, c_next (buf Q' a) = c_next (buf Q a) /\ c_push (buf Q' a) = c_push (buf Q a)).
  { intros a. rewrite Hb. by destruct (decide (a = p_head Q)) as [->|]. }
  assert (Ec : cons_extra (if pl =? PCQueueSize - 1 then CNext (p_head Q) d else CDec d) = []) by (by destruct (pl =? PCQueueSize - 1)).
  assert (Eh : held (if pl =? PCQueueSize - 1 then CNext (p_head Q) d else CDec d) = [d]) by (by destruct (pl =? PCQueueSize - 1)).
  assert (Hd : d <> 0%Z) by (apply C8; left). assert (Ew : pl + 1 + length R' = pl + length (d :: R')) by (cbn; lia).
  split.
  - rewrite Ec. split; try done.
    + apply dom_update; [done|]. apply elem_of_app. by left.
    + intros a Ha. rewrite Hb. destruct (decide (a = p_head Q)) as [->|]; [cbn; rewrite length_insert|]; by apply C4.
    + intros i a Ha. destruct (Hcd a) as (-> & _). auto.
    + intros i a Ha. rewrite Hb. destruct (decide (a = p_head Q)) as [->|Hne]; cbn.
      * assert (i = 0) as -> by (eapply (NoDup_lookup chain); [by apply NoDup_app in C1 as (? & _)|done|done]). done.
      * rewrite (C6 i a Ha). destruct (Nat.eqb_spec i 0) as [->|]; [congruence|done].
    + rewrite (flat_insert Q Q' chain 0 (p_head Q) pl 0%Z); try done.
      * rewrite C7. replace (PCQueueSize * 0 + pl) with pl by lia. rewrite insert_at_start. do 3 f_equal. cbn [length]. lia.
      * by apply NoDup_app in C1 as (? & _).
      * rewrite Hb, decide_True by done. done.
      * intros y _ Hy. by rewrite Hb, decide_False by done.
    + intros y Hy. apply C8. by right.
  - rewrite Ew. revert G2. unfold prod_ok, filling, settled. cbn [p_tail Q' set_bufs bufs]. destruct (Hcd (p_tail Q)) as [_ ->].
    destruct act as [| | | | | |d' c1 push circ'|d' c1 push circ'| | |]; try done; intros [H1 H2]; (split; [done|]).
    + rewrite lookup_insert_ne; [done|]. intros E. apply NoDup_app in C1 as (_ & Hdis & _). apply (Hdis (p_head Q) Hin). rewrite E. left.
    + rewrite lookup_insert_ne; [done|]. intros E. apply NoDup_app in C1 as (_ & Hdis & _). apply (Hdis (p_head Q) Hin). rewrite E. left.
  - unfold cons_ok. unfold PCQueueSize in *. destruct (Nat.eqb_spec pl (256 - 1)); cbn; split_and!; try done; lia.
  - rewrite Eh. cbn [p_len Q' set_bufs length] in *. cbn in G4. lia.
Qed.

(** The invariant of the producer when the first buffer leaves the row. *)
Lemma prod_ok_shift Q' b rest w : prod_ok Q (b :: rest) (PCQueueSize + w) act -> rest <> [] -> (forall a, buf Q' a = buf Q a) -> bufs Q' = bufs Q ->
  p_tail Q' = p_tail Q -> prod_ok Q' rest w act.
Proof.
  intros Hp Hne Hb Hbu Ht. assert (Hl : PCQueueSize * (length (b :: rest) - 1) = PCQueueSize + PCQueueSize * (length rest - 1)).
  { destruct rest; [done|]. cbn. lia. }
  assert (Hset : forall v, settled Q (b :: rest) (PCQueueSize + v) -> settled Q' rest v).
  { unfold settled. intros v. rewrite Hl, Ht, Hb. lia. }
  revert Hp. unfold prod_ok, filling. rewrite Ht, !Hb, Hbu. destruct act as [| | | | | | | |d c1 push| |].
  - apply Hset.
  - intros [? ?]. auto.
  - intros [? ?]. auto.
  - intros (? & ? & ?). auto.
  - intros (? & ? & ? & ?). auto.
  - rewrite Hl. intros (? & ? & -> & ? & ?). split_and!; try done. lia.
  - rewrite Hl. intros ((? & ? & -> & ? & ?) & ?). split_and!; try done. lia.
  - rewrite Hl. intros ((? & ? & -> & ? & ?) & ?). split_and!; try done. lia.
  - intros (H1 & H2 & H3 & H4). split; [done|]. replace (PCQueueSize + w) with (w + 1 * PCQueueSize) in H2, H3 by lia.
    rewrite Nat.div_add in H2 by done. rewrite Nat.add_1_r in H2. rewrite Nat.Div0.mod_add in H3. split; [done|]. split; [done|].
    apply Hset. by rewrite Nat.add_assoc.
  - apply Hset.
  - apply Hset.
Qed.

(** The row has a second buffer once the first is used up. *)
Lemma second_buffer cn : good Q act cn chain pl R -> pl = PCQueueSize -> exists b b1 rest, chain = b :: b1 :: rest.
Proof.
  intros [G1 G2 G3 G4] ->. destruct (last_chain _ _ _ _ _ _ G1) as [_ Hlen].
  assert (2 <= length chain) as H2; [|destruct chain as [|b [|b1 rest]]; cbn in H2; [lia|lia|eauto]].
  destruct (decide (length chain = 1)) as [E|]; [|lia]. exfalso. unfold prod_ok, filling, settled in G2. rewrite E in G2.
  unfold PCQueueSize in *. destruct act; lia.
Qed.

Lemma step_next circ d : good Q act (CNext circ d) chain pl R -> exists chain', get_circ circ Q = Normal (buf Q circ) /\ c_next (buf Q circ) <> 0%Z /\
  good (set_p_head (c_next (buf Q circ)) Q) act (CFree circ d) chain' 0 R.
Proof.
  intros Hg. pose proof Hg as [G1 G2 (-> & Epl & Hd) G4]. destruct (second_buffer _ Hg Epl) as (b & b1 & rest & ->).
  pose proof G1 as [C1 C2 C3 C4 C5 C6 C7 C8 C9 C10]. injection C9 as ->. cbn [cons_extra] in *. rewrite app_nil_r in *.
  assert (En : c_next (buf Q (p_head Q)) = b1) by (apply (C5 0); done). rewrite En.
  exists (b1 :: rest). split; [apply get_buf; eapply chain_some; [exact G1|left]|]. split; [set_solver|].
  assert (Hbuf : forall a, buf (set_p_head b1 Q) a = buf Q a) by done. pose proof (C4 (p_head Q) ltac:(left)) as Hl0.
  split; [|rewrite Epl in G2; by apply (prod_ok_shift _ (p_head Q) (b1 :: rest) (length R) G2)|cbn; unfold PCQueueSize; split; [lia|done]|done].
  assert (Hperm : (b1 :: rest) ++ prod_extra act ++ [p_head Q] ≡ₚ (p_head Q :: b1 :: rest) ++ prod_extra act).
  { rewrite app_assoc, <- Permutation_cons_append. done. }
  split; try done.
  - by rewrite Hperm.
  - by rewrite Hperm.
  - intros a. by rewrite Hperm.
  - intros a Ha. rewrite Hbuf. apply C4. by right.
  - intros i a Ha. rewrite Hbuf. apply (C5 (S i)). done.
  - intros i a Ha. rewrite Hbuf. rewrite (C6 (S i) a Ha). by destruct (Nat.eqb_spec i 0).
  - unfold flat in C7. rewrite bind_cons in C7. change ((b1 :: rest) ≫= (fun a => c_data (buf Q a))) with (flat Q (b1 :: rest)) in C7.
    rewrite Epl in C7. apply (f_equal (drop PCQueueSize)) in C7. rewrite drop_app_length' in C7 by done. rewrite drop_app_length' in C7 by (by rewrite length_replicate).
    rewrite (flat_ext Q) by done. rewrite C7. change (replicate 0 0%Z) with (@nil ptr). cbn [app length]. do 2 f_equal. unfold PCQueueSize. lia.
Qed.

Lemma step_free circ d : good Q act (CFree circ d) chain pl R -> is_Some (bufs Q !! circ) /\
  good (set_bufs (delete circ (bufs Q)) Q) act (CDec d) chain pl R.
Proof.
  intros [G1 G2 G3 G4]. pose proof G1 as [C1 C2 C3 C4 C5 C6 C7 C8 C9 C10]. cbn [cons_extra] in *.
  assert (Hperm : chain ++ prod_extra act ++ [circ] ≡ₚ circ :: chain ++ prod_extra act).
  { rewrite app_assoc. by rewrite <- Permutation_cons_append. }
  rewrite Hperm in C1, C2. apply NoDup_cons in C1 as [Hc C1]. apply not_elem_of_cons in C2 as [Hc0 C2].
  split; [apply C3; rewrite Hperm; left|].
  assert (Hbuf : forall a, a <> circ -> buf (set_bufs (delete circ (bufs Q)) Q) a = buf Q a).
  { intros a Ha. unfold buf. cbn. by rewrite !lookup_total_alt, lookup_delete_ne. }
  assert (Hch : forall a, a ∈ chain -> a <> circ) by (intros a Ha ->; apply Hc, elem_of_app; by left).
  split; [| | |done].
  - cbn [cons_extra]. rewrite app_nil_r. eapply chain_ext; [exact G1| | |done|done|done|done].
    + intros a Ha. by rewrite Hbuf by auto.
    + intros a. cbn. rewrite lookup_delete_is_Some, C3, Hperm. set_solver.
  - revert G2. unfold prod_ok, filling, settled. cbn [p_tail set_bufs bufs]. rewrite Hbuf by (apply Hch; by eapply tail_in).
    destruct act as [| | | | | |d' c1 push circ'|d' c1 push circ'| | |]; try done; intros [H1 H2]; (split; [done|]);
      (rewrite lookup_delete_ne; [done|]; intros ->; apply Hc, elem_of_app; right; left).
  - exact G3.
Qed.

(** Every step of the consumer. *)
Lemma cons_step cn : good Q act cn chain pl R -> cn <> CIdle ->
  exists Q' cn' r chain' pl' R', PCQueuePop cn Q = Normal (Q', cn', r) /\ good Q' act cn' chain' pl' R' /\ p_lock Q' = p_lock Q /\
    (forall l, popped_by r l ++ held cn' ++ R' = l ++ held cn ++ R).
Proof.
  intros Hg Hne. destruct cn as [| | |circ pull d|circ d|circ d|d]; [done|..]; cbn [PCQueuePop].
  - destruct (p_len Q =? 0)%Z.
    + exists Q, CIdle, (Some 0%Z), chain, pl, R. split_and!; try done. pose proof (gd_cons _ _ _ _ _ _ Hg). by apply (good_consumer CLen).
    + exists Q, CData, None, chain, pl, R. split_and!; try done. pose proof (gd_cons _ _ _ _ _ _ Hg). by apply (good_consumer CLen).
  - pose proof Hg as [G1 G2 Hpl G4]. cbn in Hpl. destruct (first_cell _ Hg Hpl) as [E1 E2].
    rewrite get_buf by (eapply chain_some; [exact G1|by eapply head_in]). cbn [mbind outcome_bind]. rewrite E1, E2.
    destruct R as [|d R'] eqn:ER; cbn [head from_option id].
    + exists Q, CIdle, (Some 0%Z), chain, pl, []. split_and!; try done.
    + assert (d <> 0%Z) as Hd by (apply (ch_nonnull _ _ _ _ _ _ G1); left). destruct (Z.eqb_spec d 0); [done|].
      eexists Q, _, None, chain, pl, (d :: R'). split_and!; try done.
  - destruct (step_clear circ pull d Hg) as (Q' & R' & -> & E & El & Hg'). rewrite E. cbn [mbind outcome_bind].
    eexists Q', _, None, chain, (pl + 1), R'. split_and!; try done. intros l. by destruct (pull =? PCQueueSize - 1).
  - destruct (step_next circ d Hg) as (chain' & E & Hn & Hg'). rewrite E. cbn [mbind outcome_bind].
    destruct (Z.eqb_spec (c_next (buf Q circ)) 0) as [|_]; [done|]. cbn. eexists _, _, None, chain', 0, R. split_and!; done.
  - destruct (step_free circ d Hg) as [Hs Hg']. rewrite get_buf by done. cbn. eexists _, _, None, chain, pl, R. split_and!; done.
  - exists (set_p_len (p_len Q - 1) Q), CIdle, (Some d), chain, pl, R. split; [done|]. destruct Hg as [G1 G2 [Hpl Hd] G4]. split_and!; try done.
    + split; [|by revert G2|done|cbn in *; lia].
      eapply chain_ext; [exact G1|done|apply (ch_dom _ _ _ _ _ _ G1)|apply (ch_nodup _ _ _ _ _ _ G1)|apply (ch_zero _ _ _ _ _ _ G1)|done|done].
    + intros l. cbn. destruct (Z.eqb_spec d 0); [done|]. by rewrite <- app_assoc.
Qed.

End consumer.

(** ** The machine *)

Definition active (m : pc_machine) : prod_pc :=
  match p_lock (pcq m) with Some i => default PIdle (producers m !! i) | None => PIdle end.

(** A producer that is not between [CmiLock] and [CmiUnlock]. *)
Definition outside (pc : prod_pc) : Prop := match pc with PIdle => True | PLock d => d <> 0%Z | _ => False end.

Record pc_inv (m : pc_machine) (chain : list Z) (pl : nat) (R : list ptr) : Prop := {
  pci_good : good (pcq m) (active m) (consumer m) chain pl R;
  pci_lock i pc : producers m !! i = Some pc -> outside pc \/ p_lock (pcq m) = Some i;
  pci_held i : p_lock (pcq m) = Some i -> exists pc, producers m !! i = Some pc /\ ~ outside pc /\ forall d, pc <> PLock d;
  pci_order : stored m = popped m ++ held (consumer m) ++ R
}.

Lemma lookup_set {A} (l : list A) i j x y : <[i := x]> l !! j = Some y -> (j = i /\ y = x) \/ (j <> i /\ l !! j = Some y).
Proof. intros [(-> & -> & _)|[? ?]]%list_lookup_insert_Some; auto. Qed.

(** A producer outside the lock moves. *)
Lemma inv_outside m chain pl R i pc pc' : pc_inv m chain pl R -> producers m !! i = Some pc -> outside pc -> outside pc' ->
  pc_inv (mk_pcm (pcq m) (<[i := pc']> (producers m)) (consumer m) (stored m) (popped m)) chain pl R.
Proof.
  intros [I1 I2 I3 I4] Hi Ho Ho'. assert (Hl : p_lock (pcq m) <> Some i).
  { intros (pc0 & E & Hn & _)%I3. rewrite Hi in E. by injection E as ->. }
  split; [|intros j q [[-> ->]|[_ Hq]]%lookup_set; [by left|by apply I2]| |done].
  - revert I1. unfold active. cbn. destruct (p_lock (pcq m)) as [j|]; [|done]. rewrite list_lookup_insert_ne; [done|]. congruence.
  - intros j Hj. cbn in Hj. cbn [producers]. rewrite list_lookup_insert_ne by congruence. by apply I3.
Qed.

Lemma inv_lock m chain pl R i d : pc_inv m chain pl R -> producers m !! i = Some (PLock d) -> d <> 0%Z -> p_lock (pcq m) = None ->
  pc_inv (mk_pcm (set_p_lock (Some i) (pcq m)) (<[i := PTail d]> (producers m)) (consumer m) (stored m) (popped m)) chain pl R.
Proof.
  intros [I1 I2 I3 I4] Hi Hd El. apply lookup_lt_Some in Hi as Hlt. split.
  - assert (active (mk_pcm (set_p_lock (Some i) (pcq m)) (<[i := PTail d]> (producers m)) (consumer m) (stored m) (popped m)) = PTail d) as ->.
    { unfold active. cbn. by rewrite list_lookup_insert_eq. }
    unfold active in I1. rewrite El in I1. apply (good_quiet (pcq m) _ _ _ _ PIdle); try done. cbn. lia.
  - intros j q [[-> ->]|[_ Hq]]%lookup_set; [by right|]. apply I2 in Hq. rewrite El in Hq. by destruct Hq; [left|].
  - intros j [= <-]. exists (PTail d). cbn. rewrite list_lookup_insert_eq by done. split; [done|]. split; [tauto|done].
  - done.
Qed.

Lemma inv_inside m chain pl R i pc fresh : pc_inv m chain pl R -> producers m !! i = Some pc -> match pc with PIdle | PLock _ => False | _ => True end ->
  fresh <> 0%Z -> bufs (pcq m) !! fresh = None ->
  exists Q' pc' r chain' R', PCQueuePush i fresh pc (pcq m) = Normal (Q', pc', r) /\
    pc_inv (mk_pcm Q' (<[i := pc']> (producers m)) (consumer m) (stored_by r (stored m)) (popped m)) chain' pl R'.
Proof.
  intros [I1 I2 I3 I4] Hi Hpc H0 Hf. apply lookup_lt_Some in Hi as Hlt.
  assert (El : p_lock (pcq m) = Some i) by (destruct (I2 i pc Hi) as [H|H]; [by destruct pc|done]).
  assert (Ea : active m = pc) by (unfold active; by rewrite El, Hi). rewrite Ea in I1.
  destruct (prod_step _ _ _ _ _ i fresh pc I1 Hpc H0 Hf) as (Q' & pc' & r & chain' & R' & E & Hg & Er & Hst & Hend).
  exists Q', pc', r, chain', R'. split; [done|].
  assert (Hcase : (pc = PUnlock /\ pc' = PIdle /\ p_lock Q' = None) \/ (p_lock Q' = Some i /\ match pc' with PIdle | PLock _ => False | _ => True end)).
  { rewrite <- El. destruct pc; tauto. }
  split.
  - revert Hg. unfold active. cbn. destruct Hcase as [(_ & -> & ->)|[-> _]]; [done|]. by rewrite list_lookup_insert_eq.
  - cbn [pcq]. intros j q [[-> ->]|[Hj Hq]]%lookup_set.
    + destruct Hcase as [(_ & -> & _)|[-> _]]; [by left|by right].
    + apply I2 in Hq as [Hq|Hq]; [by left|]. congruence.
  - intros j Hj. cbn in Hj. destruct Hcase as [(_ & _ & E')|[E' Hp]]; rewrite E' in Hj; [done|]. injection Hj as <-. exists pc'. cbn.
    rewrite list_lookup_insert_eq by done. split; [done|]. by destruct pc'; (split; [tauto|]).
  - cbn [stored popped consumer]. rewrite I4, <- Er, !Hst. rewrite <- !app_assoc. do 3 f_equal.
Qed.

Lemma inv_consumer m chain pl R : pc_inv m chain pl R -> consumer m <> CIdle ->
  exists Q' cn' r chain' pl' R', PCQueuePop (consumer m) (pcq m) = Normal (Q', cn', r) /\
    pc_inv (mk_pcm Q' (producers m) cn' (stored m) (popped_by r (popped m))) chain' pl' R'.
Proof.
  intros [I1 I2 I3 I4] Hc. destruct (cons_step _ _ _ _ _ (consumer m) I1 Hc) as (Q' & cn' & r & chain' & pl' & R' & E & Hg & El & Ho).
  exists Q', cn', r, chain', pl', R'. split; [done|]. split.
  - revert Hg. unfold active. cbn. by rewrite El.
  - cbn. rewrite El. apply I2.
  - cbn. rewrite El. apply I3.
  - cbn. by rewrite I4, Ho.
Qed.

Lemma inv_pc_fire m chain pl R e o : pc_inv m chain pl R -> pc_fire e m = Some o ->
  exists m' chain' pl' R', o = Normal m' /\ pc_inv m' chain' pl' R'.
Proof.
  intros Hi. destruct e as [i d|i fresh| |]; cbn [pc_fire].
  - destruct (producers m !! i) as [[]|] eqn:Ei; try done. destruct (Z.eqb_spec d 0); [done|]. intros [= <-]. eexists _, chain, pl, R.
    split; [done|]. by apply (inv_outside m chain pl R i PIdle).
  - destruct (producers m !! i) as [pc|] eqn:Ei; [|done]. assert (Hcase : match pc with PIdle | PLock _ => False | _ => True end \/ pc = PIdle \/ exists d, pc = PLock d) by (destruct pc; eauto).
    destruct Hcase as [Hin|[->|[d ->]]]; [|done|].
    + intros E. destruct (Z.eqb_spec fresh 0) as [|H0]; [by destruct pc|]. cbn [orb] in E.
      destruct (bool_decide_reflect (is_Some (bufs (pcq m) !! fresh))) as [|Hf]; [by destruct pc|].
      destruct (inv_inside m chain pl R i pc fresh Hi Ei Hin H0) as (Q' & pc' & r & chain' & R' & Ep & Hi').
      { by apply eq_None_not_Some. }
      exists (mk_pcm Q' (<[i := pc']> (producers m)) (consumer m) (stored_by r (stored m)) (popped m)), chain', pl, R'. split; [|done].
      assert (Some ('(Q, pc, r) ← PCQueuePush i fresh pc (pcq m);
        Normal (mk_pcm Q (<[i := pc]> (producers m)) (consumer m) (stored_by r (stored m)) (popped m))) = Some o) as E2 by (by destruct pc).
      rewrite Ep in E2. by injection E2.
    + destruct ((fresh =? 0)%Z || _); [done|]. intros [= <-]. cbn [PCQueuePush].
      destruct (pci_lock _ _ _ _ Hi i (PLock d) Ei) as [Hd|Hl].
      * destruct (p_lock (pcq m)) as [j|] eqn:El; cbn.
        -- exists m, chain, pl, R. split; [|done]. rewrite list_insert_id by done. by destruct m.
        -- eexists _, chain, pl, R. split; [done|]. by apply inv_lock.
      * apply (pci_held _ _ _ _ Hi) in Hl as (pc & E & _ & Hn). rewrite Ei in E. injection E as <-. by destruct (Hn d).
  - destruct (consumer m) eqn:Ec; try done. intros [= <-]. eexists _, chain, pl, R. split; [done|].
    destruct Hi as [I1 I2 I3 I4]. rewrite Ec in *. split; try done. pose proof (gd_cons _ _ _ _ _ _ I1). by apply (good_consumer _ _ _ _ _ CIdle).
  - destruct (decide (consumer m = CIdle)) as [->|Hc]; [done|].
    destruct (inv_consumer m chain pl R Hi Hc) as (Q' & cn' & r & chain' & pl' & R' & E & Hi'). intros Ef.
    exists (mk_pcm Q' (producers m) cn' (stored m) (popped_by r (popped m))), chain', pl', R'. split; [|done].
    assert (Some ('(Q, pc, r) ← PCQueuePop (consumer m) (pcq m);
      Normal (mk_pcm Q (producers m) pc (stored m) (popped_by r (popped m)))) = Some o) as E2 by (by destruct (consumer m)).
    rewrite E in E2. by injection E2.
Qed.

Lemma inv_pc_initial n circ : circ <> 0%Z -> pc_inv (pc_initial n circ) [circ] 0 [].
Proof.
  intros H0. assert (Eb : buf (PCQueueCreate circ) circ = circ_zero) by (unfold buf; cbn; apply lookup_total_singleton_eq). split.
  - split.
    + cbn [prod_extra cons_extra active pc_initial pcq p_lock PCQueueCreate app]. split; cbn [app].
      * apply NoDup_singleton.
      * by intros ?%list_elem_of_singleton.
      * intros a. cbn. rewrite list_elem_of_singleton. split; [by intros [? [-> _]%lookup_singleton_Some]|]. intros ->. rewrite lookup_singleton_eq. by eexists.
      * intros a ->%list_elem_of_singleton. by rewrite Eb.
      * intros i a [-> <-]%list_lookup_singleton_Some. by rewrite Eb.
      * intros i a [-> <-]%list_lookup_singleton_Some. by rewrite Eb.
      * unfold flat. cbn. by rewrite Eb.
      * by intros d ?%elem_of_nil.
      * done.
      * done.
    + cbn. unfold settled. cbn [pc_initial pcq PCQueueCreate p_tail]. rewrite Eb. cbn. unfold PCQueueSize. lia.
    + cbn. unfold PCQueueSize. lia.
    + done.
  - intros i pc [-> _]%lookup_replicate. by left.
  - done.
  - done.
Qed.

Lemma inv_pc_reach n circ o : circ <> 0%Z -> pc_reach n circ o -> exists m chain pl R, o = Normal m /\ pc_inv m chain pl R.
Proof.
  intros H0. induction 1 as [|m e o _ IH Hf].
  - eexists _, [circ], 0, []. split; [done|]. by apply inv_pc_initial.
  - destruct IH as (m0 & chain & pl & R & [= <-] & Hi). by eapply inv_pc_fire.
Qed.

(** The consumer runs alone. *)
Fixpoint cons_run (fuel : nat) (m : pc_machine) : outcome pc_machine :=
  match fuel with
  | 0 => Normal m
  | S fuel => match pc_fire ECons m with Some o => m ← o; cons_run fuel m | None => Normal m end
  end.

(** Steps left of a pop. *)
Definition steps_left (pc : cons_pc) : nat :=
  match pc with CIdle => 0 | CLen => 6 | CData => 5 | CClear _ _ _ => 4 | CNext _ _ => 3 | CFree _ _ => 2 | CDec _ => 1 end.

Lemma cons_measure pc Q Q' pc' r : PCQueuePop pc Q = Normal (Q', pc', r) -> pc <> CIdle -> steps_left pc' < steps_left pc.
Proof.
  intros E Hne. destruct pc; try done; cbn [PCQueuePop] in E.
  - destruct (p_len Q =? 0)%Z; injection E as <- <- <-; cbn; lia.
  - destruct (get_circ (p_head Q) Q); [|done]. cbn in E. destruct (_ =? 0)%Z; injection E as <- <- <-; cbn; lia.
  - destruct (upd_circ _ _ Q); [|done]. cbn in E. injection E as <- <- <-. destruct (_ =? _); cbn; lia.
  - destruct (get_circ circ Q) as [c|]; [|done]. cbn in E. destruct (negb _); [|done]. cbn in E. injection E as <- <- <-. cbn. lia.
  - destruct (get_circ circ Q) as [c|]; [|done]. cbn in E. injection E as <- <- <-. cbn. lia.
  - injection E as <- <- <-. cbn. lia.
Qed.

Lemma cons_fire m Q cn r : PCQueuePop (consumer m) (pcq m) = Normal (Q, cn, r) -> consumer m <> CIdle ->
  pc_fire ECons m = Some (Normal (mk_pcm Q (producers m) cn (stored m) (popped_by r (popped m)))).
Proof. intros E Hne. cbn [pc_fire]. destruct (consumer m); try done; by rewrite E. Qed.

(** A pop in progress ends, with what it holds or finds. *)
Lemma cons_finish k m chain pl R : pc_inv m chain pl R -> steps_left (consumer m) <= k ->
  exists m', cons_run k m = Normal m' /\ consumer m' = CIdle /\ stored m' = stored m /\ producers m' = producers m.
Proof.
  revert m chain pl R. induction k as [|k IH]; intros m chain pl R Hi Hk.
  - exists m. destruct (consumer m) eqn:Ec; cbn in Hk; try lia. done.
  - cbn [cons_run]. destruct (decide (consumer m = CIdle)) as [Ec|Ec]; [exists m; cbn [pc_fire]; by rewrite Ec|].
    destruct (inv_consumer m chain pl R Hi Ec) as (Q' & cn' & r & chain' & pl' & R' & E & Hi'). rewrite (cons_fire m Q' cn' r E Ec). cbn [mbind outcome_bind].
    pose proof (cons_measure _ _ _ _ _ E Ec). destruct (IH _ _ _ _ Hi') as (m' & E' & Hc' & Hs' & Hp'); [cbn; lia|]. exists m'. done.
Qed.

(** What a pop that has found its data will return. *)
Definition will (pc : cons_pc) : list ptr := match pc with CClear _ _ d | CNext _ d | CFree _ d | CDec d => [d] | _ => [] end.
Definition found (pc : cons_pc) : Prop := match pc with CLen | CData => False | _ => True end.

Lemma will_step m chain pl R Q' cn' r : pc_inv m chain pl R -> found (consumer m) -> PCQueuePop (consumer m) (pcq m) = Normal (Q', cn', r) ->
  found cn' /\ popped_by r (popped m) ++ will cn' = popped m ++ will (consumer m).
Proof.
  intros [[G1 _ G3 _] _ _ _] Hf E. destruct (consumer m) as [| | |circ pull d|circ d|circ d|d]; try done; cbn [PCQueuePop] in E.
  - by injection E as <- <- <-.
  - destruct (upd_circ _ _ (pcq m)); [|done]. cbn in E. injection E as <- <- <-. by destruct (_ =? _).
  - destruct (get_circ circ (pcq m)) as [c|]; [|done]. cbn in E. destruct (negb _); [|done]. cbn in E. by injection E as <- <- <-.
  - destruct (get_circ circ (pcq m)) as [c|]; [|done]. cbn in E. by injection E as <- <- <-.
  - injection E as <- <- <-. cbn in *. destruct (Z.eqb_spec d 0); [tauto|]. by rewrite app_nil_r.
Qed.

Lemma cons_returns k m chain pl R : pc_inv m chain pl R -> found (consumer m) -> steps_left (consumer m) <= k ->
  exists m', cons_run k m = Normal m' /\ consumer m' = CIdle /\ popped m' = popped m ++ will (consumer m).
Proof.
  revert m chain pl R. induction k as [|k IH]; intros m chain pl R Hi Hf Hk.
  - exists m. destruct (consumer m) eqn:Ec; cbn in Hk; try lia. by rewrite app_nil_r.
  - cbn [cons_run]. destruct (decide (consumer m = CIdle)) as [Ec|Ec]; [exists m; cbn [pc_fire]; rewrite Ec; by rewrite app_nil_r|].
    destruct (inv_consumer m chain pl R Hi Ec) as (Q' & cn' & r & chain' & pl' & R' & E & Hi'). rewrite (cons_fire m Q' cn' r E Ec). cbn [mbind outcome_bind].
    pose proof (cons_measure _ _ _ _ _ E Ec). destruct (will_step m chain pl R Q' cn' r Hi Hf E) as [Hf' Ew].
    destruct (IH _ _ _ _ Hi') as (m' & E' & Hc' & Hp'); [done|cbn; lia|]. exists m'. split; [done|]. split; [done|]. by rewrite Hp', <- Ew.
Qed.

(** Between calls, [Q->len] counts the data and the first cell holds the
    next. *)
Definition between (m : pc_machine) : Prop := consumer m = CIdle /\ forall i pc, producers m !! i = Some pc -> pc = PIdle.

Lemma between_active m chain pl R : pc_inv m chain pl R -> between m -> active m = PIdle.
Proof. intros Hi [_ Hp]. unfold active. destruct (p_lock (pcq m)) as [i|]; [|done]. destruct (producers m !! i) as [pc|] eqn:E; [|done]. by apply Hp in E. Qed.

Lemma between_len m chain pl R : pc_inv m chain pl R -> between m -> p_len (pcq m) = Z.of_nat (length R) /\
  (forall d R', R = d :: R' -> PCQueueTop (pcq m) = Normal d).
Proof.
  intros Hi Hb. pose proof (between_active _ _ _ _ Hi Hb) as Ea. destruct Hb as [Hc _]. pose proof (pci_good _ _ _ _ Hi) as Hg. rewrite Ea, Hc in Hg.
  pose proof Hg as [G1 G2 G3 G4]. cbn in G3, G4. split; [lia|]. intros d R' ->. unfold PCQueueTop. destruct (Z.eqb_spec (p_len (pcq m)) 0); [cbn in G4; lia|].
  rewrite get_buf by (eapply chain_some; [exact G1|by eapply head_in]). cbn [mbind outcome_bind]. destruct (first_cell _ _ _ _ _ _ Hg G3) as [-> E]. by f_equal.
Qed.

Lemma between_pop m chain pl d R' : pc_inv m chain pl (d :: R') -> between m -> exists m1 m2, pc_fire EPop m = Some (Normal m1) /\
  cons_run 6 m1 = Normal m2 /\ consumer m2 = CIdle /\ popped m2 = popped m ++ [d].
Proof.
  intros Hi Hb. destruct (between_len _ _ _ _ Hi Hb) as [El _]. pose proof Hb as [Hc _]. cbn [pc_fire]. rewrite Hc.
  set (m1 := mk_pcm _ _ _ _ _). exists m1. assert (pc_fire EPop m = Some (Normal m1)) as Ef by (cbn [pc_fire]; by rewrite Hc).
  assert (Hi1 : pc_inv m1 chain pl (d :: R')).
  { destruct Hi as [I1 I2 I3 I4]. rewrite Hc in *. split; try done. pose proof (gd_cons _ _ _ _ _ _ I1). by apply (good_consumer _ _ _ _ _ CIdle). }
  assert (E1 : PCQueuePop CLen (pcq m) = Normal (pcq m, CData, None)).
  { cbn. destruct (Z.eqb_spec (p_len (pcq m)) 0); [cbn in El; lia|done]. }
  set (m2 := mk_pcm (pcq m) (producers m) CData (stored m) (popped m)).
  assert (Hi2 : pc_inv m2 chain pl (d :: R')).
  { destruct Hi as [I1 I2 I3 I4]. rewrite Hc in *. split; try done. pose proof (gd_cons _ _ _ _ _ _ I1). by apply (good_consumer _ _ _ _ _ CIdle). }
  pose proof (pci_good _ _ _ _ Hi2) as Hg. pose proof Hg as [G1 _ Hpl _]. cbn in Hpl. destruct (first_cell _ _ _ _ _ _ Hg Hpl) as [E2 E3].
  assert (Hd : d <> 0%Z) by (apply (ch_nonnull _ _ _ _ _ _ G1); left).
  assert (E4 : PCQueuePop CData (pcq m) = Normal (pcq m, CClear (p_head (pcq m)) pl d, None)).
  { cbn [PCQueuePop]. rewrite get_buf by (eapply chain_some; [exact G1|by eapply head_in]). cbn [mbind outcome_bind]. cbn [pcq m2] in E2, E3. rewrite E2, E3.
    cbn. by destruct (Z.eqb_spec d 0). }
  destruct (inv_consumer m2 _ _ _ Hi2) as (Q3 & cn3 & r3 & chain3 & pl3 & R3 & E5 & Hi3); [done|]. cbn [consumer pcq m2] in E5. rewrite E4 in E5. injection E5 as <- <- <-.
  destruct (cons_returns 4 _ _ _ _ Hi3) as (m4 & E6 & Hc4 & Hp4); [done|cbn; lia|].
  exists m4. split; [done|]. split; [|split; [done|]].
  - change 6 with (S (S 4)). cbn [cons_run]. rewrite (cons_fire m1 _ _ _ E1) by done. cbn [mbind outcome_bind].
    rewrite (cons_fire (mk_pcm (pcq m) (producers m1) CData (stored m1) (popped_by None (popped m1))) _ _ _ E4) by done. exact E6.
  - rewrite Hp4. done.
Qed.

(** ** What the queue promises *)

(** C18: for any number of producers that push under the lock and one
    consumer that pops without it, in every interleaving of their memory
    accesses: no thread touches memory that was freed or fails the assertion;
    the data returned by the pops is, in order, a prefix of the data in the
    order in which the producers stored it.  When no call is under way,
    [PCQueueLength] is the number of data not yet returned, [PCQueueTop] is
    the next of them, and a pop that runs alone ends and returns it. *)
Theorem pcq_fifo n circ o : circ <> 0%Z -> pc_reach n circ o -> exists m R, o = Normal m /\
  stored m = popped m ++ held (consumer m) ++ R /\
  (between m -> PCQueueLength (pcq m) = Z.of_nat (length R) /\
     forall d R', R = d :: R' -> PCQueueTop (pcq m) = Normal d /\
       exists m1 m2, pc_fire EPop m = Some (Normal m1) /\ cons_run 6 m1 = Normal m2 /\ consumer m2 = CIdle /\ popped m2 = popped m ++ [d]).
Proof.
  intros H0 Hr. destruct (inv_pc_reach n circ o H0 Hr) as (m & chain & pl & R & -> & Hi). exists m, R. split; [done|].
  split; [apply (pci_order _ _ _ _ Hi)|]. intros Hb. destruct (between_len _ _ _ _ Hi Hb) as [El Ht]. split; [done|].
  intros d R' E. split; [by eapply Ht|]. subst R. by eapply between_pop.
Qed.

Fixpoint pc_run (es : list pc_event) (m : pc_machine) : option (outcome pc_machine) :=
  match es with
  | [] => Some (Normal m)
  | e :: es => match pc_fire e m with Some (Normal m) => pc_run es m | o => o end
  end.

Lemma pc_reach_run n circ es m o : pc_reach n circ (Normal m) -> pc_run es m = Some o -> pc_reach n circ o.
Proof.
  revert m. induction es as [|e es IH]; intros m Hr; cbn [pc_run]; [by intros [= <-]|].
  destruct (pc_fire e m) as [[m'|]|] eqn:E; [|intros [= <-]; by eapply pc_reach_fire|done]. apply IH. by eapply pc_reach_fire.
Qed.

(** Two producers; the second waits for the lock while the consumer takes
    what the first has stored. *)
Definition handover : list pc_event :=
  [EPush 0 7; EPush 1 8; EProd 0 99; EProd 1 99; EProd 0 99; EProd 0 99; EProd 0 99; EProd 0 99; EProd 0 99; EPop; ECons; EProd 0 99; ECons;
   EProd 1 99; ECons; EProd 1 99; ECons; EProd 1 99; EProd 1 99; EProd 1 99; EProd 1 99; EProd 1 99].

Lemma pcq_fifo_witness : exists o m R, pc_run handover (pc_initial 2 5) = Some o /\ o = Normal m /\ stored m = [7; 8]%Z /\ popped m = [7]%Z /\
  stored m = popped m ++ held (consumer m) ++ R.
Proof.
  assert (match pc_run handover (pc_initial 2 5) with Some (Normal m) => (stored m, popped m) | _ => ([], []) end = ([7; 8], [7])%Z) as Ev by (vm_compute; reflexivity).
  revert Ev. destruct (pc_run handover (pc_initial 2 5)) as [o|] eqn:E; intros Ev; [|discriminate Ev].
  destruct (pcq_fifo 2 5 o) as (m & R & -> & Ho & _); [lia|eapply pc_reach_run; [apply pc_reach_initial|exact E]|].
  exists (Normal m), m, R. split; [reflexivity|]. split; [reflexivity|].
  injection Ev as Es Ep. split; [exact Es|]. split; [exact Ep|exact Ho].
Defined.

(** [PCQueueDestroy] reads [next] of a buffer that it has just freed. *)
Lemma destroy_reads_freed Q : p_head Q <> p_tail Q -> PCQueueDestroy Q = Aborted.
Proof.
  intros Hne. unfold PCQueueDestroy. cbn [destroy_bufs]. destruct (Z.eqb_spec (p_head Q) (p_tail Q)); [done|].
  unfold get_circ. cbn. by rewrite lookup_delete_eq.
Qed.
