(* ===== verification/Broadcast.v ===== *)
(** * Broadcast: broadcasts over the nodes (arch/util/machine-broadcast.c)

    A broadcast is forwarded from node to node, along a spanning tree or a
    hypercube around the node that started it; each node hands the message to
    all its processors, or to its node queue.  Messages carry the number of
    the starting node plus one, negated for broadcasts to nodes.  Nodes have
    the same number of processors.  Copies are made for every send
    ([CMK_BROADCAST_USE_CMIREFERENCE] is off). *)

From S2P Require Import Prelude.
#[local] Open Scope Z_scope.

(** [CMI_BROADCAST_ROOT], [CMI_DEST_RANK] and the rest of the message. *)
Record bmsg := mk_bmsg { root : Z; rank : Z; payload : Z }.
Definition set_rank (r : Z) (m : bmsg) : bmsg := mk_bmsg (root m) r (payload m).
Definition CMI_SET_BROADCAST_ROOT (r : Z) (m : bmsg) : bmsg := mk_bmsg r (rank m) (payload m).

Definition BROADCAST_SPANNING_FACTOR : Z := 4.
Definition DGRAM_NODEMESSAGE : Z := 8187.

(** The scheme of the build. *)
Inductive scheme := SpanningTree | HyperCube.

(** The shape of the machine; [topoTree] is the topology-aware tree, where
    there is one: the children of a node in the tree around a start node. *)
Class Nodes := {
  CmiNumNodes : Z;
  CmiMyNodeSize : Z;
  bcast_scheme : scheme;
  topoTree : option (Z -> Z -> list Z)
}.

Section bcast.
Context {K : Nodes}.

Definition CmiNumPes : Z := CmiNumNodes * CmiMyNodeSize.
Definition CmiNodeFirst (nd : Z) : Z := nd * CmiMyNodeSize.
Definition CmiNodeOf (pe : Z) : Z := pe / CmiMyNodeSize.
Definition CmiRankOf (pe : Z) : Z := pe mod CmiMyNodeSize.

(** What a node does: messages to other nodes, messages to the queues of its
    processors by rank, and to its node queue. *)
Record effects := mk_effects { sends : list (Z * bmsg); pushes : list (Z * bmsg); node_pushes : list bmsg }.

(** ** The spanning tree *)

(** [for (i=1; i<=BROADCAST_SPANNING_FACTOR; i++)] with [n] rounds left. *)
Fixpoint spanning_loop (n : nat) (i myNode startNode : Z) : outcome (list Z) :=
  match n with
  | O => Normal []
  | S n =>
      let nd := myNode - startNode in
      let nd := if nd <? 0 then nd + CmiNumNodes else nd in
      let nd := BROADCAST_SPANNING_FACTOR * nd + i in
      if CmiNumNodes - 1 <? nd then Normal []
      else
        let nd := Z.rem (nd + startNode) CmiNumNodes in
        _ ← CmiAssert ((0 <=? nd) && negb (nd =? myNode));
        l ← spanning_loop n (i + 1) myNode startNode;
        Normal (nd :: l)
  end.

Definition SendSpanningChildren (msg : bmsg) (rankToAssign myNode startNode : Z) : outcome (list (Z * bmsg)) :=
  let msg := set_rank rankToAssign msg in
  let nds :=
    match topoTree with
    | None => spanning_loop (Z.to_nat BROADCAST_SPANNING_FACTOR) 1 myNode startNode
    | Some children => Normal (children startNode myNode)
    end in
  _ ← CmiAssert ((0 <=? startNode) && (startNode <? CmiNumNodes));
  nds ← nds;
  Normal (map (fun nd => (nd, msg)) nds).

(** ** The hypercube *)

(** [while (tmp>0)] of the initialisation of [CmiNodesDim]. *)
Fixpoint dim_loop (fuel : nat) (tmp dim : Z) : Z :=
  match fuel with
  | O => dim
  | S fuel => if 0 <? tmp then dim_loop fuel (Z.shiftr tmp 1) (dim + 1) else dim
  end.

Definition CmiNodesDim : Z :=
  let dim := dim_loop (Z.to_nat CmiNumNodes) (CmiNumNodes - 1) 0 in
  if CmiNumNodes =? 1 then 1 else dim.

(** [for(cnt>>=1; cnt>0; cnt>>=1)]: the test and the body, then the shift. *)
Fixpoint hyper_loop (fuel : nat) (cnt relDist myNode startNode : Z) : outcome (list Z) :=
  match fuel with
  | O => Normal []
  | S fuel =>
      if 0 <? cnt then
        let nd := relDist + cnt in
        if CmiNumNodes <=? nd then hyper_loop fuel (Z.shiftr cnt 1) relDist myNode startNode
        else
          let nd := Z.rem (nd + startNode) CmiNumNodes in
          _ ← CmiAssert ((0 <=? nd) && negb (nd =? myNode));
          l ← hyper_loop fuel (Z.shiftr cnt 1) relDist myNode startNode;
          Normal (nd :: l)
      else Normal []
  end.

Definition SendHyperCube (msg : bmsg) (rankToAssign myNode startNode : Z) : outcome (list (Z * bmsg)) :=
  let msg := set_rank rankToAssign msg in
  let relDist := myNode - startNode in
  let relDist := if relDist <? 0 then relDist + CmiNumNodes else relDist in
  let cnt := if relDist =? 0 then Z.shiftl 1 CmiNodesDim else Z.land relDist (Z.lnot relDist + 1) in
  let cnt := Z.shiftr cnt 1 in
  nds ← hyper_loop (S (Z.to_nat cnt)) cnt relDist myNode startNode;
  Normal (map (fun nd => (nd, msg)) nds).

(** ** On one node *)

(** [SendToPeers]: every rank but the one the message names. *)
Definition SendToPeers (msg : bmsg) : list (Z * bmsg) :=
  (fun i => (i, msg)) <$> seqZ 0 (rank msg) ++ seqZ (rank msg + 1) (CmiMyNodeSize - (rank msg + 1)).

Definition SendSpanningChildrenProc (msg : bmsg) (myNode : Z) : outcome effects :=
  let startnode := root msg - 1 in
  l ← SendSpanningChildren msg 0 myNode startnode;
  Normal (mk_effects l (SendToPeers msg) []).

Definition SendHyperCubeProc (msg : bmsg) (myNode : Z) : outcome effects :=
  let startpe := root msg - 1 in
  let startnode := CmiNodeOf startpe in
  let startnode := if CmiNumPes <? startpe then startpe - CmiNumPes else startnode in
  l ← SendHyperCube msg 0 myNode startnode;
  Normal (mk_effects l (SendToPeers msg) []).

Definition SendSpanningChildrenNode (msg : bmsg) (myNode : Z) : outcome effects :=
  let startnode := - root msg - 1 in
  l ← SendSpanningChildren msg DGRAM_NODEMESSAGE myNode startnode;
  Normal (mk_effects l [] []).

Definition SendHyperCubeNode (msg : bmsg) (myNode : Z) : outcome effects :=
  let startnode := - root msg - 1 in
  l ← SendHyperCube msg DGRAM_NODEMESSAGE myNode startnode;
  Normal (mk_effects l [] []).

(** A processor-level broadcast arrives: it is forwarded, then pushed to
    rank 0. *)
Definition processProcBcastMsg (msg : bmsg) (myNode : Z) : outcome effects :=
  _ ← CmiAssert (rank msg =? 0);
  let e := match bcast_scheme with SpanningTree => SendSpanningChildrenProc msg myNode | HyperCube => SendHyperCubeProc msg myNode end in
  e ← e;
  Normal (mk_effects (sends e) (pushes e ++ [(0, msg)]) (node_pushes e)).

Definition processNodeBcastMsg (msg : bmsg) (myNode : Z) : outcome effects :=
  let e := match bcast_scheme with SpanningTree => SendSpanningChildrenNode msg myNode | HyperCube => SendHyperCubeNode msg myNode end in
  e ← e;
  Normal (mk_effects (sends e) (pushes e) (node_pushes e ++ [msg])).

Definition handleOneBcastMsg (msg : bmsg) (myNode : Z) : outcome effects :=
  _ ← CmiAssert (negb (root msg =? 0));
  if 0 <? root msg then processProcBcastMsg msg myNode else processNodeBcastMsg msg myNode.

Definition handleOneRecvedMsg (msg : bmsg) (myNode : Z) : outcome effects :=
  let isBcastMsg := negb (root msg =? 0) in
  if isBcastMsg then handleOneBcastMsg msg myNode
  else if rank msg =? DGRAM_NODEMESSAGE then Normal (mk_effects [] [] [msg])
  else Normal (mk_effects [] [(rank msg, msg)] []).

(** ** Starting a broadcast *)

(** To all processors but the caller [myPe]. *)
Definition CmiSyncBroadcastFn1 (msg : bmsg) (myPe : Z) : outcome effects :=
  let msg := set_rank (CmiRankOf myPe) msg in
  let msg := CMI_SET_BROADCAST_ROOT (CmiNodeOf myPe + 1) msg in
  match bcast_scheme with
  | SpanningTree => SendSpanningChildrenProc msg (CmiNodeOf myPe)
  | HyperCube => SendHyperCubeProc msg (CmiNodeOf myPe)
  end.

(** To all processors; the copy to the caller goes to its own queue. *)
Definition CmiSyncBroadcastAllFn (msg : bmsg) (myPe : Z) : outcome effects :=
  e ← CmiSyncBroadcastFn1 msg myPe;
  Normal (mk_effects (sends e) ((CmiRankOf myPe, msg) :: pushes e) (node_pushes e)).

(** To all nodes but the caller's. *)
Definition CmiSyncNodeBroadcastFn (msg : bmsg) (myNode : Z) : outcome effects :=
  let msg := CMI_SET_BROADCAST_ROOT (- myNode - 1) msg in
  match bcast_scheme with
  | SpanningTree => SendSpanningChildrenNode msg myNode
  | HyperCube => SendHyperCubeNode msg myNode
  end.

Definition CmiSyncNodeBroadcastAllFn (msg : bmsg) (myNode : Z) : outcome effects :=
  e ← CmiSyncNodeBroadcastFn msg myNode;
  Normal (mk_effects (sends e) (pushes e) (msg :: node_pushes e)).

(** What the callers tell quiescence detection: [CQdCreate]. *)
Definition bcast_created : Z := CmiNumPes - 1.
Definition node_bcast_created : Z := CmiNumNodes - 1.

(** ** The machine

    Messages on the network, and what has arrived in the queues of the
    processors and of the nodes. *)

Record net := mk_net { wire : list (Z * bmsg); at_pe : list (Z * Z); at_node : list (Z * Z) }.

Definition apply_effects (nd : Z) (e : effects) (s : net) : net :=
  mk_net (wire s ++ sends e)
    (at_pe s ++ ((fun p => (CmiNodeFirst nd + p.1, payload p.2)) <$> pushes e))
    (at_node s ++ ((fun m => (nd, payload m)) <$> node_pushes e)).

(** A broadcast is started on an idle network. *)
Definition start_bcast (nd : Z) (e : outcome effects) : outcome net :=
  e ← e; Normal (apply_effects nd e (mk_net [] [] [])).

(** The [i]-th message on the wire arrives; [None] when there is none. *)
Definition arrive (i : nat) (s : net) : option (outcome net) :=
  '(nd, msg) ← wire s !! i;
  Some (e ← handleOneRecvedMsg msg nd;
        Normal (apply_effects nd e (mk_net (take i (wire s) ++ drop (S i) (wire s)) (at_pe s) (at_node s)))).

(** Arrivals in some order. *)
Inductive arrives : nat -> net -> outcome net -> Prop :=
  | arrives_0 s : arrives 0 s (Normal s)
  | arrives_S n i s s' o : arrive i s = Some (Normal s') -> arrives n s' o -> arrives (S n) s o
  | arrives_fail i s : arrive i s = Some Aborted -> arrives 1 s Aborted.

End bcast.
