(* ===== verification/BroadcastFacts.v ===== *)
(** * BroadcastFacts: a broadcast reaches every processor once

    Both schemes forward along a tree of nodes around the starting node, and
    messages that are forwarded along a tree visit every node once, in
    whatever order they arrive. *)

From S2P Require Import Prelude Broadcast.
From stdpp Require Import list_tactics.
Set Warnings "-clear-no-such-hyp".
#[local] Open Scope Z_scope.

(** ** Forwarding along a tree *)

(** The nodes below [N] form a tree around [r]. *)
Record is_tree (N r : Z) (kids : Z -> list Z) (parent : Z -> Z) (depth : Z -> nat) : Prop := {
  tr_root : 0 <= r < N;
  tr_nodup v : 0 <= v < N -> NoDup (kids v);
  tr_kids v w : 0 <= v < N -> w ∈ kids v <-> 0 <= w < N /\ w <> r /\ parent w = v;
  tr_parent w : 0 <= w < N -> w <> r -> 0 <= parent w < N /\ (depth (parent w) < depth w)%nat
}.

Section flood.
Context (N r : Z) (kids : Z -> list Z) (parent : Z -> Z) (depth : Z -> nat) (Ht : is_tree N r kids parent depth).

(** Messages under way to [bag], [seen] visited. *)
Record flood (bag seen : list Z) : Prop := {
  fl_nodup : NoDup (seen ++ bag);
  fl_elem w : w ∈ seen ++ bag <-> 0 <= w < N /\ w <> r /\ (parent w = r \/ parent w ∈ seen)
}.

Lemma flood_start : flood (kids r) [].
Proof.
  split; cbn; [apply (tr_nodup _ _ _ _ _ Ht), (tr_root _ _ _ _ _ Ht)|]. intros w. rewrite (tr_kids _ _ _ _ _ Ht) by apply (tr_root _ _ _ _ _ Ht).
  set_solver.
Qed.

Lemma flood_step l1 v l2 seen : flood (l1 ++ v :: l2) seen -> flood (l1 ++ l2 ++ kids v) (seen ++ [v]).
Proof.
  intros [H1 H2]. assert (Hv : 0 <= v < N /\ v <> r /\ (parent v = r \/ parent v ∈ seen)) by (apply H2; set_solver).
  destruct Hv as (Hv & Hvr & _). assert (Hk : forall w, w ∈ kids v <-> 0 <= w < N /\ w <> r /\ parent w = v) by (intros w; by apply (tr_kids _ _ _ _ _ Ht)).
  assert (Hvs : v ∉ seen) by (apply NoDup_app in H1 as (_ & Hd & _); intros Hin; apply (Hd v Hin); set_solver).
  assert (Hp : (seen ++ [v]) ++ l1 ++ l2 ++ kids v ≡ₚ (seen ++ l1 ++ v :: l2) ++ kids v) by solve_Permutation. split.
  - rewrite Hp. apply NoDup_app. split; [done|]. split; [|by apply (tr_nodup _ _ _ _ _ Ht)]. intros w Hw (_ & _ & E)%Hk.
    apply H2 in Hw as (_ & _ & [E'|E']); [congruence|]. by rewrite E in E'.
  - intros w. rewrite Hp, elem_of_app, H2, Hk, elem_of_app, list_elem_of_singleton. naive_solver.
Qed.

Lemma flood_range bag seen w : flood bag seen -> w ∈ seen ++ bag -> 0 <= w < N /\ w <> r.
Proof. intros Hf Hw. apply (fl_elem _ _ Hf) in Hw. tauto. Qed.

(** At the end everything but the root has been visited. *)
Lemma flood_end seen : flood [] seen -> r :: seen ≡ₚ seqZ 0 N.
Proof.
  intros Hf. pose proof Hf as [H1 H2]. rewrite app_nil_r in *. assert (Hall : forall n w, (depth w <= n)%nat -> 0 <= w < N -> w <> r -> w ∈ seen).
  { induction n as [|n IH]; intros w Hd Hw Hr; destruct (tr_parent _ _ _ _ _ Ht w Hw Hr) as [Hp Hlt]; [lia|].
    apply H2. split; [done|]. split; [done|]. destruct (decide (parent w = r)); [by left|]. right. apply IH; [lia|done|done]. }
  apply NoDup_Permutation; [|apply NoDup_seqZ|].
  - constructor; [|done]. intros Hr. by apply H2 in Hr as (_ & ? & _).
  - intros w. rewrite elem_of_cons, elem_of_seqZ. split.
    + intros [->|Hw]; [pose proof (tr_root _ _ _ _ _ Ht); lia|]. apply H2 in Hw. lia.
    + intros Hw. destruct (decide (w = r)); [by left|]. right. eapply Hall; [done|lia|done].
Qed.

(** No more than [N - 1] messages arrive. *)
Lemma flood_bound bag seen : flood bag seen -> Z.of_nat (length seen) <= N - 1.
Proof.
  intros Hf. pose proof (fl_nodup _ _ Hf) as Hn. pose proof (tr_root _ _ _ _ _ Ht) as Hr.
  assert (NoDup (r :: seen)) as Hn2.
  { constructor; [|by apply NoDup_app in Hn as (? & _)]. intros Hin. destruct (flood_range bag seen r Hf); [apply elem_of_app; by left|done]. }
  assert (r :: seen ⊆ seqZ 0 N) as Hsub.
  { intros w. rewrite elem_of_cons, elem_of_seqZ. intros [->|Hw]; [lia|]. destruct (flood_range bag seen w Hf); [apply elem_of_app; by left|lia]. }
  pose proof (submseteq_length _ _ (NoDup_submseteq _ _ Hn2 Hsub)) as Hl. rewrite length_seqZ in Hl. cbn in Hl. lia.
Qed.

End flood.

(** ** Trees around node 0, shifted to the starting node *)

Record rel_tree (N : Z) (kids : Z -> list Z) (parent : Z -> Z) : Prop := {
  rt_nodup x : 0 <= x < N -> NoDup (kids x);
  rt_kids x y : 0 <= x < N -> y ∈ kids x <-> 0 < y < N /\ parent y = x;
  rt_parent y : 0 < y < N -> 0 <= parent y < y
}.

(** The distance of a node from the start. *)
Definition rel (N start v : Z) : Z := (v - start) mod N.
Definition unrel (N start x : Z) : Z := (x + start) mod N.

Lemma rel_range N start v : 0 < N -> 0 <= rel N start v < N.
Proof. intros HN. by apply Z.mod_pos_bound. Qed.

Lemma unrel_rel N start v : 0 <= v < N -> unrel N start (rel N start v) = v.
Proof.
  intros Hv. unfold unrel, rel. rewrite Zplus_mod_idemp_l. replace (v - start + start) with v by lia. by apply Z.mod_small.
Qed.

Lemma rel_unrel N start x : 0 <= x < N -> rel N start (unrel N start x) = x.
Proof.
  intros Hx. unfold unrel, rel. rewrite Zminus_mod_idemp_l. replace (x + start - start) with x by lia. by apply Z.mod_small.
Qed.

Lemma shift_tree N kids parent start : 0 <= start < N -> rel_tree N kids parent ->
  is_tree N start (fun v => unrel N start <$> kids (rel N start v)) (fun w => unrel N start (parent (rel N start w))) (fun w => Z.to_nat (rel N start w)).
Proof.
  intros Hs [R1 R2 R3]. assert (HN : 0 < N) by lia. assert (H0 : rel N start start = 0) by (unfold rel; by rewrite Z.sub_diag, Z.mod_0_l by lia).
  assert (Hne : forall w, 0 <= w < N -> w <> start <-> 0 < rel N start w < N).
  { intros w Hw. pose proof (rel_range N start w HN). split; [|intros Hr ->; lia]. intros Hws. destruct (decide (rel N start w = 0)) as [E|]; [|lia].
    rewrite <- (unrel_rel N start w Hw), E, <- H0, unrel_rel in Hws by lia. done. }
  split; [done| | |].
  - intros v Hv. pose proof (rel_range N start v HN) as Hr. apply NoDup_fmap_2_strong; [|by apply R1].
    intros x y [Hx _]%R2 [Hy _]%R2 E; [|done..]. rewrite <- (rel_unrel N start x), <- (rel_unrel N start y), E by lia. done.
  - intros v w Hv. pose proof (rel_range N start v HN) as Hr. rewrite list_elem_of_fmap. split.
    + intros (y & -> & [Hy Ey]%R2); [|done]. unfold unrel at 1 2. split; [by apply Z.mod_pos_bound|].
      split; [apply Hne; [by apply Z.mod_pos_bound|]; fold (unrel N start y); rewrite rel_unrel by lia; lia|].
      fold (unrel N start y). rewrite rel_unrel, Ey by lia. by apply unrel_rel.
    + intros (Hw & Hws & E). exists (rel N start w). rewrite unrel_rel by done. split; [done|]. apply R2; [done|].
      apply (Hne w Hw) in Hws. split; [done|]. destruct (R3 _ Hws) as [Hp1 Hp2].
      rewrite <- E, rel_unrel by lia. done.
  - intros w Hw Hws. apply (Hne w Hw) in Hws. destruct (R3 _ Hws) as [Hp1 Hp2]. split; [by apply Z.mod_pos_bound|].
    rewrite rel_unrel by lia. lia.
Qed.

(** ** The spanning tree *)

Section loops.
Context {K : Nodes} (HN : 0 < CmiNumNodes).
Abbreviation N := CmiNumNodes.
Abbreviation F := BROADCAST_SPANNING_FACTOR.

(** The distance as the code computes it. *)
Lemma rel_code v start : 0 <= v < N -> 0 <= start < N -> (if v - start <? 0 then v - start + N else v - start) = rel N start v.
Proof.
  intros Hv Hs. unfold rel. destruct (Z.ltb_spec (v - start) 0).
  - rewrite <- (Z.mod_add (v - start) 1 N) by lia. rewrite Z.mul_1_l. symmetry. apply Z.mod_small. lia.
  - symmetry. apply Z.mod_small. lia.
Qed.

Lemma rem_code x start : 0 <= x < N -> 0 <= start < N -> Z.rem (x + start) N = unrel N start x.
Proof. intros Hx Hs. unfold unrel. apply Z.rem_mod_nonneg; lia. Qed.

(** The assertion holds: a message is not sent to the node itself. *)
Lemma not_self v start x : 0 <= v < N -> rel N start v < x < N -> (0 <=? unrel N start x) && negb (unrel N start x =? v) = true.
Proof.
  intros Hv Hx. pose proof (rel_range N start v HN). assert (0 <= unrel N start x) by (by apply Z.mod_pos_bound).
  apply andb_true_intro. split; [lia|]. apply negb_true_iff, Z.eqb_neq. assert (0 <= x < N) as Hx0 by lia.
  intros E. rewrite <- E, rel_unrel in Hx by done. lia.
Qed.

Definition spanning_kids (x : Z) : list Z := filter (fun y => y < N) (seqZ (F * x + 1) F).

Lemma spanning_loop_spec n i v start : 0 <= v < N -> 0 <= start < N -> 1 <= i ->
  spanning_loop n i v start = Normal (unrel N start <$> filter (fun y => y < N) (seqZ (F * rel N start v + i) (Z.of_nat n))).
Proof.
  intros Hv Hs. pose proof (rel_range N start v HN) as Hr. revert i. induction n as [|n IH]; intros i Hi; [done|].
  cbn [spanning_loop]. rewrite rel_code by done. unfold F in *. rewrite (seqZ_cons _ (Z.of_nat (S n))) by lia. destruct (Z.ltb_spec (N - 1) (4 * rel N start v + i)) as [Hlt|Hlt].
  - f_equal. rewrite filter_cons_False by lia. assert (filter (fun y => y < N) (seqZ (Z.succ (4 * rel N start v + i)) (Z.pred (Z.of_nat (S n)))) = []) as ->; [|done].
    apply elem_of_nil_inv. intros y [Hy1 Hy2]%list_elem_of_filter. apply elem_of_seqZ in Hy2. lia.
  - rewrite filter_cons_True by lia. rewrite rem_code by lia. rewrite not_self by lia. cbn [CmiAssert mbind outcome_bind].
    rewrite IH by lia. cbn [mbind outcome_bind fmap list_fmap]. do 2 f_equal. by replace (Z.succ (4 * rel N start v + i)) with (4 * rel N start v + (i + 1)) by lia; replace (Z.pred (Z.of_nat (S n))) with (Z.of_nat n) by lia.
Qed.

Lemma spanning_rel_tree : rel_tree N spanning_kids (fun y => (y - 1) / F).
Proof.
  unfold F in *. split.
  - intros x _. apply NoDup_filter, NoDup_seqZ.
  - intros x y Hx. unfold spanning_kids. rewrite list_elem_of_filter, elem_of_seqZ. unfold F.
    split; [intros [H1 H2]; split; [lia|]; symmetry; apply (Z.div_unique _ _ _ (y - 1 - 4 * x)); lia|].
    intros [H1 <-]. pose proof (Z.div_mod (y - 1) 4). pose proof (Z.mod_pos_bound (y - 1) 4). lia.
  - intros y Hy. split; [apply Z.div_pos; lia|]. apply Z.div_lt_upper_bound; lia.
Qed.

End loops.

(** ** The hypercube *)

Lemma odd_part y : 0 < y -> exists (b : nat) q, y = 2 ^ Z.of_nat b * (2 * q + 1) /\ 0 <= q.
Proof.
  intros Hy. assert (Hn : forall n, (Z.to_nat y <= n)%nat -> exists (b : nat) q, y = 2 ^ Z.of_nat b * (2 * q + 1) /\ 0 <= q); [|by eapply Hn].
  intros n. revert y Hy. induction n as [|n IH]; intros y Hy Hn; [lia|]. pose proof (Z.div_mod y 2) as Hd. pose proof (Z.mod_pos_bound y 2) as Hm.
  destruct (decide (y mod 2 = 1)) as [E|E]; [exists 0%nat, (y / 2); split; [rewrite Z.pow_0_r; lia|lia]|].
  destruct (IH (y / 2)) as (b & q & Eq & Hq); [lia|lia|]. exists (S b), q. split; [|done].
  rewrite Nat2Z.inj_succ, Z.pow_succ_r by lia. lia.
Qed.

(** [cnt = relDist & ((~relDist)+1)] is the lowest bit. *)
Lemma lowbit_spec (b : nat) q : Z.land (2 ^ Z.of_nat b * (2 * q + 1)) (Z.lnot (2 ^ Z.of_nat b * (2 * q + 1)) + 1) = 2 ^ Z.of_nat b.
Proof.
  assert (Hneg : forall x, Z.lnot x + 1 = - x) by (intros x; unfold Z.lnot; lia). rewrite Hneg. clear Hneg. induction b as [|b IH].
  - rewrite Z.pow_0_r, Z.mul_1_l. replace (- (2 * q + 1)) with (2 * Z.lnot q + 1) by (unfold Z.lnot; lia).
    apply Z.bits_inj_iff'. intros n Hn. destruct (decide (n = 0)) as [->|Hn0].
    + rewrite Z.land_spec, !Z.testbit_odd_0. done.
    + replace n with (Z.succ (n - 1)) by lia. rewrite Z.land_spec, !Z.testbit_odd_succ, Z.lnot_spec by lia.
      rewrite andb_negb_r. change 1 with (2 ^ 0). by rewrite Z.pow2_bits_false by lia.
  - rewrite Nat2Z.inj_succ, Z.pow_succ_r by lia. set (z := 2 ^ Z.of_nat b * (2 * q + 1)) in *.
    replace (2 * 2 ^ Z.of_nat b * (2 * q + 1)) with (Z.shiftl z 1) by (rewrite Z.shiftl_mul_pow2 by lia; unfold z; lia).
    replace (- Z.shiftl z 1) with (Z.shiftl (- z) 1) by (rewrite !Z.shiftl_mul_pow2 by lia; lia).
    rewrite <- Z.shiftl_land, IH, Z.shiftl_mul_pow2 by lia. lia.
Qed.

Definition lowbit (y : Z) : Z := Z.land y (Z.lnot y + 1).

Fixpoint powers (k : nat) : list Z := match k with O => [] | S k => 2 ^ Z.of_nat k :: powers k end.

Lemma elem_of_powers k x : x ∈ powers k <-> exists j : nat, (j < k)%nat /\ x = 2 ^ Z.of_nat j.
Proof.
  induction k as [|k IH]; cbn; [split; [by intros ?%elem_of_nil|intros (j & ? & _); lia]|]. rewrite elem_of_cons, IH. split.
  - intros [->|(j & Hj & ->)]; [exists k|exists j]; split; lia || done.
  - intros (j & Hj & ->). destruct (decide (j = k)) as [->|]; [by left|]. right. exists j. split; [lia|done].
Qed.

Lemma powers_nodup k : NoDup (powers k).
Proof.
  induction k as [|k IH]; constructor; [|done]. intros (j & Hj & E)%elem_of_powers. apply Z.pow_inj_r in E; lia.
Qed.

Section hyper.
Context {K : Nodes} (HN : 0 < CmiNumNodes).
Abbreviation N := CmiNumNodes.

(** The loop variable after [k] more rounds are due. *)
Definition cnt_of (k : nat) : Z := match k with O => 0 | S k => 2 ^ Z.of_nat k end.

Lemma cnt_shift k : Z.shiftr (2 ^ Z.of_nat k) 1 = cnt_of k.
Proof.
  rewrite Z.shiftr_div_pow2 by lia. destruct k as [|k]; [done|]. cbn [cnt_of]. rewrite Nat2Z.inj_succ, Z.pow_succ_r by lia.
  rewrite Z.pow_1_r, Z.mul_comm. by apply Z.div_mul.
Qed.

Lemma cnt_pos k : 0 < cnt_of k <-> (0 < k)%nat.
Proof. destruct k as [|k]; cbn; [lia|]. pose proof (Z.pow_pos_nonneg 2 (Z.of_nat k)). lia. Qed.

Lemma cnt_fuel k : (k <= Z.to_nat (cnt_of k))%nat.
Proof. destruct k as [|k]; [done|]. cbn [cnt_of]. pose proof (Z.pow_gt_lin_r 2 (Z.of_nat k)). lia. Qed.

Lemma hyper_loop_spec fuel k v start : (k <= fuel)%nat -> 0 <= v < N -> 0 <= start < N ->
  hyper_loop fuel (cnt_of k) (rel N start v) v start =
    Normal (unrel N start <$> filter (fun y => y < N) (Z.add (rel N start v) <$> powers k)).
Proof.
  intros Hf Hv Hs. pose proof (rel_range N start v HN) as Hr. revert k Hf. induction fuel as [|fuel IH]; intros k Hf.
  - destruct k; [done|lia].
  - cbn [hyper_loop]. destruct k as [|k]; [done|]. pose proof (proj2 (cnt_pos (S k)) ltac:(lia)) as Hc. destruct (Z.ltb_spec 0 (cnt_of (S k))); [|lia].
    cbn [cnt_of powers] in *. rewrite fmap_cons, cnt_shift, IH by lia. destruct (Z.leb_spec N (rel N start v + 2 ^ Z.of_nat k)).
    + by rewrite filter_cons_False by lia.
    + rewrite rem_code, not_self by lia. rewrite filter_cons_True by lia. done.
Qed.

Lemma dim_loop_spec fuel tmp d : 0 <= tmp -> (Z.to_nat tmp <= fuel)%nat ->
  d <= dim_loop fuel tmp d /\ tmp < 2 ^ (dim_loop fuel tmp d - d).
Proof.
  revert tmp d. induction fuel as [|fuel IH]; intros tmp d Ht Hf; cbn [dim_loop].
  - rewrite Z.sub_diag. replace tmp with 0 by lia. done.
  - destruct (Z.ltb_spec 0 tmp); [|rewrite Z.sub_diag; replace tmp with 0 by lia; done]. rewrite Z.shiftr_div_pow2 by lia. change (2 ^ 1) with 2.
    pose proof (Z.div_mod tmp 2). pose proof (Z.mod_pos_bound tmp 2).
    destruct (IH (tmp / 2) (d + 1)) as [IH1 IH2]; [lia|lia|]. split; [lia|].
    replace (dim_loop fuel (tmp / 2) (d + 1) - d) with (Z.succ (dim_loop fuel (tmp / 2) (d + 1) - (d + 1))) by lia.
    rewrite Z.pow_succ_r by lia. lia.
Qed.

Lemma dim_spec : 0 <= CmiNodesDim /\ N <= 2 ^ CmiNodesDim.
Proof.
  unfold CmiNodesDim. destruct (dim_loop_spec (Z.to_nat N) (N - 1) 0) as [H1 H2]; [lia|lia|]. rewrite Z.sub_0_r in H2.
  destruct (Z.eqb_spec N 1) as [->|]; [done|]. lia.
Qed.

(** How many bits below the node's own are its to set. *)
Definition hyper_bits (x : Z) : nat := Z.to_nat (if x =? 0 then CmiNodesDim else Z.log2 (lowbit x)).
Definition hyper_kids (x : Z) : list Z := filter (fun y => y < N) (Z.add x <$> powers (hyper_bits x)).

Lemma hyper_bits_odd (b : nat) q : 0 <= q -> hyper_bits (2 ^ Z.of_nat b * (2 * q + 1)) = b.
Proof.
  intros Hq. unfold hyper_bits, lowbit. pose proof (Z.pow_pos_nonneg 2 (Z.of_nat b)). destruct (Z.eqb_spec (2 ^ Z.of_nat b * (2 * q + 1)) 0); [nia|].
  rewrite lowbit_spec, Z.log2_pow2 by lia. lia.
Qed.

Lemma hyper_cnt x : 0 <= x -> Z.shiftr (if x =? 0 then Z.shiftl 1 CmiNodesDim else lowbit x) 1 = cnt_of (hyper_bits x).
Proof.
  intros Hx. destruct dim_spec as [Hd _]. unfold hyper_bits. destruct (Z.eqb_spec x 0) as [->|Hne].
  - rewrite Z.shiftl_mul_pow2, Z.mul_1_l by lia. rewrite <- cnt_shift. by rewrite Z2Nat.id by lia.
  - destruct (odd_part x) as (b & q & -> & Hq); [lia|]. unfold lowbit. rewrite lowbit_spec, Z.log2_pow2 by lia. rewrite Nat2Z.id. apply cnt_shift.
Qed.

Lemma lowbit_odd (b : nat) q : lowbit (2 ^ Z.of_nat b * (2 * q + 1)) = 2 ^ Z.of_nat b.
Proof. apply lowbit_spec. Qed.

Lemma hyper_rel_tree : rel_tree N hyper_kids (fun y => y - lowbit y).
Proof.
  destruct dim_spec as [Hd0 Hd]. split.
  - intros x _. apply NoDup_filter, NoDup_fmap_2; [intros a b; lia|apply powers_nodup].
  - intros x y Hx. unfold hyper_kids. rewrite list_elem_of_filter, list_elem_of_fmap. split.
    + intros (Hy & z & -> & (j & Hj & ->)%elem_of_powers). pose proof (Z.pow_pos_nonneg 2 (Z.of_nat j)) as Hpj. split; [lia|].
      destruct (decide (x = 0)) as [->|Hx0].
      * replace (0 + 2 ^ Z.of_nat j) with (2 ^ Z.of_nat j * (2 * 0 + 1)) by lia. rewrite lowbit_odd. lia.
      * destruct (odd_part x) as (b & q & -> & Hq); [lia|]. rewrite hyper_bits_odd in Hj by done.
        replace (2 ^ Z.of_nat b * (2 * q + 1) + 2 ^ Z.of_nat j) with (2 ^ Z.of_nat j * (2 * (2 ^ (Z.of_nat b - Z.of_nat j - 1) * (2 * q + 1)) + 1)).
        { rewrite lowbit_odd. replace (Z.of_nat b) with (Z.of_nat j + 1 + (Z.of_nat b - Z.of_nat j - 1)) at 2 by lia. rewrite !Z.pow_add_r by lia. lia. }
        replace (Z.of_nat b) with (Z.of_nat j + 1 + (Z.of_nat b - Z.of_nat j - 1)) at 2 by lia. rewrite !Z.pow_add_r by lia. lia.
    + intros [Hy <-]. destruct (odd_part y) as (j & q & -> & Hq); [lia|]. rewrite lowbit_odd. pose proof (Z.pow_pos_nonneg 2 (Z.of_nat j)) as Hpj.
      split; [lia|]. exists (2 ^ Z.of_nat j). split; [lia|]. apply elem_of_powers. exists j. split; [|done].
      replace (2 ^ Z.of_nat j * (2 * q + 1) - 2 ^ Z.of_nat j) with (2 ^ Z.of_nat (S j) * q) by (rewrite Nat2Z.inj_succ, Z.pow_succ_r by lia; lia).
      destruct (decide (q = 0)) as [->|Hq0].
      * rewrite Z.mul_0_r. unfold hyper_bits. cbn [Z.eqb]. assert (2 ^ Z.of_nat j < 2 ^ CmiNodesDim) as Hlt by lia. apply Z.pow_lt_mono_r_iff in Hlt; lia.
      * destruct (odd_part q) as (c & p & -> & Hp); [lia|]. rewrite Z.mul_assoc, <- Z.pow_add_r, <- Nat2Z.inj_add, hyper_bits_odd by lia. lia.
  - intros y Hy. destruct (odd_part y) as (j & q & -> & Hq); [lia|]. rewrite lowbit_odd. pose proof (Z.pow_pos_nonneg 2 (Z.of_nat j)). nia.
Qed.

End hyper.

(** ** One node *)

(** The topology-aware tree, where there is one, is a tree around every
    start. *)
Class NodesOk {K : Nodes} := {
  nodes_pos : 0 < CmiNumNodes;
  node_size_pos : 0 < CmiMyNodeSize;
  topo_ok t start : topoTree = Some t -> 0 <= start < CmiNumNodes ->
    exists parent depth, is_tree CmiNumNodes start (t start) parent depth
}.

Section node.
Context {K : Nodes} {HK : NodesOk}.
Abbreviation N := CmiNumNodes.

Definition bcast_kids (start v : Z) : list Z :=
  match bcast_scheme, topoTree with
  | SpanningTree, Some t => t start v
  | SpanningTree, None => unrel N start <$> spanning_kids (rel N start v)
  | HyperCube, _ => unrel N start <$> hyper_kids (rel N start v)
  end.

Lemma kids_tree start : 0 <= start < N -> exists parent depth, is_tree N start (bcast_kids start) parent depth.
Proof.
  intros Hs. pose proof nodes_pos as HN. unfold bcast_kids. destruct bcast_scheme; [destruct topoTree as [t|] eqn:Et; [by apply topo_ok|]|].
  - eexists _, _. apply shift_tree; [done|apply spanning_rel_tree].
  - eexists _, _. apply shift_tree; [done|by apply hyper_rel_tree].
Qed.

Lemma spanning_sends m rk v start : bcast_scheme = SpanningTree -> 0 <= v < N -> 0 <= start < N ->
  SendSpanningChildren m rk v start = Normal (map (fun w => (w, set_rank rk m)) (bcast_kids start v)).
Proof.
  intros Eb Hv Hs. unfold SendSpanningChildren, bcast_kids. rewrite Eb.
  assert ((0 <=? start) && (start <? N) = true) as -> by (apply andb_true_intro; lia). cbn [CmiAssert mbind outcome_bind].
  destruct topoTree as [t|]; [done|]. rewrite (spanning_loop_spec nodes_pos) by lia. reflexivity.
Qed.

Lemma hyper_sends m rk v start : bcast_scheme = HyperCube -> 0 <= v < N -> 0 <= start < N ->
  SendHyperCube m rk v start = Normal (map (fun w => (w, set_rank rk m)) (bcast_kids start v)).
Proof.
  intros Eb Hv Hs. unfold SendHyperCube, bcast_kids. rewrite Eb. rewrite (rel_code nodes_pos) by done. pose proof (rel_range N start v nodes_pos) as Hr.
  fold (lowbit (rel N start v)). rewrite (hyper_cnt nodes_pos) by lia. rewrite (hyper_loop_spec nodes_pos) by (try done; pose proof (cnt_fuel (hyper_bits (rel N start v))); lia). done.
Qed.

(** A node-level message that started at [start]. *)
Lemma handle_node m v start : root m = - start - 1 -> rank m = DGRAM_NODEMESSAGE -> 0 <= v < N -> 0 <= start < N ->
  handleOneRecvedMsg m v = Normal (mk_effects (map (fun w => (w, m)) (bcast_kids start v)) [] [m]).
Proof.
  intros Er Ek Hv Hs. assert (Em : set_rank DGRAM_NODEMESSAGE m = m) by (destruct m; cbn in *; by subst).
  unfold handleOneRecvedMsg, handleOneBcastMsg. destruct (Z.eqb_spec (root m) 0); [lia|]. cbn [negb CmiAssert mbind outcome_bind].
  destruct (Z.ltb_spec 0 (root m)); [lia|]. unfold processNodeBcastMsg, SendSpanningChildrenNode, SendHyperCubeNode.
  replace (- root m - 1) with start by lia. destruct bcast_scheme eqn:Eb; [rewrite spanning_sends by done|rewrite hyper_sends by done]; by rewrite Em.
Qed.

(** Processor-level messages name their start by node, which the hypercube
    reads as a processor: they agree when nodes have one processor. *)
Definition proc_ok : Prop := bcast_scheme = SpanningTree \/ CmiMyNodeSize = 1.

Lemma proc_sends m v start : proc_ok -> root m = start + 1 -> 0 <= v < N -> 0 <= start < N ->
  match bcast_scheme with SpanningTree => SendSpanningChildrenProc m v | HyperCube => SendHyperCubeProc m v end =
    Normal (mk_effects (map (fun w => (w, set_rank 0 m)) (bcast_kids start v)) (SendToPeers m) []).
Proof.
  intros Hp Er Hv Hs. unfold SendSpanningChildrenProc, SendHyperCubeProc. replace (root m - 1) with start by lia.
  destruct bcast_scheme eqn:Eb; [by rewrite spanning_sends by done|]. destruct Hp as [?|Es]; [congruence|].
  unfold CmiNodeOf, CmiNumPes. rewrite Es, Z.div_1_r, Z.mul_1_r. destruct (Z.ltb_spec N start); [lia|]. by rewrite hyper_sends by done.
Qed.

Lemma handle_proc m v start : proc_ok -> root m = start + 1 -> rank m = 0 -> 0 <= v < N -> 0 <= start < N ->
  handleOneRecvedMsg m v = Normal (mk_effects (map (fun w => (w, m)) (bcast_kids start v)) (SendToPeers m ++ [(0, m)]) []).
Proof.
  intros Hp Er Ek Hv Hs. assert (Em : set_rank 0 m = m) by (destruct m; cbn in *; by subst).
  unfold handleOneRecvedMsg, handleOneBcastMsg. destruct (Z.eqb_spec (root m) 0); [lia|]. cbn [negb CmiAssert mbind outcome_bind].
  destruct (Z.ltb_spec 0 (root m)); [|lia]. unfold processProcBcastMsg. rewrite Ek. cbn [Z.eqb CmiAssert mbind outcome_bind].
  rewrite (proc_sends m v start) by done. by rewrite Em.
Qed.

(** ** The machine *)

Section run.
Context (start : Z) (m : bmsg) (P : list (Z * bmsg)) (B : list bmsg) (parent : Z -> Z) (depth : Z -> nat).
Context (Ht : is_tree N start (bcast_kids start) parent depth).
Context (Hm : forall v, 0 <= v < N -> handleOneRecvedMsg m v = Normal (mk_effects (map (fun w => (w, m)) (bcast_kids start v)) P B)).

(** What a visit leaves in the queues of a node. *)
Definition visit_pe (v : Z) : list (Z * Z) := (fun p => (CmiNodeFirst v + p.1, payload p.2)) <$> P.
Definition visit_node (v : Z) : list (Z * Z) := (fun b => (v, payload b)) <$> B.

Record run_inv (a0 b0 : list (Z * Z)) (s : net) (bag seen : list Z) : Prop := {
  ru_flood : flood N start parent bag seen;
  ru_wire : wire s = map (fun w => (w, m)) bag;
  ru_pe : at_pe s = a0 ++ (seen ≫= visit_pe);
  ru_node : at_node s = b0 ++ (seen ≫= visit_node)
}.

Lemma run_arrive a0 b0 s bag seen i o : run_inv a0 b0 s bag seen -> arrive i s = Some o ->
  exists s' bag' v, o = Normal s' /\ run_inv a0 b0 s' bag' (seen ++ [v]).
Proof.
  intros [R1 R2 R3 R4]. unfold arrive. rewrite R2. change (map (fun w => (w, m)) bag) with ((fun w => (w, m)) <$> bag). rewrite list_lookup_fmap.
  destruct (bag !! i) as [v|] eqn:Ei; [|done]. cbn [fmap option_fmap option_map mbind option_bind]. intros [= <-].
  assert (Hv : 0 <= v < N).
  { destruct (flood_range _ _ _ bag seen v R1) as [? _]; [|done]. apply elem_of_app. right. by eapply list_elem_of_lookup_2. }
  rewrite Hm by done. cbn [mbind outcome_bind]. eexists _, (take i bag ++ drop (S i) bag ++ bcast_kids start v), v. split; [reflexivity|].
  split; cbn [wire at_pe at_node apply_effects sends pushes node_pushes].
  - eapply (flood_step N start (bcast_kids start)); [exact Ht|]. by rewrite take_drop_middle.
  - change (map (fun w => (w, m)) (bcast_kids start v)) with ((fun w => (w, m)) <$> bcast_kids start v).
    rewrite <- fmap_take, <- fmap_drop, <- !fmap_app. by rewrite <- app_assoc.
  - rewrite R3, bind_app. cbn. by rewrite app_nil_r, <- app_assoc.
  - rewrite R4, bind_app. cbn. by rewrite app_nil_r, <- app_assoc.
Qed.

Lemma run_arrives n a0 b0 s bag seen o : run_inv a0 b0 s bag seen -> arrives n s o ->
  exists s' bag' seen', o = Normal s' /\ run_inv a0 b0 s' bag' seen' /\ (length seen' = length seen + n)%nat.
Proof.
  intros Hi Ha. revert bag seen Hi. induction Ha as [s|n i s s' o Hs _ IH|i s Hs]; intros bag seen Hi.
  - exists s, bag, seen. split; [done|]. split; [done|lia].
  - destruct (run_arrive a0 b0 s bag seen i _ Hi Hs) as (s1 & bag1 & v & [= <-] & Hi1).
    destruct (IH _ _ Hi1) as (s2 & bag2 & seen2 & -> & Hi2 & El). exists s2, bag2, seen2. rewrite length_app in El. cbn in El. split; [done|]. split; [done|lia].
  - by destruct (run_arrive a0 b0 s bag seen i _ Hi Hs) as (s1 & bag1 & v & ? & _).
Qed.

(** The whole run: at most [N - 1] arrivals, and at the end every other
    node has been visited once. *)
Lemma run_all n a0 b0 s o : wire s = map (fun w => (w, m)) (bcast_kids start start) -> at_pe s = a0 -> at_node s = b0 -> arrives n s o ->
  exists s' seen, o = Normal s' /\ Z.of_nat n <= N - 1 /\ (wire s' <> [] -> exists o', arrive 0 s' = Some o') /\
    at_pe s' = a0 ++ (seen ≫= visit_pe) /\ at_node s' = b0 ++ (seen ≫= visit_node) /\
    (wire s' = [] -> start :: seen ≡ₚ seqZ 0 N).
Proof.
  intros Hw Ea Eb Har. assert (Hi : run_inv a0 b0 s (bcast_kids start start) []).
  { split; [eapply flood_start; exact Ht|done|by rewrite app_nil_r|by rewrite app_nil_r]. }
  destruct (run_arrives n a0 b0 s _ [] o Hi Har) as (s' & bag & seen & -> & [R1 R2 R3 R4] & El). exists s', seen.
  split; [done|]. split; [pose proof (flood_bound _ _ _ _ _ Ht _ _ R1); cbn in El; lia|]. split; [|split; [done|split; [done|]]].
  - intros Hne. unfold arrive. destruct (wire s') as [|[nd msg] l]; [done|]. cbn. by eexists.
  - intros E. rewrite E in R2. destruct bag; [|done]. by eapply flood_end.
Qed.

End run.
End node.
