(* ===== verification/BroadcastSpec.v ===== *)
(** * BroadcastSpec: what a broadcast promises its caller *)

From S2P Require Import Prelude Broadcast BroadcastFacts.
From stdpp Require Import list_tactics.
Set Warnings "-clear-no-such-hyp".
#[local] Open Scope Z_scope.

Section spec.
Context {K : Nodes}.
Abbreviation N := CmiNumNodes.

(** The broadcast [e] started on node [nd]: whatever order the messages
    arrive in, nothing fails, at most one message arrives per other node, the
    run goes on while there are messages, and [final] holds at the end. *)
Definition completes (nd : Z) (e : outcome effects) (final : net -> Prop) : Prop :=
  exists s0, start_bcast nd e = Normal s0 /\ forall n o, arrives n s0 o ->
    exists s, o = Normal s /\ Z.of_nat n <= N - 1 /\ (wire s = [] -> final s) /\ (wire s <> [] -> exists s', arrive 0 s = Some (Normal s')).

(** Each of [l] has received [d] once. *)
Definition each_once (d : Z) (l : list Z) (got : list (Z * Z)) : Prop := got ≡ₚ (fun q => (q, d)) <$> l.

Definition others (x n : Z) : list Z := filter (fun y => y <> x) (seqZ 0 n).

Lemma others_perm x n : 0 <= x < n -> x :: others x n ≡ₚ seqZ 0 n.
Proof.
  intros Hx. apply NoDup_Permutation.
  - constructor; [|apply NoDup_filter, NoDup_seqZ]. by intros [? _]%list_elem_of_filter.
  - apply NoDup_seqZ.
  - intros y. unfold others. rewrite elem_of_cons, list_elem_of_filter, elem_of_seqZ. destruct (decide (y = x)) as [->|]; [|tauto]. split; [lia|auto].
Qed.

Lemma others_length x n : 0 <= x < n -> Z.of_nat (length (others x n)) = n - 1.
Proof. intros Hx. pose proof (Permutation_length (others_perm x n Hx)) as Hl. rewrite length_seqZ in Hl. cbn in Hl. lia. Qed.

Context {HK : NodesOk}.

(** The processors of a node. *)
Definition pes_of (v : Z) : list Z := Z.add (CmiNodeFirst v) <$> seqZ 0 CmiMyNodeSize.

Lemma all_pes : seqZ 0 CmiNumPes = seqZ 0 N ≫= pes_of.
Proof.
  pose proof nodes_pos. pose proof node_size_pos as Hsz. unfold CmiNumPes. replace N with (Z.of_nat (Z.to_nat N)) by lia.
  induction (Z.to_nat N) as [|k IH]; [done|]. rewrite seqZ_S, bind_app, <- IH. rewrite Nat2Z.inj_succ, Z.mul_succ_l.
  rewrite seqZ_app by nia. f_equal. cbn. rewrite app_nil_r. unfold pes_of, CmiNodeFirst. rewrite (Z.add_0_l (Z.of_nat k)), Z.add_0_l.
  apply list_eq. intros i. rewrite list_lookup_fmap. destruct (decide (Z.of_nat i < CmiMyNodeSize)).
  - rewrite !lookup_seqZ_lt by lia. cbn. f_equal; lia.
  - rewrite !lookup_seqZ_ge by lia. done.
Qed.

Lemma ranks_perm rk : 0 <= rk < CmiMyNodeSize -> rk :: (seqZ 0 rk ++ seqZ (rk + 1) (CmiMyNodeSize - (rk + 1))) ≡ₚ seqZ 0 CmiMyNodeSize.
Proof.
  intros Hr. replace CmiMyNodeSize with (rk + (1 + (CmiMyNodeSize - (rk + 1)))) at 2 by lia.
  rewrite seqZ_app, Z.add_0_l, (seqZ_cons rk) by lia. rewrite Permutation_middle.
  by replace (Z.succ rk) with (rk + 1) by lia; replace (Z.pred (1 + (CmiMyNodeSize - (rk + 1)))) with (CmiMyNodeSize - (rk + 1)) by lia.
Qed.

(** The peers of a processor, and the processor itself. *)
Lemma peers_perm m v : 0 <= rank m < CmiMyNodeSize ->
  (CmiNodeFirst v + rank m, payload m) :: ((fun p => (CmiNodeFirst v + p.1, payload p.2)) <$> SendToPeers m) ≡ₚ (fun q => (q, payload m)) <$> pes_of v.
Proof.
  intros Hr. unfold SendToPeers, pes_of. rewrite <- !list_fmap_compose. rewrite <- (ranks_perm (rank m) Hr). done.
Qed.

Section start.
Context (start : Z) (Hs : 0 <= start < N).

(** A broadcast along the tree that leaves [a0] and [b0] on its own node. *)
Lemma completes_run e m P B (final : net -> Prop) :
  (forall v, 0 <= v < N -> handleOneRecvedMsg m v = Normal (mk_effects (map (fun w => (w, m)) (bcast_kids start v)) P B)) ->
  sends e = map (fun w => (w, m)) (bcast_kids start start) ->
  (forall s seen, at_pe s = ((fun p => (CmiNodeFirst start + p.1, payload p.2)) <$> pushes e) ++ (seen ≫= visit_pe P) ->
     at_node s = ((fun b => (start, payload b)) <$> node_pushes e) ++ (seen ≫= visit_node B) -> start :: seen ≡ₚ seqZ 0 N -> final s) ->
  completes start (Normal e) final.
Proof.
  intros Hm Es Hfin. destruct (kids_tree start Hs) as (parent & depth & Ht). eexists. split; [reflexivity|]. intros n o Har.
  destruct (run_all start m P B parent depth Ht Hm n _ _ (apply_effects start e (mk_net [] [] [])) o Es eq_refl eq_refl Har) as (s & seen & -> & Hn & Hgo & Hpe & Hno & Hend).
  exists s. split; [done|]. split; [done|]. split; [intros Hw; eapply Hfin; [exact Hpe|exact Hno|by apply Hend]|].
  intros Hw. destruct (Hgo Hw) as [o' Ho']. assert (Hi : arrives (n + 1) (apply_effects start e (mk_net [] [] [])) o').
  { clear -Har Ho'. revert Har. generalize (apply_effects start e (mk_net [] [] [])). intros s00 Har. remember (Normal s) as r eqn:Er. revert Er. induction Har as [s0|n i s0 s1 r H1 _ IH|i s0 H1]; intros Er.
    - injection Er as ->. destruct o' as [s'|]; [eapply arrives_S; [exact Ho'|apply arrives_0]|by eapply arrives_fail].
    - eapply arrives_S; [exact H1|by apply IH].
    - done. }
  destruct (run_all start m P B parent depth Ht Hm _ _ _ (apply_effects start e (mk_net [] [] [])) o' Es eq_refl eq_refl Hi) as (s' & _ & -> & _). by exists s'.
Qed.

Lemma complete_node m B (b0 : list bmsg) e : (forall v, 0 <= v < N -> handleOneRecvedMsg m v = Normal (mk_effects (map (fun w => (w, m)) (bcast_kids start v)) [] B)) ->
  B = [m] -> e = mk_effects (map (fun w => (w, m)) (bcast_kids start start)) [] b0 ->
  completes start (Normal e) (fun s => at_pe s = [] /\ exists l, at_node s = ((fun b => (start, payload b)) <$> b0) ++ ((fun q => (q, payload m)) <$> l) /\ start :: l ≡ₚ seqZ 0 N).
Proof.
  intros Hm -> ->. eapply completes_run; [exact Hm|done|]. cbn [pushes node_pushes]. intros s seen Hpe Hno Hp. split.
  - rewrite Hpe. cbn. clear. by induction seen.
  - exists seen. split; [|done]. rewrite Hno. done.
Qed.

Lemma complete_proc m a0 e : (forall v, 0 <= v < N -> handleOneRecvedMsg m v = Normal (mk_effects (map (fun w => (w, m)) (bcast_kids start v)) (SendToPeers m ++ [(0, m)]) [])) ->
  rank m = 0 -> e = mk_effects (map (fun w => (w, m)) (bcast_kids start start)) a0 [] ->
  completes start (Normal e) (fun s => at_node s = [] /\ exists l, at_pe s ≡ₚ ((fun p => (CmiNodeFirst start + p.1, payload p.2)) <$> a0) ++ ((fun q => (q, payload m)) <$> (l ≫= pes_of)) /\ start :: l ≡ₚ seqZ 0 N).
Proof.
  intros Hm Hr ->. eapply completes_run; [exact Hm|done|]. cbn [pushes node_pushes]. intros s seen Hpe Hno Hp. split.
  - rewrite Hno. cbn. clear. by induction seen.
  - exists seen. split; [|done]. rewrite Hpe. f_equiv. clear -Hr HK. induction seen as [|v l IH]; [done|]. rewrite !bind_cons, fmap_app, IH. f_equiv.
    rewrite <- peers_perm by (rewrite Hr; pose proof node_size_pos; lia). unfold visit_pe. rewrite fmap_app, Hr. cbn. by rewrite <- Permutation_cons_append.
Qed.

End start.

(** ** From the calls *)

Lemma each_once_cons d x n got : 0 <= x < n -> (x, d) :: got ≡ₚ (fun q => (q, d)) <$> seqZ 0 n -> each_once d (others x n) got.
Proof. intros Hx Hp. unfold each_once. rewrite <- (others_perm x n Hx) in Hp. cbn in Hp. by apply Permutation_cons_inv in Hp. Qed.

Lemma each_once_length d l got : each_once d l got -> length got = length l.
Proof. intros Hp. rewrite Hp. apply length_fmap. Qed.

Lemma completes_weaken nd e (P Q : net -> Prop) : completes nd e P -> (forall s, P s -> Q s) -> completes nd e Q.
Proof.
  intros (s0 & E & H) HPQ. exists s0. split; [done|]. intros n o Ha. destruct (H n o Ha) as (s & -> & Hn & Hf & Hg). exists s. split_and!; auto.
Qed.

Lemma pe_node pe : 0 <= pe < CmiNumPes -> 0 <= CmiNodeOf pe < N /\ 0 <= CmiRankOf pe < CmiMyNodeSize /\ CmiNodeFirst (CmiNodeOf pe) + CmiRankOf pe = pe.
Proof.
  intros Hpe. pose proof node_size_pos as Hs. unfold CmiNodeOf, CmiRankOf, CmiNodeFirst, CmiNumPes in *.
  pose proof (Z.div_mod pe CmiMyNodeSize). pose proof (Z.mod_pos_bound pe CmiMyNodeSize Hs). split; [|split; [done|lia]].
  split; [apply Z.div_pos; lia|apply Z.div_lt_upper_bound; lia].
Qed.

(** The effects of the calls, and the message that travels. *)
Definition proc_msg (msg : bmsg) (nd : Z) : bmsg := mk_bmsg (nd + 1) 0 (payload msg).
Definition node_msg (msg : bmsg) (nd : Z) : bmsg := mk_bmsg (- nd - 1) DGRAM_NODEMESSAGE (payload msg).

Lemma start_proc msg pe : proc_ok -> 0 <= pe < CmiNumPes ->
  CmiSyncBroadcastFn1 msg pe = Normal (mk_effects (map (fun w => (w, proc_msg msg (CmiNodeOf pe))) (bcast_kids (CmiNodeOf pe) (CmiNodeOf pe)))
    (SendToPeers (mk_bmsg (CmiNodeOf pe + 1) (CmiRankOf pe) (payload msg))) []).
Proof. intros Hp Hpe. destruct (pe_node pe Hpe) as (Hn & _). unfold CmiSyncBroadcastFn1. by rewrite (proc_sends _ _ (CmiNodeOf pe)) by done. Qed.

Lemma start_node msg nd : 0 <= nd < N -> CmiSyncNodeBroadcastFn msg nd =
  Normal (mk_effects (map (fun w => (w, node_msg msg nd)) (bcast_kids nd nd)) [] []).
Proof.
  intros Hn. unfold CmiSyncNodeBroadcastFn, SendSpanningChildrenNode, SendHyperCubeNode. cbn [root CMI_SET_BROADCAST_ROOT].
  replace (- (- nd - 1) - 1) with nd by lia. destruct bcast_scheme eqn:Eb; [by rewrite spanning_sends by done|by rewrite hyper_sends by done].
Qed.

Lemma proc_total msg pe a0 l : 0 <= pe < CmiNumPes -> a0 = SendToPeers (mk_bmsg (CmiNodeOf pe + 1) (CmiRankOf pe) (payload msg)) ->
  CmiNodeOf pe :: l ≡ₚ seqZ 0 N ->
  (pe, payload msg) :: (((fun p => (CmiNodeFirst (CmiNodeOf pe) + p.1, payload p.2)) <$> a0) ++ ((fun q => (q, payload msg)) <$> (l ≫= pes_of))) ≡ₚ
    (fun q => (q, payload msg)) <$> seqZ 0 CmiNumPes.
Proof.
  intros Hpe -> Hl. destruct (pe_node pe Hpe) as (Hn & Hr & Ep). rewrite all_pes, <- Hl, bind_cons, fmap_app.
  rewrite <- (peers_perm (mk_bmsg (CmiNodeOf pe + 1) (CmiRankOf pe) (payload msg)) (CmiNodeOf pe)) by done. cbn [rank payload]. by rewrite Ep.
Qed.

End spec.


(** *** Machines *)

(** Six nodes of two processors with the spanning tree. *)
#[local] Instance six_nodes : Nodes := {| CmiNumNodes := 6; CmiMyNodeSize := 2; bcast_scheme := SpanningTree; topoTree := None |}.
#[local] Instance six_nodes_ok : NodesOk.
Proof. split; [done|done|done]. Defined.


(** Over the hypercube on nodes of two or more processors, a broadcast
    from a processor of node 1 sends no message to another node, so only the
    other processors of node 1 receive it, although quiescence detection was
    told of a message for every processor: the starting node is recorded in the
    message and then taken for a processor. *)
Theorem hypercube_smp_misses `{Nodes} msg pe : bcast_scheme = HyperCube -> 2 <= CmiNumNodes -> 2 <= CmiMyNodeSize -> CmiNodeOf pe = 1 ->
  exists s, start_bcast (CmiNodeOf pe) (CmiSyncBroadcastFn1 msg pe) = Normal s /\ wire s = [] /\
    (forall q d, (q, d) ∈ at_pe s -> CmiMyNodeSize <= q < 2 * CmiMyNodeSize) /\ CmiNumPes - 1 = bcast_created.
Proof.
  intros Es Hn Hs Hpe. unfold CmiSyncBroadcastFn1. rewrite Es, Hpe. unfold SendHyperCubeProc. cbn [root CMI_SET_BROADCAST_ROOT].
  change (1 + 1 - 1) with 1. assert (CmiNodeOf 1 = 0) as -> by (unfold CmiNodeOf; apply Z.div_small; lia).
  assert ((CmiNumPes <? 1) = false) as -> by (unfold CmiNumPes; apply Z.ltb_ge; nia). unfold SendHyperCube. cbn.
  eexists. split; [reflexivity|]. split; [done|]. split; [|done]. cbn. intros q d Hq.
  apply list_elem_of_fmap in Hq as ([i m] & [= -> ->] & Hq). unfold SendToPeers in Hq. apply list_elem_of_fmap in Hq as (i' & [= -> ->] & Hq).
  cbn [rank set_rank CMI_SET_BROADCAST_ROOT] in Hq. unfold CmiNodeFirst. pose proof (Z.mod_pos_bound pe CmiMyNodeSize). unfold CmiRankOf in Hq.
  apply elem_of_app in Hq as [Hq|Hq]; apply elem_of_seqZ in Hq; lia.
Qed.

#[local] Instance smp_cube : Nodes := {| CmiNumNodes := 2; CmiMyNodeSize := 2; bcast_scheme := HyperCube; topoTree := None |}.

Lemma hypercube_smp_misses_witness : exists s, start_bcast (K := smp_cube) 1 (CmiSyncBroadcastFn1 (mk_bmsg 0 0 77) 2) = Normal s /\ wire s = [] /\ at_pe s = [(3, 77)].
Proof.
  destruct (hypercube_smp_misses (H := smp_cube) (mk_bmsg 0 0 77) 2) as (s & E & Hw & _); [reflexivity|cbn; lia|cbn; lia|reflexivity|].
  exists s. split; [exact E|]. split; [exact Hw|]. vm_compute in E. injection E as <-. reflexivity.
Defined.
