(* ===== verification/Crc32Facts.v ===== *)
(** * Crc32Facts: what the checksums compute and detect

    The table-driven loop is long division of polynomials over GF(2), bit by
    bit; division is linear, which gives the errors that the check detects. *)

From S2P Require Import Prelude Crc32.
#[local] Open Scope Z_scope.

(** ** Numbers as bit strings *)

Lemma lxor_double a b : 2 * Z.lxor a b = Z.lxor (2 * a) (2 * b).
Proof. pose proof (Z.shiftl_lxor a b 1) as H. rewrite !Z.shiftl_mul_pow2 in H by lia. change (2 ^ 1) with 2 in H. rewrite !(Z.mul_comm 2). exact H. Qed.

Lemma add_bit a b : 2 * a + Z.b2z b = Z.lxor (2 * a) (Z.b2z b).
Proof.
  apply Z.add_nocarry_lxor. apply Z.bits_inj'. intros i Hi. rewrite Z.land_spec, Z.bits_0.
  destruct (decide (i = 0)) as [->|]; [by rewrite Z.testbit_even_0|].
  replace (Z.testbit (Z.b2z b) i) with false; [apply andb_false_r|]. destruct b; [|by rewrite Z.bits_0]. symmetry.
  apply Z.bits_above_log2; [done|]. change (Z.log2 (Z.b2z true)) with 0. lia.
Qed.

Lemma b2z_xorb b c : Z.b2z (xorb b c) = Z.lxor (Z.b2z b) (Z.b2z c).
Proof. by destruct b, c. Qed.

Lemma lxor_swap a b c d : Z.lxor (Z.lxor a b) (Z.lxor c d) = Z.lxor (Z.lxor a c) (Z.lxor b d).
Proof. rewrite !Z.lxor_assoc. f_equal. rewrite <- !Z.lxor_assoc. f_equal. apply Z.lxor_comm. Qed.

Lemma not32_lxor x : 0 <= x < 2 ^ 32 -> not32 x = Z.lxor x (2 ^ 32 - 1).
Proof.
  intros Hx. unfold not32, u32. change (2 ^ 32 - 1) with (Z.ones 32). apply Z.bits_inj'. intros i Hi. rewrite Z.lxor_spec.
  destruct (decide (i < 32)).
  - rewrite Z.mod_pow2_bits_low, Z.lnot_spec, Z.ones_spec_low by lia. by rewrite xorb_true_r.
  - rewrite Z.mod_pow2_bits_high, Z.ones_spec_high by lia. by rewrite (proj1 (below_bits 32 x ltac:(lia) ltac:(lia)) ltac:(lia)) by lia.
Qed.

Lemma not32_range x : 0 <= not32 x < 2 ^ 32.
Proof. apply u32_range. Qed.

Lemma not32_sub x : 0 <= x < 2 ^ 32 -> not32 x = 2 ^ 32 - 1 - x.
Proof.
  intros Hx. unfold not32, u32. unfold Z.lnot. replace (Z.pred (- x)) with (2 ^ 32 - 1 - x + (-1) * 2 ^ 32) by lia.
  rewrite Z.mod_add by lia. apply Z.mod_small. lia.
Qed.

Lemma not32_invol x : 0 <= x < 2 ^ 32 -> not32 (not32 x) = x.
Proof. intros. rewrite !not32_sub; rewrite ?not32_sub by done; lia. Qed.

(** ** The long division *)

Notation bit_steps := (fold_left bit_step).

Lemma bit_step_lxor r1 r2 b1 b2 : bit_step (Z.lxor r1 r2) (xorb b1 b2) = Z.lxor (bit_step r1 b1) (bit_step r2 b2).
Proof.
  unfold bit_step. rewrite !add_bit, b2z_xorb, lxor_double, Z.lxor_spec, lxor_swap.
  set (x := Z.lxor (2 * r1) (Z.b2z b1)). set (y := Z.lxor (2 * r2) (Z.b2z b2)).
  destruct (Z.testbit r1 31), (Z.testbit r2 31); cbn [xorb].
  - rewrite lxor_swap, Z.lxor_nilpotent, Z.lxor_0_r. done.
  - rewrite !Z.lxor_assoc. f_equal. apply Z.lxor_comm.
  - by rewrite Z.lxor_assoc.
  - done.
Qed.

Lemma bit_steps_lxor x : forall y r1 r2, length x = length y ->
  bit_steps (zip_with xorb x y) (Z.lxor r1 r2) = Z.lxor (bit_steps x r1) (bit_steps y r2).
Proof. induction x as [|b x IH]; intros [|c y] r1 r2 Hl; try done. cbn. rewrite bit_step_lxor. apply IH. by injection Hl. Qed.

Lemma bit_step_range r b : 0 <= r < 2 ^ 32 -> 0 <= bit_step r b < 2 ^ 32.
Proof.
  intros Hr. unfold bit_step. assert (0 <= Z.b2z b < 2) by (destruct b; cbn; lia). destruct (Z.testbit r 31) eqn:E.
  - apply Z.testbit_true in E; [|lia]. assert (2 ^ 31 <= r) as Hb by (Z.div_mod_to_equations; lia).
    replace (2 * r + Z.b2z b) with (1 * 2 ^ 32 + (2 * r + Z.b2z b - 2 ^ 32)) by lia. unfold CRC_POLY.
    rewrite <- (lor_disjoint 1) by lia. change (2 ^ 32 + QUOTIENT) with (Z.lor (1 * 2 ^ 32) QUOTIENT).
    assert (forall l, 0 <= l < 2 ^ 32 -> Z.lor (1 * 2 ^ 32) l = Z.lxor (2 ^ 32) l) as Hx.
    { intros l Hl. rewrite lor_disjoint by lia. change (1 * 2 ^ 32) with (2 ^ 32). apply Z.add_nocarry_lxor.
      apply Z.bits_inj'. intros i Hi. rewrite Z.land_spec, Z.bits_0. destruct (decide (i < 32)).
      - rewrite Z.pow2_bits_false by lia. done.
      - rewrite (proj1 (below_bits 32 l ltac:(lia) ltac:(lia)) ltac:(lia)) by lia. apply andb_false_r. }
    rewrite !Hx by (unfold QUOTIENT; lia). rewrite lxor_swap, Z.lxor_nilpotent, Z.lxor_0_l.
    apply lxor_below; unfold QUOTIENT; lia.
  - apply Z.testbit_false in E; [|lia]. assert (r < 2 ^ 31) by (Z.div_mod_to_equations; lia). lia.
Qed.

Lemma bit_steps_range bs : forall r, 0 <= r < 2 ^ 32 -> 0 <= bit_steps bs r < 2 ^ 32.
Proof. induction bs as [|b bs IH]; intros r Hr; [done|]. cbn. apply IH. by apply bit_step_range. Qed.

(** The state can be recovered from the next one. *)
Lemma bit_step_inj r1 r2 b : bit_step r1 b = bit_step r2 b -> r1 = r2.
Proof.
  intros H. apply Z.lxor_eq. pose proof (bit_step_lxor r1 r2 b b) as Hl. rewrite xorb_nilpotent, H, Z.lxor_nilpotent in Hl.
  revert Hl. unfold bit_step. cbn [Z.b2z]. rewrite Z.add_0_r. destruct (Z.testbit (Z.lxor r1 r2) 31); [|lia].
  intros Hl%Z.lxor_eq. unfold CRC_POLY, QUOTIENT in Hl. lia.
Qed.

Lemma bit_steps_inj bs : forall r1 r2, bit_steps bs r1 = bit_steps bs r2 -> r1 = r2.
Proof. induction bs as [|b bs IH]; intros r1 r2 H; [done|]. cbn in H. apply IH in H. by eapply bit_step_inj. Qed.

Lemma bnum_snoc bs b : bnum (bs ++ [b]) = 2 * bnum bs + Z.b2z b.
Proof. unfold bnum. by rewrite fold_left_app. Qed.

Lemma bnum_range bs : 0 <= bnum bs < 2 ^ Z.of_nat (length bs).
Proof.
  induction bs as [|b bs IH] using rev_ind; [done|]. rewrite bnum_snoc, length_app, Nat2Z.inj_add. cbn [length].
  change (Z.of_nat 1) with 1. rewrite Z.pow_add_r by lia. assert (0 <= Z.b2z b < 2) by (destruct b; cbn; lia). lia.
Qed.

(** Without a carry out of the register the bits are shifted in. *)
Lemma bit_steps_small bs : forall r, 0 <= r -> r * 2 ^ Z.of_nat (length bs) + bnum bs < 2 ^ 32 ->
  bit_steps bs r = r * 2 ^ Z.of_nat (length bs) + bnum bs.
Proof.
  induction bs as [|b bs IH] using rev_ind; intros r Hr H; [cbn; lia|].
  rewrite bnum_snoc, length_app, Nat2Z.inj_add in *. cbn [length] in *. change (Z.of_nat 1) with 1 in *. rewrite Z.pow_add_r in * by lia.
  assert (0 <= Z.b2z b < 2) by (destruct b; cbn; lia). pose proof (bnum_range bs). change (2 ^ 1) with 2 in *.
  assert (0 <= r * 2 ^ Z.of_nat (length bs)) by (apply Z.mul_nonneg_nonneg; lia). rewrite fold_left_app, IH by lia. cbn. unfold bit_step.
  rewrite (proj1 (below_bits 31 (r * 2 ^ Z.of_nat (length bs) + bnum bs) ltac:(lia) ltac:(lia)) ltac:(lia)) by lia. lia.
Qed.

(** The register holds the remainder of what has been read. *)
Lemma bit_steps_rem bs : exists q, 0 <= q /\ Z.lxor (bnum bs) (pmul q CRC_POLY) = bit_steps bs 0.
Proof.
  induction bs as [|b bs (q & Hq & IH)] using rev_ind; [by exists 0|].
  rewrite bnum_snoc, fold_left_app. cbn [fold_left]. rewrite <- IH. unfold bit_step. set (r := Z.lxor (bnum bs) (pmul q CRC_POLY)).
  rewrite !add_bit. assert (forall q, 0 <= q -> pmul (2 * q) CRC_POLY = 2 * pmul q CRC_POLY) as He by (by intros []).
  assert (pmul (2 * q + 1) CRC_POLY = Z.lxor (2 * pmul q CRC_POLY) CRC_POLY) as Ho by (by destruct q).
  assert (Z.lxor (2 * r) (Z.b2z b) = Z.lxor (Z.lxor (2 * bnum bs) (Z.b2z b)) (2 * pmul q CRC_POLY)) as Hx.
  { unfold r. rewrite lxor_double, !Z.lxor_assoc. f_equal. apply Z.lxor_comm. }
  destruct (Z.testbit r 31).
  - exists (2 * q + 1). split; [lia|]. by rewrite Ho, Hx, !Z.lxor_assoc.
  - exists (2 * q). split; [lia|]. by rewrite He, Hx.
Qed.

(** ** The table *)

Lemma bnum_app x y : bnum (x ++ y) = bnum x * 2 ^ Z.of_nat (length y) + bnum y.
Proof.
  induction y as [|b y IH] using rev_ind; [rewrite app_nil_r; cbn; lia|].
  rewrite app_assoc, !bnum_snoc, IH, length_app, Nat2Z.inj_add. cbn [length]. change (Z.of_nat 1) with 1. rewrite Z.pow_add_r by lia. lia.
Qed.

(** A property of bytes that is checked on all of them. *)
Lemma byte_forall (P : Z -> bool) : forallb P (seqZ 0 256) = true -> forall b, is_byte b -> P b = true.
Proof. intros H b Hb. rewrite forallb_forall in H. apply H. apply list_elem_of_In, elem_of_seqZ. unfold is_byte in Hb. lia. Qed.

Lemma bnum_byte b : is_byte b -> bnum (byte_bits b) = b.
Proof. intros Hb. apply Z.eqb_eq. revert b Hb. apply byte_forall. vm_compute. reflexivity. Qed.

(** The table has the remainders of the bytes shifted by 32 bits. *)
Lemma crctab_spec h : is_byte h -> bit_steps (replicate 8 false) (h * 2 ^ 24) = crctab !!! Z.to_nat h.
Proof. intros Hb. apply Z.eqb_eq. revert h Hb. apply (byte_forall (fun h => bit_steps (replicate 8 false) (h * 2 ^ 24) =? crctab !!! Z.to_nat h)). vm_compute. reflexivity. Qed.

Lemma crc_step_spec r b : 0 <= r < 2 ^ 32 -> is_byte b -> crc_step r b = bit_steps (byte_bits b) r.
Proof.
  intros Hr Hb. set (h := r / 2 ^ 24). set (l := r mod 2 ^ 24).
  assert (r = h * 2 ^ 24 + l) as Er by (unfold h, l; Z.div_mod_to_equations; lia).
  assert (0 <= l < 2 ^ 24) as Hl by (apply Z.mod_pos_bound; lia). assert (is_byte h) as Hh by (unfold is_byte, h; Z.div_mod_to_equations; lia).
  assert (r = Z.lxor (h * 2 ^ 24) l) as Ex.
  { rewrite Er, <- lor_disjoint by lia. symmetry. apply Z.lxor_lor. apply Z.bits_inj'. intros i Hi. rewrite Z.land_spec, Z.bits_0.
    destruct (decide (i < 24)); [by rewrite Z.mul_pow2_bits_low by lia|].
    rewrite (proj1 (below_bits 24 l ltac:(lia) ltac:(lia)) ltac:(lia)) by lia. apply andb_false_r. }
  assert (byte_bits b = zip_with xorb (replicate 8 false) (byte_bits b)) as Eb by done.
  rewrite Ex at 2. rewrite Eb, bit_steps_lxor by done. rewrite crctab_spec by done. unfold is_byte in Hb.
  rewrite (bit_steps_small (byte_bits b) l); rewrite ?bnum_byte by done; change (Z.of_nat (length (byte_bits b))) with 8; [|lia|lia].
  rewrite Z.lxor_comm. unfold crc_step. f_equal.
  - rewrite Z.shiftl_mul_pow2 by lia. unfold u32. change (2 ^ 32) with (2 ^ 24 * 2 ^ 8).
    rewrite Z.mul_mod_distr_r by lia. fold l. by apply lor_disjoint.
  - rewrite Z.shiftr_div_pow2 by lia. done.
Qed.

Lemma byte_at_drop data i b l : drop i data = b :: l -> byte_at data i = Normal b /\ drop (S i) data = l.
Proof.
  intros H. unfold byte_at. assert (data !! i = Some b) as Hi.
  { rewrite <- (Nat.add_0_r i), <- lookup_drop, H. done. }
  rewrite Hi. split; [done|]. by rewrite (drop_S _ _ _ Hi) in H; injection H.
Qed.

Lemma crc_loop_spec l : forall data i r rest, drop i data = l ++ rest -> Forall is_byte l -> 0 <= r < 2 ^ 32 ->
  crc_loop (length l) data i r = Normal (bit_steps (bits_of l) r).
Proof.
  induction l as [|b l IH]; intros data i r rest Hd Hl Hr; [done|]. apply Forall_cons in Hl as [Hb Hl].
  apply byte_at_drop in Hd as [Hb' Hd]. cbn [length crc_loop]. rewrite Hb'. cbn [mbind outcome_bind].
  rewrite crc_step_spec by done. rewrite (IH data (S i) _ rest Hd Hl) by (by apply bit_steps_range).
  change (bits_of (b :: l)) with (byte_bits b ++ bits_of l). by rewrite fold_left_app.
Qed.

Lemma bits_of_app x y : bits_of (x ++ y) = bits_of x ++ bits_of y.
Proof. apply bind_app. Qed.

Lemma bits_of_length l : length (bits_of l) = (8 * length l)%nat.
Proof.
  induction l as [|b l IH]; [done|]. change (bits_of (b :: l)) with (byte_bits b ++ bits_of l).
  rewrite length_app, IH. change (length (byte_bits b)) with 8%nat. cbn. lia.
Qed.

Lemma flip32_app x y : length x = 32%nat -> flip32 (x ++ y) = (negb <$> x) ++ y.
Proof.
  intros Hx. unfold flip32. rewrite imap_app. f_equal.
  - apply list_eq. intros i. rewrite list_lookup_imap, list_lookup_fmap. destruct (x !! i) eqn:E; [|done]. cbn.
    apply lookup_lt_Some in E. by rewrite (proj2 (Nat.ltb_lt i 32)) by lia.
  - apply list_eq. intros i. rewrite list_lookup_imap. destruct (y !! i); [|done]. cbn. by rewrite (proj2 (Nat.ltb_ge _ 32)) by lia.
Qed.

Lemma bnum_negb bs : bnum (negb <$> bs) = 2 ^ Z.of_nat (length bs) - 1 - bnum bs.
Proof.
  induction bs as [|b bs IH] using rev_ind; [done|]. rewrite fmap_app, !bnum_snoc. cbn [fmap list_fmap].
  rewrite bnum_snoc, IH, length_app, Nat2Z.inj_add. change (Z.of_nat (length [b])) with 1. rewrite Z.pow_add_r by lia. destruct b; cbn [negb Z.b2z]; lia.
Qed.

(** The first four bytes. *)
Lemma first_word b0 b1 b2 b3 : is_byte b0 -> is_byte b1 -> is_byte b2 -> is_byte b3 ->
  not32 (Z.lor (Z.lor (Z.lor (u32 (Z.shiftl b0 24)) (u32 (Z.shiftl b1 16))) (u32 (Z.shiftl b2 8))) b3) =
  bit_steps (negb <$> bits_of [b0; b1; b2; b3]) 0.
Proof.
  intros H0 H1 H2 H3. rewrite bit_steps_small; [|lia|].
  2: { pose proof (bnum_range (negb <$> bits_of [b0; b1; b2; b3])). rewrite length_fmap, bits_of_length in *. cbn [length] in *. lia. }
  rewrite bnum_negb, bits_of_length. cbn [length]. unfold bits_of.
  change ([b0; b1; b2; b3] ≫= byte_bits) with (byte_bits b0 ++ byte_bits b1 ++ byte_bits b2 ++ byte_bits b3 ++ []).
  rewrite app_nil_r, !bnum_app, !bnum_byte by done. rewrite !length_app. change (length (byte_bits _)) with 8%nat. cbn [Nat.add].
  unfold is_byte in *. rewrite !Z.shiftl_mul_pow2 by lia. rewrite !u32_small by lia.
  replace (b1 * 2 ^ 16) with (b1 * 2 ^ 16 + 0) by lia.
  rewrite lor_disjoint by lia. replace (b0 * 2 ^ 24 + (b1 * 2 ^ 16 + 0)) with ((b0 * 2 ^ 8 + b1) * 2 ^ 16) by lia.
  rewrite lor_disjoint by lia. replace ((b0 * 2 ^ 8 + b1) * 2 ^ 16 + b2 * 2 ^ 8) with ((b0 * 2 ^ 16 + b1 * 2 ^ 8 + b2) * 2 ^ 8) by lia.
  rewrite lor_disjoint by lia. rewrite not32_sub by lia.
  change (Z.of_nat 8) with 8. change (Z.of_nat 16) with 16. change (Z.of_nat 24) with 24. change (Z.of_nat (8 * 4)) with 32. lia.
Qed.

Lemma crc32_initial_spec data : 4 <= Z.of_nat (length data) -> Forall is_byte data ->
  crc32_initial data (Z.of_nat (length data)) = Normal (not32 (bit_steps (flip32 (bits_of data)) 0)).
Proof.
  intros Hn Hd. destruct data as [|b0 [|b1 [|b2 [|b3 l]]]]; cbn [length] in Hn; try lia.
  unfold crc32_initial. rewrite (proj2 (Z.ltb_ge _ 4)) by done. repeat (apply Forall_cons in Hd as [? Hd]).
  change (byte_at (b0 :: b1 :: b2 :: b3 :: l) 0) with (Normal b0). change (byte_at (b0 :: b1 :: b2 :: b3 :: l) 1) with (Normal b1).
  change (byte_at (b0 :: b1 :: b2 :: b3 :: l) 2) with (Normal b2). change (byte_at (b0 :: b1 :: b2 :: b3 :: l) 3) with (Normal b3).
  cbn [mbind outcome_bind]. replace (Z.to_nat (Z.of_nat (length (b0 :: b1 :: b2 :: b3 :: l)) - 4)) with (length l) by (cbn [length]; lia).
  cbv zeta. rewrite first_word by done.
  rewrite (crc_loop_spec l _ _ _ []) by (rewrite ?app_nil_r; done || by apply bit_steps_range). cbn [mbind outcome_bind].
  change (b0 :: b1 :: b2 :: b3 :: l) with ([b0; b1; b2; b3] ++ l). rewrite bits_of_app, flip32_app by (by rewrite bits_of_length).
  by rewrite fold_left_app.
Qed.

(** A concrete message consists of bytes. *)
Ltac bytes := repeat (apply Forall_cons; split; [unfold is_byte; lia|]); apply Forall_nil; exact I.



(** Checking in pieces: updating the check of a message of at least four
    bytes with further bytes gives the check of the whole. *)
Theorem crc_composes d1 d2 crc : 4 <= Z.of_nat (length d1) -> Forall is_byte d1 -> Forall is_byte d2 ->
  crc32_initial d1 (Z.of_nat (length d1)) = Normal crc ->
  crc32_update d2 (Z.of_nat (length d2)) crc = crc32_initial (d1 ++ d2) (Z.of_nat (length (d1 ++ d2))).
Proof.
  intros Hn H1 H2. rewrite !crc32_initial_spec by (rewrite ?length_app, ?Forall_app; done || lia). intros [= <-].
  unfold crc32_update. pose proof (bit_steps_range (flip32 (bits_of d1)) 0 ltac:(lia)). rewrite not32_invol by done.
  rewrite Nat2Z.id, (crc_loop_spec d2 _ _ _ []) by (rewrite ?app_nil_r; done). cbn [mbind outcome_bind].
  rewrite bits_of_app. destruct d1 as [|b0 [|b1 [|b2 [|b3 l]]]]; cbn [length] in Hn; try lia.
  change (b0 :: b1 :: b2 :: b3 :: l) with ([b0; b1; b2; b3] ++ l). rewrite bits_of_app, <- app_assoc.
  rewrite !flip32_app by (by rewrite bits_of_length). by rewrite !fold_left_app.
Qed.

Lemma crc_composes_witness : crc32_update [53; 54; 55; 56; 57; 0; 0; 0; 0] 9 0x31323334 = Normal 0xFC891918.
Proof.
  etransitivity; [apply (crc_composes [49; 50; 51; 52] [53; 54; 55; 56; 57; 0; 0; 0; 0] 0x31323334);
    [cbn; lia|bytes|bytes|vm_compute; reflexivity]|].
  vm_compute. reflexivity.
Defined.

Lemma bnum_zero bs : bnum bs = 0 -> bs = replicate (length bs) false.
Proof.
  induction bs as [|b bs IH] using rev_ind; [done|]. rewrite bnum_snoc, length_app. cbn [length]. intros H. pose proof (bnum_range bs).
  destruct b; cbn [Z.b2z] in H; [lia|]. rewrite replicate_add. f_equal. apply IH. lia.
Qed.

Lemma zip_xorb_false x : forall y, length x = length y -> zip_with xorb x y = replicate (length x) false -> x = y.
Proof.
  induction x as [|b x IH]; intros [|c y] Hl; try done. cbn [zip_with length]. intros [= Hb Hr]. f_equal; [by apply xorb_eq|]. apply IH; [by injection Hl|done].
Qed.

(** Different short strings lead from one state to different states. *)
Lemma short_burst x y r : length x = length y -> (length x <= 32)%nat -> bit_steps x r = bit_steps y r -> x = y.
Proof.
  intros Hl Hx H. pose proof (bit_steps_lxor x y r r Hl) as E. rewrite H, !Z.lxor_nilpotent in E.
  apply zip_xorb_false; [done|]. rewrite bit_steps_small in E; [|lia|].
  - rewrite (bnum_zero (zip_with xorb x y)) by lia. by rewrite length_zip_with_l by lia.
  - pose proof (bnum_range (zip_with xorb x y)) as Hr. rewrite length_zip_with_l in * by lia.
    assert (2 ^ Z.of_nat (length x) <= 2 ^ 32) by (apply Z.pow_le_mono_r; lia). lia.
Qed.



(** ** The XOR checksum *)

Lemma word_at_app data i b0 b1 b2 b3 l : drop i data = b0 :: b1 :: b2 :: b3 :: l ->
  word_at data i = Normal (b0 + 2 ^ 8 * b1 + 2 ^ 16 * b2 + 2 ^ 24 * b3) /\ drop (i + 4) data = l.
Proof.
  intros H. destruct (byte_at_drop _ _ _ _ H) as [H0 D0]. destruct (byte_at_drop _ _ _ _ D0) as [H1 D1].
  destruct (byte_at_drop _ _ _ _ D1) as [H2 D2]. destruct (byte_at_drop _ _ _ _ D2) as [H3 D3].
  unfold word_at. replace (i + 1)%nat with (S i) by lia. replace (i + 2)%nat with (S (S i)) by lia. replace (i + 3)%nat with (S (S (S i))) by lia.
  rewrite H0, H1, H2, H3. split; [done|]. by replace (i + 4)%nat with (S (S (S (S i)))) by lia.
Qed.

Lemma word_at_short data i : (length data < i + 4)%nat -> word_at data i = Aborted.
Proof.
  intros H. assert (byte_at data (i + 3) = Aborted) as E by (unfold byte_at; by rewrite (proj2 (lookup_ge_None data (i + 3)%nat)) by lia).
  unfold word_at. rewrite E. by destruct (byte_at data i), (byte_at data (i + 1)), (byte_at data (i + 2)).
Qed.

Lemma checksum_loop_spec n : forall l data i r rest, length l = (4 * n)%nat -> drop i data = l ++ rest ->
  checksum_loop n data i r = Normal (fold_left Z.lxor (le_words l) r, (i + 4 * n)%nat) /\ drop (i + 4 * n) data = rest.
Proof.
  induction n as [|n IH]; intros l data i r rest Hl Hd.
  - destruct l; [|done]. rewrite Nat.mul_0_r, Nat.add_0_r. done.
  - destruct l as [|b0 [|b1 [|b2 [|b3 l]]]]; cbn [length] in Hl; try lia.
    destruct (word_at_app data i b0 b1 b2 b3 (l ++ rest) Hd) as [Hw Hd']. cbn [checksum_loop le_words fold_left]. rewrite Hw. cbn [mbind outcome_bind].
    replace (i + 4 * S n)%nat with (i + 4 + 4 * n)%nat by lia. apply IH; [lia|done].
Qed.

(** The end of a buffer: fewer than four bytes, and what follows them. *)
Lemma last_word t slack w : (length t < 4)%nat -> (4 <= length t + length slack)%nat -> Forall is_byte (t ++ slack) ->
  word_at (t ++ slack) 0 = Normal w ->
  exists m, word_at checksum_array (Z.to_nat (3 - Z.of_nat (length t))) = Normal m /\
    fold_left Z.lxor (le_words (zero_padded t)) 0 = Z.land w m.
Proof.
  intros Ht Hs Hb Hw.
  assert (forall k x y, 0 <= k -> 0 <= x < 2 ^ k -> Z.land (x + 2 ^ k * y) (2 ^ k - 1) = x) as Hm.
  { intros k x y Hk Hx. change (2 ^ k - 1) with (Z.pred (2 ^ k)). rewrite <- Z.ones_equiv, Z.land_ones by done.
    rewrite (Z.mul_comm (2 ^ k)), Z.mod_add by lia. by apply Z.mod_small. }
  destruct t as [|b0 [|b1 [|b2 [|b3 t]]]]; cbn [length] in *; try lia; repeat (destruct slack as [|? slack]; cbn [length] in *; [lia|]);
    cbn [app] in *; cbn in Hw; injection Hw as <-; repeat (apply Forall_cons in Hb as [? Hb]); unfold is_byte in *;
    (eexists; split; [reflexivity|]).
  - by rewrite Z.land_0_r.
  - change (Z.lxor 0 (b0 + 2 ^ 8 * 0 + 2 ^ 16 * 0 + 2 ^ 24 * 0) = Z.land (b0 + 2 ^ 8 * z + 2 ^ 16 * z0 + 2 ^ 24 * z1) (2 ^ 8 - 1)).
    replace (b0 + 2 ^ 8 * z + 2 ^ 16 * z0 + 2 ^ 24 * z1) with (b0 + 2 ^ 8 * (z + 2 ^ 8 * z0 + 2 ^ 16 * z1)) by lia.
    rewrite Z.lxor_0_l, Hm; lia.
  - change (Z.lxor 0 (b0 + 2 ^ 8 * b1 + 2 ^ 16 * 0 + 2 ^ 24 * 0) = Z.land (b0 + 2 ^ 8 * b1 + 2 ^ 16 * z + 2 ^ 24 * z0) (2 ^ 16 - 1)).
    replace (b0 + 2 ^ 8 * b1 + 2 ^ 16 * z + 2 ^ 24 * z0) with (b0 + 2 ^ 8 * b1 + 2 ^ 16 * (z + 2 ^ 8 * z0)) by lia.
    rewrite Z.lxor_0_l, Hm; lia.
  - change (Z.lxor 0 (b0 + 2 ^ 8 * b1 + 2 ^ 16 * b2 + 2 ^ 24 * 0) = Z.land (b0 + 2 ^ 8 * b1 + 2 ^ 16 * b2 + 2 ^ 24 * z) (2 ^ 24 - 1)).
    rewrite Z.lxor_0_l, Hm; lia.
Qed.

Lemma le_words_app n : forall l t, length l = (4 * n)%nat -> le_words (l ++ t) = le_words l ++ le_words t.
Proof.
  induction n as [|n IH]; intros l t Hl; [by destruct l|]. destruct l as [|b0 [|b1 [|b2 [|b3 l]]]]; cbn [length] in Hl; try lia.
  cbn [app le_words]. f_equal. apply IH. lia.
Qed.

Lemma fold_lxor ws : forall r, fold_left Z.lxor ws r = Z.lxor r (fold_left Z.lxor ws 0).
Proof.
  induction ws as [|w ws IH]; intros r; cbn [fold_left]; [by rewrite Z.lxor_0_r|]. by rewrite IH, (IH (Z.lxor 0 w)), Z.lxor_0_l, Z.lxor_assoc.
Qed.

(** [checksum_update] computes the XOR of the words of the buffer padded
    with zeros, starting from the previous value, independently of what follows
    the buffer; but it always reads a further word behind the last whole one,
    so it reads outside of a buffer that is not followed by enough bytes, one
    to four of them. *)
Theorem checksum_xors_words data slack previous : Forall is_byte (data ++ slack) ->
  checksum_update (data ++ slack) (Z.of_nat (length data)) previous =
  if Z.of_nat (length slack) <? 4 - Z.of_nat (length data) mod 4 then Aborted
  else Normal (fold_left Z.lxor (le_words (zero_padded data)) previous).
Proof.
  intros Hb. set (n := Z.to_nat (Z.of_nat (length data) / 4)). set (l := take (4 * n) data). set (t := drop (4 * n) data).
  assert (Z.of_nat (4 * n) = 4 * (Z.of_nat (length data) / 4)) as Hn by (unfold n; rewrite Nat2Z.inj_mul, Z2Nat.id by (Z.div_mod_to_equations; lia); lia).
  assert (length l = (4 * n)%nat) as Hl by (unfold l; rewrite length_take; Z.div_mod_to_equations; lia).
  assert (Z.of_nat (length t) = Z.of_nat (length data) mod 4) as Ht by (unfold t; rewrite length_drop; Z.div_mod_to_equations; lia).
  assert (data = l ++ t) as Ed by (symmetry; apply take_drop). pose proof (Z.mod_pos_bound (Z.of_nat (length data)) 4).
  unfold checksum_update. rewrite Z.shiftr_div_pow2 by lia. change (2 ^ 2) with 4. fold n. change 3 with (Z.ones 2). rewrite Z.land_ones by lia. change (2 ^ 2) with 4.
  change (Z.ones 2) with 3. rewrite <- Ht.
  destruct (checksum_loop_spec n l (data ++ slack) 0 previous (t ++ slack) Hl) as [-> Hd]; [by rewrite Ed, <- app_assoc|].
  cbn [mbind outcome_bind]. rewrite Nat.add_0_l in *. destruct (Z.ltb_spec (Z.of_nat (length slack)) (4 - Z.of_nat (length t))) as [Hs|Hs].
  - rewrite (word_at_short (data ++ slack)); [done|]. rewrite Ed, !length_app, Hl. lia.
  - assert (exists w, word_at (t ++ slack) 0 = Normal w /\ word_at (data ++ slack) (4 * n) = Normal w) as (w & Hw & Hw').
    { destruct (t ++ slack) as [|b0 [|b1 [|b2 [|b3 r]]]] eqn:E; apply (f_equal length) in E as El; rewrite length_app in El; cbn [length] in El; try lia.
      eexists. split; [by apply (word_at_app _ _ b0 b1 b2 b3 r)|]. by apply (word_at_app _ _ b0 b1 b2 b3 r). }
    rewrite Hw'. cbn [mbind outcome_bind]. assert (Forall is_byte (t ++ slack)) as Hbt by (rewrite Ed, <- app_assoc in Hb; by apply Forall_app in Hb as [_ ?]).
    destruct (last_word t slack w) as (m & -> & Hm); [lia|lia|done|done|]. cbn [mbind outcome_bind]. f_equal.
    assert ((- Z.of_nat (length data)) mod 4 = (- Z.of_nat (length t)) mod 4) as Hp by (Z.div_mod_to_equations; lia).
    replace (zero_padded data) with (l ++ zero_padded t); [|by unfold zero_padded; rewrite app_assoc, <- Ed, Hp].
    rewrite (le_words_app n) by done. rewrite fold_left_app, (fold_lxor (le_words (zero_padded t))). by rewrite Hm.
Qed.

Lemma checksum_xors_words_witness : checksum_update ([1; 2; 3; 4; 5] ++ [0xAA; 0xBB; 0xCC]) 5 0 = Normal 0x04030204 /\
  checksum_update ([1; 2; 3; 4] ++ []) 4 0 = Aborted.
Proof.
  split.
  - etransitivity; [apply (checksum_xors_words [1; 2; 3; 4; 5] [0xAA; 0xBB; 0xCC]); bytes|vm_compute; reflexivity].
  - etransitivity; [apply (checksum_xors_words [1; 2; 3; 4] []); bytes|vm_compute; reflexivity].
Defined.
