(* ===== verification/DoubleFacts.v ===== *)
(** * DoubleFacts: arithmetic on non-negative doubles

    [dbl m e] is the double nearest to [m * 2^e].  Sums and products of
    doubles are the doubles nearest to the exact results, integers below 2^53
    are exact, and rounding moves a number to the next multiple of the last
    place at most. *)

From S2P Require Import Prelude Double.
From Corelib Require Import SpecFloat.
#[local] Open Scope Z_scope.

Definition dbl (m e : Z) : double := binary_normalize 53 1024 m e false.

(** ** Shifting mantissas *)

Lemma iter_pos_iter {A} (f : A -> A) p : forall x, iter_pos f p x = Nat.iter (Pos.to_nat p) f x.
Proof.
  induction p as [p IH|p IH|]; intros x; cbn [iter_pos]; [| |done].
  - rewrite !IH, Pos2Nat.inj_xI. replace (S (2 * Pos.to_nat p))%nat with (Pos.to_nat p + (Pos.to_nat p + 1))%nat by lia. by rewrite !Nat.iter_add.
  - rewrite !IH, Pos2Nat.inj_xO. replace (2 * Pos.to_nat p)%nat with (Pos.to_nat p + Pos.to_nat p)%nat by lia. by rewrite Nat.iter_add.
Qed.

Lemma shr_iter mrs e n : 0 <= n -> shr mrs e n = (Nat.iter (Z.to_nat n) shr_1 mrs, e + n).
Proof.
  intros Hn. destruct n as [|p|p]; [by rewrite Z.add_0_r|cbn [shr]; by rewrite iter_pos_iter|lia].
Qed.

(** Mantissa and round bit after a shift. *)
Lemma shr_1_m m r s : 0 <= m -> shr_m (shr_1 (Build_shr_record m r s)) = m / 2 /\ shr_r (shr_1 (Build_shr_record m r s)) = Z.odd m.
Proof.
  intros Hm. destruct m as [|[p|p|]|]; [done| | |done|lia]; cbn [shr_1 shr_m shr_r]; split; try done.
  - rewrite <- Z.div2_div. done.
  - rewrite <- Z.div2_div. done.
Qed.

Lemma shr_1_clean m : 0 <= m -> shr_1 (Build_shr_record (2 * m) false false) = Build_shr_record m false false.
Proof. intros Hm. by destruct m as [|p|]; [| |lia]. Qed.

Lemma shr_clean j m : 0 <= m -> Nat.iter j shr_1 (Build_shr_record (m * 2 ^ Z.of_nat j) false false) = Build_shr_record m false false.
Proof.
  revert m. induction j as [|j IH]; intros m Hm; [cbn; by rewrite Z.mul_1_r|]. rewrite Nat2Z.inj_succ, Z.pow_succ_r by lia.
  replace (m * (2 * 2 ^ Z.of_nat j)) with (2 * m * 2 ^ Z.of_nat j) by lia. rewrite Nat.iter_succ, IH by lia. by apply shr_1_clean.
Qed.

Lemma shr_spec n : forall m r s, 0 <= m -> shr_m (Nat.iter n shr_1 (Build_shr_record m r s)) = m / 2 ^ Z.of_nat n /\
  (shr_r (Nat.iter n shr_1 (Build_shr_record m r s)) = if (n =? 0)%nat then r else Z.testbit m (Z.of_nat n - 1)).
Proof.
  induction n as [|n IH]; intros m r s Hm; [cbn; by rewrite Z.div_1_r|]. rewrite Nat.iter_succ.
  destruct (IH m r s Hm) as [Em _]. destruct (Nat.iter n shr_1 (Build_shr_record m r s)) as [m' r' s']. cbn [shr_m] in Em. subst m'.
  assert (0 <= m / 2 ^ Z.of_nat n) as Hq by (apply Z.div_pos; lia).
  destruct (shr_1_m _ r' s' Hq) as [-> ->]. rewrite Nat2Z.inj_succ, Z.pow_succ_r by lia. rewrite Z.div_div by lia.
  rewrite (Z.mul_comm 2). split; [done|]. cbn [Nat.eqb]. replace (Z.succ (Z.of_nat n) - 1) with (Z.of_nat n) by lia.
  by rewrite Z.testbit_odd, Z.shiftr_div_pow2 by lia.
Qed.

(** ** The number of digits *)

Lemma Zdigits2_log2 m : 0 < m -> Zdigits2 m = Z.log2 m + 1.
Proof.
  intros Hm. destruct m as [|p|]; [done| |done]. clear Hm. cbn [Zdigits2]. induction p as [p IH|p IH|]; cbn [digits2_pos].
  - rewrite Pos2Z.inj_succ, IH. change (Z.pos p~1) with (2 * Z.pos p + 1). rewrite Z.log2_succ_double by done. lia.
  - rewrite Pos2Z.inj_succ, IH. change (Z.pos p~0) with (2 * Z.pos p). rewrite Z.log2_double by done. lia.
  - done.
Qed.

Lemma Zdigits2_scale m j : 0 < m -> 0 <= j -> Zdigits2 (m * 2 ^ j) = Zdigits2 m + j.
Proof. intros Hm Hj. rewrite !Zdigits2_log2 by lia. rewrite Z.log2_mul_pow2 by lia. lia. Qed.

Lemma digits_bounds m : 0 < m -> 2 ^ (Zdigits2 m - 1) <= m < 2 ^ Zdigits2 m /\ 1 <= Zdigits2 m.
Proof.
  intros Hm. rewrite Zdigits2_log2 by done. pose proof (Z.log2_spec m Hm). pose proof (Z.log2_nonneg m).
  replace (Z.log2 m + 1 - 1) with (Z.log2 m) by lia. replace (Z.log2 m + 1) with (Z.succ (Z.log2 m)) by lia. lia.
Qed.

Lemma digits_le m k : 0 < m -> 0 <= k -> m < 2 ^ k -> Zdigits2 m <= k.
Proof. intros Hm Hk H. rewrite Zdigits2_log2 by done. apply Z.log2_lt_pow2 in H; lia. Qed.

Lemma digits_ge m k : 0 < m -> 0 <= k -> 2 ^ k <= m -> k + 1 <= Zdigits2 m.
Proof. intros Hm Hk H. rewrite Zdigits2_log2 by done. apply Z.log2_le_pow2 in H; lia. Qed.

(** ** Rounding does not depend on the representation *)

Notation fexp64 := (fexp 53 1024).
Notation round_aux m e := (binary_round_aux 53 1024 false m e loc_Exact).

Lemma round_aux_scale m e j : 0 < m -> 0 <= j -> e + j <= fexp64 (Zdigits2 m + (e + j)) -> round_aux (m * 2 ^ j) e = round_aux m (e + j).
Proof.
  intros Hm Hj Hf. unfold binary_round_aux. unfold shr_fexp at 1 3. rewrite Zdigits2_scale by lia. cbn [shr_record_of_loc].
  replace (Zdigits2 m + j + e) with (Zdigits2 m + (e + j)) by lia. set (f := fexp64 (Zdigits2 m + (e + j))) in *.
  rewrite !shr_iter by lia. replace (Z.to_nat (f - e)) with (Z.to_nat (f - (e + j)) + Z.to_nat j)%nat by lia.
  rewrite Nat.iter_add. pose proof (shr_clean (Z.to_nat j) m ltac:(lia)) as Hc. rewrite Z2Nat.id in Hc by done. rewrite Hc. by replace (e + (f - e)) with (e + j + (f - (e + j))) by lia.
Qed.

Lemma iter_xO m d : Z.pos (Pos.iter xO m d) = Z.pos m * 2 ^ Z.pos d.
Proof.
  induction d as [|d IH] using Pos.peano_ind; [cbn; lia|]. rewrite Pos.iter_succ, Pos2Z.inj_succ, Z.pow_succ_r by lia.
  change (Z.pos (Pos.iter xO m d)~0) with (2 * Z.pos (Pos.iter xO m d)). lia.
Qed.

Lemma shl_align_spec m e f : shl_align m e f = (Z.to_pos (Z.pos m * 2 ^ Z.max 0 (e - f)), Z.min e f).
Proof.
  unfold shl_align. destruct (f - e) as [|p|p] eqn:E.
  - rewrite Z.max_l, Z.min_l by lia. by rewrite Z.mul_1_r.
  - rewrite Z.max_l, Z.min_l by lia. by rewrite Z.mul_1_r.
  - rewrite Z.max_r, Z.min_r by lia. replace (e - f) with (Z.pos p) by lia. by rewrite <- iter_xO.
Qed.

Lemma dbl_round m e : 0 < m -> let f := fexp64 (Zdigits2 m + e) in dbl m e = round_aux (m * 2 ^ Z.max 0 (e - f)) (Z.min e f).
Proof.
  intros Hm f. destruct m as [|p|]; [done| |done]. unfold dbl. cbn [binary_normalize]. unfold binary_round. rewrite shl_align_spec.
  change (Z.pos (digits2_pos p)) with (Zdigits2 (Z.pos p)). fold f. rewrite Z2Pos.id by lia. done.
Qed.

Lemma dbl_scale m e j : 0 <= m -> 0 <= j -> dbl (m * 2 ^ j) e = dbl m (e + j).
Proof.
  intros Hm Hj. destruct (decide (m = 0)) as [->|]; [done|].
  rewrite !dbl_round by lia. rewrite Zdigits2_scale by lia. replace (Zdigits2 m + j + e) with (Zdigits2 m + (e + j)) by lia.
  set (f := fexp64 (Zdigits2 m + (e + j))). destruct (decide (f <= e)).
  - rewrite !Z.max_r, !Z.min_r by lia. rewrite <- Z.mul_assoc, <- Z.pow_add_r by lia. by replace (j + (e - f)) with (e + j - f) by lia.
  - rewrite (Z.max_l 0 (e - f)), (Z.min_l e f) by lia. rewrite Z.mul_1_r.
    set (k := Z.max 0 (e + j - f)). replace (m * 2 ^ j) with (m * 2 ^ k * 2 ^ (j - k)) by (rewrite <- Z.mul_assoc, <- Z.pow_add_r by lia; do 2 f_equal; lia).
    rewrite round_aux_scale; [f_equal; lia|lia|lia|]. rewrite Zdigits2_scale by lia.
    replace (Zdigits2 m + k + (e + (j - k))) with (Zdigits2 m + (e + j)) by lia. fold f. lia.
Qed.

(** Numbers of at most 53 digits are represented exactly. *)
Lemma dbl_exact m e : 0 < m < 2 ^ 53 -> -1000 <= e <= 900 ->
  dbl m e = S754_finite false (Z.to_pos (m * 2 ^ (53 - Zdigits2 m))) (e + Zdigits2 m - 53).
Proof.
  intros Hm He. pose proof (digits_le m 53 ltac:(lia) ltac:(lia) ltac:(lia)) as Hd. destruct (digits_bounds m ltac:(lia)) as [_ Hd1].
  assert (fexp64 (Zdigits2 m + e) = Zdigits2 m + e - 53) as Hf by (unfold fexp, emin; lia).
  rewrite dbl_round by lia. rewrite Hf, Z.max_r, Z.min_r by lia. replace (e - (Zdigits2 m + e - 53)) with (53 - Zdigits2 m) by lia.
  set (M := m * 2 ^ (53 - Zdigits2 m)). assert (0 < M) as HM by (apply Z.mul_pos_pos; lia).
  unfold binary_round_aux, shr_fexp. assert (Zdigits2 M = 53) as HD by (unfold M; rewrite Zdigits2_scale; lia).
  rewrite HD. replace (53 + (Zdigits2 m + e - 53)) with (Zdigits2 m + e) by lia. rewrite Hf, Z.sub_diag. cbn [shr shr_record_of_loc shr_m loc_of_shr_record round_nearest_even].
  rewrite HD. replace (53 + (Zdigits2 m + e - 53)) with (Zdigits2 m + e) by lia. rewrite Hf, Z.sub_diag. cbn [shr shr_record_of_loc shr_m].
  destruct M as [|p|]; [done| |done]. rewrite (proj2 (Z.leb_le _ _)) by lia. f_equal. lia.
Qed.

(** ** Sums, differences, products, conversions *)

(** The mantissa of an exact number. *)
Lemma mantissa_pos m : 0 < m < 2 ^ 53 -> 0 < m * 2 ^ (53 - Zdigits2 m) /\ 1 <= Zdigits2 m <= 53.
Proof.
  intros Hm. pose proof (digits_le m 53 ltac:(lia) ltac:(lia) ltac:(lia)). destruct (digits_bounds m ltac:(lia)) as [_ ?].
  split; [apply Z.mul_pos_pos; lia|lia].
Qed.

Lemma dmul_dbl m1 e1 m2 e2 : 0 <= m1 < 2 ^ 53 -> 0 <= m2 < 2 ^ 53 -> -400 <= e1 <= 400 -> -400 <= e2 <= 400 ->
  dmul (dbl m1 e1) (dbl m2 e2) = dbl (m1 * m2) (e1 + e2).
Proof.
  intros H1 H2 He1 He2. destruct (decide (m1 = 0)) as [->|]; [rewrite Z.mul_0_l; destruct (decide (m2 = 0)) as [->|]; [reflexivity|rewrite (dbl_exact m2) by lia; reflexivity]|].
  destruct (decide (m2 = 0)) as [->|]; [rewrite Z.mul_0_r, (dbl_exact m1) by lia; reflexivity|].
  rewrite (dbl_exact m1), (dbl_exact m2) by lia. destruct (mantissa_pos m1 ltac:(lia)) as [P1 D1]. destruct (mantissa_pos m2 ltac:(lia)) as [P2 D2].
  unfold dmul. cbn [SFmul xorb]. rewrite Pos2Z.inj_mul, !Z2Pos.id by done.
  set (d1 := Zdigits2 m1) in *. set (d2 := Zdigits2 m2) in *.
  replace (m1 * 2 ^ (53 - d1) * (m2 * 2 ^ (53 - d2))) with (m1 * m2 * 2 ^ (106 - d1 - d2))
    by (replace (106 - d1 - d2) with ((53 - d1) + (53 - d2)) by lia; rewrite Z.pow_add_r by lia; lia).
  assert (0 < m1 * m2) as Hm by (apply Z.mul_pos_pos; lia). set (E := e1 + d1 - 53 + (e2 + d2 - 53)).
  assert (d1 + d2 - 1 <= Zdigits2 (m1 * m2)) as HD.
  { destruct (digits_bounds m1 ltac:(lia)) as [B1 _]. destruct (digits_bounds m2 ltac:(lia)) as [B2 _]. fold d1 in B1. fold d2 in B2.
    assert (2 ^ (d1 + d2 - 2) <= m1 * m2) as H12 by (replace (d1 + d2 - 2) with (d1 - 1 + (d2 - 1)) by lia; rewrite Z.pow_add_r by lia; nia).
    pose proof (digits_ge (m1 * m2) (d1 + d2 - 2) Hm ltac:(lia) H12). lia. }
  replace (e1 + e2) with (E + (106 - d1 - d2)) by lia. rewrite <- dbl_scale by lia. rewrite dbl_round by (apply Z.mul_pos_pos; lia).
  rewrite Zdigits2_scale by lia. assert (E <= fexp64 (Zdigits2 (m1 * m2) + (106 - d1 - d2) + E)) by (unfold fexp; lia).
  by rewrite Z.max_l, Z.min_l, Z.mul_1_r by lia.
Qed.

(** The aligned mantissa of a summand. *)
Lemma aligned m e z : 0 < m < 2 ^ 53 -> z <= e + Zdigits2 m - 53 ->
  Z.pos (fst (shl_align (Z.to_pos (m * 2 ^ (53 - Zdigits2 m))) (e + Zdigits2 m - 53) z)) = m * 2 ^ (e - z).
Proof.
  intros Hm Hz. destruct (mantissa_pos m Hm) as [P D]. rewrite shl_align_spec. cbn [fst]. rewrite (Z2Pos.id (m * 2 ^ (53 - Zdigits2 m))) by done. rewrite Z.max_r by lia.
  rewrite Z2Pos.id by (apply Z.mul_pos_pos; lia). rewrite <- Z.mul_assoc, <- Z.pow_add_r by lia. do 2 f_equal. lia.
Qed.

(** One number at two scales. *)
Lemma dbl_rescale m1 e1 m2 e2 z e : z <= e1 -> z <= e2 -> e <= e1 -> e <= e2 ->
  0 <= m1 * 2 ^ (e1 - z) + m2 * 2 ^ (e2 - z) ->
  dbl (m1 * 2 ^ (e1 - z) + m2 * 2 ^ (e2 - z)) z = dbl (m1 * 2 ^ (e1 - e) + m2 * 2 ^ (e2 - e)) e.
Proof.
  intros ???? Hp. destruct (Z.le_ge_cases z e) as [Hz|Hz].
  - replace (m1 * 2 ^ (e1 - z) + m2 * 2 ^ (e2 - z)) with ((m1 * 2 ^ (e1 - e) + m2 * 2 ^ (e2 - e)) * 2 ^ (e - z)) in *.
    + rewrite dbl_scale; [f_equal; lia| |lia]. assert (0 < 2 ^ (e - z)) by lia. nia.
    + replace (e1 - z) with (e1 - e + (e - z)) by lia. replace (e2 - z) with (e2 - e + (e - z)) by lia. rewrite !Z.pow_add_r by lia. lia.
  - replace (m1 * 2 ^ (e1 - e) + m2 * 2 ^ (e2 - e)) with ((m1 * 2 ^ (e1 - z) + m2 * 2 ^ (e2 - z)) * 2 ^ (z - e)).
    + rewrite dbl_scale by lia. f_equal. lia.
    + replace (e1 - e) with (e1 - z + (z - e)) by lia. replace (e2 - e) with (e2 - z + (z - e)) by lia. rewrite !Z.pow_add_r by lia. lia.
Qed.

Lemma dadd_dbl m1 e1 m2 e2 e : 0 <= m1 < 2 ^ 53 -> 0 <= m2 < 2 ^ 53 -> -400 <= e1 <= 400 -> -400 <= e2 <= 400 -> e <= e1 -> e <= e2 ->
  dadd (dbl m1 e1) (dbl m2 e2) = dbl (m1 * 2 ^ (e1 - e) + m2 * 2 ^ (e2 - e)) e.
Proof.
  intros H1 H2 He1 He2 L1 L2. assert (forall m f, 0 <= m < 2 ^ 53 -> e <= f -> dbl m f = dbl (m * 2 ^ (f - e)) e) as Hs
    by (intros m f Hm Hf; rewrite dbl_scale by lia; f_equal; lia).
  destruct (decide (m1 = 0)) as [->|]; [destruct (decide (m2 = 0)) as [->|]|].
  - by rewrite !Z.mul_0_l.
  - rewrite Z.mul_0_l, Z.add_0_l, <- Hs by lia. by rewrite (dbl_exact m2) by lia.
  - destruct (decide (m2 = 0)) as [->|]; [rewrite Z.mul_0_l, Z.add_0_r, <- Hs by lia; by rewrite (dbl_exact m1) by lia|].
    rewrite (dbl_exact m1), (dbl_exact m2) by lia. unfold dadd. cbn [SFadd cond_Zopp]. rewrite !aligned by lia.
    destruct (mantissa_pos m1 ltac:(lia)) as [_ D1]. destruct (mantissa_pos m2 ltac:(lia)) as [_ D2].
    set (z := Z.min (e1 + Zdigits2 m1 - 53) (e2 + Zdigits2 m2 - 53)).
    apply (dbl_rescale m1 e1 m2 e2 z e); [lia|lia|lia|lia|]. apply Z.add_nonneg_nonneg; apply Z.mul_nonneg_nonneg; lia.
Qed.

Lemma dsub_dbl m1 m2 e : 0 <= m2 <= m1 -> m1 < 2 ^ 53 -> -400 <= e <= 400 -> dsub (dbl m1 e) (dbl m2 e) = dbl (m1 - m2) e.
Proof.
  intros H2 H1 He. destruct (decide (m1 = 0)) as [->|]; [by replace m2 with 0 by lia|].
  destruct (decide (m2 = 0)) as [->|]; [rewrite Z.sub_0_r; by rewrite (dbl_exact m1) by lia|].
  rewrite (dbl_exact m1), (dbl_exact m2) by lia. unfold dsub. cbn [SFsub cond_Zopp]. rewrite !aligned by lia.
  destruct (mantissa_pos m1 ltac:(lia)) as [_ D1]. destruct (mantissa_pos m2 ltac:(lia)) as [_ D2].
  set (z := Z.min (e + Zdigits2 m1 - 53) (e + Zdigits2 m2 - 53)). rewrite <- Z.mul_sub_distr_r.
  change (dbl ((m1 - m2) * 2 ^ (e - z)) z = dbl (m1 - m2) e). rewrite dbl_scale by lia. f_equal. lia.
Qed.

Lemma d_to_Z_dbl m e : 0 <= m < 2 ^ 53 -> -400 <= e <= 400 -> d_to_Z (dbl m e) = if 0 <=? e then m * 2 ^ e else m / 2 ^ (- e).
Proof.
  intros Hm He. destruct (decide (m = 0)) as [->|]; [destruct (Z.leb_spec 0 e); [done|by rewrite Z.div_0_l by lia]|].
  rewrite dbl_exact by lia. destruct (mantissa_pos m ltac:(lia)) as [P D]. cbn [d_to_Z]. rewrite Z2Pos.id by done.
  set (d := Zdigits2 m) in *. destruct (Z.leb_spec 0 (e + d - 53)), (Z.leb_spec 0 e); try lia.
  - rewrite <- Z.mul_assoc, <- Z.pow_add_r by lia. do 2 f_equal. lia.
  - replace (53 - d) with (e + (- (e + d - 53))) by lia. rewrite Z.pow_add_r, Z.mul_assoc by lia. by rewrite Z.div_mul by lia.
  - replace (- (e + d - 53)) with (- e + (53 - d)) by lia. rewrite Z.pow_add_r by lia. by rewrite Z.div_mul_cancel_r by lia.
Qed.

(** ** Rounding of numbers with more than 53 digits *)

Lemma round_finish m e : 2 ^ 52 <= m <= 2 ^ 53 -> -900 <= e <= 800 ->
  (let '(r, e') := shr_fexp 53 1024 m e loc_Exact in
   match shr_m r with
   | Z0 => S754_zero false
   | Zpos p => if e' <=? 1024 - 53 then S754_finite false p e' else S754_infinity false
   | _ => S754_nan
   end) = dbl m e.
Proof.
  intros Hm He. unfold shr_fexp. cbn [shr_record_of_loc]. destruct (decide (m = 2 ^ 53)) as [->|].
  - change (Zdigits2 (2 ^ 53)) with 54. replace (fexp64 (54 + e) - e) with 1 by (unfold fexp, emin; lia).
    change (2 ^ 53) with (1 * 2 ^ 53) at 2. rewrite dbl_scale, dbl_exact by lia. change (Zdigits2 1) with 1. cbn [shr]. change (iter_pos shr_1 1 _) with (Build_shr_record (2 ^ 52) false false).
    cbn [shr_m]. change (2 ^ 52) with (Z.pos 4503599627370496). cbn iota. rewrite (proj2 (Z.leb_le _ _)) by lia. f_equal. lia.
  - assert (Zdigits2 m = 53) as Hd. { pose proof (digits_le m 53 ltac:(lia) ltac:(lia) ltac:(lia)). pose proof (digits_ge m 52 ltac:(lia) ltac:(lia) ltac:(lia)). lia. }
    rewrite Hd. replace (fexp64 (53 + e) - e) with 0 by (unfold fexp, emin; lia). cbn [shr shr_m]. rewrite dbl_exact, Hd by lia. rewrite Z.sub_diag, Z.mul_1_r.
    destruct m as [|p|]; [lia| |lia]. rewrite (proj2 (Z.leb_le _ _)) by lia. f_equal. lia.
Qed.

Lemma dbl_long M e : 0 < M -> 53 < Zdigits2 M <= 400 -> -400 <= e <= 400 -> let n := Zdigits2 M - 53 in
  exists m, dbl M e = dbl m (e + n) /\ 2 ^ 52 <= m <= 2 ^ 53 /\ M / 2 ^ n <= m <= M / 2 ^ n + 1 /\
    (Z.testbit M (n - 1) = false -> m = M / 2 ^ n) /\
    (Z.testbit M (n - 1) = true -> Z.even (M / 2 ^ n) = false -> m = M / 2 ^ n + 1).
Proof.
  intros HM HD He n. assert (fexp64 (Zdigits2 M + e) = e + n) as Hf by (unfold fexp, emin; lia).
  rewrite dbl_round by done. rewrite Hf, Z.max_l, Z.min_l, Z.mul_1_r by lia.
  unfold binary_round_aux. unfold shr_fexp at 1. cbn [shr_record_of_loc]. rewrite Hf, shr_iter by lia.
  replace (e + n - e) with n by lia. destruct (shr_spec (Z.to_nat n) M false false ltac:(lia)) as [Em Er].
  destruct (Nat.iter (Z.to_nat n) shr_1 (Build_shr_record M false false)) as [q r s]. cbn [shr_m shr_r] in Em, Er.
  rewrite (proj2 (Nat.eqb_neq _ _)) in Er by lia. rewrite Z2Nat.id in Em, Er by lia. subst q r.
  assert (2 ^ 52 <= M / 2 ^ n < 2 ^ 53) as Hq.
  { destruct (digits_bounds M HM) as [B _]. assert (2 ^ (Zdigits2 M - 1) = 2 ^ 52 * 2 ^ n) as E1 by (rewrite <- Z.pow_add_r by lia; f_equal; lia).
    assert (2 ^ Zdigits2 M = 2 ^ 53 * 2 ^ n) as E2 by (rewrite <- Z.pow_add_r by lia; f_equal; lia).
    split; [apply Z.div_le_lower_bound; lia|apply Z.div_lt_upper_bound; lia]. }
  eexists. split; [apply round_finish; [|lia]|].
  all: cbn [shr_m]; destruct (Z.testbit M (n - 1)), s; cbn [loc_of_shr_record round_nearest_even]; try destruct (Z.even (M / 2 ^ n)); repeat split; intros; done || lia.
Qed.

(** What rounds is at most one place of the last digit away. *)
Lemma dbl_long_up M e k : 0 < M -> 53 < Zdigits2 M <= 400 -> -400 <= e <= 400 -> M < 2 ^ k -> 0 <= k ->
  exists m n, 0 <= n /\ dbl M e = dbl m (e + n) /\ 0 < m <= 2 ^ 53 /\ M - 2 ^ n < m * 2 ^ n <= M + 2 ^ n /\ m * 2 ^ n <= 2 ^ k /\ 2 ^ n <= M.
Proof.
  intros HM HD He Hk Hk0. destruct (dbl_long M e HM HD He) as (m & E & Hm & Hq & _). set (n := Zdigits2 M - 53) in *. exists m, n.
  destruct (digits_bounds M HM) as [B _]. pose proof (Z.div_mod M (2 ^ n) ltac:(lia)) as Hdm. pose proof (Z.mod_pos_bound M (2 ^ n) ltac:(lia)) as Hr.
  set (q := M / 2 ^ n) in *. assert (0 < 2 ^ n) as Hn by lia.
  assert (2 ^ 53 * 2 ^ n <= 2 ^ k) as Hkk.
  { rewrite <- Z.pow_add_r by lia. apply Z.pow_le_mono_r; [lia|]. pose proof (digits_le M k HM Hk0 Hk). lia. }
  assert (2 ^ n <= 2 ^ (Zdigits2 M - 1)) by (apply Z.pow_le_mono_r; lia).
  split; [lia|]. split; [done|]. split; [lia|]. split; [nia|]. split; [nia|lia].
Qed.
