(* ===== verification/PrimeList.v ===== *)
(** * PrimeList: the increments of the random number streams (random.c)

    [_prime_list] of src/conv-core/random.c, in pieces of 500 numbers. *)

From S2P Require Import Prelude.
#[local] Open Scope Z_scope.

Definition primes_0 : list Z := [
  3037000493; 3037000453; 3037000429; 3037000427; 3037000399; 3037000391; 3037000333; 3037000331; 3037000303; 3037000289;
  3037000249; 3037000193; 3037000181; 3037000177; 3037000159; 3037000121; 3037000111; 3037000103; 3037000069; 3037000039;
  3037000013; 3036999991; 3036999983; 3036999941; 3036999899; 3036999887; 3036999877; 3036999841; 3036999821; 3036999817;
  3036999811; 3036999803; 3036999773; 3036999769; 3036999761; 3036999739; 3036999737; 3036999733; 3036999727; 3036999499;
  3036999487; 3036999473; 3036999467; 3036999457; 3036999443; 3036999439; 3036999431; 3036999403; 3036999379; 3036999341;
  3036999319; 3036999307; 3036999293; 3036999283; 3036999271; 3036999233; 3036999209; 3036999167; 3036999157; 3036999137;
  3036999113; 3036999101; 3036999089; 3036999079; 3036999067; 3036999061; 3036999023; 3036999019; 3036999001; 3036998999;
  3036998989; 3036998977; 3036998963; 3036998957; 3036998933; 3036998903; 3036998873; 3036998857; 3036998849; 3036998843;
  3036998837; 3036998803; 3036998777; 3036998761; 3036998759; 3036998743; 3036998717; 3036998611; 3036998599; 3036998567;
  3036998563; 3036998561; 3036998537; 3036998477; 3036998449; 3036998429; 3036998401; 3036998381; 3036998347; 3036998333;
  3036998329; 3036998299; 3036998267; 3036998257; 3036998249; 3036998231; 3036998213; 3036998183; 3036998161; 3036998113;
  3036998093; 3036998071; 3036998051; 3036998047; 3036998011; 3036998009; 3036997973; 3036997939; 3036997933; 3036997897;
  3036997853; 3036997837; 3036997813; 3036997811; 3036997787; 3036997783; 3036997751; 3036997741; 3036997727; 3036997721;
  3036997709; 3036997697; 3036997693; 3036997643; 3036997631; 3036997619; 3036997603; 3036997597; 3036997577; 3036997559;
  3036997511; 3036997501; 3036997493; 3036997393; 3036997391; 3036997343; 3036997339; 3036997331; 3036997289; 3036997279;
  3036997217; 3036997213; 3036997169; 3036997151; 3036997133; 3036997109; 3036997081; 3036997063; 3036997021; 3036996983;
  3036996947; 3036996931; 3036996923; 3036996901; 3036996883; 3036996863; 3036996829; 3036996817; 3036996799; 3036996769;
  3036996761; 3036996737; 3036996713; 3036996709; 3036996707; 3036996673; 3036996631; 3036996601; 3036996587; 3036996553;
  3036996527; 3036996497; 3036996491; 3036996481; 3036996451; 3036996439; 3036996421; 3036996379; 3036996373; 3036996353;
  3036996349; 3036996329; 3036996307; 3036996299; 3036996283; 3036996253; 3036996247; 3036996211; 3036996197; 3036996121;
  3036996091; 3036996077; 3036996071; 3036996049; 3036996019; 3036996013; 3036995981; 3036995977; 3036995953; 3036995933;
  3036995921; 3036995909; 3036995893; 3036995887; 3036995881; 3036995867; 3036995839; 3036995833; 3036995827; 3036995791;
  3036995761; 3036995737; 3036995723; 3036995711; 3036995671; 3036995641; 3036995627; 3036995609; 3036995603; 3036995581;
  3036995579; 3036995573; 3036995543; 3036995531; 3036995527; 3036995491; 3036995477; 3036995459; 3036995369; 3036995281;
  3036995267; 3036995257; 3036995249; 3036995239; 3036995189; 3036995161; 3036995153; 3036995123; 3036995089; 3036995083;
  3036995057; 3036995051; 3036995041; 3036995021; 3036994997; 3036994963; 3036994931; 3036994921; 3036994897; 3036994889;
  3036994879; 3036994847; 3036994799; 3036994787; 3036994777; 3036994747; 3036994717; 3036994703; 3036994679; 3036994673;
  3036994663; 3036994661; 3036994627; 3036994621; 3036994619; 3036994591; 3036994549; 3036994547; 3036994531; 3036994511;
  3036994507; 3036994489; 3036994469; 3036994439; 3036994423; 3036994417; 3036994397; 3036994381; 3036994369; 3036994349;
  3036994327; 3036994309; 3036994283; 3036994249; 3036994237; 3036994229; 3036994211; 3036994193; 3036994141; 3036994099;
  3036994073; 3036994069; 3036994063; 3036994043; 3036994039; 3036994033; 3036994001; 3036993977; 3036993937; 3036993913;
  3036993901; 3036993893; 3036993871; 3036993769; 3036993737; 3036993727; 3036993719; 3036993677; 3036993667; 3036993613;
  3036993607; 3036993601; 3036993587; 3036993571; 3036993569; 3036993541; 3036993539; 3036993529; 3036993527; 3036993511;
  3036993469; 3036993437; 3036993413; 3036993367; 3036993359; 3036993331; 3036993329; 3036993319; 3036993283; 3036993277;
  3036993257; 3036993251; 3036993241; 3036993233; 3036993221; 3036993217; 3036993181; 3036993161; 3036993143; 3036993133;
  3036993131; 3036993107; 3036993103; 3036993097; 3036993083; 3036993077; 3036993073; 3036993023; 3036992983; 3036992977;
  3036992969; 3036992957; 3036992953; 3036992921; 3036992899; 3036992879; 3036992873; 3036992869; 3036992809; 3036992773;
  3036992753; 3036992747; 3036992743; 3036992741; 3036992731; 3036992719; 3036992711; 3036992701; 3036992681; 3036992669;
  3036992639; 3036992579; 3036992521; 3036992507; 3036992503; 3036992461; 3036992437; 3036992423; 3036992401; 3036992383;
  3036992377; 3036992341; 3036992333; 3036992293; 3036992291; 3036992249; 3036992207; 3036992191; 3036992141; 3036992131;
  3036992113; 3036992087; 3036992083; 3036992069; 3036992051; 3036992033; 3036992017; 3036992011; 3036991987; 3036991981;
  3036991949; 3036991943; 3036991897; 3036991891; 3036991883; 3036991861; 3036991777; 3036991757; 3036991753; 3036991747;
  3036991717; 3036991649; 3036991627; 3036991619; 3036991591; 3036991543; 3036991511; 3036991501; 3036991481; 3036991453;
  3036991381; 3036991361; 3036991357; 3036991327; 3036991303; 3036991301; 3036991271; 3036991261; 3036991253; 3036991249;
  3036991247; 3036991189; 3036991183; 3036991171; 3036991147; 3036991127; 3036991109; 3036991081; 3036991063; 3036991049;
  3036991037; 3036991033; 3036991031; 3036991021; 3036990997; 3036990977; 3036990961; 3036990949; 3036990923; 3036990907;
  3036990899; 3036990893; 3036990871; 3036990851; 3036990829; 3036990779; 3036990769; 3036990763; 3036990739; 3036990727;
  3036990709; 3036990703; 3036990611; 3036990559; 3036990491; 3036990431; 3036990421; 3036990401; 3036990391; 3036990379;
  3036990371; 3036990323; 3036990317; 3036990277; 3036990263; 3036990247; 3036990233; 3036990227; 3036990199; 3036990193;
  3036990167; 3036990163; 3036990157; 3036990071; 3036990059; 3036990049; 3036990037; 3036990029; 3036990017; 3036989999].

Definition primes_1 : list Z := [
  3036989993; 3036989983; 3036989957; 3036989863; 3036989821; 3036989797; 3036989779; 3036989723; 3036989693; 3036989687;
  3036989651; 3036989611; 3036989609; 3036989603; 3036989573; 3036989561; 3036989539; 3036989477; 3036989471; 3036989441;
  3036989419; 3036989381; 3036989377; 3036989363; 3036989357; 3036989353; 3036989323; 3036989297; 3036989281; 3036989261;
  3036989209; 3036989167; 3036989159; 3036989149; 3036989129; 3036989107; 3036989101; 3036989077; 3036989071; 3036989063;
  3036989041; 3036989027; 3036988991; 3036988879; 3036988849; 3036988819; 3036988751; 3036988739; 3036988729; 3036988727;
  3036988723; 3036988699; 3036988679; 3036988673; 3036988667; 3036988651; 3036988637; 3036988631; 3036988627; 3036988583;
  3036988573; 3036988571; 3036988543; 3036988523; 3036988483; 3036988469; 3036988429; 3036988417; 3036988399; 3036988397;
  3036988393; 3036988387; 3036988369; 3036988349; 3036988319; 3036988313; 3036988309; 3036988301; 3036988277; 3036988271;
  3036988117; 3036988111; 3036988109; 3036988081; 3036988079; 3036988043; 3036988037; 3036988027; 3036988021; 3036987991;
  3036987979; 3036987937; 3036987931; 3036987929; 3036987917; 3036987913; 3036987901; 3036987883; 3036987871; 3036987809;
  3036987799; 3036987773; 3036987743; 3036987731; 3036987727; 3036987719; 3036987691; 3036987659; 3036987637; 3036987631;
  3036987601; 3036987589; 3036987587; 3036987581; 3036987563; 3036987557; 3036987553; 3036987533; 3036987529; 3036987523;
  3036987521; 3036987469; 3036987439; 3036987427; 3036987361; 3036987337; 3036987319; 3036987311; 3036987293; 3036987251;
  3036987241; 3036987197; 3036987167; 3036987127; 3036987089; 3036987077; 3036987073; 3036987067; 3036987061; 3036987043;
  3036986969; 3036986957; 3036986917; 3036986881; 3036986863; 3036986851; 3036986839; 3036986803; 3036986791; 3036986789;
  3036986767; 3036986759; 3036986737; 3036986713; 3036986669; 3036986609; 3036986599; 3036986593; 3036986569; 3036986509;
  3036986507; 3036986501; 3036986479; 3036986441; 3036986431; 3036986417; 3036986411; 3036986383; 3036986333; 3036986287;
  3036986279; 3036986203; 3036986189; 3036986167; 3036986129; 3036986123; 3036986107; 3036986041; 3036986023; 3036986009;
  3036985999; 3036985993; 3036985979; 3036985949; 3036985921; 3036985877; 3036985873; 3036985837; 3036985829; 3036985817;
  3036985813; 3036985799; 3036985771; 3036985753; 3036985747; 3036985741; 3036985739; 3036985733; 3036985729; 3036985709;
  3036985697; 3036985673; 3036985643; 3036985613; 3036985607; 3036985603; 3036985583; 3036985561; 3036985559; 3036985547;
  3036985543; 3036985499; 3036985459; 3036985439; 3036985433; 3036985409; 3036985373; 3036985361; 3036985309; 3036985291;
  3036985283; 3036985267; 3036985253; 3036985249; 3036985219; 3036985207; 3036985187; 3036985177; 3036985151; 3036985097;
  3036985093; 3036985073; 3036985033; 3036985031; 3036985001; 3036984997; 3036984989; 3036984971; 3036984953; 3036984943;
  3036984917; 3036984887; 3036984803; 3036984799; 3036984787; 3036984773; 3036984761; 3036984751; 3036984749; 3036984721;
  3036984697; 3036984673; 3036984667; 3036984637; 3036984623; 3036984589; 3036984569; 3036984563; 3036984539; 3036984527;
  3036984481; 3036984479; 3036984427; 3036984421; 3036984413; 3036984407; 3036984403; 3036984373; 3036984367; 3036984361;
  3036984343; 3036984319; 3036984287; 3036984259; 3036984257; 3036984253; 3036984199; 3036984191; 3036984151; 3036984133;
  3036984131; 3036984089; 3036984059; 3036984053; 3036984047; 3036984017; 3036983933; 3036983923; 3036983909; 3036983897;
  3036983867; 3036983843; 3036983837; 3036983827; 3036983813; 3036983809; 3036983777; 3036983771; 3036983699; 3036983689;
  3036983671; 3036983657; 3036983629; 3036983623; 3036983597; 3036983567; 3036983561; 3036983539; 3036983533; 3036983497;
  3036983483; 3036983441; 3036983407; 3036983387; 3036983297; 3036983281; 3036983249; 3036983203; 3036983189; 3036983177;
  3036983167; 3036983137; 3036983111; 3036983099; 3036983083; 3036983063; 3036983057; 3036983041; 3036982981; 3036982937;
  3036982919; 3036982853; 3036982843; 3036982841; 3036982789; 3036982777; 3036982757; 3036982727; 3036982693; 3036982643;
  3036982639; 3036982601; 3036982589; 3036982577; 3036982567; 3036982547; 3036982541; 3036982523; 3036982519; 3036982489;
  3036982469; 3036982451; 3036982423; 3036982397; 3036982387; 3036982349; 3036982337; 3036982331; 3036982313; 3036982297;
  3036982279; 3036982271; 3036982189; 3036982139; 3036982133; 3036982121; 3036982111; 3036982103; 3036982099; 3036982093;
  3036982061; 3036982043; 3036982009; 3036982001; 3036981979; 3036981967; 3036981953; 3036981931; 3036981923; 3036981917;
  3036981863; 3036981859; 3036981853; 3036981851; 3036981821; 3036981811; 3036981797; 3036981763; 3036981733; 3036981713;
  3036981691; 3036981659; 3036981553; 3036981547; 3036981539; 3036981533; 3036981481; 3036981421; 3036981407; 3036981401;
  3036981383; 3036981373; 3036981359; 3036981347; 3036981323; 3036981313; 3036981307; 3036981301; 3036981289; 3036981287;
  3036981209; 3036981179; 3036981139; 3036981097; 3036981067; 3036981043; 3036981041; 3036981023; 3036981011; 3036980971;
  3036980941; 3036980917; 3036980911; 3036980897; 3036980867; 3036980851; 3036980819; 3036980803; 3036980761; 3036980753;
  3036980747; 3036980701; 3036980699; 3036980677; 3036980599; 3036980579; 3036980549; 3036980537; 3036980533; 3036980519;
  3036980497; 3036980491; 3036980459; 3036980423; 3036980371; 3036980363; 3036980339; 3036980327; 3036980269; 3036980267;
  3036980263; 3036980207; 3036980161; 3036980129; 3036980123; 3036980117; 3036980077; 3036980071; 3036980047; 3036980041;
  3036980039; 3036980033; 3036980027; 3036979997; 3036979987; 3036979937; 3036979927; 3036979919; 3036979873; 3036979861;
  3036979849; 3036979837; 3036979793; 3036979787; 3036979769; 3036979763; 3036979723; 3036979709; 3036979679; 3036979661;
  3036979601; 3036979597; 3036979579; 3036979571; 3036979531; 3036979529; 3036979523; 3036979457; 3036979391; 3036979357;
  3036979343; 3036979339; 3036979303; 3036979301; 3036979291; 3036979289; 3036979261; 3036979249; 3036979237; 3036979223].

Definition primes_2 : list Z := [
  3036762997; 3036545581; 3036327389; 3036107951; 3035888633; 3035669363; 3035449477; 3035232667; 3035014193; 3034795427;
  3034577531; 3034357853; 3034138969; 3033923621; 3033706409; 3033488597; 3033267889; 3033049871; 3032832493; 3032615063;
  3032396527; 3032177359; 3031960339; 3031742731; 3031526081; 3031308359; 3031092199; 3030873071; 3030655757; 3030437257;
  3030218647; 3029999191; 3029780833; 3029559389; 3029339741; 3029122153; 3028904231; 3028687897; 3028467803; 3028251181;
  3028034189; 3027815579; 3027597247; 3027377317; 3027158237; 3026939441; 3026721421; 3026502179; 3026282261; 3026065561;
  3025847507; 3025627663; 3025409689; 3025190813; 3024971231; 3024753383; 3024533179; 3024312673; 3024094123; 3023876753;
  3023655737; 3023439317; 3023222239; 3023004151; 3022786831; 3022566857; 3022349243; 3022131979; 3021911663; 3021695137;
  3021477377; 3021256289; 3021037769; 3020820247; 3020600897; 3020381843; 3020165179; 3019948573; 3019729819; 3019510561;
  3019294087; 3019074679; 3018854257; 3018637471; 3018418159; 3018199469; 3017981123; 3017762807; 3017544701; 3017327809;
  3017107381; 3016890403; 3016671503; 3016453117; 3016234721; 3016015661; 3015797003; 3015579211; 3015360779; 3015141427;
  3014924197; 3014705597; 3014487473; 3014268743; 3014052511; 3013832473; 3013615529; 3013397269; 3013177819; 3012960241;
  3012743291; 3012525497; 3012307019; 3012088889; 3011870993; 3011652491; 3011434169; 3011217061; 3010999219; 3010780781;
  3010564993; 3010348387; 3010127833; 3009910177; 3009693839; 3009474253; 3009255637; 3009037517; 3008820911; 3008599381;
  3008379739; 3008159723; 3007941473; 3007724221; 3007506361; 3007288589; 3007068709; 3006850277; 3006630499; 3006412979;
  3006194489; 3005975761; 3005755367; 3005537413; 3005317433; 3005101609; 3004884821; 3004669463; 3004450633; 3004231093;
  3004011743; 3003795953; 3003576871; 3003357971; 3003138847; 3002919079; 3002700947; 3002481649; 3002264299; 3002046821;
  3001828987; 3001609753; 3001390789; 3001172389; 3000954289; 3000736049; 3000517057; 3000299059; 3000081691; 2999865541;
  2999645267; 2999428681; 2999208437; 2998989517; 2998769261; 2998552309; 2998331761; 2998112737; 2997895037; 2997675017;
  2997456079; 2997236027; 2997018683; 2996799863; 2996579689; 2996360473; 2996141653; 2995922999; 2995706647; 2995488203;
  2995270471; 2995052131; 2994832817; 2994613397; 2994394969; 2994176371; 2993958943; 2993739953; 2993521463; 2993302891;
  2993085449; 2992867159; 2992647499; 2992428287; 2992211983; 2991996857; 2991776339; 2991556427; 2991341417; 2991121901;
  2990904949; 2990686943; 2990471509; 2990252131; 2990033617; 2989816859; 2989597759; 2989377431; 2989159883; 2988940987;
  2988721301; 2988502883; 2988285617; 2988066629; 2987849437; 2987630771; 2987414873; 2987198597; 2986980923; 2986764181;
  2986545649; 2986327571; 2986109209; 2985890657; 2985670433; 2985453733; 2985237617; 2985019019; 2984801321; 2984581697;
  2984360947; 2984142757; 2983925299; 2983708313; 2983488721; 2983270751; 2983052749; 2982833473; 2982617243; 2982401029;
  2982184763; 2981967419; 2981746181; 2981525629; 2981308009; 2981089733; 2980871129; 2980654093; 2980435439; 2980218091;
  2980002373; 2979781547; 2979562793; 2979344219; 2979127687; 2978907857; 2978690389; 2978472713; 2978255261; 2978038267;
  2977818317; 2977601191; 2977384337; 2977166617; 2976948059; 2976730721; 2976512857; 2976292927; 2976075541; 2975857043;
  2975638751; 2975421623; 2975204087; 2974987151; 2974768619; 2974552081; 2974332671; 2974113341; 2973895261; 2973677171;
  2973458113; 2973241703; 2973023369; 2972804099; 2972586329; 2972367829; 2972149039; 2971931051; 2971711019; 2971494139;
  2971277423; 2971059173; 2970838919; 2970619343; 2970403757; 2970183743; 2969959627; 2969743547; 2969525033; 2969309891;
  2969090279; 2968871251; 2968651541; 2968435117; 2968214531; 2967996443; 2967780931; 2967562369; 2967343021; 2967124487;
  2966906353; 2966688983; 2966472557; 2966253179; 2966035691; 2965819673; 2965600733; 2965383739; 2965166959; 2964946847;
  2964729197; 2964510889; 2964292297; 2964075437; 2963855227; 2963638693; 2963421677; 2963204119; 2962986503; 2962766491;
  2962547311; 2962331657; 2962112771; 2961895337; 2961679121; 2961460591; 2961241603; 2961022781; 2960805161; 2960587099;
  2960369359; 2960151149; 2959931383; 2959714627; 2959495937; 2959277393; 2959059997; 2958843161; 2958625499; 2958407399;
  2958189191; 2957972767; 2957753053; 2957535137; 2957317171; 2957098873; 2956880557; 2956660747; 2956441343; 2956224577;
  2956007273; 2955789979; 2955569107; 2955349213; 2955131051; 2954912297; 2954693083; 2954475233; 2954255153; 2954037211;
  2953818851; 2953599667; 2953381993; 2953162151; 2952942739; 2952725873; 2952506693; 2952289517; 2952071821; 2951854319;
  2951636731; 2951419189; 2951201251; 2950982971; 2950763201; 2950544221; 2950326689; 2950110017; 2949891643; 2949673561;
  2949456077; 2949238151; 2949022819; 2948803327; 2948584297; 2948367439; 2948148473; 2947930483; 2947712767; 2947495459;
  2947277803; 2947061057; 2946842537; 2946625949; 2946405619; 2946187753; 2945970421; 2945751373; 2945535001; 2945315713;
  2945096753; 2944880387; 2944658933; 2944441141; 2944223479; 2944005997; 2943788681; 2943569197; 2943351529; 2943132887;
  2942914609; 2942697049; 2942480587; 2942261857; 2942041747; 2941824229; 2941604959; 2941387153; 2941168301; 2940949691;
  2940733787; 2940516781; 2940299849; 2940084479; 2939867743; 2939650613; 2939432609; 2939214277; 2938996777; 2938779271;
  2938560353; 2938341551; 2938124249; 2937905819; 2937690901; 2937472607; 2937253091; 2937035341; 2936814169; 2936597249;
  2936378723; 2936162003; 2935942103; 2935724443; 2935504679; 2935286489; 2935067897; 2934850591; 2934633607; 2934416071;
  2934197197; 2933980571; 2933761433; 2933543771; 2933324839; 2933105831; 2932886129; 2932668953; 2932451867; 2932234901;
  2932015831; 2931799373; 2931579601; 2931363089; 2931144523; 2930928227; 2930711587; 2930493919; 2930273009; 2930054573;
  2929836719; 2929619653; 2929400603; 2929183613; 2928966151; 2928748139; 2928530929; 2928313153; 2928094357; 2927875619].

Definition primes_3 : list Z := [
  2927658673; 2927442487; 2927222069; 2927004709; 2926787309; 2926569361; 2926350367; 2926135529; 2925917893; 2925698173;
  2925480919; 2925263279; 2925046463; 2924831069; 2924613371; 2924393729; 2924175193; 2923954801; 2923737343; 2923518683;
  2923300829; 2923082209; 2922864767; 2922649421; 2922430073; 2922212519; 2921994917; 2921775803; 2921559653; 2921341103;
  2921126489; 2920908283; 2920689061; 2920471049; 2920251703; 2920034347; 2919817627; 2919598021; 2919381319; 2919162959;
  2918943683; 2918729057; 2918510587; 2918292271; 2918072057; 2917854413; 2917635811; 2917419499; 2917202663; 2916983521;
  2916765193; 2916545773; 2916328517; 2916112183; 2915893681; 2915677241; 2915456513; 2915239601; 2915020937; 2914803761;
  2914586503; 2914368059; 2914150271; 2913932779; 2913714131; 2913494791; 2913274457; 2913057307; 2912839169; 2912621401;
  2912404247; 2912187853; 2911970317; 2911752157; 2911532539; 2911313501; 2911094951; 2910876457; 2910657353; 2910439451;
  2910221297; 2910003703; 2909787409; 2909568721; 2909351741; 2909134769; 2908916249; 2908699601; 2908480777; 2908262023;
  2908043023; 2907825317; 2907607337; 2907388073; 2907166967; 2906952473; 2906736593; 2906518943; 2906300231; 2906082233;
  2905864067; 2905644013; 2905426619; 2905208881; 2904993263; 2904773771; 2904556769; 2904338867; 2904123031; 2903903861;
  2903686447; 2903468497; 2903250821; 2903031559; 2902812839; 2902597123; 2902380449; 2902160717; 2901941417; 2901724187;
  2901507019; 2901289403; 2901071813; 2900854379; 2900634593; 2900418889; 2900202287; 2899984603; 2899766291; 2899550011;
  2899332323; 2899114357; 2898895687; 2898677891; 2898458359; 2898238669; 2898022789; 2897804407; 2897587421; 2897369021;
  2897150423; 2896932589; 2896714631; 2896495643; 2896278251; 2896061459; 2895842179; 2895625609; 2895408143; 2895191393;
  2894976157; 2894758709; 2894538461; 2894320211; 2894101087; 2893885381; 2893666007; 2893448681; 2893230569; 2893012403;
  2892794153; 2892573601; 2892357361; 2892141401; 2891924291; 2891705197; 2891485453; 2891265869; 2891046343; 2890827241;
  2890611539; 2890395037; 2890176347; 2889959197; 2889741301; 2889523193; 2889304499; 2889089393; 2888872171; 2888652913;
  2888435443; 2888217103; 2887998313; 2887779967; 2887561093; 2887343237; 2887123997; 2886907081; 2886689119; 2886472033;
  2886253057; 2886035473; 2885816789; 2885599417; 2885384233; 2885167091; 2884947421; 2884728403; 2884511183; 2884293637;
  2884076357; 2883857357; 2883636991; 2883420959; 2883205421; 2882988211; 2882768663; 2882551601; 2882332891; 2882115923;
  2881893467; 2881675499; 2881460221; 2881243067; 2881026271; 2880811447; 2880592861; 2880372919; 2880155819; 2879937503;
  2879719223; 2879501707; 2879284477; 2879065151; 2878847353; 2878630171; 2878412213; 2878195469; 2877978211; 2877761027;
  2877542959; 2877323003; 2877103631; 2876887777; 2876669153; 2876450789; 2876234329; 2876015969; 2875798063; 2875580219;
  2875359587; 2875143757; 2874924197; 2874705727; 2874488887; 2874269987; 2874053293; 2873838833; 2873621573; 2873405077;
  2873184967; 2872965317; 2872747699; 2872530079; 2872311397; 2872093027; 2871876197; 2871660371; 2871442997; 2871223709;
  2871006713; 2870788931; 2870569511; 2870353319; 2870136403; 2869918537; 2869699211; 2869482403; 2869264327; 2869046833;
  2868829897; 2868611561; 2868394531; 2868174143; 2867957447; 2867741813; 2867525273; 2867306537; 2867087807; 2866870037;
  2866650131; 2866432507; 2866214723; 2865995389; 2865779281; 2865562759; 2865345643; 2865128281; 2864909689; 2864694359;
  2864474981; 2864259109; 2864041781; 2863821967; 2863603163; 2863384697; 2863168019; 2862948337; 2862729659; 2862513271;
  2862296011; 2862079601; 2861861329; 2861642369; 2861425097; 2861209789; 2860995217; 2860778423; 2860561097; 2860342603;
  2860123993; 2859905843; 2859688873; 2859471767; 2859252779; 2859032731; 2858814547; 2858597117; 2858380367; 2858163197;
  2857943411; 2857725271; 2857506689; 2857290773; 2857072787; 2856856927; 2856636661; 2856421241; 2856205237; 2855990087;
  2855772947; 2855553373; 2855333407; 2855115623; 2854898329; 2854680739; 2854464091; 2854245203; 2854025267; 2853810433;
  2853595379; 2853379457; 2853160217; 2852940071; 2852723551; 2852506303; 2852289907; 2852072389; 2851854713; 2851637123;
  2851420771; 2851204067; 2850984959; 2850768589; 2850549269; 2850330421; 2850111983; 2849894777; 2849677687; 2849461753;
  2849245277; 2849027833; 2848809701; 2848590973; 2848374059; 2848154471; 2847936691; 2847718589; 2847501413; 2847283139;
  2847064399; 2846845681; 2846630233; 2846412451; 2846195621; 2845978997; 2845761719; 2845545929; 2845328281; 2845111153;
  2844894137; 2844676819; 2844457703; 2844237833; 2844020057; 2843802061; 2843583269; 2843367311; 2843148307; 2842929931;
  2842712767; 2842494803; 2842276837; 2842059893; 2841843317; 2841625249; 2841405043; 2841186893; 2840966993; 2840751341;
  2840533337; 2840315887; 2840099881; 2839879993; 2839663579; 2839446527; 2839227731; 2839010423; 2838792029; 2838573323;
  2838357359; 2838139411; 2837920433; 2837703611; 2837486299; 2837267611; 2837049623; 2836833059; 2836613807; 2836398179;
  2836180517; 2835963887; 2835744931; 2835526247; 2835309481; 2835089911; 2834871859; 2834655797; 2834437279; 2834220317;
  2834003617; 2833786201; 2833565099; 2833349143; 2833132711; 2832915803; 2832695309; 2832478303; 2832259931; 2832041741;
  2831822611; 2831604649; 2831385941; 2831168953; 2830949377; 2830732193; 2830514789; 2830296191; 2830078421; 2829861907;
  2829645557; 2829428501; 2829210367; 2828994253; 2828776007; 2828556517; 2828338973; 2828122361; 2827905911; 2827687451;
  2827470001; 2827253929; 2827036441; 2826817351; 2826600781; 2826383321; 2826165103; 2825945599; 2825728769; 2825510437;
  2825292881; 2825075599; 2824857577; 2824637267; 2824421753; 2824203383; 2823985121; 2823767741; 2823552713; 2823334027;
  2823115531; 2822899567; 2822681171; 2822466149; 2822249779; 2822031559; 2821815097; 2821597187; 2821377467; 2821161307;
  2820944677; 2820726023; 2820509233; 2820291787; 2820074617; 2819858617; 2819639863; 2819420909; 2819204699; 2818986097].

Definition primes_4 : list Z := [
  2818769671; 2818554127; 2818338797; 2818119323; 2817902393; 2817687143; 2817470609; 2817251677; 2817033533; 2816816729;
  2816597177; 2816379701; 2816161721; 2815943177; 2815724267; 2815508719; 2815292171; 2815074161; 2814855517; 2814639523;
  2814424241; 2814205813; 2813989523; 2813771789; 2813553863; 2813335013; 2813118311; 2812899511; 2812682017; 2812466269;
  2812247873; 2812029713; 2811814463; 2811594971; 2811377483; 2811158557; 2810940163; 2810724047; 2810504129; 2810285299;
  2810067109; 2809850917; 2809632401; 2809416563; 2809198597; 2808980641; 2808761933; 2808546109; 2808327799; 2808109763;
  2807892041; 2807673161; 2807455799; 2807239129; 2807021237; 2806801457; 2806581781; 2806364989; 2806148617; 2805931031;
  2805715879; 2805500573; 2805283331; 2805064187; 2804847361; 2804630473; 2804413741; 2804195767; 2803975861; 2803759481;
  2803540147; 2803324603; 2803107253; 2802890353; 2802672823; 2802457183; 2802239873; 2802023131; 2801805257; 2801588953;
  2801372323; 2801154773; 2800937873; 2800719839; 2800502303; 2800284107; 2800066679; 2799847909; 2799629947; 2799413213;
  2799194747; 2798976953; 2798757359; 2798541121; 2798323391; 2798104747; 2797889089; 2797671869; 2797455259; 2797239293;
  2797022453; 2796803531; 2796585007; 2796367729; 2796151247; 2795933939; 2795714539; 2795497283; 2795280629; 2795064541;
  2794846657; 2794628513; 2794411001; 2794193641; 2793974507; 2793756883; 2793538697; 2793322783; 2793104891; 2792887567;
  2792669413; 2792450077; 2792234747; 2792015983; 2791799281; 2791579949; 2791362671; 2791148117; 2790929363; 2790712147;
  2790494117; 2790276341; 2790057701; 2789840201; 2789622509; 2789404531; 2789187923; 2788970959; 2788753739; 2788535047;
  2788317643; 2788099129; 2787883151; 2787666533; 2787448931; 2787231721; 2787014497; 2786796839; 2786578331; 2786361649;
  2786144821; 2785926443; 2785709483; 2785492691; 2785276147; 2785059701; 2784842513; 2784623269; 2784403757; 2784186253;
  2783970367; 2783751689; 2783533561; 2783316001; 2783098823; 2782882673; 2782664111; 2782447223; 2782229669; 2782011607;
  2781792473; 2781577033; 2781359699; 2781143957; 2780925857; 2780705443; 2780487971; 2780272037; 2780052623; 2779835621;
  2779620559; 2779402261; 2779184761; 2778966361; 2778750509; 2778533341; 2778314027; 2778097499; 2777877251; 2777660539;
  2777443531; 2777226589; 2777009243; 2776792973; 2776576351; 2776361117; 2776143047; 2775924847; 2775707611; 2775489313;
  2775272177; 2775054169; 2774836811; 2774619791; 2774401967; 2774184313; 2773966513; 2773747181; 2773530527; 2773313149;
  2773095791; 2772879017; 2772660467; 2772444667; 2772228551; 2772009767; 2771792449; 2771576581; 2771359039; 2771144221;
  2770927889; 2770711787; 2770494997; 2770277231; 2770058563; 2769839873; 2769624397; 2769407651; 2769188251; 2768970991;
  2768754187; 2768536579; 2768319319; 2768102431; 2767887809; 2767669573; 2767451647; 2767235123; 2767018187; 2766800807;
  2766583471; 2766366329; 2766148349; 2765931257; 2765713711; 2765494453; 2765279519; 2765058767; 2764841509; 2764622239;
  2764406269; 2764188703; 2763970529; 2763752401; 2763533807; 2763317149; 2763100811; 2762884231; 2762668303; 2762450149;
  2762230519; 2762015407; 2761798139; 2761581419; 2761365491; 2761146097; 2760927271; 2760711053; 2760493937; 2760274871;
  2760056279; 2759839081; 2759621659; 2759403499; 2759183873; 2758967117; 2758749431; 2758531091; 2758312511; 2758094869;
  2757875647; 2757661289; 2757443287; 2757225577; 2757009529; 2756793001; 2756576659; 2756357939; 2756141051; 2755926427;
  2755708801; 2755491989; 2755275233; 2755057649; 2754840499; 2754623321; 2754407107; 2754190189; 2753970071; 2753751277;
  2753533889; 2753317397; 2753098739; 2752879889; 2752663559; 2752447129; 2752230763; 2752012477; 2751795523; 2751574817;
  2751359173; 2751143231; 2750927563; 2750710201; 2750494993; 2750277767; 2750058631; 2749838719; 2749621681; 2749404323;
  2749186409; 2748969491; 2748754933; 2748537481; 2748318541; 2748099931; 2747881769; 2747664079; 2747446327; 2747228923;
  2747009921; 2746791577; 2746574401; 2746356461; 2746139393; 2745923597; 2745705107; 2745486259; 2745268853; 2745053603;
  2744837633; 2744620103; 2744402081; 2744184061; 2743965649; 2743747399; 2743529093; 2743309747; 2743091501; 2742875263;
  2742657499; 2742436849; 2742221177; 2742002209; 2741784317; 2741565467; 2741350751; 2741134939; 2740917589; 2740700147;
  2740484129; 2740268543; 2740051661; 2739832097; 2739613999; 2739397519; 2739180611; 2738965601; 2738750713; 2738530519;
  2738312657; 2738097601; 2737880659; 2737663919; 2737447673; 2737231039; 2737011469; 2736795203; 2736577367; 2736359929;
  2736140411; 2735922361; 2735707621; 2735490701; 2735272087; 2735051993; 2734834733; 2734617673; 2734399807; 2734183789;
  2733964489; 2733747299; 2733531319; 2733315773; 2733096937; 2732877229; 2732659313; 2732442539; 2732224381; 2732008493;
  2731791107; 2731575277; 2731359073; 2731143791; 2730927193; 2730710711; 2730492463; 2730272821; 2730056191; 2729836853;
  2729618401; 2729401309; 2729183783; 2728967399; 2728750513; 2728532957; 2728316387; 2728095649; 2727876353; 2727657487;
  2727441889; 2727223129; 2727005321; 2726785889; 2726567969; 2726350567; 2726134057; 2725917767; 2725702043; 2725483997;
  2725265143; 2725048691; 2724834121; 2724617173; 2724400213; 2724182843; 2723963009; 2723744983; 2723527771; 2723309219;
  2723091817; 2722872419; 2722654423; 2722437283; 2722221071; 2722003787; 2721787063; 2721571087; 2721354179; 2721135533;
  2720918813; 2720700211; 2720482043; 2720263867; 2720045333; 2719829513; 2719610849; 2719394527; 2719178291; 2718963449;
  2718746123; 2718526709; 2718310267; 2718091331; 2717873803; 2717658043; 2717440529; 2717224541; 2717007047; 2716791377;
  2716572949; 2716355051; 2716137659; 2715920573; 2715704273; 2715486167; 2715267853; 2715051109; 2714833687; 2714615261;
  2714398829; 2714182301; 2713964917; 2713748071; 2713530331; 2713313419; 2713095769; 2712878431; 2712662101; 2712443231;
  2712227411; 2712009089; 2711793187; 2711574529; 2711360329; 2711144291; 2710924687; 2710707551; 2710489841; 2710273571].

Definition primes_5 : list Z := [
  2710057997; 2709838841; 2709622463; 2709405917; 2709186349; 2708968877; 2708750413; 2708532971; 2708318071; 2708101423;
  2707882889; 2707665913; 2707449389; 2707232833; 2707015789; 2706799423; 2706580579; 2706364931; 2706147757; 2705930971;
  2705712257; 2705495677; 2705279699; 2705062303; 2704846349; 2704628477; 2704412203; 2704194443; 2703975119; 2703756427;
  2703538801; 2703322967; 2703105413; 2702888407; 2702670497; 2702454919; 2702235997; 2702021737; 2701801493; 2701585729;
  2701367989; 2701151581; 2700934559; 2700718619; 2700500519; 2700284057; 2700067691; 2699850661; 2699632207; 2699414203;
  2699197199; 2698979867; 2698763449; 2698546423; 2698328177; 2698112723; 2697894349; 2697677911; 2697461189; 2697244709;
  2697028651; 2696813281; 2696594269; 2696377417; 2696159857; 2695942259; 2695726037; 2695509877; 2695293703; 2695077029;
  2694857899; 2694641657; 2694426953; 2694209863; 2693992429; 2693776999; 2693558843; 2693339317; 2693121281; 2692904281;
  2692687223; 2692468787; 2692252309; 2692034089; 2691819241; 2691602107; 2691383239; 2691166903; 2690948789; 2690732003;
  2690515171; 2690299373; 2690081593; 2689862561; 2689645753; 2689428227; 2689209829; 2688993607; 2688777209; 2688561017;
  2688343547; 2688127933; 2687911913; 2687694539; 2687476763; 2687263067; 2687049571; 2686832471; 2686615571; 2686398347;
  2686179949; 2685965081; 2685747137; 2685529541; 2685310961; 2685093211; 2684876093; 2684658019; 2684440067; 2684223953;
  2684005817; 2683789963; 2683571243; 2683353733; 2683137199; 2682917623; 2682700063; 2682479377; 2682264451; 2682047707;
  2681828923; 2681611753; 2681394413; 2681177111; 2680959709; 2680744291; 2680525957; 2680308977; 2680096213; 2679877279;
  2679660703; 2679442013; 2679225181; 2679008639; 2678791777; 2678576051; 2678358019; 2678142487; 2677926301; 2677708807;
  2677493873; 2677275257; 2677055411; 2676838837; 2676620759; 2676405769; 2676189599; 2675970641; 2675755597; 2675538689;
  2675323379; 2675104633; 2674886273; 2674669183; 2674452647; 2674236199; 2674019521; 2673802099; 2673589109; 2673370517;
  2673153583; 2672936393; 2672719319; 2672502383; 2672285699; 2672069171; 2671851187; 2671632563; 2671414829; 2671199281;
  2670982297; 2670764023; 2670547589; 2670329219; 2670112937; 2669897969; 2669681671; 2669463829; 2669247731; 2669028689;
  2668810241; 2668592911; 2668377587; 2668161701; 2667945023; 2667728057; 2667510931; 2667293077; 2667076751; 2666860253;
  2666643367; 2666425523; 2666207899; 2665990751; 2665773419; 2665557353; 2665337501; 2665121737; 2664904817; 2664690073;
  2664472079; 2664258323; 2664039709; 2663820461; 2663602421; 2663387431; 2663168177; 2662951507; 2662735541; 2662516147;
  2662300259; 2662082509; 2661865067; 2661648779; 2661432827; 2661214163; 2660999801; 2660781689; 2660562241; 2660345951;
  2660127443; 2659910443; 2659691731; 2659474313; 2659255663; 2659039301; 2658822889; 2658607327; 2658391117; 2658171743;
  2657953993; 2657735627; 2657519093; 2657300533; 2657084537; 2656869827; 2656653679; 2656434799; 2656218541; 2656001609;
  2655785789; 2655570427; 2655354607; 2655138589; 2654923177; 2654706149; 2654489879; 2654274641; 2654055773; 2653839263;
  2653621843; 2653405831; 2653189291; 2652972197; 2652754297; 2652539249; 2652321443; 2652103859; 2651884883; 2651667787;
  2651451791; 2651231629; 2651014127; 2650796653; 2650580249; 2650363361; 2650147111; 2649933037; 2649715879; 2649498611;
  2649282833; 2649064001; 2648847847; 2648628863; 2648409479; 2648192941; 2647976189; 2647759267; 2647543273; 2647326169;
  2647110629; 2646891629; 2646675377; 2646458467; 2646241303; 2646024781; 2645808241; 2645591363; 2645373799; 2645155729;
  2644938983; 2644720241; 2644505509; 2644285547; 2644068403; 2643849823; 2643632899; 2643416371; 2643198983; 2642982389;
  2642764637; 2642546867; 2642330021; 2642114309; 2641897289; 2641679903; 2641464583; 2641247107; 2641030501; 2640813577;
  2640595387; 2640378677; 2640158657; 2639944249; 2639727721; 2639511683; 2639296301; 2639077267; 2638858801; 2638637987;
  2638423691; 2638207669; 2637992069; 2637776507; 2637558317; 2637341431; 2637125737; 2636909777; 2636691353; 2636473793;
  2636255731; 2636038121; 2635820051; 2635603241; 2635384553; 2635166099; 2634948179; 2634729767; 2634513631; 2634295421;
  2634078131; 2633861851; 2633645137; 2633429243; 2633212481; 2632993633; 2632775279; 2632558007; 2632341337; 2632126339;
  2631908537; 2631692597; 2631477319; 2631259781; 2631043561; 2630828731; 2630613143; 2630397893; 2630179499; 2629962739;
  2629744907; 2629529321; 2629310449; 2629091953; 2628874163; 2628659393; 2628440917; 2628222629; 2628006571; 2627789387;
  2627571263; 2627356183; 2627139131; 2626923749; 2626706723; 2626490747; 2626273151; 2626054199; 2625836069; 2625621469;
  2625405073; 2625186331; 2624968571; 2624753177; 2624536573; 2624318867; 2624102137; 2623886479; 2623670167; 2623450667;
  2623233539; 2623015669; 2622798911; 2622582203; 2622365293; 2622146899; 2621929019; 2621714273; 2621497343; 2621280383;
  2621064059; 2620847813; 2620631471; 2620414429; 2620198877; 2619982487; 2619765787; 2619550579; 2619333139; 2619116081;
  2618899931; 2618682371; 2618463889; 2618248037; 2618032909; 2617816303; 2617598407; 2617381099; 2617163711; 2616947087;
  2616730153; 2616515873; 2616296401; 2616081211; 2615863463; 2615646091; 2615429951; 2615214491; 2614996649; 2614780747;
  2614561129; 2614343869; 2614125539; 2613909959; 2613692597; 2613477539; 2613260467; 2613044363; 2612829473; 2612611453;
  2612394649; 2612176891; 2611957609; 2611740809; 2611525001; 2611307623; 2611092301; 2610874723; 2610658429; 2610440659;
  2610225349; 2610009869; 2609793761; 2609575523; 2609357537; 2609140153; 2608923287; 2608707473; 2608489789; 2608273363;
  2608055477; 2607838963; 2607621487; 2607403291; 2607186877; 2606966951; 2606751743; 2606533609; 2606317411; 2606100793;
  2605883897; 2605667153; 2605448753; 2605231193; 2605014913; 2604797309; 2604582131; 2604366593; 2604149179; 2603934233;
  2603717729; 2603502661; 2603284571; 2603067263; 2602846133; 2602629787; 2602412567; 2602195759; 2601979477; 2601761791].

Definition primes_6 : list Z := [
  2601547447; 2601328687; 2601107869; 2600891873; 2600673967; 2600457787; 2600242111; 2600025353; 2599807471; 2599589617;
  2599374607; 2599156873; 2598942991; 2598725593; 2598507889; 2598293911; 2598075091; 2597857697; 2597643011; 2597426287;
  2597207407; 2596990943; 2596775537; 2596557989; 2596340353; 2596123469; 2595906763; 2595690697; 2595473267; 2595256019;
  2595041297; 2594823029; 2594608529; 2594391979; 2594174971; 2593957823; 2593739803; 2593521767; 2593305053; 2593087513;
  2592871531; 2592654041; 2592437929; 2592221161; 2592003863; 2591787493; 2591571179; 2591355859; 2591139919; 2590921727;
  2590705829; 2590488157; 2590272709; 2590057949; 2589843371; 2589624967; 2589408167; 2589194147; 2588976583; 2588759923;
  2588542763; 2588325721; 2588107619; 2587892101; 2587675567; 2587460251; 2587244389; 2587025141; 2586807149; 2586590401;
  2586374317; 2586158693; 2585941643; 2585722697; 2585505907; 2585290069; 2585072767; 2584855279; 2584640579; 2584422497;
  2584204607; 2583990001; 2583773659; 2583555721; 2583338327; 2583121259; 2582905651; 2582688041; 2582469793; 2582254019;
  2582037103; 2581820699; 2581606201; 2581389763; 2581174697; 2580956501; 2580739171; 2580522377; 2580305843; 2580090167;
  2579872481; 2579656291; 2579442023; 2579223007; 2579006891; 2578788097; 2578569919; 2578353559; 2578136993; 2577920299;
  2577706259; 2577488027; 2577272167; 2577055669; 2576837143; 2576619973; 2576404241; 2576188333; 2575971793; 2575754497;
  2575538299; 2575321747; 2575105031; 2574888223; 2574672091; 2574456811; 2574239957; 2574024287; 2573808011; 2573590927;
  2573375023; 2573157761; 2572940339; 2572723019; 2572506899; 2572292279; 2572077103; 2571858599; 2571642473; 2571425821;
  2571208529; 2570990369; 2570773441; 2570559869; 2570342717; 2570124047; 2569905977; 2569691791; 2569474489; 2569259047;
  2569043497; 2568826747; 2568610543; 2568394487; 2568177319; 2567960729; 2567743853; 2567527723; 2567312149; 2567094511;
  2566876579; 2566660301; 2566443881; 2566226821; 2566010947; 2565794353; 2565579977; 2565364231; 2565146569; 2564930507;
  2564713583; 2564498843; 2564283143; 2564066677; 2563849087; 2563634039; 2563419293; 2563201339; 2562985517; 2562768883;
  2562550747; 2562331649; 2562114743; 2561899009; 2561684717; 2561469901; 2561252557; 2561036551; 2560819993; 2560600963;
  2560383131; 2560163939; 2559947333; 2559732017; 2559515687; 2559298571; 2559083963; 2558866837; 2558650291; 2558433401;
  2558218781; 2558002897; 2557785821; 2557567981; 2557350097; 2557134737; 2556919997; 2556701327; 2556484211; 2556267677;
  2556051929; 2555837747; 2555622319; 2555406457; 2555188639; 2554971443; 2554754921; 2554539539; 2554320997; 2554104451;
  2553889699; 2553674129; 2553456461; 2553239069; 2553022207; 2552804363; 2552586833; 2552373497; 2552154617; 2551939211;
  2551722221; 2551507171; 2551289401; 2551072441; 2550854513; 2550637459; 2550422011; 2550204619; 2549989213; 2549772451;
  2549556367; 2549344409; 2549126737; 2548911913; 2548696739; 2548480237; 2548263559; 2548045919; 2547829759; 2547611191;
  2547396581; 2547179527; 2546962577; 2546746981; 2546529199; 2546312413; 2546095631; 2545880399; 2545664809; 2545449493;
  2545232681; 2545014881; 2544797323; 2544580949; 2544362081; 2544144749; 2543927899; 2543710349; 2543493541; 2543278021;
  2543058757; 2542841729; 2542624603; 2542408513; 2542191709; 2541975707; 2541759137; 2541542141; 2541326009; 2541111257;
  2540896591; 2540679419; 2540462593; 2540246953; 2540030399; 2539813907; 2539596281; 2539379419; 2539161697; 2538945569;
  2538728831; 2538513301; 2538297287; 2538080243; 2537864347; 2537649151; 2537433263; 2537217229; 2537001541; 2536784311;
  2536567823; 2536351751; 2536135703; 2535920071; 2535703109; 2535485651; 2535267913; 2535049381; 2534835071; 2534618899;
  2534401141; 2534184743; 2533968511; 2533751977; 2533535057; 2533319801; 2533103939; 2532889717; 2532672287; 2532458581;
  2532240527; 2532024263; 2531808221; 2531594033; 2531375533; 2531159747; 2530945583; 2530728091; 2530510111; 2530291601;
  2530076701; 2529860363; 2529644539; 2529427169; 2529210923; 2528994893; 2528778227; 2528561443; 2528344967; 2528129983;
  2527914227; 2527697857; 2527483549; 2527265941; 2527048369; 2526831781; 2526617609; 2526401041; 2526186511; 2525969521;
  2525751269; 2525536837; 2525319001; 2525102543; 2524883839; 2524667221; 2524449793; 2524233617; 2524016647; 2523800459;
  2523584641; 2523368747; 2523151927; 2522932883; 2522717297; 2522499653; 2522283347; 2522067281; 2521852183; 2521635689;
  2521420529; 2521202821; 2520984749; 2520769301; 2520551983; 2520337163; 2520121147; 2519904151; 2519687407; 2519469941;
  2519254519; 2519038309; 2518820833; 2518604357; 2518386329; 2518171613; 2517954631; 2517740233; 2517524573; 2517306587;
  2517091133; 2516875549; 2516659099; 2516440349; 2516223511; 2516009189; 2515791953; 2515574741; 2515356967; 2515140851;
  2514925321; 2514708857; 2514492941; 2514278527; 2514060737; 2513844511; 2513629211; 2513413999; 2513197331; 2512982491;
  2512767919; 2512550039; 2512333891; 2512118659; 2511902051; 2511683351; 2511466921; 2511249691; 2511035069; 2510818363;
  2510602331; 2510385959; 2510168447; 2509952597; 2509736107; 2509518721; 2509301233; 2509086889; 2508870779; 2508654017;
  2508436187; 2508220999; 2508004423; 2507788471; 2507572759; 2507358193; 2507142773; 2506926857; 2506708901; 2506492003;
  2506275773; 2506059841; 2505843227; 2505628639; 2505412999; 2505197309; 2504978291; 2504764349; 2504546719; 2504331703;
  2504116333; 2503900211; 2503686869; 2503468057; 2503251931; 2503034987; 2502819383; 2502601529; 2502383761; 2502165307;
  2501950663; 2501732017; 2501516429; 2501298523; 2501082677; 2500865963; 2500651249; 2500433521; 2500215791; 2499999013;
  2499784513; 2499566551; 2499348193; 2499133477; 2498919091; 2498700949; 2498484803; 2498268767; 2498051131; 2497835203;
  2497619143; 2497401107; 2497185151; 2496967981; 2496751651; 2496536257; 2496318859; 2496101129; 2495884337; 2495667091;
  2495449483; 2495234069; 2495015851; 2494798981; 2494586071; 2494369567; 2494153777; 2493936787; 2493720041; 2493503279].

Definition primes_7 : list Z := [
  2493288713; 2493072847; 2492855327; 2492639627; 2492424367; 2492206993; 2491988657; 2491772527; 2491556789; 2491340471;
  2491123897; 2490906919; 2490690511; 2490473023; 2490256157; 2490039371; 2489824397; 2489606737; 2489386771; 2489169691;
  2488953791; 2488738607; 2488524167; 2488307113; 2488089367; 2487872069; 2487655309; 2487439177; 2487224461; 2487006499;
  2486788963; 2486573101; 2486356783; 2486139791; 2485923217; 2485705493; 2485487957; 2485271471; 2485052771; 2484839933;
  2484624929; 2484408247; 2484192527; 2483973307; 2483759609; 2483543987; 2483328161; 2483109467; 2482893463; 2482675901;
  2482457161; 2482241299; 2482026611; 2481810781; 2481595201; 2481379739; 2481163543; 2480947769; 2480731301; 2480516641;
  2480302337; 2480086997; 2479867427; 2479650223; 2479434857; 2479215799; 2479001621; 2478785357; 2478571189; 2478356417;
  2478141383; 2477923397; 2477707373; 2477488961; 2477271481; 2477057941; 2476842673; 2476624159; 2476409263; 2476193219;
  2475977579; 2475761023; 2475543029; 2475328783; 2475110999; 2474890879; 2474674327; 2474459227; 2474244041; 2474029147;
  2473812701; 2473596403; 2473381349; 2473165927; 2472951167; 2472735413; 2472520727; 2472307091; 2472091723; 2471874173;
  2471656697; 2471441579; 2471224237; 2471006873; 2470790431; 2470575083; 2470358629; 2470143691; 2469927209; 2469711271;
  2469499757; 2469281999; 2469064889; 2468847947; 2468629519; 2468413229; 2468197247; 2467983239; 2467766527; 2467549933;
  2467333889; 2467116077; 2466900307; 2466683279; 2466465941; 2466249673; 2466036497; 2465821507; 2465604553; 2465388727;
  2465172733; 2464957717; 2464740137; 2464523959; 2464308311; 2464091587; 2463874783; 2463659027; 2463441269; 2463225563;
  2463010027; 2462791873; 2462574523; 2462356487; 2462139853; 2461922713; 2461706603; 2461490771; 2461272043; 2461055423;
  2460842491; 2460624181; 2460409169; 2460192541; 2459976229; 2459758421; 2459540911; 2459325443; 2459107793; 2458892551;
  2458677601; 2458461193; 2458243223; 2458027157; 2457811933; 2457594323; 2457378923; 2457161789; 2456946269; 2456730629;
  2456513639; 2456297149; 2456079463; 2455863857; 2455649191; 2455433069; 2455218023; 2455004333; 2454788311; 2454571607;
  2454356581; 2454139231; 2453920571; 2453704789; 2453488979; 2453271463; 2453054039; 2452840781; 2452623821; 2452410967;
  2452195063; 2451976601; 2451763159; 2451547559; 2451331549; 2451116651; 2450900741; 2450682943; 2450465513; 2450249993;
  2450033627; 2449816027; 2449597919; 2449381289; 2449162117; 2448946469; 2448729883; 2448513373; 2448294643; 2448077341;
  2447859991; 2447646029; 2447430317; 2447215081; 2446995403; 2446778861; 2446563043; 2446347913; 2446130653; 2445914279;
  2445699913; 2445483571; 2445267343; 2445053797; 2444836921; 2444622311; 2444408423; 2444189777; 2443974557; 2443759229;
  2443540247; 2443324393; 2443106177; 2442890503; 2442673561; 2442456791; 2442241667; 2442025237; 2441808221; 2441594489;
  2441376631; 2441160893; 2440945873; 2440728361; 2440510843; 2440294657; 2440080157; 2439865657; 2439651391; 2439433319;
  2439217799; 2439004261; 2438787661; 2438570569; 2438355421; 2438138531; 2437923409; 2437707127; 2437492373; 2437275517;
  2437061327; 2436844313; 2436629971; 2436414881; 2436198631; 2435981077; 2435762471; 2435546731; 2435333387; 2435115047;
  2434897891; 2434683133; 2434464391; 2434247779; 2434031381; 2433816977; 2433598367; 2433382891; 2433166579; 2432951363;
  2432734259; 2432519267; 2432303207; 2432088437; 2431871549; 2431654009; 2431438567; 2431222883; 2431004551; 2430789007;
  2430572239; 2430357899; 2430140243; 2429923631; 2429708647; 2429490697; 2429277119; 2429059631; 2428841551; 2428626203;
  2428410749; 2428193741; 2427976979; 2427760243; 2427542993; 2427328229; 2427113081; 2426897147; 2426680747; 2426465647;
  2426250041; 2426034613; 2425818701; 2425601929; 2425385723; 2425169891; 2424956221; 2424741701; 2424525161; 2424310661;
  2424093157; 2423875841; 2423659657; 2423445293; 2423230783; 2423015821; 2422799177; 2422585771; 2422367743; 2422152179;
  2421936493; 2421719873; 2421503983; 2421287081; 2421068899; 2420852347; 2420636627; 2420420903; 2420204023; 2419987799;
  2419771187; 2419554157; 2419338787; 2419124819; 2418907529; 2418693047; 2418479549; 2418264571; 2418048331; 2417831257;
  2417614807; 2417399119; 2417184257; 2416967611; 2416752409; 2416536271; 2416319387; 2416105057; 2415886301; 2415670069;
  2415453023; 2415235709; 2415018433; 2414803031; 2414586983; 2414370943; 2414155213; 2413940083; 2413723471; 2413506059;
  2413290541; 2413073251; 2412857789; 2412643193; 2412426707; 2412211163; 2411993867; 2411776583; 2411562311; 2411345479;
  2411129923; 2410914791; 2410699133; 2410481377; 2410266007; 2410048829; 2409832129; 2409617663; 2409401249; 2409184651;
  2408968189; 2408751419; 2408534461; 2408320127; 2408104597; 2407888957; 2407671853; 2407458671; 2407241731; 2407025459;
  2406810563; 2406592847; 2406378241; 2406160049; 2405944223; 2405727229; 2405511811; 2405297623; 2405082629; 2404866197;
  2404648957; 2404432183; 2404215091; 2403999487; 2403782401; 2403567059; 2403350249; 2403134623; 2402919731; 2402704211;
  2402489473; 2402272571; 2402054147; 2401837289; 2401621687; 2401406131; 2401189979; 2400973123; 2400757439; 2400539651;
  2400323077; 2400105919; 2399889293; 2399675141; 2399460449; 2399245733; 2399029231; 2398813981; 2398597219; 2398379413;
  2398164833; 2397948569; 2397732923; 2397515801; 2397299549; 2397085021; 2396867801; 2396653109; 2396435089; 2396217739;
  2395999153; 2395783231; 2395566959; 2395350827; 2395135343; 2394920179; 2394702979; 2394486719; 2394270059; 2394055669;
  2393840479; 2393622653; 2393406401; 2393190893; 2392975477; 2392759277; 2392544101; 2392327433; 2392113121; 2391896839;
  2391678997; 2391461393; 2391247091; 2391031847; 2390816957; 2390600393; 2390384861; 2390168317; 2389953641; 2389736719;
  2389520779; 2389304989; 2389091333; 2388874603; 2388658969; 2388442499; 2388225803; 2388006067; 2387791751; 2387577977;
  2387360413; 2387144453; 2386930687; 2386714199; 2386497403; 2386279781; 2386064861; 2385851509; 2385635543; 2385420431].

Definition primes_8 : list Z := [
  2385202607; 2384985487; 2384769461; 2384554421; 2384337071; 2384122519; 2383906543; 2383692127; 2383476829; 2383262647;
  2383047829; 2382830459; 2382615419; 2382400133; 2382184537; 2381968223; 2381751839; 2381535539; 2381318791; 2381103733;
  2380886887; 2380673297; 2380455919; 2380238759; 2380021361; 2379807751; 2379591671; 2379377153; 2379160853; 2378944891;
  2378727539; 2378510513; 2378293279; 2378076593; 2377861237; 2377644917; 2377429697; 2377213193; 2376996647; 2376782251;
  2376566029; 2376349571; 2376133733; 2375919907; 2375704391; 2375485579; 2375270591; 2375054579; 2374837373; 2374621817;
  2374406971; 2374192853; 2373976057; 2373760531; 2373545989; 2373327241; 2373111347; 2372894317; 2372680469; 2372464907;
  2372249629; 2372032771; 2371818637; 2371601437; 2371383727; 2371168507; 2370952511; 2370736603; 2370518873; 2370304579;
  2370089479; 2369872579; 2369658763; 2369441329; 2369224889; 2369010191; 2368793017; 2368578991; 2368362539; 2368147211;
  2367932341; 2367716921; 2367502859; 2367286853; 2367071513; 2366857811; 2366642171; 2366426123; 2366209843; 2365994641;
  2365779181; 2365561397; 2365345733; 2365130297; 2364913519; 2364698551; 2364482947; 2364266941; 2364048899; 2363831777;
  2363616797; 2363399443; 2363185907; 2362970219; 2362753663; 2362538753; 2362325137; 2362108759; 2361891607; 2361677057;
  2361460697; 2361244889; 2361029521; 2360811251; 2360593589; 2360377871; 2360160973; 2359944163; 2359729637; 2359513753;
  2359298749; 2359081141; 2358864077; 2358647191; 2358433151; 2358217307; 2358002501; 2357786393; 2357572391; 2357355223;
  2357140127; 2356922443; 2356706927; 2356491167; 2356276309; 2356060219; 2355843337; 2355628351; 2355412211; 2355196939;
  2354979299; 2354762923; 2354547589; 2354332327; 2354116403; 2353898347; 2353682899; 2353467719; 2353251041; 2353034861;
  2352821521; 2352608729; 2352391733; 2352177071; 2351959373; 2351743871; 2351527331; 2351311103; 2351095787; 2350880537;
  2350663867; 2350448987; 2350233607; 2350018009; 2349802193; 2349585643; 2349371473; 2349154459; 2348938483; 2348723393;
  2348506163; 2348290627; 2348073529; 2347858001; 2347641251; 2347426061; 2347210109; 2346994847; 2346777833; 2346563741;
  2346347957; 2346130597; 2345915233; 2345700967; 2345483321; 2345268559; 2345055421; 2344836029; 2344620749; 2344404077;
  2344188467; 2343971621; 2343753989; 2343537377; 2343322691; 2343106237; 2342889763; 2342675663; 2342461337; 2342245693;
  2342028907; 2341811071; 2341594513; 2341380673; 2341165823; 2340950653; 2340737603; 2340521567; 2340303299; 2340086269;
  2339869699; 2339651581; 2339437049; 2339222891; 2339007247; 2338790449; 2338576003; 2338361213; 2338146329; 2337927731;
  2337714713; 2337499061; 2337281887; 2337065981; 2336851397; 2336635331; 2336418673; 2336202863; 2335987399; 2335772269;
  2335553713; 2335341083; 2335126153; 2334909481; 2334693863; 2334479723; 2334262787; 2334047503; 2333831449; 2333616709;
  2333401867; 2333186161; 2332970869; 2332755569; 2332541017; 2332323197; 2332106743; 2331891473; 2331676169; 2331460273;
  2331243809; 2331029143; 2330814481; 2330599837; 2330384489; 2330164511; 2329947589; 2329731637; 2329515427; 2329299289;
  2329084333; 2328867469; 2328652009; 2328436417; 2328218201; 2328001597; 2327784983; 2327571221; 2327354473; 2327138579;
  2326921769; 2326706687; 2326492871; 2326275509; 2326060369; 2325845507; 2325630133; 2325415607; 2325198173; 2324982083;
  2324766023; 2324552177; 2324336591; 2324119951; 2323903651; 2323689751; 2323472693; 2323258859; 2323044107; 2322827393;
  2322611059; 2322394247; 2322179177; 2321964247; 2321747737; 2321531423; 2321315869; 2321098673; 2320883861; 2320668953;
  2320454753; 2320239629; 2320027529; 2319811937; 2319596449; 2319378899; 2319162739; 2318945131; 2318727809; 2318510639;
  2318296021; 2318078921; 2317863337; 2317645181; 2317427533; 2317209683; 2316994513; 2316778027; 2316562777; 2316347219;
  2316132769; 2315916809; 2315702513; 2315487613; 2315271197; 2315055979; 2314841521; 2314625671; 2314411019; 2314197409;
  2313983249; 2313767077; 2313551609; 2313335711; 2313119387; 2312904719; 2312689363; 2312472829; 2312256629; 2312040277;
  2311822883; 2311606477; 2311392157; 2311180061; 2310965303; 2310751957; 2310537049; 2310322247; 2310106033; 2309889749;
  2309673881; 2309456431; 2309242093; 2309026361; 2308810601; 2308595363; 2308379243; 2308164263; 2307949739; 2307733583;
  2307514733; 2307299173; 2307083393; 2306868197; 2306651671; 2306436793; 2306223461; 2306007931; 2305792133; 2305573537;
  2305358221; 2305141999; 2304925529; 2304710599; 2304495799; 2304279137; 2304063901; 2303847761; 2303633251; 2303417483;
  2303201833; 2302986457; 2302770469; 2302556077; 2302338421; 2302121279; 2301906433; 2301689417; 2301475069; 2301260047;
  2301042587; 2300826287; 2300609203; 2300394193; 2300180731; 2299964179; 2299748471; 2299534609; 2299320679; 2299105141;
  2298888577; 2298672281; 2298456929; 2298242797; 2298027227; 2297811077; 2297594521; 2297378177; 2297160329; 2296945369;
  2296729447; 2296513621; 2296300339; 2296084877; 2295871601; 2295656147; 2295440813; 2295224741; 2295008923; 2294792809;
  2294578633; 2294364481; 2294148251; 2293932703; 2293718041; 2293502089; 2293287109; 2293071899; 2292855451; 2292641287;
  2292422921; 2292208781; 2291993437; 2291777737; 2291564321; 2291348981; 2291133973; 2290918037; 2290702693; 2290489129;
  2290270789; 2290053737; 2289838373; 2289621101; 2289405653; 2289190741; 2288976737; 2288762257; 2288547733; 2288330609;
  2288117243; 2287900829; 2287686169; 2287468607; 2287251751; 2287037479; 2286824389; 2286608047; 2286394637; 2286182329;
  2285966717; 2285752123; 2285536247; 2285320237; 2285106023; 2284891771; 2284674407; 2284457257; 2284241537; 2284026853;
  2283811573; 2283596327; 2283380261; 2283161161; 2282946331; 2282730977; 2282518223; 2282301737; 2282084897; 2281870651;
  2281654673; 2281437143; 2281221827; 2281004771; 2280789233; 2280573557; 2280359363; 2280142591; 2279927491; 2279711261;
  2279494291; 2279276653; 2279060527; 2278846901; 2278628909; 2278411781; 2278196407; 2277980993; 2277763753; 2277549089].

Definition primes_9 : list Z := [
  2277334771; 2277118411; 2276902399; 2276688613; 2276472853; 2276256329; 2276042711; 2275828517; 2275612679; 2275397063;
  2275181479; 2274965159; 2274748517; 2274535463; 2274319609; 2274107327; 2273891549; 2273676997; 2273462767; 2273248399;
  2273032639; 2272818917; 2272605253; 2272389437; 2272172081; 2271957209; 2271743939; 2271528041; 2271313729; 2271098429;
  2270884471; 2270669353; 2270455567; 2270240681; 2270025151; 2269809527; 2269596941; 2269382131; 2269165319; 2268951577;
  2268735797; 2268517921; 2268302123; 2268086111; 2267870603; 2267656903; 2267442757; 2267227777; 2267012081; 2266797487;
  2266582793; 2266368007; 2266153339; 2265938137; 2265722351; 2265506083; 2265290141; 2265075049; 2264860427; 2264644769;
  2264428451; 2264214773; 2263997711; 2263782289; 2263565729; 2263352327; 2263137001; 2262920839; 2262705761; 2262492191;
  2262278069; 2262062813; 2261848051; 2261633197; 2261418409; 2261204657; 2260990273; 2260774759; 2260560277; 2260345247;
  2260129169; 2259914563; 2259700207; 2259484361; 2259267151; 2259053309; 2258839753; 2258625431; 2258409821; 2258192591;
  2257975997; 2257761001; 2257544407; 2257329817; 2257113083; 2256895787; 2256679597; 2256466463; 2256251911; 2256035759;
  2255819249; 2255604433; 2255387119; 2255171729; 2254957261; 2254742569; 2254525633; 2254311419; 2254096151; 2253881089;
  2253665009; 2253448303; 2253232537; 2253017629; 2252801377; 2252586353; 2252370139; 2252154943; 2251940153; 2251724287;
  2251508141; 2251293211; 2251080107; 2250864989; 2250650741; 2250437317; 2250221147; 2250007937; 2249792849; 2249577443;
  2249360747; 2249143511; 2248928303; 2248714289; 2248500389; 2248282607; 2248066363; 2247851681; 2247636583; 2247421817;
  2247207073; 2246990947; 2246775449; 2246560403; 2246348051; 2246132507; 2245917799; 2245703177; 2245488887; 2245273741;
  2245058089; 2244843721; 2244629719; 2244412999; 2244197437; 2243982737; 2243769653; 2243551433; 2243337457; 2243120419;
  2242904581; 2242688449; 2242473991; 2242259861; 2242043599; 2241825133; 2241609701; 2241395071; 2241180787; 2240967343;
  2240751923; 2240536327; 2240319527; 2240105237; 2239888687; 2239674629; 2239458203; 2239244101; 2239028387; 2238815521;
  2238600541; 2238383569; 2238167417; 2237952851; 2237735261; 2237518081; 2237301083; 2237088229; 2236873019; 2236658693;
  2236444453; 2236229201; 2236016201; 2235800159; 2235586427; 2235370021; 2235154721; 2234939537; 2234725013; 2234510909;
  2234295191; 2234081099; 2233866847; 2233652459; 2233436629; 2233218679; 2233003183; 2232789619; 2232571813; 2232355067;
  2232138367; 2231922923; 2231708449; 2231493413; 2231277413; 2231061221; 2230846967; 2230632791; 2230417751; 2230201531;
  2229985133; 2229769579; 2229554461; 2229340651; 2229128767; 2228912453; 2228698319; 2228481883; 2228267953; 2228051513;
  2227836329; 2227622203; 2227408321; 2227192519; 2226974441; 2226760573; 2226547241; 2226332261; 2226116807; 2225900503;
  2225684207; 2225468123; 2225253677; 2225039759; 2224826473; 2224610537; 2224393937; 2224179077; 2223962707; 2223747133;
  2223531173; 2223316279; 2223098953; 2222882659; 2222668169; 2222453179; 2222236673; 2222020433; 2221805137; 2221591007;
  2221375883; 2221160077; 2220945563; 2220729323; 2220513517; 2220299443; 2220085447; 2219871361; 2219657239; 2219440397;
  2219226643; 2219013089; 2218798327; 2218581803; 2218365979; 2218151977; 2217936223; 2217720587; 2217503231; 2217288769;
  2217073951; 2216859137; 2216643199; 2216429123; 2216217607; 2216003639; 2215785851; 2215570163; 2215356079; 2215137607;
  2214921911; 2214707081; 2214490303; 2214276599; 2214059119; 2213841127; 2213626687; 2213409799; 2213195329; 2212980269;
  2212766779; 2212554011; 2212339553; 2212125329; 2211910373; 2211695159; 2211479729; 2211262793; 2211046499; 2210831927;
  2210615761; 2210401003; 2210185847; 2209971091; 2209755451; 2209536949; 2209322803; 2209108799; 2208892547; 2208677441;
  2208463339; 2208247117; 2208034453; 2207819147; 2207604541; 2207391643; 2207176733; 2206959901; 2206745909; 2206531433;
  2206317367; 2206101241; 2205886327; 2205671543; 2205456833; 2205243319; 2205027023; 2204811307; 2204595641; 2204379659;
  2204165801; 2203948541; 2203733117; 2203517681; 2203300223; 2203086371; 2202871961; 2202654689; 2202436493; 2202221279;
  2202004547; 2201791373; 2201574377; 2201360167; 2201145061; 2200928497; 2200714381; 2200498441; 2200281751; 2200068601;
  2199853559; 2199635749; 2199418691; 2199204421; 2198990219; 2198773793; 2198559829; 2198343977; 2198127923; 2197912859;
  2197698263; 2197483471; 2197269587; 2197052761; 2196839891; 2196623977; 2196407699; 2196193177; 2195978129; 2195763049;
  2195548093; 2195333801; 2195118769; 2194903967; 2194689127; 2194475233; 2194259981; 2194045093; 2193829657; 2193615779;
  2193400303; 2193183463; 2192968597; 2192753141; 2192540993; 2192325229; 2192109989; 2191894543; 2191680791; 2191463497;
  2191249147; 2191034509; 2190820267; 2190606317; 2190390899; 2190174199; 2189958893; 2189743967; 2189528807; 2189313311;
  2189096633; 2188880977; 2188665929; 2188452439; 2188238047; 2188022989; 2187806953; 2187592339; 2187375787; 2187160567;
  2186947853; 2186734469; 2186520907; 2186305777; 2186090447; 2185874939; 2185660657; 2185444423; 2185228519; 2185014731;
  2184798521; 2184583937; 2184368803; 2184153427; 2183937773; 2183724187; 2183508791; 2183292037; 2183077639; 2182862839;
  2182647839; 2182430443; 2182214731; 2181997007; 2181781843; 2181567317; 2181352403; 2181134429; 2180919913; 2180705173;
  2180489261; 2180274289; 2180059613; 2179844789; 2179628147; 2179411453; 2179195943; 2178981173; 2178765881; 2178552247;
  2178338983; 2178124589; 2177911657; 2177695537; 2177480443; 2177264501; 2177048869; 2176833577; 2176622813; 2176405919;
  2176191037; 2175977563; 2175761669; 2175546547; 2175332921; 2175118607; 2174905169; 2174691347; 2174474537; 2174260867;
  2174044051; 2173830367; 2173613773; 2173400321; 2173182191; 2172969907; 2172756941; 2172541463; 2172324157; 2172107263;
  2171892293; 2171676751; 2171462441; 2171245553; 2171030177; 2170817087; 2170603703; 2170388111; 2170175779; 2169961919].

Definition primes_10 : list Z := [
  2169744097; 2169531443; 2169315259; 2169100067; 2168884763; 2168668939; 2168454077; 2168240089; 2168025037; 2167808509;
  2167594523; 2167378901; 2167164107; 2166947911; 2166735047; 2166519647; 2166305593; 2166090191; 2165877419; 2165660327;
  2165445811; 2165231377; 2165016067; 2164800061; 2164584337; 2164370653; 2164156157; 2163937541; 2163722377; 2163510857;
  2163294317; 2163076691; 2162863051; 2162648759; 2162435339; 2162219417; 2162005633; 2161788371; 2161572109; 2161357039;
  2161143913; 2160930071; 2160715201; 2160498959; 2160284281; 2160071057; 2159857957; 2159644441; 2159431277; 2159216399;
  2158999463; 2158783609; 2158570681; 2158353931; 2158136809; 2157922717; 2157706357; 2157490921; 2157278737; 2157063401;
  2156846201; 2156631929; 2156417051; 2156202101; 2155984819; 2155770917; 2155555967; 2155339559; 2155125689; 2154911813;
  2154697789; 2154481897; 2154267373; 2154053557; 2153838251; 2153623891; 2153409701; 2153194049; 2152977367; 2152761631;
  2152549747; 2152334189; 2152120979; 2151905143; 2151690707; 2151475523; 2151261493; 2151045469; 2150830289; 2150614667;
  2150399893; 2150187059; 2149972697; 2149756703; 2149543889; 2149327627; 2149112429; 2148896411; 2148679669; 2148466009;
  2148250061; 2148035749; 2147821513; 2147607401; 2147392201; 2147178329; 2146961347; 2146748057; 2146533959; 2146317191;
  2146102477; 2145889267; 2145675289; 2145460909; 2145248167; 2145033001; 2144818411; 2144602787; 2144389217; 2144174281;
  2143959581; 2143744997; 2143529491; 2143314917; 2143101241; 2142887399; 2142671353; 2142457117; 2142240403; 2142027137;
  2141814319; 2141596757; 2141383633; 2141168963; 2140954709; 2140740733; 2140527553; 2140313443; 2140096993; 2139883771;
  2139669449; 2139456377; 2139240409; 2139025991; 2138809969; 2138593397; 2138376997; 2138163977; 2137948823; 2137734017;
  2137517407; 2137301819; 2137086989; 2136872957; 2136658427; 2136442873; 2136229309; 2136014159; 2135798803; 2135582873;
  2135366899; 2135151517; 2134935289; 2134721027; 2134508581; 2134293869; 2134076557; 2133860653; 2133647933; 2133431987;
  2133216271; 2133000449; 2132785727; 2132571839; 2132356769; 2132141177; 2131927409; 2131711019; 2131494667; 2131280273;
  2131062221; 2130845993; 2130632453; 2130418541; 2130203653; 2129987053; 2129772677; 2129556967; 2129342653; 2129127817;
  2128912277; 2128695007; 2128478327; 2128264429; 2128050467; 2127837703; 2127623801; 2127408931; 2127193907; 2126978179;
  2126761667; 2126547263; 2126332057; 2126115379; 2125901263; 2125684789; 2125470601; 2125257157; 2125041631; 2124825877;
  2124610991; 2124395233; 2124182597; 2123968739; 2123753647; 2123537153; 2123322571; 2123108069; 2122892371; 2122672733;
  2122457621; 2122243469; 2122030279; 2121815011; 2121602663; 2121386779; 2121170593; 2120957849; 2120743579; 2120527163;
  2120310461; 2120094611; 2119880879; 2119665617; 2119452541; 2119237949; 2119023493; 2118807931; 2118592439; 2118377557;
  2118162689; 2117948653; 2117734709; 2117518787; 2117303467; 2117087933; 2116872119; 2116657061; 2116443677; 2116230829;
  2116016173; 2115801371; 2115585181; 2115369701; 2115153727; 2114938379; 2114722927; 2114507833; 2114296181; 2114083091;
  2113870123; 2113654157; 2113441021; 2113224103; 2113012547; 2112798203; 2112583841; 2112367709; 2112151631; 2111937301;
  2111724911; 2111509861; 2111295701; 2111081629; 2110866419; 2110651363; 2110438397; 2110223261; 2110009829; 2109797897;
  2109582913; 2109369523; 2109152387; 2108937829; 2108720821; 2108508851; 2108295751; 2108080607; 2107865293; 2107650091;
  2107436741; 2107222657; 2107007647; 2106792673; 2106576917; 2106359917; 2106144197; 2105930401; 2105715049; 2105501309;
  2105287433; 2105073029; 2104858771; 2104647023; 2104433021; 2104219151; 2104005019; 2103788759; 2103574393; 2103359521;
  2103143461; 2102929097; 2102714129; 2102500709; 2102287063; 2102071733; 2101858169; 2101644367; 2101430251; 2101215421;
  2101000631; 2100786707; 2100573677; 2100356977; 2100144953; 2099929943; 2099714203; 2099498983; 2099284679; 2099070541;
  2098855537; 2098641661; 2098426349; 2098211051; 2097996079; 2097777797; 2097563203; 2097349259; 2097134239; 2096920559;
  2096705759; 2096492033; 2096275873; 2096060987; 2095845113; 2095630739; 2095417099; 2095204193; 2094990617; 2094777257;
  2094563689; 2094349931; 2094135709; 2093917997; 2093703973; 2093489929; 2093275181; 2093060483; 2092847143; 2092631617;
  2092415669; 2092200577; 2091986231; 2091773147; 2091560467; 2091343981; 2091128869; 2090914373; 2090697439; 2090484707;
  2090271769; 2090056609; 2089841513; 2089626109; 2089413709; 2089199999; 2088986687; 2088770249; 2088557147; 2088342253;
  2088126977; 2087912909; 2087700257; 2087485703; 2087269703; 2087054653; 2086840409; 2086626083; 2086411141; 2086194871;
  2085979487; 2085764441; 2085549139; 2085334943; 2085119369; 2084905873; 2084691677; 2084475109; 2084259323; 2084044163;
  2083831573; 2083616219; 2083402001; 2083186583; 2082971789; 2082759373; 2082545177; 2082330127; 2082117649; 2081901823;
  2081688289; 2081474251; 2081261443; 2081046613; 2080831771; 2080617281; 2080400599; 2080186891; 2079971801; 2079758281;
  2079542903; 2079328387; 2079114383; 2078897809; 2078683337; 2078472707; 2078257351; 2078045183; 2077830827; 2077616641;
  2077400671; 2077185667; 2076969607; 2076755251; 2076538223; 2076323617; 2076108059; 2075893903; 2075679917; 2075462471;
  2075249549; 2075035973; 2074823669; 2074609139; 2074395527; 2074179623; 2073964481; 2073751951; 2073538321; 2073326219;
  2073110059; 2072896093; 2072680901; 2072466947; 2072251847; 2072036851; 2071820351; 2071608421; 2071392137; 2071176323;
  2070961337; 2070746221; 2070532231; 2070319253; 2070103601; 2069889037; 2069675147; 2069458541; 2069244319; 2069030893;
  2068817347; 2068602559; 2068387669; 2068172839; 2067958549; 2067743423; 2067529463; 2067313427; 2067097567; 2066881273;
  2066666963; 2066452979; 2066238739; 2066026559; 2065812179; 2065594439; 2065379831; 2065165519; 2064950903; 2064736903;
  2064522697; 2064309791; 2064095249; 2063882111; 2063669011; 2063454871; 2063240269; 2063025931; 2062811071; 2062597567].

Definition primes_11 : list Z := [
  2062384199; 2062167797; 2061955403; 2061740983; 2061522713; 2061310241; 2061094153; 2060880043; 2060665253; 2060449087;
  2060235917; 2060020987; 2059806971; 2059590917; 2059377119; 2059160731; 2058946231; 2058731617; 2058517511; 2058304147;
  2058088283; 2057873417; 2057656157; 2057439991; 2057225377; 2057011381; 2056797829; 2056582037; 2056367063; 2056152523;
  2055938219; 2055726181; 2055511897; 2055295643; 2055080669; 2054867093; 2054653849; 2054438983; 2054223761; 2054008921;
  2053794817; 2053582747; 2053368827; 2053151159; 2052935029; 2052719261; 2052503023; 2052290129; 2052077113; 2051862493;
  2051648983; 2051433383; 2051217811; 2051001461; 2050788151; 2050575347; 2050360619; 2050148801; 2049934517; 2049720053;
  2049507997; 2049295841; 2049080531; 2048866219; 2048651251; 2048437513; 2048223949; 2048009279; 2047791847; 2047578653;
  2047363049; 2047149409; 2046934993; 2046720463; 2046506843; 2046291199; 2046077087; 2045861539; 2045647739; 2045434463;
  2045221103; 2045007113; 2044792049; 2044576769; 2044363891; 2044149299; 2043936319; 2043720761; 2043504637; 2043292763;
  2043078641; 2042866541; 2042653213; 2042438569; 2042225033; 2042009527; 2041792717; 2041579739; 2041363763; 2041147879;
  2040934349; 2040718517; 2040504493; 2040289607; 2040074797; 2039858837; 2039645171; 2039430467; 2039216407; 2039003861;
  2038790651; 2038576081; 2038359943; 2038146151; 2037932623; 2037716911; 2037503981; 2037287653; 2037073373; 2036858851;
  2036643893; 2036429471; 2036215387; 2036000677; 2035784449; 2035570907; 2035354273; 2035139747; 2034925411; 2034711461;
  2034497363; 2034284051; 2034072233; 2033859251; 2033644259; 2033431303; 2033216407; 2033002691; 2032786661; 2032573117;
  2032359227; 2032146469; 2031931939; 2031718771; 2031504173; 2031288319; 2031072521; 2030860333; 2030646193; 2030432291;
  2030217193; 2030003243; 2029787321; 2029573459; 2029359097; 2029144891; 2028930721; 2028716447; 2028500113; 2028285971;
  2028072061; 2027854601; 2027639671; 2027425307; 2027211397; 2026995167; 2026782997; 2026568471; 2026352353; 2026140001;
  2025926909; 2025711001; 2025496607; 2025283669; 2025069139; 2024855797; 2024642273; 2024426897; 2024211479; 2024000453;
  2023784047; 2023568411; 2023353641; 2023137863; 2022923561; 2022708829; 2022496247; 2022282133; 2022068203; 2021852201;
  2021636473; 2021423681; 2021208647; 2020993567; 2020777973; 2020563967; 2020350851; 2020136771; 2019921859; 2019706397;
  2019493009; 2019277723; 2019064589; 2018850983; 2018639201; 2018424713; 2018208637; 2017993009; 2017777939; 2017562731;
  2017348253; 2017134761; 2016919963; 2016705421; 2016490933; 2016277763; 2016063589; 2015850721; 2015637157; 2015421799;
  2015209013; 2014994939; 2014782433; 2014566331; 2014351637; 2014137989; 2013925063; 2013711647; 2013499049; 2013286763;
  2013075139; 2012859839; 2012647649; 2012431891; 2012216867; 2012004413; 2011791329; 2011576517; 2011362433; 2011148519;
  2010933593; 2010720161; 2010505199; 2010290519; 2010075337; 2009859959; 2009645977; 2009431447; 2009218259; 2009003429;
  2008787149; 2008574681; 2008360573; 2008145099; 2007930259; 2007716329; 2007502459; 2007286573; 2007071909; 2006858713;
  2006644403; 2006430821; 2006218061; 2006003647; 2005789979; 2005575623; 2005364209; 2005151389; 2004935551; 2004721613;
  2004506423; 2004292663; 2004078577; 2003863541; 2003650409; 2003440357; 2003225123; 2003010937; 2002796941; 2002581443;
  2002369483; 2002153999; 2001941651; 2001729157; 2001516353; 2001301853; 2001088319; 2000875991; 2000662501; 2000447263;
  2000234189; 2000021819; 1999805713; 1999591519; 1999377031; 1999163767; 1998946837; 1998733271; 1998518189; 1998303647;
  1998088991; 1997874821; 1997659667; 1997445841; 1997235533; 1997021729; 1996806061; 1996589219; 1996372933; 1996159237;
  1995945257; 1995733277; 1995516739; 1995302677; 1995089477; 1994873599; 1994659547; 1994447443; 1994233277; 1994020141;
  1993804573; 1993591349; 1993377929; 1993161893; 1992947581; 1992735991; 1992521611; 1992307687; 1992093223; 1991878487;
  1991663129; 1991450303; 1991237041; 1991022613; 1990808779; 1990594729; 1990379987; 1990165141; 1989950267; 1989736093;
  1989522463; 1989308263; 1989094451; 1988879909; 1988668001; 1988453771; 1988239081; 1988022431; 1987809871; 1987597069;
  1987382933; 1987166897; 1986953041; 1986741131; 1986525991; 1986312707; 1986097783; 1985884553; 1985668123; 1985453983;
  1985239303; 1985025799; 1984808653; 1984596529; 1984382563; 1984169507; 1983958577; 1983743011; 1983527261; 1983314681;
  1983099403; 1982885549; 1982671441; 1982456033; 1982243303; 1982026903; 1981813313; 1981600333; 1981386437; 1981174301;
  1980956819; 1980744853; 1980530767; 1980316879; 1980102307; 1979890327; 1979675213; 1979460403; 1979246653; 1979031823;
  1978817069; 1978604077; 1978390889; 1978178009; 1977963947; 1977749701; 1977534121; 1977320621; 1977108079; 1976893027;
  1976678113; 1976464909; 1976253337; 1976037941; 1975823131; 1975607279; 1975395517; 1975179749; 1974966589; 1974752149;
  1974538739; 1974325789; 1974111697; 1973900053; 1973685503; 1973472451; 1973255929; 1973042179; 1972827331; 1972612991;
  1972401703; 1972186661; 1971974149; 1971760337; 1971547093; 1971334973; 1971122009; 1970910197; 1970696591; 1970480849;
  1970265071; 1970049421; 1969836083; 1969621729; 1969408369; 1969193627; 1968979921; 1968765377; 1968552293; 1968339173;
  1968125447; 1967912579; 1967699759; 1967485391; 1967270213; 1967054437; 1966839869; 1966624633; 1966410613; 1966194941;
  1965982463; 1965767701; 1965554191; 1965341783; 1965125849; 1964913271; 1964698751; 1964484989; 1964271983; 1964054333;
  1963841857; 1963626869; 1963415351; 1963201589; 1962987557; 1962773513; 1962559147; 1962341369; 1962128447; 1961914793;
  1961701477; 1961488423; 1961275501; 1961060869; 1960848299; 1960633061; 1960417241; 1960204229; 1959988241; 1959770467;
  1959554581; 1959344813; 1959133037; 1958918903; 1958704933; 1958490823; 1958275273; 1958060563; 1957848889; 1957634227;
  1957421957; 1957206529; 1956991991; 1956777359; 1956563137; 1956349627; 1956136801; 1955922713; 1955709199; 1955494259].

Definition primes_12 : list Z := [
  1955281897; 1955067349; 1954854449; 1954638899; 1954424539; 1954210151; 1953996521; 1953781757; 1953568061; 1953354313;
  1953138323; 1952924947; 1952711471; 1952499607; 1952285947; 1952073337; 1951860359; 1951646947; 1951429421; 1951215599;
  1951001777; 1950789343; 1950577147; 1950364093; 1950151409; 1949937593; 1949722681; 1949510449; 1949296903; 1949084747;
  1948870019; 1948653431; 1948438379; 1948225849; 1948010171; 1947797431; 1947584029; 1947369353; 1947156833; 1946945327;
  1946730593; 1946516281; 1946303641; 1946090359; 1945876957; 1945662233; 1945447381; 1945234493; 1945019243; 1944807173;
  1944592619; 1944378089; 1944164279; 1943952403; 1943736161; 1943523271; 1943309701; 1943097553; 1942884479; 1942669921;
  1942453361; 1942239361; 1942026481; 1941812861; 1941599599; 1941383267; 1941169357; 1940955971; 1940740007; 1940530087;
  1940315623; 1940101721; 1939887941; 1939671631; 1939459111; 1939246339; 1939030463; 1938815773; 1938601583; 1938388579;
  1938173087; 1937959571; 1937746337; 1937530079; 1937314759; 1937100097; 1936885309; 1936673131; 1936458907; 1936247077;
  1936033289; 1935819463; 1935605239; 1935390563; 1935176689; 1934965691; 1934751667; 1934537677; 1934322787; 1934110439;
  1933897331; 1933680613; 1933466789; 1933253327; 1933040761; 1932827927; 1932614807; 1932400721; 1932186007; 1931972417;
  1931759197; 1931545013; 1931330741; 1931116997; 1930902073; 1930690271; 1930477583; 1930262641; 1930050217; 1929835819;
  1929622771; 1929410531; 1929197299; 1928981581; 1928767499; 1928552657; 1928340781; 1928126819; 1927911509; 1927700891;
  1927487371; 1927272463; 1927060243; 1926846787; 1926631963; 1926417281; 1926202891; 1925987633; 1925774309; 1925560577;
  1925346653; 1925132813; 1924917391; 1924703741; 1924489667; 1924274753; 1924061647; 1923848099; 1923635011; 1923423013;
  1923209657; 1922995003; 1922780593; 1922567051; 1922354261; 1922142449; 1921923569; 1921709773; 1921496867; 1921285153;
  1921071419; 1920855917; 1920641953; 1920426647; 1920210139; 1919997463; 1919784743; 1919571817; 1919357707; 1919144197;
  1918928327; 1918716967; 1918505287; 1918288951; 1918074289; 1917859243; 1917645077; 1917431177; 1917217327; 1917001897;
  1916787517; 1916575319; 1916359751; 1916145289; 1915931917; 1915718513; 1915503833; 1915291013; 1915078507; 1914865129;
  1914652417; 1914438937; 1914226511; 1914012007; 1913797597; 1913583341; 1913369903; 1913155711; 1912942181; 1912728781;
  1912513847; 1912300451; 1912087831; 1911873253; 1911657779; 1911442763; 1911231353; 1911015773; 1910802847; 1910588893;
  1910375063; 1910162201; 1909948321; 1909733303; 1909520323; 1909307419; 1909093247; 1908879877; 1908664063; 1908449857;
  1908236677; 1908022811; 1907810987; 1907598467; 1907384467; 1907169083; 1906953211; 1906739209; 1906525109; 1906310951;
  1906096999; 1905884731; 1905673373; 1905457363; 1905243209; 1905029017; 1904816713; 1904602537; 1904389517; 1904176861;
  1903963189; 1903749361; 1903537567; 1903322501; 1903108331; 1902895109; 1902682841; 1902468143; 1902255833; 1902042173;
  1901825033; 1901610857; 1901394977; 1901180863; 1900966337; 1900753301; 1900539409; 1900326377; 1900115621; 1899902029;
  1899689683; 1899477733; 1899264779; 1899050837; 1898835283; 1898621423; 1898407963; 1898196023; 1897983083; 1897770997;
  1897556651; 1897344901; 1897133809; 1896919259; 1896705157; 1896491041; 1896277457; 1896063769; 1895850709; 1895636689;
  1895420279; 1895208223; 1894993829; 1894782023; 1894566353; 1894350527; 1894137731; 1893924589; 1893710851; 1893496691;
  1893283459; 1893069709; 1892854861; 1892641133; 1892428999; 1892215747; 1892003387; 1891790491; 1891579493; 1891362449;
  1891148263; 1890934141; 1890720857; 1890507551; 1890292267; 1890078847; 1889865743; 1889652253; 1889438801; 1889224241;
  1889013617; 1888800223; 1888587439; 1888373471; 1888163867; 1887952039; 1887737603; 1887523223; 1887309659; 1887096331;
  1886884289; 1886670587; 1886456149; 1886240141; 1886028191; 1885812587; 1885599461; 1885386431; 1885172129; 1884957803;
  1884746813; 1884531721; 1884315151; 1884102601; 1883889043; 1883673413; 1883458481; 1883244703; 1883033723; 1882821439;
  1882608839; 1882393321; 1882178719; 1881963827; 1881750943; 1881536119; 1881320087; 1881108149; 1880896177; 1880681953;
  1880466319; 1880252831; 1880038367; 1879824493; 1879610081; 1879395409; 1879181047; 1878969739; 1878756823; 1878542957;
  1878330583; 1878116137; 1877904227; 1877689511; 1877474453; 1877263457; 1877050621; 1876835243; 1876622257; 1876411883;
  1876197749; 1875985613; 1875770417; 1875554969; 1875341953; 1875126829; 1874913457; 1874701039; 1874489093; 1874272849;
  1874060159; 1873846979; 1873635529; 1873421219; 1873209713; 1872994463; 1872782473; 1872569861; 1872355663; 1872141379;
  1871927711; 1871713241; 1871499821; 1871282653; 1871070701; 1870859063; 1870646521; 1870431113; 1870216661; 1870002733;
  1869789989; 1869578903; 1869364733; 1869150917; 1868934923; 1868723261; 1868509567; 1868296949; 1868082787; 1867868263;
  1867655113; 1867441489; 1867226723; 1867011511; 1866798541; 1866586681; 1866375299; 1866161233; 1865946409; 1865732599;
  1865516353; 1865304169; 1865090393; 1864877809; 1864661059; 1864446949; 1864231703; 1864019951; 1863806657; 1863593309;
  1863380551; 1863168421; 1862955293; 1862742773; 1862527981; 1862316163; 1862102299; 1861887043; 1861671997; 1861458811;
  1861246481; 1861033093; 1860819593; 1860606511; 1860392983; 1860179969; 1859966057; 1859753327; 1859537033; 1859321609;
  1859109403; 1858896001; 1858682179; 1858468021; 1858255141; 1858040617; 1857826583; 1857614989; 1857401957; 1857189121;
  1856974877; 1856761057; 1856548943; 1856334443; 1856122343; 1855909711; 1855697113; 1855485559; 1855272659; 1855059971;
  1854846797; 1854633577; 1854417667; 1854205447; 1853992741; 1853779349; 1853563861; 1853348593; 1853135209; 1852922107;
  1852710059; 1852494713; 1852281311; 1852068733; 1851856651; 1851644933; 1851430187; 1851217127; 1851003919; 1850791277;
  1850576047; 1850363993; 1850149817; 1849934699; 1849722047; 1849507193; 1849292813; 1849082251; 1848865933; 1848650597].

Definition primes_13 : list Z := [
  1848437771; 1848223219; 1848011083; 1847798189; 1847584031; 1847369309; 1847155309; 1846942483; 1846728739; 1846515617;
  1846302167; 1846089199; 1845873173; 1845658319; 1845445027; 1845234277; 1845021179; 1844808467; 1844594179; 1844381387;
  1844167673; 1843954171; 1843740683; 1843527457; 1843314307; 1843101739; 1842889381; 1842677059; 1842463939; 1842250661;
  1842035359; 1841822201; 1841610737; 1841396317; 1841181707; 1840969279; 1840756397; 1840542703; 1840329529; 1840114021;
  1839902681; 1839690289; 1839477257; 1839262553; 1839049451; 1838834191; 1838622671; 1838409107; 1838193991; 1837980367;
  1837766683; 1837552097; 1837338709; 1837126441; 1836914561; 1836700787; 1836487573; 1836273797; 1836060607; 1835848667;
  1835633953; 1835420233; 1835206981; 1834993807; 1834782097; 1834566973; 1834353881; 1834140647; 1833926671; 1833715579;
  1833503561; 1833293153; 1833081637; 1832866859; 1832653061; 1832438771; 1832224573; 1832010209; 1831797823; 1831585487;
  1831372853; 1831157287; 1830944299; 1830730943; 1830517193; 1830305447; 1830091709; 1829876317; 1829662273; 1829449411;
  1829236631; 1829023943; 1828810271; 1828596149; 1828382207; 1828170133; 1827959183; 1827746581; 1827532807; 1827317861;
  1827106199; 1826891467; 1826680879; 1826467309; 1826253997; 1826039113; 1825825087; 1825610833; 1825397839; 1825185599;
  1824970999; 1824757813; 1824544453; 1824331781; 1824120253; 1823907461; 1823694571; 1823483819; 1823269337; 1823056657;
  1822841029; 1822628681; 1822413007; 1822199881; 1821987077; 1821771307; 1821559319; 1821348401; 1821133981; 1820921497;
  1820707351; 1820492903; 1820278483; 1820065243; 1819853467; 1819640743; 1819428503; 1819214503; 1818999947; 1818786679;
  1818571829; 1818358589; 1818143609; 1817931289; 1817716661; 1817504939; 1817292857; 1817077921; 1816863773; 1816650911;
  1816437629; 1816224331; 1816011343; 1815798827; 1815584137; 1815372683; 1815158353; 1814944921; 1814730259; 1814519281;
  1814305679; 1814091911; 1813878061; 1813665221; 1813450559; 1813237159; 1813022209; 1812810889; 1812598517; 1812386621;
  1812172727; 1811959999; 1811746201; 1811532013; 1811320249; 1811105171; 1810891699; 1810676641; 1810464479; 1810251841;
  1810039403; 1809825361; 1809610937; 1809398191; 1809185471; 1808972351; 1808760589; 1808548033; 1808335171; 1808122291;
  1807908719; 1807695269; 1807482529; 1807269617; 1807056437; 1806843373; 1806629173; 1806416483; 1806203057; 1805989663;
  1805777483; 1805564641; 1805352947; 1805137171; 1804922843; 1804709029; 1804496621; 1804282919; 1804070239; 1803858137;
  1803644209; 1803430969; 1803217879; 1803004363; 1802791009; 1802576609; 1802366077; 1802150351; 1801937953; 1801724581;
  1801510229; 1801298753; 1801085947; 1800871399; 1800657197; 1800444797; 1800231943; 1800018919; 1799806523; 1799593049;
  1799379191; 1799166077; 1798952293; 1798742359; 1798528609; 1798316879; 1798103999; 1797889399; 1797677771; 1797463951;
  1797250849; 1797038773; 1796829191; 1796613449; 1796399977; 1796188403; 1795976477; 1795764959; 1795551127; 1795337413;
  1795124281; 1794911507; 1794700001; 1794488291; 1794275677; 1794061361; 1793848423; 1793635369; 1793420693; 1793210383;
  1792996691; 1792784233; 1792570531; 1792358257; 1792146007; 1791934237; 1791723223; 1791509171; 1791295381; 1791082301;
  1790868851; 1790656031; 1790443537; 1790230961; 1790017003; 1789805027; 1789593419; 1789379479; 1789164787; 1788954239;
  1788740491; 1788525853; 1788313313; 1788099323; 1787886053; 1787673467; 1787459507; 1787246339; 1787034257; 1786821557;
  1786608137; 1786394063; 1786182059; 1785967481; 1785754219; 1785541067; 1785328469; 1785115117; 1784902591; 1784691409;
  1784479457; 1784264249; 1784052359; 1783837177; 1783625471; 1783412083; 1783199161; 1782985577; 1782774361; 1782561791;
  1782349147; 1782135227; 1781922349; 1781707453; 1781494499; 1781281357; 1781067257; 1780853203; 1780641661; 1780427603;
  1780215917; 1780004623; 1779789901; 1779579163; 1779366067; 1779154763; 1778941309; 1778728537; 1778516123; 1778303041;
  1778091787; 1777879687; 1777663243; 1777451671; 1777236971; 1777025297; 1776810323; 1776599551; 1776385619; 1776175129;
  1775962709; 1775748791; 1775538503; 1775324981; 1775111743; 1774897037; 1774682293; 1774468921; 1774256161; 1774044773;
  1773831989; 1773617759; 1773403967; 1773190319; 1772977307; 1772763497; 1772549873; 1772335879; 1772125603; 1771913347;
  1771699337; 1771487587; 1771272023; 1771059089; 1770847583; 1770636541; 1770423601; 1770210877; 1769994487; 1769781749;
  1769568701; 1769356007; 1769142241; 1768928741; 1768713641; 1768501909; 1768289251; 1768078313; 1767865181; 1767649771;
  1767438721; 1767226861; 1767012337; 1766798269; 1766585551; 1766372479; 1766160161; 1765946669; 1765734799; 1765523477;
  1765309201; 1765095139; 1764883123; 1764672967; 1764461749; 1764246829; 1764032813; 1763819731; 1763606881; 1763393377;
  1763181727; 1762969993; 1762756637; 1762543031; 1762331981; 1762118279; 1761903823; 1761692489; 1761477937; 1761263827;
  1761050773; 1760839001; 1760628371; 1760413229; 1760197709; 1759985173; 1759773131; 1759560839; 1759348933; 1759135717;
  1758923039; 1758710171; 1758498877; 1758285307; 1758073949; 1757860073; 1757647841; 1757436281; 1757222959; 1757008063;
  1756793993; 1756581121; 1756368917; 1756154579; 1755940577; 1755728027; 1755514219; 1755303233; 1755091193; 1754878501;
  1754665361; 1754454571; 1754242561; 1754030731; 1753816681; 1753602211; 1753389713; 1753176443; 1752964153; 1752750449;
  1752537337; 1752324599; 1752112291; 1751899441; 1751687213; 1751473417; 1751261329; 1751049169; 1750837849; 1750623913;
  1750410733; 1750198199; 1749985409; 1749773527; 1749560107; 1749347723; 1749135239; 1748924363; 1748710897; 1748498359;
  1748287217; 1748070949; 1747857149; 1747644641; 1747430963; 1747216301; 1747002469; 1746789469; 1746578459; 1746366119;
  1746151037; 1745939603; 1745725207; 1745513141; 1745303071; 1745089651; 1744877551; 1744663763; 1744451789; 1744237181;
  1744025083; 1743814301; 1743600853; 1743387367; 1743174197; 1742962841; 1742749471; 1742536847; 1742322259; 1742111281].

Definition primes_14 : list Z := [
  1741899253; 1741687861; 1741474171; 1741258007; 1741045811; 1740835949; 1740621881; 1740408053; 1740196361; 1739983067;
  1739771023; 1739558827; 1739345351; 1739134457; 1738920671; 1738707163; 1738494731; 1738281847; 1738067677; 1737856069;
  1737644603; 1737432539; 1737221611; 1737006983; 1736794487; 1736581619; 1736369281; 1736154647; 1735943387; 1735729111;
  1735517011; 1735305269; 1735090199; 1734876943; 1734664441; 1734449077; 1734237377; 1734024737; 1733811263; 1733597969;
  1733384509; 1733171707; 1732961677; 1732746863; 1732535537; 1732321049; 1732108141; 1731895523; 1731682793; 1731469843;
  1731254191; 1731041219; 1730829523; 1730618177; 1730405549; 1730192197; 1729976291; 1729763383; 1729549669; 1729337327;
  1729125011; 1728914417; 1728701587; 1728488477; 1728276799; 1728063221; 1727849777; 1727635841; 1727422667; 1727208947;
  1726994957; 1726783987; 1726573733; 1726361471; 1726147603; 1725936371; 1725724123; 1725510341; 1725297971; 1725083699;
  1724868617; 1724657423; 1724445431; 1724230499; 1724017907; 1723805329; 1723596101; 1723381903; 1723167899; 1722954017;
  1722740653; 1722527047; 1722312811; 1722102953; 1721891051; 1721678617; 1721466457; 1721252303; 1721040851; 1720830509;
  1720616329; 1720403401; 1720190291; 1719977801; 1719766823; 1719554429; 1719342839; 1719129833; 1718917727; 1718705621;
  1718492519; 1718278847; 1718067781; 1717854091; 1717640279; 1717427989; 1717216279; 1717003237; 1716788687; 1716577411;
  1716367007; 1716156181; 1715943997; 1715731957; 1715519549; 1715306557; 1715093563; 1714882331; 1714670413; 1714457677;
  1714244459; 1714031303; 1713818269; 1713604801; 1713389563; 1713178517; 1712965213; 1712753267; 1712539687; 1712328841;
  1712113927; 1711899883; 1711688063; 1711475021; 1711261333; 1711051409; 1710837059; 1710624329; 1710413077; 1710198703;
  1709987243; 1709773981; 1709563153; 1709351911; 1709141977; 1708930331; 1708718107; 1708502867; 1708290503; 1708076729;
  1707863831; 1707652277; 1707439001; 1707227173; 1707014329; 1706801633; 1706589107; 1706378419; 1706166377; 1705953643;
  1705741783; 1705531549; 1705316959; 1705106129; 1704894109; 1704681709; 1704468937; 1704255689; 1704045223; 1703832359;
  1703619641; 1703405609; 1703195113; 1702983229; 1702769197; 1702556957; 1702344983; 1702131659; 1701917627; 1701705373;
  1701491459; 1701278609; 1701065897; 1700854567; 1700644447; 1700429513; 1700217709; 1700006197; 1699793419; 1699580317;
  1699369627; 1699155581; 1698940723; 1698727337; 1698513253; 1698301307; 1698091267; 1697877743; 1697664337; 1697450791;
  1697237897; 1697025769; 1696813771; 1696599187; 1696387493; 1696177811; 1695964349; 1695752273; 1695539983; 1695328517;
  1695112499; 1694901031; 1694687689; 1694475023; 1694261953; 1694049001; 1693835707; 1693622737; 1693410343; 1693197481;
  1692985631; 1692774529; 1692562093; 1692348953; 1692136417; 1691923169; 1691710081; 1691497571; 1691284057; 1691071279;
  1690859791; 1690645939; 1690435493; 1690223939; 1690010563; 1689798259; 1689584801; 1689374539; 1689162413; 1688949023;
  1688734417; 1688524517; 1688313817; 1688102477; 1687890049; 1687679137; 1687466219; 1687256309; 1687042309; 1686831407;
  1686620363; 1686407869; 1686194189; 1685982491; 1685769949; 1685554763; 1685339581; 1685127391; 1684918171; 1684703561;
  1684493633; 1684280249; 1684067551; 1683855757; 1683645311; 1683433723; 1683221711; 1683008251; 1682796551; 1682583167;
  1682371753; 1682155987; 1681944119; 1681733363; 1681519849; 1681308011; 1681098073; 1680884237; 1680671623; 1680459233;
  1680247291; 1680031811; 1679819293; 1679605723; 1679392699; 1679181041; 1678968337; 1678756411; 1678543357; 1678332811;
  1678122869; 1677911009; 1677697997; 1677485779; 1677275011; 1677060713; 1676850353; 1676637649; 1676424697; 1676211011;
  1676000453; 1675787273; 1675576393; 1675363649; 1675151339; 1674939241; 1674727057; 1674512789; 1674299479; 1674087917;
  1673876467; 1673661967; 1673449919; 1673235139; 1673021521; 1672808327; 1672596941; 1672384589; 1672173589; 1671961757;
  1671749039; 1671536963; 1671325529; 1671112967; 1670901179; 1670689117; 1670475277; 1670262637; 1670051791; 1669837633;
  1669625107; 1669414039; 1669203233; 1668990637; 1668775393; 1668563849; 1668350561; 1668138847; 1667926867; 1667713757;
  1667501833; 1667287651; 1667077777; 1666863299; 1666650637; 1666439549; 1666227977; 1666014149; 1665800771; 1665591229;
  1665380273; 1665168877; 1664957753; 1664744593; 1664532421; 1664320123; 1664105249; 1663891367; 1663680947; 1663469519;
  1663254757; 1663042397; 1662830083; 1662618499; 1662405971; 1662195949; 1661984659; 1661771983; 1661559659; 1661347057;
  1661134081; 1660921679; 1660710313; 1660497737; 1660285441; 1660073287; 1659859973; 1659645607; 1659431777; 1659216851;
  1659004939; 1658794849; 1658581553; 1658372297; 1658159369; 1657946183; 1657734823; 1657521973; 1657309891; 1657097159;
  1656885457; 1656674549; 1656462763; 1656251131; 1656038099; 1655824243; 1655613227; 1655398643; 1655187257; 1654976711;
  1654763909; 1654550113; 1654337563; 1654125673; 1653912119; 1653698759; 1653486361; 1653274141; 1653059761; 1652848279;
  1652634989; 1652424523; 1652209519; 1651998191; 1651784759; 1651572101; 1651359301; 1651147033; 1650934469; 1650723083;
  1650509953; 1650298159; 1650085873; 1649872649; 1649659841; 1649449441; 1649235881; 1649024249; 1648812073; 1648598869;
  1648387141; 1648175587; 1647962123; 1647750473; 1647538483; 1647326743; 1647114061; 1646903021; 1646688727; 1646476903;
  1646264027; 1646051219; 1645838983; 1645628581; 1645415971; 1645204021; 1644993293; 1644776921; 1644563593; 1644351343;
  1644139267; 1643924603; 1643713501; 1643499029; 1643288453; 1643075813; 1642860589; 1642648877; 1642437869; 1642225457;
  1642012793; 1641801523; 1641589661; 1641376409; 1641162559; 1640952241; 1640741437; 1640529173; 1640318839; 1640106227;
  1639894213; 1639681237; 1639470661; 1639257131; 1639045273; 1638833389; 1638619711; 1638407233; 1638194989; 1637980541;
  1637769223; 1637559887; 1637346769; 1637134337; 1636922267; 1636710653; 1636499873; 1636286867; 1636076087; 1635863939].

Definition primes_15 : list Z := [
  1635650407; 1635436661; 1635226577; 1635015631; 1634803927; 1634589751; 1634378377; 1634166799; 1633954739; 1633743409;
  1633531651; 1633318207; 1633106641; 1632897269; 1632687919; 1632475811; 1632263639; 1632052379; 1631839457; 1631626849;
  1631414489; 1631202467; 1630990519; 1630778063; 1630565177; 1630354853; 1630143049; 1629931943; 1629719171; 1629508193;
  1629295721; 1629082687; 1628870843; 1628660101; 1628448221; 1628236867; 1628023801; 1627812029; 1627600441; 1627389431;
  1627177001; 1626962539; 1626751979; 1626539179; 1626326791; 1626113729; 1625903567; 1625691247; 1625478037; 1625266073;
  1625054153; 1624841633; 1624630261; 1624417189; 1624206053; 1623992599; 1623781619; 1623568949; 1623354829; 1623142987;
  1622929513; 1622718421; 1622506999; 1622294161; 1622082901; 1621868393; 1621658257; 1621446997; 1621235573; 1621024253;
  1620813553; 1620603793; 1620392623; 1620180607; 1619968247; 1619753719; 1619541383; 1619329603; 1619117597; 1618904627;
  1618691989; 1618479787; 1618267333; 1618055717; 1617843229; 1617630947; 1617417619; 1617204377; 1616993519; 1616781559;
  1616568367; 1616356229; 1616143759; 1615933097; 1615723597; 1615509367; 1615297399; 1615086917; 1614874609; 1614661459;
  1614448681; 1614236551; 1614023113; 1613812303; 1613601079; 1613389003; 1613176379; 1612963951; 1612751549; 1612540789;
  1612329503; 1612118173; 1611906383; 1611695711; 1611483151; 1611271957; 1611057827; 1610844611; 1610632469; 1610418559;
  1610206529; 1609994033; 1609781203; 1609569413; 1609359209; 1609145459; 1608933947; 1608720361; 1608508801; 1608296717;
  1608084109; 1607870417; 1607658197; 1607445701; 1607234537; 1607022997; 1606810687; 1606600679; 1606388731; 1606176347;
  1605965227; 1605752081; 1605539021; 1605328313; 1605115663; 1604904061; 1604693239; 1604480057; 1604268389; 1604057183;
  1603842913; 1603631873; 1603420561; 1603210649; 1603000219; 1602789143; 1602577609; 1602365857; 1602153079; 1601940149;
  1601727781; 1601517839; 1601302363; 1601090371; 1600879667; 1600667899; 1600455133; 1600242403; 1600031369; 1599820517;
  1599606803; 1599396749; 1599184751; 1598975051; 1598761279; 1598549501; 1598335411; 1598123407; 1597911299; 1597700057;
  1597487621; 1597277893; 1597065859; 1596852787; 1596642133; 1596428957; 1596216553; 1596002173; 1595792243; 1595579933;
  1595369533; 1595158241; 1594948063; 1594737161; 1594525729; 1594311107; 1594098707; 1593885151; 1593671377; 1593458753;
  1593247781; 1593035057; 1592822603; 1592610959; 1592398513; 1592185459; 1591975481; 1591765501; 1591554421; 1591341443;
  1591131319; 1590920003; 1590707633; 1590494783; 1590283363; 1590070931; 1589859377; 1589646811; 1589434129; 1589223187;
  1589011031; 1588799903; 1588586047; 1588375429; 1588163957; 1587952687; 1587741893; 1587529987; 1587318851; 1587105677;
  1586891203; 1586680391; 1586469947; 1586257091; 1586045543; 1585835543; 1585622579; 1585410503; 1585198583; 1584985397;
  1584772169; 1584559601; 1584347197; 1584135689; 1583923169; 1583711639; 1583501189; 1583290279; 1583078971; 1582868279;
  1582658101; 1582445219; 1582233599; 1582020931; 1581806959; 1581596773; 1581385601; 1581173551; 1580962969; 1580751941;
  1580539157; 1580325619; 1580114611; 1579903427; 1579693151; 1579481467; 1579268359; 1579056379; 1578842593; 1578632179;
  1578421843; 1578209747; 1577998151; 1577787647; 1577579093; 1577369909; 1577155537; 1576943099; 1576730611; 1576521313;
  1576311547; 1576100221; 1575886001; 1575674297; 1575462277; 1575251819; 1575039077; 1574829143; 1574617871; 1574406947;
  1574196319; 1573984591; 1573771307; 1573558699; 1573347103; 1573134727; 1572923981; 1572710869; 1572499171; 1572285719;
  1572074671; 1571864771; 1571650979; 1571438179; 1571225417; 1571013593; 1570801511; 1570589539; 1570376557; 1570164923;
  1569953963; 1569742417; 1569531179; 1569320693; 1569107899; 1568896783; 1568684263; 1568472599; 1568261309; 1568048311;
  1567834613; 1567622321; 1567411583; 1567200757; 1566991141; 1566778691; 1566568769; 1566357157; 1566143399; 1565932283;
  1565721347; 1565509193; 1565297891; 1565085653; 1564873847; 1564660499; 1564447433; 1564235279; 1564021853; 1563811489;
  1563600547; 1563390781; 1563178303; 1562966143; 1562753519; 1562540341; 1562328893; 1562116663; 1561904369; 1561691323;
  1561478873; 1561266367; 1561053881; 1560842071; 1560628519; 1560415321; 1560203707; 1559991437; 1559780639; 1559568349;
  1559356307; 1559145017; 1558935383; 1558724383; 1558512313; 1558300649; 1558088447; 1557875689; 1557664697; 1557452837;
  1557241417; 1557027809; 1556815321; 1556607361; 1556394971; 1556182799; 1555972007; 1555757803; 1555547131; 1555336427;
  1555123693; 1554912313; 1554701053; 1554488371; 1554276719; 1554064399; 1553854661; 1553642743; 1553430247; 1553219651;
  1553007349; 1552796459; 1552584197; 1552373029; 1552160453; 1551947497; 1551736567; 1551524531; 1551312557; 1551101779;
  1550890007; 1550680333; 1550469667; 1550258377; 1550048537; 1549836947; 1549626413; 1549413953; 1549202497; 1548990721;
  1548777619; 1548566603; 1548353953; 1548143243; 1547932783; 1547718707; 1547508233; 1547295949; 1547084933; 1546874491;
  1546660861; 1546449799; 1546240771; 1546029269; 1545817543; 1545608279; 1545395063; 1545184891; 1544973307; 1544762029;
  1544550919; 1544340169; 1544126369; 1543917269; 1543704583; 1543492921; 1543278167; 1543066607; 1542855121; 1542643969;
  1542432631; 1542220997; 1542009797; 1541798197; 1541588329; 1541375651; 1541164321; 1540951459; 1540741079; 1540529233;
  1540316951; 1540104407; 1539892303; 1539682103; 1539472589; 1539260353; 1539048419; 1538837119; 1538625079; 1538413381;
  1538200369; 1537988381; 1537776257; 1537564159; 1537351003; 1537141829; 1536930599; 1536719453; 1536509207; 1536298567;
  1536084287; 1535872307; 1535661467; 1535448043; 1535237141; 1535025673; 1534813279; 1534603751; 1534391513; 1534179809;
  1533966341; 1533756793; 1533546401; 1533334199; 1533122693; 1532910019; 1532698561; 1532487683; 1532274157; 1532063317;
  1531852901; 1531640309; 1531427567; 1531215589; 1531002287; 1530788503; 1530577127; 1530366421; 1530154837; 1529942443].

Definition primes_16 : list Z := [
  1529731897; 1529522737; 1529311841; 1529103517; 1528891963; 1528680841; 1528467029; 1528256663; 1528046269; 1527835061;
  1527624487; 1527413753; 1527202763; 1526992429; 1526780881; 1526568913; 1526357621; 1526146381; 1525935077; 1525723673;
  1525511483; 1525301759; 1525088857; 1524876253; 1524665299; 1524452729; 1524241639; 1524031711; 1523819651; 1523608943;
  1523397277; 1523184791; 1522974181; 1522761347; 1522549627; 1522339421; 1522130107; 1521919109; 1521705557; 1521496439;
  1521282947; 1521071219; 1520860261; 1520647981; 1520436857; 1520224591; 1520013307; 1519800533; 1519589777; 1519377709;
  1519166063; 1518957403; 1518747859; 1518537569; 1518326107; 1518115609; 1517902261; 1517689727; 1517479627; 1517268097;
  1517056027; 1516842331; 1516630799; 1516422581; 1516211933; 1516000391; 1515788333; 1515576967; 1515365569; 1515154343;
  1514942327; 1514732293; 1514522249; 1514311637; 1514100949; 1513888829; 1513677317; 1513464419; 1513253267; 1513040521;
  1512829321; 1512619337; 1512406871; 1512196163; 1511984137; 1511773339; 1511559821; 1511349289; 1511138999; 1510926353;
  1510713947; 1510500547; 1510288337; 1510077571; 1509863603; 1509652121; 1509441179; 1509226711; 1509014431; 1508801669;
  1508591653; 1508381621; 1508170903; 1507960691; 1507750679; 1507539263; 1507328419; 1507115851; 1506903271; 1506692387;
  1506480763; 1506267967; 1506056749; 1505847173; 1505635909; 1505425291; 1505215927; 1505005493; 1504793657; 1504581619;
  1504371229; 1504162333; 1503952867; 1503740867; 1503529823; 1503316649; 1503105971; 1502893967; 1502682551; 1502471153;
  1502260021; 1502047271; 1501834643; 1501623469; 1501411771; 1501200923; 1500989389; 1500775873; 1500565127; 1500353909;
  1500143621; 1499932537; 1499720281; 1499508971; 1499297563; 1499086661; 1498874747; 1498663967; 1498451329; 1498239949;
  1498028803; 1497818087; 1497605653; 1497394813; 1497185497; 1496972819; 1496762291; 1496551181; 1496339959; 1496130263;
  1495919351; 1495706561; 1495496021; 1495283507; 1495072847; 1494862697; 1494651533; 1494441001; 1494230201; 1494019927;
  1493808817; 1493596171; 1493385767; 1493174381; 1492964443; 1492753439; 1492542301; 1492331219; 1492120969; 1491911543;
  1491699217; 1491487813; 1491275839; 1491064643; 1490853697; 1490645441; 1490435729; 1490226733; 1490013949; 1489802617;
  1489589581; 1489379527; 1489166039; 1488954433; 1488743299; 1488531413; 1488320387; 1488111187; 1487900389; 1487690467;
  1487478497; 1487267263; 1487057459; 1486847729; 1486637849; 1486427429; 1486216819; 1486003891; 1485793697; 1485583139;
  1485372797; 1485160133; 1484950217; 1484741021; 1484529037; 1484317111; 1484106011; 1483894001; 1483681889; 1483471441;
  1483259819; 1483049713; 1482838807; 1482628339; 1482417641; 1482206351; 1481995027; 1481782711; 1481570309; 1481359603;
  1481147693; 1480933667; 1480722539; 1480513499; 1480303739; 1480090541; 1479879637; 1479668173; 1479455969; 1479244651;
  1479032449; 1478822083; 1478609551; 1478399057; 1478187493; 1477978231; 1477768079; 1477556897; 1477346933; 1477136621;
  1476926603; 1476715193; 1476506771; 1476293653; 1476083051; 1475872933; 1475662079; 1475452523; 1475242933; 1475032721;
  1474821919; 1474611221; 1474401239; 1474190131; 1473977039; 1473765289; 1473553997; 1473340133; 1473130889; 1472919583;
  1472708987; 1472498773; 1472287043; 1472077699; 1471867637; 1471657441; 1471446443; 1471235713; 1471023823; 1470812389;
  1470599993; 1470390283; 1470178133; 1469966669; 1469755801; 1469543599; 1469330881; 1469119987; 1468907851; 1468695629;
  1468484929; 1468273421; 1468062059; 1467851149; 1467640763; 1467428411; 1467217327; 1467006161; 1466794151; 1466583073;
  1466371843; 1466160329; 1465948373; 1465736777; 1465525723; 1465314119; 1465102643; 1464892417; 1464680897; 1464467821;
  1464255641; 1464045809; 1463835853; 1463624989; 1463414549; 1463204381; 1462995643; 1462784161; 1462573369; 1462359733;
  1462148579; 1461938441; 1461727649; 1461517399; 1461304841; 1461094379; 1460884471; 1460673547; 1460463343; 1460253167;
  1460041901; 1459830943; 1459617227; 1459408543; 1459198619; 1458986429; 1458775291; 1458563719; 1458353033; 1458142883;
  1457931973; 1457721589; 1457511773; 1457299489; 1457087893; 1456876859; 1456666873; 1456456499; 1456244849; 1456034231;
  1455822019; 1455611659; 1455401117; 1455191977; 1454981797; 1454771543; 1454560109; 1454349367; 1454137843; 1453927427;
  1453715761; 1453504249; 1453294127; 1453081739; 1452870073; 1452659729; 1452448273; 1452238709; 1452026141; 1451813369;
  1451603563; 1451391889; 1451180063; 1450969483; 1450758469; 1450547621; 1450334971; 1450123639; 1449913747; 1449701947;
  1449489913; 1449279817; 1449069893; 1448857687; 1448648989; 1448438279; 1448227537; 1448017553; 1447806317; 1447595869;
  1447382917; 1447174103; 1446960607; 1446749641; 1446540443; 1446328439; 1446119281; 1445908159; 1445699449; 1445489839;
  1445278733; 1445068367; 1444856983; 1444646449; 1444435033; 1444222807; 1444011887; 1443800339; 1443587273; 1443379013;
  1443171043; 1442957707; 1442748763; 1442539339; 1442327533; 1442114507; 1441904047; 1441690351; 1441476593; 1441266361;
  1441055647; 1440847669; 1440637277; 1440426077; 1440217231; 1440006509; 1439794799; 1439583407; 1439374171; 1439162957;
  1438950691; 1438740437; 1438528463; 1438318181; 1438106513; 1437895027; 1437681979; 1437470873; 1437259559; 1437048287;
  1436837653; 1436626987; 1436415569; 1436205919; 1435995373; 1435784563; 1435572799; 1435360867; 1435150831; 1434940153;
  1434729199; 1434520643; 1434309757; 1434099409; 1433886089; 1433674607; 1433466031; 1433253691; 1433041403; 1432829141;
  1432619269; 1432407803; 1432197869; 1431984497; 1431775249; 1431565097; 1431356779; 1431143009; 1430932183; 1430722303;
  1430512469; 1430300119; 1430090093; 1429879069; 1429668403; 1429460267; 1429249499; 1429038931; 1428829397; 1428618013;
  1428406739; 1428195491; 1427984963; 1427775317; 1427565439; 1427352851; 1427142841; 1426932539; 1426720049; 1426508137;
  1426295809; 1426083629; 1425873301; 1425663559; 1425453457; 1425242501; 1425033223; 1424823151; 1424609591; 1424398769].

Definition primes_17 : list Z := [
  1424186873; 1423976707; 1423764707; 1423554833; 1423345877; 1423133431; 1422924851; 1422714019; 1422502589; 1422290981;
  1422080969; 1421869187; 1421659849; 1421447683; 1421235259; 1421022943; 1420814009; 1420605029; 1420395637; 1420184053;
  1419971947; 1419759763; 1419551207; 1419341041; 1419129991; 1418921551; 1418709581; 1418500289; 1418290387; 1418078429;
  1417870807; 1417660261; 1417450193; 1417239283; 1417028629; 1416816109; 1416605381; 1416393973; 1416184151; 1415974367;
  1415759791; 1415548481; 1415338993; 1415127737; 1414916513; 1414706081; 1414496683; 1414285841; 1414075933; 1413865723;
  1413655609; 1413443107; 1413233803; 1413023639; 1412815031; 1412603749; 1412393903; 1412182423; 1411972363; 1411758683;
  1411549081; 1411338163; 1411128419; 1410915481; 1410704203; 1410493127; 1410282767; 1410072823; 1409859751; 1409648803;
  1409438881; 1409228333; 1409018059; 1408806713; 1408597321; 1408386337; 1408174433; 1407966977; 1407755081; 1407545411;
  1407331943; 1407121483; 1406910187; 1406702161; 1406491811; 1406281687; 1406072201; 1405861619; 1405649281; 1405438123;
  1405227907; 1405017281; 1404804259; 1404592459; 1404382807; 1404170093; 1403960413; 1403749219; 1403539117; 1403328253;
  1403117977; 1402907347; 1402696543; 1402487101; 1402274179; 1402063451; 1401852989; 1401641771; 1401431819; 1401220687;
  1401008503; 1400799527; 1400586883; 1400375531; 1400164691; 1399955521; 1399745411; 1399536209; 1399323823; 1399113361;
  1398902599; 1398693211; 1398480011; 1398271157; 1398059851; 1397849273; 1397638597; 1397427527; 1397219311; 1397008007;
  1396796321; 1396584877; 1396373389; 1396163933; 1395953003; 1395742811; 1395532583; 1395320299; 1395110599; 1394900411;
  1394691731; 1394481623; 1394269621; 1394061323; 1393848473; 1393637447; 1393427027; 1393216597; 1393005013; 1392793447;
  1392582857; 1392373667; 1392162097; 1391951017; 1391739917; 1391531941; 1391323799; 1391112179; 1390903231; 1390693357;
  1390480867; 1390273177; 1390061591; 1389854443; 1389644899; 1389435529; 1389224101; 1389013657; 1388802889; 1388590771;
  1388379371; 1388168759; 1387959973; 1387749851; 1387538531; 1387326557; 1387115207; 1386903257; 1386690259; 1386480191;
  1386269273; 1386059749; 1385850449; 1385640629; 1385426899; 1385217611; 1385009077; 1384797541; 1384587221; 1384376911;
  1384166219; 1383955427; 1383743587; 1383531871; 1383321073; 1383109709; 1382900023; 1382688089; 1382478193; 1382270801;
  1382059321; 1381850683; 1381640213; 1381429349; 1381218071; 1381008397; 1380799099; 1380588893; 1380376549; 1380165037;
  1379956027; 1379745391; 1379534699; 1379324861; 1379115107; 1378903499; 1378695559; 1378484147; 1378274273; 1378062869;
  1377849181; 1377638539; 1377427537; 1377217271; 1377005527; 1376795093; 1376583451; 1376372927; 1376163917; 1375954799;
  1375744219; 1375533587; 1375323067; 1375111141; 1374901441; 1374690479; 1374476767; 1374266947; 1374055327; 1373845763;
  1373635849; 1373424677; 1373214013; 1373002481; 1372792661; 1372582951; 1372371989; 1372160681; 1371951631; 1371740347;
  1371530051; 1371317737; 1371107293; 1370898161; 1370689351; 1370478199; 1370269447; 1370059211; 1369848439; 1369638217;
  1369428089; 1369216799; 1369007459; 1368795163; 1368583901; 1368373793; 1368162869; 1367952449; 1367742331; 1367532007;
  1367321981; 1367114009; 1366899931; 1366690271; 1366478059; 1366267829; 1366055539; 1365846239; 1365637037; 1365426473;
  1365217783; 1365005639; 1364797337; 1364586019; 1364374621; 1364163901; 1363954373; 1363745497; 1363535959; 1363324243;
  1363115399; 1362903431; 1362693061; 1362483347; 1362272159; 1362061843; 1361852521; 1361642413; 1361433547; 1361222483;
  1361011681; 1360802489; 1360590611; 1360380881; 1360171817; 1359961501; 1359749983; 1359539257; 1359328409; 1359117871;
  1358908721; 1358698249; 1358486093; 1358278799; 1358066891; 1357857821; 1357647553; 1357437911; 1357226729; 1357017223;
  1356807173; 1356596411; 1356385637; 1356176741; 1355964263; 1355755039; 1355545183; 1355336251; 1355128459; 1354919273;
  1354708483; 1354498751; 1354287721; 1354078309; 1353870257; 1353661961; 1353449791; 1353240853; 1353029723; 1352821361;
  1352612003; 1352403421; 1352193341; 1351982417; 1351771667; 1351559323; 1351347821; 1351136029; 1350925787; 1350716659;
  1350507239; 1350298679; 1350086779; 1349874391; 1349663261; 1349453851; 1349244133; 1349031391; 1348822213; 1348612427;
  1348402843; 1348194559; 1347983867; 1347773291; 1347559459; 1347350909; 1347141193; 1346933207; 1346723429; 1346514991;
  1346305277; 1346093471; 1345883647; 1345672399; 1345461539; 1345252241; 1345040321; 1344829741; 1344618323; 1344407489;
  1344196753; 1343988967; 1343780203; 1343568277; 1343355241; 1343147083; 1342937987; 1342728071; 1342517987; 1342307893;
  1342097557; 1341887003; 1341675697; 1341468683; 1341261511; 1341050771; 1340841889; 1340632757; 1340423269; 1340211359;
  1340001323; 1339791269; 1339578307; 1339367231; 1339154987; 1338943393; 1338732971; 1338525077; 1338315793; 1338103777;
  1337891767; 1337684981; 1337475847; 1337265647; 1337056157; 1336846079; 1336636783; 1336427837; 1336218349; 1336009819;
  1335798707; 1335587749; 1335378673; 1335167833; 1334957387; 1334748409; 1334537419; 1334327461; 1334118859; 1333910269;
  1333701917; 1333489019; 1333276801; 1333068907; 1332859907; 1332650933; 1332443591; 1332235007; 1332026453; 1331816303;
  1331608273; 1331395193; 1331182871; 1330972241; 1330765867; 1330554023; 1330343453; 1330131511; 1329919051; 1329708893;
  1329498817; 1329287497; 1329079417; 1328868181; 1328658781; 1328450027; 1328240899; 1328029309; 1327816559; 1327606783;
  1327398283; 1327186691; 1326977819; 1326767693; 1326556859; 1326346837; 1326137347; 1325926681; 1325717227; 1325506499;
  1325296927; 1325087851; 1324877819; 1324667611; 1324459139; 1324247699; 1324035077; 1323826727; 1323617293; 1323406849;
  1323194489; 1322982083; 1322772643; 1322561957; 1322351603; 1322140619; 1321930747; 1321720937; 1321512457; 1321303331;
  1321092109; 1320882851; 1320674917; 1320465659; 1320254339; 1320043337; 1319834357; 1319625709; 1319414983; 1319203747].

Definition primes_18 : list Z := [
  1318993883; 1318785301; 1318577279; 1318366037; 1318152007; 1317943181; 1317732791; 1317523841; 1317314303; 1317103897;
  1316895257; 1316685211; 1316474221; 1316265331; 1316054891; 1315843693; 1315632137; 1315421413; 1315208959; 1314999743;
  1314788777; 1314578333; 1314370261; 1314159463; 1313949479; 1313740369; 1313531839; 1313319703; 1313108959; 1312898203;
  1312688057; 1312479703; 1312267717; 1312058303; 1311847529; 1311637417; 1311426583; 1311215863; 1311006553; 1310797487;
  1310588473; 1310377987; 1310168747; 1309958267; 1309749391; 1309539499; 1309329479; 1309120567; 1308910397; 1308700637;
  1308490721; 1308281453; 1308072991; 1307865961; 1307656717; 1307445779; 1307237363; 1307026261; 1306817159; 1306605631;
  1306395403; 1306185103; 1305975263; 1305767531; 1305558109; 1305348797; 1305139603; 1304929123; 1304720051; 1304511617;
  1304300269; 1304090467; 1303881353; 1303671079; 1303459217; 1303250287; 1303040521; 1302831029; 1302621143; 1302409819;
  1302198973; 1301989541; 1301779541; 1301570293; 1301362219; 1301151557; 1300942213; 1300732399; 1300522403; 1300313351;
  1300106153; 1299895273; 1299682561; 1299472831; 1299264649; 1299053519; 1298843407; 1298634643; 1298425393; 1298213723;
  1298005127; 1297796261; 1297585661; 1297373851; 1297163779; 1296953461; 1296743507; 1296533111; 1296323929; 1296112973;
  1295901839; 1295691101; 1295482039; 1295272897; 1295060023; 1294851017; 1294641659; 1294429363; 1294219313; 1294009729;
  1293800581; 1293592733; 1293382037; 1293171641; 1292958059; 1292746541; 1292537063; 1292325929; 1292117027; 1291908257;
  1291699309; 1291488907; 1291281083; 1291071497; 1290862493; 1290651811; 1290443393; 1290234571; 1290025021; 1289815477;
  1289604307; 1289395417; 1289184679; 1288975997; 1288766833; 1288556921; 1288348429; 1288138339; 1287928099; 1287718339;
  1287505741; 1287295949; 1287085523; 1286875927; 1286667689; 1286457461; 1286249161; 1286040269; 1285833047; 1285623533;
  1285412059; 1285202393; 1284992759; 1284780683; 1284571111; 1284360967; 1284151301; 1283940841; 1283732231; 1283522021;
  1283313019; 1283104279; 1282895363; 1282682057; 1282472407; 1282264663; 1282053103; 1281842747; 1281633181; 1281423527;
  1281213191; 1281003403; 1280793589; 1280583313; 1280372719; 1280164439; 1279955377; 1279745221; 1279534447; 1279326287;
  1279117223; 1278905813; 1278698909; 1278491231; 1278280687; 1278070979; 1277860873; 1277650267; 1277440727; 1277231077;
  1277022427; 1276813621; 1276603609; 1276392329; 1276182547; 1275971579; 1275761801; 1275553781; 1275343483; 1275133991;
  1274922373; 1274710727; 1274501663; 1274294531; 1274083753; 1273875037; 1273665233; 1273455991; 1273245527; 1273035679;
  1272825977; 1272615397; 1272407239; 1272197977; 1271987671; 1271776811; 1271566627; 1271355739; 1271148253; 1270937953;
  1270728527; 1270517849; 1270308241; 1270098527; 1269886873; 1269680053; 1269470837; 1269262321; 1269054197; 1268844481;
  1268635651; 1268427047; 1268216891; 1268006891; 1267800031; 1267590887; 1267381691; 1267170791; 1266961207; 1266754579;
  1266546143; 1266337901; 1266129401; 1265918683; 1265706697; 1265496943; 1265288159; 1265077771; 1264869971; 1264660013;
  1264449523; 1264238123; 1264029539; 1263820993; 1263611597; 1263400771; 1263193111; 1262981519; 1262772097; 1262563301;
  1262354279; 1262142769; 1261934431; 1261723741; 1261515029; 1261306933; 1261099303; 1260888019; 1260676409; 1260468359;
  1260257827; 1260050257; 1259839093; 1259629243; 1259419391; 1259210399; 1259001217; 1258793857; 1258585037; 1258375523;
  1258165679; 1257955429; 1257744953; 1257534881; 1257325829; 1257116669; 1256905073; 1256695789; 1256486117; 1256277961;
  1256067493; 1255856647; 1255647719; 1255437529; 1255225837; 1255015369; 1254806131; 1254595753; 1254386789; 1254178421;
  1253968913; 1253758447; 1253548619; 1253338423; 1253130479; 1252923073; 1252715501; 1252508093; 1252297457; 1252086653;
  1251874859; 1251664657; 1251453971; 1251246587; 1251037709; 1250828521; 1250619481; 1250410003; 1250200339; 1249992089;
  1249782367; 1249573147; 1249364279; 1249156483; 1248948131; 1248738089; 1248528599; 1248319139; 1248109439; 1247902109;
  1247692639; 1247481349; 1247271547; 1247063087; 1246854223; 1246645307; 1246435901; 1246227581; 1246018871; 1245810227;
  1245601571; 1245392903; 1245184243; 1244973703; 1244765047; 1244557333; 1244346863; 1244135653; 1243927999; 1243717823;
  1243509257; 1243298579; 1243088681; 1242879059; 1242671167; 1242460357; 1242246671; 1242039277; 1241829913; 1241620693;
  1241410673; 1241202409; 1240991117; 1240782497; 1240572649; 1240363273; 1240153777; 1239943217; 1239734767; 1239525311;
  1239313181; 1239103571; 1238893823; 1238684219; 1238472803; 1238262409; 1238054203; 1237844537; 1237634821; 1237427551;
  1237217627; 1237009793; 1236798539; 1236589789; 1236381481; 1236172387; 1235964097; 1235754187; 1235545853; 1235335271;
  1235126447; 1234917487; 1234708621; 1234500199; 1234289923; 1234080811; 1233871147; 1233660019; 1233451543; 1233242953;
  1233033727; 1232823541; 1232613331; 1232402621; 1232193211; 1231982483; 1231772611; 1231562147; 1231353373; 1231146467;
  1230937441; 1230727991; 1230517793; 1230311371; 1230102737; 1229895523; 1229684839; 1229476231; 1229268809; 1229059703;
  1228850041; 1228638493; 1228429607; 1228220797; 1228011221; 1227800507; 1227590239; 1227381409; 1227172223; 1226964671;
  1226753419; 1226542657; 1226332829; 1226122453; 1225911629; 1225702547; 1225493051; 1225282477; 1225072763; 1224862213;
  1224653371; 1224442993; 1224234727; 1224025021; 1223816687; 1223607443; 1223398019; 1223187829; 1222978951; 1222770077;
  1222560371; 1222351069; 1222142459; 1221933131; 1221721819; 1221514477; 1221302977; 1221094829; 1220885647; 1220675699;
  1220464283; 1220254433; 1220047229; 1219838999; 1219629767; 1219421089; 1219213297; 1219005551; 1218797189; 1218587507;
  1218377591; 1218168283; 1217959759; 1217750113; 1217539289; 1217329511; 1217123249; 1216913377; 1216703687; 1216494469;
  1216286101; 1216077211; 1215867539; 1215660739; 1215451949; 1215241673; 1215031777; 1214822281; 1214612899; 1214402617].

Definition primes_19 : list Z := [
  1214193439; 1213983487; 1213775221; 1213567811; 1213358513; 1213147499; 1212936583; 1212727433; 1212520013; 1212311081;
  1212103577; 1211893097; 1211685161; 1211473667; 1211264987; 1211058197; 1210849229; 1210639567; 1210431389; 1210221599;
  1210011203; 1209802301; 1209594917; 1209386179; 1209175673; 1208967143; 1208757743; 1208547889; 1208338451; 1208131159;
  1207920361; 1207710793; 1207501777; 1207294171; 1207084621; 1206876179; 1206669041; 1206459521; 1206249859; 1206041953;
  1205831299; 1205622923; 1205415979; 1205207389; 1204998191; 1204787341; 1204578779; 1204371323; 1204162783; 1203951167;
  1203740099; 1203532607; 1203322357; 1203111703; 1202902793; 1202693599; 1202485397; 1202275051; 1202065471; 1201854851;
  1201645231; 1201434701; 1201227581; 1201018723; 1200811463; 1200602569; 1200391783; 1200182749; 1199970719; 1199762611;
  1199552531; 1199343581; 1199132707; 1198924267; 1198714327; 1198506821; 1198298653; 1198090477; 1197882457; 1197674893;
  1197466163; 1197256231; 1197048563; 1196838133; 1196629429; 1196420011; 1196211407; 1196001601; 1195792771; 1195585481;
  1195374319; 1195164823; 1194956393; 1194748517; 1194540509; 1194329251; 1194120047; 1193911993; 1193703031; 1193491619;
  1193283407; 1193075309; 1192865567; 1192657183; 1192448381; 1192240703; 1192030831; 1191823163; 1191612913; 1191402739;
  1191193649; 1190984173; 1190775451; 1190564161; 1190355941; 1190148107; 1189939213; 1189728121; 1189519997; 1189311247;
  1189101713; 1188892717; 1188685703; 1188475777; 1188268001; 1188058351; 1187849153; 1187640917; 1187433263; 1187226367;
  1187015953; 1186805089; 1186596007; 1186388261; 1186178297; 1185970603; 1185761939; 1185550823; 1185341567; 1185133997;
  1184923501; 1184713903; 1184506039; 1184297089; 1184087273; 1183878329; 1183669787; 1183458817; 1183250791; 1183041817;
  1182832331; 1182623809; 1182414503; 1182205709; 1181997067; 1181787179; 1181577517; 1181368277; 1181158673; 1180949249;
  1180738123; 1180528859; 1180320989; 1180111057; 1179901351; 1179692753; 1179482891; 1179277469; 1179068017; 1178859497;
  1178650687; 1178442443; 1178232611; 1178021371; 1177811227; 1177601077; 1177390987; 1177182557; 1176975281; 1176766693;
  1176558433; 1176348211; 1176142267; 1175934349; 1175724499; 1175516383; 1175305661; 1175096981; 1174887067; 1174678643;
  1174471559; 1174261367; 1174052647; 1173844219; 1173636703; 1173426931; 1173217663; 1173009319; 1172799917; 1172590231;
  1172381857; 1172174807; 1171965953; 1171758163; 1171550299; 1171342357; 1171133347; 1170923531; 1170715573; 1170506611;
  1170297743; 1170087619; 1169879033; 1169673629; 1169464913; 1169253593; 1169046509; 1168837333; 1168628623; 1168419073;
  1168211003; 1168001629; 1167792499; 1167582679; 1167374083; 1167164641; 1166955613; 1166747363; 1166538743; 1166330059;
  1166119189; 1165910633; 1165703027; 1165492703; 1165285949; 1165078643; 1164868769; 1164659869; 1164451963; 1164242549;
  1164034369; 1163827999; 1163620747; 1163411423; 1163203091; 1162992989; 1162784431; 1162574671; 1162365587; 1162159013;
  1161950299; 1161741389; 1161533117; 1161327229; 1161119857; 1160911247; 1160702561; 1160493413; 1160284217; 1160074693;
  1159865429; 1159657883; 1159447573; 1159238293; 1159029413; 1158821291; 1158610679; 1158401791; 1158192437; 1157983051;
  1157773979; 1157566313; 1157356867; 1157148761; 1156940111; 1156732697; 1156522207; 1156314457; 1156105541; 1155900293;
  1155689329; 1155480661; 1155273419; 1155064697; 1154855899; 1154646653; 1154436793; 1154228027; 1154020729; 1153810711;
  1153603991; 1153394663; 1153187417; 1152978973; 1152771073; 1152563249; 1152353821; 1152145993; 1151938247; 1151730473;
  1151522587; 1151315437; 1151105951; 1150895927; 1150688501; 1150477577; 1150271407; 1150063381; 1149855211; 1149644887;
  1149437147; 1149227243; 1149020567; 1148810137; 1148600951; 1148394769; 1148185991; 1147977247; 1147768847; 1147562491;
  1147353859; 1147143593; 1146933899; 1146724949; 1146514861; 1146306919; 1146100591; 1145894003; 1145683807; 1145478899;
  1145271119; 1145060519; 1144849163; 1144640489; 1144431487; 1144221607; 1144014493; 1143805609; 1143596227; 1143388151;
  1143178501; 1142967641; 1142757263; 1142548973; 1142340253; 1142130797; 1141922099; 1141712267; 1141504339; 1141295399;
  1141085873; 1140875789; 1140666523; 1140455947; 1140247531; 1140040739; 1139831323; 1139624011; 1139414651; 1139205901;
  1138998829; 1138789373; 1138581187; 1138373713; 1138165307; 1137956741; 1137749777; 1137543557; 1137334369; 1137125887;
  1136915501; 1136704747; 1136495683; 1136285251; 1136077577; 1135868191; 1135660817; 1135452361; 1135244809; 1135035169;
  1134824861; 1134615437; 1134406519; 1134197663; 1133988629; 1133778851; 1133568727; 1133357807; 1133149687; 1132940047;
  1132731473; 1132524047; 1132317119; 1132109567; 1131901469; 1131692797; 1131482159; 1131273667; 1131064631; 1130857417;
  1130648083; 1130439929; 1130231803; 1130021449; 1129813459; 1129605619; 1129394641; 1129186661; 1128976669; 1128768803;
  1128560591; 1128354179; 1128145127; 1127938793; 1127729279; 1127520491; 1127310199; 1127101757; 1126891127; 1126683491;
  1126474469; 1126268371; 1126060379; 1125850861; 1125645503; 1125435653; 1125228911; 1125019937; 1124810191; 1124601029;
  1124391427; 1124181301; 1123972217; 1123763177; 1123553309; 1123346023; 1123136743; 1122928627; 1122720967; 1122511417;
  1122302417; 1122093737; 1121887787; 1121678477; 1121468987; 1121263597; 1121054999; 1120848263; 1120639991; 1120430299;
  1120221979; 1120012321; 1119805361; 1119597139; 1119388597; 1119178637; 1118973001; 1118764489; 1118557243; 1118348449;
  1118141587; 1117932931; 1117724207; 1117513043; 1117305067; 1117096891; 1116887111; 1116679621; 1116471449; 1116262709;
  1116055631; 1115846243; 1115635361; 1115427913; 1115219251; 1115012053; 1114803533; 1114593659; 1114385507; 1114178473;
  1113968143; 1113762623; 1113553663; 1113347029; 1113138293; 1112928077; 1112717911; 1112509877; 1112301271; 1112092691;
  1111885717; 1111677641; 1111467271; 1111260041; 1111051927; 1110844181; 1110635249; 1110426409; 1110217847; 1110008941].

Definition primes_20 : list Z := [
  1109801263; 1109592233; 1109383721; 1109176469; 1108968821; 1108760137; 1108551179; 1108344191; 1108137031; 1107929003;
  1107720883; 1107514039; 1107305911; 1107098303; 1106892403; 1106683751; 1106474197; 1106265071; 1106056043; 1105847839;
  1105639783; 1105429693; 1105221853; 1105013123; 1104804509; 1104595663; 1104387239; 1104180157; 1103972567; 1103765197;
  1103556331; 1103348461; 1103142101; 1102933277; 1102726543; 1102519267; 1102313431; 1102104473; 1101895429; 1101685861;
  1101479651; 1101268541; 1101060229; 1100852899; 1100645999; 1100436301; 1100227207; 1100018219; 1099811047; 1099602997;
  1099393643; 1099185673; 1098978599; 1098770263; 1098561227; 1098351797; 1098144017; 1097937167; 1097728157; 1097520947;
  1097312089; 1097103767; 1096897601; 1096689799; 1096482011; 1096274651; 1096066739; 1095859199; 1095650089; 1095442963;
  1095231623; 1095024257; 1094816797; 1094609557; 1094398931; 1094189693; 1093980971; 1093770611; 1093563649; 1093358719;
  1093150999; 1092943727; 1092736243; 1092527509; 1092318377; 1092112319; 1091904797; 1091696719; 1091489419; 1091281019;
  1091072471; 1090864699; 1090656817; 1090447843; 1090240531; 1090031741; 1089824773; 1089618017; 1089409109; 1089200053;
  1088991263; 1088783723; 1088576893; 1088365753; 1088157073; 1087948157; 1087740917; 1087532689; 1087324613; 1087118537;
  1086911729; 1086703643; 1086495727; 1086288169; 1086080651; 1085870603; 1085664887; 1085456423; 1085247697; 1085038519;
  1084833017; 1084624049; 1084416631; 1084208351; 1084001693; 1083793349; 1083585871; 1083377047; 1083170471; 1082963663;
  1082756149; 1082546651; 1082338427; 1082131829; 1081924471; 1081716761; 1081511393; 1081303913; 1081096957; 1080887629;
  1080678889; 1080469007; 1080262063; 1080055027; 1079847971; 1079640707; 1079432869; 1079223599; 1079014879; 1078808681;
  1078599227; 1078390589; 1078182643; 1077975377; 1077768583; 1077558403; 1077350501; 1077143029; 1076934251; 1076724241;
  1076518097; 1076309501; 1076101567; 1075893557; 1075684787; 1075475461; 1075267649; 1075058701; 1074849661; 1074641677;
  1074432679; 1074225577; 1074019853; 1073811041; 1073601887; 1073392231; 1073184083; 1072976483; 1072767901; 1072560497;
  1072351633; 1072144147; 1071935113; 1071728831; 1071520193; 1071314423; 1071105181; 1070897921; 1070692321; 1070484431;
  1070277881; 1070069713; 1069861379; 1069652459; 1069443377; 1069236671; 1069029323; 1068821141; 1068613543; 1068406421;
  1068198277; 1067990419; 1067782787; 1067575109; 1067369003; 1067160917; 1066953301; 1066746419; 1066536941; 1066330519;
  1066124239; 1065916381; 1065710047; 1065502043; 1065293909; 1065085093; 1064875531; 1064669233; 1064464769; 1064256913;
  1064052889; 1063841941; 1063634183; 1063429519; 1063220489; 1063011779; 1062803279; 1062594389; 1062385393; 1062178993;
  1061971153; 1061765231; 1061557109; 1061348021; 1061139697; 1060931147; 1060724087; 1060514333; 1060306607; 1060098943;
  1059890033; 1059683543; 1059476063; 1059268699; 1059058799; 1058851631; 1058644291; 1058437243; 1058228651; 1058022887;
  1057815553; 1057607189; 1057398107; 1057191097; 1056981413; 1056774827; 1056567443; 1056358829; 1056150707; 1055942477;
  1055735311; 1055524109; 1055317657; 1055108851; 1054899821; 1054691531; 1054482683; 1054276051; 1054070753; 1053861643;
  1053652829; 1053443057; 1053235811; 1053029443; 1052820511; 1052613781; 1052407277; 1052201207; 1051991939; 1051782857;
  1051575347; 1051368133; 1051161451; 1050953941; 1050747079; 1050538583; 1050331537; 1050123911; 1049915177; 1049708141;
  1049499391; 1049291899; 1049084801; 1048875713; 1048666351; 1048459133; 1048250167; 1048043951; 1047834761; 1047627271;
  1047418517; 1047210709; 1047002123; 1046793551; 1046584937; 1046377229; 1046170379; 1045963277; 1045755479; 1045548289;
  1045341391; 1045131757; 1044923059; 1044714707; 1044506663; 1044299353; 1044089779; 1043881469; 1043675887; 1043468333;
  1043259947; 1043052079; 1042842733; 1042636327; 1042430009; 1042222837; 1042014559; 1041806749; 1041601129; 1041395071;
  1041186929; 1040977403; 1040770943; 1040561549; 1040352769; 1040148119; 1039940617; 1039734901; 1039527631; 1039319389;
  1039112171; 1038904313; 1038697459; 1038489227; 1038281971; 1038076063; 1037869297; 1037660693; 1037454337; 1037245081;
  1037036801; 1036830203; 1036622537; 1036418689; 1036209221; 1036001821; 1035793637; 1035585337; 1035377579; 1035169859;
  1034963477; 1034755889; 1034547919; 1034339519; 1034133439; 1033926133; 1033718393; 1033508219; 1033301741; 1033093891;
  1032883727; 1032675671; 1032468491; 1032261277; 1032053389; 1031846441; 1031638939; 1031432029; 1031222191; 1031015443;
  1030807237; 1030602227; 1030394653; 1030187299; 1029978863; 1029770507; 1029562477; 1029356557; 1029149479; 1028943049;
  1028736311; 1028526439; 1028322089; 1028114587; 1027905079; 1027698571; 1027491097; 1027281383; 1027072499; 1026864593;
  1026655111; 1026449509; 1026242017; 1026034411; 1025827493; 1025619773; 1025412833; 1025205917; 1024998553; 1024790993;
  1024585409; 1024377589; 1024170479; 1023963079; 1023754891; 1023546973; 1023340459; 1023130879; 1022924689; 1022717417;
  1022509559; 1022303539; 1022093477; 1021885679; 1021678703; 1021470403; 1021262609; 1021056017; 1020847343; 1020639803;
  1020432683; 1020225047; 1020020171; 1019812693; 1019606831; 1019398117; 1019190233; 1018982821; 1018775161; 1018567057;
  1018358507; 1018151209; 1017944381; 1017736241; 1017530897; 1017324137; 1017116063; 1016908021; 1016700959; 1016493871;
  1016286463; 1016078939; 1015870729; 1015663459; 1015456751; 1015249799; 1015043849; 1014837041; 1014630109; 1014424841;
  1014216271; 1014010013; 1013804111; 1013594851; 1013387113; 1013179397; 1012969481; 1012763077; 1012555567; 1012347803;
  1012140301; 1011933803; 1011728813; 1011522041; 1011312689; 1011105943; 1010899103; 1010691037; 1010484037; 1010277799;
  1010068273; 1009863587; 1009654741; 1009449401; 1009242103; 1009035059; 1008826657; 1008617111; 1008409531; 1008202501;
  1007995843; 1007786251; 1007579669; 1007371847; 1007167529; 1006961783; 1006755119; 1006546817; 1006337861; 1006130189].

Definition primes_21 : list Z := [
  1005921529; 1005714239; 1005508093; 1005301811; 1005096139; 1004888011; 1004681233; 1004475079; 1004267977; 1004061257;
  1003852589; 1003647949; 1003439069; 1003232161; 1003024067; 1002817859; 1002610171; 1002403361; 1002194651; 1001986877;
  1001778803; 1001571667; 1001364493; 1001156677; 1000951957; 1000744669; 1000537129; 1000327297; 1000119983; 999912523;
  999703801; 999493673; 999286423; 999078749; 998871407; 998664533; 998458471; 998253203; 998046109; 997839767;
  997633313; 997426693; 997218899; 997011133; 996803813; 996597577; 996390223; 996183359; 995977547; 995770397;
  995562409; 995354803; 995146829; 994941529; 994735051; 994527539; 994320137; 994113697; 993907393; 993698323;
  993491119; 993282299; 993076549; 992870051; 992663029; 992455333; 992248849; 992042297; 991833253; 991624423;
  991417409; 991211311; 991005881; 990798979; 990592243; 990385157; 990176959; 989971237; 989762567; 989556467;
  989348963; 989142277; 988934563; 988729121; 988519901; 988313663; 988104911; 987897461; 987692201; 987484747;
  987276473; 987069637; 986861357; 986656057; 986450291; 986242583; 986034559; 985828897; 985620491; 985413613;
  985208027; 984999641; 984793639; 984586049; 984379723; 984171319; 983966077; 983761687; 983554151; 983347199;
  983139727; 982933051; 982728209; 982520449; 982314679; 982108307; 981899161; 981692263; 981484789; 981277889;
  981072341; 980865359; 980657081; 980449601; 980242871; 980035361; 979828741; 979620721; 979413271; 979206149;
  979000333; 978793337; 978582823; 978378091; 978170003; 977962343; 977755951; 977548213; 977341201; 977134861;
  976928089; 976721873; 976515613; 976308323; 976101821; 975892903; 975685771; 975477911; 975270103; 975063059;
  974856133; 974650109; 974441773; 974234951; 974027363; 973819969; 973612897; 973407217; 973200797; 972991693;
  972783767; 972575189; 972370271; 972161327; 971955211; 971747593; 971541997; 971334241; 971126231; 970917953;
  970712653; 970504793; 970298893; 970093193; 969885979; 969678383; 969471989; 969264253; 969059699; 968852399;
  968645647; 968438519; 968231983; 968024059; 967817281; 967613329; 967406161; 967197743; 966990467; 966783197;
  966577459; 966369473; 966164629; 965956177; 965746939; 965540179; 965333641; 965127589; 964920427; 964712663;
  964505779; 964297351; 964090601; 963884557; 963679721; 963472667; 963264233; 963057677; 962851469; 962644237;
  962439397; 962233927; 962026067; 961818331; 961609657; 961402753; 961196113; 960989921; 960783503; 960575053;
  960369671; 960164357; 959958569; 959751467; 959545339; 959337787; 959132063; 958927643; 958719757; 958513207;
  958308079; 958099903; 957892121; 957686003; 957479813; 957274463; 957070073; 956863231; 956656499; 956450219;
  956243017; 956035967; 955827647; 955619213; 955411801; 955206139; 955000157; 954793003; 954587419; 954379667;
  954173333; 953967467; 953761241; 953554561; 953347751; 953141549; 952936403; 952729321; 952522433; 952313891;
  952108571; 951902069; 951695267; 951487843; 951281183; 951072641; 950867891; 950659939; 950453393; 950245817;
  950038891; 949831711; 949624163; 949418621; 949210631; 949004237; 948797947; 948590129; 948383503; 948176329;
  947969749; 947762281; 947557529; 947350549; 947146309; 946941377; 946733339; 946525397; 946319123; 946112749;
  945906653; 945699767; 945493957; 945286103; 945079393; 944872997; 944666137; 944457727; 944251129; 944045093;
  943841623; 943634413; 943428457; 943221553; 943014223; 942807059; 942599201; 942394279; 942186577; 941980649;
  941770757; 941565017; 941358941; 941153023; 940944761; 940739473; 940534457; 940328141; 940121129; 939914237;
  939707311; 939498481; 939290711; 939083969; 938877299; 938670497; 938463313; 938256743; 938050571; 937843117;
  937635403; 937430023; 937224481; 937017241; 936808751; 936602551; 936393247; 936187487; 935980187; 935774839;
  935568223; 935362513; 935157149; 934950433; 934744141; 934538333; 934332799; 934125721; 933915907; 933712601;
  933505961; 933298987; 933094187; 932887321; 932682197; 932474657; 932268949; 932062069; 931853539; 931648031;
  931441501; 931235729; 931028831; 930822023; 930615799; 930410359; 930203363; 929997377; 929791073; 929583461;
  929378647; 929171809; 928961563; 928753213; 928546337; 928340111; 928133047; 927927431; 927719873; 927511327;
  927303313; 927097819; 926891057; 926683861; 926476429; 926272069; 926065423; 925858279; 925653983; 925447087;
  925239961; 925034359; 924827639; 924620899; 924415159; 924208093; 924001801; 923795833; 923589143; 923381033;
  923174653; 922968353; 922762307; 922554167; 922346597; 922140283; 921933101; 921726833; 921521323; 921314491;
  921104917; 920900389; 920696473; 920488883; 920284241; 920077003; 919871549; 919665931; 919461089; 919253327;
  919047611; 918843181; 918636781; 918431209; 918225853; 918018929; 917810801; 917602223; 917395903; 917188477;
  916982489; 916774951; 916568707; 916361893; 916156721; 915951917; 915745531; 915540091; 915333547; 915126503;
  914921417; 914715511; 914509529; 914303749; 914097449; 913892719; 913684151; 913479859; 913271237; 913061893;
  912856787; 912650659; 912447581; 912239071; 912033929; 911828861; 911623931; 911416811; 911211313; 911004803;
  910799521; 910594129; 910388137; 910180189; 909975103; 909769517; 909564301; 909358363; 909154039; 908950027;
  908742859; 908536289; 908330999; 908122427; 907915453; 907709161; 907504669; 907298807; 907092811; 906888161;
  906681863; 906477373; 906270719; 906063619; 905857787; 905652047; 905446649; 905241457; 905037937; 904830643;
  904624129; 904412191; 904207417; 904001689; 903795047; 903589319; 903382463; 903178417; 902973857; 902767081].

Definition primes_22 : list Z := [
  902558269; 902351161; 902142887; 901935031; 901729561; 901524121; 901318051; 901111439; 900906637; 900700831;
  900494867; 900290857; 900084401; 899879263; 899671099; 899463869; 899258387; 899051437; 898845781; 898638131;
  898431239; 898226999; 898020311; 897812969; 897607853; 897401333; 897194827; 896988797; 896782561; 896575313;
  896370289; 896163013; 895955897; 895751147; 895544131; 895337041; 895131739; 894924157; 894717371; 894511207;
  894304603; 894098801; 893892721; 893686333; 893479253; 893273831; 893069227; 892863337; 892659133; 892455203;
  892249121; 892042433; 891836821; 891629833; 891421211; 891214297; 891007393; 890801147; 890593727; 890387999;
  890182673; 889977527; 889771829; 889565387; 889357043; 889151611; 888944711; 888738751; 888533159; 888326333;
  888119311; 887913683; 887710319; 887504369; 887298869; 887092457; 886885721; 886678853; 886474403; 886268503;
  886062503; 885857129; 885650761; 885443579; 885236993; 885030703; 884822867; 884615929; 884409923; 884205199;
  883998877; 883793107; 883588081; 883380077; 883172489; 882967091; 882760639; 882556957; 882351131; 882144853;
  881939497; 881732437; 881527169; 881321641; 881116981; 880910321; 880702661; 880495237; 880288337; 880082239;
  879875501; 879669793; 879464407; 879258439; 879051493; 878846819; 878642081; 878436607; 878230709; 878025917;
  877819699; 877613479; 877406449; 877200449; 876993101; 876786593; 876580267; 876375277; 876167623; 875960333;
  875755271; 875547059; 875341081; 875133761; 874927159; 874724077; 874517923; 874312423; 874106309; 873900127;
  873692717; 873487577; 873282323; 873076363; 872872051; 872667931; 872461297; 872252947; 872048687; 871843979;
  871637411; 871431779; 871224707; 871016617; 870810277; 870604591; 870398107; 870193447; 869988349; 869782429;
  869579747; 869372099; 869166061; 868958539; 868754771; 868548341; 868343237; 868135109; 867930487; 867723991;
  867518711; 867314957; 867109753; 866904347; 866699791; 866493643; 866287339; 866080493; 865873159; 865665811;
  865460467; 865256173; 865051073; 864844751; 864638191; 864434687; 864229549; 864024071; 863818961; 863613349;
  863408839; 863200651; 862995349; 862789141; 862584491; 862376869; 862173199; 861967571; 861759439; 861555043;
  861350729; 861143057; 860938087; 860732359; 860524417; 860319727; 860112137; 859906457; 859700689; 859493447;
  859285943; 859078879; 858872177; 858667783; 858462079; 858257021; 858050153; 857845171; 857641481; 857434343;
  857229661; 857021821; 856815683; 856610141; 856403957; 856197857; 855991243; 855787067; 855580549; 855376927;
  855170389; 854963783; 854759743; 854554699; 854348233; 854142089; 853936907; 853731059; 853526381; 853322969;
  853117247; 852910259; 852705479; 852499171; 852292559; 852088277; 851882099; 851674477; 851469019; 851264669;
  851057611; 850851587; 850646939; 850441219; 850233557; 850027799; 849822679; 849618937; 849412657; 849206053;
  849000613; 848795179; 848593357; 848389111; 848183599; 847977167; 847770809; 847565239; 847359661; 847153661;
  846946957; 846740357; 846533267; 846328151; 846122219; 845917427; 845711719; 845507317; 845300191; 845093831;
  844888931; 844684639; 844476407; 844270619; 844064857; 843857627; 843651791; 843446467; 843243067; 843038501;
  842832899; 842629639; 842424053; 842217149; 842013313; 841808101; 841604131; 841399711; 841190411; 840984299;
  840779671; 840573443; 840368603; 840162481; 839958013; 839751259; 839547497; 839344031; 839137381; 838930861;
  838723777; 838515877; 838312229; 838108081; 837905749; 837700639; 837495367; 837289603; 837084181; 836877871;
  836671211; 836468057; 836260973; 836056369; 835849453; 835644737; 835437937; 835233631; 835027631; 834821531;
  834617561; 834413053; 834207961; 834001559; 833795381; 833590399; 833388103; 833180779; 832975837; 832771883;
  832566463; 832361093; 832154209; 831950087; 831745181; 831538217; 831331097; 831128377; 830922097; 830714711;
  830510453; 830306963; 830101141; 829895009; 829689409; 829481797; 829277191; 829072877; 828868163; 828661567;
  828457241; 828252463; 828047761; 827842021; 827636519; 827429737; 827225387; 827019359; 826814369; 826608259;
  826403551; 826198921; 825992749; 825787181; 825582193; 825377621; 825173177; 824968519; 824762513; 824555269;
  824349683; 824142367; 823937089; 823731899; 823527623; 823323491; 823117289; 822911773; 822704539; 822498949;
  822298387; 822092333; 821884897; 821679041; 821473817; 821267743; 821060567; 820857749; 820652309; 820449247;
  820243231; 820038239; 819832337; 819626957; 819422881; 819216481; 819009029; 818804929; 818600191; 818395423;
  818188193; 817983277; 817775953; 817571851; 817365001; 817161731; 816957101; 816754249; 816547183; 816342731;
  816137629; 815932811; 815728063; 815525041; 815320771; 815114593; 814909063; 814704377; 814499137; 814294979;
  814090049; 813884047; 813678431; 813473777; 813266687; 813062197; 812858303; 812653463; 812444767; 812240867;
  812035387; 811829387; 811623677; 811416707; 811210409; 811006307; 810802211; 810597041; 810391237; 810187129;
  809982451; 809777047; 809570357; 809367527; 809162383; 808957727; 808753609; 808548869; 808343827; 808138619;
  807933043; 807728011; 807520933; 807315097; 807110879; 806906183; 806700733; 806496791; 806292649; 806087551;
  805883863; 805677811; 805473197; 805269511; 805063621; 804860167; 804656609; 804452377; 804248353; 804043717;
  803837729; 803632777; 803427617; 803222543; 803016983; 802811783; 802605607; 802398869; 802193299; 801988721;
  801783091; 801576833; 801372301; 801170593; 800964947; 800759837; 800555507; 800349989; 800145637; 799941431].

Definition primes_23 : list Z := [
  799735591; 799530211; 799321723; 799115183; 798908287; 798702907; 798498577; 798294529; 798091429; 797886301;
  797683489; 797478323; 797274593; 797070173; 796866731; 796663463; 796458079; 796253543; 796047509; 795843017;
  795637589; 795433099; 795228689; 795024343; 794818757; 794611771; 794405483; 794201981; 793996361; 793791871;
  793589521; 793383473; 793175657; 792971173; 792767303; 792562187; 792356891; 792152663; 791946361; 791741987;
  791537057; 791331511; 791127121; 790921451; 790715449; 790512449; 790309699; 790103269; 789898783; 789696023;
  789491359; 789286541; 789083311; 788879213; 788676593; 788471473; 788266363; 788060909; 787855697; 787649867;
  787445047; 787238801; 787033469; 786827917; 786623683; 786418057; 786213613; 786009541; 785805851; 785602429;
  785397241; 785192389; 784987867; 784784137; 784580513; 784374709; 784168753; 783964201; 783759491; 783556097;
  783350957; 783146677; 782942621; 782737691; 782533847; 782329189; 782124271; 781920047; 781716347; 781508461;
  781306091; 781102481; 780898067; 780693167; 780489373; 780281669; 780078977; 779874761; 779670799; 779465539;
  779259721; 779055377; 778850389; 778646443; 778439353; 778234753; 778029961; 777825071; 777620797; 777415897;
  777212977; 777008467; 776805607; 776599469; 776394529; 776188249; 775983587; 775778981; 775571197; 775363819;
  775160839; 774958963; 774755101; 774549131; 774344911; 774139987; 773935823; 773731103; 773525183; 773320489;
  773114789; 772908407; 772703273; 772499641; 772296299; 772091959; 771888739; 771682333; 771478817; 771274909;
  771069413; 770866417; 770659819; 770457361; 770251723; 770047417; 769842737; 769639153; 769435741; 769230353;
  769026721; 768821993; 768617809; 768415003; 768209993; 768005369; 767801081; 767596649; 767392177; 767188109;
  766984861; 766780723; 766577017; 766370587; 766165427; 765960827; 765755923; 765551887; 765346807; 765140107;
  764934101; 764729831; 764524559; 764318081; 764113409; 763908421; 763702871; 763496977; 763292863; 763085441;
  762881213; 762677887; 762472883; 762269491; 762066233; 761861773; 761656757; 761454761; 761250397; 761045281;
  760841267; 760636241; 760431571; 760227421; 760022563; 759818119; 759613373; 759409121; 759205961; 759002147;
  758797409; 758590351; 758386777; 758180999; 757974431; 757770557; 757563913; 757360343; 757155391; 756951557;
  756745879; 756541993; 756335977; 756132043; 755928577; 755725219; 755522717; 755318411; 755117449; 754911943;
  754708613; 754505491; 754301363; 754096429; 753891353; 753686273; 753478769; 753274433; 753071041; 752863843;
  752659769; 752454491; 752252723; 752047913; 751843847; 751641613; 751436113; 751231693; 751027219; 750820591;
  750617599; 750413071; 750209107; 750002681; 749799353; 749596063; 749390321; 749187239; 748983497; 748777097;
  748570727; 748365781; 748161493; 747956771; 747753049; 747549137; 747345839; 747141341; 746936653; 746730653;
  746525287; 746319589; 746115709; 745910587; 745706963; 745500979; 745297621; 745091561; 744887953; 744681803;
  744478247; 744274087; 744070963; 743866531; 743660123; 743455499; 743252057; 743046131; 742841441; 742636201;
  742430959; 742227581; 742023407; 741819343; 741614831; 741412043; 741210733; 741006107; 740802157; 740599147;
  740395081; 740190901; 739986479; 739783483; 739579301; 739376173; 739172509; 738967561; 738763513; 738560629;
  738354811; 738150871; 737948891; 737742631; 737539013; 737333279; 737130917; 736926341; 736721627; 736518637;
  736313399; 736107901; 735905449; 735701039; 735498311; 735292559; 735087839; 734883719; 734680031; 734475019;
  734270261; 734066527; 733863617; 733658491; 733451969; 733248409; 733045849; 732842687; 732637471; 732431977;
  732227963; 732024677; 731820107; 731616659; 731410013; 731206789; 731003699; 730800157; 730597859; 730392911;
  730186241; 729983159; 729778739; 729572989; 729367999; 729164873; 728958179; 728752537; 728547713; 728343281;
  728139547; 727934741; 727731241; 727527331; 727325023; 727122239; 726918719; 726714731; 726508303; 726304021;
  726100841; 725896487; 725691401; 725488607; 725283917; 725079499; 724872257; 724670717; 724465921; 724262933;
  724059107; 723855389; 723651367; 723447541; 723243071; 723040919; 722835679; 722632091; 722430077; 722225747;
  722022241; 721818211; 721614809; 721411309; 721206137; 721001899; 720798943; 720594737; 720394001; 720189739;
  719985113; 719779663; 719574659; 719370763; 719168381; 718965557; 718759667; 718557457; 718352377; 718147487;
  717944737; 717741457; 717537397; 717333257; 717129419; 716926489; 716723647; 716518147; 716314759; 716110303;
  715906249; 715701733; 715496503; 715293221; 715088713; 714884113; 714679831; 714473567; 714269599; 714065827;
  713862659; 713657779; 713453441; 713248951; 713045633; 712842859; 712636681; 712433479; 712230031; 712028087;
  711824431; 711620251; 711416557; 711212743; 711009647; 710806249; 710602241; 710397929; 710193521; 709987973;
  709784423; 709579397; 709375097; 709173313; 708971059; 708766621; 708560641; 708357941; 708154789; 707951423;
  707747771; 707544449; 707340901; 707136037; 706933907; 706729477; 706526057; 706322767; 706119229; 705915263;
  705708581; 705507211; 705303433; 705098729; 704896967; 704689123; 704485543; 704283677; 704081153; 703877453;
  703673827; 703469479; 703265593; 703061603; 702857261; 702652763; 702450323; 702246911; 702042587; 701839483;
  701635811; 701431931; 701230391; 701026709; 700824233; 700619299; 700414969; 700211597; 700008041; 699803639;
  699601703; 699396107; 699192971; 698990321; 698784601; 698583167; 698379893; 698174573; 697969771; 697766647].

Definition primes_24 : list Z := [
  697562161; 697358087; 697153277; 696948883; 696745613; 696541897; 696337199; 696132923; 695930063; 695727287;
  695524421; 695321987; 695118793; 694915033; 694713121; 694510799; 694308409; 694103749; 693902189; 693697861;
  693495707; 693290693; 693086063; 692880593; 692676043; 692471839; 692267629; 692066027; 691860787; 691654427;
  691452701; 691248563; 691046197; 690843497; 690640073; 690436451; 690233857; 690031691; 689827861; 689626391;
  689421461; 689218693; 689016061; 688813313; 688608259; 688404593; 688201453; 688000597; 687794941; 687591491;
  687387941; 687185729; 686981179; 686778749; 686575619; 686372573; 686170627; 685965883; 685763807; 685561589;
  685358743; 685152973; 684952267; 684749539; 684546301; 684343783; 684139223; 683937043; 683733839; 683530657;
  683328223; 683124397; 682920827; 682714943; 682511183; 682309351; 682103599; 681899051; 681696179; 681493469;
  681289709; 681085721; 680882903; 680679397; 680471927; 680270299; 680065777; 679861867; 679660061; 679456607;
  679253357; 679050059; 678847717; 678642989; 678440069; 678236347; 678035641; 677830873; 677628803; 677424799;
  677220611; 677016947; 676812611; 676609151; 676406209; 676201349; 675997891; 675795247; 675590893; 675387701;
  675183583; 674978831; 674776187; 674572439; 674370167; 674165113; 673961681; 673757599; 673553927; 673350653;
  673147133; 672945331; 672743177; 672540733; 672338573; 672133181; 671930689; 671727011; 671523233; 671318261;
  671115199; 670911421; 670709293; 670506917; 670302641; 670101259; 669897967; 669694541; 669491029; 669287683;
  669083971; 668881069; 668676179; 668472397; 668270507; 668068201; 667863941; 667658281; 667455779; 667252673;
  667049989; 666846907; 666644311; 666440711; 666237587; 666033439; 665831629; 665628493; 665425433; 665220097;
  665019863; 664815269; 664610027; 664406489; 664204199; 663999913; 663797773; 663594973; 663391571; 663189217;
  662985991; 662781139; 662578771; 662376301; 662173163; 661970923; 661766587; 661564117; 661360867; 661158109;
  660956579; 660753323; 660550507; 660347899; 660143741; 659941621; 659737963; 659535911; 659332409; 659131883;
  658928773; 658726249; 658522097; 658318981; 658115791; 657911473; 657709483; 657506237; 657303599; 657101573;
  656898113; 656695649; 656493203; 656289511; 656086637; 655885333; 655683869; 655477967; 655274233; 655071191;
  654867817; 654663497; 654460787; 654256483; 654053731; 653852063; 653650927; 653448149; 653244967; 653042101;
  652837447; 652635847; 652434457; 652230121; 652026413; 651823261; 651619429; 651414263; 651213137; 651010247;
  650806159; 650604349; 650401841; 650199787; 649998353; 649795441; 649591843; 649389071; 649186823; 648983471;
  648779801; 648576407; 648375163; 648172121; 647967751; 647766323; 647563951; 647360759; 647158151; 646956643;
  646751759; 646549147; 646347641; 646142711; 645940591; 645738493; 645535757; 645336379; 645133271; 644930747;
  644725849; 644524271; 644320097; 644116379; 643912121; 643709431; 643507399; 643302419; 643098277; 642895997;
  642692101; 642490577; 642287293; 642084581; 641879369; 641675651; 641473507; 641272769; 641068943; 640865791;
  640663691; 640461149; 640258441; 640056797; 639853933; 639651763; 639448993; 639245209; 639043667; 638841017;
  638636197; 638432797; 638230627; 638028499; 637825693; 637622473; 637419509; 637218331; 637014737; 636813649;
  636611513; 636407791; 636204119; 636002737; 635801591; 635599907; 635397629; 635193677; 634989863; 634789277;
  634586243; 634382291; 634179061; 633977947; 633775931; 633574021; 633367927; 633164879; 632962807; 632759377;
  632555153; 632351501; 632150209; 631946437; 631743881; 631540807; 631339997; 631139219; 630934589; 630731029;
  630527089; 630324089; 630122813; 629920561; 629717899; 629513603; 629311447; 629108819; 628907117; 628703701;
  628502051; 628298389; 628095469; 627893857; 627691369; 627491489; 627289417; 627087541; 626884411; 626682481;
  626481029; 626279263; 626075917; 625873021; 625669463; 625467991; 625264193; 625060103; 624858583; 624656741;
  624453941; 624251627; 624049919; 623848559; 623644843; 623442283; 623240573; 623038027; 622835881; 622632193;
  622429267; 622225393; 622024201; 621821443; 621618353; 621416293; 621213811; 621010913; 620807219; 620605273;
  620404303; 620202071; 619998289; 619795069; 619594111; 619392973; 619191751; 618987839; 618784261; 618581881;
  618380407; 618179491; 617976509; 617775247; 617572051; 617364289; 617162387; 616957969; 616754869; 616551841;
  616350121; 616148317; 615943327; 615740759; 615539033; 615337127; 615132989; 614932831; 614733143; 614529679;
  614325851; 614124109; 613920361; 613718159; 613514249; 613312057; 613110397; 612910351; 612707237; 612504667;
  612304261; 612103909; 611900753; 611698123; 611496157; 611294227; 611090479; 610887731; 610683587; 610480919;
  610280401; 610078039; 609876131; 609674269; 609471799; 609269761; 609066739; 608862853; 608660761; 608456423;
  608255107; 608053217; 607852319; 607649767; 607446799; 607245157; 607042897; 606840127; 606637931; 606436657;
  606232813; 606032149; 605830289; 605626213; 605422177; 605219947; 605016959; 604813397; 604610459; 604408589;
  604206847; 604006127; 603805283; 603604933; 603403301; 603202087; 603001453; 602798479; 602596451; 602394857;
  602192561; 601991009; 601786813; 601586017; 601384957; 601182587; 600980227; 600778547; 600576233; 600374387;
  600172591; 599971679; 599769923; 599566883; 599363221; 599161111; 598958683; 598756549; 598555813; 598352719;
  598150877; 597947153; 597745297; 597541999; 597337567; 597136207; 596934421; 596732161; 596529809; 596328263].

Definition primes_25 : list Z := [
  596126887; 595926047; 595726231; 595525477; 595323367; 595123103; 594920329; 594717373; 594516499; 594314507;
  594112087; 593912741; 593711309; 593508803; 593308451; 593103053; 592900741; 592698257; 592494193; 592293173;
  592091407; 591888067; 591687923; 591486463; 591284051; 591082729; 590883119; 590681459; 590480369; 590278001;
  590076283; 589874573; 589674193; 589472339; 589270849; 589070381; 588870313; 588669443; 588464057; 588263561;
  588060061; 587857031; 587654689; 587452897; 587251337; 587049017; 586846721; 586644491; 586443799; 586242571;
  586040383; 585835819; 585633127; 585433627; 585230879; 585029329; 584826139; 584624393; 584422913; 584219341;
  584015989; 583814299; 583611703; 583411267; 583210997; 583007807; 582807571; 582605579; 582405001; 582205361;
  582002873; 581798431; 581597867; 581397871; 581194717; 580991603; 580790069; 580589203; 580387013; 580186129;
  579982621; 579781781; 579578579; 579376393; 579178037; 578976389; 578773919; 578570711; 578369717; 578169673;
  577965979; 577763447; 577562731; 577360717; 577158581; 576956839; 576754333; 576554747; 576354287; 576152683;
  575949761; 575748139; 575545297; 575344691; 575141939; 574940273; 574739071; 574537841; 574335733; 574132697;
  573930839; 573729197; 573527359; 573326459; 573124847; 572923643; 572722207; 572520763; 572320277; 572119133;
  571917083; 571714459; 571514039; 571312447; 571109333; 570908267; 570706163; 570505211; 570302011; 570100901;
  569899741; 569695739; 569494903; 569292637; 569090791; 568890131; 568688333; 568486201; 568285241; 568083853;
  567883439; 567682277; 567480181; 567278477; 567075389; 566876873; 566672047; 566471351; 566269831; 566067713;
  565866193; 565665403; 565463131; 565261157; 565060669; 564859157; 564657833; 564456637; 564253399; 564050923;
  563849423; 563648951; 563446757; 563245951; 563043527; 562844081; 562640021; 562439363; 562237279; 562037263;
  561836309; 561636739; 561436591; 561233341; 561031321; 560827517; 560628337; 560425741; 560224517; 560023267;
  559821347; 559619603; 559418737; 559216529; 559013027; 558812473; 558611803; 558408817; 558207941; 558007081;
  557807857; 557605397; 557403169; 557203447; 557001349; 556799281; 556595849; 556396177; 556194521; 555994253;
  555791333; 555590479; 555389213; 555186431; 554986511; 554785073; 554584267; 554380919; 554178277; 553976713;
  553776191; 553572707; 553372213; 553172117; 552972401; 552771497; 552570311; 552369217; 552167767; 551967211;
  551766811; 551565811; 551364811; 551162357; 550961809; 550761137; 550560139; 550358761; 550159567; 549958901;
  549757049; 549557549; 549356981; 549155773; 548954101; 548752109; 548551309; 548349407; 548149279; 547949123;
  547747367; 547545563; 547344871; 547145353; 546945383; 546744547; 546542723; 546340393; 546138457; 545937809;
  545735521; 545535997; 545334311; 545133191; 544932499; 544732439; 544530967; 544329011; 544127197; 543926419;
  543724817; 543523769; 543322561; 543119747; 542918149; 542717267; 542513899; 542313859; 542112257; 541910729;
  541709111; 541507361; 541304821; 541103399; 540902563; 540701129; 540501653; 540301187; 540098873; 539897623;
  539694797; 539494807; 539294407; 539095981; 538892941; 538692157; 538491649; 538288771; 538087817; 537887657;
  537687739; 537487169; 537284981; 537083843; 536882651; 536681611; 536479873; 536280743; 536080177; 535880399;
  535676699; 535475179; 535275227; 535076489; 534877139; 534675809; 534475439; 534273799; 534072523; 533871847;
  533669711; 533467969; 533268401; 533066321; 532865881; 532665751; 532465837; 532263973; 532062943; 531863203;
  531661121; 531460661; 531258587; 531058793; 530857277; 530654587; 530453389; 530251793; 530050559; 529850803;
  529650467; 529450759; 529250581; 529048207; 528848687; 528646109; 528445363; 528244949; 528043793; 527843429;
  527644543; 527442943; 527244271; 527042909; 526841269; 526640363; 526441231; 526241101; 526040443; 525839239;
  525638411; 525434137; 525234989; 525033917; 524833663; 524631677; 524432423; 524231369; 524029361; 523831199;
  523626899; 523425431; 523225741; 523026701; 522826373; 522627043; 522427067; 522224917; 522023401; 521821427;
  521621959; 521422549; 521221067; 521019319; 520817963; 520616627; 520416683; 520213721; 520012981; 519811693;
  519612167; 519410641; 519212537; 519010183; 518809799; 518610613; 518408963; 518208749; 518007229; 517808209;
  517608347; 517408183; 517207921; 517005949; 516805997; 516604573; 516406013; 516207467; 516008153; 515806139;
  515604629; 515405351; 515204141; 515003767; 514802657; 514601641; 514400261; 514198963; 513997249; 513796343;
  513594311; 513394933; 513194443; 512993147; 512791793; 512591657; 512391179; 512189567; 511989869; 511791689;
  511592533; 511390471; 511189741; 510988547; 510785537; 510583921; 510382417; 510182483; 509981909; 509779393;
  509577611; 509376979; 509178223; 508978709; 508776343; 508576129; 508377131; 508175669; 507974827; 507776117;
  507575839; 507374239; 507172243; 506971207; 506771051; 506569117; 506371009; 506169997; 505970363; 505771171;
  505568621; 505370287; 505167449; 504965723; 504765221; 504565993; 504363793; 504162943; 503962243; 503761499;
  503562671; 503362183; 503161073; 502963723; 502760147; 502557053; 502358569; 502157779; 501955921; 501757211;
  501555529; 501353029; 501151003; 500950243; 500749423; 500548927; 500349547; 500150419; 499949237; 499748027;
  499548073; 499348043; 499148371; 498946183; 498744937; 498544243; 498344221; 498145331; 497944339; 497742803;
  497542301; 497342597; 497142461; 496944137; 496743421; 496542467; 496342559; 496141033; 495942431; 495744017].

Definition primes_26 : list Z := [
  495541757; 495342109; 495144467; 494944381; 494744039; 494544251; 494343253; 494142589; 493941887; 493744421;
  493544963; 493343107; 493144049; 492942053; 492741779; 492543169; 492340843; 492142411; 491941981; 491741039;
  491539963; 491339879; 491139391; 490939979; 490739591; 490540991; 490338143; 490138709; 489939733; 489741347;
  489539027; 489340637; 489141589; 488941511; 488740841; 488539937; 488338727; 488139371; 487937057; 487738711;
  487538809; 487339261; 487140481; 486937639; 486736531; 486537329; 486338273; 486136883; 485937509; 485738203;
  485538127; 485337989; 485140349; 484937711; 484737509; 484536757; 484336837; 484137497; 483939971; 483737039;
  483537449; 483337639; 483138653; 482938283; 482739253; 482538299; 482338403; 482138263; 481938917; 481736617;
  481536409; 481337513; 481137857; 480937759; 480739001; 480537581; 480336917; 480136567; 479938223; 479737619;
  479539097; 479339183; 479141059; 478942067; 478741559; 478542703; 478340857; 478142449; 477944321; 477743977;
  477546011; 477347399; 477147521; 476947259; 476747641; 476548901; 476348827; 476150273; 475948013; 475750589;
  475551379; 475352797; 475150409; 474949693; 474751171; 474549793; 474348517; 474147491; 473949131; 473748619;
  473548253; 473348831; 473147219; 472948547; 472747463; 472547989; 472347287; 472145659; 471945917; 471748649;
  471548069; 471348961; 471149207; 470950153; 470748791; 470549347; 470351477; 470150717; 469952341; 469751767;
  469551091; 469352539; 469151213; 468950203; 468751051; 468552247; 468353461; 468152129; 467952377; 467754227;
  467555227; 467355353; 467156101; 466955911; 466757003; 466556239; 466357963; 466158311; 465959267; 465760007;
  465561557; 465360937; 465161383; 464962279; 464762321; 464563501; 464362757; 464163571; 463962397; 463764967;
  463564469; 463364893; 463166261; 462966761; 462766189; 462569413; 462372247; 462170981; 461971409; 461772973;
  461573053; 461372407; 461172953; 460973837; 460773757; 460575421; 460375787; 460175531; 459975463; 459775529;
  459576269; 459375529; 459176827; 458978837; 458778251; 458579623; 458378449; 458179201; 457980247; 457780087;
  457579873; 457380149; 457179883; 456978043; 456778277; 456580403; 456382621; 456183779; 455983999; 455784811;
  455587133; 455387473; 455190709; 454989583; 454790839; 454592141; 454393207; 454192829; 453991639; 453792349;
  453594863; 453395477; 453195317; 452997271; 452797781; 452598371; 452398861; 452198111; 451999063; 451798381;
  451599991; 451401329; 451203043; 451003369; 450804311; 450605033; 450406111; 450207323; 450005779; 449805127;
  449607377; 449408263; 449210183; 449009257; 448811263; 448610651; 448410961; 448211779; 448012727; 447814069;
  447614969; 447417629; 447219607; 447018653; 446819507; 446619211; 446420999; 446222983; 446025029; 445823501;
  445625413; 445426213; 445225961; 445026437; 444825617; 444626759; 444429047; 444229369; 444030101; 443829811;
  443630137; 443431517; 443232901; 443033827; 442834741; 442637519; 442437967; 442240273; 442041881; 441842741;
  441643283; 441444281; 441245989; 441046421; 440848217; 440650913; 440452801; 440253907; 440054633; 439853749;
  439654013; 439457189; 439257359; 439056533; 438858703; 438659831; 438462467; 438263159; 438064609; 437865427;
  437666947; 437466863; 437268773; 437068847; 436868449; 436670497; 436471037; 436273589; 436074449; 435875689;
  435675841; 435478531; 435278447; 435078181; 434878967; 434679697; 434481449; 434283781; 434085941; 433886129;
  433689709; 433489633; 433289327; 433091431; 432890333; 432691601; 432492787; 432294497; 432094483; 431894923;
  431696873; 431497559; 431296277; 431098417; 430900109; 430702603; 430503809; 430302787; 430105099; 429906679;
  429707029; 429509417; 429310421; 429109423; 428910857; 428711483; 428511703; 428314927; 428117311; 427918651;
  427719401; 427521481; 427322989; 427123111; 426925133; 426724349; 426525871; 426326893; 426127813; 425928799;
  425728997; 425533403; 425334583; 425135617; 424936537; 424737011; 424541581; 424343551; 424146511; 423946121;
  423748387; 423548303; 423351671; 423152069; 422954933; 422755831; 422557453; 422359213; 422158339; 421960291;
  421763827; 421563733; 421366151; 421167689; 420969389; 420769309; 420572881; 420375001; 420176611; 419976331;
  419776127; 419578361; 419379509; 419179603; 418979641; 418780897; 418582277; 418383109; 418183849; 417986473;
  417785383; 417587249; 417388949; 417191617; 416992963; 416794331; 416597381; 416398579; 416200951; 416001809;
  415803473; 415603697; 415405307; 415207843; 415009589; 414810257; 414610699; 414413353; 414215677; 414018053;
  413818421; 413621567; 413423687; 413225717; 413026183; 412828747; 412631039; 412431941; 412232773; 412034221;
  411835729; 411636413; 411439513; 411240233; 411042397; 410843287; 410646013; 410449189; 410249803; 410050819;
  409853333; 409656281; 409458463; 409258793; 409058711; 408860971; 408664187; 408464179; 408266189; 408065837;
  407867311; 407669081; 407471927; 407271439; 407073881; 406877249; 406679659; 406479001; 406280117; 406082849;
  405884041; 405687781; 405490279; 405291479; 405093827; 404895737; 404697413; 404499299; 404301481; 404102047;
  403904159; 403705843; 403507213; 403310881; 403112621; 402915971; 402715903; 402517751; 402320783; 402121381;
  401923957; 401724599; 401528717; 401332213; 401131697; 400931189; 400733779; 400535969; 400336843; 400139683;
  399941057; 399744157; 399547763; 399350779; 399152113; 398954053; 398755499; 398555467; 398357359; 398159819;
  397961419; 397764043; 397567669; 397369877; 397171807; 396973267; 396774629; 396577301; 396379943; 396181067].

Definition primes_27 : list Z := [
  395980789; 395781667; 395584159; 395385007; 395188181; 394990331; 394794503; 394596827; 394396969; 394198813;
  394002709; 393804911; 393606827; 393408269; 393210053; 393009401; 392811593; 392612743; 392415109; 392218621;
  392022847; 391824457; 391626553; 391429637; 391231889; 391033793; 390835553; 390637921; 390441223; 390241699;
  390042449; 389843183; 389645681; 389447621; 389248823; 389052439; 388855781; 388656199; 388459307; 388259567;
  388061561; 387864629; 387667837; 387469879; 387272381; 387076399; 386878507; 386682287; 386482841; 386284729;
  386088091; 385888673; 385690637; 385492399; 385295177; 385097183; 384897481; 384702599; 384503279; 384303877;
  384105457; 383910119; 383710697; 383513033; 383314843; 383118283; 382920323; 382722091; 382526117; 382327081;
  382131317; 381932543; 381733871; 381536263; 381339001; 381141713; 380943287; 380745119; 380549473; 380353643;
  380155829; 379959787; 379761233; 379564693; 379368433; 379169093; 378972059; 378774973; 378576661; 378379069;
  378181577; 377986579; 377790331; 377593961; 377396317; 377199353; 377001491; 376804807; 376607597; 376412041;
  376214897; 376016687; 375818951; 375622451; 375423943; 375226717; 375030277; 374835067; 374637187; 374441663;
  374245843; 374049421; 373850149; 373652611; 373455721; 373259041; 373061153; 372865313; 372666439; 372467983;
  372269861; 372073027; 371875487; 371679949; 371481403; 371284019; 371087051; 370890119; 370690913; 370493017;
  370294313; 370097443; 369899443; 369703973; 369505193; 369307739; 369109889; 368911969; 368714663; 368517571;
  368320279; 368120243; 367923209; 367726043; 367529347; 367332887; 367135781; 366938617; 366741209; 366543559;
  366347753; 366149503; 365955307; 365756527; 365558581; 365363857; 365166587; 364970513; 364773737; 364575859;
  364377521; 364179511; 363983131; 363785197; 363588817; 363390553; 363195181; 362999201; 362803139; 362604239;
  362406371; 362210389; 362014487; 361815557; 361619017; 361423003; 361226137; 361028461; 360832673; 360635521;
  360439447; 360240187; 360040679; 359842253; 359645311; 359447687; 359249707; 359052313; 358858273; 358661063;
  358463939; 358266409; 358068593; 357872413; 357675007; 357478169; 357280499; 357083897; 356885869; 356688811;
  356492189; 356295151; 356098751; 355901947; 355704463; 355507771; 355309891; 355114247; 354917833; 354720913;
  354523361; 354326381; 354130529; 353933969; 353737781; 353539999; 353342723; 353145461; 352948801; 352753501;
  352555993; 352360607; 352163509; 351967027; 351769367; 351572531; 351374641; 351177149; 350980813; 350785063;
  350585953; 350388953; 350192669; 349996081; 349801069; 349605001; 349408399; 349212121; 349017743; 348820009;
  348624013; 348426301; 348229087; 348031709; 347834699; 347637391; 347439167; 347242471; 347044981; 346849813;
  346652567; 346454621; 346257913; 346061753; 345865753; 345669557; 345473837; 345275929; 345078781; 344882101;
  344684033; 344488973; 344292059; 344097217; 343898977; 343703963; 343508807; 343311377; 343115831; 342919721;
  342722383; 342523879; 342328037; 342131789; 341935313; 341738809; 341541943; 341347519; 341150387; 340953829;
  340757311; 340561127; 340364267; 340168667; 339974029; 339778027; 339582403; 339384623; 339187153; 338991377;
  338796769; 338599637; 338403323; 338206987; 338010899; 337813561; 337615627; 337419529; 337223017; 337028317;
  336830243; 336634169; 336437867; 336240617; 336046489; 335848273; 335650519; 335451937; 335257631; 335061379;
  334866143; 334671119; 334475023; 334278407; 334081999; 333885493; 333689641; 333493817; 333295159; 333099301;
  332902267; 332708333; 332513537; 332317099; 332121589; 331923899; 331726243; 331530721; 331334567; 331139597;
  330943961; 330746777; 330549281; 330353497; 330155801; 329958217; 329761063; 329565997; 329372503; 329175647;
  328979237; 328784177; 328586053; 328389337; 328193059; 327995519; 327800741; 327605669; 327410011; 327213077;
  327017179; 326821853; 326623663; 326428433; 326231999; 326037541; 325842991; 325645601; 325448521; 325253213;
  325057771; 324862957; 324666421; 324471799; 324273199; 324076547; 323881451; 323686007; 323491559; 323294771;
  323098057; 322903201; 322706641; 322510327; 322315337; 322119839; 321923383; 321727409; 321530717; 321333583;
  321137129; 320941081; 320744891; 320551463; 320355521; 320159297; 319962779; 319766467; 319571167; 319375031;
  319180403; 318982711; 318785903; 318589429; 318393197; 318196201; 318000107; 317805539; 317609239; 317414249;
  317218159; 317021557; 316825007; 316630189; 316434571; 316240933; 316042729; 315846803; 315650969; 315456887;
  315260969; 315064801; 314867783; 314671963; 314475647; 314281483; 314084747; 313889507; 313693873; 313499171;
  313301939; 313106369; 312911791; 312714757; 312520513; 312326171; 312130883; 311935249; 311740393; 311544097;
  311348537; 311150603; 310954757; 310760423; 310565063; 310367201; 310172567; 309976889; 309780833; 309585277;
  309390391; 309194843; 308999861; 308803367; 308608061; 308414591; 308219759; 308025181; 307831889; 307635407;
  307438961; 307243633; 307049789; 306853601; 306659321; 306462509; 306268327; 306071489; 305877857; 305682331;
  305488069; 305293357; 305095501; 304900741; 304706543; 304511563; 304317733; 304123049; 303926687; 303730639;
  303533579; 303337841; 303142717; 302947639; 302751403; 302556227; 302360789; 302164789; 301969669; 301774477;
  301578371; 301384009; 301189789; 300993977; 300799193; 300604537; 300409147; 300214097; 300018991; 299824153;
  299630267; 299435627; 299240393; 299045213; 298849277; 298652239; 298456597; 298263409; 298066163; 297872719].

Definition primes_28 : list Z := [
  297677909; 297481843; 297285559; 297091783; 296897011; 296700601; 296505931; 296311601; 296116567; 295921999;
  295726633; 295531559; 295336793; 295140841; 294942679; 294748271; 294553247; 294359101; 294165023; 293968579;
  293776391; 293581697; 293386861; 293190439; 292996973; 292800799; 292605169; 292409519; 292215767; 292021063;
  291827639; 291633949; 291437387; 291242587; 291048767; 290854877; 290661247; 290463907; 290269211; 290071961;
  289876151; 289683391; 289489001; 289295263; 289099033; 288904207; 288709153; 288515441; 288322451; 288125489;
  287931167; 287736619; 287540761; 287346179; 287151391; 286959503; 286764607; 286568573; 286374031; 286178987;
  285983519; 285789107; 285594181; 285399307; 285205703; 285008237; 284812981; 284618359; 284422013; 284227513;
  284032559; 283836739; 283642439; 283449623; 283255697; 283058701; 282864317; 282669041; 282475181; 282280811;
  282085339; 281889917; 281695201; 281500633; 281306489; 281113423; 280918579; 280723097; 280528693; 280334149;
  280141241; 279946393; 279751027; 279560293; 279365003; 279170747; 278975017; 278780989; 278585389; 278389271;
  278195611; 278001011; 277805389; 277611193; 277419089; 277225111; 277029673; 276835171; 276644429; 276448457;
  276252617; 276058423; 275863681; 275669291; 275475751; 275281729; 275088881; 274894013; 274697779; 274504193;
  274310441; 274117891; 273924907; 273730747; 273535697; 273342491; 273147961; 272953697; 272758777; 272564821;
  272371163; 272178229; 271982563; 271787753; 271595333; 271400323; 271206511; 271009061; 270814079; 270619381;
  270427243; 270232243; 270036869; 269844067; 269647501; 269451593; 269257223; 269063869; 268870291; 268676921;
  268483349; 268290353; 268094273; 267900641; 267707107; 267513931; 267318967; 267123811; 266929331; 266735921;
  266541529; 266344789; 266149801; 265955761; 265762681; 265568717; 265376333; 265184369; 264990793; 264798371;
  264604061; 264408223; 264215219; 264021649; 263825923; 263631391; 263435899; 263239267; 263046703; 262852531;
  262658387; 262464793; 262271809; 262080089; 261886379; 261692357; 261498031; 261306077; 261112427; 260918267;
  260725741; 260532791; 260338409; 260144699; 259950673; 259756537; 259560409; 259367083; 259174913; 258980681;
  258786469; 258593123; 258399347; 258205139; 258011459; 257818237; 257623973; 257431091; 257237641; 257044279;
  256853161; 256658621; 256462571; 256266811; 256073957; 255879553; 255687011; 255493417; 255301757; 255107311;
  254913271; 254719727; 254527073; 254334673; 254141203; 253946449; 253754503; 253559893; 253366097; 253173623;
  252979483; 252786907; 252591419; 252398903; 252204389; 252012149; 251819627; 251622391; 251429363; 251237071;
  251043629; 250851683; 250658201; 250465169; 250271443; 250077787; 249883757; 249690719; 249497777; 249303823;
  249110591; 248917909; 248722577; 248531111; 248338187; 248146201; 247953331; 247759651; 247565719; 247371941;
  247179193; 246985139; 246791761; 246598217; 246406241; 246212237; 246018317; 245824157; 245630933; 245437499;
  245244113; 245050829; 244859389; 244669351; 244476997; 244284641; 244092203; 243896459; 243703637; 243509891;
  243316207; 243123827; 242930803; 242737823; 242542541; 242349871; 242155003; 241962229; 241768279; 241573951;
  241381463; 241187647; 240994267; 240802189; 240609661; 240417691; 240225439; 240033793; 239840473; 239647459;
  239455163; 239262083; 239068651; 238874029; 238681423; 238488847; 238295927; 238103737; 237912613; 237719497;
  237528143; 237335599; 237142793; 236950423; 236759689; 236566277; 236372723; 236180239; 235988591; 235796063;
  235601153; 235409131; 235218167; 235025429; 234833069; 234642053; 234449203; 234255401; 234063703; 233870243;
  233675419; 233483567; 233289703; 233095871; 232901521; 232711207; 232517699; 232323913; 232130593; 231937631;
  231744913; 231553181; 231360061; 231167999; 230975573; 230782369; 230591323; 230400697; 230206813; 230014139;
  229822447; 229631383; 229437889; 229244651; 229050709; 228859753; 228667319; 228474931; 228283373; 228091951;
  227898883; 227705561; 227510263; 227318057; 227125973; 226933331; 226741129; 226549201; 226356973; 226164139;
  225972629; 225781723; 225588239; 225395087; 225201127; 225008657; 224817499; 224623351; 224430487; 224238809;
  224047783; 223854737; 223660903; 223470251; 223278821; 223088597; 222898021; 222703603; 222513397; 222320779;
  222128581; 221936789; 221745649; 221553767; 221359997; 221169271; 220977649; 220785023; 220592791; 220400603;
  220207301; 220014643; 219822851; 219630181; 219437957; 219245029; 219053453; 218861609; 218669813; 218477293;
  218283259; 218092937; 217902037; 217708723; 217515989; 217323787; 217133011; 216939881; 216748201; 216554441;
  216362941; 216171331; 215979851; 215787829; 215595199; 215402939; 215211307; 215019767; 214829773; 214638997;
  214447763; 214255211; 214063807; 213871681; 213679183; 213484949; 213293911; 213101849; 212911249; 212719163;
  212526101; 212335061; 212143537; 211951819; 211758037; 211566871; 211375777; 211184881; 210993641; 210801817;
  210609337; 210416527; 210224867; 210032651; 209840663; 209650703; 209460331; 209269979; 209078249; 208885571;
  208694699; 208503187; 208309727; 208118389; 207925591; 207734029; 207542903; 207352543; 207161509; 206968849;
  206778353; 206587259; 206395493; 206205443; 206012971; 205821611; 205629667; 205438339; 205246957; 205056107;
  204863557; 204673607; 204481997; 204291247; 204098737; 203907721; 203717797; 203524921; 203334251; 203142649;
  202952569; 202762199; 202569253; 202376893; 202185367; 201993299; 201804233; 201612913; 201420629; 201230069].

Definition primes_29 : list Z := [
  201038863; 200847253; 200655667; 200466187; 200271727; 200082481; 199893791; 199701701; 199509859; 199319431;
  199128547; 198937253; 198745559; 198554557; 198365039; 198174583; 197981587; 197790517; 197598103; 197405587;
  197214601; 197022479; 196832221; 196641343; 196450417; 196258003; 196065559; 195875749; 195684091; 195493957;
  195301861; 195110033; 194920021; 194730253; 194538937; 194348221; 194157839; 193967047; 193777123; 193586951;
  193397299; 193205863; 193014079; 192823493; 192634577; 192444121; 192253307; 192063899; 191872073; 191680613;
  191488183; 191296309; 191105209; 190913759; 190722271; 190531303; 190340209; 190148869; 189959467; 189768749;
  189578791; 189386867; 189195871; 189006953; 188817067; 188626177; 188434369; 188243597; 188051989; 187862693;
  187672487; 187479947; 187290289; 187101599; 186909721; 186718979; 186529927; 186340093; 186149101; 185957879;
  185767973; 185576759; 185386519; 185196007; 185006201; 184815809; 184626997; 184437511; 184248707; 184057999;
  183868519; 183677189; 183489073; 183299393; 183108421; 182919001; 182726549; 182535739; 182343781; 182154179;
  181962689; 181771903; 181582549; 181390861; 181200457; 181010399; 180818789; 180628141; 180437107; 180246329;
  180056753; 179865403; 179677123; 179488103; 179298667; 179108591; 178917853; 178729183; 178538917; 178348147;
  178156337; 177967877; 177779429; 177589199; 177399011; 177208567; 177020047; 176829997; 176641147; 176450971;
  176261209; 176070889; 175881457; 175690829; 175501171; 175312391; 175124483; 174934229; 174744569; 174553387;
  174362887; 174173123; 173984141; 173793853; 173603611; 173414587; 173225827; 173036407; 172846613; 172655837;
  172466647; 172276381; 172087627; 171897619; 171708997; 171518131; 171328837; 171140153; 170951563; 170762941;
  170571809; 170381957; 170191919; 170004691; 169814977; 169624019; 169434773; 169248449; 169058089; 168869417;
  168679261; 168490577; 168301619; 168112519; 167921771; 167733523; 167543461; 167355193; 167165281; 166977197;
  166787039; 166597537; 166409207; 166221217; 166031297; 165842861; 165653129; 165462509; 165272743; 165083201;
  164893327; 164702893; 164514887; 164325341; 164135749; 163945493; 163758097; 163569001; 163380533; 163193077;
  163003367; 162815113; 162625381; 162435659; 162247079; 162058889; 161868769; 161679187; 161490583; 161299297;
  161109331; 160920703; 160733017; 160544453; 160355989; 160166753; 159978367; 159790819; 159601727; 159412639;
  159223517; 159034937; 158847659; 158657761; 158466983; 158277827; 158087929; 157899923; 157711129; 157521739;
  157333247; 157144913; 156955559; 156766583; 156578579; 156389789; 156200969; 156012877; 155824663; 155635999;
  155449181; 155259329; 155071097; 154882151; 154692103; 154504913; 154316737; 154127989; 153937877; 153750617;
  153563087; 153374737; 153184901; 152998253; 152808611; 152622137; 152433731; 152244559; 152054831; 151864819;
  151676659; 151488713; 151299593; 151112447; 150922319; 150734347; 150543803; 150355943; 150167639; 149979413;
  149790647; 149602613; 149414519; 149226059; 149036633; 148848053; 148660459; 148473037; 148284233; 148095697;
  147908051; 147719849; 147530927; 147342497; 147154583; 146967131; 146779973; 146592161; 146404283; 146215987;
  146028829; 145840997; 145653953; 145465849; 145277879; 145088759; 144900647; 144710743; 144522883; 144335641;
  144148133; 143960009; 143772731; 143584663; 143397817; 143211583; 143023403; 142836769; 142649069; 142460501;
  142273903; 142086817; 141901079; 141713353; 141526009; 141337631; 141150731; 140963029; 140773079; 140585771;
  140397097; 140208613; 140020883; 139833637; 139647301; 139459559; 139273223; 139084727; 138896581; 138710941;
  138523223; 138335569; 138146971; 137958407; 137770219; 137581757; 137396477; 137209543; 137020991; 136832713;
  136645373; 136459727; 136273777; 136085947; 135898517; 135710527; 135521381; 135334181; 135146093; 134959613;
  134773459; 134586799; 134399621; 134213483; 134026553; 133838149; 133651027; 133462151; 133276543; 133087957;
  132901367; 132714497; 132526507; 132339761; 132152729; 131965111; 131777039; 131591081; 131403011; 131217089;
  131030267; 130844327; 130658131; 130471373; 130284131; 130096721; 129908039; 129720413; 129533941; 129348269;
  129161959; 128974297; 128787667; 128603047; 128417117; 128229061; 128042461; 127856539; 127670819; 127482731;
  127296359; 127108343; 126923837; 126736237; 126549919; 126363241; 126176537; 125990521; 125804839; 125619577;
  125431459; 125245501; 125059483; 124873351; 124686977; 124499801; 124313051; 124128931; 123941581; 123756023;
  123570427; 123384229; 123198661; 123012431; 122825713; 122640377; 122453621; 122265487; 122079197; 121893817;
  121707613; 121521013; 121334561; 121148387; 120964253; 120777233; 120590153; 120403117; 120216113; 120030817;
  119846431; 119659843; 119473723; 119288087; 119101837; 118913621; 118726159; 118540469; 118355789; 118168691;
  117983309; 117797447; 117610693; 117426377; 117239467; 117053617; 116868613; 116680763; 116495963; 116310731;
  116124461; 115940059; 115755071; 115570151; 115383889; 115197619; 115012217; 114826507; 114639611; 114453901;
  114268459; 114083461; 113896997; 113710601; 113523551; 113337607; 113151163; 112968187; 112781413; 112597567;
  112410863; 112224869; 112041313; 111856057; 111671939; 111485417; 111300359; 111113659; 110927723; 110742817;
  110558197; 110373097; 110185429; 110000207; 109816123; 109631227; 109445953; 109261027; 109076729; 108891301;
  108706319; 108520781; 108338011; 108154273; 107969483; 107783167; 107599229; 107414033; 107229569; 107045951].

Definition primes_30 : list Z := [
  106860881; 106674979; 106491023; 106305917; 106121371; 105936421; 105751201; 105566597; 105380491; 105195661;
  105011527; 104826877; 104640791; 104456647; 104271161; 104088581; 103905899; 103720889; 103535363; 103351607;
  103166803; 102982193; 102797509; 102611801; 102428533; 102245177; 102061153; 101878417; 101693441; 101508191;
  101324557; 101140019; 100957291; 100772813; 100587523; 100402817; 100217561; 100034317; 99851249; 99665549;
  99482633; 99298943; 99112829; 98929081; 98743261; 98558099; 98374879; 98191759; 98006033; 97821839;
  97638559; 97456841; 97272631; 97087433; 96904513; 96719809; 96537893; 96353401; 96168011; 95983787;
  95801747; 95616853; 95433263; 95249807; 95066039; 94883111; 94700833; 94516717; 94333933; 94149721;
  93966659; 93784181; 93599687; 93415661; 93232427; 93049301; 92863711; 92681111; 92497303; 92313943;
  92129753; 91947211; 91761893; 91580219; 91395749; 91213127; 91030321; 90846887; 90664879; 90480161;
  90297667; 90115583; 89933297; 89749379; 89564353; 89380243; 89196911; 89014231; 88831753; 88648711;
  88464433; 88281301; 88099309; 87918041; 87735311; 87551473; 87368143; 87185521; 87002527; 86819059;
  86635727; 86454139; 86271967; 86087539; 85905473; 85723789; 85539823; 85358417; 85175957; 84992489;
  84809147; 84626603; 84444043; 84260999; 84077507; 83895419; 83714789; 83531321; 83348579; 83165221;
  82982057; 82800373; 82619401; 82436671; 82253887; 82070687; 81889261; 81706409; 81524419; 81342557;
  81159839; 80980007; 80798779; 80617753; 80435371; 80253763; 80072779; 79888511; 79706771; 79525021;
  79343701; 79161149; 78979279; 78796441; 78615211; 78433877; 78250223; 78068383; 77887133; 77705807;
  77523223; 77341399; 77159333; 76977959; 76797257; 76614667; 76431583; 76249919; 76067633; 75886747;
  75706193; 75523937; 75343739; 75163607; 74982307; 74800723; 74619133; 74438183; 74256739; 74075017;
  73892317; 73710739; 73531123; 73349173; 73168181; 72986443; 72806519; 72624863; 72443671; 72262847;
  72083749; 71902819; 71721367; 71540317; 71360867; 71180273; 70999073; 70818323; 70636019; 70455323;
  70275589; 70095271; 69913423; 69732599; 69552737; 69373621; 69192857; 69011251; 68831857; 68650541;
  68469409; 68288557; 68108351; 67927511; 67746827; 67567627; 67387867; 67208347; 67028069; 66848311;
  66666751; 66487507; 66307727; 66128837; 65950439; 65770451; 65589409; 65410649; 65230259; 65049041;
  64870343; 64688747; 64507787; 64327903; 64147561; 63968063; 63789757; 63610199; 63430931; 63251467;
  63071809; 62892839; 62713073; 62532517; 62352571; 62173597; 61994887; 61815977; 61636231; 61456183;
  61275419; 61094951; 60915853; 60737837; 60559241; 60379751; 60201523; 60021539; 59841973; 59663497;
  59484767; 59305187; 59125333; 58945219; 58767607; 58589033; 58410523; 58231967; 58052879; 57873817;
  57694499; 57514829; 57335981; 57158411; 56980423; 56800753; 56624527; 56446043; 56266219; 56088649;
  55910791; 55732351; 55555231; 55376369; 55197721; 55019897; 54841331; 54662059; 54485107; 54306403;
  54126781; 53949167; 53770853; 53593171; 53413639; 53235829; 53058007; 52880033; 52702613; 52525171;
  52347107; 52168973; 51990767; 51813187; 51636499; 51458861; 51281453; 51104257; 50925361; 50748149;
  50570687; 50394067; 50216953; 50039263; 49861883; 49684643; 49508111; 49332421; 49155797; 48978451;
  48802009; 48623479; 48446927; 48269713; 48092383; 47913799; 47737211; 47559517; 47382877; 47205551;
  47028899; 46852483; 46675831; 46499939; 46323493; 46146389; 45969251; 45792757; 45616187; 45441163;
  45266317; 45089893; 44914523; 44738009; 44563219; 44387113; 44210707; 44034449; 43858921; 43682351;
  43505453; 43330681; 43154911; 42978773; 42801313; 42625673; 42449963; 42274433; 42100169; 41923451;
  41748299; 41572033; 41396093; 41219881; 41044891; 40868299; 40695289; 40518707; 40343419; 40168781;
  39994211; 39817907; 39642653; 39468991; 39294637; 39120883; 38945273; 38772131; 38597917; 38422801;
  38249219; 38075273; 37901167; 37725713; 37551001; 37377479; 37201921; 37029367; 36854551; 36679801;
  36505093; 36330773; 36157423; 35984339; 35809141; 35635627; 35461177; 35287939; 35114207; 34939903;
  34767391; 34591933; 34418939; 34244071; 34069129; 33893689; 33721511; 33548077; 33374401; 33202313;
  33028577; 32856277; 32682743; 32509907; 32337311; 32163991; 31991731; 31819127; 31646471; 31473479;
  31300459; 31127519; 30953453; 30781319; 30609311; 30437177; 30265159; 30092813; 29922733; 29750759;
  29579519; 29406439; 29235953; 29062879; 28890787; 28718537; 28546591; 28374859; 28204291; 28031611;
  27861667; 27689833; 27518653; 27347557; 27174779; 27004343; 26834293; 26662327; 26491921; 26321989;
  26150171; 25979521; 25809083; 25638607; 25468039; 25298069; 25124909; 24955681; 24783713; 24614839;
  24444313; 24274847; 24105251; 23935453; 23765431; 23595163; 23425559; 23256053; 23085833; 22916461;
  22747187; 22578419; 22409393; 22239713; 22068143; 21900377; 21731779; 21563219; 21394229; 21226157;
  21056153; 20887649; 20718781; 20551697; 20382253; 20213983; 20045197; 19878041; 19710289; 19541903;
  19374079; 19206023; 19038311; 18870161; 18703387; 18536303; 18368221; 18201941; 18033391; 17866619].

Definition primes_31 : list Z := [
  17699107; 17532169; 17366749; 17201039; 17032781; 16867867; 16702099; 16535639; 16369853; 16203367;
  16036523; 15870383; 15705071; 15539987; 15374041; 15208997; 15042919; 14876951; 14712427; 14547283;
  14382007; 14218571; 14053619; 13887953; 13724233; 13560847; 13395559; 13231343; 13067423; 12902137;
  12738433; 12575881; 12411409; 12249493; 12086059; 11923057; 11760059; 11597701; 11435887; 11272697;
  11109827; 10947941; 10786267; 10624787; 10463443; 10302407; 10140307; 9979111; 9817057; 9655759;
  9495601; 9334487; 9174793; 9014101; 8853359; 8693653; 8534489; 8375273; 8215633; 8056423;
  7896949; 7738559; 7580459; 7421383; 7263143; 7104341; 6947753; 6791437; 6633877; 6477301;
  6319483; 6163567; 6007247; 5851717; 5695831; 5539363; 5383601; 5229331; 5074633; 4920613;
  4766999; 4613237; 4459951; 4307453; 4154791; 4002547; 3849943; 3698881; 3548471; 3396661;
  3246119; 3097141; 2948161; 2799451; 2650931; 2503597; 2356573; 2209499; 2063573; 1918439;
  1774937; 1630987; 1488133; 1346567; 1205653; 1066909; 927853; 791447; 656683; 523417;
  393073; 266083; 143687].

Definition _prime_list : list Z :=
  primes_0 ++ primes_1 ++ primes_2 ++ primes_3 ++ primes_4 ++ primes_5 ++
  primes_6 ++ primes_7 ++ primes_8 ++ primes_9 ++ primes_10 ++ primes_11 ++
  primes_12 ++ primes_13 ++ primes_14 ++ primes_15 ++ primes_16 ++ primes_17 ++
  primes_18 ++ primes_19 ++ primes_20 ++ primes_21 ++ primes_22 ++ primes_23 ++
  primes_24 ++ primes_25 ++ primes_26 ++ primes_27 ++ primes_28 ++ primes_29 ++
  primes_30 ++ primes_31.

(** The length, the parity and the order of the numbers. *)
Fixpoint decreasing (b : Z) (l : list Z) : bool :=
  match l with
  | [] => true
  | p :: l => (0 <? p) && (p <? b) && Z.odd p && decreasing p l
  end.

Lemma prime_list_length : Z.of_nat (length _prime_list) = 15613.
Proof. vm_compute. reflexivity. Qed.

Lemma prime_list_decreasing : decreasing (2 ^ 32) _prime_list = true.
Proof. vm_compute. reflexivity. Qed.

Lemma decreasing_spec l : forall b, decreasing b l = true -> Forall (fun p => 0 < p < b /\ Z.odd p = true) l /\ NoDup l.
Proof.
  induction l as [|p l IH]; intros b H; [split; constructor|]. cbn in H. apply andb_prop in H as [[[H0 Hp]%andb_prop Ho]%andb_prop H].
  apply Z.ltb_lt in Hp, H0. destruct (IH p H) as [Hf Hn]. split.
  - constructor; [done|]. eapply Forall_impl; [exact Hf|]. cbn. intros x [? ?]. split; [lia|done].
  - constructor; [|done]. intros Hi. rewrite Forall_forall in Hf. destruct (Hf p Hi) as [? _]. lia.
Qed.

Lemma prime_list_ok i p : _prime_list !! i = Some p -> 0 < p < 2 ^ 32 /\ Z.odd p = true.
Proof. intros Hi. destruct (decreasing_spec _ _ prime_list_decreasing) as [Hf _]. rewrite Forall_lookup in Hf. by apply (Hf i). Qed.
