(* ===== verification/Random.v ===== *)
(** * Random: random number streams (random.c)

    Linear congruential generators modulo 2^64 whose state and multiplier are
    kept in three doubles of 22, 22 and 20 bits.  All arithmetic is that of
    IEEE doubles; a conversion to [int] out of the range of [int] is not
    defined by C, and neither is an index outside of a table: both are
    [Aborted] outcomes. *)

From S2P Require Import Prelude Double PrimeList.
From Corelib Require Import SpecFloat.
#[local] Open Scope Z_scope.

Definition MAX_STREAMS : Z := 15613.

Definition _PARAMLIST : list (Z * Z) :=
  [(0x87b0b0fd, 0x27bb2ee6); (0xe78b6955, 0x2c6fe96e); (0x31a53f85, 0x369dea0f)].

Definition INIT_SEED1 : Z := 0x2bc6ffff.
Definition INIT_SEED0 : Z := 0x8cfe166d.

(** A decimal literal [digits * 10^-scale] is the double nearest to it. *)
Definition decimal (digits scale : Z) : double :=
  let '(m, e, l) := SFdiv_core_binary 53 1024 digits 0 (10 ^ scale) 0 in
  binary_round_aux 53 1024 false m e l.

Definition TWO_M22 : double := decimal 2384185791015625 22.
Definition TWO_P22 : Z := 4194304.
Definition TWO_M20 : double := decimal 95367431640625 20.
Definition TWO_P20 : Z := 1048576.
Definition TWO_M42 : double := decimal 2273736754432321 28.
Definition TWO_M64 : double := decimal 54210108624275222 36.

Record CrnStream := mk_stream {
  prime : Z;
  state0 : double; state1 : double; state2 : double;
  multiplier0 : double; multiplier1 : double; multiplier2 : double
}.

(** [(int) d] *)
Definition d_to_int (d : double) : outcome Z :=
  match d with
  | S754_zero _ | S754_finite _ _ _ =>
      let z := d_to_Z d in
      if (- 2 ^ 31 <=? z) && (z <? 2 ^ 31) then Normal z else Aborted
  | _ => Aborted
  end.

Definition advance_state (g : CrnStream) : outcome CrnStream :=
  let t0 := dadd (dmul (state0 g) (multiplier0 g)) (d_of_Z (prime g)) in
  i ← d_to_int (dmul t0 TWO_M22);
  let t1 := d_of_Z i in
  let st0 := dsub t0 (dmul (d_of_Z TWO_P22) t1) in
  let t1 := dadd t1 (dadd (dmul (state1 g) (multiplier0 g)) (dmul (state0 g) (multiplier1 g))) in
  i ← d_to_int (dmul t1 TWO_M22);
  let t2 := d_of_Z i in
  let st1 := dsub t1 (dmul (d_of_Z TWO_P22) t2) in
  let t2 := dadd t2 (dadd (dadd (dmul (state2 g) (multiplier0 g)) (dmul (state1 g) (multiplier1 g))) (dmul (state0 g) (multiplier2 g))) in
  i ← d_to_int (dmul t2 TWO_M20);
  let t3 := d_of_Z i in
  let st2 := dsub t2 (dmul (d_of_Z TWO_P20) t3) in
  Normal (mk_stream (prime g) st0 st1 st2 (multiplier0 g) (multiplier1 g) (multiplier2 g)).

Definition CrnDouble (g : CrnStream) : outcome (CrnStream * double) :=
  g ← advance_state g;
  Normal (g, dadd (dadd (dmul (state2 g) TWO_M20) (dmul (state1 g) TWO_M42)) (dmul (state0 g) TWO_M64)).

Definition CrnInt (g : CrnStream) : outcome (CrnStream * Z) :=
  '(g, d) ← CrnDouble g;
  i ← d_to_int (dmul d (d_of_Z 0x80000000));
  Normal (g, i).

(** [(float) d]: rounded to 24 bits. *)
Definition float_of_double (d : double) : spec_float :=
  match d with
  | S754_finite s m e => binary_round 24 128 s m e
  | d => d
  end.

Definition CrnFloat (g : CrnStream) : outcome (CrnStream * spec_float) :=
  '(g, d) ← CrnDouble g;
  Normal (g, float_of_double d).

(** [n] calls of [CrnDouble] whose results are not used. *)
Fixpoint crn_calls (n : nat) (g : CrnStream) : outcome CrnStream :=
  match n with
  | O => Normal g
  | S n => '(g, _) ← CrnDouble g; crn_calls n g
  end.

(** The state of a processor: the number of streams and the default stream. *)
Record crn_state := mk_crn { nstreams : Z; _defaultStream : CrnStream }.

Section random.
Variable CmiNumPes : Z.

(** The stream before the first 1000 numbers are skipped. *)
Definition fresh_stream (nstreams seed type : Z) : outcome CrnStream :=
  let gennum := u32 (seed + nstreams * CmiNumPes) in
  match _prime_list !! Z.to_nat (gennum mod MAX_STREAMS), _PARAMLIST !! Z.to_nat type with
  | Some p, Some (par0, par1) =>
      if type <? 0 then Aborted
      else
        let seed0 := Z.lxor INIT_SEED0 gennum in
        let seed1 := Z.lxor INIT_SEED1 (u32 (Z.shiftl seed 1)) in
        Normal (mk_stream p
          (d_of_Z (Z.land seed0 0x3fffff))
          (d_of_Z (Z.lor (Z.shiftr seed0 22) (u32 (Z.shiftl (Z.land seed1 0xfff) 10))))
          (d_of_Z (Z.shiftr seed1 12))
          (d_of_Z (Z.land par0 0x3fffff))
          (d_of_Z (Z.lor (Z.shiftr par0 22) (u32 (Z.shiftl (Z.land par1 0xfff) 10))))
          (d_of_Z (Z.shiftr par1 12)))
  | _, _ => Aborted
  end.

(** [CrnInitStream]: the stream and the new number of streams. *)
Definition CrnInitStream (nstreams seed type : Z) : outcome (CrnStream * Z) :=
  g ← fresh_stream nstreams seed type;
  g ← crn_calls 1000 g;
  Normal (g, nstreams + 1).

Definition CrnInit : outcome crn_state :=
  '(g, n) ← CrnInitStream 0 0 0;
  Normal (mk_crn n g).

Definition CrnSrand (seed : Z) (s : crn_state) : outcome crn_state :=
  '(g, n) ← CrnInitStream (nstreams s) seed 0;
  Normal (mk_crn n g).

Definition CrnRand (s : crn_state) : outcome (crn_state * Z) :=
  '(g, i) ← CrnInt (_defaultStream s);
  Normal (mk_crn (nstreams s) g, i).

Definition CrnDrand (s : crn_state) : outcome (crn_state * double) :=
  '(g, d) ← CrnDouble (_defaultStream s);
  Normal (mk_crn (nstreams s) g, d).

End random.

(** ** The reference: a linear congruential generator modulo 2^64 *)

Definition lcg (a c x : Z) : Z := u64 (a * x + c).

(** The number that the three doubles stand for. *)
Definition value (a b c : Z) : Z := a + 2 ^ 22 * b + 2 ^ 44 * c.

(** A stream with increment [p] that stands for state [x] and multiplier [a]. *)
Definition stream_of (p x a : Z) : CrnStream :=
  mk_stream p
    (d_of_Z (x mod 2 ^ 22)) (d_of_Z (x / 2 ^ 22 mod 2 ^ 22)) (d_of_Z (x / 2 ^ 44))
    (d_of_Z (a mod 2 ^ 22)) (d_of_Z (a / 2 ^ 22 mod 2 ^ 22)) (d_of_Z (a / 2 ^ 44)).
