(* ===== verification/RandomFacts.v ===== *)
(** * RandomFacts: the random number streams

    The arithmetic on doubles is exact: a stream is a linear congruential
    generator modulo 2^64, every stream has the full period of 2^64, and
    what a call returns is its state rounded to a double. *)

From S2P Require Import Prelude Double DoubleFacts PrimeList Random.
From Corelib Require Import SpecFloat.
#[local] Open Scope Z_scope.

(** ** Integer arithmetic in doubles *)

Lemma two_m22 : TWO_M22 = dbl 1 (-22). Proof. vm_compute. reflexivity. Qed.
Lemma two_m20 : TWO_M20 = dbl 1 (-20). Proof. vm_compute. reflexivity. Qed.
Lemma two_m42 : TWO_M42 = dbl (2 ^ 52 + 1) (-94). Proof. vm_compute. reflexivity. Qed.
Lemma two_m64 : TWO_M64 = dbl 1 (-64). Proof. vm_compute. reflexivity. Qed.

Lemma dmul_Z u v : 0 <= u < 2 ^ 53 -> 0 <= v < 2 ^ 53 -> dmul (d_of_Z u) (d_of_Z v) = d_of_Z (u * v).
Proof. intros Hu Hv. exact (dmul_dbl u 0 v 0 Hu Hv ltac:(lia) ltac:(lia)). Qed.

Lemma dadd_Z u v : 0 <= u < 2 ^ 53 -> 0 <= v < 2 ^ 53 -> dadd (d_of_Z u) (d_of_Z v) = d_of_Z (u + v).
Proof.
  intros Hu Hv. pose proof (dadd_dbl u 0 v 0 0 Hu Hv ltac:(lia) ltac:(lia) ltac:(lia) ltac:(lia)) as H.
  change (2 ^ (0 - 0)) with 1 in H. by rewrite !Z.mul_1_r in H.
Qed.

Lemma dsub_Z u v : 0 <= v <= u -> u < 2 ^ 53 -> dsub (d_of_Z u) (d_of_Z v) = d_of_Z (u - v).
Proof. intros Hv Hu. exact (dsub_dbl u v 0 Hv Hu ltac:(lia)). Qed.

Lemma d_to_int_dbl m e : 0 <= m < 2 ^ 53 -> -400 <= e <= 0 -> m / 2 ^ (- e) < 2 ^ 31 -> d_to_int (dbl m e) = Normal (m / 2 ^ (- e)).
Proof.
  intros Hm He Hr. assert (d_to_Z (dbl m e) = m / 2 ^ (- e)) as Hz.
  { rewrite d_to_Z_dbl by lia. destruct (Z.leb_spec 0 e); [|done]. replace e with 0 by lia. change (2 ^ 0) with 1. change (2 ^ (- 0)) with 1. by rewrite Z.div_1_r, Z.mul_1_r. }
  assert (0 <= m / 2 ^ (- e)) by (apply Z.div_pos; lia).
  assert (forall s p x, dbl m e = S754_finite s p x \/ dbl m e = S754_zero s -> d_to_int (dbl m e) = Normal (m / 2 ^ (- e))) as H'.
  { intros s p x [E|E]; unfold d_to_int; rewrite Hz, E, (proj2 (Z.leb_le _ _)), (proj2 (Z.ltb_lt _ _)) by lia; done. }
  destruct (decide (m = 0)) as [->|]; [by apply (H' false xH 0); right|]. eapply H'. left. apply dbl_exact; lia.
Qed.

(** The integer part after scaling by a power of two. *)
Lemma scale_int u k c : c = dbl 1 (- k) -> 0 <= k <= 64 -> 0 <= u < 2 ^ 53 -> u / 2 ^ k < 2 ^ 31 -> d_to_int (dmul (d_of_Z u) c) = Normal (u / 2 ^ k).
Proof.
  intros -> Hk Hu Hr. change (d_of_Z u) with (dbl u 0). rewrite dmul_dbl by lia. rewrite Z.mul_1_r, Z.add_0_l. rewrite d_to_int_dbl; rewrite ?Z.opp_involutive; done || lia.
Qed.

(** ** One step *)

Lemma mul_below a b A B : 0 <= a < A -> 0 <= b < B -> 0 <= a * b < A * B.
Proof. nia. Qed.

Lemma advance_lcg p x a : 0 <= p < 2 ^ 32 -> 0 <= x < 2 ^ 64 -> 0 <= a < 2 ^ 64 ->
  advance_state (stream_of p x a) = Normal (stream_of p (lcg a p x) a).
Proof.
  intros Hp Hx Ha. unfold advance_state, stream_of. cbn [prime state0 state1 state2 multiplier0 multiplier1 multiplier2].
  set (s0 := x mod 2 ^ 22). set (s1 := x / 2 ^ 22 mod 2 ^ 22). set (s2 := x / 2 ^ 44).
  set (m0 := a mod 2 ^ 22). set (m1 := a / 2 ^ 22 mod 2 ^ 22). set (m2 := a / 2 ^ 44).
  assert (0 <= s0 < 2 ^ 22 /\ 0 <= s1 < 2 ^ 22 /\ 0 <= s2 < 2 ^ 20 /\ x = value s0 s1 s2) as (H0 & H1 & H2 & Ex)
    by (unfold s0, s1, s2, value; Z.div_mod_to_equations; lia).
  assert (0 <= m0 < 2 ^ 22 /\ 0 <= m1 < 2 ^ 22 /\ 0 <= m2 < 2 ^ 20 /\ a = value m0 m1 m2) as (K0 & K1 & K2 & Ea)
    by (unfold m0, m1, m2, value; Z.div_mod_to_equations; lia).
  pose proof (mul_below s0 m0 _ _ H0 K0). pose proof (mul_below s1 m0 _ _ H1 K0). pose proof (mul_below s0 m1 _ _ H0 K1).
  pose proof (mul_below s2 m0 _ _ H2 K0). pose proof (mul_below s1 m1 _ _ H1 K1). pose proof (mul_below s0 m2 _ _ H0 K2).
  set (T0 := s0 * m0 + p). set (T1 := T0 / 2 ^ 22 + (s1 * m0 + s0 * m1)). set (T2 := T1 / 2 ^ 22 + (s2 * m0 + s1 * m1 + s0 * m2)).
  assert (0 <= T0 / 2 ^ 22 < 2 ^ 23) by (unfold T0; Z.div_mod_to_equations; lia).
  assert (0 <= T1 / 2 ^ 22 < 2 ^ 24) by (unfold T1; Z.div_mod_to_equations; lia).
  assert (0 <= T2 / 2 ^ 20 < 2 ^ 26) by (unfold T2; Z.div_mod_to_equations; lia).
  rewrite (dmul_Z s0 m0), dadd_Z by lia. fold T0. rewrite (scale_int T0 22 _ two_m22) by lia. cbn [mbind outcome_bind].
  unfold TWO_P22. rewrite (dmul_Z _ (T0 / 2 ^ 22)), dsub_Z by (Z.div_mod_to_equations; lia).
  rewrite (dmul_Z s1 m0), (dmul_Z s0 m1), (dadd_Z (s1 * m0)), dadd_Z by lia. fold T1. rewrite (scale_int T1 22 _ two_m22) by lia. cbn [mbind outcome_bind].
  rewrite (dmul_Z _ (T1 / 2 ^ 22)), dsub_Z by (Z.div_mod_to_equations; lia).
  rewrite (dmul_Z s2 m0), (dmul_Z s1 m1), (dmul_Z s0 m2), (dadd_Z (s2 * m0)), (dadd_Z (s2 * m0 + s1 * m1)), dadd_Z by lia. fold T2.
  rewrite (scale_int T2 20 _ two_m20) by lia. cbn [mbind outcome_bind]. unfold TWO_P20. rewrite (dmul_Z _ (T2 / 2 ^ 20)), dsub_Z by (Z.div_mod_to_equations; lia).
  set (r0 := T0 - 4194304 * (T0 / 2 ^ 22)). set (r1 := T1 - 4194304 * (T1 / 2 ^ 22)). set (r2 := T2 - 1048576 * (T2 / 2 ^ 20)).
  assert (0 <= r0 < 2 ^ 22 /\ 0 <= r1 < 2 ^ 22 /\ 0 <= r2 < 2 ^ 20) as (R0 & R1 & R2) by (unfold r0, r1, r2; Z.div_mod_to_equations; lia).
  assert (lcg a p x = value r0 r1 r2) as ->.
  { unfold lcg, u64. symmetry. apply Z.mod_unique_pos with (q := T2 / 2 ^ 20 + 4 * (s1 * m2 + s2 * m1) + 2 ^ 24 * (s2 * m2)); [unfold value; lia|].
    rewrite Ex, Ea. unfold value, r0, r1, r2, T2, T1, T0. ring. }
  do 2 f_equal; f_equal; unfold value; Z.div_mod_to_equations; lia.
Qed.

Lemma lcg_range a c x : 0 <= lcg a c x < 2 ^ 64.
Proof. apply Z.mod_pos_bound. lia. Qed.

Lemma iter_lcg_range n a c x : 0 <= x < 2 ^ 64 -> 0 <= Nat.iter n (lcg a c) x < 2 ^ 64.
Proof. intros Hx. destruct n; [done|]. rewrite Nat.iter_succ. apply lcg_range. Qed.

Lemma calls_lcg n p a : forall x, 0 <= p < 2 ^ 32 -> 0 <= x < 2 ^ 64 -> 0 <= a < 2 ^ 64 ->
  crn_calls n (stream_of p x a) = Normal (stream_of p (Nat.iter n (lcg a p) x) a).
Proof.
  induction n as [|n IH]; intros x Hp Hx Ha; [done|]. cbn [crn_calls]. unfold CrnDouble. rewrite advance_lcg by done. cbn [mbind outcome_bind].
  rewrite IH by (done || apply lcg_range). by rewrite Nat.iter_succ_r.
Qed.

(** ** The initial state *)

(** Two words as the three pieces. *)
Lemma pieces lo hi : 0 <= lo < 2 ^ 32 -> 0 <= hi < 2 ^ 32 -> let x := lo + 2 ^ 32 * hi in
  Z.land lo 0x3fffff = x mod 2 ^ 22 /\
  Z.lor (Z.shiftr lo 22) (u32 (Z.shiftl (Z.land hi 0xfff) 10)) = x / 2 ^ 22 mod 2 ^ 22 /\
  Z.shiftr hi 12 = x / 2 ^ 44.
Proof.
  intros Hl Hh x. change 0x3fffff with (Z.ones 22). change 0xfff with (Z.ones 12). rewrite !Z.land_ones, !Z.shiftr_div_pow2, Z.shiftl_mul_pow2 by lia.
  rewrite u32_small by (Z.div_mod_to_equations; lia). rewrite Z.lor_comm, lor_disjoint by (Z.div_mod_to_equations; lia).
  unfold x. repeat split; Z.div_mod_to_equations; lia.
Qed.

(** The multipliers of the three types, as 64-bit numbers. *)
Definition multipliers : list Z := (fun '(lo, hi) => lo + 2 ^ 32 * hi) <$> _PARAMLIST.

Lemma multiplier_ok t a : multipliers !! t = Some a -> 0 <= a < 2 ^ 64 /\ a mod 4 = 1.
Proof. destruct t as [|[|[|t]]]; cbn; [intros [= <-]..|done]; vm_compute; repeat split; congruence. Qed.

(** The generator's number and its first state. *)
Definition gen_number (npes ns seed : Z) : Z := u32 (seed + ns * npes).
Definition first_state (npes ns seed : Z) : Z :=
  Z.lxor INIT_SEED0 (gen_number npes ns seed) + 2 ^ 32 * Z.lxor INIT_SEED1 (u32 (Z.shiftl seed 1)).

Lemma first_state_range npes ns seed : 0 <= first_state npes ns seed < 2 ^ 64.
Proof.
  unfold first_state. pose proof (lxor_below 32 INIT_SEED0 (gen_number npes ns seed) ltac:(lia) ltac:(done) (u32_range _)).
  pose proof (lxor_below 32 INIT_SEED1 (u32 (Z.shiftl seed 1)) ltac:(lia) ltac:(done) (u32_range _)). lia.
Qed.

Lemma fresh_stream_of npes ns seed type : 0 <= type < 3 ->
  exists p a, _prime_list !! Z.to_nat (gen_number npes ns seed mod MAX_STREAMS) = Some p /\ multipliers !! Z.to_nat type = Some a /\
    fresh_stream npes ns seed type = Normal (stream_of p (first_state npes ns seed) a).
Proof.
  intros Ht. unfold fresh_stream. fold (gen_number npes ns seed). set (g := gen_number npes ns seed).
  assert (0 <= g < 2 ^ 32) as Hg by apply u32_range.
  destruct (lookup_lt_is_Some_2 _prime_list (Z.to_nat (g mod MAX_STREAMS))) as [p Hp].
  { pose proof prime_list_length. unfold MAX_STREAMS. pose proof (Z.mod_pos_bound g 15613). lia. }
  rewrite Hp. exists p. set (t := Z.to_nat type). assert (t < 3)%nat as Ht' by lia. rewrite (proj2 (Z.ltb_ge type 0)) by lia.
  destruct (_PARAMLIST !! t) as [[lo hi]|] eqn:E; [|apply lookup_ge_None in E; cbn in E; lia].
  exists (lo + 2 ^ 32 * hi). split; [done|]. split; [unfold multipliers; by rewrite list_lookup_fmap, E|].
  assert (0 <= lo < 2 ^ 32 /\ 0 <= hi < 2 ^ 32) as [Hlo Hhi].
  { clearbody t. destruct t as [|[|[|t]]]; [injection E as <- <-..|lia]; lia. }
  pose proof (lxor_below 32 INIT_SEED0 g ltac:(lia) ltac:(done) Hg) as H0.
  pose proof (lxor_below 32 INIT_SEED1 (u32 (Z.shiftl seed 1)) ltac:(lia) ltac:(done) (u32_range _)) as H1.
  destruct (pieces _ _ H0 H1) as (-> & -> & ->). destruct (pieces lo hi Hlo Hhi) as (-> & -> & ->). done.
Qed.

(** C37: a random number stream, computed in doubles of 22, 22 and 20 bits, is
    the linear congruential generator [x := a * x + p] modulo 2^64: for every
    type from 0 to 2 and every seed, [CrnInitStream] gives the 1000th state
    after the seed state, and [n] further calls give the state after [n] more
    steps, where [p] is the entry of the table of primes for the stream and [a]
    the multiplier of the type. *)
Theorem crn_is_lcg npes ns seed type n : 0 <= type < 3 ->
  exists p a g, _prime_list !! Z.to_nat (gen_number npes ns seed mod MAX_STREAMS) = Some p /\ multipliers !! Z.to_nat type = Some a /\
    CrnInitStream npes ns seed type = Normal (g, ns + 1) /\
    crn_calls n g = Normal (stream_of p (Nat.iter (1000 + n) (lcg a p) (first_state npes ns seed)) a).
Proof.
  intros Ht. destruct (fresh_stream_of npes ns seed type Ht) as (p & a & Hp & Ha & Ef).
  destruct (prime_list_ok _ _ Hp) as [Pp _]. destruct (multiplier_ok _ _ Ha) as [Pa _]. pose proof (first_state_range npes ns seed) as Hx.
  eexists p, a, _. split; [done|]. split; [done|]. unfold CrnInitStream. rewrite Ef. cbn [mbind outcome_bind].
  rewrite calls_lcg by (done || lia). cbn [mbind outcome_bind]. split; [done|]. rewrite calls_lcg by (done || lia || by apply iter_lcg_range).
  by rewrite <- Nat.iter_add, Nat.add_comm.
Qed.

Lemma crn_is_lcg_witness : exists g, CrnInitStream 4 7 12345 1 = Normal (g, 8) /\
  crn_calls 3 g = Normal (stream_of 621821443 (Nat.iter 1003 (lcg 0x2c6fe96ee78b6955 621821443) (first_state 4 7 12345)) 0x2c6fe96ee78b6955).
Proof.
  destruct (crn_is_lcg 4 7 12345 1 3) as (p & a & g & Hp & Ha & E & Ec); [lia|]. exists g. split; [exact E|].
  assert (Hp' : _prime_list !! Z.to_nat (gen_number 4 7 12345 mod MAX_STREAMS) = Some 621821443) by (vm_compute; reflexivity).
  assert (Ha' : multipliers !! Z.to_nat 1 = Some 0x2c6fe96ee78b6955) by (vm_compute; reflexivity).
  rewrite Hp' in Hp. rewrite Ha' in Ha. injection Hp as <-. injection Ha as <-. exact Ec.
Defined.

(** ** The period *)

(** [1 + a + ... + a^(n-1)] *)
Fixpoint geo (a : Z) (n : nat) : Z := match n with O => 0 | S n => a * geo a n + 1 end.

Lemma geo_pow a n : (a - 1) * geo a n = a ^ Z.of_nat n - 1.
Proof. induction n as [|n IH]; [cbn; lia|]. cbn [geo]. rewrite Nat2Z.inj_succ, Z.pow_succ_r by lia. nia. Qed.

Lemma geo_add a m n : geo a (m + n) = a ^ Z.of_nat m * geo a n + geo a m.
Proof. induction m as [|m IH]; [cbn; lia|]. cbn [geo Nat.add]. rewrite IH, Nat2Z.inj_succ, Z.pow_succ_r by lia. lia. Qed.

Lemma iter_lcg n a c x : 0 <= x < 2 ^ 64 -> Nat.iter n (lcg a c) x = u64 (a ^ Z.of_nat n * x + c * geo a n).
Proof.
  intros Hx. induction n as [|n IH]; [cbn; unfold u64; rewrite Z.mod_small; lia|]. rewrite Nat.iter_succ, IH. unfold lcg, u64.
  rewrite <- Z.add_mod_idemp_l, Z.mul_mod_idemp_r, Z.add_mod_idemp_l by lia. f_equal.
  cbn [geo]. rewrite Nat2Z.inj_succ, Z.pow_succ_r by lia. lia.
Qed.

Lemma pow_mod4 a m : a mod 4 = 1 -> a ^ Z.of_nat m mod 4 = 1.
Proof.
  intros Ha. induction m as [|m IH]; [done|]. rewrite Nat2Z.inj_succ, Z.pow_succ_r by lia. rewrite Z.mul_mod, Ha, IH by lia. done.
Qed.

Lemma pow2_odd_divide k : forall u v, Z.odd v = true -> (2 ^ Z.of_nat k | u * v) -> (2 ^ Z.of_nat k | u).
Proof.
  induction k as [|k IH]; intros u v Hv Hd; [apply Z.divide_1_l|]. rewrite Nat2Z.inj_succ, Z.pow_succ_r in * by lia.
  destruct (Z.even u) eqn:Eu.
  - apply Z.even_spec in Eu as [w ->]. apply Z.mul_divide_mono_l. apply (IH w v Hv). apply (Z.mul_divide_cancel_l _ _ 2); [lia|]. by rewrite Z.mul_assoc.
  - assert (Z.odd (u * v) = true) as Ho by (rewrite Z.odd_mul, Hv, <- Z.negb_even, Eu; done).
    destruct Hd as [q Hq]. rewrite Hq, !Z.odd_mul in Ho. rewrite andb_comm in Ho. done.
Qed.

(** The sum is divisible by as many powers of two as its length. *)
Lemma geo_divide a : a mod 4 = 1 -> forall k n, (2 ^ Z.of_nat k | geo a n) <-> (2 ^ Z.of_nat k | Z.of_nat n).
Proof.
  intros Ha. assert (forall n, Z.odd (geo a n) = Nat.odd n) as Hodd.
  { assert (Z.odd a = true) as Hao by (rewrite Zodd_mod; apply Z.eqb_eq; Z.div_mod_to_equations; lia).
    induction n as [|n IH]; [done|]. cbn [geo]. by rewrite Z.odd_add, Z.odd_mul, Hao, IH, Nat.odd_succ, <- Nat.negb_odd; destruct (Nat.odd n). }
  induction k as [|k IH]; intros n; [split; intros _; apply Z.divide_1_l|]. rewrite Nat2Z.inj_succ, Z.pow_succ_r by lia.
  destruct (Nat.Even_or_Odd n) as [[m ->]|Hn].
  - replace (2 * m)%nat with (m + m)%nat by lia. rewrite geo_add. pose proof (pow_mod4 a m Ha) as Hp. set (w := a ^ Z.of_nat m) in *.
    set (h := (w + 1) / 2). assert (w = 2 * h - 1) as Hw by (unfold h; Z.div_mod_to_equations; lia).
    replace (w * geo a m + geo a m) with (2 * (geo a m * h)) by (rewrite Hw; ring).
    replace (Z.of_nat (m + m)) with (2 * Z.of_nat m) by lia. rewrite !Z.mul_divide_cancel_l by lia. rewrite <- IH.
    assert (Z.odd h = true) as Ho by (rewrite Zodd_mod; apply Z.eqb_eq; Z.div_mod_to_equations; lia).
    split; [by apply pow2_odd_divide|apply Z.divide_mul_l].
  - apply Nat.odd_spec in Hn as Ho. assert (forall z, Z.odd z = true -> ~ (2 * 2 ^ Z.of_nat k | z)) as Hz.
    { intros z Hz [q ->]. rewrite !Z.odd_mul in Hz. cbn in Hz. by rewrite andb_comm in Hz. }
    split; intros Hd; exfalso; [apply (Hz _ ltac:(by rewrite Hodd) Hd)|].
    apply (Hz (Z.of_nat n)); [|done]. destruct Hn as [m ->]. rewrite Nat2Z.inj_add, Nat2Z.inj_mul. by rewrite Z.odd_add, Z.odd_mul.
Qed.

Lemma iter_period a c x n : 0 <= x < 2 ^ 64 -> a mod 4 = 1 -> Z.odd c = true ->
  Nat.iter n (lcg a c) x = x <-> (2 ^ 64 | Z.of_nat n).
Proof.
  intros Hx Ha Hc. change (2 ^ 64) with (2 ^ Z.of_nat 64). rewrite <- (geo_divide a Ha). change (2 ^ Z.of_nat 64) with (2 ^ 64).
  rewrite iter_lcg by done. set (f := (a - 1) * x + c).
  assert (Z.odd f = true) as Hf by (unfold f; rewrite Z.odd_add, Z.odd_mul, Hc; replace (Z.odd (a - 1)) with false; [done|];
    symmetry; rewrite Zodd_mod; apply Z.eqb_neq; Z.div_mod_to_equations; lia).
  assert (a ^ Z.of_nat n * x + c * geo a n = x + geo a n * f) as -> by (pose proof (geo_pow a n); unfold f; nia).
  unfold u64. split.
  - intros E. apply (pow2_odd_divide 64 _ f Hf). exists ((x + geo a n * f) / 2 ^ 64). pose proof (Z.div_mod (x + geo a n * f) (2 ^ 64) ltac:(lia)).
    change (2 ^ Z.of_nat 64) with (2 ^ 64). lia.
  - intros [q ->]. replace (x + q * 2 ^ 64 * f) with (x + q * f * 2 ^ 64) by lia. rewrite Z.mod_add by lia. by apply Z.mod_small.
Qed.

Lemma d_of_Z_inj u v : 0 <= u < 2 ^ 53 -> 0 <= v < 2 ^ 53 -> d_of_Z u = d_of_Z v -> u = v.
Proof.
  intros Hu Hv E. pose proof (d_to_Z_dbl u 0 Hu ltac:(lia)) as Eu. pose proof (d_to_Z_dbl v 0 Hv ltac:(lia)) as Ev.
  change (dbl u 0) with (d_of_Z u) in Eu. change (dbl v 0) with (d_of_Z v) in Ev. rewrite E, Ev in Eu. cbn in Eu. change (2 ^ 0) with 1 in Eu. lia.
Qed.

Lemma stream_of_inj p a x y : 0 <= x < 2 ^ 64 -> 0 <= y < 2 ^ 64 -> stream_of p x a = stream_of p y a -> x = y.
Proof.
  intros Hx Hy. unfold stream_of. intros [= E0 E1 E2]. apply d_of_Z_inj in E0, E1, E2; [Z.div_mod_to_equations; lia| Z.div_mod_to_equations; lia..].
Qed.

(** C21: every stream has a cycle of length 2^64: two of its states, after [i]
    and after [j] calls, are the same exactly when [i] and [j] are congruent
    modulo 2^64. *)
Theorem crn_full_period npes ns seed type : 0 <= type < 3 ->
  exists g, CrnInitStream npes ns seed type = Normal (g, ns + 1) /\
    forall i j, exists gi gj, crn_calls i g = Normal gi /\ crn_calls j g = Normal gj /\
      (gi = gj <-> (2 ^ 64 | Z.of_nat i - Z.of_nat j)).
Proof.
  intros Ht. destruct (fresh_stream_of npes ns seed type Ht) as (p & a & Hp & Ha & Ef).
  destruct (prime_list_ok _ _ Hp) as [Pp Po]. destruct (multiplier_ok _ _ Ha) as [Pa Pm]. pose proof (first_state_range npes ns seed) as Hx.
  unfold CrnInitStream. rewrite Ef. cbn [mbind outcome_bind]. rewrite calls_lcg by (done || lia). eexists. split; [done|].
  set (x := Nat.iter 1000 (lcg a p) (first_state npes ns seed)). assert (0 <= x < 2 ^ 64) as Hx' by (by apply iter_lcg_range). clearbody x.
  assert (forall i k, Nat.iter i (lcg a p) x = Nat.iter (k + i) (lcg a p) x <-> (2 ^ 64 | Z.of_nat k)) as Hik.
  { intros i k. rewrite Nat.iter_add. rewrite <- (iter_period a p (Nat.iter i (lcg a p) x)) by (done || by apply iter_lcg_range). done. }
  intros i j. do 2 eexists. rewrite !calls_lcg by (done || lia). split; [done|]. split; [done|].
  transitivity (Nat.iter i (lcg a p) x = Nat.iter j (lcg a p) x).
  - split; [apply stream_of_inj; by apply iter_lcg_range|by intros ->].
  - destruct (Nat.le_ge_cases i j) as [Hle|Hle].
    + replace j with ((j - i) + i)%nat by lia. rewrite Hik, <- Z.divide_opp_r. by replace (- Z.of_nat (j - i)) with (Z.of_nat i - Z.of_nat (j - i + i)) by lia.
    + replace i with ((i - j) + j)%nat by lia. transitivity (Nat.iter j (lcg a p) x = Nat.iter (i - j + j) (lcg a p) x); [done|].
      rewrite Hik. by replace (Z.of_nat (i - j + j) - Z.of_nat j) with (Z.of_nat (i - j)) by lia.
Qed.

Lemma crn_full_period_witness : exists g, CrnInitStream 4 7 12345 1 = Normal (g, 8) /\
  exists g5 g9, crn_calls 5 g = Normal g5 /\ crn_calls 9 g = Normal g9 /\ g5 <> g9.
Proof.
  destruct (crn_full_period 4 7 12345 1) as (g & E & H); [lia|]. exists g. split; [exact E|].
  destruct (H 5%nat 9%nat) as (g5 & g9 & E5 & E9 & Hd). exists g5, g9. split; [exact E5|]. split; [exact E9|].
  intros Heq. apply Hd in Heq as [q Hq]. lia.
Defined.
