(* ===== verification/RandomSpec.v ===== *)
(** * RandomSpec: what the random number calls return

    The result of [CrnDouble] is the state divided by 2^64, rounded to a
    double, and that of [CrnInt] its integer part after scaling by 2^31. *)

From S2P Require Import Prelude Double DoubleFacts PrimeList Random RandomFacts.
From Corelib Require Import SpecFloat.
#[local] Open Scope Z_scope.

(** ** Doubles with mantissas up to 2^53 *)

Lemma dbl_top e : dbl (2 ^ 53) e = dbl 1 (e + 53).
Proof. change (2 ^ 53) with (1 * 2 ^ 53). apply dbl_scale; lia. Qed.

Lemma dadd_top m1 e1 m2 e2 e : 0 <= m1 <= 2 ^ 53 -> 0 <= m2 <= 2 ^ 53 -> -300 <= e1 <= 300 -> -300 <= e2 <= 300 -> e <= e1 -> e <= e2 ->
  dadd (dbl m1 e1) (dbl m2 e2) = dbl (m1 * 2 ^ (e1 - e) + m2 * 2 ^ (e2 - e)) e.
Proof.
  intros H1 H2 He1 He2 L1 L2. assert (forall m f, 0 <= m <= 2 ^ 53 -> -300 <= f <= 300 -> e <= f ->
    exists m' f', dbl m f = dbl m' f' /\ 0 <= m' < 2 ^ 53 /\ -400 <= f' <= 400 /\ e <= f' /\ m * 2 ^ (f - e) = m' * 2 ^ (f' - e)) as Hx.
  { intros m f Hm Hf Hl. destruct (decide (m = 2 ^ 53)) as [->|]; [|exists m, f; repeat split; lia].
    exists 1, (f + 53). rewrite dbl_top. repeat split; try lia. rewrite <- Z.pow_add_r by lia. rewrite Z.mul_1_l. f_equal. lia. }
  destruct (Hx m1 e1) as (a & f & -> & ? & ? & ? & ->); [lia..|]. destruct (Hx m2 e2) as (b & h & -> & ? & ? & ? & ->); [lia..|].
  apply dadd_dbl; lia.
Qed.

(** The nearest double of a number with at most 94 digits. *)
Lemma dbl_rounded M e : 0 <= M < 2 ^ 94 -> -200 <= e <= 0 ->
  exists m n, dbl M e = dbl m (e + n) /\ 0 <= m <= 2 ^ 53 /\ 0 <= n <= 41 /\ M < (m + 1) * 2 ^ n /\ m * 2 ^ n <= M + 2 ^ n /\
    (n = 0 -> m = M) /\ (forall k, 0 <= k -> M < 2 ^ k -> m * 2 ^ n <= 2 ^ k) /\ (forall k, 0 <= k -> M < 2 ^ k -> n <= Z.max 0 (k - 53)).
Proof.
  intros HM He. destruct (decide (M < 2 ^ 53)) as [Hs|Hs].
  { exists M, 0. change (2 ^ 0) with 1. rewrite Z.add_0_r. repeat split; intros; lia. }
  pose proof (digits_ge M 53 ltac:(lia) ltac:(lia) ltac:(lia)). pose proof (digits_le M 94 ltac:(lia) ltac:(lia) ltac:(lia)).
  destruct (dbl_long M e ltac:(lia) ltac:(lia) ltac:(lia)) as (m & E & Hm & Hq & _). set (n := Zdigits2 M - 53) in *.
  exists m, n. pose proof (Z.div_mod M (2 ^ n) ltac:(lia)) as Hdm. pose proof (Z.mod_pos_bound M (2 ^ n) ltac:(lia)) as Hr.
  set (q := M / 2 ^ n) in *. split; [done|]. split; [lia|]. split; [lia|]. split; [nia|]. split; [nia|]. split; [lia|]. split.
  - intros k Hk Hl. pose proof (digits_le M k ltac:(lia) Hk Hl). transitivity (2 ^ (53 + n)); [rewrite Z.pow_add_r by lia; nia|].
    apply Z.pow_le_mono_r; lia.
  - intros k Hk Hl. pose proof (digits_le M k ltac:(lia) Hk Hl). lia.
Qed.

Lemma dle_zero M e : 0 <= M < 2 ^ 94 -> -200 <= e <= 0 -> dle (d_of_Z 0) (dbl M e) = true.
Proof.
  intros HM He. destruct (dbl_rounded M e HM He) as (m & n & -> & Hm & Hn & _). destruct (decide (m = 0)) as [->|]; [done|].
  destruct (decide (m = 2 ^ 53)) as [->|]; [rewrite dbl_top|]; by rewrite dbl_exact by lia.
Qed.

Lemma dle_one M k : 0 <= M < 2 ^ k -> 0 <= k <= 94 -> dle (dbl M (- k)) (d_of_Z 1) = true.
Proof.
  intros HM Hk. assert (M < 2 ^ 94) by (pose proof (Z.pow_le_mono_r 2 k 94); lia).
  destruct (dbl_rounded M (- k) ltac:(lia) ltac:(lia)) as (m & n & -> & Hm & Hn & _ & _ & _ & Hb & _). specialize (Hb k ltac:(lia) ltac:(lia)).
  change (d_of_Z 1) with (S754_finite false 4503599627370496 (-52)). destruct (decide (m = 0)) as [->|]; [done|].
  destruct (decide (m = 2 ^ 53)) as [->|].
  - rewrite dbl_top, dbl_exact by lia. change (Zdigits2 1) with 1. unfold dle, SFleb. cbn [SFcompare].
    rewrite <- Z.pow_add_r in Hb by lia. apply Z.pow_le_mono_r_iff in Hb; [|lia|lia].
    destruct (Z.compare_spec (- k + n + 53 + 1 - 53) (-52)); [|done|lia]. done.
  - rewrite dbl_exact by lia. unfold dle, SFleb. cbn [SFcompare]. destruct (mantissa_pos m ltac:(lia)) as [_ HD]. destruct (digits_bounds m ltac:(lia)) as [B _].
    assert (2 ^ (Zdigits2 m - 1 + n) <= 2 ^ k) as Hp by (rewrite Z.pow_add_r by lia; nia). apply Z.pow_le_mono_r_iff in Hp; [|lia|lia].
    destruct (Z.compare_spec (- k + n + Zdigits2 m - 53) (-52)) as [He| |]; [|done|lia].
    replace k with (Zdigits2 m - 1 + n) in Hb by lia. rewrite Z.pow_add_r in Hb by lia. assert (m = 2 ^ (Zdigits2 m - 1)) as Em by nia.
    assert (m * 2 ^ (53 - Zdigits2 m) = 4503599627370496) as -> by (rewrite Em at 1; rewrite <- Z.pow_add_r by lia; by replace (Zdigits2 m - 1 + (53 - Zdigits2 m)) with 52 by lia).
    done.
Qed.

(** [(int) (d * 0x80000000U)] *)
Lemma scaled_int m e : 0 <= m <= 2 ^ 53 -> -94 <= e <= -31 ->
  d_to_int (dmul (dbl m e) (d_of_Z 0x80000000)) = let v := m / 2 ^ (- e - 31) in if v <? 2 ^ 31 then Normal v else Aborted.
Proof.
  intros Hm He. cbv zeta.
  assert (forall m' e', 0 <= m' < 2 ^ 53 -> -94 <= e' <= 31 -> dmul (dbl m' e') (d_of_Z 0x80000000) = dbl m' (e' + 31)) as Hs.
  { intros m' e' Hm' He'. change (d_of_Z 0x80000000) with (dbl (1 * 2 ^ 31) 0). rewrite (dbl_scale 1 0 31) by lia. rewrite dmul_dbl by lia. f_equal; lia. }
  assert (exists m' e', dbl m e = dbl m' e' /\ 0 <= m' < 2 ^ 53 /\ -94 <= e' <= 31 /\ d_to_Z (dbl m' (e' + 31)) = m / 2 ^ (- e - 31)) as (m' & e' & -> & Hm' & He' & Hz).
  { destruct (decide (m = 2 ^ 53)) as [->|].
    - exists 1, (e + 53). rewrite dbl_top. repeat split; try lia. rewrite d_to_Z_dbl by lia. destruct (Z.leb_spec 0 (e + 53 + 31)) as [Hl|Hl].
      + assert (2 ^ 53 = 2 ^ (e + 53 + 31) * 2 ^ (- e - 31)) as -> by (rewrite <- Z.pow_add_r by lia; f_equal; lia). by rewrite Z.mul_1_l, Z.div_mul by lia.
      + rewrite (Z.div_small 1), Z.div_small; [done| |].
        * split; [lia|]. apply Z.pow_lt_mono_r; lia.
        * split; [lia|]. apply Z.pow_gt_1; lia.
    - exists m, e. repeat split; try lia. rewrite d_to_Z_dbl by lia. destruct (Z.leb_spec 0 (e + 31)); [|by replace (- (e + 31)) with (- e - 31) by lia].
      replace (e + 31) with 0 by lia. replace (- e - 31) with 0 by lia. change (2 ^ 0) with 1. by rewrite Z.div_1_r, Z.mul_1_r. }
  rewrite Hs by lia. assert (0 <= m / 2 ^ (- e - 31)) by (apply Z.div_pos; lia).
  assert (exists s q f, dbl m' (e' + 31) = S754_finite s q f \/ dbl m' (e' + 31) = S754_zero s) as (s & q & f & Hd).
  { destruct (decide (m' = 0)) as [->|]; [by exists false, xH, 0; right|]. do 3 eexists. left. apply dbl_exact; lia. }
  unfold d_to_int. rewrite Hz. rewrite (proj2 (Z.leb_le _ _)) by lia. cbn [andb]. by destruct Hd as [->| ->].
Qed.

(** ** The result of a call *)

(** The middle piece is scaled by a little more than 2^-42. *)
Lemma middle_piece s1 : 0 <= s1 < 2 ^ 22 -> exists m n d, dmul (d_of_Z s1) TWO_M42 = dbl m (-94 + n) /\
  0 <= m <= 2 ^ 53 /\ 0 <= n <= 21 /\ m * 2 ^ n = s1 * 2 ^ 52 + d /\ 0 <= d < 2 ^ 23.
Proof.
  intros Hs. change (d_of_Z s1) with (dbl s1 0). rewrite two_m42, dmul_dbl by lia. rewrite Z.add_0_l.
  destruct (dbl_rounded (s1 * (2 ^ 52 + 1)) (-94) ltac:(lia) ltac:(lia)) as (m & n & -> & Hm & Hn & Hl & Hu & _ & _ & Hk).
  specialize (Hk 74 ltac:(lia) ltac:(lia)). rewrite Z.max_r in Hk by lia. exists m, n, (m * 2 ^ n - s1 * 2 ^ 52).
  split; [done|]. split; [done|]. split; [lia|]. split; [lia|].
  assert (2 ^ n <= 2 ^ 21) by (apply Z.pow_le_mono_r; lia). assert (2 ^ 52 = 2 ^ (52 - n) * 2 ^ n) as E by (rewrite <- Z.pow_add_r by lia; f_equal; lia).
  split; [|lia]. assert (s1 * 2 ^ (52 - n) < m + 1); [|rewrite E; nia]. apply (Z.mul_lt_mono_pos_r (2 ^ n)); [lia|]. rewrite <- Z.mul_assoc, <- E. lia.
Qed.

(** The sum of the two upper pieces does not show it, unless both are small. *)
Lemma upper_pieces X d : 0 <= d < 2 ^ 23 -> 2 ^ 24 <= X < 2 ^ 42 -> dbl (X * 2 ^ 52 + d) (-94) = dbl X (-42).
Proof.
  intros Hd HX. set (M := X * 2 ^ 52 + d). pose proof (digits_ge M 76 ltac:(lia) ltac:(lia) ltac:(lia)). pose proof (digits_le M 94 ltac:(lia) ltac:(lia) ltac:(lia)).
  destruct (dbl_long M (-94) ltac:(lia) ltac:(lia) ltac:(lia)) as (m & -> & _ & _ & Hf & _). set (n := Zdigits2 M - 53) in *.
  assert (2 ^ 52 = 2 ^ (52 - n) * 2 ^ n) as E by (rewrite <- Z.pow_add_r by lia; f_equal; lia).
  assert (2 ^ n = 2 * 2 ^ (n - 1)) as En by (rewrite <- Z.pow_succ_r by lia; f_equal; lia).
  assert (2 ^ 23 <= 2 ^ (n - 1)) by (apply Z.pow_le_mono_r; lia).
  assert (M = X * 2 ^ (52 - n) * 2 ^ n + d) as EM by (unfold M; rewrite E; lia).
  assert (M / 2 ^ n = X * 2 ^ (52 - n)) as Eq by (rewrite EM, Z.div_add_l, Z.div_small by lia; lia).
  rewrite Hf; [rewrite Eq, dbl_scale by lia; f_equal; lia|]. apply Z.testbit_false; [lia|]. rewrite EM, En.
  replace (X * 2 ^ (52 - n) * (2 * 2 ^ (n - 1)) + d) with (2 * (X * 2 ^ (52 - n)) * 2 ^ (n - 1) + d) by lia.
  rewrite Z.div_add_l, (Z.div_small d), Z.add_0_r, Z.mul_comm by lia. apply Z.mod_mul. lia.
Qed.

Definition crn_result (x : Z) : double :=
  dadd (dadd (dmul (d_of_Z (x / 2 ^ 44)) TWO_M20) (dmul (d_of_Z (x / 2 ^ 22 mod 2 ^ 22)) TWO_M42)) (dmul (d_of_Z (x mod 2 ^ 22)) TWO_M64).

Lemma crn_result_spec x : 0 <= x < 2 ^ 64 ->
  (2 ^ 46 <= x -> crn_result x = dbl x (-64)) /\ (x < 2 ^ 46 -> exists M, crn_result x = dbl M (-94) /\ 0 <= M < 2 ^ 79).
Proof.
  intros Hx. unfold crn_result. set (s0 := x mod 2 ^ 22). set (s1 := x / 2 ^ 22 mod 2 ^ 22). set (s2 := x / 2 ^ 44).
  assert (0 <= s0 < 2 ^ 22 /\ 0 <= s1 < 2 ^ 22 /\ 0 <= s2 < 2 ^ 20 /\ x = s0 + 2 ^ 22 * s1 + 2 ^ 44 * s2) as (H0 & H1 & H2 & Ex)
    by (unfold s0, s1, s2; Z.div_mod_to_equations; lia). clearbody s0 s1 s2.
  destruct (middle_piece s1 H1) as (m & n & d & -> & Hm & Hn & Em & Hd).
  assert (forall s k c, c = dbl 1 (- k) -> 0 <= s < 2 ^ 53 -> 0 <= k <= 64 -> dmul (d_of_Z s) c = dbl s (- k)) as Hs.
  { intros s k c -> Hs Hk. change (d_of_Z s) with (dbl s 0). rewrite dmul_dbl by lia. f_equal; lia. }
  rewrite (Hs s2 20 _ two_m20), (Hs s0 64 _ two_m64) by lia. rewrite (dadd_top s2 (- (20)) m (-94 + n) (-94)) by lia.
  replace (-94 + n - -94) with n by lia. rewrite Em. change (- (20) - -94) with 74.
  replace (s2 * 2 ^ 74 + (s1 * 2 ^ 52 + d)) with ((s2 * 2 ^ 22 + s1) * 2 ^ 52 + d) by lia. split; intros Hl.
  - rewrite upper_pieces by lia. change (- (64)) with (-64). rewrite (dadd_top _ (-42) s0 (-64) (-64)) by lia. f_equal. change (-42 - -64) with 22. change (-64 - -64) with 0. lia.
  - destruct (dbl_rounded ((s2 * 2 ^ 22 + s1) * 2 ^ 52 + d) (-94) ltac:(lia) ltac:(lia)) as (r & j & -> & Hr & Hj & _ & _ & _ & Hb & Hk).
    specialize (Hb 77 ltac:(lia) ltac:(lia)). change (- (64)) with (-64). specialize (Hk 77 ltac:(lia) ltac:(lia)). rewrite Z.max_r in Hk by lia.
    exists (r * 2 ^ j + s0 * 2 ^ 30). rewrite (dadd_top r (-94 + j) s0 (-64) (-94)) by lia. split; [f_equal; f_equal; f_equal; f_equal; lia|].
    assert (0 <= r * 2 ^ j) by (apply Z.mul_nonneg_nonneg; lia). lia.
Qed.

(** States in the upper half: which of them round to 1. *)
Lemma upper_half y : 2 ^ 63 <= y < 2 ^ 64 -> exists m, dbl y (-64) = dbl m (-53) /\ 0 <= m <= 2 ^ 53 /\ y / 2 ^ 11 <= m <= y / 2 ^ 11 + 1 /\
  (m < 2 ^ 53 <-> y < 2 ^ 64 - 2 ^ 10).
Proof.
  intros Hy. assert (Zdigits2 y = 64) as HD by (pose proof (digits_ge y 63 ltac:(lia) ltac:(lia) ltac:(lia)); pose proof (digits_le y 64 ltac:(lia) ltac:(lia) ltac:(lia)); lia).
  destruct (dbl_long y (-64) ltac:(lia) ltac:(lia) ltac:(lia)) as (m & E & Hm & Hq & Hf & Ht). rewrite HD in *. change (64 - 53) with 11 in *. change (11 - 1) with 10 in *.
  exists m. split; [exact E|]. split; [lia|]. split; [done|]. split.
  - intros Hlt. destruct (Z.lt_ge_cases y (2 ^ 64 - 2 ^ 10)) as [|Hge]; [done|]. exfalso.
    assert (y / 2 ^ 11 = 2 ^ 53 - 1) as Eq by (Z.div_mod_to_equations; lia). rewrite Eq in *.
    rewrite Ht in Hlt; [lia| |done]. apply Z.testbit_true; [lia|]. Z.div_mod_to_equations; lia.
  - intros Hlt. destruct (decide (y / 2 ^ 11 = 2 ^ 53 - 1)) as [Eq|]; [|Z.div_mod_to_equations; lia].
    rewrite Hf; [lia|]. apply Z.testbit_false; [lia|]. Z.div_mod_to_equations; lia.
Qed.

(** The integer of a result. *)
Lemma crn_int_spec y : 0 <= y < 2 ^ 64 ->
  if y <? 2 ^ 64 - 2 ^ 10 then
    exists v, d_to_int (dmul (crn_result y) (d_of_Z 0x80000000)) = Normal v /\ 0 <= v < 2 ^ 31 /\ (2 ^ 46 <= y -> y / 2 ^ 33 <= v /\ v * 2 ^ 33 <= y + 2 ^ 11)
  else d_to_int (dmul (crn_result y) (d_of_Z 0x80000000)) = Aborted.
Proof.
  intros Hy. destruct (crn_result_spec y Hy) as [Hbig Hsmall]. destruct (Z.lt_ge_cases y (2 ^ 46)) as [Hl|Hl]; [|destruct (Z.lt_ge_cases y (2 ^ 63)) as [Hh|Hh]].
  - rewrite (proj2 (Z.ltb_lt _ _)) by lia. destruct (Hsmall Hl) as (M & -> & HM).
    destruct (dbl_rounded M (-94) ltac:(lia) ltac:(lia)) as (m & n & -> & Hm & Hn & _ & _ & _ & _ & Hk).
    specialize (Hk 79 ltac:(lia) ltac:(lia)). rewrite Z.max_r in Hk by lia. rewrite scaled_int by lia. cbv zeta.
    assert (2 ^ 37 <= 2 ^ (- (-94 + n) - 31)) by (apply Z.pow_le_mono_r; lia).
    assert (0 <= m / 2 ^ (- (-94 + n) - 31) < 2 ^ 31) by (split; [apply Z.div_pos; lia|apply Z.div_lt_upper_bound; lia]).
    rewrite (proj2 (Z.ltb_lt _ (2 ^ 31))) by lia. eexists. split; [done|]. split; [done|]. lia.
  - rewrite (proj2 (Z.ltb_lt _ _)) by lia. rewrite Hbig by done.
    destruct (dbl_rounded y (-64) ltac:(lia) ltac:(lia)) as (m & n & -> & Hm & Hn & Hlo & Hup & _ & _ & Hk).
    specialize (Hk 63 ltac:(lia) ltac:(lia)). rewrite Z.max_r in Hk by lia. rewrite scaled_int by lia. cbv zeta.
    replace (- (-64 + n) - 31) with (33 - n) by lia. assert (2 ^ 23 <= 2 ^ (33 - n)) by (apply Z.pow_le_mono_r; lia).
    assert (2 ^ n <= 2 ^ 10) by (apply Z.pow_le_mono_r; lia). assert (2 ^ 33 = 2 ^ (33 - n) * 2 ^ n) as E by (rewrite <- Z.pow_add_r by lia; f_equal; lia).
    assert (0 <= m / 2 ^ (33 - n) < 2 ^ 31) by (split; [apply Z.div_pos; lia|apply Z.div_lt_upper_bound; lia]).
    rewrite (proj2 (Z.ltb_lt _ (2 ^ 31))) by lia. eexists. split; [done|]. split; [done|]. intros _. rewrite E. split.
    + rewrite (Z.mul_comm (2 ^ (33 - n))), <- Z.div_div by lia. apply Z.div_le_mono; [lia|]. assert (y / 2 ^ n < m + 1); [|lia]. apply Z.div_lt_upper_bound; lia.
    + pose proof (Z.mul_div_le m (2 ^ (33 - n)) ltac:(lia)). nia.
  - rewrite Hbig by done. destruct (upper_half y ltac:(lia)) as (m & -> & Hm & Hq & Hiff). rewrite scaled_int by lia. cbv zeta. change (- -53 - 31) with 22.
    destruct (Z.ltb_spec y (2 ^ 64 - 2 ^ 10)) as [Hlt|Hge].
    + apply Hiff in Hlt. rewrite (proj2 (Z.ltb_lt _ (2 ^ 31))) by (Z.div_mod_to_equations; lia). eexists. split; [done|].
      split; [Z.div_mod_to_equations; lia|]. intros _. Z.div_mod_to_equations; lia.
    + assert (m = 2 ^ 53) as -> by lia. done.
Qed.

(** C14: what the calls return.  With [y] the next state of the stream:
    [CrnDouble] returns a number between 0 and 1, which is the double nearest
    to [y / 2^64] for every [y] from [2^46] on (below, the literal for 2^-42,
    which is one place too large, shows); [CrnInt] returns an [int] between 0
    and 2^31 - 1 that is [y / 2^33] up to the rounding of the double, except
    for the last 1024 states, which round to 1: then 2^31 is converted to
    [int], which C does not define. *)
Theorem crn_results p x a : 0 <= p < 2 ^ 32 -> 0 <= x < 2 ^ 64 -> 0 <= a < 2 ^ 64 -> let y := lcg a p x in
  (exists d, CrnDouble (stream_of p x a) = Normal (stream_of p y a, d) /\ dle (d_of_Z 0) d = true /\ dle d (d_of_Z 1) = true /\
     (2 ^ 46 <= y -> d = dbl y (-64))) /\
  (y < 2 ^ 64 - 2 ^ 10 -> exists v, CrnInt (stream_of p x a) = Normal (stream_of p y a, v) /\ 0 <= v < 2 ^ 31 /\
     (2 ^ 46 <= y -> y / 2 ^ 33 <= v /\ v * 2 ^ 33 <= y + 2 ^ 11)) /\
  (2 ^ 64 - 2 ^ 10 <= y -> CrnInt (stream_of p x a) = Aborted).
Proof.
  intros Hp Hx Ha y. pose proof (lcg_range a p x : 0 <= y < 2 ^ 64) as Hy.
  assert (CrnDouble (stream_of p x a) = Normal (stream_of p y a, crn_result y)) as Ed by (unfold CrnDouble; by rewrite advance_lcg by done).
  unfold CrnInt. rewrite Ed. cbn [mbind outcome_bind]. pose proof (crn_int_spec y Hy) as Hi. split; [|split].
  - exists (crn_result y). split; [done|]. destruct (crn_result_spec y Hy) as [Hb Hs]. destruct (Z.lt_ge_cases y (2 ^ 46)) as [Hl|Hl].
    + destruct (Hs Hl) as (M & -> & HM). split; [apply dle_zero; lia|]. split; [apply (dle_one M 94); lia|lia].
    + rewrite (Hb Hl). split; [apply dle_zero; lia|]. split; [apply (dle_one y 64); lia|done].
  - intros Hlt. rewrite (proj2 (Z.ltb_lt _ _) Hlt) in Hi. destruct Hi as (v & -> & Hv). by exists v.
  - intros Hge. rewrite (proj2 (Z.ltb_ge _ _) Hge) in Hi. by rewrite Hi.
Qed.

(** A state that is followed by [2^64 - 1]. *)
Lemma crn_results_witness : CrnInt (stream_of 3037000493 (2 ^ 64 - 3037000494) 1) = Aborted /\
  exists v, CrnInt (stream_of 3037000493 (2 ^ 63) 1) = Normal (stream_of 3037000493 (2 ^ 63 + 3037000493) 1, v) /\ 0 <= v < 2 ^ 31.
Proof.
  split.
  - apply (crn_results 3037000493 (2 ^ 64 - 3037000494) 1); [lia|lia|lia|]. vm_compute. congruence.
  - destruct (crn_results 3037000493 (2 ^ 63) 1) as (_ & H & _); [lia|lia|lia|].
    destruct H as (v & E & Hv & _); [vm_compute; reflexivity|]. exists v. split; [|exact Hv].
    assert (lcg 1 3037000493 (2 ^ 63) = 2 ^ 63 + 3037000493) as El by (vm_compute; reflexivity). rewrite <- El. exact E.
Defined.
