(* ===== verification/Cldb.v ===== *)
(** * Cldb: the tokens of seed load balancing (conv-ldb/cldb.c)

    A message that a load balancer may still move is put in the scheduler
    queue as a token, and the tokens of a processor are linked in a circle
    around a sentinel.  A message taken out of the circle leaves an empty token
    behind in the queue; a token that is handled leaves the circle.  Tokens
    live in a store of allocated tokens, so an access to a freed token is an
    [Aborted] outcome.  The locks make each operation one step.  The functions
    that describe a message (its length and priority) are parameters, and the
    other messages in the scheduler queue are counted.  [CldSetPEBitVector] and
    [CldMoveAllSeedsAway] are not modelled. *)

From S2P Require Import Prelude Prioq.
#[local] Open Scope Z_scope.

Definition MAXMSGBFRSIZE : Z := 100000.

Record CldToken := mk_tok { t_msg : ptr; t_pred : Z; t_succ : Z }.
Definition set_tmsg (m : ptr) (t : CldToken) : CldToken := mk_tok m (t_pred t) (t_succ t).
Definition set_tpred (p : Z) (t : CldToken) : CldToken := mk_tok (t_msg t) p (t_succ t).
Definition set_tsucc (n : Z) (t : CldToken) : CldToken := mk_tok (t_msg t) (t_pred t) n.

(** The part of a message header that load balancing uses. *)
Record header := mk_hdr { h_handler : Z; h_xhandler : Z; h_immed : bool }.

(** [CldProcInfo], the counters of the processor, the tokens in the scheduler
    queue and the number of other messages there. *)
Record cld := mk_cld {
  toks : gmap Z CldToken;
  sentinel : Z;
  load : Z;
  CldLoadOffset : Z;
  csd_tokens : list Z;
  csd_others : Z;
  headers : gmap ptr header;
  CldRelocatedMessages : Z;
  CldMessageChunks : Z
}.

Definition set_toks (T : gmap Z CldToken) (s : cld) : cld :=
  mk_cld T (sentinel s) (load s) (CldLoadOffset s) (csd_tokens s) (csd_others s) (headers s) (CldRelocatedMessages s) (CldMessageChunks s).
Definition set_load (n : Z) (s : cld) : cld :=
  mk_cld (toks s) (sentinel s) n (CldLoadOffset s) (csd_tokens s) (csd_others s) (headers s) (CldRelocatedMessages s) (CldMessageChunks s).
Definition set_offset (n : Z) (s : cld) : cld :=
  mk_cld (toks s) (sentinel s) (load s) n (csd_tokens s) (csd_others s) (headers s) (CldRelocatedMessages s) (CldMessageChunks s).
Definition set_csd (l : list Z) (s : cld) : cld :=
  mk_cld (toks s) (sentinel s) (load s) (CldLoadOffset s) l (csd_others s) (headers s) (CldRelocatedMessages s) (CldMessageChunks s).
Definition set_others (n : Z) (s : cld) : cld :=
  mk_cld (toks s) (sentinel s) (load s) (CldLoadOffset s) (csd_tokens s) n (headers s) (CldRelocatedMessages s) (CldMessageChunks s).
Definition set_headers (h : gmap ptr header) (s : cld) : cld :=
  mk_cld (toks s) (sentinel s) (load s) (CldLoadOffset s) (csd_tokens s) (csd_others s) h (CldRelocatedMessages s) (CldMessageChunks s).
Definition count_sent (n : Z) (s : cld) : cld :=
  mk_cld (toks s) (sentinel s) (load s) (CldLoadOffset s) (csd_tokens s) (csd_others s) (headers s) (CldRelocatedMessages s + n) (CldMessageChunks s + 1).

(** ** Handlers of messages *)

Definition header_of (m : ptr) (s : cld) : header := default (mk_hdr 0 0 false) (headers s !! m).

Definition CldSwitchHandler (m handler : Z) (s : cld) : cld :=
  let h := header_of m s in set_headers (<[m := mk_hdr handler (h_handler h) (h_immed h)]> (headers s)) s.
Definition CldRestoreHandler (m : Z) (s : cld) : cld :=
  let h := header_of m s in set_headers (<[m := mk_hdr (h_xhandler h) (h_xhandler h) (h_immed h)]> (headers s)) s.
Definition CmiBecomeImmediate (m : Z) (s : cld) : cld :=
  let h := header_of m s in set_headers (<[m := mk_hdr (h_handler h) (h_xhandler h) true]> (headers s)) s.

(** ** Tokens *)

Definition tok_at (a : Z) (T : gmap Z CldToken) : outcome CldToken :=
  match T !! a with Some t => Normal t | None => Aborted end.
Definition upd_tok (a : Z) (f : CldToken -> CldToken) (T : gmap Z CldToken) : outcome (gmap Z CldToken) :=
  t ← tok_at a T; Normal (<[a := f t]> T).

(** [tok->pred->succ = tok->succ; tok->succ->pred = tok->pred;] *)
Definition unlink_token (tok : Z) (T : gmap Z CldToken) : outcome (gmap Z CldToken) :=
  t ← tok_at tok T;
  T ← upd_tok (t_pred t) (set_tsucc (t_succ t)) T;
  t ← tok_at tok T;
  upd_tok (t_succ t) (set_tpred (t_pred t)) T.

(** [tok->pred->succ = tok; tok->succ->pred = tok;] *)
Definition link_token (tok : Z) (T : gmap Z CldToken) : outcome (gmap Z CldToken) :=
  t ← tok_at tok T;
  T ← upd_tok (t_pred t) (set_tsucc tok) T;
  t ← tok_at tok T;
  upd_tok (t_succ t) (set_tpred tok) T.

(** The handler of a token: the message that it hands over.  What the
    message's handler does happens after the token is freed. *)
Definition CldTokenHandler (tok : Z) (s : cld) : outcome (cld * option ptr) :=
  t ← tok_at tok (toks s);
  if negb (t_msg t =? NULL) then
    T ← unlink_token tok (toks s);
    Normal (set_load (load s - 1) (set_toks (delete tok T) s), Some (t_msg t))
  else Normal (set_offset (CldLoadOffset s - 1) (set_toks (delete tok (toks s)) s), None).

Definition CldCountTokens (s : cld) : Z := load s.
Definition CsdLength (s : cld) : Z := Z.of_nat (length (csd_tokens s)) + csd_others s.
Definition CldLoad (s : cld) : Z := CsdLength s - CldLoadOffset s.

(** A new token at [tok], with fields not yet written. *)
Definition new_token `{Uninit} (tok : Z) (msg : ptr) (T : gmap Z CldToken) : gmap Z CldToken := <[tok := mk_tok msg uninit_word uninit_word]> T.

Definition CldPutToken `{Uninit} (tok : Z) (msg : ptr) (s : cld) : outcome cld :=
  let T := new_token tok msg (toks s) in
  sen ← tok_at (sentinel s) T;
  T ← upd_tok tok (set_tpred (t_pred sen)) T;
  T ← upd_tok tok (set_tsucc (sentinel s)) T;
  T ← link_token tok T;
  Normal (set_csd (csd_tokens s ++ [tok]) (set_load (load s + 1) (set_toks T s))).

Section info.
Context (msg_len : ptr -> Z) (msg_prio : ptr -> prio).

(** [while (ptr!=proc->sentinel)] *)
Fixpoint find_place (fuel : nat) (p : prio) (ptr : Z) (s : cld) (T : gmap Z CldToken) : outcome Z :=
  match fuel with
  | O => Aborted
  | S fuel =>
      if ptr =? sentinel s then Normal ptr
      else
        t ← tok_at ptr T;
        if negb (CqsPrioGT p (msg_prio (t_msg t))) then Normal ptr else find_place fuel p (t_succ t) s T
  end.

Definition CldPutTokenPrio `{Uninit} (tok : Z) (msg : ptr) (s : cld) : outcome cld :=
  let T := new_token tok msg (toks s) in
  sen ← tok_at (sentinel s) T;
  ptr ← find_place (S (size T)) (msg_prio msg) (t_succ sen) s T;
  T ← upd_tok tok (set_tsucc ptr) T;
  at_ptr ← tok_at ptr T;
  T ← upd_tok tok (set_tpred (t_pred at_ptr)) T;
  T ← link_token tok T;
  Normal (set_csd (csd_tokens s ++ [tok]) (set_load (load s + 1) (set_toks T s))).

(** [_CldGetTokenMsgAt] *)
Definition CldGetTokenMsgAt (tok : Z) (s : cld) : outcome (cld * ptr) :=
  if tok =? sentinel s then Normal (s, NULL)
  else
    T ← unlink_token tok (toks s);
    t ← tok_at tok T;
    T ← upd_tok tok (set_tmsg NULL) T;
    Normal (set_load (load s - 1) (set_toks T s), t_msg t).

(** [_CldGetTokenMsg] *)
Definition CldGetTokenMsg (s : cld) : outcome (cld * ptr) :=
  sen ← tok_at (sentinel s) (toks s);
  CldGetTokenMsgAt (t_succ sen) s.

Definition CldGetToken (s : cld) : outcome (cld * ptr) :=
  '(s, m) ← CldGetTokenMsg s;
  Normal (if negb (m =? NULL) then set_offset (CldLoadOffset s + 1) s else s, m).

Definition CldGetTokenFromRankAt (tok : Z) (s : cld) : outcome (cld * ptr) :=
  '(s, m) ← CldGetTokenMsgAt tok s;
  Normal (if negb (m =? NULL) then set_offset (CldLoadOffset s + 1) s else s, m).

(** ** Sending tokens to another processor *)

Context (CldBalanceHandlerIndex : Z).

(** What is done with a message that is taken to be sent. *)
Definition prepare (immed : bool) (m : ptr) (s : cld) : cld :=
  let s := CldSwitchHandler m CldBalanceHandlerIndex s in
  if immed then CmiBecomeImmediate m s else s.

(** [for (i=0; i<numToSend; i++)] with [k] rounds left; returns [msgs], [done]
    and [numToSend]. *)
Fixpoint fill_parcel (k : nat) (i numToSend parcelSize : Z) (immed done : bool) (msgs : list ptr) (s : cld) :
    outcome (cld * list ptr * bool * Z) :=
  match k with
  | O => Normal (s, msgs, done, numToSend)
  | S k =>
      '(s, m) ← CldGetToken s;
      if negb (m =? NULL) then
        let done := true in
        let msgs := msgs ++ [m] in
        let parcelSize := parcelSize + msg_len m in
        let s := prepare immed m s in
        if MAXMSGBFRSIZE <? parcelSize then
          let done := if i <? numToSend - 1 then false else done in
          Normal (s, msgs, done, numToSend - Z.of_nat (length msgs))
        else fill_parcel k (i + 1) numToSend parcelSize immed done msgs s
      else Normal (s, msgs, true, numToSend)
  end.

(** The messages of a parcel are sent, and counted. *)
Definition send_parcel (immed : bool) (msgs : list ptr) (s : cld) : cld :=
  match msgs with
  | [] => s
  | [m] => count_sent 1 (if immed then CmiBecomeImmediate m s else s)
  | _ => count_sent (Z.of_nat (length msgs)) s
  end.

(** [while (!done)]; returns the parcels. [None]: more rounds than [fuel]. *)
Fixpoint send_parcels (fuel : nat) (numToSend : Z) (immed : bool) (parcels : list (list ptr)) (s : cld) :
    option (outcome (cld * list (list ptr))) :=
  match fuel with
  | O => None
  | S fuel =>
      match fill_parcel (Z.to_nat numToSend) 0 numToSend 0 immed false [] s with
      | Aborted => Some Aborted
      | Normal (s, msgs, done, numToSend) =>
          let s := send_parcel immed msgs s in
          let parcels := if decide (msgs = []) then parcels else parcels ++ [msgs] in
          if done then Some (Normal (s, parcels)) else send_parcels fuel numToSend immed parcels s
      end
  end.

Definition CldMultipleSend (fuel : nat) (numToSend : Z) (immed : bool) (s : cld) : option (outcome (cld * list (list ptr))) :=
  send_parcels fuel numToSend immed [] s.

(** [CldSimpleMultipleSend]: [for (i=0; i<numToSend; i++)], in which
    [numToSend] is decreased; returns the messages sent and [done]. *)
Fixpoint simple_loop (fuel : nat) (i numToSend : Z) (sent : list ptr) (done : bool) (s : cld) : outcome (cld * list ptr * bool) :=
  match fuel with
  | O => Normal (s, sent, done)
  | S fuel =>
      if i <? numToSend then
        '(s, m) ← CldGetToken s;
        if negb (m =? NULL) then
          simple_loop fuel (i + 1) (numToSend - 1) (sent ++ [m]) true (CldSwitchHandler m CldBalanceHandlerIndex s)
        else Normal (s, sent, true)
      else Normal (s, sent, done)
  end.

Definition CldSimpleMultipleSend (numToSend : Z) (s : cld) : option (outcome (cld * list ptr)) :=
  if numToSend =? 0 then Some (Normal (s, []))
  else
    match simple_loop (S (Z.to_nat numToSend)) 0 numToSend [] false s with
    | Aborted => Some Aborted
    | Normal (s, sent, done) => if done then Some (Normal (s, sent)) else None
    end.

(** [CldMultipleSendPrio]: [while (tok!=proc->sentinel)]; [msgs] has room for
    [numToSend] messages. *)
Fixpoint prio_loop (fuel : nat) (tok numToSend : Z) (immed : bool) (msgs : list ptr) (s : cld) : outcome (cld * list ptr) :=
  match fuel with
  | O => Aborted
  | S fuel =>
      if tok =? sentinel s then Normal (s, msgs)
      else
        t ← tok_at tok (toks s);
        let tok := t_succ t in
        if tok =? sentinel s then Normal (s, msgs)
        else
          t ← tok_at tok (toks s);
          '(s, m) ← CldGetTokenFromRankAt (t_pred t) s;
          if Z.of_nat (length msgs) <? numToSend then
            let '(s, msgs) := if negb (m =? NULL) then (prepare immed m s, msgs ++ [m]) else (s, msgs) in
            t ← tok_at tok (toks s);
            prio_loop fuel (t_succ t) numToSend immed msgs s
          else Aborted
  end.

Definition CldMultipleSendPrio (numToSend : Z) (immed : bool) (s : cld) : outcome (cld * list ptr) :=
  if numToSend =? 0 then Normal (s, [])
  else
    sen ← tok_at (sentinel s) (toks s);
    if t_succ sen =? sentinel s then Normal (s, [])
    else
      t ← tok_at (t_succ sen) (toks s);
      '(s, msgs) ← prio_loop (S (size (toks s))) (t_succ t) numToSend immed [] s;
      Normal (send_parcel immed msgs s, msgs).

(** [CldModuleGeneralInit]: the circle of the sentinel alone. *)
Definition CldModuleGeneralInit `{Uninit} (sen : Z) : cld :=
  mk_cld {[ sen := mk_tok uninit_word sen sen ]} sen 0 0 [] 0 ∅ 0 0.

(** ** Events of a processor *)

Inductive cld_event :=
  | EPut (tok : Z) (msg : ptr)      (** [CldPutToken], with the token allocated *)
  | EPutPrio (tok : Z) (msg : ptr)
  | EGet                            (** [CldGetToken] *)
  | EHandle (i : nat)               (** the scheduler takes a token out of its queue *)
  | EOthers (n : Z).                (** other messages come and go *)

(** The event, and the message it returns or hands over. *)
Definition cld_step `{Uninit} (e : cld_event) (s : cld) : outcome (cld * option ptr) :=
  match e with
  | EPut tok msg => s ← CldPutToken tok msg s; Normal (s, None)
  | EPutPrio tok msg => s ← CldPutTokenPrio tok msg s; Normal (s, None)
  | EGet => '(s, m) ← CldGetToken s; Normal (s, if m =? NULL then None else Some m)
  | EHandle i =>
      match csd_tokens s !! i with
      | Some tok => CldTokenHandler tok (set_csd (delete i (csd_tokens s)) s)
      | None => Normal (s, None)
      end
  | EOthers n => Normal (set_others n s, None)
  end.

(** ** The reference: a sequence of messages

    The messages that can be taken, with their tokens, in order; and the
    tokens in the scheduler queue. *)
Record acld := mk_acld { alive : list (Z * ptr); aqueue : list Z; aothers : Z }.

(** Before the first message whose priority is not smaller. *)
Fixpoint insert_prio (x : Z * ptr) (l : list (Z * ptr)) : list (Z * ptr) :=
  match l with
  | [] => [x]
  | y :: l => if negb (CqsPrioGT (msg_prio x.2) (msg_prio y.2)) then x :: y :: l else y :: insert_prio x l
  end.

Definition acld_step (e : cld_event) (a : acld) : acld * option ptr :=
  match e with
  | EPut tok msg => (mk_acld (alive a ++ [(tok, msg)]) (aqueue a ++ [tok]) (aothers a), None)
  | EPutPrio tok msg => (mk_acld (insert_prio (tok, msg) (alive a)) (aqueue a ++ [tok]) (aothers a), None)
  | EGet =>
      match alive a with
      | [] => (a, None)
      | (_, m) :: l => (mk_acld l (aqueue a) (aothers a), Some m)
      end
  | EHandle i =>
      match aqueue a !! i with
      | Some tok => (mk_acld (filter (fun x => ~ x.1 = tok) (alive a)) (delete i (aqueue a)) (aothers a),
                     (fun p => p.2.2) <$> list_find (fun x => x.1 = tok) (alive a))
      | None => (a, None)
      end
  | EOthers n => (mk_acld (alive a) (aqueue a) n, None)
  end.

End info.
