(* ===== verification/CldbFacts.v ===== *)
(** * CldbFacts: the circle of tokens refines a sequence of messages *)

From S2P Require Import Prelude Prioq Cldb.
#[local] Open Scope Z_scope.
Set Warnings "-clear-no-such-hyp".

(** ** Chains of pointers

    [chain f a l e]: following [f] from [a] one meets the elements of [l] and
    then [e]. *)

Fixpoint chain (f : Z -> option Z) (a : Z) (l : list Z) (e : Z) : Prop :=
  match l with
  | [] => f a = Some e
  | b :: l => f a = Some b /\ chain f b l e
  end.

Lemma circle_frame f f' l e : forall a, (forall y, y ∈ a :: l -> f' y = f y) -> chain f a l e -> chain f' a l e.
Proof.
  induction l as [|b l IH]; intros a Hf; cbn [chain].
  - intros H. rewrite Hf; [done|left].
  - intros [H1 H2]. split; [rewrite Hf; [done|left]|]. apply IH; [|done]. intros y Hy. apply Hf. by right.
Qed.

Lemma chain_app f l1 b l2 e : forall a, chain f a (l1 ++ b :: l2) e <-> chain f a l1 b /\ chain f b l2 e.
Proof. induction l1 as [|c l1 IH]; intros a; cbn [chain app]; [done|]. rewrite IH. tauto. Qed.

(** The last element, which points to the end. *)
Definition last_of (a : Z) (l : list Z) : Z := List.last (a :: l) a.

Lemma last_of_cons a b l : last_of a (b :: l) = last_of b l.
Proof. unfold last_of. cbn [List.last]. destruct l; [done|]. generalize z l. intros c l'. revert c. induction l' as [|d l' IH]; intros c; [done|]. cbn in *. apply IH. Qed.

Lemma last_of_snoc a l b : last_of a (l ++ [b]) = b.
Proof. revert a. induction l as [|c l IH]; intros a; [done|]. cbn [app]. by rewrite last_of_cons. Qed.

Lemma last_of_in a l : last_of a l ∈ a :: l.
Proof. revert a. induction l as [|b l IH]; intros a; [by left|]. rewrite last_of_cons. right. apply IH. Qed.

Lemma last_of_rev a l : last_of a (rev l) = hd a l.
Proof. destruct l as [|b l]; [done|]. cbn [rev hd]. apply last_of_snoc. Qed.

Lemma chain_last f l e : forall a, chain f a l e -> f (last_of a l) = Some e.
Proof. induction l as [|b l IH]; intros a; [done|]. intros [_ H]. rewrite last_of_cons. by apply IH. Qed.

(** The last pointer is changed. *)
Lemma chain_set_last f f' l e e' : forall a, NoDup (a :: l) -> (forall y, y ∈ a :: l -> y <> last_of a l -> f' y = f y) ->
  f' (last_of a l) = Some e' -> chain f a l e -> chain f' a l e'.
Proof.
  induction l as [|b l IH]; intros a Hn Hf He Hc; [done|]. rewrite last_of_cons in *. destruct Hc as [H1 H2].
  apply NoDup_cons in Hn as [Ha Hn]. split.
  - rewrite Hf; [done|left|]. intros ->. apply Ha, last_of_in.
  - apply IH; [done| |done|done]. intros y Hy Hne. apply Hf; [by right|done].
Qed.

Lemma chain_insert f f' a l1 x l2 e : NoDup (a :: l1 ++ l2) -> x ∉ a :: l1 ++ l2 -> f' (last_of a l1) = Some x -> f' x = Some (hd e l2) ->
  (forall y, y ∈ a :: l1 ++ l2 -> y <> last_of a l1 -> f' y = f y) -> chain f a (l1 ++ l2) e -> chain f' a (l1 ++ x :: l2) e.
Proof.
  intros Hn Hx H1 H2 Hf Hc. apply (NoDup_app (a :: l1) l2) in Hn as (Hn1 & Hd & Hn2). apply chain_app. destruct l2 as [|b l2].
  - rewrite app_nil_r in *. split; [|done]. eapply chain_set_last; [done|done|done|exact Hc].
  - apply chain_app in Hc as [Hc1 Hc2]. split.
    + eapply chain_set_last; [done| |done|exact Hc1]. intros y Hy Hne. apply Hf; [set_solver|done].
    + cbn [hd] in H2. split; [done|]. eapply circle_frame; [|exact Hc2]. intros y Hy. apply Hf; [set_solver|].
      intros ->. apply (Hd (last_of a l1)); [apply last_of_in|done].
Qed.

Lemma chain_remove f f' a l1 x l2 e : NoDup (a :: l1 ++ x :: l2) -> f' (last_of a l1) = Some (hd e l2) ->
  (forall y, y ∈ a :: l1 ++ l2 -> y <> last_of a l1 -> f' y = f y) -> chain f a (l1 ++ x :: l2) e -> chain f' a (l1 ++ l2) e.
Proof.
  intros Hn H1 Hf Hc. apply (NoDup_app (a :: l1) (x :: l2)) in Hn as (Hn1 & Hd & Hn2). apply chain_app in Hc as [Hc1 Hc2]. destruct l2 as [|b l2].
  - rewrite app_nil_r in *. eapply chain_set_last; [done|done|done|exact Hc1].
  - apply chain_app. destruct Hc2 as [_ Hc2]. split.
    + eapply chain_set_last; [done| |done|exact Hc1]. intros y Hy Hne. apply Hf; [set_solver|done].
    + eapply circle_frame; [|exact Hc2]. intros y Hy. apply Hf; [set_solver|].
      intros ->. apply (Hd (last_of a l1)); [apply last_of_in|by right].
Qed.

(** ** The fields of the tokens *)

Definition succ_of (T : gmap Z CldToken) (a : Z) : option Z := t_succ <$> T !! a.
Definition pred_of (T : gmap Z CldToken) (a : Z) : option Z := t_pred <$> T !! a.
Definition msg_of (T : gmap Z CldToken) (a : Z) : option ptr := t_msg <$> T !! a.

(** Two stores of tokens that agree but for one successor and one
    predecessor. *)
Record relinked (T T' : gmap Z CldToken) (p n sp pn : Z) : Prop := {
  relinked_succ y : succ_of T' y = if decide (y = p) then Some sp else succ_of T y;
  relinked_pred y : pred_of T' y = if decide (y = n) then Some pn else pred_of T y;
  relinked_msg y : msg_of T' y = msg_of T y
}.

Lemma upd_two T p n tp sp pn : T !! p = Some tp -> is_Some (T !! n) ->
  exists tn T', <[p := set_tsucc sp tp]> T !! n = Some tn /\ T' = <[n := set_tpred pn tn]> (<[p := set_tsucc sp tp]> T) /\ relinked T T' p n sp pn.
Proof.
  intros Hp [tn Hn]. destruct (decide (p = n)) as [<-|Hne].
  - rewrite lookup_insert_eq. do 2 eexists. split; [done|]. split; [done|]. rewrite insert_insert_eq.
    split; intros y; unfold succ_of, pred_of, msg_of; destruct (decide (y = p)) as [->|]; rewrite ?lookup_insert_eq, ?lookup_insert_ne, ?Hp by done; done.
  - rewrite lookup_insert_ne by done. do 2 eexists. split; [exact Hn|]. split; [done|].
    split; intros y; unfold succ_of, pred_of, msg_of; (destruct (decide (y = n)) as [->|]; [rewrite lookup_insert_eq|rewrite lookup_insert_ne by done];
      [|destruct (decide (y = p)) as [->|]; [rewrite lookup_insert_eq|rewrite lookup_insert_ne by done]]); rewrite ?Hp, ?Hn, ?decide_False by done; done.
Qed.

Lemma unlink_spec T tok t : T !! tok = Some t -> tok <> t_pred t -> is_Some (T !! t_pred t) -> is_Some (T !! t_succ t) ->
  exists T', unlink_token tok T = Normal T' /\ relinked T T' (t_pred t) (t_succ t) (t_succ t) (t_pred t).
Proof.
  intros Ht Hp [tp Hp'] Hn. destruct (upd_two T (t_pred t) (t_succ t) tp (t_succ t) (t_pred t) Hp' Hn) as (tn & T' & En & -> & Hr).
  eexists. split; [|exact Hr]. unfold unlink_token, upd_tok, tok_at. rewrite Ht. cbn [mbind outcome_bind]. rewrite Hp'. cbn [mbind outcome_bind].
  rewrite (lookup_insert_ne _ _ tok) by done. rewrite Ht. cbn [mbind outcome_bind]. by rewrite En.
Qed.

Lemma link_spec T tok t : T !! tok = Some t -> tok <> t_pred t -> is_Some (T !! t_pred t) -> is_Some (T !! t_succ t) ->
  exists T', link_token tok T = Normal T' /\ relinked T T' (t_pred t) (t_succ t) tok tok.
Proof.
  intros Ht Hp [tp Hp'] Hn. destruct (upd_two T (t_pred t) (t_succ t) tp tok tok Hp' Hn) as (tn & T' & En & -> & Hr).
  eexists. split; [|exact Hr]. unfold link_token, upd_tok, tok_at. rewrite Ht. cbn [mbind outcome_bind]. rewrite Hp'. cbn [mbind outcome_bind].
  rewrite (lookup_insert_ne _ _ tok) by done. rewrite Ht. cbn [mbind outcome_bind]. by rewrite En.
Qed.

(** ** The circle *)

Lemma chain_hd f a l e : chain f a l e -> f a = Some (hd e l).
Proof. destruct l; [done|]. by intros [? _]. Qed.

Lemma circle_some f l e : forall a y, chain f a l e -> y ∈ a :: l -> is_Some (f y).
Proof.
  induction l as [|b l IH]; intros a y Hc Hy.
  - apply list_elem_of_singleton in Hy as ->. by exists e.
  - destruct Hc as [H1 H2]. apply elem_of_cons in Hy as [->|Hy]; [by exists b|by eapply IH].
Qed.

Lemma hd_rev (s : Z) l : hd s (rev l) = last_of s l.
Proof. rewrite <- (last_of_rev s (rev l)). by rewrite rev_involutive. Qed.

Record ring (T : gmap Z CldToken) (s : Z) (ids : list Z) : Prop := {
  ring_nodup : NoDup (s :: ids);
  ring_succ : chain (succ_of T) s ids s;
  ring_pred : chain (pred_of T) s (rev ids) s
}.

Lemma fmap_is_Some {A B} (f : A -> B) (o : option A) : is_Some (f <$> o) -> is_Some o.
Proof. destruct o; [by eexists|by intros []]. Qed.

Lemma ring_some T s ids y : ring T s ids -> y ∈ s :: ids -> is_Some (T !! y).
Proof. intros Hr Hy. eapply fmap_is_Some, (circle_some (succ_of T)); [apply Hr|done]. Qed.

Lemma rev_perm_nodup (s : Z) l l' : l' ≡ₚ l -> NoDup (s :: l) -> NoDup (s :: l').
Proof. intros Hp. by rewrite Hp. Qed.

(** The neighbours of a token. *)
Lemma ring_at T s l1 x l2 : ring T s (l1 ++ x :: l2) -> exists t, T !! x = Some t /\ t_succ t = hd s l2 /\ t_pred t = last_of s l1.
Proof.
  intros [Hn Hs Hp]. apply chain_app in Hs as [_ Hs]. apply chain_hd in Hs. rewrite rev_app_distr in Hp. cbn [rev] in Hp. rewrite <- app_assoc in Hp.
  apply chain_app in Hp as [_ Hp]. apply chain_hd in Hp. rewrite hd_rev in Hp. unfold succ_of, pred_of in *. destruct (T !! x) as [t|]; [|done].
  injection Hs as Hs. injection Hp as Hp. by exists t.
Qed.

Lemma rev_insert_perm (l1 l2 : list Z) x : rev (l1 ++ x :: l2) = rev l2 ++ x :: rev l1.
Proof. rewrite rev_app_distr. cbn [rev]. by rewrite <- app_assoc. Qed.

Lemma nodup_rev_cons (s : Z) l : NoDup (s :: l) -> NoDup (s :: rev l).
Proof. intros H. eapply rev_perm_nodup; [|exact H]. symmetry. apply Permutation_rev. Qed.

Lemma elem_rev_cons (s y : Z) l : y ∈ s :: rev l <-> y ∈ s :: l.
Proof. rewrite !elem_of_cons. split; (intros [->|H]; [by left|right]); [rewrite (Permutation_rev l)|rewrite <- (Permutation_rev l)]; done. Qed.

Lemma ring_remove T T' s l1 x l2 : ring T s (l1 ++ x :: l2) -> relinked T T' (last_of s l1) (hd s l2) (hd s l2) (last_of s l1) -> ring T' s (l1 ++ l2).
Proof.
  intros [Hn Hs Hp] [Rs Rp _]. split.
  - apply (NoDup_app (s :: l1) (x :: l2)) in Hn as (N1 & Hd & [_ N2]%NoDup_cons). apply (NoDup_app (s :: l1) l2). split; [done|]. split; [|done].
    intros y Hy Hy2. apply (Hd y Hy). by right.
  - eapply chain_remove; [exact Hn| | |exact Hs]; [by rewrite Rs, decide_True|]. intros y _ Hne. by rewrite Rs, decide_False.
  - rewrite rev_app_distr. rewrite rev_insert_perm in Hp. eapply chain_remove; [| | |exact Hp].
    + rewrite <- rev_insert_perm. by apply nodup_rev_cons.
    + rewrite last_of_rev, hd_rev. by rewrite Rp, decide_True.
    + intros y _ Hne. rewrite last_of_rev in Hne. by rewrite Rp, decide_False.
Qed.

Lemma ring_insert T T1 T' s l1 x l2 : ring T s (l1 ++ l2) -> x ∉ s :: l1 ++ l2 ->
  (forall y, y <> x -> T1 !! y = T !! y) -> T1 !! x = Some (mk_tok (default 0 (msg_of T1 x)) (last_of s l1) (hd s l2)) ->
  relinked T1 T' (last_of s l1) (hd s l2) x x -> ring T' s (l1 ++ x :: l2).
Proof.
  intros [Hn Hs Hp] Hx Hf Hx1 [Rs Rp _].
  assert (x <> last_of s l1) as Hl. { intros ->. apply Hx. rewrite app_comm_cons. apply elem_of_app. left. apply last_of_in. }
  assert (x <> hd s l2) as Hh. { intros ->. apply Hx. destruct l2; [left|]. cbn. apply elem_of_cons. right. apply elem_of_app. right. left. }
  assert (forall y, y ∈ s :: l1 ++ l2 -> y <> x) as Hne by (intros y Hy ->; done).
  split.
  - rewrite (app_comm_cons l1 (x :: l2) s), <- Permutation_middle. apply NoDup_cons. done.
  - eapply chain_insert; [done|done| | | |exact Hs].
    + by rewrite Rs, decide_True.
    + rewrite Rs, decide_False by done. unfold succ_of. by rewrite Hx1.
    + intros y Hy Hy1. rewrite Rs, decide_False by done. unfold succ_of. by rewrite Hf by (by apply Hne).
  - rewrite rev_insert_perm. rewrite rev_app_distr in Hp.
    assert (forall y, y ∈ s :: rev l2 ++ rev l1 <-> y ∈ s :: l1 ++ l2) as He by (intros y; rewrite <- rev_app_distr; apply elem_rev_cons).
    eapply chain_insert; [| | | | |exact Hp].
    + rewrite <- rev_app_distr. by apply nodup_rev_cons.
    + by rewrite He.
    + rewrite last_of_rev. by rewrite Rp, decide_True.
    + rewrite hd_rev, Rp, decide_False by done. unfold pred_of. by rewrite Hx1.
    + intros y Hy Hy1. rewrite last_of_rev in Hy1. rewrite Rp, decide_False by done. unfold pred_of. rewrite Hf; [done|]. apply Hne. by apply He.
Qed.

(** ** The state of a processor and the sequence it stands for *)

Section refine.
Context `{Uninit}.

Record crel (s : cld) (a : acld) : Prop := {
  r_ring : ring (toks s) (sentinel s) (alive a).*1;
  r_msg id m : (id, m) ∈ alive a -> msg_of (toks s) id = Some m /\ m <> NULL;
  r_load : load s = Z.of_nat (length (alive a));
  r_queue : csd_tokens s = aqueue a;
  r_nodup : NoDup (aqueue a);
  r_in : (alive a).*1 ⊆ aqueue a;
  r_sen : sentinel s ∉ aqueue a;
  r_empty id : id ∈ aqueue a -> id ∉ (alive a).*1 -> msg_of (toks s) id = Some NULL;
  r_off : CldLoadOffset s = Z.of_nat (length (aqueue a)) - Z.of_nat (length (alive a));
  r_oth : csd_others s = aothers a
}.

Lemma crel_init sen : crel (CldModuleGeneralInit sen) (mk_acld [] [] 0).
Proof.
  unfold CldModuleGeneralInit. split; cbn [alive aqueue aothers toks sentinel fmap list_fmap length]; try done.
  - split; [apply NoDup_singleton|unfold succ_of|unfold pred_of]; cbn [rev chain]; by rewrite lookup_singleton_eq.
  - intros id m Hi. by apply not_elem_of_nil in Hi.
  - apply NoDup_nil_2.
  - apply not_elem_of_nil.
Qed.

Lemma crel_some s a id : crel s a -> id ∈ sentinel s :: aqueue a -> is_Some (toks s !! id).
Proof.
  intros R Hi. apply elem_of_cons in Hi as [->|Hi].
  - apply (ring_some _ _ _ _ (r_ring _ _ R)). left.
  - destruct (decide (id ∈ (alive a).*1)) as [Ha|Ha].
    + apply (ring_some _ _ _ _ (r_ring _ _ R)). by right.
    + pose proof (r_empty _ _ R id Hi Ha) as E. apply (fmap_is_Some t_msg). by exists NULL.
Qed.

(** A new token between two neighbours. *)
Lemma put_between s a tok msg l1 l2 : crel s a -> alive a = l1 ++ l2 -> toks s !! tok = None -> msg <> NULL ->
  exists T, link_token tok (<[tok := mk_tok msg (last_of (sentinel s) l1.*1) (hd (sentinel s) l2.*1)]> (toks s)) = Normal T /\
    crel (set_csd (csd_tokens s ++ [tok]) (set_load (load s + 1) (set_toks T s))) (mk_acld (l1 ++ (tok, msg) :: l2) (aqueue a ++ [tok]) (aothers a)).
Proof.
  intros R Ea Hf Hm. pose proof (r_ring _ _ R) as Hr. rewrite Ea, fmap_app in Hr. set (sen := sentinel s) in *. set (T1 := <[tok := _]> (toks s)).
  assert (forall id, id ∈ sen :: aqueue a -> id <> tok) as Hne by (intros id Hi ->; destruct (crel_some s a tok R Hi); congruence).
  assert (forall id, id ∈ sen :: l1.*1 ++ l2.*1 -> id <> tok) as Hne2.
  { intros id Hi. apply Hne. apply elem_of_cons in Hi as [->|Hi]; [left|right]. apply (r_in _ _ R). by rewrite Ea, fmap_app. }
  assert (last_of sen l1.*1 ∈ sen :: l1.*1 ++ l2.*1) as Hl by (rewrite app_comm_cons; apply elem_of_app; left; apply last_of_in).
  assert (hd sen l2.*1 ∈ sen :: l1.*1 ++ l2.*1) as Hh by (destruct l2.*1; [left|]; cbn; right; apply elem_of_app; right; left).
  assert (forall id, id ∈ sen :: l1.*1 ++ l2.*1 -> is_Some (T1 !! id)) as Hsome.
  { intros id Hi. unfold T1. rewrite lookup_insert_ne by (symmetry; by apply Hne2). by apply (ring_some _ _ _ _ Hr). }
  destruct (link_spec T1 tok (mk_tok msg (last_of sen l1.*1) (hd sen l2.*1))) as (T & -> & Hrel);
    [apply lookup_insert_eq|symmetry; by apply Hne2|by apply Hsome|by apply Hsome|]. cbn [t_pred t_succ] in Hrel.
  assert (forall y, msg_of T y = if decide (y = tok) then Some msg else msg_of (toks s) y) as Hmsg.
  { intros y. rewrite (relinked_msg _ _ _ _ _ _ Hrel). unfold msg_of, T1. destruct (decide (y = tok)) as [->|]; [by rewrite lookup_insert_eq|by rewrite lookup_insert_ne]. }
  eexists. split; [done|]. split; cbn [alive aqueue aothers toks sentinel load csd_tokens csd_others CldLoadOffset set_csd set_load set_toks].
  - rewrite fmap_app. cbn [fmap list_fmap fst]. eapply (ring_insert (toks s) T1); [done|intros Hi; by apply (Hne2 tok)| | |exact Hrel].
    + intros y Hy. unfold T1. by rewrite lookup_insert_ne.
    + unfold msg_of, T1. by rewrite lookup_insert_eq.
  - intros id m Hi. rewrite Hmsg. assert ((id, m) = (tok, msg) \/ (id, m) ∈ alive a) as [[= -> ->]|Hi'] by (rewrite Ea; set_solver).
    + by rewrite decide_True.
    + rewrite decide_False; [by apply (r_msg _ _ R)|]. apply Hne. right. apply (r_in _ _ R). apply list_elem_of_fmap. by exists (id, m).
  - rewrite (r_load _ _ R), Ea, !length_app. cbn [length]. lia.
  - by rewrite (r_queue _ _ R).
  - apply NoDup_app. split; [apply (r_nodup _ _ R)|]. split; [|apply NoDup_singleton]. intros id Hi ->%list_elem_of_singleton. apply (Hne tok); [by right|done].
  - pose proof (r_in _ _ R) as Hin. rewrite Ea in Hin. rewrite !fmap_app in *. cbn [fmap list_fmap fst] in *. set_solver.
  - pose proof (r_sen _ _ R). pose proof (Hne sen). set_solver.
  - intros id [Hi| ->%list_elem_of_singleton]%elem_of_app Hn; [|exfalso; apply Hn; rewrite fmap_app; cbn; set_solver].
    rewrite Hmsg, decide_False by (apply Hne; by right). apply (r_empty _ _ R id Hi). rewrite Ea. rewrite fmap_app in *. cbn [fmap list_fmap fst] in Hn. set_solver.
  - rewrite (r_off _ _ R), Ea, !length_app. cbn [length]. lia.
  - apply (r_oth _ _ R).
Qed.

Lemma put_token s a tok msg : crel s a -> toks s !! tok = None -> msg <> NULL ->
  exists s', CldPutToken tok msg s = Normal s' /\ crel s' (mk_acld (alive a ++ [(tok, msg)]) (aqueue a ++ [tok]) (aothers a)).
Proof.
  intros R Hf Hm. destruct (put_between s a tok msg (alive a) [] R ltac:(by rewrite app_nil_r) Hf Hm) as (T & EL & R').
  eexists. split; [|exact R']. unfold CldPutToken. pose proof (r_ring _ _ R) as Hr.
  destruct (ring_some _ _ _ (sentinel s) Hr ltac:(left)) as [sen Hs].
  assert (t_pred sen = last_of (sentinel s) (alive a).*1) as Hp.
  { pose proof (chain_hd _ _ _ _ (ring_pred _ _ _ Hr)) as Hp. unfold pred_of in Hp. rewrite Hs, hd_rev in Hp. by injection Hp. }
  assert (sentinel s <> tok) by (intros <-; congruence).
  unfold new_token, tok_at, upd_tok. rewrite lookup_insert_ne, Hs by done. cbn [mbind outcome_bind]. unfold tok_at. rewrite lookup_insert_eq. cbn [mbind outcome_bind].
  rewrite insert_insert_eq, lookup_insert_eq. cbn [mbind outcome_bind]. rewrite insert_insert_eq. unfold set_tsucc, set_tpred. cbn [t_msg t_pred t_succ].
  cbn [fmap list_fmap hd] in EL. rewrite Hp, EL. done.
Qed.

Lemma ring_frame T T' s ids : (forall y, y ∈ s :: ids -> T' !! y = T !! y) -> ring T s ids -> ring T' s ids.
Proof.
  intros Hf [Hn Hs Hp]. split; [done| |].
  - eapply circle_frame; [|exact Hs]. intros y Hy. unfold succ_of. by rewrite Hf.
  - eapply circle_frame; [|exact Hp]. intros y Hy. unfold pred_of. rewrite Hf; [done|]. by apply (elem_rev_cons s y ids).
Qed.

(** Who precedes the element at a place, or the sentinel. *)
Lemma ring_pred_at T s l1 l2 : ring T s (l1 ++ l2) -> exists t, T !! hd s l2 = Some t /\ t_pred t = last_of s l1.
Proof.
  intros Hr. destruct l2 as [|x l2]; [|destruct (ring_at _ _ _ _ _ Hr) as (t & ? & _ & ?); by exists t]. rewrite app_nil_r in Hr. cbn [hd].
  pose proof (chain_hd _ _ _ _ (ring_pred _ _ _ Hr)) as Hp. rewrite hd_rev in Hp. unfold pred_of in Hp. destruct (T !! s) as [t|]; [|done].
  exists t. split; [done|]. by injection Hp.
Qed.

(** A token leaves the circle. *)
Lemma take_out s a l1 id m l2 : crel s a -> alive a = l1 ++ (id, m) :: l2 ->
  exists T, unlink_token id (toks s) = Normal T /\ ring T (sentinel s) (l1 ++ l2).*1 /\ (forall y, msg_of T y = msg_of (toks s) y) /\
    id ∉ sentinel s :: (l1 ++ l2).*1.
Proof.
  intros R Ea. pose proof (r_ring _ _ R) as Hr. rewrite Ea, fmap_app in Hr. cbn [fmap list_fmap fst] in Hr.
  destruct (ring_at _ _ _ _ _ Hr) as (t & Ht & Hs & Hp).
  assert (id ∉ sentinel s :: l1.*1 ++ l2.*1) as Hid.
  { pose proof (ring_nodup _ _ _ Hr) as Hn. rewrite app_comm_cons, <- Permutation_middle in Hn. by apply NoDup_cons in Hn as [Hn _]. }
  destruct (unlink_spec (toks s) id t Ht) as (T & E & Hrel).
  - rewrite Hp. intros Hx. apply Hid. rewrite Hx, app_comm_cons. apply elem_of_app. left. apply last_of_in.
  - rewrite Hp. apply (ring_some _ _ _ _ Hr). rewrite app_comm_cons. apply elem_of_app. left. apply last_of_in.
  - rewrite Hs. apply (ring_some _ _ _ _ Hr). destruct l2.*1; [left|]. cbn [hd]. right. apply elem_of_app. right. right. left.
  - exists T. split; [done|]. rewrite Hs, Hp in Hrel. split; [rewrite fmap_app; by eapply ring_remove|]. split; [apply (relinked_msg _ _ _ _ _ _ Hrel)|]. by rewrite fmap_app.
Qed.

(** [_CldGetTokenMsgAt] with the count of empty tokens. *)
Lemma get_at s a l1 id m l2 : crel s a -> alive a = l1 ++ (id, m) :: l2 ->
  exists s', CldGetTokenMsgAt id s = Normal (s', m) /\ m <> NULL /\ crel (set_offset (CldLoadOffset s' + 1) s') (mk_acld (l1 ++ l2) (aqueue a) (aothers a)) /\ headers s' = headers s /\
    CldRelocatedMessages s' = CldRelocatedMessages s /\ CldMessageChunks s' = CldMessageChunks s.
Proof.
  intros R Ea. destruct (take_out s a l1 id m l2 R Ea) as (T & EU & Hr & Hmsg & Hid). destruct (r_msg _ _ R id m) as [Em Hm]; [rewrite Ea; apply elem_of_app; right; left|].
  assert (msg_of T id = Some m) as Em' by (by rewrite Hmsg). unfold msg_of in Em'. destruct (T !! id) as [t|] eqn:Et; [|done]. injection Em' as Em'.
  assert (id ∈ aqueue a) as Hq by (apply (r_in _ _ R); rewrite Ea, fmap_app; apply elem_of_app; right; left).
  eexists. split.
  { unfold CldGetTokenMsgAt. rewrite (proj2 (Z.eqb_neq id (sentinel s))) by set_solver. rewrite EU. cbn [mbind outcome_bind]. unfold upd_tok, tok_at. rewrite Et. cbn [mbind outcome_bind].
    by rewrite Em'. }
  split; [done|]. split; [|done]. set (T' := <[id := set_tmsg NULL t]> T).
  assert (forall y, msg_of T' y = if decide (y = id) then Some NULL else msg_of (toks s) y) as Hmsg'.
  { intros y. rewrite <- Hmsg. unfold msg_of, T'. destruct (decide (y = id)) as [->|]; [by rewrite lookup_insert_eq|by rewrite lookup_insert_ne]. }
  split; cbn [alive aqueue aothers toks sentinel load csd_tokens csd_others CldLoadOffset set_offset set_load set_toks].
  - eapply ring_frame; [|exact Hr]. intros y Hy. apply lookup_insert_ne. intros ->. done.
  - intros id' m' Hi. rewrite Hmsg', decide_False; [apply (r_msg _ _ R); rewrite Ea; set_solver|]. intros ->. apply Hid. right. apply list_elem_of_fmap. by exists (id, m').
  - rewrite (r_load _ _ R), Ea, !length_app. cbn [length]. lia.
  - apply (r_queue _ _ R).
  - apply (r_nodup _ _ R).
  - pose proof (r_in _ _ R) as Hin. rewrite Ea in Hin. rewrite !fmap_app in *. cbn [fmap list_fmap fst] in Hin. set_solver.
  - apply (r_sen _ _ R).
  - intros y Hy Hn. rewrite Hmsg'. destruct (decide (y = id)) as [->|]; [done|]. apply (r_empty _ _ R y Hy). rewrite Ea. rewrite fmap_app in *. cbn [fmap list_fmap fst]. set_solver.
  - rewrite (r_off _ _ R), Ea, !length_app. cbn [length]. lia.
  - apply (r_oth _ _ R).
Qed.

(** [CldGetToken] takes the first message. *)
Lemma get_token s a : crel s a -> exists s', CldGetToken s = Normal (s', match alive a with [] => NULL | (_, m) :: _ => m end) /\
  crel s' (mk_acld (tail (alive a)) (aqueue a) (aothers a)) /\ headers s' = headers s /\
  CldRelocatedMessages s' = CldRelocatedMessages s /\ CldMessageChunks s' = CldMessageChunks s.
Proof.
  intros R. unfold CldGetToken, CldGetTokenMsg. pose proof (chain_hd _ _ _ _ (ring_succ _ _ _ (r_ring _ _ R))) as Hs. unfold succ_of in Hs.
  unfold tok_at. destruct (toks s !! sentinel s) as [sen|]; [|done]. injection Hs as Hs. cbn [mbind outcome_bind]. rewrite Hs.
  destruct (alive a) as [|[id m] l] eqn:Ea; cbn [fmap list_fmap hd fst tail].
  - unfold CldGetTokenMsgAt. rewrite Z.eqb_refl. cbn [mbind outcome_bind]. exists s. split; [done|]. split; [|done]. rewrite <- Ea. by destruct a.
  - destruct (get_at s a [] id m l R Ea) as (s' & -> & Hm & R' & Hh & Hc). cbn [mbind outcome_bind]. rewrite (proj2 (Z.eqb_neq m NULL)) by done. cbn [negb]. eexists. split; [done|]. done.
Qed.

(** Removing a token that is not there, and one that is. *)
Lemma filter_same id (l : list (Z * ptr)) : id ∉ l.*1 -> filter (fun x : Z * ptr => ~ x.1 = id) l = l /\ list_find (fun x : Z * ptr => x.1 = id) l = None.
Proof.
  intros Hid. split; [|apply list_find_None, Forall_forall; intros x Hx E; apply Hid, list_elem_of_fmap; by exists x].
  induction l as [|x l IH]; [done|]. cbn [fmap list_fmap] in Hid. apply not_elem_of_cons in Hid as [Hx Hl]. rewrite filter_cons, decide_True by (intros E; by apply Hx). f_equal. by apply IH.
Qed.

Lemma filter_out l1 id (m : ptr) l2 : id ∉ (l1 ++ l2).*1 -> filter (fun x : Z * ptr => ~ x.1 = id) (l1 ++ (id, m) :: l2) = l1 ++ l2 /\
  (fun p : nat * (Z * ptr) => p.2.2) <$> list_find (fun x : Z * ptr => x.1 = id) (l1 ++ (id, m) :: l2) = Some m.
Proof.
  intros Hid. rewrite fmap_app in Hid. apply not_elem_of_app in Hid as [H1 H2].
  split.
  - rewrite filter_app, filter_cons, decide_False by (intros Hx; by apply Hx). rewrite (proj1 (filter_same id l1 H1)), (proj1 (filter_same id l2 H2)). done.
  - rewrite list_find_app_r by (by apply filter_same). cbn [list_find]. by rewrite decide_True.
Qed.

(** A token out of the queue is handled. *)
Lemma handle_token s a i tok : crel s a -> aqueue a !! i = Some tok ->
  exists s' m, CldTokenHandler tok (set_csd (delete i (csd_tokens s)) s) = Normal (s', m) /\
    m = (fun p : nat * (Z * ptr) => p.2.2) <$> list_find (fun x : Z * ptr => x.1 = tok) (alive a) /\
    crel s' (mk_acld (filter (fun x : Z * ptr => ~ x.1 = tok) (alive a)) (delete i (aqueue a)) (aothers a)).
Proof.
  intros R Hi. pose proof (list_elem_of_lookup_2 _ _ _ Hi) as Hq. pose proof (delete_Permutation _ _ _ Hi) as Hp. rewrite (r_queue _ _ R).
  remember (delete i (aqueue a)) as D eqn:ED. clear ED Hi. pose proof (r_nodup _ _ R) as Hnd. rewrite Hp in Hnd. apply NoDup_cons in Hnd as [Htok Hnd'].
  assert (forall y, y ∈ D <-> y ∈ aqueue a /\ y <> tok) as Hdel by (intros y; rewrite Hp, elem_of_cons; split; [intros Hy; split; [by right|by intros ->]|by intros [[->|] ?]]).
  assert (S (length D) = length (aqueue a)) as Hlen by (by rewrite Hp).
  unfold CldTokenHandler. cbn [toks set_csd]. destruct (decide (tok ∈ (alive a).*1)) as [Ha|Ha].
  - apply list_elem_of_fmap in Ha as ([id m] & -> & Ha). cbn [fst] in *. apply list_elem_of_split in Ha as (l1 & l2 & Ea).
    destruct (take_out s a l1 id m l2 R Ea) as (T & EU & Hr & Hmsg & Hid). destruct (r_msg _ _ R id m) as [Em Hm]; [rewrite Ea; apply elem_of_app; right; left|].
    destruct (filter_out l1 id m l2) as [Ef El]; [set_solver|]. rewrite Ea, Ef, El.
    unfold tok_at, msg_of in *. destruct (toks s !! id) as [t|] eqn:Et; [|done]. injection Em as Em. cbn [mbind outcome_bind]. rewrite Em, (proj2 (Z.eqb_neq m NULL)) by done. cbn [negb].
    rewrite EU. cbn [mbind outcome_bind]. do 2 eexists. split; [done|]. split; [done|].
    split; cbn [alive aqueue aothers toks sentinel load csd_tokens csd_others CldLoadOffset set_csd set_load set_toks].
    + eapply ring_frame; [|exact Hr]. intros y Hy. apply lookup_delete_ne. intros ->. done.
    + intros id' m' Hi'. assert (id' <> id) as Hne by (intros ->; apply Hid; right; apply list_elem_of_fmap; by exists (id, m')).
      unfold msg_of. rewrite lookup_delete_ne by done. specialize (Hmsg id'). rewrite Hmsg. apply (r_msg _ _ R). rewrite Ea. set_solver.
    + rewrite (r_load _ _ R), Ea, !length_app. cbn [length]. lia.
    + done.
    + done.
    + intros y Hy. apply Hdel. split; [apply (r_in _ _ R); rewrite Ea; rewrite fmap_app in *; cbn [fmap list_fmap fst]; set_solver|]. intros ->. apply Hid. by right.
    + intros [Hs _]%Hdel. by apply (r_sen _ _ R).
    + intros y [Hy Hne]%Hdel Hn. unfold msg_of. rewrite lookup_delete_ne by done. specialize (Hmsg y). rewrite Hmsg. apply (r_empty _ _ R y Hy).
      rewrite Ea. rewrite fmap_app in *. cbn [fmap list_fmap fst]. set_solver.
    + rewrite (r_off _ _ R), Ea, !length_app. cbn [length]. lia.
    + apply (r_oth _ _ R).
  - pose proof (r_empty _ _ R tok Hq Ha) as Em. unfold tok_at, msg_of in *. destruct (toks s !! tok) as [t|] eqn:Et; [|done]. injection Em as Em.
    cbn [mbind outcome_bind]. rewrite Em, Z.eqb_refl. cbn [negb]. do 2 eexists. split; [done|].
    destruct (filter_same tok (alive a) Ha) as [-> ->].
    split; [done|]. split; cbn [alive aqueue aothers toks sentinel load csd_tokens csd_others CldLoadOffset set_csd set_load set_toks set_offset].
    + eapply ring_frame; [|apply (r_ring _ _ R)]. intros y Hy. apply lookup_delete_ne. intros ->. apply elem_of_cons in Hy as [->|Hy]; [by apply (r_sen _ _ R)|done].
    + intros id' m' Hi'. unfold msg_of. rewrite lookup_delete_ne; [by apply (r_msg _ _ R)|]. intros ->. apply Ha, list_elem_of_fmap. by exists (id', m').
    + apply (r_load _ _ R).
    + done.
    + done.
    + intros y Hy. apply Hdel. split; [by apply (r_in _ _ R)|]. by intros ->.
    + intros [Hs _]%Hdel. by apply (r_sen _ _ R).
    + intros y [Hy Hne]%Hdel Hn. unfold msg_of. rewrite lookup_delete_ne by done. by apply (r_empty _ _ R y Hy).
    + rewrite (r_off _ _ R). lia.
    + apply (r_oth _ _ R).
Qed.
(** ** Tokens in the order of priorities *)

Context (msg_prio : ptr -> prio).

(** Where a priority is inserted. *)
Fixpoint prio_split (p : prio) (l : list (Z * ptr)) : list (Z * ptr) * list (Z * ptr) :=
  match l with
  | [] => ([], [])
  | y :: l => if negb (CqsPrioGT p (msg_prio y.2)) then ([], y :: l) else let '(l1, l2) := prio_split p l in (y :: l1, l2)
  end.

Lemma insert_prio_split x l : let '(l1, l2) := prio_split (msg_prio x.2) l in l = l1 ++ l2 /\ insert_prio msg_prio x l = l1 ++ x :: l2.
Proof.
  induction l as [|y l IH]; [done|]. cbn [prio_split insert_prio]. destruct (negb (CqsPrioGT (msg_prio x.2) (msg_prio y.2))); [done|].
  destruct (prio_split (msg_prio x.2) l) as [l1 l2]. destruct IH as [-> ->]. done.
Qed.

Lemma find_place_spec s T p l : forall l0 fuel, ring T (sentinel s) (l0 ++ l).*1 -> (forall id m, (id, m) ∈ l -> msg_of T id = Some m) ->
  (length l < fuel)%nat -> find_place msg_prio fuel p (hd (sentinel s) l.*1) s T = Normal (hd (sentinel s) (prio_split p l).2.*1).
Proof.
  induction l as [|[id m] l IH]; intros l0 fuel Hr Hm Hf; (destruct fuel as [|fuel]; [cbn in Hf; lia|]); cbn [find_place prio_split fmap list_fmap hd fst snd].
  { by rewrite Z.eqb_refl. }
  rewrite fmap_app in Hr. cbn [fmap list_fmap fst] in Hr. destruct (ring_at _ _ _ _ _ Hr) as (t & Ht & Hts & _).
  rewrite (proj2 (Z.eqb_neq id (sentinel s))); [|intros ->; pose proof (ring_nodup _ _ _ Hr) as Hn; apply NoDup_cons in Hn as [Hn _]; apply Hn, elem_of_app; right; left].
  unfold tok_at. rewrite Ht. cbn [mbind outcome_bind]. assert (t_msg t = m) as ->.
  { pose proof (Hm id m ltac:(left)) as E. unfold msg_of in E. rewrite Ht in E. by injection E. }
  destruct (negb (CqsPrioGT p (msg_prio m))); [done|]. rewrite Hts. rewrite (IH (l0 ++ [(id, m)])).
  - by destruct (prio_split p l).
  - rewrite !fmap_app. cbn [fmap list_fmap fst]. by rewrite <- app_assoc.
  - intros id' m' Hi. apply Hm. by right.
  - cbn in Hf. lia.
Qed.

Lemma alive_size s a : crel s a -> (length (alive a) <= size (toks s))%nat.
Proof.
  intros R. rewrite <- (length_fmap fst). rewrite <- (size_dom (toks s)).
  rewrite <- (size_list_to_set (C := gset Z) (alive a).*1).
  - apply subseteq_size. intros id Hi. apply elem_of_list_to_set in Hi. apply elem_of_dom. apply (crel_some s a id R). right. by apply (r_in _ _ R).
  - pose proof (ring_nodup _ _ _ (r_ring _ _ R)) as Hn. by apply NoDup_cons in Hn as [_ Hn].
Qed.

Lemma put_token_prio s a tok msg : crel s a -> toks s !! tok = None -> msg <> NULL ->
  exists s', CldPutTokenPrio msg_prio tok msg s = Normal s' /\ crel s' (mk_acld (insert_prio msg_prio (tok, msg) (alive a)) (aqueue a ++ [tok]) (aothers a)).
Proof.
  intros R Hf Hm. pose proof (insert_prio_split (tok, msg) (alive a)) as Hi. cbn [snd] in Hi.
  destruct (prio_split (msg_prio msg) (alive a)) as [l1 l2] eqn:Es. destruct Hi as [Ea ->].
  destruct (put_between s a tok msg l1 l2 R Ea Hf Hm) as (T & EL & R').
  eexists. split; [|exact R']. unfold CldPutTokenPrio. pose proof (r_ring _ _ R) as Hr. set (T1 := new_token tok msg (toks s)).
  assert (forall y, y ∈ sentinel s :: (alive a).*1 -> y <> tok) as Hne by (intros y Hy ->; destruct (ring_some _ _ _ _ Hr Hy); congruence).
  assert (forall y, y ∈ sentinel s :: (alive a).*1 -> T1 !! y = toks s !! y) as Hsame by (intros y Hy; apply lookup_insert_ne; symmetry; by apply Hne).
  assert (ring T1 (sentinel s) (alive a).*1) as Hr1 by (by eapply ring_frame).
  pose proof (chain_hd _ _ _ _ (ring_succ _ _ _ Hr1)) as Hs. unfold succ_of in Hs. destruct (T1 !! sentinel s) as [sen|] eqn:E1; [|done]. injection Hs as Hs.
  assert (tok_at (sentinel s) T1 = Normal sen) as -> by (unfold tok_at; by rewrite E1). cbn [mbind outcome_bind]. rewrite Hs. rewrite (find_place_spec s T1 (msg_prio msg) (alive a) []).
  2: done. 2: { intros id m Hi. destruct (r_msg _ _ R id m Hi) as [E _]. unfold msg_of in *. rewrite Hsame; [done|]. right. apply list_elem_of_fmap. by exists (id, m). }
  2: { pose proof (alive_size s a R). unfold T1, new_token. rewrite map_size_insert_None by done. lia. }
  rewrite Es. cbn [snd mbind outcome_bind]. rewrite Ea, fmap_app in Hr. destruct (ring_pred_at _ _ _ _ Hr) as (t & Ht & Hp).
  assert (hd (sentinel s) l2.*1 <> tok) as Hh by (intros E; rewrite E in Ht; congruence).
  unfold upd_tok, tok_at, T1, new_token. rewrite lookup_insert_eq. cbn [mbind outcome_bind]. rewrite insert_insert_eq, (lookup_insert_ne _ tok (hd (sentinel s) l2.*1)), Ht by congruence. cbn [mbind outcome_bind].
  rewrite lookup_insert_eq. cbn [mbind outcome_bind]. rewrite insert_insert_eq. unfold set_tsucc, set_tpred. cbn [t_msg t_pred t_succ]. by rewrite Hp, EL.
Qed.

End refine.
