(* ===== verification/CldbSpec.v ===== *)
(** * CldbSpec: what the tokens of load balancing promise

    Messages put as tokens are handed over or taken exactly once, in whatever
    order the scheduler handles the tokens; and what a load balancer sends in
    parcels. *)

From S2P Require Import Prelude Prioq Cldb CldbFacts.
#[local] Open Scope Z_scope.
Set Warnings "-clear-no-such-hyp".

Section spec.
Context `{Uninit} (msg_len : ptr -> Z) (msg_prio : ptr -> prio).

(** A token is allocated at an address that is not in use, for a message. *)
Definition allowed (e : cld_event) (s : cld) : Prop :=
  match e with
  | EPut tok msg | EPutPrio tok msg => toks s !! tok = None /\ msg <> NULL
  | _ => True
  end.

Fixpoint cld_run (es : list cld_event) (s : cld) : outcome (cld * list (option ptr)) :=
  match es with
  | [] => Normal (s, [])
  | e :: es => '(s, o) ← cld_step msg_prio e s; '(s, os) ← cld_run es s; Normal (s, o :: os)
  end.

Fixpoint allowed_run (es : list cld_event) (s : cld) : Prop :=
  match es with
  | [] => True
  | e :: es => allowed e s /\ match cld_step msg_prio e s with Normal (s, _) => allowed_run es s | Aborted => True end
  end.

Fixpoint acld_run (es : list cld_event) (a : acld) : acld * list (option ptr) :=
  match es with
  | [] => (a, [])
  | e :: es => let '(a, o) := acld_step msg_prio e a in let '(a, os) := acld_run es a in (a, o :: os)
  end.

(** The messages put by a sequence of events. *)
Definition puts (es : list cld_event) : list ptr :=
  omap (fun e => match e with EPut _ m | EPutPrio _ m => Some m | _ => None end) es.

Lemma step_refines e s a : crel s a -> allowed e s ->
  exists s', cld_step msg_prio e s = Normal (s', (acld_step msg_prio e a).2) /\ crel s' (acld_step msg_prio e a).1.
Proof.
  intros R Ha. destruct e as [tok m|tok m| |i|n]; cbn [cld_step acld_step allowed] in *.
  - destruct (put_token s a tok m R (proj1 Ha) (proj2 Ha)) as (s' & -> & R'). by exists s'.
  - destruct (put_token_prio msg_prio s a tok m R (proj1 Ha) (proj2 Ha)) as (s' & -> & R'). by exists s'.
  - destruct (get_token s a R) as (s' & -> & R' & _). cbn [mbind outcome_bind]. exists s'. destruct (alive a) as [|[id m] l] eqn:Ea; cbn [fst snd tail] in *.
    + split; [done|]. destruct a as [al q o]. cbn in Ea. by subst.
    + split; [|done]. rewrite (proj2 (Z.eqb_neq m NULL)); [done|]. apply (r_msg _ _ R id m). rewrite Ea. left.
  - rewrite (r_queue _ _ R). destruct (aqueue a !! i) as [tok|] eqn:Ei; [|by exists s].
    destruct (handle_token s a i tok R Ei) as (s' & m & E & -> & R'). rewrite (r_queue _ _ R) in E. exists s'. done.
  - exists (set_others n s). split; [done|]. destruct R. by split.
Qed.

(** The messages of the sequence, and what leaves it. *)
Lemma step_conserves e s a : crel s a ->
  (alive (acld_step msg_prio e a).1).*2 ++ omap id [(acld_step msg_prio e a).2] ≡ₚ (alive a).*2 ++ puts [e].
Proof.
  intros R. destruct e as [tok m|tok m| |i|n]; cbn [acld_step puts omap list_omap alive fst snd id].
  - rewrite fmap_app, app_nil_r. done.
  - pose proof (insert_prio_split msg_prio (tok, m) (alive a)) as Hs. cbn [snd] in Hs. destruct (prio_split msg_prio (msg_prio m) (alive a)) as [l1 l2].
    destruct Hs as [-> ->]. rewrite !fmap_app. cbn [fmap list_fmap snd]. rewrite app_nil_r. rewrite <- (app_assoc l1.*2). rewrite <- Permutation_middle, (Permutation_app_comm l2.*2). cbn. by rewrite <- Permutation_middle.
  - destruct (alive a) as [|[id' m] l] eqn:Ea; cbn [fst snd alive omap list_omap id]; [by rewrite Ea|]. cbn [fmap list_fmap snd]. rewrite app_nil_r. by rewrite Permutation_app_comm.
  - destruct (aqueue a !! i) as [tok|]; cbn [fst snd alive omap list_omap id]; [|done]. rewrite app_nil_r.
    destruct (decide (tok ∈ (alive a).*1)) as [Ha|Ha].
    + apply list_elem_of_fmap in Ha as ([id' m] & -> & Ha). cbn [fst] in *. apply list_elem_of_split in Ha as (l1 & l2 & Ea).
      pose proof (ring_nodup _ _ _ (r_ring _ _ R)) as Hn. apply NoDup_cons in Hn as [_ Hn]. rewrite Ea, fmap_app in Hn. cbn [fmap list_fmap fst] in Hn.
      rewrite <- Permutation_middle in Hn. apply NoDup_cons in Hn as [Hn _]. destruct (filter_out l1 id' m l2) as [Ef El]; [by rewrite fmap_app|].
      rewrite Ea, Ef, El. rewrite !fmap_app. cbn [fmap list_fmap snd option_fmap option_map]. by rewrite Permutation_app_comm, <- Permutation_middle.
    + destruct (filter_same tok (alive a) Ha) as [-> ->]. cbn [fmap option_fmap option_map]. by rewrite ?app_nil_r.
  - done.
Qed.

Lemma run_refines es : forall s a, crel s a -> allowed_run es s ->
  exists s', cld_run es s = Normal (s', (acld_run es a).2) /\ crel s' (acld_run es a).1 /\
    (alive (acld_run es a).1).*2 ++ omap id (acld_run es a).2 ≡ₚ (alive a).*2 ++ puts es.
Proof.
  induction es as [|e es IH]; intros s a R Ha; [exists s; by rewrite !app_nil_r|]. destruct Ha as [He Ha].
  destruct (step_refines e s a R He) as (s1 & E1 & R1). pose proof (step_conserves e s a R) as C1. cbn [cld_run acld_run]. rewrite E1 in *.
  destruct (acld_step msg_prio e a) as [a1 o]. cbn [fst snd] in *. destruct (IH s1 a1 R1 Ha) as (s2 & E2 & R2 & C2).
  cbn [mbind outcome_bind]. rewrite E2. destruct (acld_run es a1) as [a2 os]. cbn [fst snd] in *. exists s2. split; [done|]. split; [done|].
  change (o :: os) with ([o] ++ os). change (e :: es) with ([e] ++ es). unfold puts. rewrite !omap_app. fold (puts [e]) (puts es).
  rewrite (Permutation_app_comm (omap id [o])), app_assoc, C2, <- app_assoc, (Permutation_app_comm (puts es)), app_assoc, C1. by rewrite <- app_assoc.
Qed.

End spec.

(** Two messages, one of which is taken before its token is handled. *)
Definition token_events : list cld_event := [EPut 20 101; EPut 30 102; EOthers 5; EGet; EHandle 0; EHandle 0; EHandle 0].

#[local] Instance some_word : Uninit := 77.
Definition flat (_ : ptr) : prio := mk_prio 0 0 [].


(** ** Parcels *)

Section parcels.
Context `{Uninit} (msg_len : ptr -> Z) (msg_prio : ptr -> prio) (bal : Z).

Fixpoint total (l : list ptr) : Z := match l with [] => 0 | m :: l => msg_len m + total l end.

Lemma total_app l1 l2 : total (l1 ++ l2) = total l1 + total l2.
Proof. induction l1 as [|m l1 IH]; cbn [total app]; lia. Qed.

Lemma crel_headers s a h : crel s a -> crel (set_headers h s) a.
Proof. intros []. by split. Qed.

Lemma crel_prepare immed m s a : crel s a -> crel (prepare bal immed m s) a /\
  CldRelocatedMessages (prepare bal immed m s) = CldRelocatedMessages s /\ CldMessageChunks (prepare bal immed m s) = CldMessageChunks s.
Proof.
  intros R. unfold prepare, CldSwitchHandler, CmiBecomeImmediate. destruct immed; (split; [|done]); repeat apply crel_headers; done.
Qed.

(** One round of filling: the first [j] messages. *)
Lemma fill_spec k : forall i n ps immed done msgs s a, crel s a -> Z.of_nat k = n - i -> i = Z.of_nat (length msgs) -> ps <= MAXMSGBFRSIZE ->
  exists s' j done' n', fill_parcel msg_len bal k i n ps immed done msgs s = Normal (s', msgs ++ (take j (alive a)).*2, done', n') /\
    crel s' (mk_acld (drop j (alive a)) (aqueue a) (aothers a)) /\ (j <= k)%nat /\ (j <= length (alive a))%nat /\
    CldRelocatedMessages s' = CldRelocatedMessages s /\ CldMessageChunks s' = CldMessageChunks s /\
    ((exists q m, (take j (alive a)).*2 = q ++ [m] /\ ps + total q <= MAXMSGBFRSIZE /\ MAXMSGBFRSIZE < ps + total (q ++ [m]) /\
        n' = n - i - Z.of_nat j /\ done' = (j =? k)%nat) \/
     (ps + total (take j (alive a)).*2 <= MAXMSGBFRSIZE /\ (j = k \/ j = length (alive a)) /\ n' = n /\ done' = done || negb (k =? 0)%nat)).
Proof.
  induction k as [|k IH]; intros i n ps immed done msgs s a R Hk Hi Hps.
  { exists s, O, done, n. rewrite app_nil_r. cbn [fill_parcel take drop]. split; [done|]. split; [by destruct a|]. split; [done|]. split; [lia|]. split; [done|]. split; [done|].
    right. split; [change (ps + 0 <= MAXMSGBFRSIZE); lia|]. split; [by left|]. split; [done|]. by rewrite orb_false_r. }
  cbn [fill_parcel]. destruct (get_token s a R) as (s1 & -> & R1 & _ & C1 & C2). cbn [mbind outcome_bind].
  destruct (alive a) as [|[id m] l] eqn:Ea.
  { rewrite Z.eqb_refl. cbn [negb]. exists s1, O, true, n. rewrite app_nil_r. split; [done|]. split; [by rewrite drop_nil|]. split; [lia|]. split; [done|]. split; [done|]. split; [done|].
    right. split; [change (ps + 0 <= MAXMSGBFRSIZE); lia|]. split; [by right|]. split; [done|]. by rewrite orb_true_r. }
  rewrite (proj2 (Z.eqb_neq m NULL)) by (apply (r_msg _ _ R id m); rewrite Ea; left). cbn [negb tail] in *.
  destruct (crel_prepare immed m s1 _ R1) as (R2 & P1 & P2). destruct (Z.ltb_spec MAXMSGBFRSIZE (ps + msg_len m)) as [Ho|Ho].
  - eexists _, 1%nat, _, _. split; [reflexivity|]. cbn [take drop fmap list_fmap snd]. split; [done|]. split; [lia|]. split; [cbn; lia|]. split; [by rewrite P1|]. split; [by rewrite P2|].
    left. exists [], m. split; [done|]. split; [change (ps + 0 <= MAXMSGBFRSIZE); lia|]. split; [change (MAXMSGBFRSIZE < ps + (msg_len m + 0)); lia|]. split; [rewrite length_app; cbn [length]; lia|].
    destruct (Z.ltb_spec i (n - 1)), (Nat.eqb_spec 1 (S k)); try lia; done.
  - destruct (IH (i + 1) n (ps + msg_len m) immed true (msgs ++ [m]) (prepare bal immed m s1) (mk_acld l (aqueue a) (aothers a)) R2) as (s' & j & done' & n' & E & R' & Hj & Hjl & Q1 & Q2 & Hc);
      [lia|rewrite length_app; cbn [length]; lia|lia|]. cbn [alive aqueue aothers] in *. exists s', (S j), done', n'. cbn [take drop fmap list_fmap snd].
    split; [etransitivity; [exact E|by rewrite <- app_assoc]|]. split; [done|]. split; [lia|]. split; [cbn; lia|]. split; [by rewrite Q1, P1|]. split; [by rewrite Q2, P2|].
    destruct Hc as [(q & x & Eq & T1 & T2 & En & Ed)|(T1 & Hor & En & Ed)].
    + left. exists (m :: q), x. rewrite Eq. cbn [app total]. split; [done|]. split; [lia|]. split; [lia|]. split; [lia|]. rewrite Ed. destruct (Nat.eqb_spec j k), (Nat.eqb_spec (S j) (S k)); try lia; done.
    + right. cbn [total]. split; [lia|]. split; [destruct Hor; [left|right]; cbn; lia|]. split; [done|]. rewrite Ed. by rewrite orb_true_r.
Qed.

Lemma send_parcel_spec immed msgs s a : crel s a -> msgs <> [] -> crel (send_parcel immed msgs s) a /\
  CldRelocatedMessages (send_parcel immed msgs s) = CldRelocatedMessages s + Z.of_nat (length msgs) /\ CldMessageChunks (send_parcel immed msgs s) = CldMessageChunks s + 1.
Proof.
  intros R Hm. assert (forall n s', crel s' a -> crel (count_sent n s') a) as Hc by (intros n s' []; by split).
  destruct msgs as [|m [|m2 msgs]]; [done| |]; cbn [send_parcel].
  - split; [apply Hc; destruct immed; [by apply crel_headers|done]|]. by destruct immed.
  - split; [by apply Hc|done].
Qed.

(** A parcel is closed when it has become too large, or at the end. *)
Definition parcel_ok (p : list ptr) : Prop := exists q m, p = q ++ [m] /\ total q <= MAXMSGBFRSIZE.

Lemma taken_ok j l : (0 < j)%nat -> (j <= length l)%nat -> total (take j l) <= MAXMSGBFRSIZE -> (forall m, 0 <= msg_len m) -> parcel_ok (take j l).
Proof.
  intros Hj Hl Ht Hlen. assert (take j l <> []) as Hne by (intros E; apply (f_equal length) in E; rewrite length_take in E; cbn in E; lia).
  destruct (exists_last Hne) as (r & m & E). exists r, m. split; [done|]. rewrite E, total_app in Ht. cbn [total] in Ht. pose proof (Hlen m). lia.
Qed.

Lemma send_spec immed fuel : (forall m, 0 <= msg_len m) -> forall n parcels s a, crel s a -> 0 < n <= Z.of_nat fuel ->
  exists s' ps, send_parcels msg_len bal fuel n immed parcels s = Some (Normal (s', parcels ++ ps)) /\
    concat ps = (take (Z.to_nat n) (alive a)).*2 /\ crel s' (mk_acld (drop (Z.to_nat n) (alive a)) (aqueue a) (aothers a)) /\
    Forall parcel_ok ps /\ Forall (fun p => MAXMSGBFRSIZE < total p) (removelast ps) /\
    CldRelocatedMessages s' = CldRelocatedMessages s + Z.of_nat (length (concat ps)) /\ CldMessageChunks s' = CldMessageChunks s + Z.of_nat (length ps).
Proof.
  intros Hlen. induction fuel as [|fuel IH]; intros n parcels s a R Hn; [lia|]. cbn [send_parcels].
  destruct (fill_spec (Z.to_nat n) 0 n 0 immed false [] s a R) as (s1 & j & dn & n' & -> & R1 & Hj & Hjl & C1 & C2 & Hc); [lia|done|unfold MAXMSGBFRSIZE; lia|].
  cbn [app]. set (msgs := (take j (alive a)).*2) in *. assert (length msgs = j) as Hmsgs by (unfold msgs; rewrite length_fmap, length_take; lia).
  destruct Hc as [(q & m & Eq & T1 & T2 & -> & ->)|(T1 & Hor & -> & ->)].
  - assert (msgs <> []) as Hne by (rewrite Eq; by destruct q). destruct (send_parcel_spec immed msgs s1 _ R1 Hne) as (R2 & P1 & P2).
    rewrite decide_False by done. assert (parcel_ok msgs) as Hok by (exists q, m; split; [done|lia]).
    destruct (Nat.eqb_spec j (Z.to_nat n)) as [Ej|Ej].
    + exists (send_parcel immed msgs s1), [msgs]. rewrite <- Ej. split; [done|]. cbn [concat removelast length]. rewrite app_nil_r.
      split; [done|]. split; [done|]. split; [by constructor|]. split; [constructor|]. split; [lia|]. lia.
    + assert (1 <= j)%nat as Hj1 by (rewrite <- Hmsgs, Eq, length_app; cbn; lia).
      destruct (IH (n - 0 - Z.of_nat j) (parcels ++ [msgs]) _ _ R2) as (s' & ps & -> & Ec & R' & F1 & F2 & Q1 & Q2); [lia|].
      exists s', (msgs :: ps). cbn [alive aqueue aothers] in *. split; [by rewrite <- app_assoc|]. cbn [concat length].
      assert (Z.to_nat n = j + Z.to_nat (n - 0 - Z.of_nat j))%nat as En by lia. rewrite drop_drop in R'. rewrite <- En in R'.
      split; [rewrite Ec, En; unfold msgs; rewrite <- fmap_app; f_equal; by rewrite take_take_drop|]. split; [done|]. split; [by constructor|].
      split; [|rewrite length_app; lia].
      destruct ps as [|p ps]; [constructor|]. cbn [removelast] in *. constructor; [rewrite Eq; lia|done].
  - assert (false || negb (Z.to_nat n =? 0)%nat = true) as -> by (destruct (Nat.eqb_spec (Z.to_nat n) 0); [lia|done]).
    assert (take (Z.to_nat n) (alive a) = take j (alive a) /\ drop (Z.to_nat n) (alive a) = drop j (alive a)) as [-> ->].
    { destruct Hor as [->|Ej]; [done|]. rewrite !take_ge, !drop_ge by lia. done. }
    fold msgs. destruct (decide (msgs = [])) as [E0|E0].
    + exists s1, []. rewrite E0, app_nil_r. cbn [send_parcel concat length removelast]. split; [done|]. split; [done|]. split; [done|]. split; [constructor|]. split; [constructor|]. split; lia.
    + destruct (send_parcel_spec immed msgs s1 _ R1 E0) as (R2 & P1 & P2). exists (send_parcel immed msgs s1), [msgs]. cbn [concat length removelast]. rewrite app_nil_r.
      split; [done|]. split; [done|]. split; [done|]. split; [|split; [constructor|lia]]. constructor; [|constructor].
      unfold msgs. rewrite fmap_take. apply taken_ok; [destruct j; [done|lia]|by rewrite length_fmap| |done]. rewrite <- fmap_take. fold msgs. lia.
Qed.

Lemma send_none immed fuel : forall n parcels s, n <= 0 -> send_parcels msg_len bal fuel n immed parcels s = None.
Proof.
  induction fuel as [|fuel IH]; intros n parcels s Hn; [done|]. cbn [send_parcels]. rewrite Z2Nat.nonpos by done. cbn [fill_parcel]. rewrite decide_True by done. by apply IH.
Qed.

(** C13: [CldMultipleSend(n)] with [n > 0], on any processor: it returns after at
    most [n] parcels, which hold the first [n] messages that can be taken (or
    all, when there are fewer), in order; these are no longer there; a parcel is
    closed by the message that makes it larger than [MAXMSGBFRSIZE] and only the
    last one may be smaller; and messages and parcels are counted.  With [n]
    not positive it never returns. *)
Theorem cld_multiple_send sen es s outs a immed : allowed_run msg_prio es (CldModuleGeneralInit sen) ->
  cld_run msg_prio es (CldModuleGeneralInit sen) = Normal (s, outs) -> acld_run msg_prio es (mk_acld [] [] 0) = (a, outs) -> (forall m, 0 <= msg_len m) ->
  (forall n fuel, 0 < n <= Z.of_nat fuel -> exists s' ps, CldMultipleSend msg_len bal fuel n immed s = Some (Normal (s', ps)) /\
     concat ps = take (Z.to_nat n) (alive a).*2 /\ CldCountTokens s' = Z.max 0 (CldCountTokens s - n) /\
     Forall parcel_ok ps /\ Forall (fun p => MAXMSGBFRSIZE < total p) (removelast ps) /\
     CldRelocatedMessages s' = CldRelocatedMessages s + Z.of_nat (length (concat ps)) /\ CldMessageChunks s' = CldMessageChunks s + Z.of_nat (length ps)) /\
  (forall n fuel, n <= 0 -> CldMultipleSend msg_len bal fuel n immed s = None).
Proof.
  intros Ha Er Ea Hlen. destruct (run_refines msg_prio es _ _ (crel_init sen) Ha) as (s0 & E & R & _). rewrite Ea in *. cbn [fst snd] in *. rewrite E in Er. injection Er as <-.
  split; [|intros n fuel Hn; by apply send_none]. intros n fuel Hn. destruct (send_spec immed fuel Hlen n [] s0 a R Hn) as (s' & ps & Es & Ec & R' & H1 & H2 & H3 & H4).
  exists s', ps. split; [done|]. split; [by rewrite Ec, fmap_take|]. split; [|done]. unfold CldCountTokens. rewrite (r_load _ _ R'), (r_load _ _ R). cbn [alive]. rewrite length_drop. lia.
Qed.

(** [CldSimpleMultipleSend(n)] sends only half of the [n] messages: the loop
    counts [i] up and [numToSend] down. *)
Lemma simple_loop_spec fuel : forall i n sent dn s a, crel s a -> Z.max 0 (n - i) <= Z.of_nat fuel -> 
  exists s' dn', simple_loop bal fuel i n sent dn s = Normal (s', sent ++ (take (Z.to_nat ((n - i + 1) / 2)) (alive a)).*2, dn') /\ (dn' = true \/ dn' = dn /\ n <= i).
Proof.
  induction fuel as [|fuel IH]; intros i n sent dn s a R Hf; cbn [simple_loop].
  { exists s, dn. rewrite Z2Nat.nonpos by (Z.div_mod_to_equations; lia). rewrite app_nil_r. split; [done|]. right. split; [done|lia]. }
  destruct (Z.ltb_spec i n) as [Hi|Hi]; [|exists s, dn; rewrite Z2Nat.nonpos by (Z.div_mod_to_equations; lia); rewrite app_nil_r; split; [done|right; by split]].
  destruct (get_token s a R) as (s1 & -> & R1 & _). cbn [mbind outcome_bind]. destruct (alive a) as [|[id m] l] eqn:El.
  { rewrite Z.eqb_refl. cbn [negb]. exists s1, true. rewrite take_nil, app_nil_r. split; [done|by left]. }
  rewrite (proj2 (Z.eqb_neq m NULL)) by (apply (r_msg _ _ R id m); rewrite El; left). cbn [negb tail] in *.
  destruct (IH (i + 1) (n - 1) (sent ++ [m]) true (CldSwitchHandler m bal s1) (mk_acld l (aqueue a) (aothers a))) as (s' & dn' & E & Hd); [by apply crel_headers|lia|].
  exists s', dn'. cbn [alive] in E. split; [|destruct Hd as [|[-> _]]; by left].
  replace (Z.to_nat ((n - i + 1) / 2)) with (S (Z.to_nat ((n - 1 - (i + 1) + 1) / 2))) by (Z.div_mod_to_equations; lia). cbn [take fmap list_fmap snd].
  etransitivity; [exact E|]. by rewrite <- app_assoc.
Qed.

Lemma simple_sends_half n s a : crel s a -> 0 < n -> exists s', CldSimpleMultipleSend bal n s = Some (Normal (s', (take (Z.to_nat ((n + 1) / 2)) (alive a)).*2)).
Proof.
  intros R Hn. unfold CldSimpleMultipleSend. rewrite (proj2 (Z.eqb_neq n 0)) by lia.
  destruct (simple_loop_spec (S (Z.to_nat n)) 0 n [] false s a R) as (s' & dn & -> & Hd); [lia|]. exists s'. rewrite Z.sub_0_r. destruct Hd as [->|[_ ?]]; [done|lia].
Qed.
End parcels.

(** Three messages of 60000 bytes: the second closes the first parcel. *)
Definition large (_ : ptr) : Z := 60000.
Definition three_puts : list cld_event := [EPut 20 101; EPut 30 102; EPut 40 103].

Lemma cld_multiple_send_witness : exists s s' ps, cld_run flat three_puts (CldModuleGeneralInit 10) = Normal (s, [None; None; None]) /\
  CldMultipleSend large 5 3 3 false s = Some (Normal (s', ps)) /\ ps = [[101; 102]; [103]] /\ CldMessageChunks s' = 2.
Proof.
  destruct (cld_run flat three_puts (CldModuleGeneralInit 10)) as [[s outs]|] eqn:Er; [|vm_compute in Er; discriminate].
  destruct (acld_run flat three_puts (mk_acld [] [] 0)) as [a outs'] eqn:Ea.
  assert (outs' = outs) as -> by (vm_compute in Er, Ea; congruence).
  destruct (cld_multiple_send large flat 5 10 three_puts s outs a false) as [Hs _]; [vm_compute; repeat split; done|exact Er|exact Ea|unfold large; lia|].
  destruct (Hs 3 3%nat) as (s' & ps & E & _ & _ & _ & _ & _ & Hc); [lia|]. exists s, s', ps. vm_compute in Er. injection Er as <- <-. vm_compute in E. injection E as <- <-.
  split; [reflexivity|]. split; [vm_compute; reflexivity|]. split; [reflexivity|]. reflexivity.
Defined.

(** [CldMultipleSendPrio] takes every second message without looking at the
    number asked for, so it writes past the arrays of [numToSend] entries. *)
Definition five_puts : list cld_event := [EPutPrio 20 101; EPutPrio 30 102; EPutPrio 40 103; EPutPrio 50 104; EPutPrio 60 105].
Example prio_send_overflows : (s ← cld_run flat five_puts (CldModuleGeneralInit 10); CldMultipleSendPrio 5 1 false s.1) = Aborted.
Proof. vm_compute. reflexivity. Qed.
