(* ===== verification/MsgMem.v ===== *)
(** * MsgMem: memory of messages (conv-core/convcore.c, converse.h)

    A block of [CmiAlloc] is preceded by a header with its size and a reference
    count; the chunks of a bundle of messages lie inside the block of the
    bundle, and their count is negative: the distance back to the enclosing
    chunk.  Memory is a map from addresses to bytes in which only allocated
    bytes are present, so that an access to freed memory is [Aborted].  The
    build is a 64-bit one ([ALIGN_BYTES] is 16), with the allocator of the C
    library and little-endian integers; [CMK_ERROR_CHECKING] is on.  The bytes
    that the machine layer sets in the header of a message that it sends are
    the function [stamp]. *)

From S2P Require Import Prelude.
#[local] Open Scope Z_scope.

(** ** Bytes in memory *)

Record heap := mk_heap {
  bytes : gmap Z Z;
  blocks : gmap Z Z   (** the blocks of [malloc] with their sizes *)
}.
Definition set_bytes (m : gmap Z Z) (h : heap) : heap := mk_heap m (blocks h).

Fixpoint load_bytes (m : gmap Z Z) (a : Z) (n : nat) : outcome (list Z) :=
  match n with
  | O => Normal []
  | S n => match m !! a with Some b => l ← load_bytes m (a + 1) n; Normal (b :: l) | None => Aborted end
  end.

Fixpoint store_bytes (m : gmap Z Z) (a : Z) (l : list Z) : outcome (gmap Z Z) :=
  match l with
  | [] => Normal m
  | b :: l => match m !! a with Some _ => store_bytes (<[a := b]> m) (a + 1) l | None => Aborted end
  end.

(** An [int] in memory. *)
Definition enc32 (v : Z) : list Z := [u8 v; u8 (v / 2 ^ 8); u8 (v / 2 ^ 16); u8 (v / 2 ^ 24)].
Definition dec32 (l : list Z) : Z :=
  match l with [a; b; c; d] => i32 (a + 2 ^ 8 * b + 2 ^ 16 * c + 2 ^ 24 * d) | _ => 0 end.

Definition load32 (a : Z) (h : heap) : outcome Z := l ← load_bytes (bytes h) a 4; Normal (dec32 l).
Definition store32 (a v : Z) (h : heap) : outcome heap := m ← store_bytes (bytes h) a (enc32 v); Normal (set_bytes m h).

Fixpoint alloc_bytes (junk : Z -> Z) (a : Z) (n : nat) (m : gmap Z Z) : gmap Z Z :=
  match n with O => m | S n => <[a := junk a]> (alloc_bytes junk (a + 1) n m) end.
Fixpoint free_bytes (a : Z) (n : nat) (m : gmap Z Z) : gmap Z Z :=
  match n with O => m | S n => delete a (free_bytes (a + 1) n m) end.

(** [malloc_nomigrate], which returned [a], and [free_nomigrate]. *)
Definition malloc_nomigrate (junk : Z -> Z) (a n : Z) (h : heap) : heap :=
  mk_heap (alloc_bytes junk a (Z.to_nat n) (bytes h)) (<[a := n]> (blocks h)).
Definition free_nomigrate (a : Z) (h : heap) : outcome heap :=
  match blocks h !! a with
  | Some n => Normal (mk_heap (free_bytes a (Z.to_nat n) (bytes h)) (delete a (blocks h)))
  | None => Aborted
  end.

(** ** Chunks *)

Definition ALIGN_BYTES : Z := 16.
(** [sizeof(CmiChunkHeader)]: [size], [ref] and [align]. *)
Definition CmiChunkHeader : Z := 16.
Definition BLKSTART (m : Z) : Z := m - CmiChunkHeader.
Definition SIZEFIELD (m : Z) : Z := BLKSTART m.
Definition REFFIELD (m : Z) : Z := BLKSTART m + 4.

Definition CmiAlloc (junk : Z -> Z) (a size : Z) (h : heap) : outcome (heap * Z) :=
  let h := malloc_nomigrate junk a (size + CmiChunkHeader) h in
  let res := a + CmiChunkHeader in
  _ ← CmiAssert (res mod ALIGN_BYTES =? 0);
  h ← store32 (SIZEFIELD res) size h;
  h ← store32 (REFFIELD res) 1 h;
  Normal (h, res).

(** Each jump goes to a lower address. *)
Fixpoint find_loop (fuel : nat) (blk refCount : Z) (h : heap) : outcome Z :=
  match fuel with
  | O => Aborted
  | S fuel =>
      if refCount <? 0 then
        let blk := blk + refCount in
        refCount ← load32 (REFFIELD blk) h;
        find_loop fuel blk refCount h
      else Normal blk
  end.
Definition CmiAllocFindEnclosing (blk : Z) (h : heap) : outcome Z :=
  refCount ← load32 (REFFIELD blk) h;
  find_loop (S (Z.to_nat blk)) blk refCount h.

Definition CmiGetReference (blk : Z) (h : heap) : outcome Z :=
  p ← CmiAllocFindEnclosing blk h; load32 (REFFIELD p) h.

Definition CmiReference (blk : Z) (h : heap) : outcome heap :=
  p ← CmiAllocFindEnclosing blk h;
  n ← load32 (REFFIELD p) h;
  store32 (REFFIELD p) (n + 1) h.

Definition CmiSize (blk : Z) (h : heap) : outcome Z := load32 (SIZEFIELD blk) h.

Definition CmiFree (blk : Z) (h : heap) : outcome heap :=
  parentBlk ← CmiAllocFindEnclosing blk h;
  refCount ← load32 (REFFIELD parentBlk) h;
  if refCount =? 0 then Aborted
  else
    let refCount := refCount - 1 in
    h ← store32 (REFFIELD parentBlk) refCount h;
    if refCount =? 0 then free_nomigrate (BLKSTART parentBlk) h else Normal h.

(** ** Bundles *)

Definition roundUpSize (s : Z) : Z := i32 (Z.land (u32 s + 7) (Z.lnot 7)).
Definition paddingSize (s : Z) : Z := roundUpSize s - s.

Section bundles.
(** [CmiMsgHeaderSizeBytes], and what the machine layer does to the header of
    a message. *)
Context (CmiMsgHeaderSizeBytes : Z) (stamp : list Z -> list Z) (junk : Z -> Z).

(** The offsets of [nMessages] and [pad] in a [CmiMultipleSendHeader]. *)
Definition nMessages_off : Z := (CmiMsgHeaderSizeBytes + 3) / 4 * 4.
Definition pad_off : Z := (nMessages_off + 4 + 7) / 8 * 8.
Definition CmiMultipleSendHeader : Z := pad_off + 8.

(** The bytes of the double 1234567.89. *)
Definition pad_magic : list Z := [0x3d; 0x0a; 0xd7; 0xe3; 0x87; 0xd6; 0x32; 0x41].

(** [CmiSyncSendAndFree] to the own processor: the message is stamped, and goes
    to the local queue as it is. *)
Definition send_self (size msg : Z) (h : heap) : outcome heap :=
  l ← load_bytes (bytes h) msg (Z.to_nat size);
  m ← store_bytes (bytes h) msg (stamp l);
  Normal (set_bytes m h).

(** The header on the stack, with its [convHeader] filled and bytes of padding
    that are not initialised. *)
Definition send_header (convHeader : list Z) (len : Z) : list Z :=
  convHeader ++ (junk <$> seqZ CmiMsgHeaderSizeBytes (nMessages_off - CmiMsgHeaderSizeBytes)) ++ enc32 len ++
  (junk <$> seqZ (nMessages_off + 4) (pad_off - nMessages_off - 4)) ++ pad_magic.

(** A [CmiChunkHeader] of the array [msgHdr]; [align] is not initialised. *)
Definition msgHdr (size : Z) : list Z := enc32 size ++ enc32 0 ++ (junk <$> seqZ 0 8).

(** The vec_pieces of the outgoing vector: [vecSizes], and what [vecPtrs] point to. *)
Fixpoint vec_pieces (msgs : list (Z * Z)) (h : heap) : outcome (list (Z * list Z)) :=
  match msgs with
  | [] => Normal []
  | (size, msg) :: msgs =>
      l ← load_bytes (bytes h) msg (Z.to_nat size);
      r ← vec_pieces msgs h;
      Normal ((CmiChunkHeader, msgHdr (roundUpSize size)) :: (size, l) :: (paddingSize size, replicate 8 0) :: r)
  end.

(** [VECTOR_COMPACT] with [inndata >= 0]: [memcpy] of each piece. *)
Fixpoint compact_loop (tmp : Z) (vec : list (Z * list Z)) (m : gmap Z Z) : outcome (gmap Z Z) :=
  match vec with
  | [] => Normal m
  | (size, l) :: vec =>
      _ ← CmiAssert (Z.to_nat size <=? length l)%nat;
      m ← store_bytes m tmp (take (Z.to_nat size) l);
      compact_loop (tmp + size) vec m
  end.
Definition outsize (vec : list (Z * list Z)) : Z := foldr (fun p n => p.1 + n) 0 vec.
Definition VECTOR_COMPACT (a : Z) (vec : list (Z * list Z)) (h : heap) : outcome (heap * Z * Z) :=
  let total := outsize vec in
  '(h, outdata) ← CmiAlloc junk a total h;
  m ← compact_loop outdata vec (bytes h);
  Normal (set_bytes m h, outdata, total).

(** [VECTOR_COMPACT] with [inndata < 0]: messages with their headers. *)
Definition ALIGN_DEFAULT (x : Z) : Z := Z.land (Z.lnot (ALIGN_BYTES - 1)) (x + (ALIGN_BYTES - 1)).
Fixpoint nested_loop (tmp : Z) (msgs : list (Z * Z)) (m : gmap Z Z) : outcome (gmap Z Z) :=
  match msgs with
  | [] => Normal m
  | (size, msg) :: msgs =>
      l ← load_bytes m (msg - CmiChunkHeader) (Z.to_nat (size + CmiChunkHeader));
      m ← store_bytes m tmp l;
      nested_loop (tmp + (ALIGN_DEFAULT size + CmiChunkHeader)) msgs m
  end.
Definition VECTOR_COMPACT_nested (a : Z) (msgs : list (Z * Z)) (h : heap) : outcome (heap * Z * Z) :=
  let total := foldr (fun p n => ALIGN_DEFAULT p.1 + n) 0 msgs - (- Z.of_nat (length msgs) + 1) * CmiChunkHeader in
  '(h, outdata) ← CmiAlloc junk a total h;
  match msgs with
  | [] => Aborted
  | (size, msg) :: _ =>
      l ← load_bytes (bytes h) msg (Z.to_nat size);
      m ← store_bytes (bytes h) outdata l;
      m ← nested_loop (outdata + ALIGN_DEFAULT size) msgs m;
      Normal (set_bytes m h, outdata, total)
  end.

Definition CmiSyncVectorSend (a : Z) (vec : list (Z * list Z)) (h : heap) : outcome (heap * Z) :=
  '(h, mesg, total) ← VECTOR_COMPACT a vec h;
  h ← send_self total mesg h;
  Normal (h, mesg).

(** [_CmiMultipleSend] to the own processor: the bundle is in the queue. *)
Definition CmiMultipleSend (a : Z) (convHeader : list Z) (msgs : list (Z * Z)) (h : heap) : outcome (heap * Z) :=
  let len := Z.of_nat (length msgs) in
  vec ← vec_pieces msgs h;
  CmiSyncVectorSend a ((CmiMultipleSendHeader, send_header convHeader len) :: vec) h.

(** [for (m=0;m<len;m++)], with the messages sent. *)
Fixpoint multi_loop (n : nat) (msgWhole offset : Z) (h : heap) : outcome (heap * list Z) :=
  match n with
  | O => Normal (h, [])
  | S n =>
      let ch := msgWhole + offset in
      let msg := msgWhole + offset + CmiChunkHeader in
      msgSize ← load32 ch h;
      h ← store32 (ch + 4) (msgWhole - msg) h;
      h ← CmiReference msg h;
      h ← send_self msgSize msg h;
      '(h, sent) ← multi_loop n msgWhole (offset + (CmiChunkHeader + msgSize)) h;
      Normal (h, msg :: sent)
  end.

Definition CmiMultiMsgHandler (msgWhole : Z) (h : heap) : outcome (heap * list Z) :=
  len ← load32 (msgWhole + nMessages_off) h;
  '(h, sent) ← multi_loop (Z.to_nat len) msgWhole CmiMultipleSendHeader h;
  h ← CmiFree msgWhole h;
  Normal (h, sent).
End bundles.
