(* ===== verification/MsgMemFacts.v ===== *)
(** * MsgMemFacts: bytes of memory, and the chunks in it

    What loads and stores do to byte ranges, and the invariant of chunks: they
    are nested or apart, and following the negative counts leads to the block
    that holds a chunk. *)

From S2P Require Import Prelude MsgMem.
#[local] Open Scope Z_scope.
Set Warnings "-clear-no-such-hyp".

(** ** Byte ranges *)

(** The bytes at [a] are [l]. *)
Definition has_bytes (m : gmap Z Z) (a : Z) (l : list Z) : Prop :=
  forall i b, l !! i = Some b -> m !! (a + Z.of_nat i) = Some b.
Definition mapped (m : gmap Z Z) (a : Z) (n : Z) : Prop := forall x, a <= x < a + n -> is_Some (m !! x).

Lemma has_bytes_cons m a b l : has_bytes m a (b :: l) <-> m !! a = Some b /\ has_bytes m (a + 1) l.
Proof.
  split.
  - intros Hm. split; [specialize (Hm O b eq_refl); by rewrite Z.add_0_r in Hm|]. intros i c Hi. specialize (Hm (S i) c Hi). replace (a + 1 + Z.of_nat i) with (a + Z.of_nat (S i)) by lia. done.
  - intros [H1 H2] [|i] c Hi; [injection Hi as ->; by rewrite Z.add_0_r|]. replace (a + Z.of_nat (S i)) with (a + 1 + Z.of_nat i) by lia. by apply H2.
Qed.

Lemma has_bytes_app m a l1 l2 : has_bytes m a (l1 ++ l2) <-> has_bytes m a l1 /\ has_bytes m (a + Z.of_nat (length l1)) l2.
Proof.
  revert a. induction l1 as [|b l1 IH]; intros a; cbn [app length].
  - rewrite Z.add_0_r. split; [intros Hm; split; [intros i c Hi; by rewrite lookup_nil in Hi|done]|by intros []].
  - rewrite !has_bytes_cons, IH. replace (a + 1 + Z.of_nat (length l1)) with (a + Z.of_nat (S (length l1))) by lia. tauto.
Qed.

Lemma load_has m l : forall a, has_bytes m a l -> load_bytes m a (length l) = Normal l.
Proof. induction l as [|b l IH]; intros a Hm; [done|]. apply has_bytes_cons in Hm as [H1 H2]. cbn [load_bytes length]. by rewrite H1, (IH _ H2). Qed.

Lemma load_mapped m n : forall a, mapped m a (Z.of_nat n) -> exists l, load_bytes m a n = Normal l /\ length l = n /\ has_bytes m a l.
Proof.
  induction n as [|n IH]; intros a Hm; [exists []; split; [done|]; split; [done|]; intros i b Hi; by rewrite lookup_nil in Hi|].
  destruct (Hm a) as [b Eb]; [lia|]. destruct (IH (a + 1)) as (l & E & Hl & Hh); [intros x Hx; apply Hm; lia|].
  exists (b :: l). cbn [load_bytes]. rewrite Eb, E. split; [done|]. split; [cbn; lia|]. by apply has_bytes_cons.
Qed.

Lemma has_mapped m a l : has_bytes m a l -> mapped m a (Z.of_nat (length l)).
Proof.
  intros Hm x Hx. destruct (lookup_lt_is_Some_2 l (Z.to_nat (x - a))) as [b Hb]; [lia|]. exists b. specialize (Hm _ _ Hb). by replace (a + Z.of_nat (Z.to_nat (x - a))) with x in Hm by lia.
Qed.

Lemma has_bytes_unique m a l1 l2 : has_bytes m a l1 -> has_bytes m a l2 -> length l1 = length l2 -> l1 = l2.
Proof. intros H1 H2 Hl. pose proof (load_has _ _ _ H1) as E1. pose proof (load_has _ _ _ H2) as E2. rewrite Hl, E2 in E1. by injection E1. Qed.

(** Two maps with the same bytes in a range. *)
Definition same (m m' : gmap Z Z) (a n : Z) : Prop := forall x, a <= x < a + n -> m' !! x = m !! x.

Lemma same_has m m' a l : same m m' a (Z.of_nat (length l)) -> has_bytes m a l -> has_bytes m' a l.
Proof. intros Hs Hm i b Hi. pose proof (lookup_lt_Some _ _ _ Hi). rewrite Hs by lia. by apply Hm. Qed.

(** A store changes its range only. *)
Lemma store_spec l : forall m a, mapped m a (Z.of_nat (length l)) -> exists m', store_bytes m a l = Normal m' /\ has_bytes m' a l /\
  (forall x, x < a \/ a + Z.of_nat (length l) <= x -> m' !! x = m !! x) /\ (forall x, is_Some (m' !! x) <-> is_Some (m !! x)).
Proof.
  induction l as [|b l IH]; intros m a Hm; cbn [store_bytes length] in *.
  { exists m. split; [done|]. split; [intros i c Hi; by rewrite lookup_nil in Hi|done]. }
  destruct (Hm a) as [c Ec]; [lia|]. rewrite Ec.
  assert (forall x, is_Some (<[a := b]> m !! x) <-> is_Some (m !! x)) as Hi.
  { intros x. destruct (decide (x = a)) as [->|]; [rewrite lookup_insert_eq, Ec; split; eauto|by rewrite lookup_insert_ne by done]. }
  destruct (IH (<[a := b]> m) (a + 1)) as (m' & E & Hb & Hf & Hd); [intros x Hx; apply Hi, Hm; lia|]. exists m'. split; [done|]. split; [|split].
  - apply has_bytes_cons. split; [|done]. rewrite Hf by lia. apply lookup_insert_eq.
  - intros x Hx. rewrite Hf by lia. apply lookup_insert_ne. lia.
  - intros x. by rewrite Hd, Hi.
Qed.

Lemma alloc_lookup junk n : forall a m x, alloc_bytes junk a n m !! x = if decide (a <= x < a + Z.of_nat n) then Some (junk x) else m !! x.
Proof.
  induction n as [|n IH]; intros a m x; cbn [alloc_bytes]; [by rewrite decide_False by lia|]. destruct (decide (x = a)) as [->|Hx].
  - rewrite lookup_insert_eq, decide_True by lia. done.
  - rewrite lookup_insert_ne, IH by done. destruct (decide (a + 1 <= x < a + 1 + Z.of_nat n)), (decide (a <= x < a + Z.of_nat (S n))); try lia; done.
Qed.

Lemma free_lookup n : forall a m x, free_bytes a n m !! x = if decide (a <= x < a + Z.of_nat n) then None else m !! x.
Proof.
  induction n as [|n IH]; intros a m x; cbn [free_bytes]; [by rewrite decide_False by lia|]. destruct (decide (x = a)) as [->|Hx].
  - rewrite lookup_delete_eq, decide_True by lia. done.
  - rewrite lookup_delete_ne, IH by done. destruct (decide (a + 1 <= x < a + 1 + Z.of_nat n)), (decide (a <= x < a + Z.of_nat (S n))); try lia; done.
Qed.

(** ** Integers in memory *)

Definition is_int (v : Z) : Prop := - 2 ^ 31 <= v < 2 ^ 31.

Lemma length_enc32 v : length (enc32 v) = 4%nat.
Proof. done. Qed.

Lemma dec_enc32 v : is_int v -> dec32 (enc32 v) = v.
Proof.
  unfold is_int. intros Hv. cbn [dec32 enc32]. rewrite <- (i32_small v) at 5 by done.
  replace (u8 v + 2 ^ 8 * u8 (v / 2 ^ 8) + 2 ^ 16 * u8 (v / 2 ^ 16) + 2 ^ 24 * u8 (v / 2 ^ 24)) with (v + (- (v / 2 ^ 32)) * 2 ^ 32); [apply i32_cong_add|].
  unfold u8. replace (v / 2 ^ 32) with (v / 2 ^ 24 / 2 ^ 8) by by rewrite Z.div_div. replace (v / 2 ^ 24) with (v / 2 ^ 16 / 2 ^ 8) by by rewrite Z.div_div.
  replace (v / 2 ^ 16) with (v / 2 ^ 8 / 2 ^ 8) by by rewrite Z.div_div.
  set (q := v / 2 ^ 8). set (r := q / 2 ^ 8). set (t := r / 2 ^ 8).
  pose proof (Z.div_mod v (2 ^ 8)) as Hq. pose proof (Z.div_mod q (2 ^ 8)) as Hr. pose proof (Z.div_mod r (2 ^ 8)) as Ht. pose proof (Z.div_mod t (2 ^ 8)) as Hu.
  fold q in Hq. fold r in Hr. fold t in Ht. lia.
Qed.

Lemma dec32_int l : is_int (dec32 l).
Proof.
  unfold dec32. destruct l as [|a [|b [|c [|d [|e l]]]]]; try apply i32_range; unfold is_int; lia.
Qed.

(** The value of an [int] at [a]. *)
Definition int_at (h : heap) (a v : Z) : Prop := exists l, has_bytes (bytes h) a l /\ length l = 4%nat /\ dec32 l = v.

Lemma int_at_int h a v : int_at h a v -> is_int v.
Proof. intros (l & _ & _ & <-). apply dec32_int. Qed.

Lemma load32_at h a v : int_at h a v -> load32 a h = Normal v.
Proof. intros (l & Hb & Hl & <-). unfold load32. pose proof (load_has _ l a Hb) as E. rewrite Hl in E. by rewrite E. Qed.

Lemma int_at_unique h a v w : int_at h a v -> int_at h a w -> v = w.
Proof. intros H1 H2. pose proof (load32_at _ _ _ H1) as E. rewrite (load32_at _ _ _ H2) in E. by injection E. Qed.

Lemma same_int h h' a v : same (bytes h) (bytes h') a 4 -> int_at h a v -> int_at h' a v.
Proof. intros Hs (l & H1 & H2 & H3). exists l. split; [|done]. apply (same_has (bytes h)); [|done]. by rewrite H2. Qed.
