(* ===== verification/MsgChunks.v ===== *)
(** * MsgChunks: what the chunks of message memory promise

    The reference state: the chunks with their contents, and who holds them.  A
    block exists as long as a chunk of it is held.  The invariant relates it to
    the bytes, and each operation on reference counts is shown to keep it. *)

From S2P Require Import Prelude MsgMem MsgMemFacts.
#[local] Open Scope Z_scope.
Set Warnings "-clear-no-such-hyp".

(** A chunk in the block of [k_root]; a bundle that was taken apart has no
    contents of its own any more. *)
Record chunk := mk_chunk { k_size : Z; k_root : Z; k_data : option (list Z) }.
Record amem := mk_amem { chunks : gmap Z chunk; holds : list Z }.

Definition root_of (a : amem) (p : Z) : Z := default 0 (k_root <$> chunks a !! p).
Definition count (a : amem) (r : Z) : Z := Z.of_nat (length (filter (fun x => root_of a x = r) (holds a))).

(** The chunk [p] lies in the payload of [q], or the two are apart. *)
Definition inside (p sz q szq : Z) : Prop := q <= p - 16 /\ p + sz <= q + szq.
Definition apart (p sz q szq : Z) : Prop := p + sz <= q - 16 \/ q + szq <= p - 16.

Record shape (h : heap) (a : amem) : Prop := mk_shape {
  sh_size p c : chunks a !! p = Some c -> int_at h (SIZEFIELD p) (k_size c);
  sh_pos p c : chunks a !! p = Some c -> 0 < p /\ 0 <= k_size c;
  sh_data p c d : chunks a !! p = Some c -> k_data c = Some d -> has_bytes (bytes h) p d /\ Z.of_nat (length d) = k_size c;
  sh_leaf p c q cq : chunks a !! p = Some c -> k_data c <> None -> chunks a !! q = Some cq -> ~ inside q (k_size cq) p (k_size c);
  sh_nest p c q cq : chunks a !! p = Some c -> chunks a !! q = Some cq -> p <> q ->
    k_root c = k_root cq /\ (inside p (k_size c) q (k_size cq) \/ inside q (k_size cq) p (k_size c)) \/ apart p (k_size c) q (k_size cq);
  sh_root p c : chunks a !! p = Some c -> exists cr, chunks a !! k_root c = Some cr /\ k_root cr = k_root c /\ (k_root c = p \/ inside p (k_size c) (k_root c) (k_size cr));
  sh_mapped p c : chunks a !! p = Some c -> k_root c = p -> mapped (bytes h) (p - 16) (k_size c + 16);
  sh_dom x : is_Some (bytes h !! x) -> exists p c, chunks a !! p = Some c /\ k_root c = p /\ p - 16 <= x < p + k_size c;
  sh_block x n : blocks h !! x = Some n <-> exists c, chunks a !! (x + 16) = Some c /\ k_root c = x + 16 /\ n = k_size c + 16
}.

(** Positive counts at the roots, links to an enclosing chunk elsewhere. *)
Definition refs (h : heap) (a : amem) (cnt : Z -> Z) : Prop := forall p c, chunks a !! p = Some c ->
  (k_root c = p -> int_at h (REFFIELD p) (cnt p) /\ 0 < cnt p) /\
  (k_root c <> p -> exists q cq, chunks a !! q = Some cq /\ k_root cq = k_root c /\ q < p /\ int_at h (REFFIELD p) (q - p)).

(** The bytes changed are within [x, x + n). *)
Definition touch (h h' : heap) (x n : Z) : Prop :=
  (forall y, y < x \/ x + n <= y -> bytes h' !! y = bytes h !! y) /\ (forall y, is_Some (bytes h' !! y) <-> is_Some (bytes h !! y)) /\ blocks h' = blocks h.

Lemma store32_touch a v h : mapped (bytes h) a 4 -> is_int v -> exists h', store32 a v h = Normal h' /\ touch h h' a 4 /\ int_at h' a v.
Proof.
  intros Hm Hv. destruct (store_spec (enc32 v) (bytes h) a Hm) as (m & E & Hb & Hf & Hd). exists (set_bytes m h). unfold store32. rewrite E. split; [done|]. split; [by split|]. exists (enc32 v). split; [done|]. split; [done|]. by apply dec_enc32.
Qed.

Lemma touch_same h h' x n y k : touch h h' x n -> y + k <= x \/ x + n <= y -> same (bytes h) (bytes h') y k.
Proof. intros (Hf & _) Hy z Hz. apply Hf. lia. Qed.

Section chunks.
Context (h : heap) (a : amem) (S : shape h a).

Lemma chunk_mapped p c : chunks a !! p = Some c -> mapped (bytes h) (p - 16) (k_size c + 16).
Proof.
  intros Hp. destruct (sh_root _ _ S p c Hp) as (cr & Hr & Er & [Hroot|[H1 H2]]); [by apply (sh_mapped _ _ S)|].
  intros x Hx. apply (sh_mapped _ _ S _ _ Hr Er). lia.
Qed.

(** The headers of two chunks do not overlap. *)
Lemma headers_apart p c q cq : chunks a !! p = Some c -> chunks a !! q = Some cq -> p <> q -> p <= q - 16 \/ q <= p - 16.
Proof.
  intros Hp Hq Hne. pose proof (sh_pos _ _ S p c Hp). pose proof (sh_pos _ _ S q cq Hq). destruct (sh_nest _ _ S p c q cq Hp Hq Hne) as [[_ [[]|[]]]|[]]; lia.
Qed.

(** The contents of a chunk do not overlap with a header. *)
Lemma data_apart p c q cq : chunks a !! p = Some c -> chunks a !! q = Some cq -> k_data cq <> None -> q + k_size cq <= p - 16 \/ p <= q.
Proof.
  intros Hp Hq Hd. pose proof (sh_pos _ _ S p c Hp). destruct (decide (p = q)) as [->|Hne]; [lia|].
  pose proof (sh_leaf _ _ S q cq p c Hq Hd Hp). destruct (sh_nest _ _ S p c q cq Hp Hq Hne) as [[_ [[]|[]]]|[]]; unfold inside in *; lia.
Qed.

Lemma shape_touch h' x n : touch h h' x n ->
  (forall q cq, chunks a !! q = Some cq -> q - 12 <= x \/ x + n <= q - 16) ->
  (forall q cq, chunks a !! q = Some cq -> k_data cq <> None -> q + k_size cq <= x \/ x + n <= q) -> shape h' a.
Proof.
  intros T Hs Hd. pose proof T as (Hf & Hm & Hb). destruct S as [S1 S2 S3 S4 S5 S6 S7 S8 S9]. split; try done.
  - intros p c Hp. apply (same_int h); [|by apply S1]. apply (touch_same _ _ x n); [done|]. unfold SIZEFIELD, BLKSTART, CmiChunkHeader. specialize (Hs p c Hp). lia.
  - intros p c d Hp Ed. destruct (S3 p c d Hp Ed) as [H1 H2]. split; [|done]. apply (same_has (bytes h)); [|done]. apply (touch_same _ _ x n); [done|].
    rewrite H2. apply (Hd p c Hp). by rewrite Ed.
  - intros p c Hp Er y Hy. apply Hm. by apply (S7 p c Hp Er).
  - intros y Hy. apply S8. by apply Hm.
  - intros y k. rewrite Hb. apply S9.
Qed.

(** Writing the count of a chunk. *)
Lemma set_ref p c v : chunks a !! p = Some c -> is_int v -> exists h', store32 (REFFIELD p) v h = Normal h' /\ shape h' a /\ touch h h' (REFFIELD p) 4 /\ int_at h' (REFFIELD p) v /\
  (forall q cq w, chunks a !! q = Some cq -> q <> p -> int_at h (REFFIELD q) w -> int_at h' (REFFIELD q) w).
Proof.
  intros Hp Hv. pose proof (sh_pos _ _ S p c Hp). unfold REFFIELD, BLKSTART, CmiChunkHeader.
  destruct (store32_touch (p - 16 + 4) v h) as (h' & E & T & Hi); [intros x Hx; apply (chunk_mapped p c Hp); lia|done|].
  exists h'. split; [done|]. split; [|split; [done|split; [done|]]].
  - apply (shape_touch h' _ _ T).
    + intros q cq Hq. destruct (decide (q = p)) as [->|Hne]; [lia|]. destruct (headers_apart p c q cq Hp Hq); [done| |]; lia.
    + intros q cq Hq Hd. destruct (data_apart p c q cq Hp Hq Hd); lia.
  - intros q cq w Hq Hne Hw. apply (same_int h); [|done]. apply (touch_same _ _ _ _ _ _ T). destruct (headers_apart p c q cq Hp Hq); [done| |]; lia.
Qed.

(** Following the links. *)
Lemma find_root cnt fuel : refs h a cnt -> forall p c v, chunks a !! p = Some c -> int_at h (REFFIELD p) v -> (Z.to_nat p < fuel)%nat -> find_loop fuel p v h = Normal (k_root c).
Proof.
  intros R. induction fuel as [|fuel IH]; intros p c v Hp Hv Hf; [lia|]. cbn [find_loop]. destruct (R p c Hp) as [R1 R2]. destruct (decide (k_root c = p)) as [Er|Er].
  - destruct (R1 Er) as [H1 H2]. rewrite (int_at_unique _ _ _ _ Hv H1). destruct (Z.ltb_spec (cnt p) 0); [lia|]. by rewrite Er.
  - destruct (R2 Er) as (q & cq & Hq & Eq & Hlt & H1). rewrite (int_at_unique _ _ _ _ Hv H1). destruct (Z.ltb_spec (q - p) 0); [|lia].
    replace (p + (q - p)) with q by lia. pose proof (sh_pos _ _ S q cq Hq). pose proof (sh_pos _ _ S p c Hp).
    assert (exists w, int_at h (REFFIELD q) w) as [w Hw].
    { destruct (R q cq Hq) as [Q1 Q2]. destruct (decide (k_root cq = q)) as [E|E]; [exists (cnt q); by apply Q1|]. destruct (Q2 E) as (q' & _ & _ & _ & _ & Hw). by eexists. }
    rewrite (load32_at _ _ _ Hw). cbn [mbind outcome_bind]. rewrite (IH q cq w Hq Hw) by lia. by rewrite Eq.
Qed.

Lemma find_enclosing cnt p c : refs h a cnt -> chunks a !! p = Some c -> CmiAllocFindEnclosing p h = Normal (k_root c).
Proof.
  intros R Hp. unfold CmiAllocFindEnclosing. assert (exists w, int_at h (REFFIELD p) w) as [w Hw].
  { destruct (R p c Hp) as [Q1 Q2]. destruct (decide (k_root c = p)) as [E|E]; [exists (cnt p); by apply Q1|]. destruct (Q2 E) as (q' & _ & _ & _ & _ & Hw). by eexists. }
  rewrite (load32_at _ _ _ Hw). cbn [mbind outcome_bind]. apply (find_root cnt _ R p c w Hp Hw). lia.
Qed.

Lemma root_count cnt p c : refs h a cnt -> chunks a !! p = Some c -> load32 (REFFIELD (k_root c)) h = Normal (cnt (k_root c)) /\ 0 < cnt (k_root c) < 2 ^ 31.
Proof.
  intros R Hp. destruct (sh_root _ _ S p c Hp) as (cr & Hr & Er & _). destruct (proj1 (R _ _ Hr) Er) as [H1 H2]. split; [by apply load32_at|]. apply int_at_int in H1 as []. lia.
Qed.
End chunks.

(** The count of a root is changed. *)
Lemma refs_set h h' a cnt p c v : shape h a -> refs h a cnt -> chunks a !! p = Some c -> k_root c = p -> int_at h' (REFFIELD p) v -> 0 < v ->
  (forall q cq w, chunks a !! q = Some cq -> q <> p -> int_at h (REFFIELD q) w -> int_at h' (REFFIELD q) w) ->
  refs h' a (fun r => if decide (r = p) then v else cnt r).
Proof.
  intros S R Hp Er Hv Hpos Hf q cq Hq. destruct (R q cq Hq) as [R1 R2]. destruct (decide (q = p)) as [->|Hne].
  - assert (cq = c) as -> by congruence. split; [done|intros ?; done].
  - split; [intros E; destruct (R1 E); split; [by apply (Hf _ cq)|done]|]. intros E. destruct (R2 E) as (q' & c' & H1 & H2 & H3 & H4). exists q', c'. split; [done|]. split; [done|]. split; [done|]. by apply (Hf _ cq).
Qed.

(** [CmiReference] adds one to the count of the block. *)
Lemma reference_spec h a cnt p c : shape h a -> refs h a cnt -> chunks a !! p = Some c -> cnt (k_root c) + 1 < 2 ^ 31 ->
  exists h', CmiReference p h = Normal h' /\ shape h' a /\ refs h' a (fun r => if decide (r = k_root c) then cnt r + 1 else cnt r) /\ touch h h' (REFFIELD (k_root c)) 4.
Proof.
  intros S R Hp Hc. unfold CmiReference. rewrite (find_enclosing h a S cnt p c R Hp). cbn [mbind outcome_bind]. destruct (root_count h a S cnt p c R Hp) as [-> Hr]. cbn [mbind outcome_bind].
  destruct (sh_root _ _ S p c Hp) as (cr & Hcr & Er & _). destruct (set_ref h a S (k_root c) cr (cnt (k_root c) + 1) Hcr) as (h' & -> & S' & T & Hi & Hf); [split; lia|].
  exists h'. split; [done|]. split; [done|]. split; [|done]. pose proof (refs_set h h' a cnt _ cr _ S R Hcr Er Hi ltac:(lia) Hf) as R'.
  intros q cq Hq. specialize (R' q cq Hq). cbn beta in R'. destruct (decide (q = k_root c)) as [->|]; done.
Qed.

Lemma get_reference_spec h a cnt p c : shape h a -> refs h a cnt -> chunks a !! p = Some c -> CmiGetReference p h = Normal (cnt (k_root c)).
Proof. intros S R Hp. unfold CmiGetReference. rewrite (find_enclosing h a S cnt p c R Hp). cbn [mbind outcome_bind]. apply (root_count h a S cnt p c R Hp). Qed.

(** The chunks of a block disappear. *)
Definition drop_block (r : Z) (a : amem) : amem := mk_amem (filter (fun pc => k_root pc.2 <> r) (chunks a)) (holds a).

Lemma drop_block_lookup r a p c : chunks (drop_block r a) !! p = Some c <-> chunks a !! p = Some c /\ k_root c <> r.
Proof. unfold drop_block. cbn [chunks]. by rewrite map_lookup_filter_Some. Qed.

(** A chunk of another block is apart from the block [r]. *)
Lemma other_block_apart h a r cr p c : shape h a -> chunks a !! r = Some cr -> k_root cr = r -> chunks a !! p = Some c -> k_root c <> r ->
  p + k_size c <= r - 16 \/ r + k_size cr <= p - 16.
Proof.
  intros S Hr Er Hp Hne. assert (p <> r) as Hpr by congruence. destruct (sh_nest _ _ S p c r cr Hp Hr Hpr) as [[E _]|H]; [congruence|done].
Qed.

Lemma free_block h a r cr : shape h a -> chunks a !! r = Some cr -> k_root cr = r -> exists h', free_nomigrate (BLKSTART r) h = Normal h' /\ shape h' (drop_block r a) /\
  (forall y, y < r - 16 \/ r + k_size cr <= y -> bytes h' !! y = bytes h !! y) /\ (forall y, r - 16 <= y < r + k_size cr -> bytes h' !! y = None).
Proof.
  intros S Hr Er. pose proof (sh_pos _ _ S r cr Hr) as [_ Hsz]. unfold free_nomigrate, BLKSTART, CmiChunkHeader.
  assert (blocks h !! (r - 16) = Some (k_size cr + 16)) as -> by (apply (sh_block _ _ S); exists cr; replace (r - 16 + 16) with r by lia; done).
  eexists. split; [reflexivity|]. cbn [bytes].
  assert (forall y, free_bytes (r - 16) (Z.to_nat (k_size cr + 16)) (bytes h) !! y = if decide (r - 16 <= y < r + k_size cr) then None else bytes h !! y) as Hl.
  { intros y. rewrite free_lookup. destruct (decide (r - 16 <= y < r - 16 + Z.of_nat (Z.to_nat (k_size cr + 16)))), (decide (r - 16 <= y < r + k_size cr)); try lia; done. }
  split; [|split; [intros y Hy; rewrite Hl, decide_False by lia; done|intros y Hy; by rewrite Hl, decide_True by lia]].
  assert (forall p c n x, chunks a !! p = Some c -> k_root c <> r -> p - 16 <= x -> x + n <= p + k_size c -> same (bytes h) (free_bytes (r - 16) (Z.to_nat (k_size cr + 16)) (bytes h)) x n) as Hsame.
  { intros p c n x Hp Hne H1 H2 y Hy. rewrite Hl. rewrite decide_False; [done|]. destruct (other_block_apart h a r cr p c S Hr Er Hp Hne); lia. }
  split; cbn [bytes blocks].
  - intros p c [Hp Hne]%drop_block_lookup. apply (same_int h); [|by apply (sh_size _ _ S)]. pose proof (sh_pos _ _ S p c Hp). unfold SIZEFIELD, BLKSTART, CmiChunkHeader. apply (Hsame p c); [done|done|lia|lia].
  - intros p c [Hp Hne]%drop_block_lookup. by apply (sh_pos _ _ S).
  - intros p c d [Hp Hne]%drop_block_lookup Ed. destruct (sh_data _ _ S p c d Hp Ed) as [H1 H2]. split; [|done]. apply (same_has (bytes h)); [|done]. apply (Hsame p c); [done|done|lia|lia].
  - intros p c q cq [Hp _]%drop_block_lookup Hd [Hq _]%drop_block_lookup. by apply (sh_leaf _ _ S p c q cq).
  - intros p c q cq [Hp _]%drop_block_lookup [Hq _]%drop_block_lookup. by apply (sh_nest _ _ S).
  - intros p c [Hp Hne]%drop_block_lookup. destruct (sh_root _ _ S p c Hp) as (c' & Hc' & E' & Hi). exists c'. split; [apply drop_block_lookup; split; [done|by rewrite E']|done].
  - intros p c [Hp Hne]%drop_block_lookup E x Hx. rewrite (Hsame p c (k_size c + 16) (p - 16)); [by apply (sh_mapped _ _ S p c)|done|done|lia|lia|done].
  - intros x Hx. rewrite Hl in Hx. destruct (decide _) as [|Hx']; [by destruct Hx|]. destruct (sh_dom _ _ S x Hx) as (p & c & Hp & E & Hin). exists p, c. split; [|done].
    apply drop_block_lookup. split; [done|]. intros E'. assert (p = r) as -> by congruence. assert (c = cr) as -> by congruence. lia.
  - intros x n. destruct (decide (x = r - 16)) as [->|Hx].
    + rewrite lookup_delete_eq. split; [done|]. intros (c & [_ Hne]%drop_block_lookup & E & _). lia.
    + rewrite lookup_delete_ne by done. rewrite (sh_block _ _ S). split; intros (c & H1 & H2 & H3); exists c; (split; [|done]).
      * apply drop_block_lookup. split; [done|]. lia.
      * by apply drop_block_lookup in H1 as [? _].
Qed.

(** [CmiFree] takes one from the count of the block, and frees it at zero. *)
Lemma chunk_free_spec h a cnt p c : shape h a -> refs h a cnt -> chunks a !! p = Some c ->
  exists h', CmiFree p h = Normal h' /\
    (if decide (cnt (k_root c) = 1) then shape h' (drop_block (k_root c) a) /\ refs h' (drop_block (k_root c) a) cnt
     else shape h' a /\ refs h' a (fun r => if decide (r = k_root c) then cnt r - 1 else cnt r)).
Proof.
  intros S R Hp. unfold CmiFree. rewrite (find_enclosing h a S cnt p c R Hp). cbn [mbind outcome_bind]. destruct (root_count h a S cnt p c R Hp) as [-> Hr]. cbn [mbind outcome_bind].
  destruct (sh_root _ _ S p c Hp) as (cr & Hcr & Er & _). set (r := k_root c) in *. destruct (Z.eqb_spec (cnt r) 0); [lia|].
  destruct (set_ref h a S r cr (cnt r - 1) Hcr) as (h1 & -> & S1 & T & Hi & Hf); [split; lia|]. cbn [mbind outcome_bind].
  destruct (Z.eqb_spec (cnt r - 1) 0) as [E1|E1].
  - destruct (free_block h1 a r cr S1 Hcr Er) as (h' & -> & S' & Hk & _). exists h'. split; [done|]. rewrite decide_True by lia. split; [done|].
    intros q cq [Hq Hne]%drop_block_lookup. destruct (R q cq Hq) as [R1 R2]. assert (q <> r) as Hqr by congruence.
    assert (forall w, int_at h (REFFIELD q) w -> int_at h' (REFFIELD q) w) as Hw.
    { intros w Hw. apply (same_int h1); [|by apply (Hf q cq)]. intros y Hy. apply Hk. pose proof (sh_pos _ _ S q cq Hq). unfold REFFIELD, BLKSTART, CmiChunkHeader in Hy.
      destruct (other_block_apart h1 a r cr q cq S1 Hcr Er Hq Hne); lia. }
    split; [intros E; destruct (R1 E); by split; [apply Hw|]|]. intros E. destruct (R2 E) as (q' & c' & H1 & H2 & H3 & H4). exists q', c'. split; [apply drop_block_lookup; split; [done|congruence]|].
    split; [done|]. split; [done|]. by apply Hw.
  - exists h1. split; [done|]. rewrite decide_False by lia. split; [done|]. pose proof (refs_set h h1 a cnt r cr _ S R Hcr Er Hi ltac:(lia) Hf) as R'.
    intros q cq Hq. specialize (R' q cq Hq). cbn beta in R'. destruct (decide (q = r)) as [->|]; done.
Qed.

(** ** New chunks *)

Definition add_chunk (p : Z) (c : chunk) (a : amem) : amem := mk_amem (<[p := c]> (chunks a)) (holds a).
Definition set_data (p : Z) (d : option (list Z)) (a : amem) : amem := mk_amem (alter (fun c => mk_chunk (k_size c) (k_root c) d) p (chunks a)) (holds a).

Lemma set_data_lookup p d a q c : chunks (set_data p d a) !! q = Some c ->
  exists c0, chunks a !! q = Some c0 /\ k_size c = k_size c0 /\ k_root c = k_root c0 /\ k_data c = if decide (q = p) then d else k_data c0.
Proof.
  unfold set_data. cbn [chunks]. destruct (decide (q = p)) as [->|Hne].
  - rewrite lookup_alter_eq. destruct (chunks a !! p) as [c0|]; [|done]. intros [= <-]. by exists c0.
  - rewrite lookup_alter_ne by done. intros Hq. by exists c.
Qed.

Lemma set_data_lookup_2 p d a q c0 : chunks a !! q = Some c0 ->
  chunks (set_data p d a) !! q = Some (mk_chunk (k_size c0) (k_root c0) (if decide (q = p) then d else k_data c0)).
Proof.
  unfold set_data. cbn [chunks]. intros Hq. destruct (decide (q = p)) as [->|Hne]; [by rewrite lookup_alter_eq, Hq|]. rewrite lookup_alter_ne by done. rewrite Hq. by destruct c0.
Qed.

(** The contents of a chunk, once nothing lies in it, or none. *)
Lemma shape_set_data h a p c d : shape h a -> chunks a !! p = Some c ->
  (forall l, d = Some l -> has_bytes (bytes h) p l /\ Z.of_nat (length l) = k_size c /\ (forall q cq, chunks a !! q = Some cq -> ~ inside q (k_size cq) p (k_size c))) ->
  shape h (set_data p d a).
Proof.
  intros S Hp Hd. split.
  - intros q cq (c0 & Hq & -> & _)%set_data_lookup. by apply (sh_size _ _ S).
  - intros q cq (c0 & Hq & -> & _)%set_data_lookup. by apply (sh_pos _ _ S q).
  - intros q cq l (c0 & Hq & -> & _ & ->)%set_data_lookup El. destruct (decide (q = p)) as [->|]; [|by apply (sh_data _ _ S q)]. assert (c0 = c) as -> by congruence.
    destruct (Hd l El) as (H1 & H2 & _). done.
  - intros q cq x cx (c0 & Hq & -> & _ & ->)%set_data_lookup Hn (cx0 & Hx & -> & _)%set_data_lookup. destruct (decide (q = p)) as [->|]; [|by apply (sh_leaf _ _ S q c0 x cx0)].
    assert (c0 = c) as -> by congruence. destruct d as [l|]; [|done]. destruct (Hd l eq_refl) as (_ & _ & H3). by apply H3.
  - intros q cq x cx (c0 & Hq & -> & -> & _)%set_data_lookup (cx0 & Hx & -> & -> & _)%set_data_lookup. by apply (sh_nest _ _ S).
  - intros q cq (c0 & Hq & -> & -> & _)%set_data_lookup. destruct (sh_root _ _ S q c0 Hq) as (cr & H1 & H2 & H3). eexists. split; [by apply set_data_lookup_2|done].
  - intros q cq (c0 & Hq & -> & -> & _)%set_data_lookup. by apply (sh_mapped _ _ S).
  - intros x Hx. destruct (sh_dom _ _ S x Hx) as (q & c0 & Hq & H1 & H2). eexists q, _. split; [by apply set_data_lookup_2|done].
  - intros x n. rewrite (sh_block _ _ S). split.
    + intros (c0 & Hq & H1 & H2). eexists. split; [by apply set_data_lookup_2|done].
    + intros (cq & (c0 & Hq & E1 & E2 & _)%set_data_lookup & H1 & H2). exists c0. rewrite <- E1, <- E2. done.
Qed.

Lemma refs_set_data h a cnt p d : refs h a cnt -> refs h (set_data p d a) cnt.
Proof.
  intros R q cq (c0 & Hq & _ & -> & _)%set_data_lookup. destruct (R q c0 Hq) as [R1 R2]. split; [done|]. intros E. destruct (R2 E) as (x & cx & H1 & H2 & H3 & H4).
  eexists x, _. split; [by apply set_data_lookup_2|done].
Qed.

(** A chunk is carved out of the payload of [p], which has no contents of its
    own any more. *)
Lemma shape_carve h a p c q sz d : shape h a -> chunks a !! p = Some c -> k_data c = None -> inside q sz p (k_size c) -> 0 <= sz ->
  int_at h (SIZEFIELD q) sz -> has_bytes (bytes h) q d -> Z.of_nat (length d) = sz ->
  (forall x cx, chunks a !! x = Some cx -> inside x (k_size cx) p (k_size c) -> apart q sz x (k_size cx)) ->
  shape h (add_chunk q (mk_chunk sz (k_root c) (Some d)) a) /\ chunks a !! q = None.
Proof.
  intros S Hp Hnd Hin Hsz Hs Hd Hlen Hfree. pose proof (sh_pos _ _ S p c Hp) as Hpp.
  assert (forall x cx, chunks a !! x = Some cx -> k_root c = k_root cx /\ inside q sz x (k_size cx) \/ apart q sz x (k_size cx)) as Hnest.
  { intros x cx Hx. destruct (decide (x = p)) as [->|Hne]; [assert (cx = c) as -> by congruence; by left|].
    destruct (sh_nest _ _ S p c x cx Hp Hx (not_eq_sym Hne)) as [[E [Hi|Hi]]|Ha].
    - left. split; [done|]. unfold inside in *. lia.
    - right. by apply Hfree.
    - right. unfold apart, inside in *. lia. }
  assert (forall x cx, chunks a !! x = Some cx -> x <> q) as Hq.
  { intros x cx Hx ->. pose proof (sh_pos _ _ S q cx Hx). destruct (Hnest q cx Hx) as [[_ []]|[]]; lia. }
  assert (chunks a !! q = None) as Hqn by (destruct (chunks a !! q) as [cx|] eqn:E; [by destruct (Hq q cx E)|done]). split; [|done].
  assert (forall x cx, chunks (add_chunk q (mk_chunk sz (k_root c) (Some d)) a) !! x = Some cx -> x = q /\ cx = mk_chunk sz (k_root c) (Some d) \/ x <> q /\ chunks a !! x = Some cx) as Hcase.
  { intros x cx Hx. unfold add_chunk in Hx. cbn [chunks] in Hx. apply lookup_insert_Some in Hx as [[<- <-]|[? ?]]; [by left|right]. split; [by apply not_eq_sym|done]. }
  assert (forall x cx, chunks a !! x = Some cx -> chunks (add_chunk q (mk_chunk sz (k_root c) (Some d)) a) !! x = Some cx) as Hold.
  { intros x cx Hx. unfold add_chunk. cbn [chunks]. rewrite lookup_insert_ne; [done|]. by apply not_eq_sym, (Hq x cx). }
  split.
  - intros x cx [[-> ->]|[_ Hx]]%Hcase; [done|by apply (sh_size _ _ S)].
  - intros x cx [[-> ->]|[_ Hx]]%Hcase; [cbn; unfold inside in *; lia|by apply (sh_pos _ _ S)].
  - intros x cx l [[-> ->]|[_ Hx]]%Hcase; [intros [= <-]; done|by apply (sh_data _ _ S)].
  - intros x cx y cy [[-> ->]|[_ Hx]]%Hcase Hn [[-> ->]|[_ Hy]]%Hcase Hi; cbn [k_size] in *.
    + unfold inside in Hi. lia.
    + pose proof (sh_pos _ _ S y cy Hy). destruct (Hnest y cy Hy) as [[_ Hn2]|Hn2]; unfold inside, apart in *; lia.
    + destruct (decide (x = p)) as [->|Hne]; [congruence|]. apply (sh_leaf _ _ S x cx p c Hx Hn Hp).
      pose proof (sh_pos _ _ S x cx Hx). destruct (sh_nest _ _ S p c x cx Hp Hx (not_eq_sym Hne)) as [[_ [?|Hi2]]|Ha]; [done| |].
      * specialize (Hfree x cx Hx Hi2). unfold inside, apart in *. lia.
      * unfold inside, apart in *. lia.
    + by apply (sh_leaf _ _ S x cx y cy).
  - intros x cx y cy [[-> ->]|[_ Hx]]%Hcase [[-> ->]|[_ Hy]]%Hcase Hne; cbn [k_size k_root] in *.
    + done.
    + destruct (Hnest y cy Hy) as [[E H]|H]; [left; split; [done|by left]|by right].
    + destruct (Hnest x cx Hx) as [[E H]|H]; [left; split; [done|by right]|right]. unfold apart in *. lia.
    + by apply (sh_nest _ _ S).
  - intros x cx [[-> ->]|[_ Hx]]%Hcase; cbn [k_size k_root].
    + destruct (sh_root _ _ S p c Hp) as (cr & H1 & H2 & H3). exists cr. split; [by apply Hold|]. split; [done|]. right. destruct H3 as [E|H3]; [|unfold inside in *; lia]. rewrite E in *. assert (cr = c) as -> by congruence. done.
    + destruct (sh_root _ _ S x cx Hx) as (cr & H1 & H2 & H3). exists cr. split; [by apply Hold|]. done.
  - intros x cx [[-> ->]|[_ Hx]]%Hcase E; cbn [k_size k_root] in *; [|by apply (sh_mapped _ _ S)].
    destruct (sh_root _ _ S p c Hp) as (cr & H1 & H2 & _). rewrite E, Hqn in H1. done.
  - intros x Hx. destruct (sh_dom _ _ S x Hx) as (y & cy & H1 & H2). exists y, cy. split; [by apply Hold|done].
  - intros x n. rewrite (sh_block _ _ S). split; intros (cx & H1 & H2 & H3).
    + exists cx. split; [by apply Hold|done].
    + apply Hcase in H1 as [[E ->]|[_ H1]]; [|by exists cx]. cbn [k_root] in H2. destruct (sh_root _ _ S p c Hp) as (cr & H4 & _). rewrite H2, E, Hqn in H4. done.
Qed.

(** Memory that [malloc] may return. *)
Definition fresh (x n : Z) (h : heap) : Prop := 0 <= x /\ x mod ALIGN_BYTES = 0 /\ forall y, x <= y < x + n -> bytes h !! y = None.

Lemma fresh_apart h a x n q cq : shape h a -> fresh x n h -> 0 < n -> chunks a !! q = Some cq -> x + n <= q - 16 \/ q + k_size cq <= x.
Proof.
  intros S (_ & _ & Hf) Hn Hq. pose proof (sh_pos _ _ S q cq Hq). destruct (decide (x + n <= q - 16)) as [|H1]; [by left|]. destruct (decide (q + k_size cq <= x)) as [|H2]; [by right|].
  destruct (chunk_mapped h a S q cq Hq (Z.max x (q - 16))) as [b Hb]; [lia|]. by rewrite Hf in Hb by lia.
Qed.

Definition new_block (p size : Z) (d : list Z) (a : amem) : amem := add_chunk p (mk_chunk size p (Some d)) a.

Lemma shape_new_block h h' a x size d : shape h a -> fresh x (size + 16) h -> 0 <= size -> int_at h' x size -> has_bytes (bytes h') (x + 16) d -> Z.of_nat (length d) = size ->
  (forall y, y < x \/ x + 16 + size <= y -> bytes h' !! y = bytes h !! y) -> mapped (bytes h') x (size + 16) -> blocks h' = <[x := size + 16]> (blocks h) ->
  shape h' (new_block (x + 16) size d a) /\ chunks a !! (x + 16) = None.
Proof.
  intros S Hf Hsz Hs Hd Hlen Hold Hm Hb. pose proof Hf as (Hx & _ & _).
  assert (forall q cq, chunks a !! q = Some cq -> x + 16 + size <= q - 16 \/ q + k_size cq <= x) as Hap by (intros q cq Hq; destruct (fresh_apart h a x (size + 16) q cq S Hf ltac:(lia) Hq); lia).
  assert (forall q cq, chunks a !! q = Some cq -> q <> x + 16) as Hne by (intros q cq Hq ->; pose proof (sh_pos _ _ S _ cq Hq); destruct (Hap _ cq Hq); lia).
  assert (chunks a !! (x + 16) = None) as Hn by (destruct (chunks a !! (x + 16)) as [cx|] eqn:E; [by destruct (Hne _ cx E)|done]). split; [|done].
  set (c := mk_chunk size (x + 16) (Some d)). unfold new_block. fold c.
  assert (forall q cq, chunks (add_chunk (x + 16) c a) !! q = Some cq -> q = x + 16 /\ cq = c \/ chunks a !! q = Some cq) as Hcase.
  { intros q cq Hq. unfold add_chunk in Hq. cbn [chunks] in Hq. apply lookup_insert_Some in Hq as [[<- <-]|[_ ?]]; [by left|by right]. }
  assert (forall q cq, chunks a !! q = Some cq -> chunks (add_chunk (x + 16) c a) !! q = Some cq) as Hkeep.
  { intros q cq Hq. unfold add_chunk. cbn [chunks]. rewrite lookup_insert_ne; [done|]. by apply not_eq_sym, (Hne q cq). }
  assert (forall q cq y k, chunks a !! q = Some cq -> q - 16 <= y -> y + k <= q + k_size cq -> same (bytes h) (bytes h') y k) as Hsame by (intros q cq y k Hq H1 H2 z Hz; apply Hold; destruct (Hap q cq Hq); lia).
  assert (forall q cq, chunks a !! q = Some cq -> 0 < q /\ 0 <= k_size cq) as Hpos by (intros q cq Hq; by apply (sh_pos _ _ S)).
  split.
  - intros q cq [[-> ->]|Hq]%Hcase; unfold SIZEFIELD, BLKSTART, CmiChunkHeader; [by replace (x + 16 - 16) with x by lia|]. apply (same_int h); [|by apply (sh_size _ _ S)]. pose proof (Hpos q cq Hq). apply (Hsame q cq); [done|lia|lia].
  - intros q cq [[-> ->]|Hq]%Hcase; [cbn; lia|by apply (Hpos q cq)].
  - intros q cq l [[-> ->]|Hq]%Hcase El; [injection El as <-; done|]. destruct (sh_data _ _ S q cq l Hq El) as [H1 H2]. split; [|done]. apply (same_has (bytes h)); [|done]. apply (Hsame q cq); [done|lia|lia].
  - intros q cq y cy [[-> ->]|Hq]%Hcase Hd2 [[-> ->]|Hy]%Hcase Hi; cbn [k_size c] in *.
    + unfold inside in Hi. lia.
    + pose proof (Hpos y cy Hy). destruct (Hap y cy Hy); unfold inside in Hi; lia.
    + pose proof (Hpos q cq Hq). destruct (Hap q cq Hq); unfold inside in Hi; lia.
    + by apply (sh_leaf _ _ S q cq y cy).
  - intros q cq y cy [[-> ->]|Hq]%Hcase [[-> ->]|Hy]%Hcase Hqy; [done| | |by apply (sh_nest _ _ S)]; right; unfold apart; cbn [k_size c].
    + destruct (Hap y cy Hy); lia.
    + destruct (Hap q cq Hq); lia.
  - intros q cq [[-> ->]|Hq]%Hcase; [exists c; split; [apply lookup_insert_eq|]; split; [done|by left]|]. destruct (sh_root _ _ S q cq Hq) as (cr & H1 & H2). exists cr. split; [by apply Hkeep|done].
  - intros q cq [[-> ->]|Hq]%Hcase E; [cbn [k_size c]; by replace (x + 16 - 16) with x by lia|]. intros y Hy. rewrite (Hsame q cq (q - 16) (k_size cq + 16)); [by apply (sh_mapped _ _ S q cq)|done|lia|lia|done].
  - intros y Hy. destruct (decide (x <= y < x + 16 + size)) as [Hin|Hout]; [exists (x + 16), c; split; [apply lookup_insert_eq|]; split; [done|cbn; lia]|].
    rewrite Hold in Hy by lia. destruct (sh_dom _ _ S y Hy) as (q & cq & H1 & H2). exists q, cq. split; [by apply Hkeep|done].
  - intros y n. rewrite Hb. destruct (decide (y = x)) as [->|Hyx].
    + rewrite lookup_insert_eq. split; [intros [= <-]; exists c; split; [apply lookup_insert_eq|done]|]. intros (cy & [[_ ->]|Hy]%Hcase & _ & ->); [done|congruence].
    + rewrite lookup_insert_ne by done. rewrite (sh_block _ _ S). split; intros (cy & H1 & H2); exists cy; (split; [|done]); [by apply Hkeep|]. apply Hcase in H1 as [[E _]|?]; [lia|done].
Qed.

Lemma refs_add h h' a cnt p c : refs h a cnt -> chunks a !! p = None -> (forall q cq w, chunks a !! q = Some cq -> int_at h (REFFIELD q) w -> int_at h' (REFFIELD q) w) ->
  (k_root c = p -> int_at h' (REFFIELD p) (cnt p) /\ 0 < cnt p) ->
  (k_root c <> p -> exists q cq, chunks a !! q = Some cq /\ k_root cq = k_root c /\ q < p /\ int_at h' (REFFIELD p) (q - p)) -> refs h' (add_chunk p c a) cnt.
Proof.
  intros R Hp Hk H1 H2 q cq Hq. unfold add_chunk in *. cbn [chunks] in *.
  assert (forall x cx, chunks a !! x = Some cx -> <[p := c]> (chunks a) !! x = Some cx) as Hkeep by (intros x cx Hx; rewrite lookup_insert_ne; [done|congruence]).
  apply lookup_insert_Some in Hq as [[<- <-]|[Hne Hq]].
  - split; [done|]. intros E. destruct (H2 E) as (x & cx & Hx & ?). exists x, cx. split; [by apply Hkeep|done].
  - destruct (R q cq Hq) as [R1 R2]. split; [intros E; destruct (R1 E); split; [by apply (Hk q cq)|done]|]. intros E. destruct (R2 E) as (x & cx & Hx & E1 & E2 & Hw).
    exists x, cx. split; [by apply Hkeep|]. split; [done|]. split; [done|]. by apply (Hk q cq).
Qed.

(** [CmiAlloc] gives a new block with one reference. *)
Lemma chunk_alloc_spec junk h a cnt x size : shape h a -> refs h a cnt -> fresh x (size + 16) h -> 0 <= size < 2 ^ 31 -> cnt (x + 16) = 1 ->
  exists h', CmiAlloc junk x size h = Normal (h', x + 16) /\ shape h' (new_block (x + 16) size (junk <$> seqZ (x + 16) size) a) /\
    refs h' (new_block (x + 16) size (junk <$> seqZ (x + 16) size) a) cnt /\ chunks a !! (x + 16) = None /\
    (forall y, y < x \/ x + 16 + size <= y -> bytes h' !! y = bytes h !! y).
Proof.
  intros S R Hf Hsz Hc. pose proof Hf as (Hx & Hal & _). unfold CmiAlloc, SIZEFIELD, REFFIELD, BLKSTART, CmiChunkHeader. replace (x + 16 - 16) with x by lia.
  assert (((x + 16) mod ALIGN_BYTES =? 0) = true) as ->.
  { unfold ALIGN_BYTES in *. apply Z.eqb_eq. replace (x + 16) with (x + 1 * 16) by lia. by rewrite Z.mod_add by lia. }
  cbn [CmiAssert mbind outcome_bind]. set (h0 := malloc_nomigrate junk x (size + 16) h).
  assert (forall y, bytes h0 !! y = if decide (x <= y < x + 16 + size) then Some (junk y) else bytes h !! y) as H0.
  { intros y. unfold h0, malloc_nomigrate. cbn [bytes]. rewrite alloc_lookup. destruct (decide (x <= y < x + Z.of_nat (Z.to_nat (size + 16)))), (decide (x <= y < x + 16 + size)); try lia; done. }
  assert (mapped (bytes h0) x (size + 16)) as M0 by (intros y Hy; rewrite H0, decide_True by lia; by eexists).
  destruct (store32_touch x size h0) as (h1 & -> & (T1 & D1 & B1) & I1); [intros y Hy; apply M0; lia|split; lia|]. cbn [mbind outcome_bind].
  destruct (store32_touch (x + 4) 1 h1) as (h2 & -> & T2 & I2); [intros y Hy; apply D1, M0; lia|split; lia|]. pose proof T2 as (F2 & D2 & B2). exists h2. split; [done|].
  assert (forall y, y < x \/ x + 16 + size <= y -> bytes h2 !! y = bytes h !! y) as Hold by (intros y Hy; rewrite F2, T1, H0, decide_False by lia; done).
  destruct (shape_new_block h h2 a x size (junk <$> seqZ (x + 16) size) S Hf) as [S' Hn]; [lia| | | |done| | |].
  - apply (same_int h1); [|done]. apply (touch_same _ _ _ _ _ _ T2). lia.
  - intros i b Hi. apply list_lookup_fmap_Some in Hi as (y & -> & [-> Hi]%lookup_seqZ). rewrite F2, T1, H0, decide_True by lia. done.
  - rewrite length_fmap, length_seqZ. lia.
  - intros y Hy. by apply D2, D1, M0.
  - rewrite B2, B1. done.
  - split; [done|]. split; [|by split]. apply (refs_add h); [done|done| | |cbn; done].
    + intros q cq w Hq Hw. apply (same_int h); [|done]. intros y Hy. apply Hold. pose proof (sh_pos _ _ S q cq Hq). unfold REFFIELD, BLKSTART, CmiChunkHeader in Hy. destruct (fresh_apart h a x (size + 16) q cq S Hf ltac:(lia) Hq); lia.
    + intros _. unfold REFFIELD, BLKSTART, CmiChunkHeader. replace (x + 16 - 16) with x by lia. rewrite Hc. by split; [|lia].
Qed.
