(* ===== verification/MsgMemSpec.v ===== *)
(** * MsgMemSpec: message memory refines held contents

    Whatever messages are allocated, shared, written, bundled, taken apart and
    freed, memory behaves as if each message had contents of its own until its
    last holder frees it; then, and only then, its block is freed. *)

From S2P Require Import Prelude MsgMem MsgMemFacts MsgChunks.
#[local] Open Scope Z_scope.
Set Warnings "-clear-no-such-hyp".

Fixpoint remove_one (p : Z) (l : list Z) : list Z :=
  match l with [] => [] | x :: l => if decide (x = p) then l else x :: remove_one p l end.

Definition add_hold (p : Z) (a : amem) : amem := mk_amem (chunks a) (holds a ++ [p]).
Definition drop_hold (p : Z) (a : amem) : amem := mk_amem (chunks a) (remove_one p (holds a)).

(** The block goes with its last holder. *)
Definition a_free (p : Z) (a : amem) : amem :=
  let a' := drop_hold p a in
  if decide (count a' (root_of a p) = 0) then drop_block (root_of a p) a' else a'.

Definition data_of (p : Z) (a : amem) : list Z := default [] (c ← chunks a !! p; k_data c).

(** ** Bundles of contents *)

Section bundles.
Context (CmiMsgHeaderSizeBytes : Z) (stamp : list Z -> list Z) (junk : Z -> Z).

Definition bundle_word (d : list Z) (o : Z) : Z := dec32 (take 4 (drop (Z.to_nat o) d)).

(** The messages of a bundle: offset and contents. *)
Fixpoint parts (n : nat) (o : Z) (d : list Z) : list (Z * list Z) :=
  match n with
  | O => []
  | S n => let sz := bundle_word d o in (o + 16, take (Z.to_nat sz) (drop (Z.to_nat (o + 16)) d)) :: parts n (o + (16 + sz)) d
  end.
Fixpoint parts_ok (n : nat) (o : Z) (d : list Z) : Prop :=
  match n with O => True | S n => let sz := bundle_word d o in 0 <= sz /\ o + (16 + sz) <= Z.of_nat (length d) /\ parts_ok n (o + (16 + sz)) d end.

Fixpoint add_parts (p r : Z) (ps : list (Z * list Z)) (a : amem) : amem :=
  match ps with
  | [] => a
  | (o, l) :: ps => add_parts p r ps (add_hold (p + o) (add_chunk (p + o) (mk_chunk (Z.of_nat (length l)) r (Some (stamp l))) a))
  end.

Definition bundle_parts (d : list Z) : list (Z * list Z) := parts (Z.to_nat (bundle_word d (nMessages_off CmiMsgHeaderSizeBytes))) (CmiMultipleSendHeader CmiMsgHeaderSizeBytes) d.
Definition is_bundle (d : list Z) : Prop := (CmiMultipleSendHeader CmiMsgHeaderSizeBytes) <= Z.of_nat (length d) /\ parts_ok (Z.to_nat (bundle_word d (nMessages_off CmiMsgHeaderSizeBytes))) (CmiMultipleSendHeader CmiMsgHeaderSizeBytes) d.

Definition a_multi (p : Z) (a : amem) : amem * list Z :=
  let ps := bundle_parts (data_of p a) in
  (a_free p (add_parts p (root_of a p) ps (set_data p None a)), (fun x => p + x.1) <$> ps).

(** The bytes of a bundle. *)
Definition padded (d : list Z) : list Z := d ++ replicate (Z.to_nat (paddingSize (Z.of_nat (length d)))) 0.
Definition entry (d : list Z) : list Z := msgHdr junk (roundUpSize (Z.of_nat (length d))) ++ padded d.
Definition bundle (convHeader : list Z) (ds : list (list Z)) : list Z :=
  send_header CmiMsgHeaderSizeBytes junk convHeader (Z.of_nat (length ds)) ++ concat (entry <$> ds).

(** ** Events *)

Inductive mem_event :=
  | EAlloc (x size : Z)                                           (** [CmiAlloc], where [malloc] returns [x] *)
  | ERef (p : Z)                                                  (** [CmiReference] *)
  | EFree (p : Z)                                                 (** [CmiFree] *)
  | EWrite (p off : Z) (l : list Z)                               (** a holder writes its message *)
  | ERead (p : Z)                                                 (** a holder reads its message *)
  | EPack (x : Z) (convHeader : list Z) (msgs : list (Z * Z))     (** [CmiMultipleSend] *)
  | EMulti (p : Z).                                               (** [CmiMultiMsgHandler] *)

Definition mem_step (e : mem_event) (h : heap) : outcome (heap * list Z) :=
  match e with
  | EAlloc x size => '(h, p) ← CmiAlloc junk x size h; Normal (h, [p])
  | ERef p => h ← CmiReference p h; Normal (h, [])
  | EFree p => h ← CmiFree p h; Normal (h, [])
  | EWrite p off l => m ← store_bytes (bytes h) (p + off) l; Normal (set_bytes m h, [])
  | ERead p => n ← CmiSize p h; l ← load_bytes (bytes h) p (Z.to_nat n); Normal (h, l)
  | EPack x convHeader msgs => '(h, p) ← CmiMultipleSend CmiMsgHeaderSizeBytes stamp junk x convHeader msgs h; Normal (h, [p])
  | EMulti p => CmiMultiMsgHandler CmiMsgHeaderSizeBytes stamp p h
  end.

Definition amem_step (e : mem_event) (a : amem) : amem * list Z :=
  match e with
  | EAlloc x size => (add_hold (x + 16) (new_block (x + 16) size (junk <$> seqZ (x + 16) size) a), [x + 16])
  | ERef p => (add_hold p a, [])
  | EFree p => (a_free p a, [])
  | EWrite p off l => let d := data_of p a in (set_data p (Some (take (Z.to_nat off) d ++ l ++ drop (Z.to_nat off + length l) d)) a, [])
  | ERead p => (a, data_of p a)
  | EPack x convHeader msgs =>
      let d := stamp (bundle convHeader ((fun m => take (Z.to_nat m.1) (data_of m.2 a)) <$> msgs)) in
      (add_hold (x + 16) (new_block (x + 16) (Z.of_nat (length d)) d a), [x + 16])
  | EMulti p => a_multi p a
  end.

(** Clients use what they hold, and do not write a bundle that was taken
    apart; there are fewer holders than an [int] can count. *)
Definition has_data (p : Z) (a : amem) : Prop := exists c d, chunks a !! p = Some c /\ k_data c = Some d.
Definition room (n : nat) (a : amem) : Prop := Z.of_nat (length (holds a) + n) < 2 ^ 31 - 1.

Definition mem_allowed (e : mem_event) (h : heap) (a : amem) : Prop :=
  match e with
  | EAlloc x size => fresh x (size + 16) h /\ 0 <= size < 2 ^ 31 /\ room 1 a
  | ERef p => p ∈ holds a /\ room 1 a
  | EFree p => p ∈ holds a
  | EWrite p off l => p ∈ holds a /\ has_data p a /\ 0 <= off /\ off + Z.of_nat (length l) <= Z.of_nat (length (data_of p a))
  | ERead p => p ∈ holds a /\ has_data p a
  | EPack x convHeader msgs =>
      let d := bundle convHeader ((fun m => take (Z.to_nat m.1) (data_of m.2 a)) <$> msgs) in
      fresh x (Z.of_nat (length d) + 16) h /\ Z.of_nat (length convHeader) = CmiMsgHeaderSizeBytes /\ Z.of_nat (length d) < 2 ^ 31 /\ room 1 a /\
      forall sz p, (sz, p) ∈ msgs -> p ∈ holds a /\ has_data p a /\ 0 <= sz <= Z.of_nat (length (data_of p a))
  | EMulti p => p ∈ holds a /\ has_data p a /\ is_bundle (data_of p a) /\ room (length (bundle_parts (data_of p a))) a
  end.

Fixpoint mem_run (es : list mem_event) (h : heap) : outcome (heap * list (list Z)) :=
  match es with
  | [] => Normal (h, [])
  | e :: es => '(h, o) ← mem_step e h; '(h, os) ← mem_run es h; Normal (h, o :: os)
  end.
Fixpoint amem_run (es : list mem_event) (a : amem) : amem * list (list Z) :=
  match es with
  | [] => (a, [])
  | e :: es => let '(a, o) := amem_step e a in let '(a, os) := amem_run es a in (a, o :: os)
  end.
Fixpoint mem_allowed_run (es : list mem_event) (h : heap) (a : amem) : Prop :=
  match es with
  | [] => True
  | e :: es => mem_allowed e h a /\ match mem_step e h with Normal (h, _) => mem_allowed_run es h (amem_step e a).1 | Aborted => True end
  end.

End bundles.

(** ** Holders *)

(** Memory holds what the reference says. *)
Record mrel (h : heap) (a : amem) : Prop := mk_mrel {
  m_shape : shape h a;
  m_refs : refs h a (count a);
  m_holds p : p ∈ holds a -> is_Some (chunks a !! p)
}.

Lemma remove_one_perm p l : p ∈ l -> l ≡ₚ p :: remove_one p l.
Proof.
  induction l as [|x l IH]; intros Hp; [by apply elem_of_nil in Hp|]. cbn [remove_one]. destruct (decide (x = p)) as [->|Hne]; [done|].
  apply elem_of_cons in Hp as [->|Hp]; [done|]. rewrite (IH Hp) at 1. apply perm_swap.
Qed.

Lemma remove_one_sub p l x : x ∈ remove_one p l -> x ∈ l.
Proof. induction l as [|y l IH]; [done|]. cbn [remove_one]. destruct (decide (y = p)); rewrite !elem_of_cons; naive_solver. Qed.

Lemma count_add p a r : count (add_hold p a) r = if decide (r = root_of a p) then count a r + 1 else count a r.
Proof.
  unfold count, add_hold. cbn [holds]. rewrite filter_app, length_app. change (root_of (mk_amem (chunks a) (holds a ++ [p]))) with (root_of a).
  rewrite filter_cons, filter_nil. destruct (decide (root_of a p = r)) as [<-|Hne]; [rewrite decide_True by done|rewrite decide_False by congruence]; cbn [length]; lia.
Qed.

Lemma count_drop p a r : p ∈ holds a -> count a r = if decide (r = root_of a p) then count (drop_hold p a) r + 1 else count (drop_hold p a) r.
Proof.
  intros Hp. unfold count, drop_hold. cbn [holds]. change (root_of (mk_amem (chunks a) (remove_one p (holds a)))) with (root_of a).
  assert (length (filter (fun x => root_of a x = r) (holds a)) = length (filter (fun x => root_of a x = r) (p :: remove_one p (holds a)))) as -> by (apply Permutation_length, filter_Permutation; by apply remove_one_perm).
  rewrite filter_cons. destruct (decide (root_of a p = r)) as [<-|Hne]; [rewrite decide_True by done|rewrite decide_False by congruence]; cbn [length]; lia.
Qed.

Lemma refs_ext h a cnt cnt' : refs h a cnt -> (forall r c, chunks a !! r = Some c -> k_root c = r -> cnt' r = cnt r) -> refs h a cnt'.
Proof. intros R He p c Hp. destruct (R p c Hp) as [R1 R2]. split; [|done]. intros E. rewrite (He p c Hp E). by apply R1. Qed.

Lemma root_of_eq a p c : chunks a !! p = Some c -> root_of a p = k_root c.
Proof. intros E. unfold root_of. by rewrite E. Qed.

(** The chunks of a block that nobody holds are held by nobody. *)
Lemma count_zero a r p : count a r = 0 -> p ∈ holds a -> root_of a p <> r.
Proof.
  unfold count. intros Hc Hp E. assert (p ∈ filter (fun x => root_of a x = r) (holds a)) as Hf by (by apply list_elem_of_filter).
  destruct (filter (fun x => root_of a x = r) (holds a)); [by apply elem_of_nil in Hf|]. cbn [length] in Hc. lia.
Qed.

Lemma count_pos a r : 0 < count a r -> exists p, p ∈ holds a /\ root_of a p = r.
Proof.
  unfold count. intros Hc. destruct (filter (fun x => root_of a x = r) (holds a)) as [|p l] eqn:E; [done|]. exists p. assert (p ∈ p :: l) as Hp by left. rewrite <- E in Hp. by apply list_elem_of_filter in Hp as [? ?].
Qed.

Lemma count_none a r : (forall p, p ∈ holds a -> root_of a p <> r) -> count a r = 0.
Proof.
  unfold count. intros Hn. induction (holds a) as [|x l IH]; [done|]. rewrite filter_cons, decide_False by (apply Hn; left). apply IH. intros p Hp. apply Hn. by right.
Qed.

Lemma count_ext a a' r : holds a' = holds a -> (forall p, p ∈ holds a -> root_of a' p = root_of a p) -> count a' r = count a r.
Proof.
  intros Eh Hr. unfold count. rewrite Eh. clear Eh. induction (holds a) as [|x l IH]; [done|]. rewrite !filter_cons. rewrite (Hr x) by left.
  assert (forall p, p ∈ l -> root_of a' p = root_of a p) as Hr' by (intros p Hp; apply Hr; by right). specialize (IH Hr'). destruct (decide _); cbn [length]; lia.
Qed.

(** ** The operations *)

Lemma ref_step h a p : mrel h a -> p ∈ holds a -> room 1 a -> exists h', CmiReference p h = Normal h' /\ mrel h' (add_hold p a).
Proof.
  intros M Hp Hr. destruct (m_holds _ _ M p Hp) as [c Hc].
  assert (count a (k_root c) + 1 < 2 ^ 31) as Hlt.
  { unfold room in Hr. unfold count. pose proof (length_filter (fun x => root_of a x = k_root c) (holds a)). lia. }
  destruct (reference_spec h a (count a) p c (m_shape _ _ M) (m_refs _ _ M) Hc Hlt) as (h' & -> & S' & R' & _). exists h'. split; [done|]. split.
  - destruct S'. by split.
  - refine (refs_ext h' a _ _ R' _). intros r cr _ _. rewrite count_add, (root_of_eq a p c Hc). done.
  - intros x [Hx|Hx%list_elem_of_singleton]%elem_of_app; cbn [add_hold chunks]; [by apply (m_holds _ _ M)|]. subst. by exists c.
Qed.

Lemma free_step h a p : mrel h a -> p ∈ holds a -> exists h', CmiFree p h = Normal h' /\ mrel h' (a_free p a).
Proof.
  intros M Hp. destruct (m_holds _ _ M p Hp) as [c Hc]. destruct (chunk_free_spec h a (count a) p c (m_shape _ _ M) (m_refs _ _ M) Hc) as (h' & -> & Hf). exists h'. split; [done|].
  unfold a_free. rewrite (root_of_eq a p c Hc). pose proof (count_drop p a (k_root c) Hp) as Ec. rewrite (root_of_eq a p c Hc), decide_True in Ec by done.
  assert (forall x, x ∈ holds (drop_hold p a) -> is_Some (chunks a !! x)) as Hh by (intros x Hx; apply (m_holds _ _ M); by apply remove_one_sub in Hx).
  destruct (decide (count a (k_root c) = 1)) as [E1|E1]; destruct Hf as [S' R'].
  - rewrite decide_True by lia. assert (shape h' (drop_block (k_root c) (drop_hold p a))) as S2 by (destruct S'; by split). split; [done| |].
    + refine (refs_ext h' (drop_block (k_root c) a) _ _ R' _). intros r cr [Hr Hne]%drop_block_lookup Er.
      rewrite (count_drop p a r Hp), (root_of_eq a p c Hc), decide_False by congruence. apply count_ext; [done|]. intros x Hx.
      assert (root_of a x <> k_root c) as Hxr by (apply (count_zero (drop_hold p a)); [lia|done]). destruct (Hh x Hx) as [cx Hcx].
      rewrite (root_of_eq a x cx Hcx) in Hxr. change (root_of (drop_hold p a) x) with (root_of a x). rewrite (root_of_eq a x cx Hcx). apply root_of_eq. by apply drop_block_lookup.
    + intros x Hx. destruct (Hh x Hx) as [cx Hcx]. exists cx. apply drop_block_lookup. split; [done|]. rewrite <- (root_of_eq a x cx Hcx). apply (count_zero (drop_hold p a)); [lia|done].
  - rewrite decide_False by lia. split; [destruct S'; by split| |done].
    refine (refs_ext h' a _ _ R' _). intros r cr _ _. rewrite (count_drop p a r Hp), (root_of_eq a p c Hc). destruct (decide (r = k_root c)); lia.
Qed.

Lemma alloc_step junk h a x size : mrel h a -> fresh x (size + 16) h -> 0 <= size < 2 ^ 31 ->
  exists h', CmiAlloc junk x size h = Normal (h', x + 16) /\ mrel h' (add_hold (x + 16) (new_block (x + 16) size (junk <$> seqZ (x + 16) size) a)) /\ chunks a !! (x + 16) = None /\
    (forall y, y < x \/ x + 16 + size <= y -> bytes h' !! y = bytes h !! y).
Proof.
  intros M Hf Hsz. set (b := new_block _ _ _ a).
  assert (forall r, r <> x + 16 -> chunks a !! (x + 16) = None -> count (add_hold (x + 16) b) r = count a r) as Hcnt.
  { intros r Hr Hn. rewrite count_add. assert (root_of b (x + 16) = x + 16) as -> by (unfold root_of, b, new_block, add_chunk; cbn [chunks]; by rewrite lookup_insert_eq).
    rewrite decide_False by done. apply count_ext; [done|]. intros p Hp. destruct (m_holds _ _ M p Hp) as [cp Hcp]. unfold root_of, b, new_block, add_chunk. cbn [chunks]. rewrite lookup_insert_ne by congruence. done. }
  destruct (chunk_alloc_spec junk h a (fun r => if decide (r = x + 16) then 1 else count a r) x size (m_shape _ _ M)) as (h' & -> & S' & R' & Hn & Hold); [|done|done|by rewrite decide_True| ].
  { refine (refs_ext h a _ _ (m_refs _ _ M) _). intros r c Hr _. rewrite decide_False; [done|]. intros ->. destruct (fresh_apart h a x (size + 16) _ c (m_shape _ _ M) Hf ltac:(lia) Hr); pose proof (sh_pos _ _ (m_shape _ _ M) _ c Hr); lia. }
  exists h'. split; [done|]. split; [|by split]. fold b in S', R'. assert (root_of b (x + 16) = x + 16) as Hrb by (unfold root_of, b, new_block, add_chunk; cbn [chunks]; by rewrite lookup_insert_eq). split.
  - destruct S'. by split.
  - refine (refs_ext h' b _ _ R' _). intros r c _ _. destruct (decide (r = x + 16)) as [->|Hne]; [|by apply Hcnt]. rewrite count_add, Hrb, decide_True by done.
    assert (count b (x + 16) = 0) as ->; [|done]. apply count_none. intros y Hy E. destruct (m_holds _ _ M y Hy) as [cy Hcy]. destruct (sh_root _ _ (m_shape _ _ M) y cy Hcy) as (cr & Hcr & _).
    unfold root_of, b, new_block, add_chunk in E. cbn [chunks] in E. rewrite lookup_insert_ne, Hcy in E by congruence. cbn in E. congruence.
  - intros p [Hp|Hp%list_elem_of_singleton]%elem_of_app; cbn [add_hold chunks b new_block add_chunk] in *.
    + destruct (m_holds _ _ M p Hp) as [cp Hcp]. exists cp. rewrite lookup_insert_ne by congruence. done.
    + subst p. rewrite lookup_insert_eq. by eexists.
Qed.

(** ** Contents *)

Lemma set_data_twice p d d' a : set_data p d (set_data p d' a) = set_data p d a.
Proof. unfold set_data. cbn [chunks holds]. f_equal. apply map_eq. intros q. destruct (decide (q = p)) as [->|Hne]; [rewrite !lookup_alter_eq; by destruct (chunks a !! p)|by rewrite !lookup_alter_ne]. Qed.

Lemma root_of_set_data p d a q : root_of (set_data p d a) q = root_of a q.
Proof.
  unfold root_of. destruct (chunks a !! q) as [c|] eqn:E; [by rewrite (set_data_lookup_2 p d a q c E)|].
  destruct (chunks (set_data p d a) !! q) as [c|] eqn:E2; [|done]. apply set_data_lookup in E2 as (c0 & E0 & _). congruence.
Qed.

Lemma mrel_set_data h a p c d : mrel h a -> chunks a !! p = Some c ->
  (forall l, d = Some l -> has_bytes (bytes h) p l /\ Z.of_nat (length l) = k_size c /\ (forall q cq, chunks a !! q = Some cq -> ~ inside q (k_size cq) p (k_size c))) ->
  mrel h (set_data p d a).
Proof.
  intros M Hp Hd. split.
  - by apply (shape_set_data h a p c d (m_shape _ _ M) Hp).
  - apply refs_set_data. refine (refs_ext h a _ _ (m_refs _ _ M) _). intros r cr _ _. apply count_ext; [done|]. intros q _. apply root_of_set_data.
  - intros q Hq. destruct (m_holds _ _ M q Hq) as [cq Hcq]. eexists. by apply set_data_lookup_2.
Qed.

Lemma leaves_apart h a p c q cq : shape h a -> chunks a !! p = Some c -> k_data c <> None -> chunks a !! q = Some cq -> k_data cq <> None -> p <> q ->
  p + k_size c <= q \/ q + k_size cq <= p.
Proof.
  intros S Hp Hd Hq Hdq Hne. pose proof (sh_leaf _ _ S p c q cq Hp Hd Hq) as L1. pose proof (sh_leaf _ _ S q cq p c Hq Hdq Hp) as L2.
  destruct (sh_nest _ _ S p c q cq Hp Hq Hne) as [[_ [?|?]]|[?|?]]; [done|done|lia|lia].
Qed.

(** Changing bytes of the payload of [p] concerns [p] only. *)
Lemma mrel_touch h h' a p c x n : mrel h a -> chunks a !! p = Some c -> k_data c <> None -> touch h h' x n -> p <= x -> x + n <= p + k_size c -> mrel h' (set_data p None a).
Proof.
  intros M Hp Hd T H1 H2. pose proof (m_shape _ _ M) as S. assert (mrel h (set_data p None a)) as M' by (by apply (mrel_set_data h a p c)).
  split; [|intros q cq Hq|apply M'].
  - apply (shape_touch h _ (m_shape _ _ M') h' x n T).
    + intros q cq (c0 & Hq & _)%set_data_lookup. destruct (data_apart h a S q c0 p c Hq Hp Hd); lia.
    + intros q cq (c0 & Hq & -> & _ & Ed)%set_data_lookup Hdq. destruct (decide (q = p)) as [|Hne]; [congruence|]. rewrite Ed in Hdq.
      destruct (leaves_apart h a p c q c0 S Hp Hd Hq Hdq (not_eq_sym Hne)); lia.
  - assert (forall w, int_at h (REFFIELD q) w -> int_at h' (REFFIELD q) w) as Hw.
    { intros w Hw. apply (same_int h); [|done]. apply (touch_same _ _ _ _ _ _ T). apply set_data_lookup in Hq as (c0 & Hq & _). unfold REFFIELD, BLKSTART, CmiChunkHeader. destruct (data_apart h a S q c0 p c Hq Hp Hd); lia. }
    destruct (m_refs _ _ M' q cq Hq) as [R1 R2]. split; [intros E; destruct (R1 E); by split; [apply Hw|]|]. intros E. destruct (R2 E) as (y & cy & ? & ? & ? & ?). exists y, cy. split; [done|]. split; [done|]. split; [done|]. by apply Hw.
Qed.

Lemma write_step h a p c d off l : mrel h a -> chunks a !! p = Some c -> k_data c = Some d -> 0 <= off -> off + Z.of_nat (length l) <= k_size c ->
  exists m, store_bytes (bytes h) (p + off) l = Normal m /\ mrel (set_bytes m h) (set_data p (Some (take (Z.to_nat off) d ++ l ++ drop (Z.to_nat off + length l) d)) a) /\
    (forall y, y < p + off \/ p + off + Z.of_nat (length l) <= y -> m !! y = bytes h !! y).
Proof.
  intros M Hp Ed H1 H2. pose proof (m_shape _ _ M) as S. destruct (sh_data _ _ S p c d Hp Ed) as [Hb Hlen].
  destruct (store_spec l (bytes h) (p + off)) as (m & -> & Hm & Hf & Hd); [intros y Hy; apply (chunk_mapped h a S p c Hp); lia|]. exists m. split; [done|].
  split; [|done]. assert (k_data c <> None) as Hn by congruence.
  assert (mrel (set_bytes m h) (set_data p None a)) as M' by (apply (mrel_touch h _ a p c (p + off) (Z.of_nat (length l)) M Hp Hn); [by split|lia|lia]).
  rewrite <- (set_data_twice p _ None a). pose proof (set_data_lookup_2 p None a p c Hp) as Hp'. apply (mrel_set_data _ _ p _ _ M' Hp'). cbn [k_size]. intros d' [= <-]. cbn [bytes set_bytes].
  split; [|split].
  - apply has_bytes_app. rewrite length_take. split; [apply (same_has (bytes h)); [intros y Hy; apply Hf; rewrite length_take in Hy; lia|]|].
    + rewrite <- (take_drop (Z.to_nat off) d) in Hb. by apply has_bytes_app in Hb as [? _].
    + replace (p + Z.of_nat (Z.to_nat off `min` length d)) with (p + off) by lia. apply has_bytes_app. split; [done|]. apply (same_has (bytes h)); [intros y Hy; apply Hf; lia|].
      rewrite <- (take_drop (Z.to_nat off + length l) d) in Hb. apply has_bytes_app in Hb as [_ Hb]. rewrite length_take in Hb. by replace (p + Z.of_nat ((Z.to_nat off + length l) `min` length d)) with (p + off + Z.of_nat (length l)) in Hb by lia.
  - rewrite !length_app, length_take, length_drop. lia.
  - intros q cq (c0 & Hq & -> & _)%set_data_lookup. by apply (sh_leaf _ _ S p c q c0).
Qed.

Lemma data_of_eq a p c d : chunks a !! p = Some c -> k_data c = Some d -> data_of p a = d.
Proof. intros H1 H2. unfold data_of. rewrite H1. cbn. by rewrite H2. Qed.

Lemma read_step h a p c d : mrel h a -> chunks a !! p = Some c -> k_data c = Some d -> CmiSize p h = Normal (k_size c) /\ load_bytes (bytes h) p (Z.to_nat (k_size c)) = Normal d.
Proof.
  intros M Hp Ed. destruct (sh_data _ _ (m_shape _ _ M) p c d Hp Ed) as [Hb Hlen]. split; [by apply load32_at, (sh_size _ _ (m_shape _ _ M))|].
  replace (Z.to_nat (k_size c)) with (length d) by lia. by apply load_has.
Qed.

(** Sizes are rounded up to a multiple of 8. *)
Lemma roundUp_eq s : 0 <= s < 2 ^ 31 - 8 -> roundUpSize s = (s + 7) / 8 * 8.
Proof.
  intros Hs. unfold roundUpSize. rewrite u32_small by lia. rewrite <- Z.ldiff_land. change 7 with (Z.ones 3) at 2. rewrite Z.ldiff_ones_r, Z.shiftl_mul_pow2, Z.shiftr_div_pow2 by lia.
  change (2 ^ 3) with 8. apply i32_small. Z.div_mod_to_equations. lia.
Qed.

Lemma padding_range s : 0 <= s < 2 ^ 31 - 8 -> 0 <= paddingSize s <= 7 /\ s + paddingSize s = roundUpSize s.
Proof. intros Hs. unfold paddingSize. rewrite (roundUp_eq s Hs). split; [|lia]. Z.div_mod_to_equations. lia. Qed.

Section steps.
Context (CmiMsgHeaderSizeBytes : Z) (stamp : list Z -> list Z).

(** What the machine layer does to a message keeps its length and everything
    after its header. *)
Definition stamp_ok : Prop := 0 <= CmiMsgHeaderSizeBytes /\ forall l, length (stamp l) = length l /\ drop (Z.to_nat CmiMsgHeaderSizeBytes) (stamp l) = drop (Z.to_nat CmiMsgHeaderSizeBytes) l.

Context (St : stamp_ok).

Lemma send_step h a p c d : mrel h a -> chunks a !! p = Some c -> k_data c = Some d -> exists h', send_self stamp (k_size c) p h = Normal h' /\ mrel h' (set_data p (Some (stamp d)) a) /\
  (forall y, y < p \/ p + k_size c <= y -> bytes h' !! y = bytes h !! y).
Proof.
  intros M Hp Ed. unfold send_self. destruct (read_step h a p c d M Hp Ed) as [_ ->]. cbn [mbind outcome_bind]. destruct (proj2 St d) as [Hl _]. destruct (sh_data _ _ (m_shape _ _ M) p c d Hp Ed) as [_ Hlen].
  destruct (write_step h a p c d 0 (stamp d) M Hp Ed) as (m & E & M' & Hf); [lia|lia|]. rewrite Z.add_0_r in *. rewrite E. exists (set_bytes m h). split; [done|].
  rewrite drop_ge, app_nil_r in M' by lia. split; [done|]. intros y Hy. apply Hf. lia.
Qed.

(** ** Taking a bundle apart *)

(** The part of the payload of [p] from [o] on belongs to no other chunk. *)
Definition untouched (p o : Z) (c : chunk) (a : amem) : Prop := forall x cx, chunks a !! x = Some cx -> inside x (k_size cx) p (k_size c) -> x + k_size cx <= p + o.

Lemma untouched_apart h a p c o x cx : shape h a -> chunks a !! p = Some c -> untouched p o c a -> 0 <= o -> chunks a !! x = Some cx ->
  x <= p /\ (k_data cx <> None -> x <> p -> x + k_size cx <= p - 16) \/ p + k_size c <= x - 16 \/ x + k_size cx <= p + o.
Proof.
  intros S Hp Hu Ho Hx. destruct (decide (x = p)) as [->|Hne]; [left; done|]. pose proof (sh_pos _ _ S p c Hp). pose proof (sh_pos _ _ S x cx Hx).
  destruct (sh_nest _ _ S p c x cx Hp Hx (not_eq_sym Hne)) as [[_ [Hi|Hi]]|[Ha|Ha]].
  - left. split; [unfold inside in Hi; lia|]. intros Hd _. by destruct (sh_leaf _ _ S x cx p c Hx Hd Hp).
  - right. right. by apply (Hu x cx).
  - right. by left.
  - left. split; lia.
Qed.

(** The link of a part to its bundle is written. *)
Lemma link_part h h' a cnt p c o sz d : shape h a -> refs h a cnt -> chunks a !! p = Some c -> k_data c = None -> untouched p o c a -> 0 <= o -> 0 <= sz -> o + (16 + sz) <= k_size c ->
  touch h h' (p + o + 4) 4 -> int_at h' (p + o + 4) (p - (p + o + 16)) -> int_at h' (p + o) sz -> has_bytes (bytes h') (p + o + 16) d -> Z.of_nat (length d) = sz ->
  shape h' (add_chunk (p + o + 16) (mk_chunk sz (k_root c) (Some d)) a) /\ refs h' (add_chunk (p + o + 16) (mk_chunk sz (k_root c) (Some d)) a) cnt /\ chunks a !! (p + o + 16) = None.
Proof.
  intros S R Hp Hnd Hu Ho Hsz Hfit T Hl Hs Hd Hlen. assert (shape h' a) as S'.
  { apply (shape_touch h a S h' _ _ T).
    - intros x cx Hx. pose proof (sh_pos _ _ S x cx Hx). destruct (untouched_apart h a p c o x cx S Hp Hu Ho Hx) as [[? _]|[?|?]]; lia.
    - intros x cx Hx Hdx. destruct (decide (x = p)) as [->|Hne]; [congruence|]. pose proof (sh_pos _ _ S x cx Hx). destruct (untouched_apart h a p c o x cx S Hp Hu Ho Hx) as [[_ Hx2]|[?|?]]; [specialize (Hx2 Hdx Hne)| |]; lia. }
  destruct (shape_carve h' a p c (p + o + 16) sz d S' Hp Hnd) as [S2 Hn]; [unfold inside; lia|done|unfold SIZEFIELD, BLKSTART, CmiChunkHeader; by replace (p + o + 16 - 16) with (p + o) by lia|done|done| |].
  { intros x cx Hx Hi. specialize (Hu x cx Hx Hi). unfold apart. lia. }
  split; [done|]. split; [|done]. apply (refs_add h); [done|done| | |].
  - intros x cx w Hx Hw. apply (same_int h); [|done]. apply (touch_same _ _ _ _ _ _ T). pose proof (sh_pos _ _ S x cx Hx). unfold REFFIELD, BLKSTART, CmiChunkHeader. destruct (untouched_apart h a p c o x cx S Hp Hu Ho Hx) as [[? _]|[?|?]]; lia.
  - cbn [k_root]. intros E. destruct (sh_root _ _ S p c Hp) as (cr & Hr & _). congruence.
  - intros _. exists p, c. split; [done|]. split; [done|]. split; [lia|]. unfold REFFIELD, BLKSTART, CmiChunkHeader. by replace (p + o + 16 - 16 + 4) with (p + o + 4) by lia.
Qed.

Lemma set_data_add q c d a : set_data q d (add_hold q (add_chunk q c a)) = add_hold q (add_chunk q (mk_chunk (k_size c) (k_root c) d) a).
Proof. unfold set_data, add_hold, add_chunk. cbn [chunks holds]. f_equal. apply map_eq. intros x. destruct (decide (x = q)) as [->|Hne]; [by rewrite lookup_alter_eq, !lookup_insert_eq|by rewrite lookup_alter_ne, !lookup_insert_ne by done]. Qed.

Lemma count_carve a p c q sz d r : (forall x, x ∈ holds a -> is_Some (chunks a !! x)) -> chunks a !! p = Some c -> chunks a !! q = None ->
  count (add_hold q (add_chunk q (mk_chunk sz (k_root c) d) a)) r = if decide (r = k_root c) then count a r + 1 else count a r.
Proof.
  intros Hh Hp Hq. rewrite count_add. assert (root_of (add_chunk q (mk_chunk sz (k_root c) d) a) q = k_root c) as -> by (unfold root_of, add_chunk; cbn [chunks]; by rewrite lookup_insert_eq).
  assert (count (add_chunk q (mk_chunk sz (k_root c) d) a) r = count a r) as ->; [|done]. apply count_ext; [done|]. intros x Hx. destruct (Hh x Hx) as [cx Hcx].
  unfold root_of, add_chunk. cbn [chunks]. rewrite lookup_insert_ne by congruence. done.
Qed.

(** One message of the bundle. *)
Lemma part_step h a p c o d : mrel h a -> chunks a !! p = Some c -> k_data c = None -> untouched p o c a -> 0 <= o -> let sz := bundle_word d o in 0 <= sz -> o + (16 + sz) <= k_size c ->
  Z.of_nat (length d) = k_size c -> has_bytes (bytes h) (p + o) (drop (Z.to_nat o) d) -> room 1 a -> let l := take (Z.to_nat sz) (drop (Z.to_nat (o + 16)) d) in
  load32 (p + o) h = Normal sz /\ exists h1 h2 h3, store32 (p + o + 4) (p - (p + o + 16)) h = Normal h1 /\ CmiReference (p + o + 16) h1 = Normal h2 /\ send_self stamp sz (p + o + 16) h2 = Normal h3 /\
    mrel h3 (add_hold (p + o + 16) (add_chunk (p + o + 16) (mk_chunk sz (k_root c) (Some (stamp l))) a)) /\ (forall y, p + o + (16 + sz) <= y < p + k_size c -> bytes h3 !! y = bytes h !! y).
Proof.
  intros M Hp Hnd Hu Ho sz Hsz Hfit Hlen Hb Hroom l. pose proof (m_shape _ _ M) as S. pose proof (sh_pos _ _ S p c Hp) as Hpp.
  assert (length l = Z.to_nat sz) as Hll by (unfold l; rewrite length_take, length_drop; lia).
  assert (has_bytes (bytes h) (p + o) (take 4 (drop (Z.to_nat o) d))) as Hw by (rewrite <- (take_drop 4 (drop (Z.to_nat o) d)) in Hb; by apply has_bytes_app in Hb as [? _]).
  assert (int_at h (p + o) sz) as Hs by (exists (take 4 (drop (Z.to_nat o) d)); split; [done|]; split; [rewrite length_take, length_drop; lia|done]).
  assert (has_bytes (bytes h) (p + o + 16) l) as Hd.
  { rewrite <- (take_drop 16 (drop (Z.to_nat o) d)) in Hb. apply has_bytes_app in Hb as [_ Hb]. rewrite length_take, length_drop, drop_drop in Hb.
    replace (p + o + Z.of_nat (16 `min` (length d - Z.to_nat o))) with (p + o + 16) in Hb by lia. replace (Z.to_nat o + 16)%nat with (Z.to_nat (o + 16)) in Hb by lia.
    rewrite <- (take_drop (Z.to_nat sz)) in Hb. by apply has_bytes_app in Hb as [? _]. }
  split; [by apply load32_at|].
  destruct (store32_touch (p + o + 4) (p - (p + o + 16)) h) as (h1 & E1 & T1 & I1); [intros y Hy; apply (chunk_mapped h a S p c Hp); lia|pose proof (int_at_int _ _ _ (sh_size _ _ S p c Hp)) as []; split; lia|].
  destruct (link_part h h1 a (count a) p c o sz l S (m_refs _ _ M) Hp Hnd Hu Ho Hsz Hfit T1 I1) as (S1 & R1 & Hq); [apply (same_int h); [apply (touch_same _ _ _ _ _ _ T1); lia|done]|apply (same_has (bytes h)); [apply (touch_same _ _ _ _ _ _ T1); lia|done]|lia|].
  set (q := p + o + 16) in *. set (a1 := add_chunk q (mk_chunk sz (k_root c) (Some l)) a) in *. assert (chunks a1 !! q = Some (mk_chunk sz (k_root c) (Some l))) as Hq1 by (apply lookup_insert_eq).
  destruct (reference_spec h1 a1 (count a) q _ S1 R1 Hq1) as (h2 & E2 & S2 & R2 & T2); [unfold room in Hroom; cbn [k_root]; unfold count; pose proof (length_filter (fun x => root_of a x = k_root c) (holds a)); lia|].
  assert (mrel h2 (add_hold q a1)) as M2.
  { split; [destruct S2; by split| |].
    - refine (refs_ext h2 a1 _ _ R2 _). intros r cr _ _. cbn [k_root]. apply (count_carve a p c q); [apply (m_holds _ _ M)|done|done].
    - intros x [Hx|Hx%list_elem_of_singleton]%elem_of_app; cbn [add_hold chunks a1 add_chunk]; [|subst x; rewrite lookup_insert_eq; by eexists]. destruct (m_holds _ _ M x Hx) as [cx Hcx]. rewrite lookup_insert_ne by congruence. by eexists. }
  destruct (send_step h2 (add_hold q a1) q _ l M2 Hq1 eq_refl) as (h3 & E3 & M3 & F3). cbn [k_size] in *. exists h1, h2, h3. split; [done|]. split; [done|]. split; [done|].
  split; [unfold a1 in M3; by rewrite set_data_add in M3|]. intros y Hy. rewrite F3 by lia.
  assert (k_root c <= p) as Hrp by (destruct (sh_root _ _ S p c Hp) as (cr & _ & _ & [->|[? _]]); lia).
  rewrite (proj1 T2) by (cbn [k_root]; unfold REFFIELD, BLKSTART, CmiChunkHeader; lia). rewrite (proj1 T1) by lia. done.
Qed.

Lemma multi_loop_spec n : forall h a p c o d, mrel h a -> chunks a !! p = Some c -> k_data c = None -> untouched p o c a -> 0 <= o -> parts_ok n o d ->
  Z.of_nat (length d) = k_size c -> has_bytes (bytes h) (p + o) (drop (Z.to_nat o) d) -> room n a ->
  exists h', multi_loop stamp n p o h = Normal (h', (fun x => p + x.1) <$> parts n o d) /\ mrel h' (add_parts stamp p (k_root c) (parts n o d) a).
Proof.
  induction n as [|n IH]; intros h a p c o d M Hp Hnd Hu Ho Hok Hlen Hb Hroom; [by exists h|]. destruct Hok as (Hsz & Hfit & Hok). cbn [parts parts_ok] in *. set (sz := bundle_word d o) in *.
  destruct (part_step h a p c o d M Hp Hnd Hu Ho Hsz) as (E0 & h1 & h2 & h3 & E1 & E2 & E3 & M3 & F3); [fold sz; lia|done|done|unfold room in *; lia|]. fold sz in E0, E3, M3, F3.
  cbn [multi_loop]. unfold CmiChunkHeader. rewrite E0. cbn [mbind outcome_bind]. rewrite E1. cbn [mbind outcome_bind]. rewrite E2. cbn [mbind outcome_bind]. rewrite E3. cbn [mbind outcome_bind].
  set (l := take (Z.to_nat sz) (drop (Z.to_nat (o + 16)) d)) in *. set (a3 := add_hold (p + o + 16) _) in M3. pose proof (sh_pos _ _ (m_shape _ _ M) p c Hp) as Hpp.
  assert (chunks a !! (p + o + 16) = None) as Hq.
  { destruct (chunks a !! (p + o + 16)) as [cx|] eqn:Ex; [|done]. pose proof (sh_pos _ _ (m_shape _ _ M) _ cx Ex). destruct (untouched_apart h a p c o _ cx (m_shape _ _ M) Hp Hu Ho Ex) as [[? _]|[?|?]]; lia. }
  destruct (IH h3 a3 p c (o + (16 + sz)) d M3) as (h' & Ei & Mi).
  - unfold a3, add_hold, add_chunk. cbn [chunks]. rewrite lookup_insert_ne by lia. done.
  - done.
  - intros x cx Hx Hi. unfold a3, add_hold, add_chunk in Hx. cbn [chunks] in Hx. apply lookup_insert_Some in Hx as [[<- <-]|[_ Hx]]; [cbn [k_size]; lia|]. specialize (Hu x cx Hx Hi). lia.
  - lia.
  - done.
  - done.
  - apply (same_has (bytes h)); [intros y Hy; rewrite length_drop in Hy; apply F3; lia|]. rewrite <- (take_drop (Z.to_nat (16 + sz)) (drop (Z.to_nat o) d)) in Hb. apply has_bytes_app in Hb as [_ Hb].
    rewrite length_take, length_drop, drop_drop in Hb. replace (p + o + Z.of_nat (Z.to_nat (16 + sz) `min` (length d - Z.to_nat o))) with (p + (o + (16 + sz))) in Hb by lia. by replace (Z.to_nat o + Z.to_nat (16 + sz))%nat with (Z.to_nat (o + (16 + sz))) in Hb by lia.
  - unfold room, a3, add_hold in *. cbn [holds]. rewrite length_app. cbn [length add_chunk holds]. lia.
  - rewrite Ei. exists h'. split; [cbn [fmap list_fmap fst]; by replace (p + o + 16) with (p + (o + 16)) by lia|].
    cbn [add_parts]. replace (p + (o + 16)) with (p + o + 16) by lia. replace (Z.of_nat (length l)) with sz; [exact Mi|]. unfold l. rewrite length_take, length_drop. lia.
Qed.

Lemma add_parts_holds p r ps : forall a, holds (add_parts stamp p r ps a) = holds a ++ ((fun x => p + x.1) <$> ps).
Proof. induction ps as [|[o l] ps IH]; intros a; cbn [add_parts fmap list_fmap fst]; [by rewrite app_nil_r|]. rewrite IH. cbn [add_hold add_chunk holds]. by rewrite <- app_assoc. Qed.

Lemma header_sizes : 0 <= CmiMsgHeaderSizeBytes -> CmiMsgHeaderSizeBytes <= nMessages_off CmiMsgHeaderSizeBytes /\ nMessages_off CmiMsgHeaderSizeBytes + 4 <= pad_off CmiMsgHeaderSizeBytes /\ CmiMultipleSendHeader CmiMsgHeaderSizeBytes = pad_off CmiMsgHeaderSizeBytes + 8.
Proof. unfold CmiMultipleSendHeader, pad_off, nMessages_off. intros. split; [|split; [|done]]; Z.div_mod_to_equations; lia. Qed.

Lemma multi_step h a p : mrel h a -> p ∈ holds a -> has_data p a -> is_bundle CmiMsgHeaderSizeBytes (data_of p a) -> room (length (bundle_parts CmiMsgHeaderSizeBytes (data_of p a))) a ->
  exists h', CmiMultiMsgHandler CmiMsgHeaderSizeBytes stamp p h = Normal (h', (a_multi CmiMsgHeaderSizeBytes stamp p a).2) /\ mrel h' (a_multi CmiMsgHeaderSizeBytes stamp p a).1.
Proof.
  intros M Hp (c & d & Hc & Ed) Hb Hroom. unfold a_multi. rewrite (data_of_eq a p c d Hc Ed) in *. cbn [fst snd]. destruct Hb as [Hh Hok]. pose proof (m_shape _ _ M) as S. destruct (sh_data _ _ S p c d Hc Ed) as [Hd Hlen].
  destruct (header_sizes (proj1 St)) as (Z1 & Z2 & Z3). pose proof (proj1 St). unfold CmiMultiMsgHandler. set (off := nMessages_off CmiMsgHeaderSizeBytes) in *.
  assert (int_at h (p + off) (bundle_word d off)) as Hw.
  { exists (take 4 (drop (Z.to_nat off) d)). split; [|split; [rewrite length_take, length_drop; lia|done]]. rewrite <- (take_drop (Z.to_nat off) d) in Hd. apply has_bytes_app in Hd as [_ Hd]. rewrite length_take in Hd.
    replace (p + Z.of_nat (Z.to_nat off `min` length d)) with (p + off) in Hd by lia. rewrite <- (take_drop 4 (drop (Z.to_nat off) d)) in Hd. by apply has_bytes_app in Hd as [? _]. }
  rewrite (load32_at _ _ _ Hw). cbn [mbind outcome_bind]. pose proof (set_data_lookup_2 p None a p c Hc) as Hc'. rewrite decide_True in Hc' by done.
  destruct (multi_loop_spec (Z.to_nat (bundle_word d off)) h (set_data p None a) p _ (CmiMultipleSendHeader CmiMsgHeaderSizeBytes) d (mrel_set_data h a p c None M Hc ltac:(done)) Hc' eq_refl) as (h1 & -> & M1); cbn [k_size k_root] in *.
  - intros x cx (c0 & Hx & -> & _)%set_data_lookup Hi. by destruct (sh_leaf _ _ S p c x c0 Hc ltac:(congruence) Hx).
  - lia.
  - done.
  - done.
  - rewrite <- (take_drop (Z.to_nat (CmiMultipleSendHeader CmiMsgHeaderSizeBytes)) d) in Hd. apply has_bytes_app in Hd as [_ Hd]. rewrite length_take in Hd. by replace (p + Z.of_nat (Z.to_nat (CmiMultipleSendHeader CmiMsgHeaderSizeBytes) `min` length d)) with (p + CmiMultipleSendHeader CmiMsgHeaderSizeBytes) in Hd by lia.
  - unfold room, bundle_parts in *. assert (forall n o, length (parts n o d) = n) as Hn by (induction n as [|n IH]; intros o; [done|]; cbn [parts length]; by rewrite IH). by rewrite Hn in Hroom.
  - cbn [mbind outcome_bind]. rewrite (root_of_eq a p c Hc). unfold bundle_parts. fold off. destruct (free_step h1 _ p M1) as (h2 & -> & M2); [rewrite add_parts_holds; apply elem_of_app; by left|]. by exists h2.
Qed.

(** ** Making a bundle *)

Context (junk : Z -> Z).

Definition flat (vec : list (Z * list Z)) : list Z := concat ((fun p => take (Z.to_nat p.1) p.2) <$> vec).

Lemma compact_spec vec : forall tmp m, Forall (fun p => 0 <= p.1 <= Z.of_nat (length p.2)) vec -> mapped m tmp (Z.of_nat (length (flat vec))) -> exists m', compact_loop tmp vec m = Normal m' /\ has_bytes m' tmp (flat vec) /\
  (forall y, y < tmp \/ tmp + Z.of_nat (length (flat vec)) <= y -> m' !! y = m !! y) /\ (forall y, is_Some (m' !! y) <-> is_Some (m !! y)).
Proof.
  induction vec as [|[s l] vec IH]; intros tmp m Hv Hm.
  { exists m. split; [done|]. split; [intros i b Hi; by destruct i|done]. }
  apply Forall_cons in Hv as [Hs Hv]. unfold flat in *. cbn [fmap list_fmap concat fst snd compact_loop] in *. rewrite length_app, length_take in *.
  destruct (Nat.leb_spec (Z.to_nat s) (length l)); [|lia]. cbn [CmiAssert mbind outcome_bind]. assert (Z.of_nat (Z.to_nat s `min` length l) = s) as Es by lia.
  destruct (store_spec (take (Z.to_nat s) l) m tmp) as (m1 & -> & H1 & F1 & D1); [rewrite length_take; intros y Hy; apply Hm; lia|]. rewrite length_take, Es in F1. cbn [mbind outcome_bind].
  destruct (IH (tmp + s) m1 Hv) as (m2 & -> & H2 & F2 & D2); [intros y Hy; apply D1, Hm; lia|]. exists m2. split; [done|]. split; [|split].
  - apply has_bytes_app. rewrite length_take, Es. split; [|done]. apply (same_has m1); [|done]. rewrite length_take, Es. intros y Hy. apply F2. lia.
  - intros y Hy. rewrite F2, F1 by lia. done.
  - intros y. by rewrite D2, D1.
Qed.

Lemma outsize_flat vec : Forall (fun p => 0 <= p.1 <= Z.of_nat (length p.2)) vec -> outsize vec = Z.of_nat (length (flat vec)).
Proof.
  induction 1 as [|[s l] vec Hs Hv IH]; [done|]. unfold flat in *. cbn [outsize foldr fmap list_fmap concat fst snd] in *. rewrite length_app, length_take. unfold outsize in IH. lia.
Qed.

(** The vector is copied into a new block, which is sent. *)
Lemma vector_step h a x vec : let d := flat vec in mrel h a -> Forall (fun p => 0 <= p.1 <= Z.of_nat (length p.2)) vec -> fresh x (Z.of_nat (length d) + 16) h -> Z.of_nat (length d) < 2 ^ 31 ->
  exists h', CmiSyncVectorSend stamp junk x vec h = Normal (h', x + 16) /\ mrel h' (add_hold (x + 16) (new_block (x + 16) (Z.of_nat (length d)) (stamp d) a)).
Proof.
  intros d M Hv Hf Hlt. unfold CmiSyncVectorSend, VECTOR_COMPACT. rewrite (outsize_flat vec Hv). fold d. destruct (alloc_step junk h a x (Z.of_nat (length d)) M Hf) as (h1 & -> & M1 & Hn & _); [lia|]. cbn [mbind outcome_bind].
  set (p := x + 16) in *. set (n := Z.of_nat (length d)) in *. set (a1 := add_hold p _) in M1. set (c := mk_chunk n p (Some (junk <$> seqZ p n))). assert (chunks a1 !! p = Some c) as Hc by apply lookup_insert_eq.
  destruct (compact_spec vec p (bytes h1) Hv) as (m & -> & H1 & F1 & D1); [fold d n; intros y Hy; apply (chunk_mapped _ _ (m_shape _ _ M1) p c Hc); cbn; lia|]. cbn [mbind outcome_bind]. fold d n in H1, F1.
  assert (mrel (set_bytes m h1) (set_data p None a1)) as M2 by (apply (mrel_touch h1 _ a1 p c p n M1 Hc); [done|done|lia|cbn; lia]).
  pose proof (set_data_lookup_2 p None a1 p c Hc) as Hc2. assert (mrel (set_bytes m h1) (set_data p (Some d) a1)) as M3.
  { rewrite <- (set_data_twice p _ None a1). apply (mrel_set_data _ _ p _ _ M2 Hc2). intros l [= <-]. split; [done|]. split; [done|]. intros q cq (c0 & Hq & -> & _)%set_data_lookup. by apply (sh_leaf _ _ (m_shape _ _ M1) p c q c0). }
  pose proof (set_data_lookup_2 p (Some d) a1 p c Hc) as Hc3. rewrite decide_True in Hc3 by done.
  destruct (send_step _ _ p _ d M3 Hc3 eq_refl) as (h3 & E3 & M4 & _). cbn [k_size c] in E3. rewrite E3. cbn [mbind outcome_bind]. exists h3. split; [done|]. rewrite set_data_twice in M4. unfold a1, new_block in M4. by rewrite set_data_add in M4.
Qed.

Lemma vec_pieces_spec h a msgs : mrel h a -> (forall sz p, (sz, p) ∈ msgs -> has_data p a /\ 0 <= sz <= Z.of_nat (length (data_of p a)) /\ sz < 2 ^ 31 - 8) ->
  exists vec, vec_pieces junk msgs h = Normal vec /\ Forall (fun p => 0 <= p.1 <= Z.of_nat (length p.2)) vec /\ flat vec = concat (entry junk <$> ((fun m => take (Z.to_nat m.1) (data_of m.2 a)) <$> msgs)).
Proof.
  intros M. induction msgs as [|[sz p] msgs IH]; intros Hm; [by exists []|]. destruct (Hm sz p) as ((c & d & Hc & Ed) & Hsz & Hlt); [left|]. destruct IH as (vec & E & Hv & Hflat); [intros; apply Hm; by right|].
  rewrite (data_of_eq a p c d Hc Ed) in *. destruct (sh_data _ _ (m_shape _ _ M) p c d Hc Ed) as [Hb Hlen]. cbn [vec_pieces]. rewrite <- (take_drop (Z.to_nat sz) d) in Hb. apply has_bytes_app in Hb as [Hb _].
  pose proof (load_has _ _ _ Hb) as El. rewrite length_take, Nat.min_l in El by lia. rewrite El. cbn [mbind outcome_bind]. rewrite E. cbn [mbind outcome_bind].
  eexists. split; [reflexivity|]. destruct (padding_range sz) as [Hp1 Hp2]; [lia|]. split.
  - repeat apply Forall_cons_2; [| | |done]; cbn [fst snd]; [done|rewrite length_take; lia|rewrite length_replicate; lia].
  - unfold flat in *. cbn [fmap list_fmap concat fst snd]. rewrite Hflat, (data_of_eq a p c d Hc Ed). unfold entry, padded. rewrite length_take, Nat.min_l, Z2Nat.id, <- !app_assoc by lia.
    f_equal. f_equal; [by rewrite take_take, Nat.min_id|]. f_equal. rewrite take_replicate. f_equal. lia.
Qed.

Lemma length_send_header conv n : 0 <= CmiMsgHeaderSizeBytes -> Z.of_nat (length conv) = CmiMsgHeaderSizeBytes -> Z.of_nat (length (send_header CmiMsgHeaderSizeBytes junk conv n)) = CmiMultipleSendHeader CmiMsgHeaderSizeBytes.
Proof.
  intros H0 Hc. destruct (header_sizes H0) as (Z1 & Z2 & Z3). unfold send_header. rewrite !length_app, !length_fmap, !length_seqZ, length_enc32. cbn [pad_magic length]. lia.
Qed.

Lemma entry_length d : Z.of_nat (length d) < 2 ^ 31 - 8 -> Z.of_nat (length (entry junk d)) = 16 + roundUpSize (Z.of_nat (length d)).
Proof.
  intros Hd. unfold entry, msgHdr, padded. rewrite !length_app, length_replicate, length_fmap, length_seqZ, !length_enc32. destruct (padding_range (Z.of_nat (length d))); lia.
Qed.

Lemma bundle_length conv ds d : d ∈ ds -> Z.of_nat (length d) <= Z.of_nat (length (bundle CmiMsgHeaderSizeBytes junk conv ds)) - 16.
Proof.
  intros [l1 [l2 ->]]%list_elem_of_split. unfold bundle. rewrite fmap_app, fmap_cons, concat_app. cbn [concat]. rewrite !length_app. unfold entry at 2, msgHdr, padded. rewrite !length_app, !length_enc32, length_fmap, length_seqZ. lia.
Qed.

Lemma pack_step h a x conv msgs : mrel h a -> mem_allowed CmiMsgHeaderSizeBytes junk (EPack x conv msgs) h a ->
  exists h', CmiMultipleSend CmiMsgHeaderSizeBytes stamp junk x conv msgs h = Normal (h', x + 16) /\ mrel h' (amem_step CmiMsgHeaderSizeBytes stamp junk (EPack x conv msgs) a).1.
Proof.
  intros M (Hf & Hc & Hlt & _ & Hm). cbn [amem_step fst] in *. set (ds := (fun m => take (Z.to_nat m.1) (data_of m.2 a)) <$> msgs) in *.
  destruct (vec_pieces_spec h a msgs M) as (vec & E & Hv & Hflat).
  { intros sz p Hin. destruct (Hm sz p Hin) as (_ & Hd & Hsz). split; [done|]. split; [done|].
    pose proof (bundle_length conv ds (take (Z.to_nat sz) (data_of p a))) as Hl. rewrite length_take in Hl. assert (take (Z.to_nat sz) (data_of p a) ∈ ds) as Hd2 by (apply (list_elem_of_fmap_2 (fun m : Z * Z => take (Z.to_nat m.1) (data_of m.2 a)) msgs (sz, p) Hin)). specialize (Hl Hd2). lia. }
  unfold CmiMultipleSend. rewrite E. cbn [mbind outcome_bind]. pose proof (proj1 St) as H0. pose proof (length_send_header conv (Z.of_nat (length msgs)) H0 Hc) as Hsh.
  set (vec' := (CmiMultipleSendHeader CmiMsgHeaderSizeBytes, send_header CmiMsgHeaderSizeBytes junk conv (Z.of_nat (length msgs))) :: vec).
  assert (flat vec' = bundle CmiMsgHeaderSizeBytes junk conv ds) as Ef.
  { unfold vec', flat, bundle. cbn [fmap list_fmap concat fst snd]. fold (flat vec). rewrite Hflat. fold ds. unfold ds at 2. rewrite length_fmap. f_equal. apply take_ge. lia. }
  destruct (vector_step h a x vec' M) as (h' & -> & M'); [|by rewrite Ef|by rewrite Ef|].
  - unfold vec'. constructor; [|done]. cbn [fst snd]. destruct (header_sizes H0). lia.
  - exists h'. split; [done|]. rewrite Ef in M'. by rewrite (proj1 (proj2 St _)).
Qed.
End steps.
