(* ===== verification/MsgBundle.v ===== *)
(** * MsgBundle: what holders of messages can rely on

    The refinement theorem of message memory, and the round trip of messages
    through a bundle. *)

From S2P Require Import Prelude MsgMem MsgMemFacts MsgChunks MsgMemSpec.
#[local] Open Scope Z_scope.
Set Warnings "-clear-no-such-hyp".

Section thms.
Context (CmiMsgHeaderSizeBytes : Z) (stamp : list Z -> list Z) (junk : Z -> Z).

Definition empty_heap : heap := mk_heap ∅ ∅.
Definition empty_amem : amem := mk_amem ∅ [].

Lemma mrel_empty : mrel empty_heap empty_amem.
Proof.
  assert (forall p c, chunks empty_amem !! p = Some c -> False) as Hn by (intros p c E; cbn in E; by rewrite lookup_empty in E).
  assert (forall x, ~ is_Some (bytes empty_heap !! x)) as Hb by (intros x [b E]; cbn in E; by rewrite lookup_empty in E).
  split; [split; try (intros; exfalso; solve [eapply Hn; eassumption|eapply Hb; eassumption])|intros p c Hp; by destruct (Hn p c)|intros p Hp; by apply elem_of_nil in Hp].
  intros x n. split; [intros E; cbn in E; by rewrite lookup_empty in E|]. intros (c & E & _). by destruct (Hn _ c E).
Qed.

Lemma mem_step_refines e h a : stamp_ok CmiMsgHeaderSizeBytes stamp -> mrel h a -> mem_allowed CmiMsgHeaderSizeBytes junk e h a ->
  exists h', mem_step CmiMsgHeaderSizeBytes stamp junk e h = Normal (h', (amem_step CmiMsgHeaderSizeBytes stamp junk e a).2) /\
    mrel h' (amem_step CmiMsgHeaderSizeBytes stamp junk e a).1.
Proof.
  intros St M Ha. destruct e as [x size|p|p|p off l|p|x conv msgs|p]; cbn [mem_step mem_allowed amem_step fst snd] in *.
  - destruct Ha as (Hf & Hs & _). destruct (alloc_step junk h a x size M Hf Hs) as (h' & -> & M' & _). by exists h'.
  - destruct Ha as (Hp & Hr). destruct (ref_step h a p M Hp Hr) as (h' & -> & M'). by exists h'.
  - destruct (free_step h a p M Ha) as (h' & -> & M'). by exists h'.
  - destruct Ha as (Hp & (c & d & Hc & Ed) & H0 & Hl). rewrite (data_of_eq a p c d Hc Ed) in *. destruct (sh_data _ _ (m_shape _ _ M) p c d Hc Ed) as [_ Hlen].
    destruct (write_step h a p c d off l M Hc Ed H0) as (m & -> & M' & _); [lia|]. by eexists.
  - destruct Ha as (Hp & c & d & Hc & Ed). rewrite (data_of_eq a p c d Hc Ed) in *. destruct (read_step h a p c d M Hc Ed) as [-> El]. cbn [mbind outcome_bind]. rewrite El. by exists h.
  - destruct (pack_step CmiMsgHeaderSizeBytes stamp St junk h a x conv msgs M Ha) as (h' & -> & M'). by exists h'.
  - destruct Ha as (Hp & Hd & Hb & Hr). apply (multi_step CmiMsgHeaderSizeBytes stamp St h a p M Hp Hd Hb Hr).
Qed.

Lemma mem_run_refines es : stamp_ok CmiMsgHeaderSizeBytes stamp -> forall h a, mrel h a -> mem_allowed_run CmiMsgHeaderSizeBytes stamp junk es h a ->
  exists h', mem_run CmiMsgHeaderSizeBytes stamp junk es h = Normal (h', (amem_run CmiMsgHeaderSizeBytes stamp junk es a).2) /\ mrel h' (amem_run CmiMsgHeaderSizeBytes stamp junk es a).1.
Proof.
  intros St. induction es as [|e es IH]; intros h a M Ha; cbn [mem_run amem_run mem_allowed_run] in *; [by exists h|]. destruct Ha as [H1 H2].
  destruct (mem_step_refines e h a St M H1) as (h1 & E1 & M1). rewrite E1 in *. destruct (amem_step _ _ _ e a) as [a1 o]. cbn [fst snd mbind outcome_bind] in *.
  destruct (IH h1 a1 M1 H2) as (h' & -> & M'). exists h'. destruct (amem_run _ _ _ es a1) as [a' os]. done.
Qed.

(** A block is in memory exactly as long as one of its chunks is held. *)
Lemma mapped_held h a x : mrel h a ->
  is_Some (bytes h !! x) <-> exists p r c, p ∈ holds a /\ root_of a p = r /\ chunks a !! r = Some c /\ r - 16 <= x < r + k_size c.
Proof.
  intros M. pose proof (m_shape _ _ M) as S. split.
  - intros Hx. destruct (sh_dom _ _ S x Hx) as (r & c & Hr & Er & Hin). destruct (proj1 (m_refs _ _ M r c Hr) Er) as [_ Hcnt].
    destruct (count_pos a r Hcnt) as (p & Hp & E). by exists p, r, c.
  - intros (p & r & c & Hp & <- & Hr & Hin). destruct (m_holds _ _ M p Hp) as [cp Hcp]. rewrite (root_of_eq a p cp Hcp) in *.
    destruct (sh_root _ _ S p cp Hcp) as (cr & Hcr & Er & _). assert (cr = c) as -> by congruence. apply (sh_mapped _ _ S _ c Hr Er). lia.
Qed.

(** C35: message memory behaves as if each message had contents of its own:
    for every sequence of allocations, references, reads and writes by holders,
    bundling, taking bundles apart and frees, no call aborts or touches freed
    memory and every read returns what the reference gives, which has no
    reference counts; a block is in memory exactly as long as it or a message
    in it is held; the count is the number of holders; and when nobody holds
    anything, everything has been given back. *)
Theorem message_memory es : stamp_ok CmiMsgHeaderSizeBytes stamp -> mem_allowed_run CmiMsgHeaderSizeBytes stamp junk es empty_heap empty_amem ->
  exists h a outs, mem_run CmiMsgHeaderSizeBytes stamp junk es empty_heap = Normal (h, outs) /\ amem_run CmiMsgHeaderSizeBytes stamp junk es empty_amem = (a, outs) /\
    (forall x, is_Some (bytes h !! x) <-> exists p r c, p ∈ holds a /\ root_of a p = r /\ chunks a !! r = Some c /\ r - 16 <= x < r + k_size c) /\
    (forall p, p ∈ holds a -> CmiGetReference p h = Normal (count a (root_of a p))) /\
    (holds a = [] -> bytes h = ∅ /\ blocks h = ∅).
Proof.
  intros St Ha. destruct (mem_run_refines es St _ _ mrel_empty Ha) as (h & E & M). destruct (amem_run _ _ _ es empty_amem) as [a outs] eqn:Er. cbn [fst snd] in *. exists h, a, outs.
  split; [done|]. split; [done|]. split; [intros x; by apply mapped_held|]. split.
  - intros p Hp. destruct (m_holds _ _ M p Hp) as [c Hc]. rewrite (root_of_eq a p c Hc). by apply (get_reference_spec h a _ p c (m_shape _ _ M) (m_refs _ _ M)).
  - intros Hn. assert (forall x, bytes h !! x = None) as Hb.
    { intros x. destruct (bytes h !! x) as [b|] eqn:Ex; [|done]. destruct (proj1 (mapped_held h a x M)) as (p & _ & _ & Hp & _); [by eexists|]. rewrite Hn in Hp. by apply elem_of_nil in Hp. }
    split; [by apply map_empty|]. apply map_empty. intros x. destruct (blocks h !! x) as [n|] eqn:Ex; [|done]. apply (sh_block _ _ (m_shape _ _ M)) in Ex as (c & Hc & Er2 & _).
    pose proof (sh_pos _ _ (m_shape _ _ M) _ c Hc). destruct (sh_mapped _ _ (m_shape _ _ M) _ c Hc Er2 x) as [b Ex2]; [lia|]. by rewrite Hb in Ex2.
Qed.

(** ** The round trip of messages *)

Lemma word_at_bundle pre v rest o : is_int v -> Z.of_nat (length pre) = o -> bundle_word (pre ++ enc32 v ++ rest) o = v.
Proof.
  intros Hv Hl. unfold bundle_word. replace (Z.to_nat o) with (length pre) by lia. rewrite drop_app_length, (take_app_length' (enc32 v) rest 4) by done. by apply dec_enc32.
Qed.

Lemma parts_entries ds : Forall (fun d => Z.of_nat (length d) < 2 ^ 31 - 8) ds -> forall pre o, Z.of_nat (length pre) = o ->
  (parts (length ds) o (pre ++ concat (entry junk <$> ds))).*2 = padded <$> ds /\ parts_ok (length ds) o (pre ++ concat (entry junk <$> ds)).
Proof.
  induction 1 as [|d ds Hd Hds IH]; intros pre o Ho; [done|]. cbn [length parts parts_ok fmap list_fmap concat]. set (n := Z.of_nat (length d)) in *. assert (0 <= n) as Hn0 by lia. destruct (padding_range n) as [Hp1 Hp2]; [lia|].
  assert (bundle_word (pre ++ entry junk d ++ concat (entry junk <$> ds)) o = roundUpSize n) as Ew.
  { unfold entry at 1, msgHdr. rewrite <- !app_assoc. apply word_at_bundle; [|done]. unfold is_int. lia. }
  pose proof (entry_length junk d Hd) as Hel. fold n in Hel. assert (length (padded d) = Z.to_nat (roundUpSize n)) as Hpl by (unfold padded; rewrite length_app, length_replicate; fold n; lia).
  destruct (IH (pre ++ entry junk d) (o + (16 + roundUpSize n))) as [I1 I2]; [rewrite length_app; lia|]. rewrite <- app_assoc in I1, I2. rewrite Ew. cbn [snd]. split.
  - f_equal; [|exact I1]. assert (drop (Z.to_nat (o + 16)) (pre ++ entry junk d ++ concat (entry junk <$> ds)) = padded d ++ concat (entry junk <$> ds)) as ->; [|by rewrite take_app_length'].
    unfold entry at 1. rewrite <- app_assoc, app_assoc. apply drop_app_length'. unfold msgHdr. rewrite !length_app, length_fmap, length_seqZ, !length_enc32. lia.
  - split; [lia|]. split; [rewrite !length_app; lia|done].
Qed.

(** What was bundled is what the parts hold, whatever the header is stamped
    with. *)
Lemma bundle_parts_of conv ds : stamp_ok CmiMsgHeaderSizeBytes stamp -> Z.of_nat (length conv) = CmiMsgHeaderSizeBytes -> Z.of_nat (length (bundle CmiMsgHeaderSizeBytes junk conv ds)) < 2 ^ 31 ->
  let d := stamp (bundle CmiMsgHeaderSizeBytes junk conv ds) in is_bundle CmiMsgHeaderSizeBytes d /\ (bundle_parts CmiMsgHeaderSizeBytes d).*2 = padded <$> ds.
Proof.
  intros St Hc Hlt. pose proof (proj1 St) as H0. destruct (header_sizes _ H0) as (Z1 & Z2 & Z3). set (b := bundle _ _ conv ds) in *. intros d. destruct (proj2 St b) as [Sl Sd]. fold d in Sl, Sd.
  assert (Forall (fun e => Z.of_nat (length e) < 2 ^ 31 - 8) ds) as Hds by (apply Forall_forall; intros e He; pose proof (bundle_length CmiMsgHeaderSizeBytes junk conv ds e He) as Hb; fold b in Hb; lia).
  pose proof (length_send_header CmiMsgHeaderSizeBytes junk conv (Z.of_nat (length ds)) H0 Hc) as Hsh. set (SH := CmiMultipleSendHeader CmiMsgHeaderSizeBytes) in *. set (off := nMessages_off CmiMsgHeaderSizeBytes) in *.
  assert (forall o, CmiMsgHeaderSizeBytes <= o -> drop (Z.to_nat o) d = drop (Z.to_nat o) b) as Hdrop.
  { intros o Ho. replace (Z.to_nat o) with (Z.to_nat CmiMsgHeaderSizeBytes + Z.to_nat (o - CmiMsgHeaderSizeBytes))%nat by lia. by rewrite <- !drop_drop, Sd. }
  assert (Z.of_nat (length b) = SH + Z.of_nat (length (concat (entry junk <$> ds)))) as Hbl by (unfold b, bundle; rewrite length_app; lia).
  assert (d = take (Z.to_nat SH) d ++ concat (entry junk <$> ds)) as Ed.
  { rewrite <- (take_drop (Z.to_nat SH) d) at 1. f_equal. rewrite Hdrop by lia. unfold b, bundle. apply drop_app_length'. lia. }
  assert (bundle_word d off = Z.of_nat (length ds)) as Ew.
  { unfold bundle_word. rewrite Hdrop by lia. unfold b, bundle, send_header. rewrite (app_assoc conv). rewrite <- !app_assoc. rewrite (app_assoc conv). rewrite drop_app_length'; [|rewrite length_app, length_fmap, length_seqZ; fold off; lia].
    rewrite take_app_length' by done. apply dec_enc32. assert (forall l, Z.of_nat (length l) <= Z.of_nat (length (concat (entry junk <$> l)))) as Hn.
    { induction l as [|e l IH]; [done|]. cbn [fmap list_fmap concat length]. rewrite length_app. unfold entry at 1, msgHdr. rewrite !length_app, length_enc32. lia. }
    specialize (Hn ds). split; lia. }
  destruct (parts_entries ds Hds (take (Z.to_nat SH) d) SH) as [P1 P2]; [rewrite length_take; lia|]. rewrite <- Ed in P1, P2. unfold is_bundle, bundle_parts. fold off SH. rewrite Ew, Nat2Z.id. split; [|done]. split; [lia|done].
Qed.

Lemma parts_above n d : forall o x, parts_ok n o d -> x ∈ (parts n o d).*1 -> o + 16 <= x.
Proof.
  induction n as [|n IH]; intros o x Hok Hx; cbn [parts parts_ok fmap list_fmap fst] in *; [by apply elem_of_nil in Hx|]. destruct Hok as (H1 & _ & H2).
  apply elem_of_cons in Hx as [->|Hx]; [lia|]. specialize (IH _ _ H2 Hx). lia.
Qed.

Lemma parts_nodup n d : forall o, parts_ok n o d -> NoDup (parts n o d).*1.
Proof.
  induction n as [|n IH]; intros o Hok; cbn [parts parts_ok fmap list_fmap fst] in *; [constructor|]. destruct Hok as (H1 & _ & H2). constructor; [|by apply IH].
  intros Hx. apply (parts_above _ _ _ _ H2) in Hx. lia.
Qed.

Lemma add_parts_other p r ps q : forall a, q ∉ (fun x => p + x) <$> ps.*1 -> chunks (add_parts stamp p r ps a) !! q = chunks a !! q.
Proof.
  induction ps as [|[o l] ps IH]; intros a Hq; [done|]. cbn [add_parts fmap list_fmap fst] in *. apply not_elem_of_cons in Hq as [H1 H2]. rewrite IH by done. cbn. by rewrite lookup_insert_ne.
Qed.

Lemma add_parts_lookup p r ps o l : forall a, NoDup ps.*1 -> (o, l) ∈ ps -> chunks (add_parts stamp p r ps a) !! (p + o) = Some (mk_chunk (Z.of_nat (length l)) r (Some (stamp l))).
Proof.
  induction ps as [|[o' l'] ps IH]; intros a Hnd Hin; [by apply elem_of_nil in Hin|]. cbn [add_parts fmap list_fmap fst] in *. apply NoDup_cons in Hnd as [Hn Hnd].
  apply elem_of_cons in Hin as [[= <- <-]|Hin]; [|by apply IH]. rewrite add_parts_other; [cbn; by rewrite lookup_insert_eq|].
  intros (x & E & Hx)%list_elem_of_fmap. apply Hn. by replace o with x by lia.
Qed.

(** The parts of a bundle can be read after it was taken apart. *)
Lemma multi_part p a c d o l : 0 <= CmiMsgHeaderSizeBytes -> chunks a !! p = Some c -> k_data c = Some d -> is_bundle CmiMsgHeaderSizeBytes d -> (o, l) ∈ bundle_parts CmiMsgHeaderSizeBytes d -> p ∈ holds a ->
  chunks (a_multi CmiMsgHeaderSizeBytes stamp p a).1 !! (p + o) = Some (mk_chunk (Z.of_nat (length l)) (k_root c) (Some (stamp l))).
Proof.
  intros H0 Hc Ed [Hh Hok] Hin Hp. unfold a_multi. rewrite (data_of_eq a p c d Hc Ed), (root_of_eq a p c Hc). cbn [fst]. set (ps := bundle_parts _ d) in *.
  set (a1 := add_parts stamp p (k_root c) ps (set_data p None a)). assert (NoDup ps.*1) as Hnd by (by apply parts_nodup).
  assert (chunks a1 !! (p + o) = Some (mk_chunk (Z.of_nat (length l)) (k_root c) (Some (stamp l)))) as Hl by (by apply add_parts_lookup).
  unfold a_free. destruct (decide _) as [E0|]; [|done]. exfalso. assert (p + o ∈ holds (drop_hold p a1)) as Ho.
  { unfold drop_hold. cbn [holds]. unfold a1. rewrite add_parts_holds. cbn [set_data holds]. pose proof (list_elem_of_fmap_2 (fun x : Z * list Z => p + x.1) ps (o, l) Hin) as Hi. cbn [fst] in Hi. clear -Hi Hp.
    induction (holds a) as [|y hs IH]; [by apply elem_of_nil in Hp|]. cbn [app remove_one]. destruct (decide (y = p)) as [->|Hne]; [apply elem_of_app; by right|].
    apply elem_of_cons in Hp as [->|Hp]; [done|]. apply elem_of_cons. right. by apply IH. }
  apply (count_zero _ _ _ E0 Ho). change (root_of (drop_hold p a1) (p + o)) with (root_of a1 (p + o)). rewrite (root_of_eq _ _ _ Hl). cbn [k_root]. symmetry. assert (chunks a1 !! p = Some (mk_chunk (k_size c) (k_root c) None)) as Hpa; [|by rewrite (root_of_eq _ _ _ Hpa)].
  unfold a1. rewrite add_parts_other; [rewrite (set_data_lookup_2 p None a p c Hc); by rewrite decide_True by done|].
  intros (x & E & Hx)%list_elem_of_fmap. apply (parts_above _ _ _ _ Hok) in Hx. destruct (header_sizes _ H0). lia.
Qed.

(** C29: a bundle delivers its messages: after any use of memory, when
    [CmiMultipleSend] bundles messages that are held and [CmiMultiMsgHandler]
    takes the bundle apart, the messages handed over are, in order, the ones
    given, each with zero bytes up to a size that is a multiple of 8 (and with
    the header fields that the machine layer sets). *)
Theorem bundle_delivers es h a outs x conv msgs : stamp_ok CmiMsgHeaderSizeBytes stamp ->
  mem_allowed_run CmiMsgHeaderSizeBytes stamp junk es empty_heap empty_amem -> mem_run CmiMsgHeaderSizeBytes stamp junk es empty_heap = Normal (h, outs) ->
  amem_run CmiMsgHeaderSizeBytes stamp junk es empty_amem = (a, outs) -> mem_allowed CmiMsgHeaderSizeBytes junk (EPack x conv msgs) h a -> room (1 + length msgs) a ->
  exists h1 h2 sent, CmiMultipleSend CmiMsgHeaderSizeBytes stamp junk x conv msgs h = Normal (h1, x + 16) /\ CmiMultiMsgHandler CmiMsgHeaderSizeBytes stamp (x + 16) h1 = Normal (h2, sent) /\
    Forall2 (fun q m => CmiSize q h2 = Normal (roundUpSize m.1) /\
      load_bytes (bytes h2) q (Z.to_nat (roundUpSize m.1)) = Normal (stamp (take (Z.to_nat m.1) (data_of m.2 a) ++ replicate (Z.to_nat (paddingSize m.1)) 0))) sent msgs.
Proof.
  intros St Ha Er Ea Hpk Hroom. destruct (mem_run_refines es St _ _ mrel_empty Ha) as (h0 & E & M). rewrite Ea in *. cbn [fst snd] in *. rewrite E in Er. injection Er as ->.
  destruct (pack_step CmiMsgHeaderSizeBytes stamp St junk h a x conv msgs M Hpk) as (h1 & E1 & M1). destruct Hpk as (Hf & Hc & Hlt & _ & Hm). cbn [amem_step fst] in M1.
  set (ds := (fun m : Z * Z => take (Z.to_nat m.1) (data_of m.2 a)) <$> msgs) in *. destruct (bundle_parts_of conv ds St Hc Hlt) as [Hb Hps]. set (d := stamp (bundle _ _ conv ds)) in *. set (p := x + 16) in *.
  set (a1 := add_hold p _) in M1. set (c := mk_chunk (Z.of_nat (length d)) p (Some d)). assert (chunks a1 !! p = Some c) as Hp by apply lookup_insert_eq. assert (p ∈ holds a1) as Hh by (apply elem_of_app; right; by apply list_elem_of_singleton).
  assert (data_of p a1 = d) as Hd by (by apply (data_of_eq _ _ c)). assert (length (bundle_parts CmiMsgHeaderSizeBytes d) = length msgs) as Hpl by (rewrite <- (length_fmap snd), Hps, length_fmap; unfold ds; by rewrite length_fmap).
  destruct (multi_step CmiMsgHeaderSizeBytes stamp St h1 a1 p M1 Hh) as (h2 & E2 & M2); [by exists c, d|by rewrite Hd|rewrite Hd, Hpl; unfold room in *; cbn [a1 add_hold holds]; rewrite length_app; cbn [length new_block add_chunk holds]; lia|].
  exists h1, h2, (a_multi CmiMsgHeaderSizeBytes stamp p a1).2. split; [done|]. split; [done|]. cbn [a_multi snd]. rewrite Hd. apply Forall2_same_length_lookup_2; [by rewrite length_fmap|].
  intros i q [sz m] Hq Hmi. apply list_lookup_fmap_Some in Hq as ([o l] & -> & Hi). cbn [fst snd].
  assert (l = padded (take (Z.to_nat sz) (data_of m a))) as ->.
  { assert ((bundle_parts CmiMsgHeaderSizeBytes d).*2 !! i = Some l) as Hl by (by rewrite list_lookup_fmap, Hi). rewrite Hps in Hl. unfold ds in Hl. rewrite !list_lookup_fmap, Hmi in Hl. by injection Hl. }
  pose proof (multi_part p a1 c d o _ (proj1 St) Hp eq_refl Hb (list_elem_of_lookup_2 _ _ _ Hi) Hh) as Hpart. destruct (Hm sz m (list_elem_of_lookup_2 _ _ _ Hmi)) as (_ & _ & Hsz).
  assert (Z.of_nat (length (take (Z.to_nat sz) (data_of m a))) = sz) as Hln by (rewrite length_take; lia).
  assert (sz < 2 ^ 31 - 8) as Hs8. { pose proof (bundle_length CmiMsgHeaderSizeBytes junk conv ds (take (Z.to_nat sz) (data_of m a))) as Hbl. rewrite Hln in Hbl. enough (sz <= Z.of_nat (length (bundle CmiMsgHeaderSizeBytes junk conv ds)) - 16) by lia. apply Hbl. apply (list_elem_of_fmap_2 (fun m : Z * Z => take (Z.to_nat m.1) (data_of m.2 a)) msgs (sz, m)). by apply (list_elem_of_lookup_2 _ i). }
  destruct (padding_range sz) as [Hp1 Hp2]; [lia|]. destruct (read_step h2 _ (p + o) _ _ M2 Hpart eq_refl) as [R1 R2]. cbn [k_size] in *. unfold padded in *. rewrite Hln in *. rewrite length_app, length_replicate in *.
  replace (Z.of_nat (length (take (Z.to_nat sz) (data_of m a)) + Z.to_nat (paddingSize sz))) with (roundUpSize sz) in * by lia. done.
Qed.
End thms.

(** ** A concrete run *)

#[global] Instance fresh_dec x n h : Decision (fresh x n h).
Proof.
  refine (cast_if (decide (0 <= x /\ x mod ALIGN_BYTES = 0 /\ Forall (fun y => bytes h !! y = None) (seqZ x n)))); unfold fresh.
  - destruct a as (H1 & H2 & H3). split; [done|]. split; [done|]. intros y Hy. apply (proj1 (Forall_forall _ _) H3), elem_of_seqZ. lia.
  - intros (H1 & H2 & H3). apply n0. split; [done|]. split; [done|]. apply Forall_forall. intros y Hy%elem_of_seqZ. apply H3. lia.
Defined.

#[global] Instance has_data_dec p a : Decision (has_data p a).
Proof.
  refine (match chunks a !! p as o return chunks a !! p = o -> _ with
          | Some c => fun E => match k_data c as o return k_data c = o -> _ with Some d => fun Ed => left _ | None => fun Ed => right _ end eq_refl
          | None => fun E => right _ end eq_refl); unfold has_data; [by exists c, d|intros (? & ? & ? & ?); congruence|intros (? & ? & ? & ?); congruence].
Defined.

#[global] Instance parts_ok_dec n : forall o d, Decision (parts_ok n o d).
Proof. induction n as [|n IH]; intros o d; cbn [parts_ok]; [left; exact I|]. apply and_dec; [apply Z_le_dec|]. apply and_dec; [apply Z_le_dec|apply IH]. Defined.

#[global] Instance mem_allowed_dec H junk e h a : Decision (mem_allowed H junk e h a).
Proof.
  destruct e as [x size|p|p|p off l|p|x conv msgs|p]; cbn [mem_allowed]; unfold room, is_bundle; try apply _.
  apply and_dec; [apply _|]. apply and_dec; [apply _|]. apply and_dec; [apply _|]. apply and_dec; [apply _|].
  refine (cast_if (decide (Forall (fun m : Z * Z => m.2 ∈ holds a /\ has_data m.2 a /\ 0 <= m.1 <= Z.of_nat (length (data_of m.2 a))) msgs))).
  - intros sz p Hin. apply (proj1 (Forall_forall _ _) f (sz, p) Hin).
  - intros Hall. apply n. apply Forall_forall. intros [sz p] Hin. by apply Hall.
Defined.

#[global] Instance mem_allowed_run_dec H stamp junk es : forall h a, Decision (mem_allowed_run H stamp junk es h a).
Proof. induction es as [|e es IH]; intros h a; cbn [mem_allowed_run]; [left; exact I|]. apply and_dec; [apply _|]. destruct (mem_step H stamp junk e h) as [[h' o]|]; [apply IH|left; exact I]. Defined.

(** A header of eight bytes, whose first byte the machine layer sets. *)
Definition stamp7 (l : list Z) : list Z := match l with [] => [] | _ :: l => 7 :: l end.
Definition junk170 (_ : Z) : Z := 170.
Definition zeros8 : list Z := replicate 8 0.

Lemma stamp7_ok : stamp_ok 8 stamp7.
Proof. split; [lia|]. intros [|b l]; done. Qed.

Definition two_messages : list mem_event :=
  [EAlloc 160 12; EWrite 176 0 [1;2;3;4;5;6;7;8;9;10;11;12]; EAlloc 320 8; EWrite 336 0 [21;22;23;24;25;26;27;28]].
Definition through_bundle : list mem_event :=
  two_messages ++ [EPack 480 zeros8 [(12, 176); (8, 336)]; EFree 176; EFree 336; EMulti 496; EFree 568; ERead 536; EFree 536].

Lemma message_memory_witness : exists h outs, mem_run 8 stamp7 junk170 through_bundle empty_heap = Normal (h, outs) /\ bytes h = ∅ /\
  outs !! 7%nat = Some [536; 568] /\ outs !! 9%nat = Some [7; 2; 3; 4; 5; 6; 7; 8; 9; 10; 11; 12; 0; 0; 0; 0].
Proof.
  destruct (message_memory 8 stamp7 junk170 through_bundle stamp7_ok) as (h & a & outs & E & Ea & _ & _ & Hn); [apply (bool_decide_unpack _); vm_compute; exact I|].
  exists h, outs. split; [done|]. vm_compute in Ea. injection Ea as <- <-. split; [by apply Hn|]. split; reflexivity.
Defined.

Lemma bundle_delivers_witness : exists h outs h1 h2 sent, mem_run 8 stamp7 junk170 two_messages empty_heap = Normal (h, outs) /\
  CmiMultipleSend 8 stamp7 junk170 480 zeros8 [(12, 176); (8, 336)] h = Normal (h1, 496) /\ CmiMultiMsgHandler 8 stamp7 496 h1 = Normal (h2, sent) /\
  length sent = 2%nat.
Proof.
  destruct (mem_run 8 stamp7 junk170 two_messages empty_heap) as [[h outs]|] eqn:Er; [|vm_compute in Er; discriminate].
  destruct (amem_run 8 stamp7 junk170 two_messages empty_amem) as [a outs'] eqn:Ea.
  assert (outs' = outs) as -> by (vm_compute in Er, Ea; congruence).
  destruct (bundle_delivers 8 stamp7 junk170 two_messages h a outs 480 zeros8 [(12, 176); (8, 336)] stamp7_ok) as (h1 & h2 & sent & E1 & E2 & F);
    [apply (bool_decide_unpack _); vm_compute; exact I|exact Er|exact Ea| | |].
  - vm_compute in Er, Ea. injection Er as <- <-. injection Ea as <-. apply (bool_decide_unpack _). vm_compute. exact I.
  - vm_compute in Ea. injection Ea as <- _. unfold room. cbn. lia.
  - exists h, outs, h1, h2, sent. split; [done|]. split; [exact E1|]. split; [exact E2|]. apply Forall2_length in F. exact F.
Defined.

(** With [inndata < 0], [VECTOR_COMPACT] copies the first message a second
    time, with its header, and so writes past the end of the new block. *)
Example nested_compact_overflows : ('(h, _) ← mem_run 8 stamp7 junk170 two_messages empty_heap; VECTOR_COMPACT_nested junk170 480 [(12, 176); (8, 336)] h) = Aborted.
Proof. vm_compute. reflexivity. Qed.
