(* ===== verification/Cpthreads.v ===== *)
(** * Cpthreads: threads, mutexes, conditions and futures (conv-core/cpthreads.c, futures.c)

    The threads of one processor take turns: one runs until it suspends, and the
    scheduler then resumes a thread that was awakened.  A suspended thread is
    represented by what it does next ([kont]).  [CthAwaken] puts a thread into
    the scheduler queue; the machine below resumes any thread of the queue, so
    the theorems hold for every order.  Mutexes and conditions keep their users
    in a FIFO ([CkQ] refines it), the waiters of a future are linked through the
    [next] field of threads.  Accesses to objects that do not exist, [exit] and
    [CmiAbort] are [Aborted].  Cleanup routines and bodies of threads are
    recorded, not run; thread-private keys are modelled in [CpKeys]. *)

From S2P Require Import Prelude.
#[local] Open Scope Z_scope.

Definition PT_MAGIC : Z := 0x8173292a.
Definition MUTEX_MAGIC : Z := 0x13237770.
Definition COND_MAGIC : Z := 0x99431664.
Definition ATTR_MAGIC : Z := 0x783a2004.
Definition MATTR_MAGIC : Z := 0x12673434.
Definition CATTR_MAGIC : Z := 0xA865B812.
Definition EPERM : Z := 1.
Definition EBUSY : Z := 16.
Definition EINVAL : Z := 22.

Record mutex := mk_mutex { mu_magic : Z; mu_onpe : Z; mu_users : list Z }.
Record cond := mk_cond { co_magic : Z; co_onpe : Z; co_users : list Z }.
Record Cpthread_s := mk_pt {
  pt_magic : Z; pt_startfn : Z; pt_startarg : Z; pt_detached : Z; pt_joinstatus : Z; pt_cleanups : list (Z * Z); pt_waiting : Z; pt_thread : Z
}.
Record futdata := mk_fut { f_value : Z; f_ready : Z; f_waiters : Z }.

(** What a suspended thread does when it is resumed. *)
Inductive kont :=
  | KTop (pt : Z)          (** a new thread starts *)
  | KYield                   (** [CthYield] returns *)
  | KMutex (m : Z)         (** [CthSuspend] at the end of a lock or wait *)
  | KCond (c m : Z)        (** the first [CthSuspend] of [Cpthread_cond_wait] *)
  | KJoin (pt : Z)
  | KFuture (f : Z).
#[global] Instance kont_eq_dec : EqDecision kont.
Proof. solve_decision. Defined.

Record world := mk_world {
  mutexes : gmap Z mutex;
  conds : gmap Z cond;
  pthreads : gmap Z Cpthread_s;
  futures : gmap Z futdata;
  next : gmap Z Z;                (** the [next] fields of threads *)
  konts : gmap Z kont;              (** the suspended threads *)
  readyq : list Z;                  (** threads in the scheduler queue *)
  current : option Z;               (** the thread that runs, if any *)
  Cpthread_current : gmap Z Z;
  Cpthread_errno : gmap Z Z
}.

Definition set_mutex (m : Z) (x : mutex) (w : world) : world :=
  mk_world (<[m := x]> (mutexes w)) (conds w) (pthreads w) (futures w) (next w) (konts w) (readyq w) (current w) (Cpthread_current w) (Cpthread_errno w).
Definition set_cond (c : Z) (x : cond) (w : world) : world :=
  mk_world (mutexes w) (<[c := x]> (conds w)) (pthreads w) (futures w) (next w) (konts w) (readyq w) (current w) (Cpthread_current w) (Cpthread_errno w).
Definition set_pthreads (p : gmap Z Cpthread_s) (w : world) : world :=
  mk_world (mutexes w) (conds w) p (futures w) (next w) (konts w) (readyq w) (current w) (Cpthread_current w) (Cpthread_errno w).
Definition set_futures (f : gmap Z futdata) (w : world) : world :=
  mk_world (mutexes w) (conds w) (pthreads w) f (next w) (konts w) (readyq w) (current w) (Cpthread_current w) (Cpthread_errno w).
Definition CthSetNext (t v : Z) (w : world) : world :=
  mk_world (mutexes w) (conds w) (pthreads w) (futures w) (<[t := v]> (next w)) (konts w) (readyq w) (current w) (Cpthread_current w) (Cpthread_errno w).
Definition set_konts (k : gmap Z kont) (w : world) : world :=
  mk_world (mutexes w) (conds w) (pthreads w) (futures w) (next w) k (readyq w) (current w) (Cpthread_current w) (Cpthread_errno w).
Definition set_readyq (q : list Z) (w : world) : world :=
  mk_world (mutexes w) (conds w) (pthreads w) (futures w) (next w) (konts w) q (current w) (Cpthread_current w) (Cpthread_errno w).
Definition set_current (c : option Z) (w : world) : world :=
  mk_world (mutexes w) (conds w) (pthreads w) (futures w) (next w) (konts w) (readyq w) c (Cpthread_current w) (Cpthread_errno w).
Definition set_self (t p : Z) (w : world) : world :=
  mk_world (mutexes w) (conds w) (pthreads w) (futures w) (next w) (konts w) (readyq w) (current w) (<[t := p]> (Cpthread_current w)) (Cpthread_errno w).
Definition set_errno (t e : Z) (w : world) : world :=
  mk_world (mutexes w) (conds w) (pthreads w) (futures w) (next w) (konts w) (readyq w) (current w) (Cpthread_current w) (<[t := e]> (Cpthread_errno w)).

Definition find {A} (m : gmap Z A) (k : Z) : outcome A := match m !! k with Some x => Normal x | None => Aborted end.

Definition CthAwaken (t : Z) (w : world) : world := set_readyq (readyq w ++ [t]) w.
Definition CthGetNext (t : Z) (w : world)  : Z := default 0 (next w !! t).

(** What happened in a step, as its callers see it. *)
Inductive note :=
  | NRet (t v : Z)                (** a call of thread [t] returned [v] *)
  | NAcquired (t m : Z)           (** [t] has the mutex when a call returns 0 *)
  | NReleased (t m : Z)           (** [t] gave the mutex up *)
  | NStarted (t pt fn arg : Z)   (** [t] calls [pt->startfn(pt->startarg)] *)
  | NCleanup (routine arg : Z)
  | NExited (pt status : Z)
  | NJoined (t pt status : Z)     (** [t] got the status of [pt] *)
  | NStored (f v : Z)
  | NSent (pe f v : Z)            (** the value is sent to the processor of the future *)
  | NGot (t f v : Z).             (** [t] got the value of the future *)

#[global] Instance note_eq_dec : EqDecision note.
Proof. solve_decision. Defined.

(** A call returns, or its thread suspends. *)
Inductive result := Ret (v : Z) (ns : list note) | Susp (k : kont) (ns : list note) | Exit (ns : list note).

Section ops.
Context (CmiMyPe : Z) (self : Z).

(** [errcode(n)] *)
Definition errcode (n : Z) (w : world) : outcome (world * result) := Normal (set_errno self n w, Ret (-1) []).

(** ** Mutexes *)

Definition Cpthread_mutex_init (m mattr_magic : Z) (w : world) : outcome (world * result) :=
  if negb (mattr_magic =? MATTR_MAGIC) then errcode EINVAL w
  else Normal (set_mutex m (mk_mutex MUTEX_MAGIC CmiMyPe []) w, Ret 0 []).

Definition Cpthread_mutex_destroy (m : Z) (w : world) : outcome (world * result) :=
  x ← find (mutexes w) m;
  if negb (mu_magic x =? MUTEX_MAGIC) then errcode EINVAL w
  else if negb (mu_onpe x =? CmiMyPe) then Aborted
  else match mu_users x with
  | _ :: _ => errcode EBUSY w
  | [] => Normal (set_mutex m (mk_mutex 0 (mu_onpe x) []) w, Ret 0 [])
  end.

(** [CdsFifo_Peek(users) != self] *)
Definition peek_other (users : list Z) : bool := negb (default NULL (head users) =? self).

Definition Cpthread_mutex_lock (m : Z) (w : world) : outcome (world * result) :=
  x ← find (mutexes w) m;
  if negb (mu_magic x =? MUTEX_MAGIC) then errcode EINVAL w
  else if negb (mu_onpe x =? CmiMyPe) then Aborted
  else
    let users := mu_users x ++ [self] in
    let w := set_mutex m (mk_mutex (mu_magic x) (mu_onpe x) users) w in
    Normal (w, if peek_other users then Susp (KMutex m) [] else Ret 0 [NAcquired self m]).

Definition Cpthread_mutex_trylock (m : Z) (w : world) : outcome (world * result) :=
  x ← find (mutexes w) m;
  if negb (mu_magic x =? MUTEX_MAGIC) then errcode EINVAL w
  else if negb (mu_onpe x =? CmiMyPe) then Aborted
  else match mu_users x with
  | _ :: _ => errcode EBUSY w
  | [] => Normal (set_mutex m (mk_mutex (mu_magic x) (mu_onpe x) [self]) w, Ret 0 [NAcquired self m])
  end.

(** The mutex is given up, and the next user awakened. *)
Definition release (m : Z) (x : mutex) (w : world) : world :=
  let users := tail (mu_users x) in
  let w := set_mutex m (mk_mutex (mu_magic x) (mu_onpe x) users) w in
  match users with sleeper :: _ => if negb (sleeper =? NULL) then CthAwaken sleeper w else w | [] => w end.

Definition Cpthread_mutex_unlock (m : Z) (w : world) : outcome (world * result) :=
  x ← find (mutexes w) m;
  if negb (mu_magic x =? MUTEX_MAGIC) then errcode EINVAL w
  else if negb (mu_onpe x =? CmiMyPe) then Aborted
  else if peek_other (mu_users x) then errcode EPERM w
  else Normal (release m x w, Ret 0 [NReleased self m]).

(** ** Conditions *)

Definition Cpthread_cond_init (c cattr_magic : Z) (w : world) : outcome (world * result) :=
  if negb (cattr_magic =? CATTR_MAGIC) then errcode EINVAL w
  else Normal (set_cond c (mk_cond COND_MAGIC CmiMyPe []) w, Ret 0 []).

Definition Cpthread_cond_destroy (c : Z) (w : world) : outcome (world * result) :=
  x ← find (conds w) c;
  if negb (co_magic x =? COND_MAGIC) then errcode EINVAL w
  else if negb (co_onpe x =? CmiMyPe) then Aborted
  else Normal (set_cond c (mk_cond 0 (co_onpe x) []) w, Ret 0 []).

Definition Cpthread_cond_wait (c m : Z) (w : world) : outcome (world * result) :=
  y ← find (conds w) c;
  x ← find (mutexes w) m;
  if negb (co_magic y =? COND_MAGIC) then errcode EINVAL w
  else if negb (mu_magic x =? MUTEX_MAGIC) then errcode EINVAL w
  else if negb (co_onpe y =? CmiMyPe) then Aborted
  else if negb (mu_onpe x =? CmiMyPe) then Aborted
  else if peek_other (mu_users x) then errcode EPERM w
  else
    let w := release m x w in
    Normal (set_cond c (mk_cond (co_magic y) (co_onpe y) (co_users y ++ [self])) w, Susp (KCond c m) [NReleased self m]).

(** The rest of [Cpthread_cond_wait], after the first [CthSuspend]. *)
Definition cond_wait_rest (m : Z) (w : world) : outcome (world * result) :=
  x ← find (mutexes w) m;
  let users := mu_users x ++ [self] in
  let w := set_mutex m (mk_mutex (mu_magic x) (mu_onpe x) users) w in
  Normal (w, if peek_other users then Susp (KMutex m) [] else Ret 0 [NAcquired self m]).

Definition Cpthread_cond_signal (c : Z) (w : world) : outcome (world * result) :=
  y ← find (conds w) c;
  if negb (co_magic y =? COND_MAGIC) then errcode EINVAL w
  else if negb (co_onpe y =? CmiMyPe) then Aborted
  else
    let w' := set_cond c (mk_cond (co_magic y) (co_onpe y) (tail (co_users y))) w in
    Normal (match co_users y with sleeper :: _ => if negb (sleeper =? NULL) then CthAwaken sleeper w' else w' | [] => w end, Ret 0 []).

(** [while (1)]: dequeues until the queue is empty. *)
Fixpoint broadcast_loop (users : list Z) (w : world) : world * list Z :=
  match users with
  | [] => (w, [])
  | sleeper :: users => if sleeper =? NULL then (w, users) else broadcast_loop users (CthAwaken sleeper w)
  end.
Definition Cpthread_cond_broadcast (c : Z) (w : world) : outcome (world * result) :=
  y ← find (conds w) c;
  if negb (co_magic y =? COND_MAGIC) then errcode EINVAL w
  else if negb (co_onpe y =? CmiMyPe) then Aborted
  else
    let '(w, users) := broadcast_loop (co_users y) w in
    Normal (set_cond c (mk_cond (co_magic y) (co_onpe y) users) w, Ret 0 []).

(** ** Threads *)

(** [malloc] returns [pt] and [CthCreate] returns [t]. *)
Definition Cpthread_create (pt t attr_magic detached fn arg : Z) (w : world) : outcome (world * result) :=
  if negb (attr_magic =? ATTR_MAGIC) then errcode EINVAL w
  else
  let w := set_pthreads (<[pt := mk_pt PT_MAGIC fn arg detached NULL [] NULL t]> (pthreads w)) w in
  let w := set_konts (<[t := KTop pt]> (konts w)) w in
  Normal (CthAwaken t w, Ret 0 []).

(** The thread calls its body; the keys are cleared by [CpKeys.clear_keys]. *)
Definition Cpthread_top (pt : Z) (w : world) : outcome (world * result) :=
  x ← find (pthreads w) pt;
  Normal (set_self self pt (set_errno self 0 w), Ret 0 [NStarted self pt (pt_startfn x) (pt_startarg x)]).

Definition Cpthread_cleanup_push (routine arg : Z) (w : world) : outcome (world * result) :=
  p ← find (Cpthread_current w) self;
  x ← find (pthreads w) p;
  Normal (set_pthreads (<[p := mk_pt (pt_magic x) (pt_startfn x) (pt_startarg x) (pt_detached x) (pt_joinstatus x) ((routine, arg) :: pt_cleanups x) (pt_waiting x) (pt_thread x)]> (pthreads w)) w, Ret 0 []).

Definition Cpthread_cleanup_pop (execute : bool) (w : world) : outcome (world * result) :=
  p ← find (Cpthread_current w) self;
  x ← find (pthreads w) p;
  match pt_cleanups x with
  | [] => Normal (w, Ret 0 [])
  | (routine, arg) :: cs =>
      Normal (set_pthreads (<[p := mk_pt (pt_magic x) (pt_startfn x) (pt_startarg x) (pt_detached x) (pt_joinstatus x) cs (pt_waiting x) (pt_thread x)]> (pthreads w)) w,
              Ret 0 (if execute then [NCleanup routine arg] else []))
  end.

Definition Cpthread_exit (status : Z) (w : world) : outcome (world * result) :=
  p ← find (Cpthread_current w) self;
  x ← find (pthreads w) p;
  let ns := (fun c => NCleanup c.1 c.2) <$> pt_cleanups x in
  if negb (pt_detached x =? 0) then Normal (set_pthreads (delete p (pthreads w)) w, Exit ns)
  else
    let w := set_pthreads (<[p := mk_pt (pt_magic x) (pt_startfn x) (pt_startarg x) (pt_detached x) status (pt_cleanups x) (pt_waiting x) NULL]> (pthreads w)) w in
    let w := if negb (pt_waiting x =? NULL) then CthAwaken (pt_waiting x) w else w in
    Normal (w, Exit (ns ++ [NExited p status])).

Definition Cpthread_detach (p : Z) (w : world) : outcome (world * result) :=
  x ← find (pthreads w) p;
  if negb (pt_magic x =? PT_MAGIC) then errcode EINVAL w
  else if pt_thread x =? NULL then Normal (set_pthreads (delete p (pthreads w)) w, Ret 0 [])
  else Normal (set_pthreads (<[p := mk_pt (pt_magic x) (pt_startfn x) (pt_startarg x) 1 (pt_joinstatus x) (pt_cleanups x) (pt_waiting x) (pt_thread x)]> (pthreads w)) w, Ret 0 []).

(** The end of [Cpthread_join]. *)
Definition join_rest (p : Z) (w : world) : outcome (world * result) :=
  x ← find (pthreads w) p;
  Normal (set_pthreads (delete p (pthreads w)) w, Ret 0 [NJoined self p (pt_joinstatus x)]).

Definition Cpthread_join (p : Z) (w : world) : outcome (world * result) :=
  x ← find (pthreads w) p;
  if negb (pt_magic x =? PT_MAGIC) then errcode EINVAL w
  else if negb (pt_thread x =? NULL) then
    Normal (set_pthreads (<[p := mk_pt (pt_magic x) (pt_startfn x) (pt_startarg x) (pt_detached x) (pt_joinstatus x) (pt_cleanups x) self (pt_thread x)]> (pthreads w)) w, Susp (KJoin p) [])
  else join_rest p w.

Definition CthYield (w : world) : outcome (world * result) := Normal (CthAwaken self w, Susp KYield []).

(** ** Futures *)

Definition CfutureCreate (f : Z) (w : world) : outcome (world * result) :=
  Normal (set_futures (<[f := mk_fut NULL 0 NULL]> (futures w)) w, Ret 0 []).

(** [for (t=data->waiters; t; t=CthGetNext(t)) CthAwaken(t);] *)
Fixpoint awaken_waiters (fuel : nat) (t : Z) (w : world) : outcome world :=
  match fuel with
  | O => Aborted
  | S fuel => if t =? NULL then Normal w else awaken_waiters fuel (CthGetNext t w) (CthAwaken t w)
  end.
Definition CfutureAwaken (f val : Z) (w : world) : outcome world :=
  x ← find (futures w) f;
  let w := set_futures (<[f := mk_fut val 1 (f_waiters x)]> (futures w)) w in
  w ← awaken_waiters (S (size (konts w))) (f_waiters x) w;
  Normal (set_futures (<[f := mk_fut val 1 NULL]> (futures w)) w).

(** A future is the processor [pe] and the address [f] of its data there. *)
Definition CfutureStoreBuffer (pe f val : Z) (w : world) : outcome (world * result) :=
  if pe =? CmiMyPe then w ← CfutureAwaken f val w; Normal (w, Ret 0 [NStored f val])
  else Normal (w, Ret 0 [NSent pe f val]).

Definition future_rest (f : Z) (w : world) : outcome (world * result) :=
  x ← find (futures w) f;
  if f_value x =? NULL then Aborted else Normal (w, Ret (f_value x) [NGot self f (f_value x)]).

Definition CfutureWait (pe f : Z) (w : world) : outcome (world * result) :=
  if negb (pe =? CmiMyPe) then Aborted else
  x ← find (futures w) f;
  if f_ready x =? 0 then
    let w := CthSetNext self (f_waiters x) w in
    Normal (set_futures (<[f := mk_fut (f_value x) (f_ready x) self]> (futures w)) w, Susp (KFuture f) [])
  else future_rest f w.

Definition CfutureDestroy (pe f : Z) (w : world) : outcome (world * result) :=
  if negb (pe =? CmiMyPe) then Aborted else
  x ← find (futures w) f;
  if negb (f_waiters x =? NULL) then Aborted
  else Normal (set_futures (delete f (futures w)) w, Ret 0 []).
End ops.

(** ** The threads of a processor *)

Inductive op :=
  | OMutexInit (m mattr_magic : Z) | OMutexDestroy (m : Z) | OLock (m : Z) | OTrylock (m : Z) | OUnlock (m : Z)
  | OCondInit (c cattr_magic : Z) | OCondDestroy (c : Z) | OWait (c m : Z) | OSignal (c : Z) | OBroadcast (c : Z)
  | OCreate (pt t attr_magic detached fn arg : Z) | OPush (routine arg : Z) | OPop (execute : bool) | OExit (status : Z) | ODetach (pt : Z) | OJoin (pt : Z) | OYield
  | OFutureCreate (f : Z) | OStore (pe f v : Z) | OFutureWait (pe f : Z) | OFutureDestroy (pe f : Z).

Definition run_op (CmiMyPe self : Z) (o : op) : world -> outcome (world * result) :=
  match o with
  | OMutexInit m a => Cpthread_mutex_init CmiMyPe self m a
  | OMutexDestroy m => Cpthread_mutex_destroy CmiMyPe self m
  | OLock m => Cpthread_mutex_lock CmiMyPe self m
  | OTrylock m => Cpthread_mutex_trylock CmiMyPe self m
  | OUnlock m => Cpthread_mutex_unlock CmiMyPe self m
  | OCondInit c a => Cpthread_cond_init CmiMyPe self c a
  | OCondDestroy c => Cpthread_cond_destroy CmiMyPe self c
  | OWait c m => Cpthread_cond_wait CmiMyPe self c m
  | OSignal c => Cpthread_cond_signal CmiMyPe self c
  | OBroadcast c => Cpthread_cond_broadcast CmiMyPe self c
  | OCreate pt t a d fn arg => Cpthread_create self pt t a d fn arg
  | OPush routine arg => Cpthread_cleanup_push self routine arg
  | OPop execute => Cpthread_cleanup_pop self execute
  | OExit status => Cpthread_exit self status
  | ODetach pt => Cpthread_detach self pt
  | OJoin pt => Cpthread_join self pt
  | OYield => CthYield self
  | OFutureCreate f => CfutureCreate f
  | OStore pe f v => CfutureStoreBuffer CmiMyPe pe f v
  | OFutureWait pe f => CfutureWait CmiMyPe self pe f
  | OFutureDestroy pe f => CfutureDestroy CmiMyPe pe f
  end.

(** A call is over, or its thread is off the processor. *)
Definition settle (self : Z) (wr : world * result) : world * list note :=
  match wr with
  | (w, Ret v ns) => (w, ns ++ [NRet self v])
  | (w, Susp k ns) => (set_current None (set_konts (<[self := k]> (konts w)) w), ns)
  | (w, Exit ns) => (set_current None w, ns)
  end.

(** A thread that was awakened goes on. *)
Definition resume (t : Z) (k : kont) (w : world) : outcome (world * result) :=
  match k with
  | KTop pt => Cpthread_top t pt w
  | KYield => Normal (w, Ret 0 [])
  | KMutex m => Normal (w, Ret 0 [NAcquired t m])
  | KCond c m => cond_wait_rest t m w
  | KJoin pt => join_rest t pt w
  | KFuture f => future_rest t f w
  end.

Inductive event :=
  | Run (o : op)         (** the current thread makes a call *)
  | Resume (i : nat)     (** the scheduler takes thread [i] of its queue *)
  | Store (f v : Z).     (** [CfutureStore]: a value arrives from another processor *)

Definition th_step (CmiMyPe : Z) (e : event) (w : world) : outcome (world * list note) :=
  match e, current w with
  | Run o, Some self => wr ← run_op CmiMyPe self o w; Normal (settle self wr)
  | Resume i, None =>
      match readyq w !! i with
      | Some t =>
          k ← find (konts w) t;
          wr ← resume t k (set_current (Some t) (set_konts (delete t (konts w)) (set_readyq (delete i (readyq w)) w)));
          Normal (settle t wr)
      | None => Normal (w, [])
      end
  | Store f v, None => w ← CfutureAwaken f v w; Normal (w, [NStored f v])
  | _, _ => Normal (w, [])
  end.
