(* ===== verification/CpthreadsSync.v ===== *)
(** * CpthreadsSync: mutexes and conditions

    The invariant of the queues of mutexes and conditions, and how the calls
    keep it. *)

From S2P Require Import Prelude Cpthreads.
#[local] Open Scope Z_scope.
Set Warnings "-clear-no-such-hyp".

(** ** Who has a mutex, by what calls returned *)

(** [None]: exclusion was violated. *)
Definition holder_note (m : Z) (s : option (option Z)) (n : note) : option (option Z) :=
  match s, n with
  | Some o, NAcquired t m' => if m' =? m then match o with None => Some (Some t) | Some _ => None end else s
  | Some o, NReleased t m' => if m' =? m then if decide (o = Some t) then Some None else None else s
  | _, _ => s
  end.
Definition replay (m : Z) (s : option (option Z)) (log : list note) : option (option Z) := fold_left (holder_note m) log s.

Definition neutral (n : note) : Prop := match n with NAcquired _ _ | NReleased _ _ => False | _ => True end.

Lemma replay_app m s l1 l2 : replay m s (l1 ++ l2) = replay m (replay m s l1) l2.
Proof. apply fold_left_app. Qed.

Lemma replay_neutral m s l : Forall neutral l -> replay m s l = s.
Proof. unfold replay. induction 1 as [|n l Hn Hl IH]; [done|]. cbn [fold_left]. destruct n, s; by rewrite ?IH in *. Qed.

(** ** Changes that concern other threads *)

(** The threads suspended in the calls [f] are the same, and which of them were
    awakened. *)
Definition same_on (f : kont -> bool) (K K' : gmap Z kont) (Q Q' : list Z) : Prop := forall t k, f k = true ->
  (K' !! t = Some k <-> K !! t = Some k) /\ (K !! t = Some k -> t ∈ Q' <-> t ∈ Q).
Definition is_sync (k : kont) : bool := match k with KMutex _ | KCond _ _ => true | _ => false end.

Lemma same_on_refl f K Q : same_on f K K Q Q.
Proof. by intros t k _. Qed.

Lemma same_on_trans f K K' K'' Q Q' Q'' : same_on f K K' Q Q' -> same_on f K' K'' Q' Q'' -> same_on f K K'' Q Q''.
Proof. intros H1 H2 t k Hf. destruct (H1 t k Hf) as [A1 A2], (H2 t k Hf) as [B1 B2]. split; [by rewrite B1|]. intros Hk. rewrite (B2 (proj2 A1 Hk)). by apply A2. Qed.

Lemma same_on_suspend f K Q t k : K !! t = None -> f k = false -> same_on f K (<[t := k]> K) Q Q.
Proof.
  intros Hk Hf s k' Hf'. split; [|done]. destruct (decide (s = t)) as [->|Hne]; [|by rewrite lookup_insert_ne]. rewrite lookup_insert_eq, Hk. split; [intros [= <-]; congruence|done].
Qed.

Lemma same_on_awaken f K Q s : (forall k, K !! s = Some k -> f k = false) -> same_on f K K Q (Q ++ [s]).
Proof. intros Hs t k Hf. split; [done|]. intros Hk. rewrite elem_of_app, list_elem_of_singleton. split; [intros [?| ->]; [done|]|by left]. by rewrite (Hs k Hk) in Hf. Qed.

Lemma same_on_resume f K Q Q' t k : K !! t = Some k -> f k = false -> (forall s, s ∈ Q' <-> s ∈ Q /\ s <> t) -> same_on f K (delete t K) Q Q'.
Proof.
  intros Hk Hf HQ s k' Hf'. split.
  - destruct (decide (s = t)) as [->|Hne]; [|by rewrite lookup_delete_ne]. rewrite lookup_delete_eq, Hk. split; [done|intros [= <-]; congruence].
  - intros Hs. rewrite HQ. split; [by intros []|]. intros Hq. split; [done|]. intros ->. congruence.
Qed.

(** ** The queues *)

Section sync.
Context (P : Z).

Definition mutex_ok (x : mutex) : Prop := mu_magic x = MUTEX_MAGIC /\ mu_onpe x = P.
Definition cond_ok (y : cond) : Prop := co_magic y = COND_MAGIC /\ co_onpe y = P.

(** In terms of the mutexes, the conditions, the suspended threads, the
    scheduler queue, and the holders. *)
Record sync_ok (mx : gmap Z mutex) (cx : gmap Z cond) (K : gmap Z kont) (Q : list Z) (own : Z -> option Z) : Prop := mk_sync {
  s_pe m x : mx !! m = Some x -> mu_magic x = MUTEX_MAGIC -> mu_onpe x = P;
  s_nodup m x : mx !! m = Some x -> NoDup (mu_users x);
  s_own m x t : mx !! m = Some x -> own m = Some t <-> head (mu_users x) = Some t /\ K !! t <> Some (KMutex m);
  s_head m x t : mx !! m = Some x -> head (mu_users x) = Some t -> K !! t = Some (KMutex m) -> t ∈ Q;
  s_tail m x t : mx !! m = Some x -> t ∈ tail (mu_users x) -> K !! t = Some (KMutex m) /\ t ∉ Q;
  s_live m x : mx !! m = Some x -> mu_users x <> [] -> mu_magic x = MUTEX_MAGIC;
  s_none m : mx !! m = None -> own m = None;
  s_in m t : K !! t = Some (KMutex m) -> exists x, mx !! m = Some x /\ t ∈ mu_users x;
  s_wait m t c : own m = Some t -> K !! t <> Some (KCond c m);
  s_cpe c y : cx !! c = Some y -> co_magic y = COND_MAGIC -> co_onpe y = P;
  s_cnodup c y : cx !! c = Some y -> NoDup (co_users y);
  s_cuser c y t : cx !! c = Some y -> t ∈ co_users y -> (exists m, K !! t = Some (KCond c m)) /\ t ∉ Q;
  s_cin c m t : K !! t = Some (KCond c m) -> (exists x, mx !! m = Some x /\ mu_magic x = MUTEX_MAGIC) /\ (t ∈ Q \/ exists y, cx !! c = Some y /\ t ∈ co_users y)
}.

(** A thread that is not suspended is in a queue of a mutex only as its holder. *)
Lemma running_users mx cx K Q own m x t : sync_ok mx cx K Q own -> mx !! m = Some x -> (forall m, K !! t <> Some (KMutex m)) -> t ∈ mu_users x -> own m = Some t.
Proof.
  intros S Hm Hk Ht. apply (s_own _ _ _ _ _ S m x t Hm). destruct (mu_users x) as [|u us] eqn:E; [by apply elem_of_nil in Ht|].
  apply elem_of_cons in Ht as [->|Ht]; [done|]. destruct (s_tail _ _ _ _ _ S m x t Hm) as [H1 _]; [by rewrite E|]. by destruct (Hk m).
Qed.

Definition same_sync : gmap Z kont -> gmap Z kont -> list Z -> list Z -> Prop := same_on is_sync.

Lemma sync_frame mx cx K K' Q Q' own : sync_ok mx cx K Q own -> same_sync K K' Q Q' -> sync_ok mx cx K' Q' own.
Proof.
  intros [S1 S2 S3 S4 S5 S6 S7 S8 S9 T1 T2 T3 T4] F. split; try done.
  - intros m x t Hm. rewrite (S3 m x t Hm). by rewrite (proj1 (F t (KMutex m) eq_refl)).
  - intros m x t Hm Hh Hk. apply (proj1 (F t (KMutex m) eq_refl)) in Hk. apply (proj2 (F t (KMutex m) eq_refl) Hk). by apply (S4 m x t).
  - intros m x t Hm Ht. destruct (S5 m x t Hm Ht) as [H1 H2]. split; [by apply (F t (KMutex m) eq_refl)|]. intros Hq. by apply H2, (proj2 (F t (KMutex m) eq_refl) H1).
  - intros m t Hk. apply S8. by apply (F t (KMutex m) eq_refl).
  - intros m t c Ho Hk. by apply (S9 m t c Ho), (F t (KCond c m) eq_refl).
  - intros c y t Hc Ht. destruct (T3 c y t Hc Ht) as [[m H1] H2]. split; [exists m; by apply (F t (KCond c m) eq_refl)|]. intros Hq. by apply H2, (proj2 (F t (KCond c m) eq_refl) H1).
  - intros c m t Hk. apply (proj1 (F t (KCond c m) eq_refl)) in Hk. destruct (T4 c m t Hk) as [H1 H2]. split; [done|]. destruct H2 as [H2|H2]; [left; by apply (proj2 (F t (KCond c m) eq_refl) Hk)|by right].
Qed.

Definition update (own : Z -> option Z) (m : Z) (o : option Z) : Z -> option Z := fun m' => if m' =? m then o else own m'.

Lemma update_eq own m o : update own m o m = o.
Proof. unfold update. by rewrite Z.eqb_refl. Qed.
Lemma update_ne own m o m' : m' <> m -> update own m o m' = own m'.
Proof. intros Hne. unfold update. by rewrite (proj2 (Z.eqb_neq m' m) Hne). Qed.

(** A running thread takes a free mutex. *)
Lemma sync_acquire mx cx K Q own m x t : sync_ok mx cx K Q own -> mx !! m = Some x -> mu_magic x = MUTEX_MAGIC -> mu_users x = [] -> K !! t = None ->
  sync_ok (<[m := mk_mutex (mu_magic x) (mu_onpe x) [t]]> mx) cx K Q (update own m (Some t)).
Proof.
  intros [S1 S2 S3 S4 S5 S6 S7 S8 S9 T1 T2 T3 T4] Hm Hg Hu Hk. split; try done.
  - intros m' x' [[<- <-]|[Hne Hm']]%lookup_insert_Some Hg'; [by apply (S1 m x)|by apply (S1 m' x')].
  - intros m' x' [[<- <-]|[Hne Hm']]%lookup_insert_Some; [apply NoDup_singleton|by apply (S2 m' x')].
  - intros m' x' s [[<- <-]|[Hne Hm']]%lookup_insert_Some; [rewrite update_eq; cbn; split; [intros [= <-]; by rewrite Hk|by intros [[= <-] _]]|]. rewrite update_ne by done. by apply S3.
  - intros m' x' s [[<- <-]|[Hne Hm']]%lookup_insert_Some; [|by apply S4]. cbn. intros [= <-]. by rewrite Hk.
  - intros m' x' s [[<- <-]|[Hne Hm']]%lookup_insert_Some; [|by apply S5]. cbn. intros Hs. by apply elem_of_nil in Hs.
  - intros m' x' [[<- <-]|[Hne Hm']]%lookup_insert_Some; [done|by apply (S6 m' x')].
  - intros m' [Hm' Hne]%lookup_insert_None. rewrite update_ne by done. by apply S7.
  - intros m' s Hs. destruct (S8 m' s Hs) as (x' & Hx' & Hin). destruct (decide (m' = m)) as [->|Hne]; [|exists x'; by rewrite lookup_insert_ne]. assert (x' = x) as -> by congruence. rewrite Hu in Hin. by apply elem_of_nil in Hin.
  - intros m' s c Ho. destruct (decide (m' = m)) as [->|Hne]; [rewrite update_eq in Ho; injection Ho as <-; by rewrite Hk|]. rewrite update_ne in Ho by done. by apply S9.
  - intros c m' s Hs. destruct (T4 c m' s Hs) as ((x' & Hx' & Hg') & Hq). split; [|done]. destruct (decide (m' = m)) as [->|Hne]; [exists (mk_mutex (mu_magic x) (mu_onpe x) [t]); by rewrite lookup_insert_eq|exists x'; by rewrite lookup_insert_ne].
Qed.

(** A running thread queues up behind the holder. *)
Lemma sync_block mx cx K Q own m x t : sync_ok mx cx K Q own -> mx !! m = Some x -> mu_users x <> [] -> K !! t = None -> t ∉ Q -> own m <> Some t ->
  sync_ok (<[m := mk_mutex (mu_magic x) (mu_onpe x) (mu_users x ++ [t])]> mx) cx (<[t := KMutex m]> K) Q own.
Proof.
  intros S Hm Hu Hk Hq Ho. assert (t ∉ mu_users x) as Ht by (intros Ht; apply Ho; apply (running_users _ _ _ _ _ m x t S Hm); [by rewrite Hk|done]).
  destruct S as [S1 S2 S3 S4 S5 S6 S7 S8 S9 T1 T2 T3 T4]. assert (head (mu_users x ++ [t]) = head (mu_users x)) as Eh by (by destruct (mu_users x)).
  assert (forall s k, s <> t -> (<[t := KMutex m]> K) !! s = k <-> K !! s = k) as Hn by (intros s k Hne; by rewrite lookup_insert_ne).
  assert (forall s k, K !! s = Some k -> (<[t := KMutex m]> K) !! s = Some k) as Hkeep by (intros s k Hs; rewrite lookup_insert_ne; [done|congruence]).
  assert (forall s k, (<[t := KMutex m]> K) !! s = Some k -> s = t /\ k = KMutex m \/ K !! s = Some k) as Hcase by (intros s k [[<- <-]|[_ ?]]%lookup_insert_Some; [by left|by right]).
  split; try done.
  - intros m' x' [[<- <-]|[Hne Hm']]%lookup_insert_Some Hg'; [by apply (S1 m x)|by apply (S1 m' x')].
  - intros m' x' [[<- <-]|[Hne Hm']]%lookup_insert_Some; [|by apply (S2 m' x')]. cbn. apply NoDup_app. split; [by apply (S2 m x)|]. split; [intros s Hs ->%list_elem_of_singleton; done|apply NoDup_singleton].
  - intros m' x' s [[<- <-]|[Hne Hm']]%lookup_insert_Some; cbn [mu_users].
    + rewrite Eh, (S3 m x s Hm). destruct (decide (s = t)) as [->|Hst]; [|by rewrite Hn]. rewrite lookup_insert_eq. split; [|by intros []]. intros [H1 _]. destruct (mu_users x); [done|]. injection H1 as ->. destruct Ht. left.
    + rewrite (S3 m' x' s Hm'). destruct (decide (s = t)) as [->|Hst]; [|by rewrite Hn]. rewrite lookup_insert_eq, Hk. split; intros [? _]; (split; [done|congruence]).
  - intros m' x' s [[<- <-]|[Hne Hm']]%lookup_insert_Some Hh Hs; cbn [mu_users] in *.
    + rewrite Eh in Hh. apply Hcase in Hs as [[-> _]|Hs]; [destruct (mu_users x); [done|]; injection Hh as ->; destruct Ht; left|]. by apply (S4 m x s).
    + apply Hcase in Hs as [[-> [= ->]]|Hs]; [done|]. by apply (S4 m' x' s).
  - intros m' x' s [[<- <-]|[Hne Hm']]%lookup_insert_Some; cbn [mu_users].
    + destruct (mu_users x) as [|u us] eqn:E; [done|]. cbn [tail app]. intros [Hs|Hs%list_elem_of_singleton]%elem_of_app; [|subst s; by rewrite lookup_insert_eq].
      destruct (S5 m x s Hm) as [H1 H2]; [by rewrite E|]. split; [by apply Hkeep|done].
    + intros Hs. destruct (S5 m' x' s Hm' Hs) as [H1 H2]. split; [by apply Hkeep|done].
  - intros m' x' [[<- <-]|[Hne Hm']]%lookup_insert_Some; [intros _; by apply (S6 m x)|by apply (S6 m' x')].
  - intros m' [Hm' Hne]%lookup_insert_None. by apply S7.
  - intros m' s [[-> [= ->]]|Hs]%Hcase.
    + exists (mk_mutex (mu_magic x) (mu_onpe x) (mu_users x ++ [t])). rewrite lookup_insert_eq. split; [done|]. apply elem_of_app. right. by apply list_elem_of_singleton.
    + destruct (S8 m' s Hs) as (x' & Hx' & Hin). destruct (decide (m' = m)) as [->|Hne]; [|exists x'; by rewrite lookup_insert_ne]. assert (x' = x) as -> by congruence.
      eexists. rewrite lookup_insert_eq. split; [done|]. apply elem_of_app. by left.
  - intros m' s c Hs [[-> [=]]|Hc]%Hcase. by apply (S9 m' s c).
  - intros c y s Hc Hs. destruct (T3 c y s Hc Hs) as [[m' H1] H2]. split; [exists m'; by apply Hkeep|done].
  - intros c m' s [[_ [=]]|Hs]%Hcase. destruct (T4 c m' s Hs) as ((x' & Hx' & Hg') & Hq'). split; [|done]. destruct (decide (m' = m)) as [->|Hne]; [|exists x'; by rewrite lookup_insert_ne].
    assert (x' = x) as -> by congruence. eexists. by rewrite lookup_insert_eq.
Qed.

(** The holder gives a mutex up, and the first of those who wait is awakened. *)
Lemma sync_release mx cx K Q own m x t us : sync_ok mx cx K Q own -> mx !! m = Some x -> mu_users x = t :: us -> K !! t = None ->
  own m = Some t /\ sync_ok (<[m := mk_mutex (mu_magic x) (mu_onpe x) us]> mx) cx K (match us with u :: _ => Q ++ [u] | [] => Q end) (update own m None).
Proof.
  intros S Hm Hu Hk. assert (own m = Some t) as Ho by (apply (s_own _ _ _ _ _ S m x t Hm); rewrite Hu, Hk; done). split; [done|]. destruct S as [S1 S2 S3 S4 S5 S6 S7 S8 S9 T1 T2 T3 T4].
  set (Q' := match us with u :: _ => Q ++ [u] | [] => Q end).
  assert (forall u, u ∈ us -> K !! u = Some (KMutex m) /\ u ∉ Q) as Hus by (intros u Hin; apply (S5 m x u Hm); by rewrite Hu).
  assert (forall s, s ∈ Q' <-> s ∈ Q \/ head us = Some s) as HQ.
  { intros s. unfold Q'. destruct us as [|u us']; cbn [head]; [naive_solver|]. rewrite elem_of_app, list_elem_of_singleton. naive_solver. }
  assert (forall s, head us = Some s -> K !! s = Some (KMutex m)) as Hhead by (intros s Hs; apply Hus; destruct us; [done|]; injection Hs as ->; left).
  pose proof (S2 m x Hm) as Hnd. rewrite Hu in Hnd. apply NoDup_cons in Hnd as [Htus Hnd].
  split; try done.
  - intros m' x' [[<- <-]|[Hne Hm']]%lookup_insert_Some Hg'; [by apply (S1 m x)|by apply (S1 m' x')].
  - intros m' x' [[<- <-]|[Hne Hm']]%lookup_insert_Some; [done|by apply (S2 m' x')].
  - intros m' x' s [[<- <-]|[Hne Hm']]%lookup_insert_Some; [|rewrite update_ne by done; by apply S3]. rewrite update_eq. cbn [mu_users]. split; [done|]. intros [Hs Hns]. by destruct (Hns (Hhead s Hs)).
  - intros m' x' s [[<- <-]|[Hne Hm']]%lookup_insert_Some Hh Hs; apply HQ; [by right|left; by apply (S4 m' x' s)].
  - intros m' x' s [[<- <-]|[Hne Hm']]%lookup_insert_Some Hs; cbn [mu_users] in *.
    + assert (s ∈ us) as Hin by (destruct us; [done|right; done]). destruct (Hus s Hin) as [H1 H2]. split; [done|]. intros [?|Hh]%HQ; [done|]. destruct us as [|u us']; [done|]. injection Hh as ->. by apply NoDup_cons in Hnd as [? _].
    + destruct (S5 m' x' s Hm' Hs) as [H1 H2]. split; [done|]. intros [?|Hh]%HQ; [done|]. apply Hhead in Hh. congruence.
  - intros m' x' [[<- <-]|[Hne Hm']]%lookup_insert_Some; [intros _; apply (S6 m x Hm); by rewrite Hu|by apply (S6 m' x')].
  - intros m' [Hm' Hne]%lookup_insert_None. rewrite update_ne by done. by apply S7.
  - intros m' s Hs. destruct (S8 m' s Hs) as (x' & Hx' & Hin). destruct (decide (m' = m)) as [->|Hne]; [|exists x'; by rewrite lookup_insert_ne]. assert (x' = x) as -> by congruence. rewrite Hu in Hin.
    eexists. rewrite lookup_insert_eq. split; [done|]. apply elem_of_cons in Hin as [->|?]; [congruence|done].
  - intros m' s c Hs. destruct (decide (m' = m)) as [->|Hne]; [by rewrite update_eq in Hs|]. rewrite update_ne in Hs by done. by apply S9.
  - intros c y s Hc Hs. destruct (T3 c y s Hc Hs) as [[m' H1] H2]. split; [by exists m'|]. intros [?|Hh]%HQ; [done|]. apply Hhead in Hh. congruence.
  - intros c m' s Hs. destruct (T4 c m' s Hs) as ((x' & Hx' & Hg') & Hq'). split; [|destruct Hq' as [?|?]; [left; apply HQ; by left|by right]].
    destruct (decide (m' = m)) as [->|Hne]; [|exists x'; by rewrite lookup_insert_ne]. assert (x' = x) as -> by congruence. eexists. by rewrite lookup_insert_eq.
Qed.

(** A running thread waits for a condition. *)
Lemma sync_wait mx cx K Q own c y m x t : sync_ok mx cx K Q own -> cx !! c = Some y -> mx !! m = Some x -> mu_magic x = MUTEX_MAGIC -> K !! t = None -> t ∉ Q -> own m <> Some t ->
  sync_ok mx (<[c := mk_cond (co_magic y) (co_onpe y) (co_users y ++ [t])]> cx) (<[t := KCond c m]> K) Q own.
Proof.
  intros [S1 S2 S3 S4 S5 S6 S7 S8 S9 T1 T2 T3 T4] Hc Hm Hg Hk Hq Ho.
  assert (forall s k, K !! s = Some k -> (<[t := KCond c m]> K) !! s = Some k) as Hkeep by (intros s k Hs; rewrite lookup_insert_ne; [done|congruence]).
  assert (forall s k, (<[t := KCond c m]> K) !! s = Some k -> s = t /\ k = KCond c m \/ K !! s = Some k) as Hcase by (intros s k [[<- <-]|[_ ?]]%lookup_insert_Some; [by left|by right]).
  assert (forall s m', (<[t := KCond c m]> K) !! s = Some (KMutex m') <-> K !! s = Some (KMutex m')) as Hmx by (intros s m'; split; [by intros [[_ [=]]|?]%Hcase|apply Hkeep]).
  split; try done.
  - intros m' x' s Hm'. rewrite (S3 m' x' s Hm'). by rewrite Hmx.
  - intros m' x' s Hm' Hh Hs. apply (S4 m' x' s Hm' Hh). by apply Hmx.
  - intros m' x' s Hm' Hs. rewrite Hmx. by apply (S5 m' x').
  - intros m' s Hs. apply S8. by apply Hmx.
  - intros m' s c' Hs [[-> [= -> ->]]|Hs']%Hcase; [done|]. by apply (S9 m' s c').
  - intros c' y' [[<- <-]|[Hne Hc']]%lookup_insert_Some Hg'; [by apply (T1 c y)|by apply (T1 c' y')].
  - intros c' y' [[<- <-]|[Hne Hc']]%lookup_insert_Some; [|by apply (T2 c' y')]. cbn. apply NoDup_app. split; [by apply (T2 c y)|]. split; [|apply NoDup_singleton].
    intros s Hs ->%list_elem_of_singleton. destruct (T3 c y t Hc Hs) as [[m' H1] _]. congruence.
  - intros c' y' s [[<- <-]|[Hne Hc']]%lookup_insert_Some Hs; cbn [co_users] in *.
    + apply elem_of_app in Hs as [Hs|Hs%list_elem_of_singleton]; [destruct (T3 c y s Hc Hs) as [[m' H1] H2]; split; [exists m'; by apply Hkeep|done]|]. subst s. split; [exists m; by rewrite lookup_insert_eq|done].
    + destruct (T3 c' y' s Hc' Hs) as [[m' H1] H2]. split; [exists m'; by apply Hkeep|done].
  - intros c' m' s [[-> [= -> ->]]|Hs]%Hcase.
    + split; [by exists x|]. right. eexists. rewrite lookup_insert_eq. split; [done|]. apply elem_of_app. right. by apply list_elem_of_singleton.
    + destruct (T4 c' m' s Hs) as [H1 H2]. split; [done|]. destruct H2 as [?|(y' & Hy' & Hin)]; [by left|right]. destruct (decide (c' = c)) as [->|Hne]; [|exists y'; by rewrite lookup_insert_ne].
      assert (y' = y) as -> by congruence. eexists. rewrite lookup_insert_eq. split; [done|]. apply elem_of_app. by left.
Qed.

(** The first thread that waits for a condition is awakened. *)
Lemma sync_signal mx cx K Q own c y s us : sync_ok mx cx K Q own -> cx !! c = Some y -> co_users y = s :: us ->
  (s ∉ Q) /\ sync_ok mx (<[c := mk_cond (co_magic y) (co_onpe y) us]> cx) K (Q ++ [s]) own.
Proof.
  intros [S1 S2 S3 S4 S5 S6 S7 S8 S9 T1 T2 T3 T4] Hc Hu. destruct (T3 c y s Hc) as [[m0 Hs0] Hsq]; [rewrite Hu; left|]. split; [done|].
  assert (forall u, u ∈ (Q ++ [s]) <-> u ∈ Q \/ u = s) as HQ by (intros u; by rewrite elem_of_app, list_elem_of_singleton).
  pose proof (T2 c y Hc) as Hnd. rewrite Hu in Hnd. apply NoDup_cons in Hnd as [Hsus Hnd]. split; try done.
  - intros m x t Hm Hh Ht. apply HQ. left. by apply (S4 m x t).
  - intros m x t Hm Ht. destruct (S5 m x t Hm Ht) as [H1 H2]. split; [done|]. intros [?| ->]%HQ; [done|congruence].
  - intros c' y' [[<- <-]|[Hne Hc']]%lookup_insert_Some Hg'; [by apply (T1 c y)|by apply (T1 c' y')].
  - intros c' y' [[<- <-]|[Hne Hc']]%lookup_insert_Some; [done|by apply (T2 c' y')].
  - intros c' y' t [[<- <-]|[Hne Hc']]%lookup_insert_Some Ht; cbn [co_users] in *.
    + destruct (T3 c y t Hc) as [H1 H2]; [rewrite Hu; by right|]. split; [done|]. intros [?| ->]%HQ; done.
    + destruct (T3 c' y' t Hc' Ht) as [[m' H1] H2]. split; [by exists m'|]. intros [?| ->]%HQ; [done|congruence].
  - intros c' m t Ht. destruct (T4 c' m t Ht) as [H1 H2]. split; [done|]. destruct H2 as [?|(y' & Hy' & Hin)]; [left; apply HQ; by left|]. destruct (decide (c' = c)) as [->|Hne]; [|right; exists y'; by rewrite lookup_insert_ne].
    assert (y' = y) as -> by congruence. rewrite Hu in Hin. apply elem_of_cons in Hin as [->|Hin]; [left; apply HQ; by right|right]. eexists. by rewrite lookup_insert_eq.
Qed.

(** A thread that was awakened at a mutex has it now. *)
Lemma sync_resume_mutex mx cx K Q Q' own m t : sync_ok mx cx K Q own -> K !! t = Some (KMutex m) -> t ∈ Q -> (forall s, s ∈ Q' <-> s ∈ Q /\ s <> t) ->
  own m = None /\ sync_ok mx cx (delete t K) Q' (update own m (Some t)).
Proof.
  intros S Hk Hq HQ. destruct (s_in _ _ _ _ _ S m t Hk) as (x & Hm & Ht). assert (head (mu_users x) = Some t) as Hh.
  { destruct (mu_users x) as [|u us] eqn:E; [by apply elem_of_nil in Ht|]. apply elem_of_cons in Ht as [->|Ht]; [done|]. destruct (s_tail _ _ _ _ _ S m x t Hm) as [_ H2]; [by rewrite E|done]. }
  assert (own m = None) as Ho by (destruct (own m) as [u|] eqn:E; [|done]; apply (s_own _ _ _ _ _ S m x u Hm) in E as [E1 E2]; congruence). split; [done|].
  destruct S as [S1 S2 S3 S4 S5 S6 S7 S8 S9 T1 T2 T3 T4].
  assert (forall s k, delete t K !! s = Some k <-> s <> t /\ K !! s = Some k) as Hd by (intros s k; rewrite lookup_delete_Some; naive_solver). split; try done.
  - intros m' x' s Hm'. destruct (decide (m' = m)) as [->|Hne].
    + assert (x' = x) as -> by congruence. rewrite update_eq, Hh. split; [intros [= <-]; split; [done|]; by rewrite lookup_delete_eq|by intros [[= <-] _]].
    + rewrite update_ne by done. rewrite (S3 m' x' s Hm'). destruct (decide (s = t)) as [->|Hst]; [|by rewrite lookup_delete_ne]. rewrite lookup_delete_eq, Hk. split; intros [? ?]; (split; [done|congruence]).
  - intros m' x' s Hm' Hh' [Hst Hs]%Hd. apply HQ. split; [|done]. by apply (S4 m' x' s).
  - intros m' x' s Hm' Hs. destruct (S5 m' x' s Hm' Hs) as [H1 H2]. split; [|intros [? _]%HQ; done]. apply Hd. split; [congruence|done].
  - intros m' Hm'. rewrite update_ne by congruence. by apply S7.
  - intros m' s [Hst Hs]%Hd. by apply S8.
  - intros m' s c Hs [Hst Hs']%Hd. destruct (decide (m' = m)) as [->|Hne]; [rewrite update_eq in Hs; congruence|]. rewrite update_ne in Hs by done. by apply (S9 m' s c).
  - intros c y s Hc Hs. destruct (T3 c y s Hc Hs) as [[m' H1] H2]. split; [|intros [? _]%HQ; done]. exists m'. apply Hd. split; [congruence|done].
  - intros c m' s [Hst Hs]%Hd. destruct (T4 c m' s Hs) as [H1 H2]. split; [done|]. destruct H2 as [?|?]; [left; apply HQ; by split|by right].
Qed.

(** A thread that was awakened at a condition. *)
Lemma sync_resume_cond mx cx K Q Q' own c m t : sync_ok mx cx K Q own -> K !! t = Some (KCond c m) -> t ∈ Q -> (forall s, s ∈ Q' <-> s ∈ Q /\ s <> t) ->
  sync_ok mx cx (delete t K) Q' own /\ own m <> Some t /\ exists x, mx !! m = Some x /\ mu_magic x = MUTEX_MAGIC.
Proof.
  intros [S1 S2 S3 S4 S5 S6 S7 S8 S9 T1 T2 T3 T4] Hk Hq HQ. split; [|split; [intros Ho; by apply (S9 m t c Ho)|by apply (T4 c m t)]].
  assert (forall s k, delete t K !! s = Some k <-> s <> t /\ K !! s = Some k) as Hd by (intros s k; rewrite lookup_delete_Some; naive_solver). split; try done.
  - intros m' x' s Hm'. rewrite (S3 m' x' s Hm'). destruct (decide (s = t)) as [->|Hst]; [|by rewrite lookup_delete_ne]. rewrite lookup_delete_eq, Hk. split; intros [? ?]; (split; [done|congruence]).
  - intros m' x' s Hm' Hh' [Hst Hs]%Hd. apply HQ. split; [|done]. by apply (S4 m' x' s).
  - intros m' x' s Hm' Hs. destruct (S5 m' x' s Hm' Hs) as [H1 H2]. split; [|intros [? _]%HQ; done]. apply Hd. split; [congruence|done].
  - intros m' s [Hst Hs]%Hd. by apply S8.
  - intros m' s c' Hs [Hst Hs']%Hd. by apply (S9 m' s c').
  - intros c' y s Hc Hs. destruct (T3 c' y s Hc Hs) as [[m' H1] H2]. split; [|intros [? _]%HQ; done]. exists m'. apply Hd. split; [intros ->; done|done].
  - intros c' m' s [Hst Hs]%Hd. destruct (T4 c' m' s Hs) as [H1 H2]. split; [done|]. destruct H2 as [?|?]; [left; apply HQ; by split|by right].
Qed.

(** A mutex without users is set up or destroyed. *)
Lemma sync_reset_mutex mx cx K Q own m g : sync_ok mx cx K Q own -> (forall x, mx !! m = Some x -> mu_users x = []) -> (g <> MUTEX_MAGIC -> forall t c, K !! t <> Some (KCond c m)) ->
  sync_ok (<[m := mk_mutex g P []]> mx) cx K Q own.
Proof.
  intros [S1 S2 S3 S4 S5 S6 S7 S8 S9 T1 T2 T3 T4] Hu Hw. assert (own m = None) as Ho.
  { destruct (mx !! m) as [x|] eqn:E; [|by apply S7]. destruct (own m) as [t|] eqn:Eo; [|done]. apply (S3 m x t E) in Eo as [Eo _]. by rewrite (Hu x eq_refl) in Eo. }
  split; try done.
  - intros m' x' [[<- <-]|[Hne Hm']]%lookup_insert_Some; [done|by apply (S1 m' x')].
  - intros m' x' [[<- <-]|[Hne Hm']]%lookup_insert_Some; [apply NoDup_nil; done|by apply (S2 m' x')].
  - intros m' x' s [[<- <-]|[Hne Hm']]%lookup_insert_Some; [rewrite Ho; cbn; naive_solver|by apply S3].
  - intros m' x' s [[<- <-]|[Hne Hm']]%lookup_insert_Some; [done|by apply S4].
  - intros m' x' s [[<- <-]|[Hne Hm']]%lookup_insert_Some; [intros Hs; by apply elem_of_nil in Hs|by apply S5].
  - intros m' x' [[<- <-]|[Hne Hm']]%lookup_insert_Some; [done|by apply (S6 m' x')].
  - intros m' [Hm' Hne]%lookup_insert_None. by apply S7.
  - intros m' s Hs. destruct (S8 m' s Hs) as (x' & Hx' & Hin). destruct (decide (m' = m)) as [->|Hne]; [rewrite (Hu x' Hx') in Hin; by apply elem_of_nil in Hin|exists x'; by rewrite lookup_insert_ne].
  - intros c m' s Hs. destruct (T4 c m' s Hs) as ((x' & Hx' & Hg') & Hq'). split; [|done]. destruct (decide (m' = m)) as [->|Hne]; [|exists x'; by rewrite lookup_insert_ne].
    eexists. rewrite lookup_insert_eq. split; [done|]. cbn. destruct (decide (g = MUTEX_MAGIC)) as [|Hg]; [done|]. by destruct (Hw Hg s c).
Qed.

Lemma sync_reset_cond mx cx K Q own c g : sync_ok mx cx K Q own -> (forall y, cx !! c = Some y -> co_users y = []) -> sync_ok mx (<[c := mk_cond g P []]> cx) K Q own.
Proof.
  intros [S1 S2 S3 S4 S5 S6 S7 S8 S9 T1 T2 T3 T4] Hu. split; try done.
  - intros c' y' [[<- <-]|[Hne Hc']]%lookup_insert_Some; [done|by apply (T1 c' y')].
  - intros c' y' [[<- <-]|[Hne Hc']]%lookup_insert_Some; [apply NoDup_nil; done|by apply (T2 c' y')].
  - intros c' y' s [[<- <-]|[Hne Hc']]%lookup_insert_Some; [intros Hs; by apply elem_of_nil in Hs|by apply T3].
  - intros c' m s Hs. destruct (T4 c' m s Hs) as [H1 H2]. split; [done|]. destruct H2 as [?|(y' & Hy' & Hin)]; [by left|right]. destruct (decide (c' = c)) as [->|Hne]; [|exists y'; by rewrite lookup_insert_ne].
    rewrite (Hu y' Hy') in Hin. by apply elem_of_nil in Hin.
Qed.
End sync.
