(* ===== verification/CpthreadsJoin.v ===== *)
(** * CpthreadsJoin: threads that join, and futures

    The invariants of thread structures and of futures, and how the calls keep
    them. *)

From S2P Require Import Prelude Cpthreads CpthreadsSync.
#[local] Open Scope Z_scope.
Set Warnings "-clear-no-such-hyp".

(** ** Joining *)

(** The status a thread exited with, by what happened. *)
Definition exit_note (p : Z) (s : option Z) (n : note) : option Z := match n with NExited p' v => if p' =? p then Some v else s | _ => s end.
(** The value stored last in a future. *)
Definition store_note (f : Z) (s : option Z) (n : note) : option Z := match n with NStored f' v => if f' =? f then Some v else s | _ => s end.

Definition is_join (k : kont) : bool := match k with KTop _ | KJoin _ => true | _ => false end.
Definition is_future (k : kont) : bool := match k with KFuture _ => true | _ => false end.

(** Threads that have started. *)
Definition started (K : gmap Z kont) (cur : option Z) (t : Z) : Prop := cur = Some t \/ exists k, K !! t = Some k /\ forall p, k <> KTop p.

Record join_ok (pts : gmap Z Cpthread_s) (cp : gmap Z Z) (K : gmap Z kont) (Q : list Z) (cur : option Z) (exits : Z -> option Z) : Prop := mk_join {
  j_magic p x : pts !! p = Some x -> pt_magic x = PT_MAGIC;
  j_top t p : K !! t = Some (KTop p) -> exists x, pts !! p = Some x /\ pt_thread x = t;
  j_cur t p : started K cur t -> cp !! t = Some p -> exists x, pts !! p = Some x /\ pt_thread x = t;
  j_wait p x : pts !! p = Some x -> pt_waiting x <> NULL -> K !! pt_waiting x = Some (KJoin p) /\ pt_detached x = 0;
  j_join t p : K !! t = Some (KJoin p) -> exists x, pts !! p = Some x /\ pt_waiting x = t /\ (t ∈ Q <-> pt_thread x = NULL);
  j_exit p x : pts !! p = Some x -> pt_thread x = NULL -> exits p = Some (pt_joinstatus x)
}.

Lemma join_frame pts cp K K' Q Q' cur cur' exits : join_ok pts cp K Q cur exits -> same_on is_join K K' Q Q' -> (forall t, started K' cur' t -> started K cur t) -> join_ok pts cp K' Q' cur' exits.
Proof.
  intros [J1 J2 J3 J4 J5 J6] F Hs. split; try done.
  - intros t p Hk. apply J2. by apply (F t (KTop p) eq_refl).
  - intros t p Ht. apply J3. by apply Hs.
  - intros p x Hp Hw. destruct (J4 p x Hp Hw) as [H1 H2]. split; [|done]. by apply (F _ (KJoin p) eq_refl).
  - intros t p Hk. apply (proj1 (F t (KJoin p) eq_refl)) in Hk. destruct (J5 t p Hk) as (x & H1 & H2 & H3). exists x. split; [done|]. split; [done|]. by rewrite (proj2 (F t (KJoin p) eq_refl) Hk).
Qed.

(** A thread structure changes in parts that concern only its thread. *)
Lemma join_update pts cp K Q cur exits p x x' : join_ok pts cp K Q cur exits -> pts !! p = Some x -> pt_magic x' = pt_magic x -> pt_thread x' = pt_thread x -> pt_waiting x' = pt_waiting x ->
  pt_joinstatus x' = pt_joinstatus x -> (pt_detached x' = pt_detached x \/ pt_waiting x = NULL) -> join_ok (<[p := x']> pts) cp K Q cur exits.
Proof.
  intros [J1 J2 J3 J4 J5 J6] Hp Em Et Ew Es Ed.
  assert (forall q y, pts !! q = Some y -> exists y', <[p := x']> pts !! q = Some y' /\ pt_thread y' = pt_thread y /\ pt_waiting y' = pt_waiting y) as Hk.
  { intros q y Hq. destruct (decide (q = p)) as [->|Hne]; [exists x'; rewrite lookup_insert_eq; split; [done|]; assert (y = x) as -> by congruence; done|exists y; by rewrite lookup_insert_ne]. }
  split.
  - intros q y [[<- <-]|[_ Hq]]%lookup_insert_Some; [rewrite Em; by apply (J1 p)|by apply (J1 q)].
  - intros t q Ht. destruct (J2 t q Ht) as (y & Hy & E). destruct (Hk q y Hy) as (y' & H1 & H2 & _). exists y'. by rewrite H2.
  - intros t q Hst Ht. destruct (J3 t q Hst Ht) as (y & Hy & E). destruct (Hk q y Hy) as (y' & H1 & H2 & _). exists y'. by rewrite H2.
  - intros q y [[<- <-]|[_ Hq]]%lookup_insert_Some; [|by apply J4]. rewrite Ew. intros Hw. destruct (J4 p x Hp Hw) as [H1 H2]. split; [done|]. destruct Ed as [->|?]; [done|congruence].
  - intros t q Ht. destruct (J5 t q Ht) as (y & Hy & E1 & E2). destruct (Hk q y Hy) as (y' & H1 & H2 & H3). exists y'. by rewrite H2, H3.
  - intros q y [[<- <-]|[_ Hq]]%lookup_insert_Some; [rewrite Et, Es; by apply J6|by apply J6].
Qed.

(** A structure that no thread uses is freed. *)
Lemma join_delete pts cp K Q cur exits p x : join_ok pts cp K Q cur exits -> pts !! p = Some x -> (forall t, K !! t <> Some (KJoin p)) -> (forall t, started K cur t -> pt_thread x <> t) -> (forall t, K !! t <> Some (KTop p)) ->
  join_ok (delete p pts) cp K Q cur exits.
Proof.
  intros [J1 J2 J3 J4 J5 J6] Hp Hj Ht Htop.
  assert (forall q y, q <> p -> pts !! q = Some y -> delete p pts !! q = Some y) as Hk by (intros q y Hne Hq; by rewrite lookup_delete_ne).
  split.
  - intros q y [_ Hq]%lookup_delete_Some. by apply (J1 q).
  - intros t q Hq. destruct (J2 t q Hq) as (y & Hy & E). exists y. split; [|done]. apply Hk; [|done]. intros ->. by apply (Htop t).
  - intros t q Hst Hq. destruct (J3 t q Hst Hq) as (y & Hy & E). exists y. split; [|done]. apply Hk; [|done]. intros ->. apply (Ht t Hst). congruence.
  - intros q y [_ Hq]%lookup_delete_Some. by apply J4.
  - intros t q Hq. destruct (J5 t q Hq) as (y & Hy & E). exists y. split; [|done]. apply Hk; [|done]. intros ->. by apply (Hj t).
  - intros q y [_ Hq]%lookup_delete_Some. by apply J6.
Qed.

Lemma join_create pts cp K Q cur exits p (t : Z) d fn arg : join_ok pts cp K Q cur exits -> pts !! p = None -> K !! t = None -> t <> NULL ->
  join_ok (<[p := mk_pt PT_MAGIC fn arg d NULL [] NULL t]> pts) cp (<[t := KTop p]> K) (Q ++ [t]) cur exits.
Proof.
  intros [J1 J2 J3 J4 J5 J6] Hp Ht Hn.
  assert (forall q y, pts !! q = Some y -> <[p := mk_pt PT_MAGIC fn arg d NULL [] NULL t]> pts !! q = Some y) as Hk by (intros q y Hq; rewrite lookup_insert_ne; [done|congruence]).
  split.
  - intros q y [[<- <-]|[_ Hq]]%lookup_insert_Some; [done|by apply (J1 q)].
  - intros s q [[<- [= ->]]|[_ Hq]]%lookup_insert_Some; [eexists; by rewrite lookup_insert_eq|]. destruct (J2 s q Hq) as (y & Hy & E). exists y. split; [by apply Hk|done].
  - intros s q Hst Hq. destruct (J3 s q) as (y & Hy & E); [|done|exists y; split; [by apply Hk|done]]. destruct Hst as [?|(k & Hs & Hk')]; [by left|right]. apply lookup_insert_Some in Hs as [[<- <-]|[_ Hs]]; [by destruct (Hk' p)|by exists k].
  - intros q y [[<- <-]|[_ Hq]]%lookup_insert_Some; [done|]. intros Hw. destruct (J4 q y Hq Hw) as [H1 H2]. split; [|done]. rewrite lookup_insert_ne; [done|congruence].
  - intros s q [[<- [=]]|[Hne Hq]]%lookup_insert_Some. destruct (J5 s q Hq) as (y & Hy & E1 & E2). exists y. split; [by apply Hk|]. split; [done|]. rewrite elem_of_app, list_elem_of_singleton, <- E2. naive_solver.
  - intros q y [[<- <-]|[_ Hq]]%lookup_insert_Some; [cbn; done|by apply J6].
Qed.

(** A running thread waits for another to exit. *)
Lemma join_suspend pts cp K Q (t : Z) exits p x : (forall s k, K !! s = Some k -> s <> NULL) -> join_ok pts cp K Q (Some t) exits -> pts !! p = Some x -> pt_thread x <> NULL -> pt_detached x = 0 -> pt_waiting x = NULL -> K !! t = None -> t ∉ Q -> t <> NULL ->
  join_ok (<[p := mk_pt (pt_magic x) (pt_startfn x) (pt_startarg x) (pt_detached x) (pt_joinstatus x) (pt_cleanups x) t (pt_thread x)]> pts) cp (<[t := KJoin p]> K) Q None exits.
Proof.
  intros Hnull [J1 J2 J3 J4 J5 J6] Hp Hth Hd Hw Hk Hq Hn. set (x' := mk_pt _ _ _ _ _ _ t _).
  assert (forall q y, pts !! q = Some y -> exists y', <[p := x']> pts !! q = Some y' /\ pt_thread y' = pt_thread y) as Hkeep.
  { intros q y Hy. destruct (decide (q = p)) as [->|Hne]; [exists x'; rewrite lookup_insert_eq; split; [done|]; assert (y = x) as -> by congruence; done|exists y; by rewrite lookup_insert_ne]. }
  split.
  - intros q y [[<- <-]|[_ Hy]]%lookup_insert_Some; [exact (J1 p x Hp)|by apply (J1 q)].
  - intros s q [[_ [=]]|[_ Hs]]%lookup_insert_Some. destruct (J2 s q Hs) as (y & Hy & E). destruct (Hkeep q y Hy) as (y' & H1 & H2). exists y'. by rewrite H2.
  - intros s q Hst Hs. destruct (J3 s q) as (y & Hy & E); [|done|destruct (Hkeep q y Hy) as (y' & H1 & H2); exists y'; by rewrite H2].
    destruct Hst as [?|(k & Hs' & Hk')]; [done|]. apply lookup_insert_Some in Hs' as [[<- _]|[_ Hs']]; [by left|right; by exists k].
  - intros q y [[<- <-]|[Hne Hy]]%lookup_insert_Some; cbn [pt_waiting pt_detached]; [intros _; by rewrite lookup_insert_eq|]. intros Hw'. destruct (J4 q y Hy Hw') as [H1 H2]. split; [|done]. rewrite lookup_insert_ne; [done|congruence].
  - intros s q [[<- [= <-]]|[Hne Hs]]%lookup_insert_Some; [exists x'; rewrite lookup_insert_eq; split; [done|]; by split|].
    destruct (J5 s q Hs) as (y & Hy & E1 & E2). destruct (decide (q = p)) as [->|Hqp]; [|exists y; by rewrite lookup_insert_ne]. assert (y = x) as -> by congruence. rewrite Hw in E1. by destruct (Hnull s _ Hs).
  - intros q y [[<- <-]|[_ Hy]]%lookup_insert_Some; [done|by apply J6].
Qed.

(** The thread of [p] exits. *)
Lemma join_exit pts cp K Q t exits p x v : (forall s k, K !! s = Some k -> s <> NULL) -> join_ok pts cp K Q (Some t) exits -> cp !! t = Some p -> pts !! p = Some x -> K !! t = None ->
  join_ok (<[p := mk_pt (pt_magic x) (pt_startfn x) (pt_startarg x) (pt_detached x) v (pt_cleanups x) (pt_waiting x) NULL]> pts) cp K (if negb (pt_waiting x =? NULL) then Q ++ [pt_waiting x] else Q) None (fun q => if q =? p then Some v else exits q).
Proof.
  intros Hnull [J1 J2 J3 J4 J5 J6] Hcp Hp Hk. set (x' := mk_pt _ _ _ _ v _ _ NULL). set (Q' := if negb (pt_waiting x =? NULL) then Q ++ [pt_waiting x] else Q). destruct (J3 t p (or_introl eq_refl) Hcp) as (x0 & Hx0 & Et). assert (x0 = x) as -> by congruence.
  assert (forall s, s ∈ Q' <-> s ∈ Q \/ s = pt_waiting x /\ pt_waiting x <> NULL) as HQ.
  { intros s. unfold Q'. destruct (Z.eqb_spec (pt_waiting x) NULL) as [E|E]; cbn [negb]; [naive_solver|]. rewrite elem_of_app, list_elem_of_singleton. naive_solver. }
  split.
  - intros q y [[<- <-]|[_ Hy]]%lookup_insert_Some; [exact (J1 p x Hp)|by apply (J1 q)].
  - intros s q Hs. destruct (J2 s q Hs) as (y & Hy & E). destruct (decide (q = p)) as [->|Hne]; [|exists y; by rewrite lookup_insert_ne]. assert (y = x) as -> by congruence. congruence.
  - intros s q Hst Hs. destruct (J3 s q) as (y & Hy & E); [destruct Hst as [?|?]; [done|by right]|done|]. destruct (decide (q = p)) as [->|Hne]; [|exists y; by rewrite lookup_insert_ne]. assert (y = x) as -> by congruence.
    destruct Hst as [?|(k & Hs' & _)]; [done|]. congruence.
  - intros q y [[<- <-]|[Hne Hy]]%lookup_insert_Some; [by apply (J4 p x)|by apply J4].
  - intros s q Hs. destruct (J5 s q Hs) as (y & Hy & E1 & E2). pose proof (Hnull s _ Hs) as Hsn. destruct (decide (q = p)) as [->|Hne].
    + assert (y = x) as -> by congruence. exists x'. rewrite lookup_insert_eq. split; [done|]. split; [done|]. split; [done|]. intros _. apply HQ. right. by rewrite E1.
    + exists y. rewrite lookup_insert_ne by done. split; [done|]. split; [done|]. rewrite <- E2, HQ. split; [intros [?|[Ew Hn]]; [done|]|by left]. destruct (J4 p x Hp Hn) as [Hw _]. congruence.
  - intros q y [[<- <-]|[Hne Hy]]%lookup_insert_Some Hth; [by rewrite Z.eqb_refl|]. rewrite (proj2 (Z.eqb_neq q p)) by congruence. by apply J6.
Qed.

(** ** Futures *)

(** The waiters of a future, linked by [next]. *)
Fixpoint chain (nx : gmap Z Z) (t : Z) (l : list Z) : Prop :=
  match l with [] => t = NULL | u :: l => t = u /\ t <> NULL /\ chain nx (default 0 (nx !! u)) l end.

Lemma chain_frame_next nx nx' l : forall t, chain nx t l -> (forall u, u ∈ l -> nx' !! u = nx !! u) -> chain nx' t l.
Proof.
  induction l as [|u l IH]; intros t Hc Hf; [done|]. cbn [chain] in *. destruct Hc as (H1 & H2 & H3). split; [done|]. split; [done|]. rewrite (Hf u) by left. apply IH; [done|]. intros s Hs. apply Hf. by right.
Qed.

Lemma chain_same nx l l' : forall t, chain nx t l -> chain nx t l' -> l = l'.
Proof.
  revert l'. induction l as [|u l IH]; intros [|u' l'] t Hc Hc'; cbn [chain] in *; [done|destruct Hc' as (-> & ? & _); done|destruct Hc as (-> & ? & _); done|].
  destruct Hc as (-> & _ & H1), Hc' as (<- & _ & H2). f_equal. by apply (IH _ _ H1).
Qed.

Record future_ok (fs : gmap Z futdata) (nx : gmap Z Z) (K : gmap Z kont) (Q : list Z) (vals : Z -> option Z) : Prop := mk_future {
  fu_chain f x : fs !! f = Some x -> exists l, chain nx (f_waiters x) l /\ NoDup l /\ forall t, t ∈ l -> K !! t = Some (KFuture f) /\ t ∉ Q;
  fu_ready f x : fs !! f = Some x -> f_ready x = 0 \/ f_ready x = 1 /\ f_waiters x = NULL /\ f_value x <> NULL /\ vals f = Some (f_value x);
  fu_in t f : K !! t = Some (KFuture f) -> exists x, fs !! f = Some x /\ (t ∈ Q /\ f_ready x = 1 \/ exists l, chain nx (f_waiters x) l /\ t ∈ l)
}.

Lemma future_frame fs nx K K' Q Q' vals : future_ok fs nx K Q vals -> same_on is_future K K' Q Q' -> future_ok fs nx K' Q' vals.
Proof.
  intros [F1 F2 F3] Hs. split; [|done|].
  - intros f x Hf. destruct (F1 f x Hf) as (l & H1 & H2 & H3). exists l. split; [done|]. split; [done|]. intros t Ht. destruct (H3 t Ht) as [H4 H5]. destruct (Hs t (KFuture f) eq_refl) as [E1 E2]. split; [by apply E1|]. by rewrite (E2 H4).
  - intros t f Hk. destruct (Hs t (KFuture f) eq_refl) as [E1 E2]. apply E1 in Hk. destruct (F3 t f Hk) as (x & H1 & H2). exists x. split; [done|]. by rewrite (E2 Hk).
Qed.

(** A running thread waits for a future. *)
Lemma future_suspend fs nx K Q vals f x (t : Z) : future_ok fs nx K Q vals -> fs !! f = Some x -> f_ready x = 0 -> K !! t = None -> t ∉ Q -> t <> NULL ->
  future_ok (<[f := mk_fut (f_value x) (f_ready x) t]> fs) (<[t := f_waiters x]> nx) (<[t := KFuture f]> K) Q vals.
Proof.
  intros [F1 F2 F3] Hf Hr Hk Hq Hn.
  assert (forall s g y l, fs !! g = Some y -> chain nx s l -> (forall u, u ∈ l -> K !! u = Some (KFuture g) /\ u ∉ Q) -> chain (<[t := f_waiters x]> nx) s l) as Hfr.
  { intros s g y l Hg Hc Hl. apply (chain_frame_next nx); [done|]. intros u Hu. destruct (Hl u Hu) as [H1 _]. rewrite lookup_insert_ne; [done|congruence]. }
  assert (forall g y l, fs !! g = Some y -> chain nx (f_waiters y) l -> forall u, u ∈ l -> K !! u = Some (KFuture g) /\ u ∉ Q) as Hin.
  { intros g y l Hg Hc. destruct (F1 g y Hg) as (l' & H1 & _ & H3). by rewrite (chain_same _ _ _ _ Hc H1). }
  split.
  - intros g y [[<- <-]|[Hne Hg]]%lookup_insert_Some; cbn [f_waiters].
    + destruct (F1 f x Hf) as (l & H1 & H2 & H3). exists (t :: l). split; [cbn [chain]; rewrite lookup_insert_eq; split; [done|]; split; [done|]; by apply (Hfr _ f x)|]. split.
      * constructor; [|done]. intros Ht. destruct (H3 t Ht). congruence.
      * intros u [->|Hu]%elem_of_cons; [by rewrite lookup_insert_eq|]. destruct (H3 u Hu) as [H4 H5]. split; [|done]. rewrite lookup_insert_ne; [done|congruence].
    + destruct (F1 g y Hg) as (l & H1 & H2 & H3). exists l. split; [by apply (Hfr _ g y)|]. split; [done|]. intros u Hu. destruct (H3 u Hu) as [H4 H5]. split; [|done]. rewrite lookup_insert_ne; [done|congruence].
  - intros g y [[<- <-]|[Hne Hg]]%lookup_insert_Some; [by left|by apply F2].
  - intros s g [[<- [= <-]]|[Hne Hs]]%lookup_insert_Some.
    + eexists. rewrite lookup_insert_eq. split; [done|]. right. destruct (F1 f x Hf) as (l & H1 & H2 & H3). exists (t :: l). split; [|left]. cbn [chain f_waiters]. rewrite lookup_insert_eq. split; [done|]. split; [done|]. by apply (Hfr _ f x).
    + destruct (F3 s g Hs) as (y & Hy & Hor). destruct (decide (g = f)) as [->|Hgf].
      * assert (y = x) as -> by congruence. eexists. rewrite lookup_insert_eq. split; [done|]. destruct Hor as [[_ ?]|(l & H1 & H2)]; [congruence|]. right. exists (t :: l). split; [|by right]. cbn [chain f_waiters]. rewrite lookup_insert_eq.
        split; [done|]. split; [done|]. apply (Hfr _ f x); [done|done|by apply (Hin f x)].
      * exists y. rewrite lookup_insert_ne by done. split; [done|]. destruct Hor as [?|(l & H1 & H2)]; [by left|right]. exists l. split; [|done]. apply (Hfr _ g y); [done|done|by apply (Hin g y)].
Qed.

Lemma awaken_chain l : forall fuel t w, chain (next w) t l -> (length l < fuel)%nat -> awaken_waiters fuel t w = Normal (set_readyq (readyq w ++ l) w).
Proof.
  induction l as [|u l IH]; intros [|fuel] t w Hc Hf; cbn [chain length awaken_waiters] in *; try lia.
  - subst t. rewrite Z.eqb_refl, app_nil_r. by destruct w.
  - destruct Hc as (-> & Hn & Hc). rewrite (proj2 (Z.eqb_neq u NULL) Hn). rewrite (IH fuel (CthGetNext u w) (CthAwaken u w) Hc) by lia. unfold CthAwaken, set_readyq. cbn. by rewrite <- app_assoc.
Qed.

Lemma waiters_bound (K : gmap Z kont) l : NoDup l -> (forall t, t ∈ l -> is_Some (K !! t)) -> (length l <= size K)%nat.
Proof.
  intros Hn Hl. rewrite <- size_dom, <- (size_list_to_set (C := gset Z) l Hn). apply subseteq_size. intros t Ht%elem_of_list_to_set. apply elem_of_dom. by apply Hl.
Qed.

Lemma future_store fs nx K Q vals f x v l : future_ok fs nx K Q vals -> fs !! f = Some x -> v <> NULL -> chain nx (f_waiters x) l ->
  future_ok (<[f := mk_fut v 1 NULL]> fs) nx K (Q ++ l) (fun g => if g =? f then Some v else vals g).
Proof.
  intros [F1 F2 F3] Hf Hv Hc. destruct (F1 f x Hf) as (l' & H1 & _ & H3). assert (l' = l) as -> by (by apply (chain_same nx _ _ (f_waiters x))). split.
  - intros g y [[<- <-]|[Hne Hg]]%lookup_insert_Some; [exists []; split; [done|]; split; [by apply NoDup_nil|]; intros t Ht; by apply elem_of_nil in Ht|].
    destruct (F1 g y Hg) as (l' & A1 & A2 & A3). exists l'. split; [done|]. split; [done|]. intros t Ht. destruct (A3 t Ht) as [A4 A5]. split; [done|]. intros [?|Htl]%elem_of_app; [done|]. destruct (H3 t Htl). congruence.
  - intros g y [[<- <-]|[Hne Hg]]%lookup_insert_Some; [right; cbn; by rewrite Z.eqb_refl|]. destruct (F2 g y Hg) as [?|?]; [by left|right]. by rewrite (proj2 (Z.eqb_neq g f)).
  - intros t g Hk. destruct (F3 t g Hk) as (y & Hy & Hor). destruct (decide (g = f)) as [->|Hne].
    + assert (y = x) as -> by congruence. eexists. rewrite lookup_insert_eq. split; [done|]. left. split; [|done]. apply elem_of_app. destruct Hor as [[? _]|(l' & A1 & A2)]; [by left|right]. by rewrite (chain_same _ _ _ _ Hc A1).
    + exists y. rewrite lookup_insert_ne by done. split; [done|]. destruct Hor as [[? ?]|?]; [left; split; [apply elem_of_app; by left|done]|by right].
Qed.

Lemma future_create fs nx K Q vals f : future_ok fs nx K Q vals -> fs !! f = None -> future_ok (<[f := mk_fut NULL 0 NULL]> fs) nx K Q vals.
Proof.
  intros [F1 F2 F3] Hf. split.
  - intros g y [[<- <-]|[Hne Hg]]%lookup_insert_Some; [exists []; split; [done|]; split; [by apply NoDup_nil|]; intros t Ht; by apply elem_of_nil in Ht|by apply F1].
  - intros g y [[<- <-]|[Hne Hg]]%lookup_insert_Some; [by left|by apply F2].
  - intros t g Hk. destruct (F3 t g Hk) as (y & Hy & Hor). exists y. rewrite lookup_insert_ne by congruence. done.
Qed.

Lemma future_destroy fs nx K Q vals f : future_ok fs nx K Q vals -> (forall t, K !! t <> Some (KFuture f)) -> future_ok (delete f fs) nx K Q vals.
Proof.
  intros [F1 F2 F3] Hf. split.
  - intros g y [_ Hg]%lookup_delete_Some. by apply F1.
  - intros g y [_ Hg]%lookup_delete_Some. by apply F2.
  - intros t g Hk. destruct (F3 t g Hk) as (y & Hy & Hor). exists y. rewrite lookup_delete_ne; [done|]. intros ->. by apply (Hf t).
Qed.

(** A thread that was awakened at a future gets the value. *)
Lemma future_resume fs nx K Q Q' vals f t : future_ok fs nx K Q vals -> K !! t = Some (KFuture f) -> t ∈ Q -> (forall s, s ∈ Q' <-> s ∈ Q /\ s <> t) ->
  future_ok fs nx (delete t K) Q' vals /\ exists x, fs !! f = Some x /\ f_value x <> NULL /\ vals f = Some (f_value x).
Proof.
  intros [F1 F2 F3] Hk Hq HQ. destruct (F3 t f Hk) as (x & Hx & Hor).
  assert (f_ready x = 1) as Hr by (destruct Hor as [[_ ?]|(l & H1 & H2)]; [done|]; destruct (F1 f x Hx) as (l' & A1 & _ & A3); rewrite (chain_same _ _ _ _ H1 A1) in H2; by destruct (A3 t H2)).
  split; [|exists x; split; [done|]; destruct (F2 f x Hx) as [?|(_ & _ & ? & ?)]; [congruence|done]]. split.
  - intros g y Hg. destruct (F1 g y Hg) as (l & A1 & A2 & A3). exists l. split; [done|]. split; [done|]. intros s Hs. destruct (A3 s Hs) as [A4 A5]. split; [|intros [? _]%HQ; done]. rewrite lookup_delete_ne; [done|]. intros ->. done.
  - done.
  - intros s g [Hne Hs]%lookup_delete_Some. destruct (F3 s g Hs) as (y & Hy & Hor2). exists y. split; [done|]. destruct Hor2 as [[? ?]|?]; [left; split; [apply HQ; split; [done|congruence]|done]|by right].
Qed.

(** A thread that was awakened when [p] exited. *)
Lemma join_resume pts cp K Q Q' exits p t : (forall s k, K !! s = Some k -> s <> NULL) -> join_ok pts cp K Q None exits -> K !! t = Some (KJoin p) -> t ∈ Q -> (forall s, s ∈ Q' <-> s ∈ Q /\ s <> t) ->
  exists x, pts !! p = Some x /\ exits p = Some (pt_joinstatus x) /\ join_ok (delete p pts) cp (delete t K) Q' (Some t) exits.
Proof.
  intros Hnull J Hk Hq HQ. pose proof J as [J1 J2 J3 J4 J5 J6]. destruct (J5 t p Hk) as (x & Hx & Ew & Et). apply Et in Hq. exists x. split; [done|]. split; [by apply J6|].
  assert (forall s k, delete t K !! s = Some k <-> s <> t /\ K !! s = Some k) as Hd by (intros s k; rewrite lookup_delete_Some; naive_solver).
  split.
  - intros q y [_ Hy]%lookup_delete_Some. by apply (J1 q).
  - intros s q [Hst Hs]%Hd. destruct (J2 s q Hs) as (y & Hy & E). exists y. split; [|done]. rewrite lookup_delete_ne; [done|]. intros ->. assert (y = x) as -> by congruence. apply (Hnull s _ Hs). congruence.
  - intros s q Hst Hs. assert (started K None s) as Hst' by (right; destruct Hst as [[= <-]|(k & [_ H1]%Hd & H2)]; [exists (KJoin p); done|by exists k]).
    destruct (J3 s q Hst' Hs) as (y & Hy & E). exists y. split; [|done]. rewrite lookup_delete_ne; [done|]. intros ->. assert (y = x) as -> by congruence. destruct Hst' as [?|(k & Hks & _)]; [done|]. apply (Hnull s _ Hks). congruence.
  - intros q y [Hqp Hy]%lookup_delete_Some Hw. destruct (J4 q y Hy Hw) as [H1 H2]. split; [|done]. apply Hd. split; [|done]. intros E. rewrite E, Hk in H1. congruence.
  - intros s q [Hst Hs]%Hd. destruct (J5 s q Hs) as (y & Hy & E1 & E2). exists y. split; [rewrite lookup_delete_ne; [done|]; intros ->; congruence|]. split; [done|]. rewrite <- E2, HQ. naive_solver.
  - intros q y [_ Hy]%lookup_delete_Some. by apply J6.
Qed.
