(* ===== verification/CpthreadsSpec.v ===== *)
(** * CpthreadsSpec: mutual exclusion, wake-ups, joins and futures

    Every sequence of calls and resumptions of the threads of a processor keeps
    the invariants of [CpthreadsSync] and [CpthreadsJoin]. *)

From S2P Require Import Prelude Cpthreads CpthreadsSync CpthreadsJoin.
#[local] Open Scope Z_scope.
Set Warnings "-clear-no-such-hyp".

(** ** The scheduler queue *)

(** Threads that wait for nothing. *)
Definition is_go (k : kont) : bool := match k with KTop _ | KYield => true | _ => false end.

Record sched_ok (K : gmap Z kont) (Q : list Z) (cur : option Z) : Prop := mk_sched {
  sc_nodup : NoDup Q;
  sc_ready t : t ∈ Q -> is_Some (K !! t);
  sc_cur t : cur = Some t -> K !! t = None /\ t <> NULL;
  sc_null t k : K !! t = Some k -> t <> NULL;
  sc_go t k : K !! t = Some k -> is_go k = true -> t ∈ Q
}.

Lemma sched_awaken K Q cur s : sched_ok K Q cur -> is_Some (K !! s) -> s ∉ Q -> sched_ok K (Q ++ [s]) cur.
Proof.
  intros [S1 S2 S3 S4 S5] Hs Hq. split; [|intros t [?|Ht%list_elem_of_singleton]%elem_of_app; [by apply S2|by subst]|done|done|intros t k Hk Hg; apply elem_of_app; left; by apply (S5 t k)].
  apply NoDup_app. split; [done|]. split; [intros t Ht Hts%list_elem_of_singleton; by subst|apply NoDup_singleton].
Qed.

Lemma sched_awaken_all K cur l : forall Q, sched_ok K Q cur -> NoDup l -> (forall s, s ∈ l -> is_Some (K !! s) /\ s ∉ Q) -> sched_ok K (Q ++ l) cur.
Proof.
  induction l as [|s l IH]; intros Q Hs Hn Hl; [by rewrite app_nil_r|]. apply NoDup_cons in Hn as [Hsl Hn]. destruct (Hl s) as [H1 H2]; [left|].
  replace (Q ++ s :: l) with ((Q ++ [s]) ++ l) by (by rewrite <- app_assoc). apply IH; [by apply sched_awaken|done|]. intros u Hu. destruct (Hl u) as [H3 H4]; [by right|]. split; [done|].
  intros [?|Hus%list_elem_of_singleton]%elem_of_app; [done|]. by subst.
Qed.

Lemma sched_suspend K Q t k : sched_ok K Q (Some t) -> is_go k = false -> sched_ok (<[t := k]> K) Q None.
Proof.
  intros [S1 S2 S3 S4 S5] Hg. split; [done| |done| |].
  - intros s Hs. destruct (decide (s = t)) as [->|Hne]; [rewrite lookup_insert_eq; by eexists|rewrite lookup_insert_ne by done; by apply S2].
  - intros s k' [[<- _]|[_ Hs]]%lookup_insert_Some; [by apply (S3 t)|by apply (S4 s k')].
  - intros s k' [[<- <-]|[_ Hs]]%lookup_insert_Some; [congruence|by apply (S5 s k')].
Qed.

(** A thread that is new or yields is in the queue at once. *)
Lemma sched_enter K Q cur cur' (t : Z) k : sched_ok K Q cur -> K !! t = None -> t <> NULL -> (forall s, cur' = Some s -> cur = Some s /\ s <> t) -> sched_ok (<[t := k]> K) (Q ++ [t]) cur'.
Proof.
  intros [S1 S2 S3 S4 S5] Ht Hn Hc. assert (t ∉ Q) as Hq by (intros Hq; destruct (S2 t Hq) as [k' Hk']; congruence). split.
  - apply NoDup_app. split; [done|]. split; [intros s Hs Hts%list_elem_of_singleton; by subst|apply NoDup_singleton].
  - intros s [Hs|Hs%list_elem_of_singleton]%elem_of_app; [rewrite lookup_insert_ne by (intros ->; done); by apply S2|subst s; rewrite lookup_insert_eq; by eexists].
  - intros s Hs. destruct (Hc s Hs) as [H1 H2]. rewrite lookup_insert_ne by done. by apply S3.
  - intros s k' [[<- _]|[_ Hs]]%lookup_insert_Some; [done|by apply (S4 s k')].
  - intros s k' [[<- _]|[_ Hs]]%lookup_insert_Some Hg; apply elem_of_app; [right; by apply list_elem_of_singleton|left; by apply (S5 s k')].
Qed.

Lemma sched_stop K Q cur : sched_ok K Q cur -> sched_ok K Q None.
Proof. intros []. by split. Qed.

Lemma taken (Q : list Z) i t : NoDup Q -> Q !! i = Some t -> NoDup (delete i Q) /\ forall s, s ∈ delete i Q <-> s ∈ Q /\ s <> t.
Proof.
  intros Hn Hi. pose proof (delete_Permutation Q i t Hi) as Hp. rewrite Hp in Hn. apply NoDup_cons in Hn as [Ht Hn]. split; [done|]. intros s. assert (s ∈ Q <-> s ∈ t :: delete i Q) as -> by (by rewrite <- Hp). rewrite elem_of_cons. split; [intros Hs; split; [by right|]; by intros ->|]. intros [[?|?] ?]; done.
Qed.

Lemma sched_resume K Q i t : sched_ok K Q None -> Q !! i = Some t -> sched_ok (delete t K) (delete i Q) (Some t).
Proof.
  intros [S1 S2 S3 S4 S5] Hi. destruct (taken Q i t S1 Hi) as [Hn HQ]. split; [done| | | |].
  - intros s [H1 H2]%HQ. rewrite lookup_delete_ne by done. by apply S2.
  - intros s [= <-]. split; [apply lookup_delete_eq|]. destruct (S2 t) as [k Hk]; [by apply (list_elem_of_lookup_2 _ i)|]. by apply (S4 t k).
  - intros s k [_ Hs]%lookup_delete_Some. by apply (S4 s k).
  - intros s k [Hne Hs]%lookup_delete_Some Hg. apply HQ. split; [by apply (S5 s k)|by apply not_eq_sym].
Qed.

(** All threads that wait for a condition are awakened. *)
Lemma sync_broadcast P mx K own c us : forall cx Q y, sync_ok P mx cx K Q own -> cx !! c = Some y -> co_users y = us ->
  sync_ok P mx (<[c := mk_cond (co_magic y) (co_onpe y) []]> cx) K (Q ++ us) own.
Proof.
  induction us as [|s us IH]; intros cx Q y S Hc Hu.
  - rewrite app_nil_r. replace (mk_cond (co_magic y) (co_onpe y) []) with y by (destruct y; cbn in *; by subst). by rewrite insert_id.
  - destruct (sync_signal P mx cx K Q own c y s us S Hc Hu) as [_ S']. specialize (IH _ _ (mk_cond (co_magic y) (co_onpe y) us) S' (lookup_insert_eq _ _ _) eq_refl).
    rewrite insert_insert_eq in IH. by rewrite <- app_assoc in IH.
Qed.

Lemma broadcast_spec us : forall w, (forall s, s ∈ us -> s <> NULL) -> broadcast_loop us w = (set_readyq (readyq w ++ us) w, []).
Proof.
  induction us as [|s us IH]; intros w Hn; cbn [broadcast_loop]; [rewrite app_nil_r; by destruct w|]. rewrite (proj2 (Z.eqb_neq s NULL)) by (apply Hn; left). rewrite IH by (intros u Hu; apply Hn; by right).
  unfold CthAwaken, set_readyq. cbn. by rewrite <- app_assoc.
Qed.

(** A new thread starts. *)
Lemma join_top pts cp K Q Q' exits p t : join_ok pts cp K Q None exits -> K !! t = Some (KTop p) -> (forall s, s ∈ Q' <-> s ∈ Q /\ s <> t) -> join_ok pts (<[t := p]> cp) (delete t K) Q' (Some t) exits.
Proof.
  intros [J1 J2 J3 J4 J5 J6] Hk HQ. assert (forall s k, delete t K !! s = Some k <-> s <> t /\ K !! s = Some k) as Hd by (intros s k; rewrite lookup_delete_Some; naive_solver). split; try done.
  - intros s q [_ Hs]%Hd. by apply J2.
  - intros s q Hst. destruct (decide (s = t)) as [->|Hne]; [rewrite lookup_insert_eq; intros [= <-]; by apply J2|]. rewrite lookup_insert_ne by done. apply J3.
    destruct Hst as [?|(k & [_ H1]%Hd & H2)]; [congruence|right; by exists k].
  - intros q y Hy Hw. destruct (J4 q y Hy Hw) as [H1 H2]. split; [|done]. apply Hd. split; [congruence|done].
  - intros s q [Hst Hs]%Hd. destruct (J5 s q Hs) as (y & Hy & E1 & E2). exists y. split; [done|]. split; [done|]. rewrite <- E2, HQ. naive_solver.
Qed.

Lemma join_ext pts cp K Q cur ex ex' : join_ok pts cp K Q cur ex -> (forall p, ex' p = ex p) -> join_ok pts cp K Q cur ex'.
Proof. intros [] He. split; try done. intros p x Hp Ht. rewrite He. by eauto. Qed.

Lemma future_ext fs nx K Q va va' : future_ok fs nx K Q va -> (forall f, va' f = va f) -> future_ok fs nx K Q va'.
Proof. intros [F1 F2 F3] He. split; try done. intros f x Hf. rewrite He. by apply F2. Qed.

Lemma started_suspend K t k s : K !! t = None -> started (<[t := k]> K) None s -> started K (Some t) s.
Proof. intros Hk [?|(k' & [[<- _]|[_ Hs]]%lookup_insert_Some & Hp)]; [done|by left|right; by exists k']. Qed.

Lemma started_resume K t k s : K !! t = Some k -> (forall p, k <> KTop p) -> started (delete t K) (Some t) s -> started K None s.
Proof. intros Hk Hp [[= <-]|(k' & [_ Hs]%lookup_delete_Some & Hp')]; right; [by exists k|by exists k']. Qed.

Section steps.
Context (P : Z).

(** ** Calls that clients may make

    The objects exist; a thread does not lock a mutex it has; mutexes,
    conditions and futures are not destroyed or set up again while threads use
    them; a thread is joined or detached once; new threads and structures are
    new memory; a future is waited for and destroyed on its processor. *)
Definition op_allowed (t : Z) (o : op) (w : world) (own : Z -> option Z) : Prop :=
  match o with
  | OMutexInit m _ => match mutexes w !! m with Some x => mu_users x = [] | None => True end
  | OMutexDestroy m => is_Some (mutexes w !! m) /\ map_Forall (fun _ k => match k with KCond _ m' => m' <> m | _ => True end) (konts w)
  | OLock m => is_Some (mutexes w !! m) /\ own m <> Some t
  | OTrylock m | OUnlock m => is_Some (mutexes w !! m)
  | OCondInit c _ => match conds w !! c with Some y => co_users y = [] | None => True end
  | OCondDestroy c => match conds w !! c with Some y => co_users y = [] | None => False end
  | OWait c m => is_Some (conds w !! c) /\ is_Some (mutexes w !! m)
  | OSignal c | OBroadcast c => is_Some (conds w !! c)
  | OCreate p s _ _ _ _ => pthreads w !! p = None /\ konts w !! s = None /\ s <> NULL /\ s <> t /\ map_Forall (fun _ x => s ∉ mu_users x) (mutexes w)
  | OPush _ _ | OPop _ | OExit _ => is_Some (Cpthread_current w !! t)
  | ODetach p => match pthreads w !! p with Some x => pt_waiting x = NULL | None => False end
  | OJoin p => match pthreads w !! p with Some x => pt_waiting x = NULL /\ pt_detached x = 0 | None => False end
  | OYield => True
  | OFutureCreate f => futures w !! f = None
  | OStore pe f v => pe = P -> is_Some (futures w !! f) /\ v <> NULL
  | OFutureWait pe f => pe = P /\ is_Some (futures w !! f)
  | OFutureDestroy pe f => pe = P /\ is_Some (futures w !! f) /\ map_Forall (fun _ k => k <> KFuture f) (konts w)
  end.

Definition th_allowed (e : event) (w : world) (own : Z -> option Z) : Prop :=
  match e, current w with
  | Run o, Some t => op_allowed t o w own
  | Store f v, None => is_Some (futures w !! f) /\ v <> NULL
  | _, _ => True
  end.

Record inv (w : world) (own ex va : Z -> option Z) : Prop := mk_inv {
  i_sched : sched_ok (konts w) (readyq w) (current w);
  i_sync : sync_ok P (mutexes w) (conds w) (konts w) (readyq w) own;
  i_join : join_ok (pthreads w) (Cpthread_current w) (konts w) (readyq w) (current w) ex;
  i_future : future_ok (futures w) (next w) (konts w) (readyq w) va
}.

(** A step goes well: it does not abort, keeps the invariant, exclusion is not
    violated, and joins and waits get what was given. *)
Definition good (r : outcome (world * list note)) (own ex va : Z -> option Z) : Prop :=
  exists w' ns own' ex' va', r = Normal (w', ns) /\ inv w' own' ex' va' /\
    (forall m, replay m (Some (own m)) ns = Some (own' m)) /\ (forall p, ex' p = fold_left (exit_note p) ns (ex p)) /\ (forall f, va' f = fold_left (store_note f) ns (va f)) /\
    (forall t p v, NJoined t p v ∈ ns -> ex p = Some v /\ ns = [NJoined t p v; NRet t 0]) /\ (forall t f v, NGot t f v ∈ ns -> va f = Some v /\ ns = [NGot t f v; NRet t v]).

Definition quiet (n : note) : Prop := match n with NRet _ _ | NStarted _ _ _ _ | NCleanup _ _ | NSent _ _ _ => True | _ => False end.

Lemma quiet_folds ns own ex va : Forall quiet ns -> (forall m, replay m (Some (own m)) ns = Some (own m)) /\ (forall p, ex p = fold_left (exit_note p) ns (ex p)) /\ (forall f, va f = fold_left (store_note f) ns (va f)) /\
  (forall t p v, NJoined t p v ∈ ns -> ex p = Some v /\ ns = [NJoined t p v; NRet t 0]) /\ (forall t f v, NGot t f v ∈ ns -> va f = Some v /\ ns = [NGot t f v; NRet t v]).
Proof.
  intros Hq. split; [intros m; apply replay_neutral; apply (Forall_impl _ _ _ Hq); by intros []|]. split; [|split; [|split]].
  - intros p. induction Hq as [|n ns Hn Hq IH]; [done|]. cbn [fold_left]. by destruct n.
  - intros f. induction Hq as [|n ns Hn Hq IH]; [done|]. cbn [fold_left]. by destruct n.
  - intros t p v Hin. by apply (proj1 (Forall_forall _ _) Hq) in Hin.
  - intros t p v Hin. by apply (proj1 (Forall_forall _ _) Hq) in Hin.
Qed.

Lemma quiet_notes_good w' ns own ex va : inv w' own ex va -> Forall quiet ns -> good (Normal (w', ns)) own ex va.
Proof. intros I Hq. exists w', ns, own, ex, va. split; [done|]. split; [done|]. by apply quiet_folds. Qed.

Lemma good_acquire w' t m v own ex va : own m = None -> inv w' (update own m (Some t)) ex va -> good (Normal (w', [NAcquired t m; NRet t v])) own ex va.
Proof.
  intros Ho I. exists w', [NAcquired t m; NRet t v], (update own m (Some t)), ex, va. split; [done|]. split; [done|]. split; [|split; [done|split; [done|]]].
  - intros m'. unfold replay, update. cbn [fold_left holder_note]. rewrite (Z.eqb_sym m m'). destruct (Z.eqb_spec m' m) as [->|]; [by rewrite Ho|done].
  - split; intros s p u Hin; repeat apply elem_of_cons in Hin as [[=]|Hin]; by apply elem_of_nil in Hin.
Qed.

Lemma good_release w' t m ns own ex va : own m = Some t -> Forall quiet ns -> inv w' (update own m None) ex va -> good (Normal (w', NReleased t m :: ns)) own ex va.
Proof.
  intros Ho Hq I. destruct (quiet_folds ns (update own m None) ex va Hq) as (Q1 & Q2 & Q3 & Q4 & Q5). exists w', (NReleased t m :: ns), (update own m None), ex, va. split; [done|]. split; [done|]. split; [|split; [done|split; [done|]]].
  - intros m'. rewrite <- (Q1 m'). unfold replay, update. cbn [fold_left holder_note]. rewrite (Z.eqb_sym m m'). destruct (Z.eqb_spec m' m) as [->|]; [by rewrite Ho, decide_True|done].
  - split; intros s p u [[=]|Hin]%elem_of_cons; by apply (proj1 (Forall_forall _ _) Hq) in Hin.
Qed.

Lemma inv_errno w t e own ex va : inv w own ex va -> inv (set_errno t e w) own ex va.
Proof. intros []. by split. Qed.

Lemma errcode_good w t e own ex va : inv w own ex va -> good (wr ← errcode t e w; Normal (settle t wr)) own ex va.
Proof. intros I. apply quiet_notes_good; [by apply inv_errno|]. by repeat constructor. Qed.

(** The mutexes and conditions change, and no thread. *)
Lemma inv_sync_only w own own' ex va mx cx : inv w own ex va -> sync_ok P mx cx (konts w) (readyq w) own' ->
  inv (mk_world mx cx (pthreads w) (futures w) (next w) (konts w) (readyq w) (current w) (Cpthread_current w) (Cpthread_errno w)) own' ex va.
Proof. intros [] S. by split. Qed.

(** The running thread suspends at a mutex or condition. *)
Lemma inv_sync_suspend w t k own own' ex va mx cx : inv w own ex va -> current w = Some t -> is_sync k = true -> sync_ok P mx cx (<[t := k]> (konts w)) (readyq w) own' ->
  inv (mk_world mx cx (pthreads w) (futures w) (next w) (<[t := k]> (konts w)) (readyq w) None (Cpthread_current w) (Cpthread_errno w)) own' ex va.
Proof.
  intros [A B C D] Hc Hk S. destruct (sc_cur _ _ _ A t Hc) as [Ht _]. rewrite Hc in *. split; cbn; [apply sched_suspend; [done|by destruct k]|done| |].
  - apply (join_frame _ _ _ _ _ _ _ _ _ C); [apply same_on_suspend; [done|by destruct k]|]. intros s. by apply started_suspend.
  - apply (future_frame _ _ _ _ _ _ _ D). apply same_on_suspend; [done|by destruct k].
Qed.

(** A thread at a mutex or condition is awakened. *)
Lemma inv_sync_awaken w s k own own' ex va mx cx : inv w own ex va -> konts w !! s = Some k -> is_sync k = true -> s ∉ readyq w -> sync_ok P mx cx (konts w) (readyq w ++ [s]) own' ->
  inv (mk_world mx cx (pthreads w) (futures w) (next w) (konts w) (readyq w ++ [s]) (current w) (Cpthread_current w) (Cpthread_errno w)) own' ex va.
Proof.
  intros [A B C D] Hs Hk Hq S. split; cbn; [by apply sched_awaken|done| |].
  - apply (join_frame _ _ _ _ _ _ _ _ _ C); [|done]. apply same_on_awaken. intros k' Hk'. assert (k' = k) as -> by congruence. by destruct k.
  - apply (future_frame _ _ _ _ _ _ _ D). apply same_on_awaken. intros k' Hk'. assert (k' = k) as -> by congruence. by destruct k.
Qed.

Lemma free_unowned w own ex va m x : inv w own ex va -> mutexes w !! m = Some x -> mu_users x = [] -> own m = None.
Proof. intros I Hm Hu. destruct (own m) as [t|] eqn:E; [|done]. apply (s_own _ _ _ _ _ _ (i_sync _ _ _ _ I) m x t Hm) in E as [E _]. by rewrite Hu in E. Qed.

Lemma current_idle w own ex va t : inv w own ex va -> current w = Some t -> konts w !! t = None /\ (t ∉ readyq w) /\ t <> NULL.
Proof.
  intros I Hc. destruct (sc_cur _ _ _ (i_sched _ _ _ _ I) t Hc) as [H1 H2]. split; [done|]. split; [|done]. intros Hq. destruct (sc_ready _ _ _ (i_sched _ _ _ _ I) t Hq) as [k Hk]. congruence.
Qed.

(** The running thread queues up at a mutex. *)
Lemma enter_good w own ex va t m x : inv w own ex va -> current w = Some t -> mutexes w !! m = Some x -> mu_magic x = MUTEX_MAGIC -> own m <> Some t ->
  good (Normal (settle t (set_mutex m (mk_mutex (mu_magic x) (mu_onpe x) (mu_users x ++ [t])) w, if peek_other t (mu_users x ++ [t]) then Susp (KMutex m) [] else Ret 0 [NAcquired t m]))) own ex va.
Proof.
  intros I Hc Hm Hg Ho. destruct (current_idle w own ex va t I Hc) as (Hk & Hq & Hn). pose proof (i_sync _ _ _ _ I) as S. unfold peek_other. destruct (mu_users x) as [|u us] eqn:Hu; cbn [app].
  - change (default NULL (head [t])) with t. rewrite Z.eqb_refl. cbn [negb settle app]. apply good_acquire; [by apply (free_unowned w own ex va m x)|]. apply (inv_sync_only w own); [done|]. by apply sync_acquire.
  - assert (u <> t) as Hut by (intros ->; apply Ho, (running_users P _ _ _ _ _ m x t S Hm); [by rewrite Hk|rewrite Hu; left]). change (default NULL (head (u :: us ++ [t]))) with u. rewrite (proj2 (Z.eqb_neq u t) Hut). cbn [negb settle]. apply quiet_notes_good; [|constructor].
    apply (inv_sync_suspend w t (KMutex m) own); [done|done|done|]. change (u :: us ++ [t]) with ((u :: us) ++ [t]). rewrite <- Hu. apply sync_block; try done. by rewrite Hu.
Qed.

Lemma lock_good w own ex va t m : inv w own ex va -> current w = Some t -> is_Some (mutexes w !! m) -> own m <> Some t -> good (wr ← Cpthread_mutex_lock P t m w; Normal (settle t wr)) own ex va.
Proof.
  intros I Hc [x Hm] Ho. unfold Cpthread_mutex_lock, find. rewrite Hm. cbn [mbind outcome_bind]. destruct (Z.eqb_spec (mu_magic x) MUTEX_MAGIC) as [Hg|]; cbn [negb]; [|by apply errcode_good].
  rewrite (s_pe _ _ _ _ _ _ (i_sync _ _ _ _ I) m x Hm Hg), Z.eqb_refl. cbn [negb mbind outcome_bind]. rewrite <- (s_pe _ _ _ _ _ _ (i_sync _ _ _ _ I) m x Hm Hg). by apply enter_good.
Qed.

Lemma trylock_good w own ex va t m : inv w own ex va -> current w = Some t -> is_Some (mutexes w !! m) -> good (wr ← Cpthread_mutex_trylock P t m w; Normal (settle t wr)) own ex va.
Proof.
  intros I Hc [x Hm]. unfold Cpthread_mutex_trylock, find. rewrite Hm. cbn [mbind outcome_bind]. destruct (Z.eqb_spec (mu_magic x) MUTEX_MAGIC) as [Hg|]; cbn [negb]; [|by apply errcode_good].
  rewrite (s_pe _ _ _ _ _ _ (i_sync _ _ _ _ I) m x Hm Hg), Z.eqb_refl. cbn [negb]. destruct (mu_users x) as [|u us] eqn:Hu; [|by apply errcode_good]. cbn [mbind outcome_bind settle app].
  rewrite <- (s_pe _ _ _ _ _ _ (i_sync _ _ _ _ I) m x Hm Hg). apply good_acquire; [by apply (free_unowned w own ex va m x)|]. apply (inv_sync_only w own); [done|]. apply sync_acquire; try done; [apply I|]. by apply (current_idle w own ex va).
Qed.

(** A mutex is given up by its holder. *)
Lemma release_inv w own ex va t m x : inv w own ex va -> current w = Some t -> mutexes w !! m = Some x -> peek_other t (mu_users x) = false -> own m = Some t /\ inv (release m x w) (update own m None) ex va.
Proof.
  intros I Hc Hm Hp. destruct (current_idle w own ex va t I Hc) as (Hk & Hq & Hn). unfold peek_other in Hp. apply negb_false_iff, Z.eqb_eq in Hp. destruct (mu_users x) as [|u us] eqn:Hu; [by subst|]. change (default NULL (head (u :: us))) with u in Hp. subst u.
  destruct (sync_release P _ _ _ _ _ m x t us (i_sync _ _ _ _ I) Hm Hu Hk) as [Ho S]. split; [done|]. unfold release. rewrite Hu. cbn [tail]. destruct us as [|s us]; [by apply (inv_sync_only w own)|].
  destruct (s_tail _ _ _ _ _ _ (i_sync _ _ _ _ I) m x s Hm) as [Hs Hsq]; [rewrite Hu; left|]. rewrite (proj2 (Z.eqb_neq s NULL)) by (by apply (sc_null _ _ _ (i_sched _ _ _ _ I) s _ Hs)). cbn [negb].
  by apply (inv_sync_awaken w s (KMutex m) own).
Qed.

Lemma unlock_good w own ex va t m : inv w own ex va -> current w = Some t -> is_Some (mutexes w !! m) -> good (wr ← Cpthread_mutex_unlock P t m w; Normal (settle t wr)) own ex va.
Proof.
  intros I Hc [x Hm]. unfold Cpthread_mutex_unlock, find. rewrite Hm. cbn [mbind outcome_bind]. destruct (Z.eqb_spec (mu_magic x) MUTEX_MAGIC) as [Hg|]; cbn [negb]; [|by apply errcode_good].
  rewrite (s_pe _ _ _ _ _ _ (i_sync _ _ _ _ I) m x Hm Hg), Z.eqb_refl. cbn [negb]. destruct (peek_other t (mu_users x)) eqn:Hp; [by apply errcode_good|]. cbn [mbind outcome_bind settle app].
  destruct (release_inv w own ex va t m x I Hc Hm Hp) as [Ho I']. apply good_release; [done|by repeat constructor|done].
Qed.

Lemma wait_good w own ex va t c m : inv w own ex va -> current w = Some t -> is_Some (conds w !! c) -> is_Some (mutexes w !! m) -> good (wr ← Cpthread_cond_wait P t c m w; Normal (settle t wr)) own ex va.
Proof.
  intros I Hc [y Hy] [x Hm]. unfold Cpthread_cond_wait, find. rewrite Hy, Hm. cbn [mbind outcome_bind]. destruct (Z.eqb_spec (co_magic y) COND_MAGIC) as [Hcg|]; cbn [negb]; [|by apply errcode_good].
  destruct (Z.eqb_spec (mu_magic x) MUTEX_MAGIC) as [Hg|]; cbn [negb]; [|by apply errcode_good].
  rewrite (s_pe _ _ _ _ _ _ (i_sync _ _ _ _ I) m x Hm Hg), (s_cpe _ _ _ _ _ _ (i_sync _ _ _ _ I) c y Hy Hcg), Z.eqb_refl. cbn [negb]. destruct (peek_other t (mu_users x)) eqn:Hp; [by apply errcode_good|]. cbn [mbind outcome_bind settle].
  destruct (release_inv w own ex va t m x I Hc Hm Hp) as [Ho I']. apply good_release; [done|constructor|]. set (w1 := release m x w) in *.
  assert (current w1 = Some t /\ conds w1 = conds w) as [Hc1 Hy1] by (unfold w1, release; destruct (tail (mu_users x)); [done|]; destruct (negb _); done).
  destruct (current_idle w1 _ ex va t I' Hc1) as (Hk1 & Hq1 & _). rewrite <- (s_cpe _ _ _ _ _ _ (i_sync _ _ _ _ I) c y Hy Hcg).
  apply (inv_sync_suspend w1 t (KCond c m) _ _ _ _ (mutexes w1) (<[c := mk_cond (co_magic y) (co_onpe y) (co_users y ++ [t])]> (conds w1)) I' Hc1 eq_refl).
  assert (mutexes w1 !! m = Some (mk_mutex (mu_magic x) (mu_onpe x) (tail (mu_users x)))) as Hm1 by (unfold w1, release; destruct (tail (mu_users x)); [apply lookup_insert_eq|]; destruct (negb _); apply lookup_insert_eq).
  refine (sync_wait P _ _ _ _ _ c y m _ t (i_sync _ _ _ _ I') _ Hm1 Hg Hk1 Hq1 _); [by rewrite Hy1|by rewrite update_eq].
Qed.

Lemma signal_good w own ex va t c : inv w own ex va -> is_Some (conds w !! c) -> good (wr ← Cpthread_cond_signal P t c w; Normal (settle t wr)) own ex va.
Proof.
  intros I [y Hy]. unfold Cpthread_cond_signal, find. rewrite Hy. cbn [mbind outcome_bind]. destruct (Z.eqb_spec (co_magic y) COND_MAGIC) as [Hg|]; cbn [negb]; [|by apply errcode_good].
  rewrite (s_cpe _ _ _ _ _ _ (i_sync _ _ _ _ I) c y Hy Hg), Z.eqb_refl. cbn [negb mbind outcome_bind settle app]. rewrite <- (s_cpe _ _ _ _ _ _ (i_sync _ _ _ _ I) c y Hy Hg).
  apply quiet_notes_good; [|by repeat constructor]. destruct (co_users y) as [|s us] eqn:Hu; [done|]. destruct (sync_signal P _ _ _ _ _ c y s us (i_sync _ _ _ _ I) Hy Hu) as [Hq S].
  destruct (s_cuser _ _ _ _ _ _ (i_sync _ _ _ _ I) c y s Hy) as [[m Hs] _]; [rewrite Hu; left|]. rewrite (proj2 (Z.eqb_neq s NULL)) by (by apply (sc_null _ _ _ (i_sched _ _ _ _ I) s _ Hs)). cbn [negb tail].
  by apply (inv_sync_awaken w s (KCond c m) own).
Qed.

Lemma broadcast_good w own ex va t c : inv w own ex va -> is_Some (conds w !! c) -> good (wr ← Cpthread_cond_broadcast P t c w; Normal (settle t wr)) own ex va.
Proof.
  intros I [y Hy]. unfold Cpthread_cond_broadcast, find. rewrite Hy. cbn [mbind outcome_bind]. destruct (Z.eqb_spec (co_magic y) COND_MAGIC) as [Hg|]; cbn [negb]; [|by apply errcode_good].
  rewrite (s_cpe _ _ _ _ _ _ (i_sync _ _ _ _ I) c y Hy Hg), Z.eqb_refl. cbn [negb]. assert (forall s, s ∈ co_users y -> exists m, konts w !! s = Some (KCond c m) /\ s ∉ readyq w) as Hs.
  { intros s Hs. destruct (s_cuser _ _ _ _ _ _ (i_sync _ _ _ _ I) c y s Hy Hs) as [[m H1] H2]. by exists m. }
  rewrite broadcast_spec by (intros s Hin; destruct (Hs s Hin) as (m & H1 & _); by apply (sc_null _ _ _ (i_sched _ _ _ _ I) s _ H1)). cbn [mbind outcome_bind settle app]. rewrite <- (s_cpe _ _ _ _ _ _ (i_sync _ _ _ _ I) c y Hy Hg).
  apply quiet_notes_good; [|by repeat constructor]. pose proof (sync_broadcast P _ _ _ c (co_users y) _ _ y (i_sync _ _ _ _ I) Hy eq_refl) as S. destruct I as [A B C D].
  assert (forall f, (forall m, f (KCond c m) = false) -> same_on f (konts w) (konts w) (readyq w) (readyq w ++ co_users y)) as Hf.
  { intros f Hf u k Hfk. split; [done|]. intros Hk. rewrite elem_of_app. split; [|by left]. intros [?|Hu]; [done|]. destruct (Hs u Hu) as (m & H1 & _). assert (k = KCond c m) as -> by congruence. by rewrite Hf in Hfk. }
  split; cbn; [|exact S| |].
  - apply sched_awaken_all; [done|by apply (s_cnodup _ _ _ _ _ _ B c y)|]. intros s Hin. destruct (Hs s Hin) as (m & H1 & H2). split; [by eexists|done].
  - apply (join_frame _ _ _ _ _ _ _ _ _ C); [by apply Hf|done].
  - apply (future_frame _ _ _ _ _ _ _ D). by apply Hf.
Qed.

(** The thread structures change, and no thread. *)
Lemma inv_pthreads w own ex va pts : inv w own ex va -> join_ok pts (Cpthread_current w) (konts w) (readyq w) (current w) ex -> inv (set_pthreads pts w) own ex va.
Proof. intros [] J. by split. Qed.
Lemma inv_futures w own ex va fs : inv w own ex va -> future_ok fs (next w) (konts w) (readyq w) va -> inv (set_futures fs w) own ex va.
Proof. intros [] F. by split. Qed.

Lemma setup_good w own ex va t o : inv w own ex va -> op_allowed t o w own -> match o with OMutexInit _ _ | OMutexDestroy _ | OCondInit _ _ | OCondDestroy _ => True | _ => False end ->
  good (wr ← run_op P t o w; Normal (settle t wr)) own ex va.
Proof.
  intros I Ha Ho. pose proof (i_sync _ _ _ _ I) as S. destruct o as [m g|m|m|m|m|c g|c| | | | | | | | | | | | | |]; try done; cbn [run_op op_allowed] in *.
  - unfold Cpthread_mutex_init. destruct (Z.eqb_spec g MATTR_MAGIC); cbn [negb]; [|by apply errcode_good]. apply quiet_notes_good; [|by repeat constructor]. apply (inv_sync_only w own); [done|]. apply sync_reset_mutex; [done| |done]. intros x Hx. by rewrite Hx in Ha.
  - destruct Ha as [[x Hm] Hw]. unfold Cpthread_mutex_destroy, find. rewrite Hm. cbn [mbind outcome_bind]. destruct (Z.eqb_spec (mu_magic x) MUTEX_MAGIC) as [Hg|]; cbn [negb]; [|by apply errcode_good].
    rewrite (s_pe _ _ _ _ _ _ S m x Hm Hg), Z.eqb_refl. cbn [negb]. destruct (mu_users x) eqn:Hu; [|by apply errcode_good]. apply quiet_notes_good; [|by repeat constructor].
    apply (inv_sync_only w own); [done|]. apply sync_reset_mutex; [done|intros x' Hx'; congruence|]. intros _ s c Hs. by apply (Hw s (KCond c m) Hs).
  - unfold Cpthread_cond_init. destruct (Z.eqb_spec g CATTR_MAGIC); cbn [negb]; [|by apply errcode_good]. apply quiet_notes_good; [|by repeat constructor]. apply (inv_sync_only w own); [done|]. apply sync_reset_cond; [done|]. intros y Hy. by rewrite Hy in Ha.
  - destruct (conds w !! c) as [y|] eqn:Hy; [|done]. rename Ha into Hu. unfold Cpthread_cond_destroy, find. rewrite Hy. cbn [mbind outcome_bind]. destruct (Z.eqb_spec (co_magic y) COND_MAGIC) as [Hg|]; cbn [negb]; [|by apply errcode_good].
    rewrite (s_cpe _ _ _ _ _ _ S c y Hy Hg), Z.eqb_refl. cbn [negb]. apply quiet_notes_good; [|by repeat constructor]. apply (inv_sync_only w own); [done|]. apply sync_reset_cond; [done|]. intros y' Hy'. congruence.
Qed.

Lemma create_good w own ex va (t p s g d fn arg : Z) : inv w own ex va -> pthreads w !! p = None -> konts w !! s = None -> s <> NULL -> s <> t -> current w = Some t ->
  good (wr ← Cpthread_create t p s g d fn arg w; Normal (settle t wr)) own ex va.
Proof.
  intros I Hp Hk Hn Hst Hc. unfold Cpthread_create. destruct (Z.eqb_spec g ATTR_MAGIC); cbn [negb]; [|by apply errcode_good]. apply quiet_notes_good; [|by repeat constructor].
  assert (s ∉ readyq w) as Hq by (intros Hq; destruct (sc_ready _ _ _ (i_sched _ _ _ _ I) s Hq) as [k Hk']; congruence). destruct I as [A B C D].
  assert (forall f, f (KTop p) = false -> same_on f (konts w) (<[s := KTop p]> (konts w)) (readyq w) (readyq w ++ [s])) as Hf.
  { intros f Hf. apply (same_on_trans _ _ (<[s := KTop p]> (konts w)) _ _ (readyq w)); [by apply same_on_suspend|]. apply same_on_awaken. rewrite lookup_insert_eq. by intros k [= <-]. }
  split; cbn.
  - apply (sched_enter _ _ (Some t)); [by rewrite <- Hc|done|done|]. intros u Hu. split; [congruence|]. intros ->. congruence.
  - apply (sync_frame P _ _ _ _ _ _ _ B). by apply Hf.
  - by apply join_create.
  - apply (future_frame _ _ _ _ _ _ _ D). by apply Hf.
Qed.

Lemma self_pthread w own ex va t : inv w own ex va -> current w = Some t -> is_Some (Cpthread_current w !! t) -> exists p x, Cpthread_current w !! t = Some p /\ pthreads w !! p = Some x /\ pt_thread x = t.
Proof. intros I Hc [p Hp]. destruct (j_cur _ _ _ _ _ _ (i_join _ _ _ _ I) t p) as (x & Hx & E); [by left|done|]. by exists p, x. Qed.

Lemma cleanup_good w own ex va t o : inv w own ex va -> current w = Some t -> is_Some (Cpthread_current w !! t) -> match o with OPush _ _ | OPop _ => True | _ => False end ->
  good (wr ← run_op P t o w; Normal (settle t wr)) own ex va.
Proof.
  intros I Hc Hs Ho. destruct (self_pthread w own ex va t I Hc Hs) as (p & x & Hp & Hx & _). pose proof (i_join _ _ _ _ I) as J.
  destruct o as [| | | | | | | | | | |r a|e| | | | | | | |]; try done; cbn [run_op]; unfold Cpthread_cleanup_push, Cpthread_cleanup_pop, find; rewrite Hp; cbn [mbind outcome_bind]; rewrite Hx; cbn [mbind outcome_bind settle].
  - apply quiet_notes_good; [|by repeat constructor]. apply inv_pthreads; [done|]. apply (join_update _ _ _ _ _ _ p x _ J Hx); try done. by left.
  - destruct (pt_cleanups x) as [|[r a] cs]; [by apply quiet_notes_good; [|repeat constructor]|]. cbn [mbind outcome_bind settle]. apply quiet_notes_good; [|destruct e; by repeat constructor].
    apply inv_pthreads; [done|]. apply (join_update _ _ _ _ _ _ p x _ J Hx); try done. by left.
Qed.

(** The running thread is gone. *)
Lemma exit_good w own ex va t v : inv w own ex va -> current w = Some t -> is_Some (Cpthread_current w !! t) -> good (wr ← Cpthread_exit t v w; Normal (settle t wr)) own ex va.
Proof.
  intros I Hc Hs. destruct (self_pthread w own ex va t I Hc Hs) as (p & x & Hp & Hx & Et). destruct (current_idle w own ex va t I Hc) as (Hk & Hq & Hn). unfold Cpthread_exit, find. rewrite Hp. cbn [mbind outcome_bind]. rewrite Hx. cbn [mbind outcome_bind].
  assert (Forall quiet ((fun c => NCleanup c.1 c.2) <$> pt_cleanups x)) as Hqu by (apply Forall_fmap, Forall_true; done). set (cl := (fun c => NCleanup c.1 c.2) <$> pt_cleanups x) in *.
  pose proof I as [A B C D]. rewrite Hc in *. destruct (Z.eqb_spec (pt_detached x) 0) as [Hd|Hd]; cbn [negb mbind outcome_bind settle].
  - set (Q' := if negb (pt_waiting x =? NULL) then readyq w ++ [pt_waiting x] else readyq w). pose proof (join_exit _ _ _ _ t ex p x v (sc_null _ _ _ A) C Hp Hx Hk) as J. fold Q' in J.
    assert (forall f, (forall q, f (KJoin q) = false) -> same_on f (konts w) (konts w) (readyq w) Q') as Hf.
    { intros f Hf. unfold Q'. destruct (Z.eqb_spec (pt_waiting x) NULL) as [|Hw]; cbn [negb]; [apply same_on_refl|]. apply same_on_awaken. intros k Hk'. destruct (j_wait _ _ _ _ _ _ C p x Hx Hw) as [E _]. rewrite E in Hk'. by injection Hk' as <-. }
    assert (sched_ok (konts w) Q' None) as A'.
    { unfold Q'. apply sched_stop in A. destruct (Z.eqb_spec (pt_waiting x) NULL) as [|Hw]; cbn [negb]; [done|]. destruct (j_wait _ _ _ _ _ _ C p x Hx Hw) as [E _]. apply sched_awaken; [done|by eexists|].
      destruct (j_join _ _ _ _ _ _ C _ p E) as (y & Hy & _ & Hiff). assert (y = x) as -> by congruence. intros Hin. apply Hiff in Hin. congruence. }
    destruct (quiet_folds cl own ex va Hqu) as (Q1 & Q2 & Q3 & Q4 & Q5).
    eexists _, _, own, (fun q => if q =? p then Some v else ex q), va. split; [reflexivity|]. split.
    { assert (forall u, (if negb (pt_waiting x =? NULL) then CthAwaken (pt_waiting x) u else u) = set_readyq (if negb (pt_waiting x =? NULL) then readyq u ++ [pt_waiting x] else readyq u) u) as -> by (intros u; destruct (negb _); [done|by destruct u]).
      split; cbn; fold Q'; [done|apply (sync_frame P _ _ _ _ _ _ _ B); by apply Hf|done|apply (future_frame _ _ _ _ _ _ _ D); by apply Hf]. }
    split; [intros m; rewrite replay_app, Q1; done|]. split; [intros q; rewrite fold_left_app, <- Q2; cbn; by rewrite (Z.eqb_sym p q)|]. split; [intros f; rewrite fold_left_app, <- Q3; done|].
    split; intros s q u [Hin|Hin]%elem_of_app; [by apply (proj1 (Forall_forall _ _) Hqu) in Hin|by apply list_elem_of_singleton in Hin|by apply (proj1 (Forall_forall _ _) Hqu) in Hin|by apply list_elem_of_singleton in Hin].
  - apply quiet_notes_good; [|done]. split; cbn; [by apply (sched_stop _ _ (Some t))|done| |done].
    assert (join_ok (pthreads w) (Cpthread_current w) (konts w) (readyq w) None ex) as C' by (apply (join_frame _ _ _ _ _ _ _ _ _ C); [apply same_on_refl|intros s [?|?]; [done|by right]]).
    apply (join_delete _ _ _ _ _ _ p x C' Hx).
    + intros s Hs'. destruct (j_join _ _ _ _ _ _ C s p Hs') as (y & Hy & Ew & _). assert (y = x) as -> by congruence. destruct (j_wait _ _ _ _ _ _ C p x Hx) as [_ ?]; [rewrite Ew; by apply (sc_null _ _ _ A s _ Hs')|done].
    + intros s [?|(k & Hks & _)]; [done|]. congruence.
    + intros s Hs'. destruct (j_top _ _ _ _ _ _ C s p Hs') as (y & Hy & E). congruence.
Qed.

Lemma detach_good w own ex va t p x : inv w own ex va -> pthreads w !! p = Some x -> pt_waiting x = NULL -> current w = Some t -> good (wr ← Cpthread_detach t p w; Normal (settle t wr)) own ex va.
Proof.
  intros I Hx Hw Hc. pose proof (i_join _ _ _ _ I) as J. unfold Cpthread_detach, find. rewrite Hx. cbn [mbind outcome_bind]. rewrite (j_magic _ _ _ _ _ _ J p x Hx), Z.eqb_refl. cbn [negb].
  destruct (Z.eqb_spec (pt_thread x) NULL) as [Ht|Ht]; (apply quiet_notes_good; [|by repeat constructor]); apply inv_pthreads; try done.
  - apply (join_delete _ _ _ _ _ _ p x J Hx).
    + intros s Hs. destruct (j_join _ _ _ _ _ _ J s p Hs) as (y & Hy & Ew & _). assert (y = x) as -> by congruence. apply (sc_null _ _ _ (i_sched _ _ _ _ I) s _ Hs). congruence.
    + intros s [Hs|(k & Hs & _)] E; [apply (sc_cur _ _ _ (i_sched _ _ _ _ I)) in Hs as [_ Hs]; apply Hs; congruence|]. apply (sc_null _ _ _ (i_sched _ _ _ _ I) s _ Hs). congruence.
    + intros s Hs. destruct (j_top _ _ _ _ _ _ J s p Hs) as (y & Hy & E). apply (sc_null _ _ _ (i_sched _ _ _ _ I) s _ Hs). congruence.
  - rewrite <- (j_magic _ _ _ _ _ _ J p x Hx). apply (join_update _ _ _ _ _ _ p x _ J Hx); try done. by right.
Qed.

(** A status that was given is handed over. *)
Lemma good_joined w' t p v own ex va : ex p = Some v -> inv w' own ex va -> good (Normal (w', [NJoined t p v; NRet t 0])) own ex va.
Proof.
  intros He I. exists w', [NJoined t p v; NRet t 0], own, ex, va. split; [done|]. split; [done|]. split; [done|]. split; [done|]. split; [done|]. split.
  - intros s q u [[= -> -> ->]|Hin]%elem_of_cons; [done|]. apply elem_of_cons in Hin as [[=]|Hin]. by apply elem_of_nil in Hin.
  - intros s q u Hin. repeat apply elem_of_cons in Hin as [[=]|Hin]. by apply elem_of_nil in Hin.
Qed.

Lemma good_got w' t f v own ex va : va f = Some v -> inv w' own ex va -> good (Normal (w', [NGot t f v; NRet t v])) own ex va.
Proof.
  intros He I. exists w', [NGot t f v; NRet t v], own, ex, va. split; [done|]. split; [done|]. split; [done|]. split; [done|]. split; [done|]. split.
  - intros s q u Hin. repeat apply elem_of_cons in Hin as [[=]|Hin]. by apply elem_of_nil in Hin.
  - intros s q u [[= -> -> ->]|Hin]%elem_of_cons; [done|]. apply elem_of_cons in Hin as [[=]|Hin]. by apply elem_of_nil in Hin.
Qed.

Lemma join_good w own ex va t p x : inv w own ex va -> pthreads w !! p = Some x -> pt_waiting x = NULL -> pt_detached x = 0 -> current w = Some t -> good (wr ← Cpthread_join t p w; Normal (settle t wr)) own ex va.
Proof.
  intros I Hx Hw Hd Hc. pose proof (i_join _ _ _ _ I) as J. destruct (current_idle w own ex va t I Hc) as (Hk & Hq & Hn). unfold Cpthread_join, find. rewrite Hx. cbn [mbind outcome_bind]. rewrite (j_magic _ _ _ _ _ _ J p x Hx), Z.eqb_refl. cbn [negb].
  destruct (Z.eqb_spec (pt_thread x) NULL) as [Ht|Ht]; cbn [negb].
  - unfold join_rest, find. rewrite Hx. cbn [mbind outcome_bind settle app]. apply good_joined; [by apply (j_exit _ _ _ _ _ _ J)|]. apply inv_pthreads; [done|]. apply (join_delete _ _ _ _ _ _ p x J Hx).
    + intros s Hs. destruct (j_join _ _ _ _ _ _ J s p Hs) as (y & Hy & Ew & _). assert (y = x) as -> by congruence. apply (sc_null _ _ _ (i_sched _ _ _ _ I) s _ Hs). congruence.
    + intros s [Hs|(k & Hs & _)] E; [apply (sc_cur _ _ _ (i_sched _ _ _ _ I)) in Hs as [_ Hs]; apply Hs; congruence|]. apply (sc_null _ _ _ (i_sched _ _ _ _ I) s _ Hs). congruence.
    + intros s Hs. destruct (j_top _ _ _ _ _ _ J s p Hs) as (y & Hy & E). apply (sc_null _ _ _ (i_sched _ _ _ _ I) s _ Hs). congruence.
  - cbn [mbind outcome_bind settle]. apply quiet_notes_good; [|constructor]. destruct I as [A B C D]. rewrite Hc in *. rewrite <- (j_magic _ _ _ _ _ _ J p x Hx). split; cbn.
    + by apply sched_suspend.
    + apply (sync_frame P _ _ _ _ _ _ _ B). by apply same_on_suspend.
    + apply join_suspend; try done. apply (sc_null _ _ _ A).
    + apply (future_frame _ _ _ _ _ _ _ D). by apply same_on_suspend.
Qed.

Lemma yield_good w own ex va t : inv w own ex va -> current w = Some t -> good (wr ← CthYield t w; Normal (settle t wr)) own ex va.
Proof.
  intros I Hc. destruct (current_idle w own ex va t I Hc) as (Hk & Hq & Hn). apply quiet_notes_good; [|constructor]. destruct I as [A B C D]. rewrite Hc in *.
  assert (forall f, f KYield = false -> same_on f (konts w) (<[t := KYield]> (konts w)) (readyq w) (readyq w ++ [t])) as Hf.
  { intros f Hf. apply (same_on_trans _ _ (<[t := KYield]> (konts w)) _ _ (readyq w)); [by apply same_on_suspend|]. apply same_on_awaken. rewrite lookup_insert_eq. by intros k [= <-]. }
  split; cbn.
  - by apply (sched_enter _ _ (Some t)).
  - apply (sync_frame P _ _ _ _ _ _ _ B). by apply Hf.
  - apply (join_frame _ _ _ _ _ _ _ _ _ C); [by apply Hf|]. intros s. by apply started_suspend.
  - apply (future_frame _ _ _ _ _ _ _ D). by apply Hf.
Qed.

(** A value is stored in a future, and its waiters are awakened. *)
Lemma store_inv w own ex va f (v : Z) : inv w own ex va -> is_Some (futures w !! f) -> v <> NULL -> exists w', CfutureAwaken f v w = Normal w' /\ current w' = current w /\ inv w' own ex (fun g => if g =? f then Some v else va g).
Proof.
  intros [A B C D] [x Hx] Hv. destruct (fu_chain _ _ _ _ _ D f x Hx) as (l & H1 & H2 & H3). unfold CfutureAwaken, find. rewrite Hx. cbn [mbind outcome_bind].
  rewrite (awaken_chain l); [|done|]. 2:{ cbn [konts set_futures]. pose proof (waiters_bound (konts w) l H2) as Hb. assert (length l <= size (konts w))%nat by (apply Hb; intros t Ht; destruct (H3 t Ht) as [E _]; by eexists). lia. }
  cbn [mbind outcome_bind]. eexists. split; [reflexivity|]. split; [done|].
  assert (forall g, (forall q, g (KFuture q) = false) -> same_on g (konts w) (konts w) (readyq w) (readyq w ++ l)) as Hf.
  { intros g Hg u k Hfk. split; [done|]. intros Hk. rewrite elem_of_app. split; [|by left]. intros [?|Hu]; [done|]. destruct (H3 u Hu) as [E _]. assert (k = KFuture f) as -> by congruence. by rewrite Hg in Hfk. }
  split; cbn.
  - apply sched_awaken_all; [done|done|]. intros s Hs. destruct (H3 s Hs) as [E1 E2]. split; [by eexists|done].
  - apply (sync_frame P _ _ _ _ _ _ _ B). by apply Hf.
  - apply (join_frame _ _ _ _ _ _ _ _ _ C); [by apply Hf|done].
  - rewrite insert_insert_eq. by apply (future_store _ _ _ _ _ f x).
Qed.

Lemma good_stored w' f v ns own ex va : Forall quiet ns -> inv w' own ex (fun g => if g =? f then Some v else va g) -> good (Normal (w', NStored f v :: ns)) own ex va.
Proof.
  intros Hq I. destruct (quiet_folds ns own ex (fun g => if g =? f then Some v else va g) Hq) as (Q1 & Q2 & Q3 & Q4 & Q5).
  exists w', (NStored f v :: ns), own, ex, (fun g => if g =? f then Some v else va g). split; [done|]. split; [done|]. split; [intros m; apply Q1|]. split; [intros p; apply Q2|].
  split; [intros g; rewrite (Q3 g) at 1; cbn [fold_left store_note]; by rewrite (Z.eqb_sym f g)|]. split; intros s p u [[=]|Hin]%elem_of_cons; by apply (proj1 (Forall_forall _ _) Hq) in Hin.
Qed.

Lemma future_wait_good w own ex va t f : inv w own ex va -> current w = Some t -> is_Some (futures w !! f) -> good (wr ← CfutureWait P t P f w; Normal (settle t wr)) own ex va.
Proof.
  intros I Hc [x Hx]. destruct (current_idle w own ex va t I Hc) as (Hk & Hq & Hn). unfold CfutureWait, find. rewrite Z.eqb_refl. cbn [negb]. rewrite Hx. cbn [mbind outcome_bind].
  destruct (fu_ready _ _ _ _ _ (i_future _ _ _ _ I) f x Hx) as [Hr|(Hr & Hw & Hv & Hva)]; rewrite Hr; cbn [Z.eqb].
  - cbn [mbind outcome_bind settle]. apply quiet_notes_good; [|constructor]. destruct I as [A B C D]. rewrite Hc in *. split; cbn.
    + by apply sched_suspend.
    + apply (sync_frame P _ _ _ _ _ _ _ B). by apply same_on_suspend.
    + apply (join_frame _ _ _ _ _ _ _ _ _ C); [by apply same_on_suspend|]. intros s. by apply started_suspend.
    + rewrite <- Hr. by apply future_suspend.
  - unfold future_rest, find. rewrite Hx. cbn [mbind outcome_bind]. rewrite (proj2 (Z.eqb_neq _ _) Hv). cbn [mbind outcome_bind settle app]. by apply good_got.
Qed.

Lemma run_good w own ex va t o : inv w own ex va -> current w = Some t -> op_allowed t o w own -> good (wr ← run_op P t o w; Normal (settle t wr)) own ex va.
Proof.
  intros I Hc Ha. destruct o as [m g|m|m|m|m|c g|c|c m|c|c|p s g d fn arg|r a|e|v|p|p| |f|pe f v|pe f|pe f]; try (by apply setup_good); try (by apply cleanup_good); cbn [run_op op_allowed] in *.
  - destruct Ha as [H1 H2]. by apply lock_good.
  - by apply trylock_good.
  - by apply unlock_good.
  - destruct Ha as [H1 H2]. by apply wait_good.
  - by apply signal_good.
  - by apply broadcast_good.
  - destruct Ha as (H1 & H2 & H3 & H4 & _). by apply create_good.
  - by apply exit_good.
  - destruct (pthreads w !! p) as [x|] eqn:Hx; [|done]. by apply (detach_good _ _ _ _ _ _ x).
  - destruct (pthreads w !! p) as [x|] eqn:Hx; [|done]. destruct Ha as [Hw Hd]. by apply (join_good _ _ _ _ _ _ x).
  - by apply yield_good.
  - apply quiet_notes_good; [|by repeat constructor]. apply inv_futures; [done|]. by apply future_create; [apply I|].
  - unfold CfutureStoreBuffer. destruct (Z.eqb_spec pe P) as [Hpe|]; [|apply quiet_notes_good; [done|by repeat constructor]]. destruct (Ha Hpe) as [Hf Hv]. destruct (store_inv w own ex va f v I Hf Hv) as (w' & E & _ & I'). rewrite E. cbn [mbind outcome_bind settle app]. apply good_stored; [by repeat constructor|done].
  - destruct Ha as [-> Hf]. by apply future_wait_good.
  - destruct Ha as (-> & [x Hx] & Hn). unfold CfutureDestroy, find. rewrite Z.eqb_refl. cbn [negb]. rewrite Hx. cbn [mbind outcome_bind]. destruct (fu_chain _ _ _ _ _ (i_future _ _ _ _ I) f x Hx) as (l & H1 & _ & H3).
    assert (f_waiters x = NULL) as -> by (destruct l as [|u l]; [done|]; destruct (H3 u) as [E _]; [left|]; by destruct (Hn u _ E)). rewrite Z.eqb_refl. cbn [negb mbind outcome_bind settle app].
    apply quiet_notes_good; [|by repeat constructor]. apply inv_futures; [done|]. apply future_destroy; [apply I|]. intros s Hs. by apply (Hn s _ Hs).
Qed.

Lemma resume_good w own ex va i t : inv w own ex va -> current w = None -> readyq w !! i = Some t -> good (th_step P (Resume i) w) own ex va.
Proof.
  intros I Hc Hi. cbn [th_step]. rewrite Hc, Hi. pose proof I as [A B C D]. rewrite Hc in *. pose proof (list_elem_of_lookup_2 _ _ _ Hi) as Hq. destruct (sc_ready _ _ _ A t Hq) as [k Hk]. unfold find. rewrite Hk. cbn [mbind outcome_bind].
  destruct (taken _ i t (sc_nodup _ _ _ A) Hi) as [_ HQ]. pose proof (sched_resume _ _ i t A Hi) as A'. set (w1 := set_current (Some t) _).
  assert (forall f, f k = false -> same_on f (konts w) (delete t (konts w)) (readyq w) (delete i (readyq w))) as Hf by (intros f Hf; by apply (same_on_resume f _ _ _ t k)).
  assert (is_join k = false -> join_ok (pthreads w) (Cpthread_current w) (delete t (konts w)) (delete i (readyq w)) (Some t) ex) as Hj.
  { intros Hj. apply (join_frame _ _ _ _ _ _ _ _ _ C); [by apply Hf|]. intros s. apply (started_resume _ t k); [done|]. intros p ->. done. }
  assert (is_sync k = false -> sync_ok P (mutexes w) (conds w) (delete t (konts w)) (delete i (readyq w)) own) as Hs by (intros Hs; apply (sync_frame P _ _ _ _ _ _ _ B); by apply Hf).
  assert (is_future k = false -> future_ok (futures w) (next w) (delete t (konts w)) (delete i (readyq w)) va) as Hfu by (intros Hs'; apply (future_frame _ _ _ _ _ _ _ D); by apply Hf).
  destruct k as [p| |m|c m|p|f]; cbn [resume mbind outcome_bind settle app].
  - destruct (j_top _ _ _ _ _ _ C t p Hk) as (x & Hx & _). unfold Cpthread_top, find. cbn [pthreads w1 set_current set_konts set_readyq]. rewrite Hx. cbn [mbind outcome_bind settle app].
    apply quiet_notes_good; [|by repeat constructor]. split; cbn; [done|by apply Hs|by apply (join_top _ _ _ (readyq w))|by apply Hfu].
  - apply quiet_notes_good; [|by repeat constructor]. split; cbn; [done|by apply Hs|by apply Hj|by apply Hfu].
  - destruct (sync_resume_mutex P _ _ _ _ (delete i (readyq w)) _ m t B Hk Hq HQ) as [Ho S]. apply good_acquire; [done|]. split; cbn; [done|done|by apply Hj|by apply Hfu].
  - destruct (sync_resume_cond P _ _ _ _ (delete i (readyq w)) _ c m t B Hk Hq HQ) as (S & Ho & x & Hx & Hg).
    unfold cond_wait_rest, find. cbn [mutexes w1 set_current set_konts set_readyq]. rewrite Hx. cbn [mbind outcome_bind].
    apply (enter_good w1 own ex va t m x); [|done|done|done|done]. split; cbn; [done|done|by apply Hj|by apply Hfu].
  - destruct (join_resume _ _ _ _ (delete i (readyq w)) _ p t (sc_null _ _ _ A) C Hk Hq HQ) as (x & Hx & He & J). unfold join_rest, find. cbn [pthreads w1 set_current set_konts set_readyq]. rewrite Hx. cbn [mbind outcome_bind settle app].
    apply good_joined; [done|]. split; cbn; [done|by apply Hs|done|by apply Hfu].
  - destruct (future_resume _ _ _ _ (delete i (readyq w)) _ f t D Hk Hq HQ) as (F & x & Hx & Hv & Hva). unfold future_rest, find. cbn [futures w1 set_current set_konts set_readyq]. rewrite Hx. cbn [mbind outcome_bind].
    rewrite (proj2 (Z.eqb_neq _ _) Hv). cbn [mbind outcome_bind settle app]. apply good_got; [done|]. split; cbn; [done|by apply Hs|by apply Hj|done].
Qed.

Lemma step_good e w own ex va : inv w own ex va -> th_allowed e w own -> good (th_step P e w) own ex va.
Proof.
  intros I Ha. destruct e as [o|i|f v].
  - cbn [th_step th_allowed] in *. destruct (current w) as [t|] eqn:Hc; [by apply run_good|]. apply quiet_notes_good; [done|constructor].
  - destruct (current w) as [t|] eqn:Hc; [cbn [th_step]; rewrite Hc; apply quiet_notes_good; [done|constructor]|]. destruct (readyq w !! i) as [t|] eqn:Hi; [by apply (resume_good w own ex va i t)|].
    cbn [th_step]. rewrite Hc, Hi. apply quiet_notes_good; [done|constructor].
  - cbn [th_step th_allowed] in *. destruct (current w) as [t|] eqn:Hc; [apply quiet_notes_good; [done|constructor]|]. destruct Ha as [Hf Hv]. destruct (store_inv w own ex va f v I Hf Hv) as (w' & E & _ & I').
    rewrite E. cbn [mbind outcome_bind]. apply good_stored; [constructor|done].
Qed.
End steps.
