(* ===== verification/CpthreadsSafe.v ===== *)
(** * CpthreadsSafe: what threads can rely on

    The theorems about runs of the threads of a processor. *)

From S2P Require Import Prelude Cpthreads CpthreadsSync CpthreadsJoin CpthreadsSpec.
#[local] Open Scope Z_scope.
Set Warnings "-clear-no-such-hyp".

Section runs.
Context (P : Z).

(** The main thread runs, and there is nothing else. *)
Definition start (t0 : Z) : world := mk_world ∅ ∅ ∅ ∅ ∅ ∅ [] (Some t0) ∅ ∅.

(** Who has a mutex after what happened. *)
Definition owner (log : list note) (m : Z) : option Z := default None (replay m (Some None) log).

Fixpoint th_run (es : list event) (w : world) (log : list note) : outcome (world * list note) :=
  match es with
  | [] => Normal (w, log)
  | e :: es => '(w, ns) ← th_step P e w; th_run es w (log ++ ns)
  end.
Fixpoint th_allowed_run (es : list event) (w : world) (log : list note) : Prop :=
  match es with
  | [] => True
  | e :: es => th_allowed P e w (owner log) /\ match th_step P e w with Normal (w, ns) => th_allowed_run es w (log ++ ns) | Aborted => True end
  end.

Lemma inv_start t0 : t0 <> NULL -> inv P (start t0) (fun _ => None) (fun _ => None) (fun _ => None).
Proof.
  intros Hn. split; cbn.
  - split; [by apply NoDup_nil|intros t Ht; by apply elem_of_nil in Ht|intros t [= <-]; by rewrite lookup_empty|intros t k Hk; by rewrite lookup_empty in Hk|intros t k Hk; by rewrite lookup_empty in Hk].
  - split; intros; rewrite ?lookup_empty in *; try done.
  - split; intros; rewrite ?lookup_empty in *; try done.
  - split; intros; rewrite ?lookup_empty in *; try done.
Qed.

(** Statuses and values in a log come from what was given before. *)
Definition faithful (log : list note) : Prop :=
  (forall l1 t p v l2, log = l1 ++ NJoined t p v :: l2 -> fold_left (exit_note p) l1 None = Some v) /\
  (forall l1 t f v l2, log = l1 ++ NGot t f v :: l2 -> fold_left (store_note f) l1 None = Some v).

(** The state of a run, with what its log says. *)
Definition reached (w : world) (log : list note) : Prop := exists own,
  inv P w own (fun p => fold_left (exit_note p) log None) (fun f => fold_left (store_note f) log None) /\ (forall m, replay m (Some None) log = Some (own m)) /\ faithful log.

Lemma first_note {A} (l1 l2 : list A) n tl l k : l1 ++ n :: tl = l ++ k :: l2 -> k ∉ tl -> (k = n /\ l = l1) \/ exists l2', l1 = l ++ k :: l2'.
Proof.
  revert l1. induction l as [|b l IH]; intros [|a l1] E Hk; cbn in E.
  - injection E as -> _. by left.
  - injection E as -> _. right. by exists l1.
  - injection E as -> ->. destruct Hk. apply elem_of_app. right. left.
  - injection E as -> E. destruct (IH l1 E Hk) as [[-> ->]|[l2' ->]]; [by left|right; by exists l2'].
Qed.

Lemma split_after {A} (log ns l1 l2 : list A) k : log ++ ns = l1 ++ k :: l2 -> k ∉ ns -> exists l2', log = l1 ++ k :: l2'.
Proof.
  revert log. induction l1 as [|b l1 IH]; intros [|a log] E Hk; cbn in E.
  - subst ns. destruct Hk. left.
  - injection E as -> _. by exists log.
  - subst ns. destruct Hk. right. apply elem_of_app. right. left.
  - injection E as -> E. destruct (IH log E Hk) as [l2' ->]. by exists l2'.
Qed.

Lemma faithful_step log ns : faithful log -> (forall t p v, NJoined t p v ∈ ns -> fold_left (exit_note p) log None = Some v /\ ns = [NJoined t p v; NRet t 0]) ->
  (forall t f v, NGot t f v ∈ ns -> fold_left (store_note f) log None = Some v /\ ns = [NGot t f v; NRet t v]) -> faithful (log ++ ns).
Proof.
  intros [F1 F2] H1 H2. split.
  - intros l1 t p v l2 E. destruct (decide (NJoined t p v ∈ ns)) as [Hin|Hin].
    + destruct (H1 t p v Hin) as [Hv ->]. apply first_note in E as [[_ ->]|[l2' E]]; [done| |intros Hx; by apply list_elem_of_singleton in Hx]. by apply (F1 l1 t p v l2').
    + destruct (split_after _ _ _ _ _ E Hin) as [l2' E']. by apply (F1 l1 t p v l2').
  - intros l1 t p v l2 E. destruct (decide (NGot t p v ∈ ns)) as [Hin|Hin].
    + destruct (H2 t p v Hin) as [Hv ->]. apply first_note in E as [[_ ->]|[l2' E]]; [done| |intros Hx; by apply list_elem_of_singleton in Hx]. by apply (F2 l1 t p v l2').
    + destruct (split_after _ _ _ _ _ E Hin) as [l2' E']. by apply (F2 l1 t p v l2').
Qed.

Lemma run_reached es : forall w log, reached w log -> th_allowed_run es w log -> exists w' log', th_run es w log = Normal (w', log') /\ reached w' log'.
Proof.
  induction es as [|e es IH]; intros w log R Ha; [by exists w, log|]. destruct Ha as [H1 H2]. destruct R as (own & I & Hr & F).
  assert (th_allowed P e w own) as Ha1.
  { assert (forall m, owner log m = own m) as Ho by (intros m; unfold owner; by rewrite Hr). destruct e as [o|i|f v]; [|done|done]. cbn [th_allowed] in *. destruct (current w) as [t|]; [|done]. destruct o; try done. cbn [op_allowed] in *. by rewrite <- Ho. }
  destruct (step_good P e w own _ _ I Ha1) as (w1 & ns & own1 & ex1 & va1 & E1 & I1 & R1 & X1 & V1 & J1 & G1). cbn [th_run]. rewrite E1 in *. cbn [mbind outcome_bind]. apply IH; [|done].
  exists own1. split; [|split].
  - destruct I1 as [A B C D]. split; [done|done| |].
    + apply (join_ext _ _ _ _ _ _ _ C). intros p. by rewrite fold_left_app, X1.
    + apply (future_ext _ _ _ _ _ _ D). intros f. by rewrite fold_left_app, V1.
  - intros m. by rewrite replay_app, Hr.
  - by apply faithful_step.
Qed.

Lemma runs_reach t0 es : t0 <> NULL -> th_allowed_run es (start t0) [] -> exists w log, th_run es (start t0) [] = Normal (w, log) /\ reached w log.
Proof.
  intros Hn Ha. apply run_reached; [|done]. exists (fun _ => None). split; [by apply inv_start|]. split; [done|]. split; intros [|n l1] t p v l2 E; done.
Qed.


(** Why a thread is suspended. *)
Definition waits (w : world) (log : list note) (t : Z) (k : kont) : Prop :=
  match k with
  | KTop _ | KYield => False
  | KMutex m => exists x u, mutexes w !! m = Some x /\ head (mu_users x) = Some u /\ u <> t /\ (owner log m = Some u \/ u ∈ readyq w)
  | KCond c _ => exists y, conds w !! c = Some y /\ t ∈ co_users y
  | KJoin p => exists x, pthreads w !! p = Some x /\ pt_thread x <> NULL
  | KFuture f => exists x, futures w !! f = Some x /\ f_ready x = 0
  end.


End runs.

(** ** A concrete run *)

#[global] Instance op_allowed_dec P t o w own : Decision (op_allowed P t o w own).
Proof.
  destruct o as [m g|m|m|m|m|c g|c|c m|c|c|p s g d fn arg|r a|e|v|p|p| |f|pe f v|pe f|pe f]; cbn [op_allowed]; try apply _.
  - destruct (mutexes w !! m); apply _.
  - apply and_dec; [apply _|]. apply map_Forall_dec. intros s k. destruct k; apply _.
  - destruct (conds w !! c); apply _.
  - destruct (conds w !! c); apply _.
  - destruct (pthreads w !! p); apply _.
  - destruct (pthreads w !! p); apply _.
Defined.

#[global] Instance th_allowed_dec P e w own : Decision (th_allowed P e w own).
Proof. destruct e; cbn [th_allowed]; destruct (current w); apply _. Defined.

#[global] Instance th_allowed_run_dec P es : forall w log, Decision (th_allowed_run P es w log).
Proof. induction es as [|e es IH]; intros w log; cbn [th_allowed_run]; [left; exact I|]. apply and_dec; [apply _|]. destruct (th_step P e w) as [[w' ns]|]; [apply IH|left; exact I]. Defined.

(** The main thread 1 waits for a condition that thread 2 signals while it has
    the mutex; then it joins thread 2, and gets a value from another processor. *)
Definition meeting : list event :=
  [Run (OMutexInit 10 MATTR_MAGIC); Run (OCondInit 20 CATTR_MAGIC); Run (OCreate 100 2 ATTR_MAGIC 0 55 66); Run (OLock 10); Run (OWait 20 10);
   Resume 0; Run (OLock 10); Run (OSignal 20); Run OYield; Resume 0; Resume 0; Run (OUnlock 10); Run (OExit 7);
   Resume 0; Run (OUnlock 10); Run (OJoin 100); Run (OFutureCreate 30); Run (OFutureWait 0 30); Store 30 99; Resume 0].




(** A thread that locks a mutex twice gets it at once the second time, and its
    first unlock lets the next thread in: [users] does not tell the two locks
    apart. *)
Definition lock_notes (n : note) : bool := match n with NAcquired _ _ | NReleased _ _ => true | _ => false end.
Example relock_admits_two :
  ('(_, log) ← th_run 0 [Run (OMutexInit 10 MATTR_MAGIC); Run (OCreate 100 2 ATTR_MAGIC 0 55 66); Run (OLock 10); Run OYield; Resume 0; Run (OLock 10); Resume 0;
                  Run (OLock 10); Run (OUnlock 10); Run OYield; Resume 0] (start 1) []; Normal (List.filter lock_notes log)) =
  Normal [NAcquired 1 10; NAcquired 1 10; NReleased 1 10; NAcquired 2 10].
Proof. vm_compute. reflexivity. Qed.
