(* ===== verification/CpKeys.v ===== *)
(** * CpKeys: thread-private keys (conv-core/cpthreads.c)

    A key is an offset into the private data of every thread.  Keys that were
    deleted are kept and used again, with the same offset. *)

From S2P Require Import Prelude.
#[local] Open Scope Z_scope.
Set Warnings "-clear-no-such-hyp".

Definition KEY_MAGIC : Z := 0x99934315.
Definition FKEY_MAGIC : Z := 0x99934315.

Record Cpthread_key_s := mk_key { key_magic : Z; key_offset : Z; key_destructo : Z }.

(** The lists of keys, the private data of threads ([CthData]) and the size that
    [CthRegister] has handed out. *)
Record keys := mk_keys {
  key_data : gmap Z Cpthread_key_s;
  keys_active : list Z;
  keys_inactive : list Z;
  CthData : gmap (Z * Z) Z;
  CthDatasize : Z
}.

(** The least power of two that is not below the size; 64 doublings are enough for
    a [size_t]. *)
Fixpoint align_loop (fuel : nat) (size align : Z) : Z :=
  match fuel with
  | O => align
  | S f => if size >? align then align_loop f size (align * 2) else align
  end.

(** The offset and the new size of the private data (threads.c). *)
Definition CthRegister (size datasize : Z) : Z * Z :=
  let align := align_loop 64 size 1 in
  let result := Z.land (datasize + align - 1) (Z.lnot (align - 1)) in
  (result, result + size).

(** [malloc] returns [k]. *)
Definition Cpthread_key_create (k destructo : Z) (s : keys) : keys * Z :=
  match keys_inactive s with
  | key :: rest =>
      let off := match key_data s !! key with Some x => key_offset x | None => 0 end in
      (mk_keys (<[key := mk_key KEY_MAGIC off destructo]> (key_data s)) (key :: keys_active s) rest (CthData s) (CthDatasize s), key)
  | [] =>
      let '(off, size) := CthRegister 8 (CthDatasize s) in
      (mk_keys (<[k := mk_key KEY_MAGIC off destructo]> (key_data s)) (k :: keys_active s) [] (CthData s) size, k)
  end.

(** [active->next == key] is looked for behind the first key. *)
Definition Cpthread_key_delete (key : Z) (s : keys) : outcome (keys * Z) :=
  match key_data s !! key with
  | None => Aborted
  | Some x =>
      if negb (key_magic x =? KEY_MAGIC) then Normal (s, -1)
      else if decide (key ∈ keys_active s) then
        Normal (mk_keys (<[key := mk_key FKEY_MAGIC (key_offset x) (key_destructo x)]> (key_data s)) (filter (fun y => y <> key) (keys_active s)) (key :: keys_inactive s) (CthData s) (CthDatasize s), 0)
      else Normal (s, -1)
  end.

Definition Cpthread_setspecific (t key val : Z) (s : keys) : outcome (keys * Z) :=
  match key_data s !! key with
  | None => Aborted
  | Some x =>
      if negb (key_magic x =? KEY_MAGIC) then Normal (s, -1)
      else Normal (mk_keys (key_data s) (keys_active s) (keys_inactive s) (<[(t, key_offset x) := val]> (CthData s)) (CthDatasize s), 0)
  end.

Definition Cpthread_getspecific (t key : Z) (s : keys) : outcome Z :=
  match key_data s !! key with
  | None => Aborted
  | Some x => if negb (key_magic x =? KEY_MAGIC) then Normal 0 else Normal (default 0 (CthData s !! (t, key_offset x)))
  end.

(** [Cpthread_top]: a new thread has no values. *)
Definition clear_keys (t : Z) (s : keys) : keys :=
  mk_keys (key_data s) (keys_active s) (keys_inactive s)
    (foldr (fun k m => match key_data s !! k with Some x => <[(t, key_offset x) := 0]> m | None => m end) (CthData s) (keys_active s)) (CthDatasize s).

(** [Cpthread_exit]: the destructors that run, each with its value. *)
Definition run_destructors (t : Z) (s : keys) : list (Z * Z) :=
  omap (fun k => x ← key_data s !! k;
                 let priv := default 0 (CthData s !! (t, key_offset x)) in
                 if (key_destructo x =? 0) || (priv =? 0) then None else Some (key_destructo x, priv)) (keys_active s).

(** Every key is in one list, and the 8 bytes of two keys do not overlap. *)
Record keys_ok (s : keys) : Prop := mk_keys_ok {
  ko_lists : NoDup (keys_active s ++ keys_inactive s);
  ko_data k : k ∈ (keys_active s ++ keys_inactive s) <-> is_Some (key_data s !! k);
  ko_offset k x k' x' : key_data s !! k = Some x -> key_data s !! k' = Some x' -> Z.abs (key_offset x - key_offset x') < 8 -> k = k';
  ko_size k x : key_data s !! k = Some x -> key_offset x + 8 <= CthDatasize s
}.

Lemma register_pointer d : let '(off, size) := CthRegister 8 d in d <= off < d + 8 /\ size = off + 8.
Proof.
  unfold CthRegister. replace (align_loop 64 8 1) with 8 by reflexivity.
  assert (Z.land (d + 8 - 1) (Z.lnot (8 - 1)) = (d + 7) - (d + 7) mod 8) as ->; [|split; [|lia]; pose proof (Z.mod_pos_bound (d + 7) 8); lia].
  replace (8 - 1) with (Z.ones 3) by reflexivity. rewrite <- Z.ldiff_land, Z.ldiff_ones_r by lia.
  rewrite Z.shiftl_mul_pow2, Z.shiftr_div_pow2 by lia. change (2 ^ 3) with 8. replace (d + 8 - 1) with (d + 7) by lia. rewrite (Z.div_mod (d + 7) 8) at 2 by lia. lia.
Qed.

Lemma key_create_ok k d s : keys_ok s -> key_data s !! k = None -> keys_ok (Cpthread_key_create k d s).1.
Proof.
  intros [K1 K2 K3 K4] Hk. unfold Cpthread_key_create. destruct (keys_inactive s) as [|key rest] eqn:Ei.
  - pose proof (register_pointer (CthDatasize s)) as Hr. destruct (CthRegister 8 (CthDatasize s)) as [off size], Hr as [Hr ->].
    split; cbn [fst keys_active keys_inactive key_data CthDatasize] in *; rewrite ?app_nil_r in *.
    + constructor; [|done]. intros Hin. apply K2 in Hin as [x Hx]. congruence.
    + intros y. rewrite elem_of_cons, lookup_insert_is_Some, <- K2. clear K1 K2 K3 K4 Hk; destruct (decide (y = k)); naive_solver.
    + intros a x b y [[<- <-]|[Hne Ha]]%lookup_insert_Some [[<- <-]|[Hne' Hb]]%lookup_insert_Some; cbn [key_offset]; [done| | |by apply K3].
      * specialize (K4 b y Hb). lia.
      * specialize (K4 a x Ha). lia.
    + intros a x [[<- <-]|[_ Ha]]%lookup_insert_Some; cbn; [lia|]. specialize (K4 a x Ha). lia.
  - assert (is_Some (key_data s !! key)) as [x0 Hx0] by (apply K2, elem_of_app; right; left). rewrite Hx0. split; cbn [fst keys_active keys_inactive key_data CthDatasize] in *.
    + cbn [app]. by rewrite <- Permutation_middle in K1.
    + intros y. cbn [app]. assert (y ∈ (key :: keys_active s ++ rest) <-> y ∈ (keys_active s ++ key :: rest)) as -> by (rewrite elem_of_cons, !elem_of_app, elem_of_cons; tauto). rewrite K2.
      destruct (decide (y = key)) as [->|Hne]; [rewrite lookup_insert_eq, Hx0; split; by eexists|by rewrite lookup_insert_ne].
    + intros a x b y [[<- <-]|[Hne Ha]]%lookup_insert_Some [[<- <-]|[Hne' Hb]]%lookup_insert_Some; cbn [key_offset]; [done|by apply K3|by apply K3|by apply K3].
    + intros a x [[<- <-]|[_ Ha]]%lookup_insert_Some; [by apply (K4 key x0)|by apply (K4 a x)].
Qed.

Lemma key_delete_ok k s s' r : keys_ok s -> Cpthread_key_delete k s = Normal (s', r) -> keys_ok s'.
Proof.
  intros [K1 K2 K3 K4]. unfold Cpthread_key_delete. destruct (key_data s !! k) as [x0|] eqn:Hx0; [|done].
  destruct (negb _); [by intros [= <- <-]|]. destruct (decide (k ∈ keys_active s)) as [Hk|]; [|by intros [= <- <-]]. intros [= <- <-].
  assert (keys_active s ≡ₚ k :: filter (fun y => y <> k) (keys_active s)) as Hp.
  { apply NoDup_Permutation; [by apply NoDup_app in K1 as [? _]| |].
    - constructor; [rewrite list_elem_of_filter; tauto|]. apply NoDup_filter. by apply NoDup_app in K1 as [? _].
    - intros y. rewrite elem_of_cons, list_elem_of_filter. clear K1 K2 K3 K4; destruct (decide (y = k)); naive_solver. }
  split; cbn [keys_active keys_inactive key_data CthDatasize].
  - rewrite <- Permutation_middle. by rewrite Hp in K1.
  - intros y. rewrite <- Permutation_middle. change (k :: filter (fun y => y <> k) (keys_active s) ++ keys_inactive s) with ((k :: filter (fun y => y <> k) (keys_active s)) ++ keys_inactive s). rewrite <- Hp, K2.
    destruct (decide (y = k)) as [->|Hne]; [rewrite lookup_insert_eq, Hx0; split; by eexists|by rewrite lookup_insert_ne].
  - intros a x b y [[<- <-]|[Hne Ha]]%lookup_insert_Some [[<- <-]|[Hne' Hb]]%lookup_insert_Some; cbn [key_offset]; [done|by apply K3|by apply K3|by apply K3].
  - intros a x [[<- <-]|[_ Ha]]%lookup_insert_Some; [by apply (K4 k x0)|by apply (K4 a x)].
Qed.

(** A value that a thread sets is the one it gets, and setting one key changes
    neither other keys nor other threads. *)
Lemma key_separate t k v s s' : keys_ok s -> k ∈ keys_active s -> Cpthread_setspecific t k v s = Normal (s', 0) ->
  Cpthread_getspecific t k s' = Normal v /\ forall t' k', (t', k') <> (t, k) -> is_Some (key_data s !! k') -> Cpthread_getspecific t' k' s' = Cpthread_getspecific t' k' s.
Proof.
  intros [K1 K2 K3 K4] Hk. unfold Cpthread_setspecific, Cpthread_getspecific. destruct (key_data s !! k) as [x|] eqn:Hx; [|done]. destruct (Z.eqb_spec (key_magic x) KEY_MAGIC) as [Hm|]; cbn [negb]; [|done]. intros [= <-]. cbn [key_data CthData]. rewrite Hx.
  split; [rewrite Hm, Z.eqb_refl; cbn [negb]; by rewrite lookup_insert_eq|]. intros t' k' Hne [x' Hx']. rewrite Hx'. destruct (negb (key_magic x' =? KEY_MAGIC)); [done|]. rewrite lookup_insert_ne; [done|].
  intros [= -> E]. apply Hne. f_equal. symmetry. apply (K3 k x k' x'); [done|done|lia].
Qed.

(** A key that is created after another was deleted has the value of the deleted
    one, and a deleted key can still be used. *)
Definition no_keys : keys := mk_keys ∅ [] [] ∅ 0.
Example new_key_is_stale :
  (let s := (Cpthread_key_create 50 0 no_keys).1 in '(s, _) ← Cpthread_setspecific 1 50 7 s; '(s, _) ← Cpthread_key_delete 50 s;
   old ← Cpthread_getspecific 1 50 s; let '(s, k) := Cpthread_key_create 60 0 s in new ← Cpthread_getspecific 1 k s; Normal (old, new)) = Normal (7, 7).
Proof. vm_compute. reflexivity. Qed.
