(* ===== verification/CpAttr.v ===== *)
(** * CpAttr: attributes and one-time initialisation (conv-core/cpthreads.c)

    Attribute structures carry a magic number; every routine but the initialisers
    checks it and answers [EINVAL] when it is wrong.  A routine returns the new
    structure and [None] for success or [Some errno] for the return value -1. *)

From S2P Require Import Prelude Cpthreads.
#[local] Open Scope Z_scope.

Record Cpthread_attr_s := mk_attr { attr_magic : Z; attr_detached : Z; attr_stacksize : Z }.
(** [Cpthread_mutexattr_s] and [Cpthread_condattr_s] have the same fields. *)
Record Cpthread_mutexattr_s := mk_sattr { sattr_magic : Z; sattr_pshared : Z }.

Definition Cpthread_attr_init (a : Cpthread_attr_s) : Cpthread_attr_s := mk_attr ATTR_MAGIC 0 0.

(** The shape of the other routines: [if (attr->magic != MAGIC) errcode(EINVAL);]. *)
Definition with_magic {A B} (magic want : Z) (a : A) (r : A * B) (bad : B) : A * B * option Z :=
  if negb (magic =? want) then (a, bad, Some EINVAL) else (r, None).

Definition Cpthread_attr_destroy (a : Cpthread_attr_s) :=
  with_magic (attr_magic a) ATTR_MAGIC a (mk_attr 0 (attr_detached a) (attr_stacksize a), tt) tt.
(** [*size] is a [size_t]; it keeps its value on an error. *)
Definition Cpthread_attr_getstacksize (a : Cpthread_attr_s) (size : Z) :=
  with_magic (attr_magic a) ATTR_MAGIC a (a, u64 (attr_stacksize a)) size.
Definition Cpthread_attr_setstacksize (a : Cpthread_attr_s) (size : Z) :=
  with_magic (attr_magic a) ATTR_MAGIC a (mk_attr (attr_magic a) (attr_detached a) (i32 size), tt) tt.
Definition Cpthread_attr_getdetachstate (a : Cpthread_attr_s) (state : Z) :=
  with_magic (attr_magic a) ATTR_MAGIC a (a, attr_detached a) state.
Definition Cpthread_attr_setdetachstate (a : Cpthread_attr_s) (state : Z) :=
  with_magic (attr_magic a) ATTR_MAGIC a (mk_attr (attr_magic a) state (attr_stacksize a), tt) tt.

(** [pshared] is left as it was. *)
Definition Cpthread_mutexattr_init (a : Cpthread_mutexattr_s) : Cpthread_mutexattr_s := mk_sattr MATTR_MAGIC (sattr_pshared a).
Definition Cpthread_mutexattr_destroy (a : Cpthread_mutexattr_s) :=
  with_magic (sattr_magic a) MATTR_MAGIC a (mk_sattr 0 (sattr_pshared a), tt) tt.
Definition Cpthread_mutexattr_getpshared (a : Cpthread_mutexattr_s) (pshared : Z) :=
  with_magic (sattr_magic a) MATTR_MAGIC a (a, sattr_pshared a) pshared.
Definition Cpthread_mutexattr_setpshared (a : Cpthread_mutexattr_s) (pshared : Z) :=
  with_magic (sattr_magic a) MATTR_MAGIC a (mk_sattr (sattr_magic a) pshared, tt) tt.

Definition Cpthread_condattr_init (a : Cpthread_mutexattr_s) : Cpthread_mutexattr_s := mk_sattr CATTR_MAGIC (sattr_pshared a).
(** The magic number stays. *)
Definition Cpthread_condattr_destroy (a : Cpthread_mutexattr_s) :=
  with_magic (sattr_magic a) CATTR_MAGIC a (a, tt) tt.
Definition Cpthread_condattr_getpshared (a : Cpthread_mutexattr_s) (pshared : Z) :=
  with_magic (sattr_magic a) CATTR_MAGIC a (a, sattr_pshared a) pshared.
Definition Cpthread_condattr_setpshared (a : Cpthread_mutexattr_s) (pshared : Z) :=
  with_magic (sattr_magic a) CATTR_MAGIC a (mk_sattr (sattr_magic a) pshared, tt) tt.

(** [flag] has 32 entries; the result says whether [fn] is called. *)
Definition Cpthread_once (rank : nat) (flag : list Z) : outcome (list Z * bool) :=
  if (32 <=? rank)%nat then Aborted
  else match flag !! rank with
  | None => Aborted
  | Some v => Normal (if negb (v =? 0) then (flag, false) else (<[rank := 1]> flag, true))
  end.

Definition Cpthread_start_main (CmiMyRank CmiMyPe self pt t fn arg : Z) (a0 : Cpthread_attr_s) (w : world) : outcome (world * result) :=
  if CmiMyRank =? 0 then
    let '(a, _, _) := Cpthread_attr_setdetachstate (Cpthread_attr_init a0) 1 in
    Cpthread_create self pt t (attr_magic a) (attr_detached a) fn arg w
  else Normal (w, Ret 0 []).

(** ** Theorems *)

(** A stack size below 2^31 is read back; the field is an [int]. *)
Lemma stacksize_roundtrip a n a' u : attr_magic a = ATTR_MAGIC -> 0 <= n < 2 ^ 31 -> Cpthread_attr_setstacksize a n = (a', u, None) -> forall old, Cpthread_attr_getstacksize a' old = (a', n, None).
Proof.
  unfold Cpthread_attr_setstacksize, Cpthread_attr_getstacksize, with_magic. intros -> Hn. rewrite Z.eqb_refl. intros [= <- _] old. cbn [attr_magic attr_stacksize negb]. rewrite Z.eqb_refl. cbn [negb].
  rewrite i32_small by lia. unfold u64. by rewrite Z.mod_small by lia.
Qed.
Example stacksize_truncated : let '(a, _, _) := Cpthread_attr_setstacksize (mk_attr ATTR_MAGIC 0 0) (2 ^ 31) in Cpthread_attr_getstacksize a 0 = (a, 2 ^ 64 - 2 ^ 31, None).
Proof. vm_compute. reflexivity. Qed.

(** A destroyed mutex attribute is refused, a destroyed condition attribute is not. *)
Lemma destroyed_mutexattr a b c : Cpthread_mutexattr_destroy a = (b, tt, None) -> Cpthread_mutexattr_setpshared b c = (b, tt, Some EINVAL).
Proof. unfold Cpthread_mutexattr_destroy, with_magic. destruct (negb _); [done|]. by intros [= <-]. Qed.
Example destroyed_condattr_is_used : let '(a, _, _) := Cpthread_condattr_destroy (Cpthread_condattr_init (mk_sattr 0 0)) in Cpthread_condattr_setpshared a 1 = (mk_sattr CATTR_MAGIC 1, tt, None).
Proof. vm_compute. reflexivity. Qed.

(** Whatever ranks call it and how often, the function runs exactly once for each rank that called. *)
Fixpoint once_runs (ranks : list nat) (flag : list Z) : outcome (list Z * list nat) :=
  match ranks with
  | [] => Normal (flag, [])
  | r :: ranks => '(flag, ran) ← Cpthread_once r flag; '(flag, l) ← once_runs ranks flag; Normal (flag, match ran with true => r :: l | false => l end)
  end.
Lemma once_runs_spec ranks : forall flag, length flag = 32%nat -> Forall (fun r => (r < 32)%nat) ranks ->
  exists flag' l, once_runs ranks flag = Normal (flag', l) /\ NoDup l /\ forall r, r ∈ l <-> r ∈ ranks /\ flag !! r = Some 0.
Proof.
  induction ranks as [|r ranks IH]; intros flag Hl Hr; cbn [once_runs].
  - exists flag, []. split; [done|]. split; [constructor|]. intros r. rewrite elem_of_nil. tauto.
  - apply Forall_cons in Hr as [Hr Hrs]. unfold Cpthread_once. rewrite (proj2 (Nat.leb_gt _ _) Hr). destruct (lookup_lt_is_Some_2 flag r) as [v Hv]; [lia|]. rewrite Hv. cbn [mbind outcome_bind].
    destruct (Z.eqb_spec v 0) as [->|Hv0]; cbn [negb mbind outcome_bind].
    + destruct (IH (<[r := 1]> flag)) as (f' & l & -> & Hd & Hi); [by rewrite length_insert|done|]. exists f', (r :: l). split; [done|]. split; [constructor; [|done]|].
      * intros [_ E]%Hi. rewrite list_lookup_insert_eq in E by lia. done.
      * intros q. rewrite !elem_of_cons, Hi. destruct (decide (q = r)) as [->|Hq]; [tauto|]. rewrite list_lookup_insert_ne by done. tauto.
    + destruct (IH flag Hl Hrs) as (f' & l & -> & Hd & Hi). exists f', l. split; [done|]. split; [done|]. intros q. rewrite elem_of_cons, Hi. destruct (decide (q = r)) as [->|Hq]; [|tauto]. rewrite Hv. split; [intros [_ [= ?]]; done|intros [_ [= ?]]; done].
Qed.
Corollary once_per_rank ranks : Forall (fun r => (r < 32)%nat) ranks -> exists flag l, once_runs ranks (replicate 32 0) = Normal (flag, l) /\ NoDup l /\ forall r, r ∈ l <-> r ∈ ranks.
Proof.
  intros Hr. destruct (once_runs_spec ranks (replicate 32 0)) as (f & l & E & Hd & Hi); [done|done|]. exists f, l. split; [done|]. split; [done|]. intros r. rewrite Hi. split; [tauto|]. intros H. split; [done|]. apply lookup_replicate. split; [done|]. rewrite Forall_forall in Hr. by apply Hr.
Qed.
